(* ===== verification/_CoqProject ===== *)
-Q . S2P
Prelude.v
KVStore.v
Bytes.v
Hex.v
Secp256k1.v
Eots.v
AdaptorSig.v
Btcd.v
BtcTxFormatter.v
BtcUtils.v
BtcTx.v
BtcTxToy.v
StakingScripts.v
BtcLightClient.v
BtcLightClientKeeper.v
BtcLightClientSpec.v
Epoching.v
EpochingSpec.v
Checkpointing.v
CheckpointingProposal.v
BtcCheckpoint.v
BtcCheckpointSpec.v
BtcStaking.v
StakingTx.v
StakingSlash.v
StakingPop.v
StakingMsg.v
StakingKeeper.v
StakingVersions.v
StakingKeeperSpec.v
StakingState.v
StakingGenesis.v
StakingExamples.v
StakingRun.v
Finality.v
FinalityPower.v
FinalityVotes.v
FinalityPowerSpec.v
FinalityTally.v
FinalityLiveness.v
FinalityRand.v
FinalityVotesSpec.v
FinalityBegin.v
FinalityResume.v
FinalityChain.v
FinalityHalts.v
FinalityExamples.v
SdkCoins.v
ZSum.v
GenesisEntries.v
Incentive.v
IncentiveSpec.v
IncentiveRefund.v
IncentiveState.v
IncentiveGenesis.v
IncentiveRun.v
Costaking.v
CostakingSpec.v
CostakingScore.v
CostakingState.v
CostakingGenesis.v
CostakingRun.v
Mint.v
MintSpec.v
EotsStore.v
EotsManager.v
EotsManagerSpec.v
System.v
