(* ===== verification/Prelude.v ===== *)
(** A verification of the checkpointing, staking, finality and reward subsystems of the
    Anon chain.

    * The program

    [src/anon] is a Cosmos SDK blockchain that anchors itself in Bitcoin.  Its
    time is cut into epochs; at the end of an epoch the validators sign the last
    block with BLS keys, the signatures are aggregated into a checkpoint, and
    anybody may write the checkpoint to Bitcoin in two OP_RETURN transactions and
    report them back with proofs of inclusion.  When the Bitcoin blocks holding a
    submission are deep enough the epoch is confirmed, then finalised.  Blocks are
    also finalised within seconds: holders of bitcoin lock them and lend their
    weight to finality providers, who vote for blocks with signatures that give
    away their key when they vote twice.  These Go modules cooperate:

    - [x/btclightclient] keeps the best chain of Bitcoin headers and tells the
      others when its tip moves;
    - [x/epoching] counts epochs, freezes the validator set of each epoch and
      queues staking messages until its end;
    - [x/checkpointing] collects signatures into checkpoints, follows their life
      cycle and registers BLS keys;
    - [x/btccheckpoint] checks and records submissions, and at the end of a block
      in which the tip moved decides which epochs are confirmed, finalised or
      forgotten, and reports that to [x/checkpointing];
    - [btctxformatter] is the wire format of a checkpoint on Bitcoin;
    - [crypto/eots] and [crypto/schnorr-adaptor-signature] are the one-time
      signatures of votes and the encrypted signatures of the covenant;
    - [btcstaking] has the Bitcoin scripts of staking: how a stake is locked, unbonded
      and slashed;
    - [x/btcstaking] registers finality providers and delegations of bitcoin, checks
      the transactions that make them slashable, collects the signatures of the
      covenant committee, and records as events what changes their voting power;
    - [x/finality] turns the events into the voting power of each block, takes in
      commitments to public randomness and votes, finalises blocks, slashes double
      voters, jails absent ones and hands final blocks to the reward modules;
    - [x/incentive] takes a share of the fees of each block, divides it among the
      finality providers that voted for the block and their delegators, keeps what
      each may withdraw, and refunds the fees of useful transactions;
    - [x/costaking] gives a score to those who stake both bitcoin and the native token,
      divides another share of the fees by score, and pays into the gauges of
      [x/incentive];
    - [x/mint] mints the block provisions into the collected fees.

    [src/finality-provider] is the software of a finality provider.  Its daemon
    [eotsmanager] holds the keys and signs the votes; it remembers what it signed, so
    that its owner is not slashed by mistake.

    * The files

    - [Prelude] (this file): outcomes of Go functions ([res]: a value, an error or
      a panic) with their tactics, machine integers, loops over iterators, lists.
    - [KVStore], [Bytes]: the SDK's stores with integer keys and with byte keys,
      in iteration order; bytes, slices, big-endian integers.
    - [Btcd]: what the code uses of btcd, as a class of parameters with the laws
      the theorems rely on, and a small instance for the examples.
    - [BtcTxFormatter]: [btctxformatter/formatter.go].  Encoding and decoding are
      inverse on well-formed checkpoints, payloads are recognised, and no payload
      makes a reader panic.
    - [BtcUtils]: [x/btccheckpoint/types/btcutils.go].  Merkle proofs are complete
      and sound up to hash collisions; they do not bind the index.
    - [BtcLightClient], [BtcLightClientKeeper]: [x/btclightclient], its chain rules
      ([types/btc_light_client.go], [types/work.go]) and its keeper, messages,
      parameters and genesis.  [BtcLightClientSpec] has the abstract light client,
      one well-formed chain and the function [insert_spec], proves that the keeper
      refines it, hooks included, and derives the promises: the chain with more
      work wins, nothing panics, queries read the chain, genesis round trips.
    - [Epoching]: [x/epoching].  Binary search agrees with lookup, the total power is
      the sum, the message queue is first in, first out.  [EpochingSpec]: the steps of
      the module as a relation (blocks, queued messages, slashing, changes of the
      parameters, other modules) and its invariant: the stored epochs tile the
      heights, and the blockers succeed unless a hook panics.
    - [Checkpointing]: [x/checkpointing] and [crypto/bls12381/bls.go].  The life
      cycle of a checkpoint, aggregation that counts every validator once,
      one-to-one registration, verification of checkpoints read from Bitcoin.
    - [CheckpointingProposal]: [x/checkpointing/prepare/proposal.go].  The block
      hash with a quorum does not depend on the iteration order of Go maps, built
      checkpoints carry a quorum, validators rebuild the proposer's checkpoint.
    - [BtcCheckpoint]: [x/btccheckpoint], against two interfaces
      ([BTCLightClientKeeper], [CheckpointingKeeper], the Go interfaces of
      [types/expected_keepers.go]).  [BtcCheckpointSpec] states the laws of the
      interfaces and proves the promises: where a submission is, which one is the
      best, that a moved tip settles every open epoch, when a block halts the
      chain, what a submission message does, that finalised epochs never change
      and that the two modules agree.
    - [Hex], [Secp256k1]: hexadecimal strings; what the code uses of the curve, as
      a class with the laws of a group of prime order, and a curve with seven
      points for the examples.
    - [Eots], [AdaptorSig]: [crypto/eots], [crypto/schnorr-adaptor-signature].
      Honest signatures verify, two signatures under one randomness give away the
      key, decrypted adaptor signatures verify, and a published one gives away the
      decryption key.
    - [BtcTx]: transactions, scripts and signatures of Bitcoin as two classes,
      [BtcTx] and [TxScript], with their laws, and a semantics of the opcodes that
      staking uses; [BtcTxToy] is an instance with proofs of the laws.
    - [StakingScripts], [StakingTx]: [btcstaking].  A staking output can be spent in
      its three ways and only with the signatures each asks for; a slashing
      transaction that is accepted pays the slashed share and locks the rest, and one
      that is built is accepted.
    - [BtcStaking]: of [x/btcstaking] the data, the status of delegations, the
      versions of the parameters, the power events, slashing and jailing.
      [StakingSlash] has the signatures of slashing transactions, [StakingPop] the
      proofs of possession with [crypto/bip322] and [crypto/ecdsa], [StakingMsg] the
      messages, their parsing and validation, [StakingKeeper] the message server with
      everything its handlers call.
    - [StakingVersions]: the versions of the parameters are never overwritten, and
      binary search finds the right one.  [StakingKeeperSpec]: what a delegation that
      was accepted carries.  [StakingState]: the steps of the module as a relation,
      its invariant, and what holds in every reachable state: delegations are well
      formed and indexed, chains of stake expansions end, commissions stay in their
      bounds, and a delegation with a quorum can be slashed with the key of its
      finality provider.  [StakingGenesis]: export and import of the state.
      [StakingExamples], [StakingRun]: a delegation on the small Bitcoin and a run of
      the module from the empty store, which witness these theorems.
    - [Finality], [FinalityPower], [FinalityVotes]: [x/finality]: its stores; the
      distribution of voting power at the beginning of a block; votes, tallying,
      liveness, rewards, resuming and all messages.  The modules it calls are the
      classes [FinalityHooks] and [IncentiveKeeper] and the record [EpochView].
    - [FinalityPowerSpec]: the power follows the events, the active providers are
      the best ones.  [FinalityTally]: what a quorum is, which blocks become final.
      [FinalityLiveness]: who is jailed, what is rewarded.  [FinalityRand],
      [FinalityVotesSpec]: commitments to randomness and what an accepted vote
      shows.  [FinalityBegin], [FinalityResume]: what the beginning of a block and a
      proposal to resume finality change, and what they keep.  [FinalityChain]: the
      steps of the module as a relation (blocks, votes, commitments, unjailing, any
      valid parameters, proposals to resume finality, steps of the staking module), its
      invariant and what holds in every reachable state: final blocks got a quorum and
      stay final, double voters are slashed and their key can be extracted unless a
      hash function is broken by their votes.  [FinalityHalts]: the end of a block does
      not panic, as long as the activation height is not raised and no table of voting
      power is written below the first indexed height.  [FinalityExamples]: a concrete
      run, and four runs in which the code falls short.
    - [SdkCoins]: the coins of the SDK and its bank module, as classes with their
      laws, and a bank with proofs of the laws for the examples; [ZSum]: sums over
      finite maps.
    - [Incentive]: [x/incentive].  [IncentiveSpec]: what a pool owes, and that ending a
      period, paying and changing a stake never increase it.  [IncentiveState]: the
      steps of the module as a relation and its invariant: the account of the module
      covers everything it owes, the stake of a pool is the sum of its delegations,
      gauges can be withdrawn, and the division of rewards is fair up to rounding.
      The hook of a withdrawal is the interface [WithdrawHooks].  [IncentiveRefund]:
      which transactions are refunded.  [IncentiveGenesis]: validation, import and export;
      a valid genesis is imported, and no state with a pool is exported.  [IncentiveRun]: a run with concrete numbers.
    - [GenesisEntries]: validation of lists of genesis entries ([types/validate.go]).
    - [Costaking]: [x/costaking], in a monad over the states of both reward modules and
      of the bank, whose errors carry the state they leave behind.  [CostakingSpec]: what
      the costakers' pool owes; [CostakingScore]: a new ratio, which changes all scores;
      [CostakingState]: the hooks of the finality, staking and epoching modules, the
      proof that the hook of a withdrawal has the laws of [WithdrawHooks], and the steps
      of the two reward modules together: both accounts cover what they owe and the
      score of the pool is the sum of the scores.  [CostakingGenesis]: every reachable
      state is exported and imported.  [CostakingRun]: a run of both modules.
    - [Mint]: [x/mint].  [MintSpec]: the provisions are computed once, and bound what is
      minted in proportion to the time.
    - [EotsStore], [EotsManager]: [finality-provider/eotsmanager]: the database of
      signatures, the manager of keys with its derivation of nonces, the RPC server and
      its client.  [EotsManagerSpec]: runs of the daemon as sequences of calls, and that
      it gives out one signature per key, chain and height, which verifies under the
      randomness it lists.
    - [System]: instances of the two interfaces by the actual keepers, with their
      laws, and the theorem about a block as a whole.

    * How the code is modelled

    A keeper's store is a record of finite maps, one field per key prefix; a
    function that writes takes the state and returns it.  Go errors are values of
    an inductive type per module, panics are a third outcome that every caller
    propagates, and sanity checks that panic are kept.  Unsigned integers are [N]
    with the wrap-around of their width written out, signed ones [Z].  Loops over
    slices are folds or structural recursion, so they need no fuel; the two loops
    over the levels of a Merkle tree and the binary search are defined by
    recursion on a decreasing measure.  The recursion over expanded stakes has fuel
    for the number of delegations, and in reachable states that is enough.  The loop that
    derives a nonce samples until a hash is a scalar; it takes its number of rounds as a
    parameter, and no theorem depends on the number.  The theorems
    on rewards assume that fewer than 2^64 periods have been opened, the range of
    their counter.  Iterators are the sorted list of entries.
    Iteration over a Go map takes the order as a parameter.  A failing message
    leaves the state as it was, since the SDK discards its writes.

    Code outside the repository is a parameter: btcd, blst, SHA-256, bech32, the
    bitmap library, the keyring, the staking, distribution and bank modules, protobuf encodings of vote extensions.
    What the theorems assume about it is the laws of [Btcd], [Bitmap],
    [VoteCodec], [CurveLaws], [MerkleLaws], [IncentiveLaws], [BtcTxLaws],
    [TxScriptLaws], [PopLibLaws], [SdkCoinsLaws], [BankLaws], [LegacyDecLaws],
    [MintBankLaws] and [KeyringLaws], each with an instance in the examples.  Store keys that are
    protobuf encodings are represented by the encoded value, the encoding being
    injective.  Events, logs, telemetry and gas are left out.

    * What the theorems found

    Some theorems exhibit runs in which the code does not do what it means to.  In
    the checkpointing modules: a confirmed checkpoint that is forgotten and
    submitted again desynchronises the two modules for good; finalisation can
    delete the data of the submission it keeps; one submission is accepted under
    many indices, because Merkle proofs do not bind the index; signatures for
    another epoch are aggregated; a change of the epoch interval renumbers past
    heights.  In the finality module: raising the activation height halts the
    chain; rewards stop for good after a long stretch of blocks without voters;
    the proposal that resumes finality depends on the case of hexadecimal digits,
    and can leave a height without any voting power.  In the staking module: a
    delegation that gets its quorum after its timelock has run out becomes active; a
    state with a slashed provider is exported but cannot be imported.  In the reward
    modules: a share that is rounded to zero in one denomination is forfeited in all, and
    for costakers it blocks withdrawals and halts the block that activates a delegation;
    a state with a reward pool cannot be exported; the provisions of inflation are never
    updated.
    In the cryptography: extraction and decryption keys overwrite values of their callers.

    * What is not modelled

    The messages of [x/epoching] that wrap staking messages, the proposal's
    transaction set, most gRPC queries, the genesis of [x/epoching], [x/checkpointing],
    [x/btccheckpoint] and [x/finality], and the functions that only upgrades call.  Of
    the other parts nothing: [x/monitor], [app] with its ante handlers and upgrades,
    [wasmbinding], [client] and [cmd], the rest of [finality-provider] (polling, fast
    sync, submission of votes), and the daemons [covenant-emulator] and [vigilante]. *)
From stdpp Require Import base numbers list sorting gmap.


(** ** Outcomes of Go code

    A Go function that returns [(T, error)] and may panic is a function into
    [res E T]: it returns normally, returns a non-nil error, or panics.  A
    panic is not an error value: no caller in the modelled code recovers from
    one, so it propagates through every bind. *)
Inductive res (E A : Type) : Type :=
  | Ok (a : A)
  | Err (e : E)
  | Panic.
Arguments Ok {_ _} _.
Arguments Err {_ _} _.
Arguments Panic {_ _}.

#[global] Instance res_ret E : MRet (res E) := λ A, Ok.
#[global] Instance res_bind E : MBind (res E) := λ A B f m,
  match m with Ok a => f a | Err e => Err e | Panic => Panic end.
#[global] Instance res_fmap E : FMap (res E) := λ A B f m,
  match m with Ok a => Ok (f a) | Err e => Err e | Panic => Panic end.

#[global] Instance res_eq_dec E A `{EqDecision E, EqDecision A} :
  EqDecision (res E A).
Proof. solve_decision. Defined.

(** [if !b { return err }]. *)
Definition require {E} (b : bool) (e : E) : res E unit :=
  if b then Ok tt else Err e.

(** A sanity check that panics. *)
Definition assert_go {E} (b : bool) : res E unit :=
  if b then Ok tt else Panic.

(** [v, err := ...; if err != nil { return err' }]. *)
Definition of_option {E A} (e : E) (o : option A) : res E A :=
  match o with Some a => Ok a | None => Err e end.

Definition is_ok {E A} (r : res E A) : bool :=
  match r with Ok _ => true | _ => false end.

(** Replaces the error of a failing call, as [fmt.Errorf("...%w", err)] does. *)
Definition map_err {E E' A} (f : E → E') (r : res E A) : res E' A :=
  match r with Ok a => Ok a | Err e => Err (f e) | Panic => Panic end.

(** [for _, x := range l { s, err = f(s, x) }], stopping at the first failure. *)
Fixpoint fold_res {E S A} (f : S → A → res E S) (s : S) (l : list A) : res E S :=
  match l with
  | [] => Ok s
  | x :: l => s' ← f s x; fold_res f s' l
  end.

Section res_lemmas.
Context {E : Type}.

Lemma bind_Ok {A B} (m : res E A) (f : A → res E B) b :
  (m ≫= f) = Ok b ↔ ∃ a, m = Ok a ∧ f a = Ok b.
Proof. destruct m; naive_solver. Qed.

Lemma bind_Err {A B} (m : res E A) (f : A → res E B) e :
  (m ≫= f) = Err e ↔ m = Err e ∨ ∃ a, m = Ok a ∧ f a = Err e.
Proof. destruct m; naive_solver. Qed.

Lemma bind_Panic {A B} (m : res E A) (f : A → res E B) :
  (m ≫= f) = Panic ↔ m = Panic ∨ ∃ a, m = Ok a ∧ f a = Panic.
Proof. destruct m; naive_solver. Qed.

Lemma fmap_Ok {A B} (m : res E A) (f : A → B) b :
  (f <$> m) = Ok b ↔ ∃ a, m = Ok a ∧ b = f a.
Proof. destruct m; naive_solver. Qed.

Lemma require_Ok (b : bool) (e : E) u : require b e = Ok u ↔ b = true.
Proof. destruct b, u; naive_solver. Qed.

Lemma require_bind_Ok {A} (b : bool) (e : E) (f : unit → res E A) x :
  (require b e ≫= f) = Ok x ↔ b = true ∧ f tt = Ok x.
Proof. destruct b; naive_solver. Qed.

Lemma assert_go_Ok (b : bool) u : @assert_go E b = Ok u ↔ b = true.
Proof. destruct b, u; naive_solver. Qed.

Lemma of_option_Ok {A} (e : E) (o : option A) a :
  of_option e o = Ok a ↔ o = Some a.
Proof. destruct o; naive_solver. Qed.

Lemma map_err_Ok {E' A} (f : E → E') (r : res E A) a :
  map_err f r = Ok a ↔ r = Ok a.
Proof. destruct r; naive_solver. Qed.

Lemma fold_res_app {S A} (f : S → A → res E S) s l k :
  fold_res f s (l ++ k) = (s' ← fold_res f s l; fold_res f s' k).
Proof.
  revert s. induction l as [|x l IH]; intros s; [done|]; simpl.
  destruct (f s x); simpl; auto.
Qed.

(** An invariant of the loop body holds after the loop. *)
Lemma fold_res_invariant {S A} (P : S → Prop) (f : S → A → res E S) s l s' :
  (∀ s x s', x ∈ l → P s → f s x = Ok s' → P s') →
  P s → fold_res f s l = Ok s' → P s'.
Proof.
  revert s. induction l as [|x l IH]; intros s Hstep HP Hf; simpl in Hf.
  - by simplify_eq.
  - apply bind_Ok in Hf as (s1 & H1 & H2).
    apply (IH s1); [|by eapply Hstep; [apply list_elem_of_here| |]|done].
    intros s2 y s2' Hy. by apply Hstep, list_elem_of_further.
Qed.

(** An error of the loop is an error of its body. *)
Lemma fold_res_Err {S A} (f : S → A → res E S) s l e :
  fold_res f s l = Err e → ∃ s' x, x ∈ l ∧ f s' x = Err e.
Proof.
  revert s. induction l as [|x l IH]; intros s Hf; simpl in Hf; [done|].
  apply bind_Err in Hf as [Hf|(s1 & _ & Hf)].
  - exists s, x. split; [by left|done].
  - destruct (IH _ Hf) as (s' & y & Hy & ?). exists s', y. split; [by right|done].
Qed.

Lemma require_Err (b : bool) (e e' : E) : require b e = Err e' → e' = e.
Proof. by destruct b; intros [=]. Qed.

Lemma of_option_Err {A} (e e' : E) (o : option A) : of_option e o = Err e' → e' = e.
Proof. by destruct o; intros [=]. Qed.
End res_lemmas.

(** Locates the failing part of monadic code. *)
Ltac inv_err :=
  repeat match goal with
  | H : (_ ≫= _) = Err _ |- _ =>
      apply bind_Err in H as [H|(? & ? & H)]; cbv beta in H
  | H : require _ _ = Err _ |- _ => apply require_Err in H
  | H : of_option _ _ = Err _ |- _ => apply of_option_Err in H
  | H : mret _ = Err _ |- _ => discriminate H
  | H : Ok _ = Err _ |- _ => discriminate H
  | H : Panic = Err _ |- _ => discriminate H
  end.

(** The outcomes of two computations that simulate each other. *)
Inductive res_rel {E A B} (R : A → B → Prop) : res E A → res E B → Prop :=
  | res_rel_Ok a b : R a b → res_rel R (Ok a) (Ok b)
  | res_rel_Err e : res_rel R (Err e) (Err e)
  | res_rel_Panic : res_rel R Panic Panic.

Lemma res_rel_bind {E A B A' B'} (R : A → B → Prop) (R' : A' → B' → Prop)
    (m : res E A) (m' : res E B) f f' :
  res_rel R m m' → (∀ a b, R a b → res_rel R' (f a) (f' b)) →
  res_rel R' (m ≫= f) (m' ≫= f').
Proof. destruct 1; simpl; intros Hf; [by apply Hf|constructor..]. Qed.

(** A computation followed by one on both sides of an equation. *)
Lemma bind_ext {E A B} (m : res E A) (f g : A → res E B) :
  (∀ a, m = Ok a → f a = g a) → (m ≫= f) = (m ≫= g).
Proof. destruct m; simpl; auto. Qed.

Lemma require_no_panic {E} (b : bool) (e : E) : require b e ≠ Panic.
Proof. by destruct b. Qed.

(** Locates the panicking part of monadic code. *)
Ltac inv_panic :=
  repeat match goal with
  | H : (_ ≫= _) = Panic |- _ =>
      apply bind_Panic in H as [H|(? & ? & H)]; cbv beta in H
  | H : require _ _ = Panic |- _ => by apply require_no_panic in H
  | H : mret _ = Panic |- _ => discriminate H
  | H : Ok _ = Panic |- _ => discriminate H
  | H : Err _ = Panic |- _ => discriminate H
  end.

(** Turns hypotheses [_ = Ok _] about monadic code into facts about its parts. *)
Ltac inv_ok_step :=
  match goal with
  | H : (_ ≫= _) = Ok _ |- _ => apply bind_Ok in H as (? & ? & ?)
  | H : (_ <$> _) = Ok _ |- _ => apply fmap_Ok in H as (? & ? & ?)
  | H : require _ _ = Ok _ |- _ => apply require_Ok in H
  | H : assert_go _ = Ok _ |- _ => apply assert_go_Ok in H
  | H : of_option _ _ = Ok _ |- _ => apply of_option_Ok in H
  | H : map_err _ _ = Ok _ |- _ => apply map_err_Ok in H
  | H : mret _ = Ok _ |- _ => unfold mret, res_ret in H
  | H : Ok _ = Ok _ |- _ => injection H as H
  | H : Err _ = Ok _ |- _ => discriminate H
  | H : Panic = Ok _ |- _ => discriminate H
  end.
Ltac inv_ok := repeat (inv_ok_step; cbv beta in *; simplify_eq).

(** Two results of the same computation are equal. *)
Ltac same_ok :=
  repeat match goal with
  | H1 : ?r = Ok ?x, H2 : ?r = Ok ?y |- _ => rewrite H1 in H2; injection H2 as <-
  end.

(** The guards of the code as propositions. *)
Ltac bool_to_Prop :=
  repeat match goal with
  | H : negb _ = true |- _ => apply negb_true_iff in H
  | H : (_ || _) = false |- _ => apply orb_false_iff in H as [? ?]
  | H : (_ <? _)%Z = false |- _ => apply Z.ltb_ge in H
  | H : (_ <=? _)%Z = false |- _ => apply Z.leb_gt in H
  | H : (_ <? _)%N = false |- _ => apply N.ltb_ge in H
  | H : (_ <=? _)%N = false |- _ => apply N.leb_gt in H
  | H : (_ =? _)%N = true |- _ => apply N.eqb_eq in H
  | H : (_ =? _)%nat = true |- _ => apply Nat.eqb_eq in H
  | H : bool_decide _ = true |- _ => apply bool_decide_eq_true in H
  | H : bool_decide _ = false |- _ => apply bool_decide_eq_false in H
  end.

(** Case analysis on the scrutinee of the first match or if in the goal. *)
Ltac case_go :=
  match goal with
  | |- context [match ?x with _ => _ end] => destruct x eqn:?
  end.

(** ** Machine integers

    Go's unsigned integers are [N] below their modulus; every operation that
    may wrap in the source is written with one of these. *)
Definition u8 (n : N) : N := (n mod 2 ^ 8)%N.
Definition u32 (n : N) : N := (n mod 2 ^ 32)%N.
Definition u64 (n : N) : N := (n mod 2 ^ 64)%N.

Definition max_u32 : N := (2 ^ 32 - 1)%N.

Definition u32_add (a b : N) : N := u32 (a + b).
Definition u32_sub (a b : N) : N := u32 (a + (2 ^ 32 - u32 b)).
Definition u64_add (a b : N) : N := u64 (a + b).
Definition u64_sub (a b : N) : N := u64 (a + (2 ^ 64 - u64 b)).
Definition u64_mul (a b : N) : N := u64 (a * b).

(** Two's-complement readings of a bit pattern. *)
Definition int32 (z : Z) : Z := ((z + 2 ^ 31) mod 2 ^ 32 - 2 ^ 31)%Z.
Definition int64 (z : Z) : Z := ((z + 2 ^ 63) mod 2 ^ 64 - 2 ^ 63)%Z.

(** [uint64(z)] of an [int64]. *)
Definition u64_of_Z (z : Z) : N := Z.to_N (z mod 2 ^ 64)%Z.

Section widths.
Open Scope N_scope.

Lemma u64_of_Z_small n : n < 2 ^ 64 → u64_of_Z (Z.of_N n) = n.
Proof. intros. unfold u64_of_Z. rewrite Z.mod_small by lia. lia. Qed.

Lemma u32_small n : n < 2 ^ 32 → u32 n = n.
Proof. apply N.mod_small. Qed.
Lemma u64_small n : n < 2 ^ 64 → u64 n = n.
Proof. apply N.mod_small. Qed.
Lemma u32_lt n : u32 n < 2 ^ 32.
Proof. by apply N.mod_lt. Qed.
Lemma u64_lt n : u64 n < 2 ^ 64.
Proof. by apply N.mod_lt. Qed.

Lemma u32_add_small a b : a + b < 2 ^ 32 → u32_add a b = a + b.
Proof. apply u32_small. Qed.
Lemma u64_add_small a b : a + b < 2 ^ 64 → u64_add a b = a + b.
Proof. apply u64_small. Qed.
Lemma u64_mul_small a b : a * b < 2 ^ 64 → u64_mul a b = a * b.
Proof. apply u64_small. Qed.

Lemma u32_sub_small a b : b ≤ a → a < 2 ^ 32 → u32_sub a b = a - b.
Proof.
  intros. unfold u32_sub. rewrite (u32_small b) by lia.
  replace (a + (2 ^ 32 - b)) with (a - b + 1 * 2 ^ 32) by lia.
  unfold u32. rewrite N.Div0.mod_add. apply N.mod_small. lia.
Qed.
Lemma u64_sub_small a b : b ≤ a → a < 2 ^ 64 → u64_sub a b = a - b.
Proof.
  intros. unfold u64_sub. rewrite (u64_small b) by lia.
  replace (a + (2 ^ 64 - b)) with (a - b + 1 * 2 ^ 64) by lia.
  unfold u64. rewrite N.Div0.mod_add. apply N.mod_small. lia.
Qed.

Lemma int32_small z : (- 2 ^ 31 ≤ z < 2 ^ 31)%Z → int32 z = z.
Proof. intros. unfold int32. rewrite Z.mod_small by lia. lia. Qed.
Lemma int64_small z : (- 2 ^ 63 ≤ z < 2 ^ 63)%Z → int64 z = z.
Proof. intros. unfold int64. rewrite Z.mod_small by lia. lia. Qed.
End widths.

(** Flipping the lowest bit. *)
Lemma lxor_1_even k : Nat.lxor (2 * k) 1 = 2 * k + 1.
Proof.
  apply Nat.bits_inj. intros [|n]; rewrite Nat.lxor_spec.
  - by rewrite Nat.testbit_even_0, Nat.testbit_odd_0.
  - rewrite Nat.testbit_even_succ, Nat.testbit_odd_succ by lia.
    change 1 with (2 * 0 + 1). rewrite Nat.testbit_odd_succ by lia.
    by rewrite Nat.bits_0, xorb_false_r.
Qed.
Lemma lxor_1_odd k : Nat.lxor (2 * k + 1) 1 = 2 * k.
Proof.
  rewrite <- lxor_1_even, Nat.lxor_assoc, Nat.lxor_nilpotent. apply Nat.lxor_0_r.
Qed.

Lemma N_odd_of_nat n : (N.of_nat n mod 2 =? 1)%N = Nat.odd n.
Proof.
  apply eq_iff_eq_true. rewrite N.eqb_eq, Nat.odd_spec. split.
  - intros H. exists (N.to_nat (N.of_nat n / 2)).
    pose proof (N.div_mod (N.of_nat n) 2). lia.
  - intros [m ->]. rewrite Nat2N.inj_add, Nat2N.inj_mul, N.add_comm, N.mul_comm.
    apply N.Div0.mod_add.
Qed.
Lemma N_shiftr_of_nat n : N.shiftr (N.of_nat n) 1 = N.of_nat (Nat.div2 n).
Proof. by rewrite <- N.div2_spec, Nat2N.inj_div2. Qed.

Create Rewrite HintDb width.
#[export] Hint Rewrite u32_small u64_small u32_add_small u64_add_small
  u64_mul_small u32_sub_small u64_sub_small using lia : width.

(** ** Callbacks over iterators

    [for ; iter.Valid(); iter.Next() { if fn(iter.Value()) { break } }] where
    [fn] is a closure over the state [s]. *)
Fixpoint iterate {A S} (fn : A → S → S * bool) (l : list A) (s : S) : S :=
  match l with
  | [] => s
  | a :: l => let '(s', stop) := fn a s in if stop then s' else iterate fn l s'
  end.

(** Running a callback that never stops is a left fold. *)
Lemma iterate_nostop {A S} (f : A → S → S) (l : list A) (s : S) :
  iterate (λ a s, (f a s, false)) l s = foldl (λ s a, f a s) s l.
Proof. revert s. induction l; simpl; auto. Qed.

(** ** [sort.Search]

    [i, j := 0, n; for i < j { h := int(uint(i+j) >> 1); if !f(h) { i = h + 1 }
    else { j = h } }; return i].  [fuel] bounds the number of iterations;
    [search_loop_spec] says that [j - i] of them are enough. *)
Fixpoint search_loop (fuel : nat) (f : nat → bool) (i j : nat) : nat :=
  match fuel with
  | O => i
  | S fuel =>
      if (i <? j)%nat then
        let h := Nat.div2 (i + j) in
        if negb (f h) then search_loop fuel f (S h) j else search_loop fuel f i h
      else i
  end.
Definition sort_Search (n : nat) (f : nat → bool) : nat := search_loop n f 0 n.

(** A predicate that stays true once it is true. *)
Definition monotone (f : nat → bool) (n : nat) : Prop :=
  ∀ a b, a ≤ b → b < n → f a = true → f b = true.

Lemma div2_bounds i j : i < j → i ≤ Nat.div2 (i + j) < j.
Proof.
  intros. rewrite Nat.div2_div.
  pose proof (Nat.div_mod (i + j) 2). pose proof (Nat.mod_upper_bound (i + j) 2). lia.
Qed.

Lemma search_loop_spec fuel f n i j :
  monotone f n → i ≤ j → j ≤ n → j - i ≤ fuel →
  (∀ a, a < i → f a = false) → (∀ b, j ≤ b → b < n → f b = true) →
  let r := search_loop fuel f i j in
  r ≤ n ∧ (∀ a, a < r → f a = false) ∧ (∀ b, r ≤ b → b < n → f b = true).
Proof.
  intros Hm. revert i j. induction fuel as [|fuel IH]; intros i j Hij Hjn Hfuel Hlo Hhi; simpl.
  - replace j with i in * by lia. split_and!; [lia|done|done].
  - destruct (Nat.ltb_spec i j) as [Hlt|Hge].
    2:{ replace j with i in * by lia. split_and!; [lia|done|done]. }
    pose proof (div2_bounds i j Hlt) as Hh. set (h := Nat.div2 (i + j)) in *.
    destruct (f h) eqn:Hf; simpl; apply IH; try lia; try done.
    + intros b Hb Hbn. by apply (Hm h b).
    + intros a Ha. destruct (f a) eqn:Hfa; [|done]. exfalso.
      assert (f h = true) by (apply (Hm a h); [lia|lia|done]). congruence.
Qed.

Lemma sort_Search_spec n f :
  monotone f n →
  sort_Search n f ≤ n ∧ (∀ a, a < sort_Search n f → f a = false) ∧
  (∀ b, sort_Search n f ≤ b → b < n → f b = true).
Proof. intros Hm. apply (search_loop_spec n f n 0 n); [done|lia|lia|lia|lia|lia]. Qed.

(** ** Lists *)
Section lists.
Context {A : Type}.

(** Induction two elements at a time. *)
Lemma list_ind_two (P : list A → Prop) :
  P [] → (∀ a, P [a]) → (∀ a b l, P l → P (a :: b :: l)) → ∀ l, P l.
Proof.
  intros H0 H1 H2. fix IH 1. intros [|a [|b l]]; [done|apply H1|apply H2, IH].
Qed.

Lemma last_app_ne (l k : list A) : k ≠ [] → last (l ++ k) = last k.
Proof.
  intros Hk. rewrite last_app. destruct k using rev_ind; [done|].
  by rewrite last_snoc.
Qed.

Lemma last_is_Some_iff (l : list A) : is_Some (last l) ↔ l ≠ [].
Proof.
  destruct l as [|x l _] using rev_ind; simpl.
  - split; [by intros []|done].
  - rewrite last_snoc. split; [|by eauto]. intros _ ?. by destruct l.
Qed.

(** A predicate that holds up to a position and not from there on. *)
Lemma filter_prefix (P : A → Prop) `{∀ x, Decision (P x)} (k : nat) (l : list A) :
  Forall P (take k l) → Forall (λ x, ¬ P x) (drop k l) → filter P l = take k l.
Proof.
  revert l. induction k as [|k IH]; intros l Ht Hd.
  - clear Ht. rewrite take_0. rewrite drop_0 in Hd. induction Hd; [done|].
    by rewrite filter_cons_False.
  - destruct l as [|x l]; [done|]. simpl in *. apply Forall_cons in Ht as [Hx Ht].
    rewrite filter_cons_True by done. by rewrite IH.
Qed.

Lemma StronglySorted_lookup (R : relation A) l i j x y :
  StronglySorted R l → l !! i = Some x → l !! j = Some y → i < j → R x y.
Proof.
  intros Hs. revert i j. induction Hs as [|z l Hs IH Hz]; intros i j Hi Hj Hij; [done|].
  destruct j as [|j]; [lia|]. simpl in Hj. destruct i as [|i]; simplify_eq/=.
  - rewrite Forall_forall in Hz. by eapply Hz, list_elem_of_lookup_2.
  - eapply IH; [done|done|lia].
Qed.

Lemma StronglySorted_filter (R : relation A) (P : A → Prop) `{∀ x, Decision (P x)} l :
  StronglySorted R l → StronglySorted R (filter P l).
Proof.
  induction 1 as [|x l Hs IH Hx]; [constructor|]. rewrite filter_cons. case_decide; [|done].
  constructor; [done|]. rewrite Forall_forall in Hx |- *. intros y [_ Hy]%list_elem_of_filter. by auto.
Qed.

Lemma foldl_snoc_map {B} (f : A → B) (l : list A) (acc : list B) :
  foldl (λ acc a, acc ++ [f a]) acc l = acc ++ (f <$> l).
Proof.
  revert acc. induction l as [|x l IH]; intros acc; simpl.
  - by rewrite app_nil_r.
  - rewrite IH, <- app_assoc. done.
Qed.
End lists.

(** ** Sums over finite maps *)
Section msum.
Context {K A : Type} `{Countable K} (f : A → N).
Implicit Types (m : gmap K A).
Local Open Scope N_scope.

Definition msum m : N := map_fold (λ _ x acc, f x + acc) 0 m.

Lemma msum_empty : msum ∅ = 0.
Proof. apply map_fold_empty. Qed.

Lemma msum_insert_new m k x : m !! k = None → msum (<[k := x]> m) = f x + msum m.
Proof. intros Hm. unfold msum. rewrite map_fold_insert_L; [done|lia|done]. Qed.

Lemma msum_delete m k x : m !! k = Some x → msum m = f x + msum (delete k m).
Proof.
  intros Hm. rewrite <- (insert_delete_id m k x) at 1 by done.
  apply msum_insert_new. apply lookup_delete_eq.
Qed.

Lemma msum_insert m k x :
  msum (<[k := x]> m) + from_option f 0 (m !! k) = f x + msum m.
Proof.
  destruct (m !! k) as [y|] eqn:Hm; simpl.
  - rewrite <- insert_delete_eq, msum_insert_new by apply lookup_delete_eq.
    rewrite (msum_delete m k y) by done. lia.
  - rewrite msum_insert_new by done. lia.
Qed.
End msum.
