(* ===== verification/KVStore.v ===== *)
(** The key-value stores of the Cosmos SDK, for keys that are big-endian
    encoded unsigned integers.

    A store is a [gmap N A].  [sdk.Uint64ToBigEndian] is injective and
    lexicographic order on its images is numeric order, so
    [store.Iterator(nil, nil)] visits the entries in increasing key order
    ([kv_asc]) and [store.ReverseIterator(nil, nil)] in decreasing order
    ([kv_desc]); an iterator with a start key visits the entries from that key
    on ([kv_from]).  The main lemma, [kv_asc_list_to_map], says that a store
    filled from a list with strictly increasing keys iterates over that list.
    [refill] is its converse for the import of an exported genesis. *)
From stdpp Require Import base numbers list sorting gmap strings.
From S2P Require Import Prelude.

Section kv.
Context {A : Type}.
Implicit Types (m : gmap N A) (l : list (N * A)).

(** The order in which iterators visit entries. *)
Definition kv_le (x y : N * A) : Prop := (x.1 ≤ y.1)%N.
Definition kv_lt (x y : N * A) : Prop := (x.1 < y.1)%N.

#[global] Instance kv_le_dec x y : Decision (kv_le x y).
Proof. unfold kv_le. apply _. Defined.

Definition kv_asc m : list (N * A) := merge_sort kv_le (map_to_list m).
Definition kv_desc m : list (N * A) := reverse (kv_asc m).
Definition kv_from (start : N) m : list (N * A) :=
  filter (λ x, (start ≤ x.1)%N) (kv_asc m).

#[global] Instance kv_le_total : Total kv_le.
Proof. intros x y. unfold kv_le. lia. Qed.
#[global] Instance kv_le_trans : Transitive kv_le.
Proof. intros x y z. unfold kv_le. lia. Qed.

Lemma kv_asc_perm m : kv_asc m ≡ₚ map_to_list m.
Proof. apply merge_sort_Permutation. Qed.

Lemma elem_of_kv_asc m k v : (k, v) ∈ kv_asc m ↔ m !! k = Some v.
Proof. rewrite kv_asc_perm. apply elem_of_map_to_list. Qed.

Lemma NoDup_kv_asc_keys m : NoDup (kv_asc m).*1.
Proof. rewrite kv_asc_perm. apply NoDup_fst_map_to_list. Qed.

Lemma kv_asc_sorted m : StronglySorted kv_le (kv_asc m).
Proof. apply StronglySorted_merge_sort; apply _. Qed.

(** Strictly sorted lists with the same entries are equal. *)
Lemma kv_lt_sorted_unique l1 l2 :
  StronglySorted kv_lt l1 → StronglySorted kv_lt l2 →
  (∀ x, x ∈ l1 ↔ x ∈ l2) → l1 = l2.
Proof.
  revert l2. induction l1 as [|x l1 IH]; intros [|y l2] H1 H2 Hel.
  - done.
  - exfalso. apply (not_elem_of_nil y), Hel. by left.
  - exfalso. apply (not_elem_of_nil x), Hel. by left.
  - apply StronglySorted_cons in H1 as [Hx H1].
    apply StronglySorted_cons in H2 as [Hy H2].
    rewrite Forall_forall in Hx. rewrite Forall_forall in Hy.
    assert (x = y) as ->.
    { assert (x ∈ y :: l2) as [|Hxl]%elem_of_cons by (apply Hel; by left); [done|].
      assert (y ∈ x :: l1) as [|Hyl]%elem_of_cons by (apply Hel; by left); [done|].
      specialize (Hx _ Hyl). specialize (Hy _ Hxl). unfold kv_lt in *. lia. }
    f_equal. apply IH; [done|done|]. intros z. specialize (Hel z).
    rewrite !elem_of_cons in Hel. split; intros Hz.
    + assert (z = y ∨ z ∈ l2) as [->|] by tauto; [|done].
      specialize (Hx _ Hz). unfold kv_lt in Hx. lia.
    + assert (z = y ∨ z ∈ l1) as [->|] by tauto; [|done].
      specialize (Hy _ Hz). unfold kv_lt in Hy. lia.
Qed.

Lemma kv_asc_lt_sorted m : StronglySorted kv_lt (kv_asc m).
Proof.
  generalize (kv_asc_sorted m), (NoDup_kv_asc_keys m).
  induction (kv_asc m) as [|x l IH]; intros Hs Hn; [constructor|].
  apply StronglySorted_cons in Hs as [Hx Hs].
  simpl in Hn. apply NoDup_cons in Hn as [Hnx Hn].
  apply StronglySorted_cons. split; [|by auto].
  rewrite Forall_forall in Hx |- *. intros y Hy. specialize (Hx y Hy).
  unfold kv_le, kv_lt in *.
  assert (x.1 ≠ y.1) as Hne by
    (intros Heq; apply Hnx; rewrite Heq; by apply list_elem_of_fmap_2).
  lia.
Qed.

Lemma kv_lt_sorted_NoDup l : StronglySorted kv_lt l → NoDup l.*1.
Proof.
  induction l as [|x l IH]; intros Hs; simpl; [constructor|].
  apply StronglySorted_cons in Hs as [Hx Hs].
  apply NoDup_cons. split; [|by auto].
  rewrite Forall_forall in Hx.
  intros (y & Heq & Hy)%list_elem_of_fmap. specialize (Hx y Hy).
  unfold kv_lt in Hx. lia.
Qed.

Lemma kv_asc_list_to_map l :
  StronglySorted kv_lt l → kv_asc (list_to_map l) = l.
Proof.
  intros Hl. apply kv_lt_sorted_unique; [apply kv_asc_lt_sorted|done|].
  intros [k v]. rewrite elem_of_kv_asc.
  rewrite <- elem_of_list_to_map; [done|]. by apply kv_lt_sorted_NoDup.
Qed.

Lemma list_to_map_kv_asc m : list_to_map (kv_asc m) = m.
Proof.
  apply map_eq. intros k. apply option_eq. intros v.
  rewrite <- elem_of_list_to_map by apply NoDup_kv_asc_keys.
  apply elem_of_kv_asc.
Qed.

Lemma elem_of_kv_from m s k v :
  (k, v) ∈ kv_from s m ↔ m !! k = Some v ∧ (s ≤ k)%N.
Proof.
  unfold kv_from. rewrite list_elem_of_filter, elem_of_kv_asc. simpl. tauto.
Qed.

Lemma kv_from_lt_sorted m s : StronglySorted kv_lt (kv_from s m).
Proof. apply StronglySorted_filter, kv_asc_lt_sorted. Qed.

Lemma kv_from_0 m : kv_from 0 m = kv_asc m.
Proof.
  unfold kv_from. induction (kv_asc m) as [|x l IH]; [done|].
  rewrite filter_cons_True by lia. by rewrite IH.
Qed.

(** A reverse iterator starts at the largest key. *)
Lemma kv_desc_head m k v :
  m !! k = Some v → (∀ k' v', m !! k' = Some v' → (k' ≤ k)%N) →
  ∃ l, kv_desc m = (k, v) :: l.
Proof.
  intros Hk Hmax. unfold kv_desc.
  pose proof (kv_asc_lt_sorted m) as Hs.
  destruct (kv_asc m) as [|[k' v'] l _] eqn:Hl using rev_ind.
  { apply elem_of_kv_asc in Hk. rewrite Hl in Hk. by apply not_elem_of_nil in Hk. }
  rewrite reverse_snoc. exists (reverse l).
  assert (m !! k' = Some v') as Hk'.
  { apply elem_of_kv_asc. rewrite Hl. apply elem_of_app. right. by left. }
  assert (k' = k) as ->; [|by simplify_eq].
  apply N.le_antisymm; [by eapply Hmax|].
  apply elem_of_kv_asc in Hk. rewrite Hl in Hk.
  apply elem_of_app in Hk as [Hk|[= -> ->]%list_elem_of_singleton]; [|done].
  assert (kv_lt (k, v) (k', v')) as Hlt; [|unfold kv_lt in Hlt; simpl in Hlt; lia].
  eapply StronglySorted_app_1_elem_of; [done|done|by left].
Qed.

Lemma kv_desc_nil m : kv_desc m = [] → m = ∅.
Proof.
  intros Hd. apply map_empty. intros k. destruct (m !! k) as [v|] eqn:Hk; [|done].
  apply elem_of_kv_asc in Hk. rewrite <- elem_of_reverse in Hk. fold (kv_desc m) in Hk.
  rewrite Hd in Hk. by apply not_elem_of_nil in Hk.
Qed.

Lemma kv_desc_cons m k v l :
  kv_desc m = (k, v) :: l → m !! k = Some v ∧ ∀ k', is_Some (m !! k') → (k' ≤ k)%N.
Proof.
  intros Hd. assert (kv_asc m = reverse l ++ [(k, v)]) as Ha.
  { rewrite <- (reverse_involutive (kv_asc m)). fold (kv_desc m). rewrite Hd. apply reverse_cons. }
  split; [apply elem_of_kv_asc; rewrite Ha; set_solver|].
  intros k' [v' Hk']. apply elem_of_kv_asc in Hk'. pose proof (kv_asc_sorted m) as Hs.
  rewrite Ha in Hk', Hs. apply elem_of_app in Hk' as [Hk'|Hk'].
  - exact (StronglySorted_app_1_elem_of kv_le _ _ (k', v') (k, v) Hs Hk' ltac:(by left)).
  - apply list_elem_of_singleton in Hk'. by injection Hk' as -> _.
Qed.
End kv.

(** ** Filling a store *)

(** Filling a map from the list of its entries. *)
Lemma refill_lookup `{Countable K} {V} (l : list (K * V)) k :
  (∀ v v', (k, v) ∈ l → (k, v') ∈ l → v = v') → ∀ (m0 : gmap K V) v,
  foldl (λ m e, <[e.1 := e.2]> m) m0 l !! k = Some v ↔
  (k, v) ∈ l ∨ m0 !! k = Some v ∧ k ∉ l.*1.
Proof.
  induction l as [|[k' v'] l IH] using rev_ind; intros Hf m0 v.
  { simpl. split; [by right; split; [|apply not_elem_of_nil]|].
    intros [Hx|[? _]]; [by apply elem_of_nil in Hx|done]. }
  rewrite foldl_app. cbn [foldl fst snd]. rewrite fmap_app, !elem_of_app, list_elem_of_singleton.
  assert (k ∈ [(k', v')].*1 ↔ k = k') as -> by apply list_elem_of_singleton.
  assert (∀ v v', (k, v) ∈ l → (k, v') ∈ l → v = v') as Hf'.
  { intros a b Ha Hb. apply Hf; apply elem_of_app; by left. }
  destruct (decide (k' = k)) as [->|Hne].
  - rewrite lookup_insert_eq. split; [intros [= ->]; by auto|].
    intros [[Hv|[= ->]]|[_ Hn]]; [|done|tauto]. f_equal. apply Hf; set_solver.
  - rewrite lookup_insert_ne by done. rewrite IH by done.
    assert ((k, v) ≠ (k', v')) by congruence. assert (k ≠ k') by congruence. tauto.
Qed.

Lemma refill `{Countable K} {V} (l : list (K * V)) (m : gmap K V) :
  (∀ k v, (k, v) ∈ l ↔ m !! k = Some v) → foldl (λ m e, <[e.1 := e.2]> m) ∅ l = m.
Proof.
  intros Hl. apply map_eq. intros k. apply option_eq. intros v. rewrite refill_lookup.
  - rewrite Hl, lookup_empty. naive_solver.
  - intros v1 v2. rewrite !Hl. congruence.
Qed.

Lemma refill_set `{Countable K} (l : list K) (x : gset K) :
  (∀ k, k ∈ l ↔ k ∈ x) → foldl (λ x k, {[k]} ∪ x) ∅ l = x.
Proof.
  intros Hl. apply set_eq. intros k. rewrite <- Hl. clear Hl x.
  assert (∀ x : gset K, k ∈ foldl (λ x k, {[k]} ∪ x) x l ↔ k ∈ l ∨ k ∈ x) as Hx; [|rewrite Hx; set_solver].
  induction l as [|k' l IH]; intros x; [set_solver|]. cbn [foldl]. rewrite IH. set_solver.
Qed.

Lemma foldl_map {S T U} (g : S → U → S) (h : T → U) s l :
  foldl g s (h <$> l) = foldl (λ s x, g s (h x)) s l.
Proof. revert s. induction l as [|x l IH]; intros s; [done|]. apply IH. Qed.

(** A loop that cannot fail. *)
Lemma fold_res_pure {E S T} (P : S → Prop) (f : S → T → res E S) g s l :
  (∀ s x, P s → x ∈ l → f s x = Ok (g s x) ∧ P (g s x)) → P s → fold_res f s l = Ok (foldl g s l).
Proof.
  revert s. induction l as [|x l IH]; intros s Hf Hs; [done|]. cbn [fold_res foldl].
  destruct (Hf s x Hs ltac:(by left)) as [-> Hs']. cbn [mbind res_bind]. apply IH; [|done].
  intros s0 y Hs0 Hy. apply Hf; [done|by right].
Qed.

(** [sdk.AccAddressFromBech32]: bech32 decoding of account addresses belongs to
    the SDK; [None] is its error. *)
Class Bech32 := AccAddressFromBech32 : string → option (list N).
