(* ===== verification/Bytes.v ===== *)
(** Bytes, slices of byte slices and the big-endian codecs of Go's
    [encoding/binary] that the modelled code uses. *)
From Stdlib Require Import Strings.Byte.
From stdpp Require Import base numbers list countable sorting gmap.
From S2P Require Import Prelude.

Abbreviation byte := Byte.byte.
Abbreviation bytes := (list byte).

#[global] Instance byte_eq_dec : EqDecision byte := Byte.byte_eq_dec.

(** [uint8(n)] and [uint64(b)]. *)
Definition byte_of_N (n : N) : byte :=
  match Byte.of_N (u8 n) with Some b => b | None => x00 end.
Definition N_of_byte (b : byte) : N := Byte.to_N b.

Lemma N_of_byte_lt b : (N_of_byte b < 256)%N.
Proof. pose proof (Byte.to_N_bounded b). unfold N_of_byte. lia. Qed.

Lemma N_of_byte_of_N n : N_of_byte (byte_of_N n) = u8 n.
Proof.
  unfold N_of_byte, byte_of_N. destruct (Byte.of_N (u8 n)) as [b|] eqn:E.
  - by apply Byte.to_of_N.
  - apply Byte.of_N_None_iff in E.
    assert (u8 n < 256)%N by (by apply N.mod_lt). lia.
Qed.

Lemma byte_of_N_of_byte b : byte_of_N (N_of_byte b) = b.
Proof.
  unfold byte_of_N, N_of_byte, u8.
  rewrite N.mod_small by (pose proof (N_of_byte_lt b); unfold N_of_byte in *; lia).
  by rewrite Byte.of_to_N.
Qed.

Lemma byte_of_N_mod n : byte_of_N (n mod 256) = byte_of_N n.
Proof. unfold byte_of_N, u8. by rewrite N.Div0.mod_mod. Qed.

#[global] Instance N_of_byte_inj : Inj (=) (=) N_of_byte.
Proof. intros b1 b2 H. by rewrite <- (byte_of_N_of_byte b1), H, byte_of_N_of_byte. Qed.

#[global] Instance byte_countable : Countable byte :=
  inj_countable' N_of_byte byte_of_N byte_of_N_of_byte.

(** ** Slicing

    [l[lo:]], [l[:hi]] and [l[i]] panic out of range.  (A slice expression may
    also extend into the capacity; the modelled code never does.) *)
Definition slice_from {E} (lo : nat) (l : bytes) : res E bytes :=
  if decide (lo ≤ length l) then Ok (drop lo l) else Panic.
Definition slice_to {E} (hi : nat) (l : bytes) : res E bytes :=
  if decide (hi ≤ length l) then Ok (take hi l) else Panic.
Definition index_go {E} (i : nat) (l : bytes) : res E byte :=
  match l !! i with Some b => Ok b | None => Panic end.

Lemma slice_from_ok {E} lo l : lo ≤ length l → @slice_from E lo l = Ok (drop lo l).
Proof. intros. unfold slice_from. by rewrite decide_True. Qed.
Lemma slice_to_ok {E} hi l : hi ≤ length l → @slice_to E hi l = Ok (take hi l).
Proof. intros. unfold slice_to. by rewrite decide_True. Qed.

(** ** Big-endian integers

    [be_encode 8] is [binary.BigEndian.PutUint64] and [be_decode] on eight
    bytes is [binary.BigEndian.Uint64]. *)
Fixpoint be_encode (k : nat) (n : N) : bytes :=
  match k with
  | O => []
  | S k' => byte_of_N (N.shiftr n (8 * N.of_nat k')) :: be_encode k' n
  end.
Definition be_decode (l : bytes) : N :=
  foldl (λ acc b, acc * 256 + N_of_byte b)%N 0%N l.

Section be.
Open Scope N_scope.

Lemma length_be_encode k n : length (be_encode k n) = k.
Proof. induction k; simpl; auto. Qed.

Lemma be_encode_mod k n : be_encode k (n mod 256 ^ N.of_nat k) = be_encode k n.
Proof.
  enough (∀ j, (k ≤ j)%nat → be_encode k (n mod 256 ^ N.of_nat j) = be_encode k n)
    by auto.
  induction k as [|k IH]; intros j Hj; [done|]. cbn [be_encode].
  f_equal; [|by apply IH; lia].
  rewrite !N.shiftr_div_pow2. rewrite <- byte_of_N_mod.
  rewrite <- (byte_of_N_mod (n / _)). f_equal.
  replace (2 ^ (8 * N.of_nat k)) with (256 ^ N.of_nat k) by (by rewrite N.pow_mul_r).
  replace (256 ^ N.of_nat j) with (256 ^ N.of_nat k * (256 * 256 ^ N.of_nat (j - k - 1))).
  2:{ rewrite <- N.pow_succ_r', <- N.pow_add_r. f_equal. lia. }
  set (a := 256 ^ N.of_nat k). set (b := 256 ^ N.of_nat (j - k - 1)).
  assert (a ≠ 0) by (by apply N.pow_nonzero).
  assert (b ≠ 0) by (by apply N.pow_nonzero).
  rewrite N.Div0.mod_mul_r by done.
  rewrite (N.mul_comm a), N.div_add by done.
  rewrite (N.div_small (n mod a)) by (by apply N.mod_lt). rewrite N.add_0_l.
  rewrite N.Div0.mod_mul_r by done.
  rewrite N.mul_comm, N.Div0.mod_add. apply N.Div0.mod_mod.
Qed.

Lemma be_decode_app l k :
  be_decode (l ++ k) = be_decode l * 256 ^ N.of_nat (length k) + be_decode k.
Proof.
  induction k as [|b k IH] using rev_ind; simpl.
  - rewrite app_nil_r. unfold be_decode at 3. simpl. lia.
  - rewrite app_assoc. unfold be_decode in *. rewrite !foldl_snoc, IH.
    rewrite length_app, Nat.add_1_r, Nat2N.inj_succ, N.pow_succ_r'. lia.
Qed.

Lemma be_decode_lt l : be_decode l < 256 ^ N.of_nat (length l).
Proof.
  induction l as [|b l IH] using rev_ind; [done|].
  rewrite be_decode_app, length_app. simpl (length [b]).
  rewrite Nat.add_1_r, (Nat2N.inj_succ (length l)), N.pow_succ_r'.
  change (be_decode [b]) with (0 * 256 + N_of_byte b).
  pose proof (N_of_byte_lt b). change (256 ^ N.of_nat 1) with 256.
  revert IH. generalize (256 ^ N.of_nat (length l)). lia.
Qed.

Lemma be_decode_encode k n : be_decode (be_encode k n) = n mod 256 ^ N.of_nat k.
Proof.
  induction k as [|k IH]; [by rewrite N.mod_1_r|]. cbn [be_encode].
  change (?b :: ?l) with ([b] ++ l). rewrite be_decode_app, IH, length_be_encode.
  change (be_decode [?b]) with (0 * 256 + N_of_byte b).
  rewrite N_of_byte_of_N, N.shiftr_div_pow2.
  replace (2 ^ (8 * N.of_nat k)) with (256 ^ N.of_nat k) by (by rewrite N.pow_mul_r).
  rewrite Nat2N.inj_succ, N.pow_succ_r', (N.mul_comm 256 (256 ^ _)).
  rewrite N.Div0.mod_mul_r by (try apply N.pow_nonzero; done).
  unfold u8. change (2 ^ 8) with 256. lia.
Qed.

Lemma be_encode_decode l : be_encode (length l) (be_decode l) = l.
Proof.
  induction l as [|b l IH]; [done|]. cbn [be_encode length].
  change (b :: l) with ([b] ++ l). rewrite be_decode_app.
  change (be_decode [b]) with (0 * 256 + N_of_byte b).
  rewrite N.shiftr_div_pow2.
  replace (2 ^ (8 * N.of_nat (length l))) with (256 ^ N.of_nat (length l))
    by (by rewrite N.pow_mul_r).
  pose proof (be_decode_lt l) as Hlt.
  assert (256 ^ N.of_nat (length l) ≠ 0) by (by apply N.pow_nonzero).
  rewrite (N.add_comm (_ * _)), N.div_add, N.div_small, N.add_0_l by done.
  rewrite N.mul_0_l, N.add_0_l, byte_of_N_of_byte. simpl. f_equal.
  rewrite <- be_encode_mod, N.Div0.mod_add, be_encode_mod. apply IH.
Qed.
End be.

(** [sdk.Uint64ToBigEndian] / [U64ToBEBytes] and its inverse. *)
Definition Uint64ToBigEndian (n : N) : bytes := be_encode 8 n.
Definition BigEndianToUint64 (l : bytes) : N := be_decode l.

Lemma BigEndianToUint64_encode n :
  (n < 2 ^ 64)%N → BigEndianToUint64 (Uint64ToBigEndian n) = n.
Proof.
  intros. unfold BigEndianToUint64, Uint64ToBigEndian. rewrite be_decode_encode.
  by apply N.mod_small.
Qed.

Lemma Uint64ToBigEndian_decode l :
  length l = 8 → Uint64ToBigEndian (BigEndianToUint64 l) = l.
Proof.
  intros Hl. unfold BigEndianToUint64, Uint64ToBigEndian. rewrite <- Hl.
  apply be_encode_decode.
Qed.

(** ** Lexicographic order: [bytes.Compare] *)

Fixpoint bytes_Compare (a b : bytes) : comparison :=
  match a, b with
  | [], [] => Eq
  | [], _ :: _ => Lt
  | _ :: _, [] => Gt
  | x :: a, y :: b =>
      match (N_of_byte x ?= N_of_byte y)%N with
      | Eq => bytes_Compare a b
      | o => o
      end
  end.

Definition bytes_lt (a b : bytes) : Prop := bytes_Compare a b = Lt.
Definition bytes_le (a b : bytes) : Prop := bytes_Compare a b ≠ Gt.

#[global] Instance bytes_lt_dec a b : Decision (bytes_lt a b).
Proof. unfold bytes_lt. solve_decision. Defined.
#[global] Instance bytes_le_dec a b : Decision (bytes_le a b).
Proof. unfold bytes_le. solve_decision. Defined.

Lemma bytes_Compare_eq a b : bytes_Compare a b = Eq ↔ a = b.
Proof.
  revert b. induction a as [|x a IH]; intros [|y b]; simpl; [done..|].
  destruct (N.compare_spec (N_of_byte x) (N_of_byte y)) as [H|H|H].
  - apply (inj N_of_byte) in H as ->. rewrite IH. naive_solver.
  - split; [done|]. intros [= -> ->]. lia.
  - split; [done|]. intros [= -> ->]. lia.
Qed.

Lemma bytes_Compare_refl a : bytes_Compare a a = Eq.
Proof. by apply bytes_Compare_eq. Qed.

Lemma bytes_Compare_opp a b : bytes_Compare b a = CompOpp (bytes_Compare a b).
Proof.
  revert b. induction a as [|x a IH]; intros [|y b]; simpl; [done..|].
  rewrite (N.compare_antisym (N_of_byte x)).
  destruct (N_of_byte x ?= N_of_byte y)%N; simpl; [apply IH|done..].
Qed.

#[global] Instance bytes_lt_trans : Transitive bytes_lt.
Proof.
  unfold bytes_lt. intros a. induction a as [|x a IH]; intros [|y b] [|z c]; simpl; try done.
  destruct (N.compare_spec (N_of_byte x) (N_of_byte y)),
    (N.compare_spec (N_of_byte y) (N_of_byte z)); try done; intros ? ?;
    destruct (N.compare_spec (N_of_byte x) (N_of_byte z)); try done; try lia.
  by eapply IH.
Qed.

Lemma bytes_lt_irrefl a : ¬ bytes_lt a a.
Proof. unfold bytes_lt. by rewrite bytes_Compare_refl. Qed.

Lemma bytes_le_lt_eq a b : bytes_le a b ↔ bytes_lt a b ∨ a = b.
Proof.
  unfold bytes_le, bytes_lt. rewrite <- bytes_Compare_eq.
  destruct (bytes_Compare a b); naive_solver.
Qed.

#[global] Instance bytes_le_trans : Transitive bytes_le.
Proof.
  intros a b c. rewrite !bytes_le_lt_eq. intros [H1| ->] [H2| ->]; auto.
  left. by etrans.
Qed.
#[global] Instance bytes_le_total : Total bytes_le.
Proof.
  intros a b. unfold bytes_le. rewrite (bytes_Compare_opp a b).
  destruct (bytes_Compare a b); naive_solver.
Qed.
#[global] Instance bytes_le_antisymm : AntiSymm (=) bytes_le.
Proof.
  intros a b. rewrite !bytes_le_lt_eq. intros [H1| ->] [H2|H2]; auto.
  by destruct (bytes_lt_irrefl a); etrans.
Qed.

(** ** Stores keyed by bytes, iterated in lexicographic order *)
Section bkv.
Context {A : Type}.

Definition bkv_le (x y : bytes * A) : Prop := bytes_le x.1 y.1.
Definition bkv_lt (x y : bytes * A) : Prop := bytes_lt x.1 y.1.
#[global] Instance bkv_le_dec x y : Decision (bkv_le x y).
Proof. unfold bkv_le. apply _. Defined.
#[global] Instance bkv_le_total : Total bkv_le.
Proof. intros x y. apply (total bytes_le). Qed.
#[global] Instance bkv_le_trans : Transitive bkv_le.
Proof. intros x y z. unfold bkv_le. apply transitivity. Qed.

Definition bkv_asc (m : gmap bytes A) : list (bytes * A) :=
  merge_sort bkv_le (map_to_list m).

Lemma bkv_asc_perm m : bkv_asc m ≡ₚ map_to_list m.
Proof. apply merge_sort_Permutation. Qed.

Lemma elem_of_bkv_asc m k v : (k, v) ∈ bkv_asc m ↔ m !! k = Some v.
Proof. rewrite bkv_asc_perm. apply elem_of_map_to_list. Qed.

Lemma bkv_asc_sorted m : StronglySorted bkv_lt (bkv_asc m).
Proof.
  assert (StronglySorted bkv_le (bkv_asc m)) as Hs
    by (apply StronglySorted_merge_sort; apply _).
  assert (NoDup (bkv_asc m).*1) as Hn
    by (rewrite bkv_asc_perm; apply NoDup_fst_map_to_list).
  induction (bkv_asc m) as [|x l IH]; [constructor|].
  apply StronglySorted_cons in Hs as [Hx Hs].
  simpl in Hn. apply NoDup_cons in Hn as [Hnx Hn].
  apply StronglySorted_cons. split; [|by auto].
  rewrite Forall_forall in Hx |- *. intros y Hy. specialize (Hx y Hy).
  apply bytes_le_lt_eq in Hx as [Hx|Heq]; [done|].
  destruct Hnx. rewrite Heq. by apply list_elem_of_fmap_2.
Qed.
End bkv.
