(* ===== verification/Hex.v ===== *)
(** Go's [encoding/hex]: strings of hexadecimal digits, in which keys and hashes
    appear in messages and as the keys of Go maps. *)
From Stdlib Require Import Strings.Byte Strings.Ascii Strings.String.
From stdpp Require Import base numbers list strings.
From S2P Require Import Prelude Bytes.

(** [DecodeString] reads digits of both cases; [EncodeToString] writes lower case. *)
Definition hex_value (c : ascii) : option N :=
  let n := N_of_ascii c in
  if (48 <=? n)%N && (n <=? 57)%N then Some (n - 48)%N
  else if (97 <=? n)%N && (n <=? 102)%N then Some (n - 87)%N
  else if (65 <=? n)%N && (n <=? 70)%N then Some (n - 55)%N
  else None.
Definition hex_digit (n : N) : ascii :=
  ascii_of_N (if (n <? 10)%N then n + 48 else n + 87)%N.

Fixpoint hex_DecodeString (s : string) : option bytes :=
  match s with
  | EmptyString => Some []
  | String a (String b s) =>
      x ← hex_value a; y ← hex_value b; l ← hex_DecodeString s;
      Some (byte_of_N (16 * x + y) :: l)
  | String _ EmptyString => None
  end.
Fixpoint hex_EncodeToString (l : bytes) : string :=
  match l with
  | [] => EmptyString
  | b :: l => String (hex_digit (N_of_byte b / 16)) (String (hex_digit (N_of_byte b mod 16))
                (hex_EncodeToString l))
  end.

Lemma hex_byte_roundtrip b :
  (x ← hex_value (hex_digit (N_of_byte b / 16)); y ← hex_value (hex_digit (N_of_byte b mod 16));
   Some (byte_of_N (16 * x + y))) = Some b.
Proof. by destruct b. Qed.

Lemma hex_decode_encode l : hex_DecodeString (hex_EncodeToString l) = Some l.
Proof.
  induction l as [|b l IH]; [done|]. simpl. rewrite IH.
  pose proof (hex_byte_roundtrip b) as Hb.
  destruct (hex_value (hex_digit (N_of_byte b / 16))) as [x|]; [|done]. simpl in *.
  destruct (hex_value (hex_digit (N_of_byte b mod 16))) as [y|]; [|done]. simpl in *.
  by injection Hb as ->.
Qed.

#[global] Instance hex_encode_inj : Inj (=) (=) hex_EncodeToString.
Proof. intros a b Hab. apply (f_equal hex_DecodeString) in Hab. rewrite !hex_decode_encode in Hab. by injection Hab. Qed.
