(* ===== verification/Secp256k1.v ===== *)
(** The elliptic-curve group secp256k1, as the code uses it through btcec and
    decred's [secp256k1]: points, scalars modulo the order of the group, parsing
    and serialising of points, tagged hashes.

    The group belongs to libraries, so it is the class [Curve]; what the theorems
    rely on is the class [CurveLaws]: a group of prime order with a generator, in
    which a point is determined by its x coordinate and the parity of its y
    coordinate.  Points are in affine coordinates ([ToAffine] is the identity on
    them).  Scalars are integers, reduced modulo the order by every operation as
    [ModNScalar] does.  The module [Toy] is an instance with seven points. *)
From Stdlib Require Import Strings.Byte ZArith.Znumtheory ZArith.Zdivisibility.
From stdpp Require Import base numbers list.
From S2P Require Import Prelude Bytes.

Class Curve := {
  point : Type;
  point_eq_dec :: EqDecision point;
  order : Z;
  field_prime : N;
  Infinity : point;
  ScalarBaseMult : Z → point;            (** [ScalarBaseMultNonConst] *)
  ScalarMult : Z → point → point;        (** [ScalarMultNonConst] *)
  AddPoints : point → point → point;     (** [AddNonConst] *)
  NegateY : point → point;               (** [Y.Negate(1).Normalize()] *)
  X : point → N;
  YIsOdd : point → bool;
  ParsePubKey : bytes → option point;    (** [schnorr.ParsePubKey]: [lift_x] *)
  ParseJacobian : bytes → option point;  (** [btcec.ParseJacobian] *)
  InverseNonConst : Z → Z;
  TaggedHash : bytes → bytes → bytes;    (** [chainhash.TaggedHash] *)
  Sum256 : bytes → bytes;                (** [sha256.Sum256] *)
}.

(** ** Operations of the libraries on top of the class *)
Section curve.
Context `{C : Curve}.

(** [ModNScalar]: [SetBytes] reduces and reports the overflow. *)
Definition SetBytes (b : bytes) : Z * bool :=
  let z := Z.of_N (be_decode b) in (z mod order, bool_decide (order ≤ z))%Z.
Definition sc_add (a b : Z) : Z := ((a + b) mod order)%Z.
Definition sc_mul (a b : Z) : Z := ((a * b) mod order)%Z.
Definition sc_neg (a : Z) : Z := ((- a) mod order)%Z.
Definition sc_bytes (a : Z) : bytes := be_encode 32 (Z.to_N a).

(** [FieldVal]: [SetByteSlice] followed by [Normalize], and
    [PutBytesUnchecked]. *)
Definition field_of_bytes (b : bytes) : N := (be_decode b mod field_prime)%N.
Definition field_bytes (x : N) : bytes := be_encode 32 x.

(** [SerializeCompressed] and [schnorr.SerializePubKey]. *)
Definition PubKeyFormatCompressedEven : byte := x02.
Definition PubKeyFormatCompressedOdd : byte := x03.
Definition format_byte (P : point) : byte :=
  if YIsOdd P then PubKeyFormatCompressedOdd else PubKeyFormatCompressedEven.
Definition SerializeCompressed (P : point) : bytes := format_byte P :: field_bytes (X P).
Definition SerializePubKey (P : point) : bytes := field_bytes (X P).

Definition TagBIP0340Challenge : bytes :=
  [x42; x49; x50; x30; x33; x34; x30; x2f;
   x63; x68; x61; x6c; x6c; x65; x6e; x67; x65].

(** The challenge of BIP-340 for the x coordinate of the nonce, the bytes of the
    public key and the message, and whether it was too big. *)
Definition challenge (rBytes pBytes msg : bytes) : Z * bool :=
  SetBytes (TaggedHash TagBIP0340Challenge (rBytes ++ pBytes ++ msg)).
End curve.

(** ** Laws *)
Class CurveLaws `(C : Curve) := {
  order_prime : Z.prime order;
  order_lt : (order < 2 ^ 256)%Z;
  base_eq : ∀ k l, ScalarBaseMult k = ScalarBaseMult l ↔ (k mod order = l mod order)%Z;
  base_0 : ScalarBaseMult 0 = Infinity;
  base_add : ∀ k l, AddPoints (ScalarBaseMult k) (ScalarBaseMult l) = ScalarBaseMult (k + l);
  base_mul : ∀ a k, ScalarMult a (ScalarBaseMult k) = ScalarBaseMult (a * k);
  base_neg : ∀ k, NegateY (ScalarBaseMult k) = ScalarBaseMult (- k);
  base_gen : ∀ P, ∃ k, P = ScalarBaseMult k;
  field_prime_lt : (field_prime < 2 ^ 256)%N;
  X_lt : ∀ P, (X P < field_prime)%N;
  X_neg : ∀ P, X (NegateY P) = X P;
  odd_neg : ∀ P, P ≠ Infinity → YIsOdd (NegateY P) = negb (YIsOdd P);
  point_inj : ∀ P Q, P ≠ Infinity → Q ≠ Infinity →
    X P = X Q → YIsOdd P = YIsOdd Q → P = Q;
  ParsePubKey_Some : ∀ b P, ParsePubKey b = Some P ↔
    P ≠ Infinity ∧ YIsOdd P = false ∧ b = field_bytes (X P);
  ParseJacobian_Some : ∀ P, P ≠ Infinity → ParseJacobian (SerializeCompressed P) = Some P;
  ParseJacobian_sound : ∀ b P, ParseJacobian b = Some P → P ≠ Infinity → b = SerializeCompressed P;
  Inverse_mul : ∀ a, (a mod order ≠ 0)%Z → ((a * InverseNonConst a) mod order = 1)%Z;
  TaggedHash_length : ∀ t m, length (TaggedHash t m) = 32;
  Sum256_length : ∀ m, length (Sum256 m) = 32;
}.

(** ** Modular arithmetic *)
Section arith.
Context `{CL : CurveLaws}.
Local Open Scope Z_scope.

Lemma order_pos : 1 < order.
Proof. pose proof order_prime as []. lia. Qed.

(** Two scalars that denote the same residue. *)
Definition eqm (a b : Z) : Prop := a mod order = b mod order.

#[global] Instance eqm_equiv : Equivalence eqm.
Proof. split; [by intros a|by intros a b|intros a b c; unfold eqm; congruence]. Qed.
#[global] Instance eqm_add : Proper (eqm ==> eqm ==> eqm) Z.add.
Proof.
  intros a a' Ha b b' Hb. unfold eqm in *.
  rewrite Zplus_mod, Ha, Hb, <- Zplus_mod. done.
Qed.
#[global] Instance eqm_mul : Proper (eqm ==> eqm ==> eqm) Z.mul.
Proof.
  intros a a' Ha b b' Hb. unfold eqm in *.
  rewrite Zmult_mod, Ha, Hb, <- Zmult_mod. done.
Qed.
#[global] Instance eqm_opp : Proper (eqm ==> eqm) Z.opp.
Proof.
  intros a a' Ha. replace (- a) with (-1 * a) by lia.
  replace (- a') with (-1 * a') by lia. by rewrite Ha.
Qed.
#[global] Instance eqm_sub : Proper (eqm ==> eqm ==> eqm) Z.sub.
Proof. intros a a' Ha b b' Hb. rewrite <- !Z.add_opp_r. by rewrite Ha, Hb. Qed.
#[global] Instance base_proper : Proper (eqm ==> eq) ScalarBaseMult.
Proof. intros a b H. by apply base_eq. Qed.

Lemma eqm_mod a : eqm (a mod order) a.
Proof. apply Zmod_mod. Qed.
Lemma eqm_sc_add a b : eqm (sc_add a b) (a + b).
Proof. apply eqm_mod. Qed.
Lemma eqm_sc_mul a b : eqm (sc_mul a b) (a * b).
Proof. apply eqm_mod. Qed.
Lemma eqm_sc_neg a : eqm (sc_neg a) (- a).
Proof. apply eqm_mod. Qed.

Lemma eqm_small a b : 0 ≤ a < order → 0 ≤ b < order → eqm a b → a = b.
Proof. intros. unfold eqm in *. rewrite !Z.mod_small in * by done. done. Qed.

Lemma eqm_of_eq a b : a = b → eqm a b.
Proof. by intros ->. Qed.

Lemma mod_range a : 0 ≤ a mod order < order.
Proof. pose proof order_pos. apply Z.mod_pos_bound. lia. Qed.

Lemma eqm_divide a : eqm a 0 ↔ (order | a).
Proof.
  pose proof order_pos. unfold eqm. rewrite Z.mod_0_l by lia.
  apply Z.mod_divide. lia.
Qed.

(** A product vanishes only with a factor. *)
Lemma eqm_mul_0 a b : eqm (a * b) 0 → eqm a 0 ∨ eqm b 0.
Proof. rewrite !eqm_divide. apply Z.divide_prime_mul, order_prime. Qed.

Lemma eqm_sub_0 a b : eqm (a - b) 0 ↔ eqm a b.
Proof.
  split; intros H.
  - replace a with (a - b + b) by lia. rewrite H. by rewrite Z.add_0_l.
  - rewrite H. by rewrite Z.sub_diag.
Qed.

Lemma base_Infinity k : ScalarBaseMult k = Infinity ↔ eqm k 0.
Proof. rewrite <- base_0. apply base_eq. Qed.

Lemma eqm_inverse a : ¬ eqm a 0 → eqm (a * InverseNonConst a) 1.
Proof.
  intros Ha. pose proof order_pos.
  assert (a mod order ≠ 0).
  { intros Hz. apply Ha. unfold eqm. by rewrite Hz, Z.mod_0_l by lia. }
  unfold eqm. rewrite Inverse_mul by done. by rewrite Z.mod_small by lia.
Qed.

(** The x coordinate of a point other than infinity determines it up to its
    sign, and exactly one of the two has an even y coordinate. *)
Lemma same_X P Q : P ≠ Infinity → Q ≠ Infinity → X P = X Q → P = Q ∨ P = NegateY Q.
Proof.
  intros HP HQ HX. destruct (decide (YIsOdd P = YIsOdd Q)) as [Heq|Hne].
  - left. by apply point_inj.
  - right. destruct (base_gen Q) as [q ->].
    apply point_inj; [done| |by rewrite X_neg|rewrite odd_neg by done].
    + rewrite base_neg. intros Hz. apply HQ. apply base_Infinity in Hz.
      apply base_Infinity. rewrite <- (Z.opp_involutive q). rewrite Hz. done.
    + by destruct (YIsOdd P), (YIsOdd (ScalarBaseMult q)).
Qed.

Lemma SetBytes_sc a : 0 ≤ a < order → SetBytes (sc_bytes a) = (a, false).
Proof.
  intros Ha. pose proof order_lt. unfold SetBytes, sc_bytes.
  rewrite be_decode_encode. change (256 ^ N.of_nat 32)%N with (2 ^ 256)%N.
  assert (Z.to_N a < 2 ^ 256)%N by (apply N2Z.inj_lt; rewrite Z2N.id by lia; lia).
  rewrite N.mod_small by done. rewrite Z2N.id by lia.
  rewrite Z.mod_small by done. f_equal. apply bool_decide_eq_false. lia.
Qed.

Lemma SetBytes_inv b a : length b = 32%nat → SetBytes b = (a, false) → b = sc_bytes a.
Proof.
  intros Hl [= <- Ho]. apply bool_decide_eq_false in Ho. unfold sc_bytes.
  rewrite Z.mod_small by lia. rewrite N2Z.id, <- Hl. by rewrite be_encode_decode.
Qed.
End arith.

(** ** An instance with seven points

    [x] coordinates pair a point with its negation; the hash adds up bytes. *)
Module Toy.
Inductive T7 := P0 | P1 | P2 | P3 | P4 | P5 | P6.

#[global] Instance T7_eq_dec : EqDecision T7.
Proof. solve_decision. Defined.

Definition to_Z (p : T7) : Z :=
  match p with P0 => 0 | P1 => 1 | P2 => 2 | P3 => 3 | P4 => 4 | P5 => 5 | P6 => 6 end.
Definition of_Z (z : Z) : T7 :=
  match (z mod 7)%Z with
  | 1 => P1 | 2 => P2 | 3 => P3 | 4 => P4 | 5 => P5 | 6 => P6 | _ => P0
  end%Z.
Definition toy_X (p : T7) : N :=
  match p with P0 => 0 | P1 | P6 => 1 | P2 | P5 => 2 | P3 | P4 => 3 end.
Definition toy_odd (p : T7) : bool :=
  match p with P4 | P5 | P6 => true | _ => false end.
Definition toy_lift (b : bytes) : option T7 :=
  if decide (b = be_encode 32 1) then Some P1
  else if decide (b = be_encode 32 2) then Some P2
  else if decide (b = be_encode 32 3) then Some P3 else None.
Definition toy_parse (b : bytes) : option T7 :=
  match b with
  | x02 :: b => toy_lift b
  | x03 :: b => match toy_lift b with
                | Some p => Some (of_Z (- to_Z p)) | None => None
                end
  | _ => None
  end.
Definition byte_sum (b : bytes) : N := foldr (λ x n, N_of_byte x + n)%N 0%N b.

Definition curve : Curve := {|
  point := T7;
  order := 7;
  field_prime := 11;
  Infinity := P0;
  ScalarBaseMult := of_Z;
  ScalarMult a p := of_Z (a * to_Z p);
  AddPoints p q := of_Z (to_Z p + to_Z q);
  NegateY p := of_Z (- to_Z p);
  X := toy_X;
  YIsOdd := toy_odd;
  ParsePubKey := toy_lift;
  ParseJacobian := toy_parse;
  InverseNonConst a := (a ^ 5)%Z;
  TaggedHash _ m := be_encode 32 (byte_sum m mod 7);
  Sum256 m := be_encode 32 (byte_sum m);
|}.

Lemma to_of_Z z : to_Z (of_Z z) = (z mod 7)%Z.
Proof.
  unfold of_Z. pose proof (Z.mod_pos_bound z 7).
  assert (z mod 7 = 0 ∨ z mod 7 = 1 ∨ z mod 7 = 2 ∨ z mod 7 = 3 ∨ z mod 7 = 4 ∨
    z mod 7 = 5 ∨ z mod 7 = 6)%Z as Hz by lia.
  repeat destruct Hz as [-> |Hz]; try done. by rewrite Hz.
Qed.

Lemma to_Z_inj p q : to_Z p = to_Z q → p = q.
Proof. by destruct p, q. Qed.

Lemma of_to_Z p : of_Z (to_Z p) = p.
Proof. by destruct p. Qed.

Ltac to_Z := apply to_Z_inj; rewrite ?to_of_Z.

Lemma lift_Some b p : toy_lift b = Some p ↔ p ≠ P0 ∧ toy_odd p = false ∧ b = be_encode 32 (toy_X p).
Proof.
  unfold toy_lift. split.
  - repeat case_decide; intros [= <-]; done.
  - intros (H0 & Ho & ->). by destruct p.
Qed.

#[global] Instance laws : CurveLaws curve.
Proof.
  split; cbn -[Z.modulo be_encode Z.pow N.pow]; try done.
  - split; [done|]. intros n Hn Hd.
    assert (n = 2 ∨ n = 3 ∨ n = 4 ∨ n = 5 ∨ n = 6)%Z as Hz by lia.
    destruct Hd as [k Hk]. lia.
  - intros k l. split; intros H.
    + apply (f_equal to_Z) in H. by rewrite !to_of_Z in H.
    + to_Z. done.
  - intros k l. to_Z. by rewrite <- Zplus_mod.
  - intros a k. to_Z. by rewrite Zmult_mod_idemp_r.
  - intros k. to_Z. rewrite <- !(Z.sub_0_l). by rewrite Zminus_mod_idemp_r.
  - intros p. exists (to_Z p). by rewrite of_to_Z.
  - by intros [].
  - by intros [].
  - by intros [].
  - by intros [] [].
  - intros b p. apply lift_Some.
  - by intros [].
  - intros [|b0 b] p; [done|]. intros Hb Hp. unfold toy_parse in Hb.
    destruct b0; try done.
    + apply lift_Some in Hb as (_ & Ho & ->). unfold SerializeCompressed, format_byte.
      cbn [YIsOdd X curve]. by rewrite Ho.
    + destruct (toy_lift b) as [q|] eqn:Hq; [|done]. apply lift_Some in Hq as (H0 & Ho & ->).
      injection Hb as <-. by destruct q.
  - intros a Ha. pose proof (Z.mod_pos_bound a 7).
    assert (a mod 7 = 1 ∨ a mod 7 = 2 ∨ a mod 7 = 3 ∨ a mod 7 = 4 ∨
      a mod 7 = 5 ∨ a mod 7 = 6)%Z as Hz by lia.
    replace (a * a ^ 5)%Z with (a ^ 6)%Z by ring.
    assert (a ^ 6 = a * a * a * a * a * a)%Z as -> by ring.
    repeat rewrite (Zmult_mod _ a), <- (Zmult_mod_idemp_l _ _ 7).
    repeat destruct Hz as [Hz|Hz]; rewrite Hz; done.
Qed.
End Toy.
