(* ===== verification/Eots.v ===== *)
(** Extractable one-time signatures.  [src/anon/crypto/eots/eots.go] and
    [src/anon/crypto/common].

    A finality provider signs one block per height with a nonce it committed to;
    an EOTS signature is the [s] part of a BIP-340 signature under that nonce.
    Two signatures under one nonce on different messages give away the private
    key, which is what makes double voting punishable.  The theorems are the two
    halves of that: honest signatures verify, and any two valid signatures whose
    challenges differ yield the private key. *)
From Stdlib Require Import Strings.Byte.
From stdpp Require Import base numbers list.
From S2P Require Import Prelude Bytes Secp256k1.

Module Eots.

Inductive EotsErr :=
  | ErrPrivateKeyIsZero | ErrSchnorrHashValue | ErrPubKey | ErrSigRNotOnCurve
  | ErrSigRYIsOdd | ErrUnequalRValues | ErrEqualSignatures | ErrKeyMismatch | ErrRand.

#[global] Instance EotsErr_eq_dec : EqDecision EotsErr.
Proof. solve_decision. Defined.

Section eots.
Context `{C : Curve}.

(** [common.ScalarBaseMultWithBlinding]: [rnd] is the blinding factor taken from
    the system's randomness, [None] when reading it fails. *)
Definition ScalarBaseMultWithBlinding (rnd : option bytes) (k : Z) : res EotsErr point :=
  match rnd with
  | None => Err ErrRand
  | Some rBytes =>
      let r := (SetBytes rBytes).1 in
      let kr := sc_add k r in
      let rNeg := sc_neg r in
      Ok (AddPoints (ScalarBaseMult kr) (ScalarBaseMult rNeg))
  end.

Definition PubGen (k : Z) : point := ScalarBaseMult k.

Definition hash (message : bytes) : bytes := Sum256 message.

Definition signHash (rnd : option bytes) (sk privateRand : Z) (h : bytes) : res EotsErr Z :=
  if bool_decide (sk = 0%Z) then Err ErrPrivateKeyIsZero
  else
    let pubKey := PubGen sk in
    let privKeyScalarNegated := sc_neg sk in
    let isPyOdd := YIsOdd pubKey in
    let k := privateRand in
    R ← ScalarBaseMultWithBlinding rnd k;
    let kNegated := sc_neg k in
    let isRyOdd := YIsOdd R in
    let '(e, overflow) := challenge (field_bytes (X R)) (SerializePubKey pubKey) h in
    if (overflow : bool) then Err ErrSchnorrHashValue
    else
      mret match isPyOdd, isRyOdd with
           | true, true => sc_add (sc_mul e privKeyScalarNegated) kNegated
           | true, false => sc_add (sc_mul e privKeyScalarNegated) k
           | false, true => sc_add (sc_mul e sk) kNegated
           | false, false => sc_add (sc_mul e sk) k
           end.

Definition Sign (rnd : option bytes) (sk privateRand : Z) (message : bytes) : res EotsErr Z :=
  signHash rnd sk privateRand (hash message).

(** Points are points of the curve, so [IsOnCurve] holds of what was parsed. *)
Definition verifyHash (pubKeyBytes : bytes) (r : N) (h : bytes) (sig : Z) : res EotsErr unit :=
  pubKey ← of_option ErrPubKey (ParsePubKey pubKeyBytes);
  let '(e, overflow) := challenge (field_bytes r) (SerializePubKey pubKey) h in
  if (overflow : bool) then Err ErrSchnorrHashValue
  else
    let e := sc_neg e in
    let R := AddPoints (ScalarBaseMult sig) (ScalarMult e pubKey) in
    if bool_decide (R = Infinity) then Err ErrSigRNotOnCurve
    else if YIsOdd R then Err ErrSigRYIsOdd
    else if negb (r =? X R)%N then Err ErrUnequalRValues
    else mret tt.

Definition Verify (pubKey : point) (r : N) (message : bytes) (sig : Z) : res EotsErr unit :=
  verifyHash (SerializePubKey pubKey) r (hash message) sig.

(** [sig2.Negate()] writes to the scalar of the caller: the second component is
    [sig2] after the call. *)
Definition extractFromHashes (pubKey : point) (r : N) (hash1 : bytes) (sig1 : Z)
    (hash2 : bytes) (sig2 : Z) : res EotsErr Z * Z :=
  let pBytes := SerializePubKey pubKey in
  if bool_decide (sig1 = sig2) then (Err ErrEqualSignatures, sig2)
  else
    let '(e1, overflow1) := challenge (field_bytes r) pBytes hash1 in
    if (overflow1 : bool) then (Err ErrSchnorrHashValue, sig2)
    else
      let '(e2, overflow2) := challenge (field_bytes r) pBytes hash2 in
      if (overflow2 : bool) then (Err ErrSchnorrHashValue, sig2)
      else
        let denom := sc_add e1 (sc_neg e2) in
        let sig2 := sc_neg sig2 in
        let x := sc_mul (sc_add sig1 sig2) (InverseNonConst denom) in
        let x := if YIsOdd pubKey then sc_neg x else x in
        if bool_decide (ScalarBaseMult x = pubKey) then (Ok x, sig2)
        else (Err ErrKeyMismatch, sig2).

Definition Extract (pubKey : point) (r : N) (message1 : bytes) (sig1 : Z)
    (message2 : bytes) (sig2 : Z) : res EotsErr Z * Z :=
  extractFromHashes pubKey r (hash message1) sig1 (hash message2) sig2.

(** The challenge of a message under a public key and a public randomness. *)
Definition msg_challenge (pubKey : point) (r : N) (message : bytes) : Z * bool :=
  challenge (field_bytes r) (SerializePubKey pubKey) (hash message).
End eots.

(** ** Correctness *)
Section correct.
Context `{CL : CurveLaws}.
Local Open Scope Z_scope.

Lemma blinding_cancels b k : ScalarBaseMultWithBlinding (Some b) k = Ok (ScalarBaseMult k).
Proof.
  unfold ScalarBaseMultWithBlinding. f_equal. rewrite base_add. apply base_proper.
  rewrite eqm_sc_add, eqm_sc_neg. apply eqm_of_eq. lia.
Qed.

(** The point with the x coordinate of [kG] and even y coordinate is [kG] or
    [-kG]: [even k] is its discrete logarithm. *)
Definition even (k : Z) : Z := if YIsOdd (ScalarBaseMult k) then - k else k.

Lemma even_spec k : ScalarBaseMult k ≠ Infinity →
  ScalarBaseMult (even k) ≠ Infinity ∧
  X (ScalarBaseMult (even k)) = X (ScalarBaseMult k) ∧
  YIsOdd (ScalarBaseMult (even k)) = false.
Proof.
  intros Hk. unfold even. destruct (YIsOdd (ScalarBaseMult k)) eqn:Ho; [|done].
  rewrite <- base_neg, X_neg, odd_neg, Ho by done. split_and!; [|done..].
  rewrite base_neg. rewrite !base_Infinity in *. intros Hz. apply Hk.
  rewrite <- (Z.opp_involutive k). by rewrite Hz.
Qed.

(** Parsing the serialised key gives the even point. *)
Lemma parse_serialized k : ScalarBaseMult k ≠ Infinity →
  ParsePubKey (SerializePubKey (ScalarBaseMult k)) = Some (ScalarBaseMult (even k)).
Proof.
  intros Hk. apply even_spec in Hk as (H0 & HX & Ho). apply ParsePubKey_Some.
  unfold SerializePubKey. by rewrite HX.
Qed.

Lemma SerializePubKey_even k : ScalarBaseMult k ≠ Infinity →
  SerializePubKey (ScalarBaseMult (even k)) = SerializePubKey (ScalarBaseMult k).
Proof. intros (_ & HX & _)%even_spec. unfold SerializePubKey. by rewrite HX. Qed.

(** What a successful verification says about discrete logarithms. *)
Lemma verifyHash_Ok d r h sig e :
  ScalarBaseMult d ≠ Infinity →
  challenge (field_bytes r) (SerializePubKey (ScalarBaseMult d)) h = (e, false) →
  verifyHash (SerializePubKey (ScalarBaseMult d)) r h sig = Ok tt ↔
  let R := ScalarBaseMult (sig - e * even d) in
  R ≠ Infinity ∧ YIsOdd R = false ∧ X R = r.
Proof.
  intros Hd He. unfold verifyHash. rewrite parse_serialized by done.
  cbn [of_option mbind res_bind].
  rewrite SerializePubKey_even, He by done.
  rewrite base_mul, base_add.
  assert (ScalarBaseMult (sig + sc_neg e * even d) = ScalarBaseMult (sig - e * even d)) as ->.
  { apply base_proper. rewrite eqm_sc_neg. apply eqm_of_eq. lia. }
  case_bool_decide as H0; [naive_solver|].
  destruct (YIsOdd _); [naive_solver|].
  destruct (N.eqb_spec r (X (ScalarBaseMult (sig - e * even d)))); simpl; naive_solver.
Qed.

Lemma verifyHash_overflow d r h sig e :
  ScalarBaseMult d ≠ Infinity →
  challenge (field_bytes r) (SerializePubKey (ScalarBaseMult d)) h = (e, true) →
  verifyHash (SerializePubKey (ScalarBaseMult d)) r h sig = Err ErrSchnorrHashValue.
Proof.
  intros Hd He. unfold verifyHash. rewrite parse_serialized by done.
  cbn [of_option mbind res_bind].
  by rewrite SerializePubKey_even, He by done.
Qed.

(** The signature equation. *)
Lemma signHash_eqm b sk k h s :
  signHash (Some b) sk k h = Ok s →
  ∃ e, challenge (field_bytes (X (ScalarBaseMult k))) (SerializePubKey (PubGen sk)) h = (e, false)
    ∧ eqm s (e * even sk + even k).
Proof.
  unfold signHash. case_bool_decide; [done|]. rewrite blinding_cancels.
    cbn [mbind res_bind].
  destruct (challenge _ _ _) as [e []]; [done|]. intros [= <-]. exists e. split; [done|].
  unfold even, PubGen.
  destruct (YIsOdd (ScalarBaseMult sk)), (YIsOdd (ScalarBaseMult k));
    rewrite eqm_sc_add, eqm_sc_mul, ?eqm_sc_neg; apply eqm_of_eq; lia.
Qed.

(** Signing with a private key and a nonce that are not zero fails only when
    the challenge hash is not below the order of the group, and otherwise the
    signature verifies under the public key and the public randomness. *)
Theorem honest_signatures_verify b sk k message :
  ScalarBaseMult sk ≠ Infinity → ScalarBaseMult k ≠ Infinity → sk ≠ 0 →
  let r := X (ScalarBaseMult k) in
  match Sign (Some b) sk k message with
  | Ok s => Verify (PubGen sk) r message s = Ok tt
  | Err e => e = ErrSchnorrHashValue ∧ (msg_challenge (PubGen sk) r message).2 = true
  | Panic => False
  end.
Proof.
  intros Hsk Hk Hsk0 r. destruct (Sign (Some b) sk k message) as [s|e|] eqn:Hs.
  - apply signHash_eqm in Hs as (e & He & Hs).
    apply (verifyHash_Ok _ _ _ _ e); [done|done|].
    assert (ScalarBaseMult (s - e * even sk) = ScalarBaseMult (even k)) as ->.
    { apply base_proper. rewrite Hs. apply eqm_of_eq. lia. }
    by apply even_spec in Hk as (? & ? & ?).
  - revert Hs. unfold Sign, signHash. rewrite bool_decide_false by done.
    rewrite blinding_cancels.
    cbn [mbind res_bind]. unfold msg_challenge.
    fold r. destruct (challenge _ _ _) as [? []]; by intros [= <-].
  - revert Hs. unfold Sign, signHash. rewrite bool_decide_false by done.
    rewrite blinding_cancels.
    cbn [mbind res_bind]. by destruct (challenge _ _ _) as [? []].
Qed.

(** A valid signature, in terms of discrete logarithms. *)
Lemma Verify_Ok_inv d r m s :
  ScalarBaseMult d ≠ Infinity → Verify (ScalarBaseMult d) r m s = Ok tt →
  ∃ e, msg_challenge (ScalarBaseMult d) r m = (e, false) ∧ 0 ≤ e < order ∧
    let R := ScalarBaseMult (s - e * even d) in
    R ≠ Infinity ∧ YIsOdd R = false ∧ X R = r.
Proof.
  intros Hd Hv. unfold Verify in Hv.
  destruct (msg_challenge (ScalarBaseMult d) r m) as [e []] eqn:He.
  { by rewrite (verifyHash_overflow _ _ _ _ e) in Hv. }
  exists e. split; [done|]. split.
  - unfold msg_challenge, challenge, SetBytes in He. injection He as <- _. apply mod_range.
  - by apply (verifyHash_Ok _ _ _ _ e) in Hv.
Qed.

(** Two valid signatures under one nonce are two equations for one unknown. *)
Lemma two_signatures d r m1 s1 e1 m2 s2 e2 :
  ScalarBaseMult d ≠ Infinity →
  Verify (ScalarBaseMult d) r m1 s1 = Ok tt → Verify (ScalarBaseMult d) r m2 s2 = Ok tt →
  msg_challenge (ScalarBaseMult d) r m1 = (e1, false) →
  msg_challenge (ScalarBaseMult d) r m2 = (e2, false) →
  eqm (s1 - s2) ((e1 - e2) * even d).
Proof.
  intros Hd H1 H2 He1 He2.
  apply Verify_Ok_inv in H1 as (? & Heq1 & _ & Hi1 & Ho1 & HX1); [|done].
  apply Verify_Ok_inv in H2 as (? & Heq2 & _ & Hi2 & Ho2 & HX2); [|done].
  rewrite He1 in Heq1. rewrite He2 in Heq2. injection Heq1 as <-. injection Heq2 as <-.
  assert (eqm (s1 - e1 * even d) (s2 - e2 * even d)) as Heq.
  { apply base_eq, point_inj; congruence. }
  replace (s1 - s2) with (s1 - e1 * even d - (s2 - e1 * even d)) by lia.
  rewrite Heq. apply eqm_of_eq. lia.
Qed.

Lemma even_not_0 d : ScalarBaseMult d ≠ Infinity → ¬ eqm (even d) 0.
Proof. intros (H & _ & _)%even_spec. by rewrite base_Infinity in H. Qed.

(** The secret of two signatures under one nonce. *)
Lemma Extract_two_signatures pubKey r m1 s1 m2 s2 :
  pubKey ≠ Infinity → 0 ≤ s1 < order → 0 ≤ s2 < order →
  Verify pubKey r m1 s1 = Ok tt → Verify pubKey r m2 s2 = Ok tt →
  (msg_challenge pubKey r m1).1 ≠ (msg_challenge pubKey r m2).1 →
  ∃ sk, (Extract pubKey r m1 s1 m2 s2).1 = Ok sk ∧ PubGen sk = pubKey ∧ 0 ≤ sk < order.
Proof.
  intros Hpk Hs1 Hs2 Hv1 Hv2 Hne. destruct (base_gen pubKey) as [d ->].
  destruct (Verify_Ok_inv _ _ _ _ Hpk Hv1) as (e1 & He1 & Hr1 & _).
  destruct (Verify_Ok_inv _ _ _ _ Hpk Hv2) as (e2 & He2 & Hr2 & _).
  pose proof (two_signatures _ _ _ _ _ _ _ _ Hpk Hv1 Hv2 He1 He2) as Heq.
  rewrite He1, He2 in Hne. simpl in Hne.
  assert (¬ eqm (e1 - e2) 0) as Hden by (rewrite eqm_sub_0; intros ?%eqm_small; done).
  assert (s1 ≠ s2) as Hs.
  { intros ->. rewrite Z.sub_diag in Heq. symmetry in Heq.
    apply eqm_mul_0 in Heq as [|Heq]; [done|]. by apply even_not_0 in Heq. }
  unfold Extract, extractFromHashes, msg_challenge in *.
  rewrite bool_decide_false, He1, He2 by done. cbv zeta.
  set (x := sc_mul _ _).
  assert (eqm x (even d)) as Hx.
  { unfold x. rewrite eqm_sc_mul, eqm_sc_add, eqm_sc_neg, Z.add_opp_r, Heq.
    assert (eqm (e1 - e2) (sc_add e1 (sc_neg e2))) as ->.
    { rewrite eqm_sc_add, eqm_sc_neg. apply eqm_of_eq. lia. }
    rewrite (Z.mul_comm (sc_add _ _)), <- Z.mul_assoc, eqm_inverse; [apply eqm_of_eq; lia|].
    rewrite eqm_sc_add, eqm_sc_neg. by rewrite Z.add_opp_r. }
  set (y := if YIsOdd _ then _ else _).
  assert (ScalarBaseMult y = ScalarBaseMult d) as Hy.
  { apply base_proper. unfold y, even in *. destruct (YIsOdd _); [|done].
    rewrite eqm_sc_neg, Hx. apply eqm_of_eq. lia. }
  rewrite bool_decide_true by done. exists y. split_and!; [done|done|..];
    unfold y, x, sc_mul, sc_neg; destruct (YIsOdd _); apply mod_range.
Qed.

(** Double signing gives away the private key: if two signatures verify
    under one public key and one public randomness, and the challenges of the
    two messages differ, then [Extract] returns the private key of that public
    key.  No assumption is made on how the signatures were made. *)
Theorem double_signing_reveals_key pubKey r m1 s1 m2 s2 :
  pubKey ≠ Infinity → 0 ≤ s1 < order → 0 ≤ s2 < order →
  Verify pubKey r m1 s1 = Ok tt → Verify pubKey r m2 s2 = Ok tt →
  (msg_challenge pubKey r m1).1 ≠ (msg_challenge pubKey r m2).1 →
  ∃ sk, (Extract pubKey r m1 s1 m2 s2).1 = Ok sk ∧ PubGen sk = pubKey ∧ 0 ≤ sk < order.
Proof. apply Extract_two_signatures. Qed.
End correct.

(** ** Examples, on the curve with seven points *)
Module Examples.
#[local] Existing Instances Toy.curve Toy.laws.

(** The key 5, the nonce 2, two messages. *)
Definition blind : option bytes := Some [x09].
Definition sig_of (message : bytes) : Z :=
  match Sign blind 5 2 message with Ok s => s | _ => 0%Z end.

Lemma honest_signatures_verify_witness :
  Verify (C := Toy.curve) (PubGen (C := Toy.curve) 5) 2 [x01] (sig_of [x01]) = Ok tt.
Proof.
  pose proof (honest_signatures_verify (CL := Toy.laws) [x09] 5 2 [x01]
    ltac:(by vm_compute) ltac:(by vm_compute) ltac:(done)) as H.
  exact H.
Defined.

Lemma double_signing_reveals_key_witness :
  ∃ sk, (Extract (C := Toy.curve) Toy.P5 2 [x01] (sig_of [x01]) [x04] (sig_of [x04])).1 = Ok sk
    ∧ PubGen (C := Toy.curve) sk = Toy.P5 ∧ (0 ≤ sk < 7)%Z.
Proof.
  apply (double_signing_reveals_key (CL := Toy.laws) Toy.P5 2 [x01] (sig_of [x01]) [x04]
    (sig_of [x04])); by vm_compute.
Defined.

(** [Extract] negates the second signature of its caller: called twice on
    the same two valid signatures, it returns the private key and then fails. *)
Theorem extract_twice_fails :
  let '(first, sig2) := Extract (C := Toy.curve) Toy.P5 2 [x01] (sig_of [x01]) [x04] (sig_of [x04]) in
  first = Ok 5%Z ∧
  (Extract (C := Toy.curve) Toy.P5 2 [x01] (sig_of [x01]) [x04] sig2).1 = Err ErrKeyMismatch.
Proof. by vm_compute. Qed.
End Examples.
End Eots.
