(* ===== verification/AdaptorSig.v ===== *)
(** Schnorr adaptor signatures.
    [src/anon/crypto/schnorr-adaptor-signature].

    The covenant committee signs a slashing transaction encrypted under the key
    of a finality provider: an adaptor signature is checked without that key
    ([EncVerify]), becomes a Schnorr signature with it ([Decrypt]), and, together
    with that Schnorr signature, gives the key away ([Extract]).  The theorems:
    the signer's output verifies, a verified adaptor signature decrypts to a
    valid Schnorr signature under the decryption key, the decryption key is
    recovered from the decrypted signature, and both wire formats decode. *)
From Stdlib Require Import Strings.Byte.
From stdpp Require Import base numbers list.
From S2P Require Import Prelude Bytes Secp256k1 Eots.

Module AdaptorSig.
Import Eots.

Inductive AdaptorErr :=
  | ErrMessageSize | ErrAuxSize | ErrPubKeySize | ErrParsePubKey | ErrScalarZero | ErrR0Infinity
  | ErrRInfinity | ErrTInfinity | ErrKeyDiffers | ErrNotAffine | ErrInvalidScalar
  | ErrPrivateKeyZero | ErrNonceZero | ErrPointInfinity | ErrLength | ErrInvalidPoint
  | ErrInvalidNegation | ErrParsePoint | ErrGenerated (e : AdaptorErr) | ErrBlinding.

#[global] Instance AdaptorErr_eq_dec : EqDecision AdaptorErr.
Proof. solve_decision. Defined.

Definition ModNScalarSize : nat := 32.
Definition JacobianPointSize : nat := 33.
Definition AdaptorSignatureSize : nat := JacobianPointSize + ModNScalarSize.
Definition AdaptorSignatureSizeOldFormat : nat := AdaptorSignatureSize + 1.
Definition HashSize : nat := 32.

Section asig.
Context `{C : Curve}.

Record AdaptorSignature := mkAdaptorSignature { R0 : point; as_s : Z }.

(** ** Keys: [keys.go] *)

(** [scalar.Negate()] writes to the scalar of the caller; the second component
    is that scalar after the call. *)
Definition NewDecryptionKeyFromModNScalar (rnd : option bytes) (scalar : Z)
  : res AdaptorErr Z * Z :=
  if bool_decide (scalar = 0%Z) then (Err ErrScalarZero, scalar)
  else
    match ScalarBaseMultWithBlinding rnd scalar with
    | Panic => (Panic, scalar)
    | Err _ => (Err ErrBlinding, scalar)
    | Ok ekPoint =>
        let scalar := if YIsOdd ekPoint then sc_neg scalar else scalar in
        (Ok scalar, scalar)
    end.

(** The private key of the caller is the scalar. *)
Definition NewDecryptionKeyFromBTCSK (rnd : option bytes) (btcSK : Z) : res AdaptorErr Z * Z :=
  NewDecryptionKeyFromModNScalar rnd btcSK.

Definition NewDecryptionKeyFromBytes (rnd : option bytes) (decKeyBytes : bytes)
  : res AdaptorErr Z :=
  if negb (length decKeyBytes =? ModNScalarSize) then Err ErrLength
  else (NewDecryptionKeyFromModNScalar rnd (SetBytes decKeyBytes).1).1.

Definition GetEncKey (rnd : option bytes) (dk : Z) : res AdaptorErr point :=
  map_err (λ _, ErrBlinding) (ScalarBaseMultWithBlinding rnd dk).

Definition NewEncryptionKeyFromJacobianPoint (P : point) : res AdaptorErr point :=
  if bool_decide (P = Infinity) then Err ErrPointInfinity
  else mret (if YIsOdd P then NegateY P else P).

Definition NewEncryptionKeyFromBTCPK (btcPK : point) : res AdaptorErr point :=
  NewEncryptionKeyFromJacobianPoint btcPK.

Definition NewEncryptionKeyFromBytes (encKeyBytes : bytes) : res AdaptorErr point :=
  if negb (length encKeyBytes =? JacobianPointSize) then Err ErrLength
  else
    P ← of_option ErrParsePoint (ParseJacobian encKeyBytes);
    NewEncryptionKeyFromJacobianPoint P.

(** ** Signatures: [types.go] *)

(** A point in affine coordinates has [Z = 1] unless it is infinity. *)
Definition newAdaptorSignature (r : point) (s : Z) : res AdaptorErr AdaptorSignature :=
  if bool_decide (r = Infinity) then Err ErrNotAffine else mret (mkAdaptorSignature r s).

Definition convertOldFormatToNewFormat (oldSigBytes : bytes) : res AdaptorErr bytes :=
  first ← index_go 0 oldSigBytes;
  if negb (bool_decide (first = x02)) then Err ErrInvalidPoint
  else
    flag ← index_go (AdaptorSignatureSizeOldFormat - 1) oldSigBytes;
    format ← match flag with
             | x00 => Ok x02
             | x01 => Ok x03
             | _ => Err ErrInvalidNegation
             end;
    body ← slice_to (AdaptorSignatureSizeOldFormat - 1) oldSigBytes;
    body ← slice_from 1 body;
    mret (format :: body).

Definition NewAdaptorSignatureFromBytes (rawBytes : bytes) : res AdaptorErr AdaptorSignature :=
  asigBytes ← (if length rawBytes =? AdaptorSignatureSizeOldFormat then
                 convertOldFormatToNewFormat rawBytes
               else if length rawBytes =? AdaptorSignatureSize then Ok rawBytes
               else Err ErrLength);
  r0Bytes ← slice_to 33 asigBytes;
  r0 ← of_option ErrParsePoint (ParseJacobian r0Bytes);
  sBytes ← slice_to 65 asigBytes;
  sBytes ← slice_from 33 sBytes;
  let '(s, overflow) := SetBytes sBytes in
  if (overflow : bool) then Err ErrInvalidScalar else newAdaptorSignature r0 s.

Definition Marshal (a : AdaptorSignature) : bytes :=
  (if YIsOdd (R0 a) then x03 else x02) :: field_bytes (X (R0 a)) ++ sc_bytes (as_s a).

Definition Equals (a b : AdaptorSignature) : bool := bool_decide (Marshal a = Marshal b).

(** ** Signing and verification: [sign_utils.go] *)

Definition negatePoint (P : point) : point := NegateY P.

Definition encVerify (adaptorSig : AdaptorSignature) (m pubKeyBytes : bytes) (t : point)
  : res AdaptorErr unit :=
  require (length m =? HashSize) ErrMessageSize;;
  require (length pubKeyBytes =? HashSize) ErrPubKeySize;;
  pubKey ← of_option ErrParsePubKey (ParsePubKey pubKeyBytes);
  let s := as_s adaptorSig in
  require (negb (bool_decide (s = 0%Z))) ErrScalarZero;;
  let R0 := R0 adaptorSig in
  require (negb (bool_decide (R0 = Infinity))) ErrR0Infinity;;
  let e := (challenge (field_bytes (X R0)) pubKeyBytes m).1 in
  let R := AddPoints (ScalarBaseMult s) (ScalarMult (sc_neg e) pubKey) in
  require (negb (bool_decide (R = Infinity))) ErrRInfinity;;
  let T := if negb (YIsOdd R0) then AddPoints R0 (negatePoint R) else AddPoints R0 R in
  require (negb (bool_decide (T = Infinity))) ErrTInfinity;;
  require (bool_decide (T = t)) ErrKeyDiffers.

Definition encSign (rnd : option bytes) (privKey nonce : Z) (pubKey : point) (m : bytes)
    (t : point) : res AdaptorErr AdaptorSignature :=
  R ← map_err (λ _, ErrBlinding) (ScalarBaseMultWithBlinding rnd nonce);
  let R0 := AddPoints R t in
  require (negb (bool_decide (R0 = Infinity))) ErrR0Infinity;;
  let k := if YIsOdd R0 then sc_neg nonce else nonce in
  let pBytes := SerializePubKey pubKey in
  let e := (challenge (field_bytes (X R0)) pBytes m).1 in
  let s := sc_add (sc_mul e privKey) k in
  adaptorSig ← newAdaptorSignature R0 s;
  map_err ErrGenerated (encVerify adaptorSig m pBytes t);;
  mret adaptorSig.

(** A Schnorr signature: the x coordinate of the nonce and the scalar. *)
Definition decrypt (psig : AdaptorSignature) (dk : Z) : res AdaptorErr (N * Z) :=
  let s0 := as_s psig in
  if bool_decide (s0 = 0%Z) || bool_decide (dk = 0%Z) then Err ErrScalarZero
  else
    let s := if negb (YIsOdd (R0 psig)) then sc_add s0 dk else sc_add s0 (sc_neg dk) in
    mret (X (R0 psig), s).

Definition sig_Serialize (sig : N * Z) : bytes := field_bytes sig.1 ++ sc_bytes sig.2.

Definition extract (psig : AdaptorSignature) (sig : N * Z) : res AdaptorErr Z :=
  let s0 := as_s psig in
  sBytes ← slice_from 32 (sig_Serialize sig);
  let '(s, overflow) := SetBytes sBytes in
  if (overflow : bool) then Err ErrInvalidScalar
  else if bool_decide (s0 = 0%Z) || bool_decide (s = 0%Z) then Err ErrScalarZero
  else
    mret (if negb (YIsOdd (R0 psig)) then sc_add s (sc_neg s0) else sc_add s0 (sc_neg s)).

(** ** The interface: [sig.go] *)

Definition EncVerify (sig : AdaptorSignature) (pk encKey : point) (msgHash : bytes)
  : res AdaptorErr unit := encVerify sig msgHash (SerializePubKey pk) encKey.

Definition Decrypt (sig : AdaptorSignature) (decKey : Z) : res AdaptorErr (N * Z) :=
  decrypt sig decKey.

Definition Extract (sig : AdaptorSignature) (decryptedSchnorrSig : N * Z) : res AdaptorErr Z :=
  extract sig decryptedSchnorrSig.

Definition AdaptorSignatureTagAux : bytes :=
  [x53; x63; x68; x6e; x6f; x72; x72; x41; x64; x61; x70; x74; x6f; x72; x2f; x61; x75; x78].
Definition AdaptorSignatureTagNonce : bytes :=
  [x53; x63; x68; x6e; x6f; x72; x72; x41; x64; x61; x70; x74; x6f; x72; x2f;
   x6e; x6f; x6e; x63; x65].

Definition byte_xor (a b : byte) : byte := byte_of_N (N.lxor (N_of_byte a) (N_of_byte b)).

Definition genRandForNonce (skBytes auxRand encKeyBytes pkBytes msgHash : bytes) : bytes :=
  let auxHash := TaggedHash AdaptorSignatureTagAux auxRand in
  let t := zip_with byte_xor skBytes auxHash in
  TaggedHash AdaptorSignatureTagNonce (t ++ encKeyBytes ++ pkBytes ++ msgHash).

Definition EncSignWithAuxData (rnd rnd' : option bytes) (sk : Z) (encKey : point)
    (msgHash auxData : bytes) : res AdaptorErr AdaptorSignature :=
  require (length msgHash =? HashSize) ErrMessageSize;;
  require (length auxData =? HashSize) ErrAuxSize;;
  if bool_decide (sk = 0%Z) then Err ErrPrivateKeyZero
  else
    pk ← map_err (λ _, ErrBlinding) (ScalarBaseMultWithBlinding rnd sk);
    let pkBytes := SerializeCompressed pk in
    let skScalar := if YIsOdd pk then sc_neg sk else sk in
    let encKeyBytes := SerializeCompressed encKey in
    let randForNonce :=
      genRandForNonce (sc_bytes skScalar) auxData encKeyBytes pkBytes msgHash in
    let nonce := (SetBytes randForNonce).1 in
    if bool_decide (nonce = 0%Z) then Err ErrNonceZero
    else encSign rnd' skScalar nonce pk msgHash encKey.
End asig.

(** ** Correctness *)
Section correct.
Context `{CL : CurveLaws}.
Local Open Scope Z_scope.

Lemma length_SerializePubKey P : length (SerializePubKey P) = HashSize.
Proof. apply length_be_encode. Qed.

(** The sign with which the nonce enters: the point with an odd y coordinate is
    negated. *)
Definition sgn (P : point) : Z := if YIsOdd P then -1 else 1.

(** What a successful verification says about discrete logarithms: the nonce of
    the Schnorr signature is [R0] up to sign, and differs from [s G - e P] by the
    encryption key. *)
Lemma EncVerify_Ok a d r0 t m :
  ScalarBaseMult d ≠ Infinity → R0 a = ScalarBaseMult r0 →
  EncVerify a (ScalarBaseMult d) (ScalarBaseMult t) m = Ok tt ↔
  let e := (challenge (field_bytes (X (R0 a))) (SerializePubKey (ScalarBaseMult d)) m).1 in
  let k := as_s a - e * even d in
  length m = HashSize ∧ as_s a ≠ 0 ∧ ¬ eqm r0 0 ∧ ¬ eqm k 0 ∧ ¬ eqm t 0 ∧
  eqm t (r0 - sgn (R0 a) * k).
Proof.
  intros Hd Hr0. unfold EncVerify, encVerify. cbv zeta. rewrite Hr0.
  set (e := (challenge _ _ m).1).
  rewrite length_SerializePubKey, Nat.eqb_refl, parse_serialized by done.
  rewrite !require_bind_Ok, Nat.eqb_eq. cbn [of_option mbind res_bind].
  rewrite base_mul, base_add.
  assert (ScalarBaseMult (as_s a + sc_neg e * even d) =
    ScalarBaseMult (as_s a - e * even d)) as ->.
  { apply base_proper. rewrite eqm_sc_neg. apply eqm_of_eq. lia. }
  set (k := as_s a - e * even d).
  assert ((if negb (YIsOdd (ScalarBaseMult r0))
    then AddPoints (ScalarBaseMult r0) (negatePoint (ScalarBaseMult k))
    else AddPoints (ScalarBaseMult r0) (ScalarBaseMult k)) =
    ScalarBaseMult (r0 - sgn (ScalarBaseMult r0) * k)) as ->.
  { unfold sgn, negatePoint. rewrite base_neg, !base_add.
    destruct (YIsOdd _); simpl; f_equal; lia. }
  set (T := r0 - _).
  rewrite !require_bind_Ok, require_Ok, !negb_true_iff, !bool_decide_eq_false,
    bool_decide_eq_true, !base_Infinity, base_eq.
  fold (eqm T t). split.
  - intros (? & _ & ? & ? & ? & HT & Heq). rewrite <- Heq. done.
  - intros (? & ? & ? & ? & Ht & Heq). rewrite <- Heq. done.
Qed.
Lemma even_sgn k : even k = sgn (ScalarBaseMult k) * k.
Proof. unfold even, sgn. destruct (YIsOdd _); lia. Qed.

Lemma sgn_sqr P a : sgn P * (sgn P * a) = a.
Proof. unfold sgn. destruct (YIsOdd P); lia. Qed.

Lemma sgn_not_0 P : ¬ eqm (sgn P) 0.
Proof.
  pose proof order_pos. intros Hz.
  assert (eqm (sgn P * sgn P) 0) as Hq by by rewrite Hz.
  replace (sgn P * sgn P) with 1 in Hq by (unfold sgn; by destruct (YIsOdd P)).
  apply eqm_small in Hq; lia.
Qed.

Lemma sc_sgn_add P a b :
  (if negb (YIsOdd P) then sc_add a b else sc_add a (sc_neg b)) = (a + sgn P * b) mod order.
Proof.
  unfold sgn. destruct (YIsOdd P); simpl.
  - change (eqm (a + sc_neg b) (a + -1 * b)). rewrite eqm_sc_neg. apply eqm_of_eq. lia.
  - unfold sc_add. f_equal. lia.
Qed.

Lemma sc_sgn_sub P a b :
  (if negb (YIsOdd P) then sc_add a (sc_neg b) else sc_add b (sc_neg a)) =
  (sgn P * (a - b)) mod order.
Proof.
  unfold sgn. destruct (YIsOdd P); simpl.
  - change (eqm (b + sc_neg a) (-1 * (a - b))). rewrite eqm_sc_neg. apply eqm_of_eq. lia.
  - change (eqm (a + sc_neg b) (1 * (a - b))). rewrite eqm_sc_neg. apply eqm_of_eq. lia.
Qed.

(** [extract] as an equation on scalars. *)
Lemma extract_eq a r s :
  0 ≤ s < order → s ≠ 0 → as_s a ≠ 0 →
  extract a (r, s) = Ok ((sgn (R0 a) * (s - as_s a)) mod order).
Proof.
  intros Hs Hs0 Ha. unfold extract, sig_Serialize. cbn [fst snd].
  rewrite slice_from_ok; [|rewrite length_app; unfold field_bytes; rewrite length_be_encode; lia].
  unfold field_bytes. rewrite drop_app_length' by by rewrite length_be_encode.
  cbn [mbind res_bind]. rewrite SetBytes_sc by done.
  rewrite !bool_decide_false by done. simpl. by rewrite sc_sgn_sub.
Qed.

(** An adaptor signature that verifies under an encryption key decrypts,
    under the decryption key, to a valid Schnorr signature of the same message
    and public key, provided the challenge hash is below the order of the
    group; and the decryption key is recovered from that signature. *)
Theorem adaptor_decrypts a pk dk m :
  pk ≠ Infinity → 0 < dk < order → 0 ≤ as_s a < order →
  EncVerify a pk (ScalarBaseMult dk) m = Ok tt →
  (challenge (field_bytes (X (R0 a))) (SerializePubKey pk) m).2 = false →
  ∃ s, Decrypt a dk = Ok (X (R0 a), s) ∧
    verifyHash (SerializePubKey pk) (X (R0 a)) m s = Ok tt ∧
    (s ≠ 0 → Extract a (X (R0 a), s) = Ok dk).
Proof.
  intros Hpk Hdk Ha Hv Ho. destruct (base_gen pk) as [d ->].
  destruct (base_gen (R0 a)) as [r0 Hr0].
  pose proof (proj1 (EncVerify_Ok a d r0 dk m Hpk Hr0) Hv) as (_ & Hs & Hi & _ & _ & Heq).
  destruct (challenge _ _ _) as [e o] eqn:He. simpl in Ho, Heq. subst o.
  unfold Decrypt, decrypt. rewrite !bool_decide_false by lia. cbn [orb].
  rewrite sc_sgn_add. eexists. split; [done|].
  assert (0 ≤ (as_s a + sgn (R0 a) * dk) mod order < order) as Hrange by apply mod_range.
  split.
  - apply (verifyHash_Ok _ _ _ _ e); [done|done|].
    assert (ScalarBaseMult ((as_s a + sgn (R0 a) * dk) mod order - e * even d) =
      ScalarBaseMult (even r0)) as ->.
    { apply base_proper. rewrite eqm_mod, Heq, (even_sgn r0), <- Hr0, Z.mul_sub_distr_l, sgn_sqr.
      apply eqm_of_eq. lia. }
    rewrite Hr0. rewrite <- base_Infinity in Hi. by apply even_spec in Hi as (? & ? & ?).
  - intros Hne. unfold Extract. rewrite extract_eq by done. f_equal.
    apply eqm_small; [apply mod_range|lia|]. rewrite !eqm_mod.
    replace (as_s a + sgn (R0 a) * dk - as_s a) with (sgn (R0 a) * dk) by lia.
    apply eqm_of_eq, sgn_sqr.
Qed.

(** C29: Whoever publishes a valid Schnorr signature with the nonce of a verified
    adaptor signature gives away the decryption key: [Extract] returns a scalar
    whose public key is the encryption key. *)
Theorem published_signature_reveals_key a pk ek m s :
  pk ≠ Infinity → 0 ≤ s < order → s ≠ 0 →
  EncVerify a pk ek m = Ok tt →
  verifyHash (SerializePubKey pk) (X (R0 a)) m s = Ok tt →
  ∃ dk, Extract a (X (R0 a), s) = Ok dk ∧ ScalarBaseMult dk = ek.
Proof.
  intros Hpk Hr Hs Hv Hsig. destruct (base_gen pk) as [d ->], (base_gen ek) as [t ->].
  destruct (base_gen (R0 a)) as [r0 Hr0].
  pose proof (proj1 (EncVerify_Ok a d r0 t m Hpk Hr0) Hv) as (_ & Ha & Hi & _ & _ & Heq).
  destruct (challenge (field_bytes (X (R0 a))) (SerializePubKey (ScalarBaseMult d)) m)
    as [e []] eqn:He.
  { by rewrite (verifyHash_overflow _ _ _ _ e) in Hsig. }
  apply (verifyHash_Ok _ _ _ _ e) in Hsig as (HRi & HRo & HRX); [|done..].
  simpl in Heq. exists ((sgn (R0 a) * (s - as_s a)) mod order).
  split; [by apply extract_eq|]. apply base_proper. rewrite eqm_mod, Heq.
  assert (ScalarBaseMult r0 ≠ Infinity) as Hne by by rewrite base_Infinity.
  apply even_spec in Hne as (HEi & HEX & HEo).
  assert (eqm (s - e * even d) (even r0)) as Hk.
  { apply base_eq, point_inj; [done|done| |congruence]. rewrite HRX, HEX. by rewrite Hr0. }
  replace (s - as_s a) with (s - e * even d - (as_s a - e * even d)) by lia.
  rewrite Hk, (even_sgn r0), <- Hr0, Z.mul_sub_distr_l, sgn_sqr. done.
Qed.

(** The signer's own check. *)
Lemma encSign_self_check b sk k t m :
  ScalarBaseMult sk ≠ Infinity → ¬ eqm k 0 → ¬ eqm t 0 → length m = HashSize →
  match encSign (Some b) ((even sk) mod order) k (ScalarBaseMult sk) m (ScalarBaseMult t) with
  | Ok a => EncVerify a (ScalarBaseMult sk) (ScalarBaseMult t) m = Ok tt
  | Err e => e = ErrR0Infinity ∨ e = ErrGenerated ErrScalarZero
  | Panic => False
  end.
Proof.
  intros Hsk Hk Ht Hm. unfold encSign. rewrite blinding_cancels.
  cbn [map_err mbind res_bind]. rewrite base_add.
  case_bool_decide as Hi; [by left|]. cbn [negb require mbind res_bind].
  set (R := ScalarBaseMult (k + t)) in *. unfold newAdaptorSignature.
  rewrite bool_decide_false by done. cbn [mbind res_bind mret res_ret].
  set (e := (challenge _ _ _).1). set (s := sc_add _ _).
  assert (eqm s (e * even sk + sgn R * k)) as Hs.
  { unfold s, sgn. destruct (YIsOdd R);
      rewrite eqm_sc_add, eqm_sc_mul, ?eqm_sc_neg, eqm_mod; apply eqm_of_eq; lia. }
  destruct (decide (s = 0)) as [->|Hne].
  { unfold encVerify. rewrite Hm, length_SerializePubKey, parse_serialized by done. by right. }
  pose proof (EncVerify_Ok (mkAdaptorSignature R s) sk (k + t) t m Hsk eq_refl) as [_ Hv].
  fold R in Hv. unfold EncVerify in *.
  assert (encVerify (mkAdaptorSignature R s) m (SerializePubKey (ScalarBaseMult sk))
    (ScalarBaseMult t) = Ok tt) as Hok; [apply Hv|by rewrite Hok].
  cbn [R0 as_s]. fold e.
  assert (eqm (s - e * even sk) (sgn R * k)) as Heq by (rewrite Hs; apply eqm_of_eq; lia).
  split_and!; try done.
  - by rewrite <- base_Infinity.
  - by rewrite Heq; intros [Hz|Hz]%eqm_mul_0; [apply sgn_not_0 in Hz|].
  - rewrite Heq, sgn_sqr. apply eqm_of_eq. lia.
Qed.
(** Signing with a private key that is not zero and an encryption key other
    than infinity returns an adaptor signature that verifies; it fails only if
    the derived nonce is zero, if the nonce is the negation of the encryption
    key, or if the resulting scalar is zero. *)
Theorem signer_output_verifies b b' sk ek m aux :
  0 < sk < order → ek ≠ Infinity → length m = HashSize → length aux = HashSize →
  match EncSignWithAuxData (Some b) (Some b') sk ek m aux with
  | Ok a => EncVerify a (ScalarBaseMult sk) ek m = Ok tt
  | Err e => e = ErrNonceZero ∨ e = ErrR0Infinity ∨ e = ErrGenerated ErrScalarZero
  | Panic => False
  end.
Proof.
  intros Hsk Hek Hm Ha. destruct (base_gen ek) as [t ->]. rewrite base_Infinity in Hek.
  assert (ScalarBaseMult sk ≠ Infinity) as Hpk.
  { rewrite base_Infinity. intros ?%eqm_small; lia. }
  unfold EncSignWithAuxData. rewrite Hm, Ha, blinding_cancels.
  rewrite bool_decide_false by lia. cbn [Nat.eqb require mbind res_bind map_err HashSize].
  set (nonce := (SetBytes _).1). case_bool_decide as Hn; [by left|].
  assert (¬ eqm nonce 0) as Hnonce.
  { pose proof order_pos. intros Hz. apply Hn, eqm_small; [apply mod_range|lia|done]. }
  assert ((if YIsOdd (ScalarBaseMult sk) then sc_neg sk else sk) = even sk mod order) as ->.
  { unfold even, sc_neg. destruct (YIsOdd _); [done|]. by rewrite Z.mod_small by lia. }
  pose proof (encSign_self_check b' sk nonce t m Hpk Hnonce Hek Hm) as Hs.
  destruct (encSign _ _ _ _ _ _); naive_solver.
Qed.

(** ** The wire formats *)

Definition wf (a : AdaptorSignature) : Prop := R0 a ≠ Infinity ∧ 0 ≤ as_s a < order.

(** The encoding with a trailing byte for the parity. *)
Definition old_format (a : AdaptorSignature) : bytes :=
  x02 :: field_bytes (X (R0 a)) ++ sc_bytes (as_s a) ++ [if YIsOdd (R0 a) then x01 else x00].

Lemma Marshal_eq a : Marshal a = SerializeCompressed (R0 a) ++ sc_bytes (as_s a).
Proof. done. Qed.

Lemma length_SerializeCompressed P : length (SerializeCompressed P) = 33%nat.
Proof. unfold SerializeCompressed, field_bytes. cbn [length]. by rewrite length_be_encode. Qed.

Lemma length_Marshal a : length (Marshal a) = AdaptorSignatureSize.
Proof.
  rewrite Marshal_eq, length_app, length_SerializeCompressed. unfold sc_bytes.
  by rewrite length_be_encode.
Qed.

(** The part of the decoder that both formats share. *)
Definition decode_new (asigBytes : bytes) : res AdaptorErr AdaptorSignature :=
  r0 ← of_option ErrParsePoint (ParseJacobian (take 33 asigBytes));
  let '(s, overflow) := SetBytes (drop 33 asigBytes) in
  if (overflow : bool) then Err ErrInvalidScalar else newAdaptorSignature r0 s.

Lemma FromBytes_new raw :
  length raw = AdaptorSignatureSize → NewAdaptorSignatureFromBytes raw = decode_new raw.
Proof.
  intros Hl. unfold NewAdaptorSignatureFromBytes, decode_new. rewrite Hl.
  cbn [Nat.eqb AdaptorSignatureSizeOldFormat AdaptorSignatureSize JacobianPointSize
    ModNScalarSize Nat.add mbind res_bind].
  rewrite !slice_to_ok by (rewrite Hl; by apply Nat.leb_le).
  cbn [mbind res_bind]. rewrite (take_ge raw 65) by (rewrite Hl; by apply Nat.leb_le).
  by rewrite slice_from_ok by (rewrite Hl; by apply Nat.leb_le).
Qed.

Lemma decode_Marshal a : wf a → decode_new (Marshal a) = Ok a.
Proof.
  intros [H0 Hs]. unfold decode_new. rewrite Marshal_eq.
  rewrite take_app_length' by by rewrite length_SerializeCompressed.
  rewrite drop_app_length' by by rewrite length_SerializeCompressed.
  rewrite ParseJacobian_Some, SetBytes_sc by done. cbn [of_option mbind res_bind].
  unfold newAdaptorSignature. rewrite bool_decide_false by done. by destruct a.
Qed.

Lemma convert_old_format a : convertOldFormatToNewFormat (old_format a) = Ok (Marshal a).
Proof.
  unfold convertOldFormatToNewFormat, old_format.
  set (body := field_bytes (X (R0 a)) ++ sc_bytes (as_s a)).
  assert (length body = 64%nat) as Hb.
  { unfold body. rewrite length_app. unfold field_bytes, sc_bytes. by rewrite !length_be_encode. }
  rewrite app_assoc. fold body. cbn [index_go lookup list_lookup mbind res_bind].
  rewrite bool_decide_true by done. cbn [negb].
  unfold index_go. rewrite lookup_cons_ne_0 by done.
  rewrite (list_lookup_middle body [] _ (Init.Nat.pred (AdaptorSignatureSizeOldFormat - 1)))
    by (rewrite Hb; done).
  rewrite slice_to_ok by (cbn [length]; rewrite length_app, Hb; by apply Nat.leb_le).
  assert (take (AdaptorSignatureSizeOldFormat - 1)
    (x02 :: body ++ [if YIsOdd (R0 a) then x01 else x00]) = x02 :: body) as Ht.
  { change (AdaptorSignatureSizeOldFormat - 1)%nat with (S 64). done. }
  rewrite Ht. unfold Marshal. fold body. by destruct (YIsOdd (R0 a)).
Qed.

(** Both wire formats of an adaptor signature decode to it, and a byte
    string of the current format that decodes is the encoding of its value, so
    the current format has no two encodings of one signature. *)
Theorem adaptor_formats_decode a :
  wf a →
  NewAdaptorSignatureFromBytes (Marshal a) = Ok a ∧
  NewAdaptorSignatureFromBytes (old_format a) = Ok a ∧
  (∀ raw, length raw = AdaptorSignatureSize →
    NewAdaptorSignatureFromBytes raw = Ok a → raw = Marshal a).
Proof.
  intros Hwf. split_and!.
  - rewrite FromBytes_new by apply length_Marshal. by apply decode_Marshal.
  - unfold NewAdaptorSignatureFromBytes.
    assert (length (old_format a) = AdaptorSignatureSizeOldFormat) as ->.
    { unfold old_format. cbn [length]. rewrite !length_app. unfold field_bytes, sc_bytes.
      by rewrite !length_be_encode. }
    rewrite Nat.eqb_refl, convert_old_format. cbn [mbind res_bind].
    pose proof (FromBytes_new _ (length_Marshal a)) as Hn.
    unfold NewAdaptorSignatureFromBytes in Hn. rewrite length_Marshal in Hn.
    etrans; [exact Hn|by apply decode_Marshal].
  - intros raw Hl. rewrite FromBytes_new by done. intros Hd. unfold decode_new in Hd.
    apply bind_Ok in Hd as (r0 & Hr0%of_option_Ok & Hd).
    destruct (SetBytes (drop 33 raw)) as [s []] eqn:Hs; [done|].
    unfold newAdaptorSignature in Hd. case_bool_decide as Hi; [done|].
    unfold mret, res_ret in Hd. injection Hd as <-.
    rewrite Marshal_eq, <- (take_drop 33 raw). f_equal; [by apply ParseJacobian_sound|].
    by apply SetBytes_inv in Hs; [|rewrite length_drop, Hl].
Qed.
End correct.

(** ** Examples, on the curve with seven points *)
Module Examples.
#[local] Existing Instances Toy.curve Toy.laws.

Definition msg : bytes := be_encode 32 2.
Definition aux : bytes := be_encode 32 3.
(** The signer's key is 2, the decryption key 3, the encryption key [3 G]. *)
Definition asig : AdaptorSignature (C := Toy.curve) :=
  match EncSignWithAuxData (C := Toy.curve) (Some []) (Some []) 2 Toy.P3 msg aux with
  | Ok a => a
  | _ => mkAdaptorSignature (C := Toy.curve) Toy.P0 0
  end.
Definition ssig : Z :=
  match Decrypt (C := Toy.curve) asig 3 with Ok (_, s) => s | _ => 0%Z end.

Lemma signer_output_verifies_witness :
  EncVerify (C := Toy.curve) asig (ScalarBaseMult (Curve := Toy.curve) 2) Toy.P3 msg = Ok tt.
Proof.
  pose proof (signer_output_verifies (CL := Toy.laws) [] [] 2 Toy.P3 msg aux
    ltac:(by vm_compute) ltac:(by vm_compute) ltac:(by vm_compute) ltac:(by vm_compute)) as H.
  assert (is_ok (EncSignWithAuxData (C := Toy.curve) (Some []) (Some []) 2 Toy.P3 msg aux) = true)
    as Hok by (vm_compute; reflexivity).
  unfold asig.
  destruct (EncSignWithAuxData (C := Toy.curve) (Some []) (Some []) 2 Toy.P3 msg aux);
    [exact H|discriminate Hok|discriminate Hok].
Defined.

Lemma adaptor_decrypts_witness :
  ∃ s, Decrypt (C := Toy.curve) asig 3 = Ok (X (Curve := Toy.curve) (R0 asig), s) ∧
    verifyHash (C := Toy.curve) (SerializePubKey (C := Toy.curve) Toy.P2)
      (X (Curve := Toy.curve) (R0 asig)) msg s = Ok tt ∧
    (s ≠ 0%Z → Extract (C := Toy.curve) asig (X (Curve := Toy.curve) (R0 asig), s) = Ok 3%Z).
Proof. apply (adaptor_decrypts (CL := Toy.laws) asig Toy.P2 3 msg); by vm_compute. Defined.

Lemma published_signature_reveals_key_witness :
  ∃ dk, Extract (C := Toy.curve) asig (X (Curve := Toy.curve) (R0 asig), ssig) = Ok dk ∧
    Toy.of_Z dk = Toy.P3.
Proof.
  apply (published_signature_reveals_key (CL := Toy.laws) asig Toy.P2 Toy.P3 msg ssig);
    by vm_compute.
Defined.

Lemma adaptor_formats_decode_witness :
  NewAdaptorSignatureFromBytes (C := Toy.curve) (Marshal asig) = Ok asig ∧
  NewAdaptorSignatureFromBytes (C := Toy.curve) (old_format (C := Toy.curve) asig) = Ok asig.
Proof.
  destruct (adaptor_formats_decode (CL := Toy.laws) asig) as (H1 & H2 & _); [by vm_compute|].
  exact (conj H1 H2).
Defined.

(** Making a decryption key from a private key whose public key has an odd
    y coordinate overwrites the private key of the caller with its negation, so
    that it no longer matches its public key. *)
Theorem decryption_key_overwrites_private_key :
  let '(dk, btcSK) := NewDecryptionKeyFromBTCSK (C := Toy.curve) (Some []) 5 in
  dk = Ok 2%Z ∧ btcSK = 2%Z ∧ Toy.of_Z btcSK ≠ Toy.of_Z 5.
Proof. by vm_compute. Qed.
End Examples.
End AdaptorSig.
