(* ===== verification/Btcd.v ===== *)
(** What the modelled code uses of btcd, the Bitcoin library.

    btcd ([github.com/btcsuite/btcd]) is not part of the repository.  Its types
    and functions are the fields of [Btcd], parameters of every definition that
    uses them; what the theorems rely on is the class [BtcdLaws], which states
    documented behaviour only: headers survive serialisation, and header
    validation depends on its context through the methods of the context. *)
From stdpp Require Import base numbers list.
From S2P Require Import Prelude Bytes.

(** A context of [blockchain.CheckBlockHeaderContext], i.e. a value of the
    interface [blockchain.HeaderCtx], given by what its methods return:
    [Height()], [Bits()], [Timestamp()] of the parent of the header under
    validation, and the same triple for [RelativeAncestorCtx(distance)], which
    may be nil, and may panic. *)
Record HeaderCtx := mkHeaderCtx {
  ctx_Height : Z;
  ctx_Bits : N;
  ctx_Timestamp : Z;
  ctx_RelativeAncestor : Z → res unit (option (Z * N * Z));
}.

(** Two contexts that answer alike.  Distances are non-negative [int32]s. *)
Record ctx_equiv (c1 c2 : HeaderCtx) : Prop := {
  ctx_equiv_height : ctx_Height c1 = ctx_Height c2;
  ctx_equiv_bits : ctx_Bits c1 = ctx_Bits c2;
  ctx_equiv_timestamp : ctx_Timestamp c1 = ctx_Timestamp c2;
  ctx_equiv_ancestor d : (0 ≤ d < 2 ^ 31)%Z →
    ctx_RelativeAncestor c1 d = ctx_RelativeAncestor c2 d;
}.

#[global] Instance ctx_equiv_equivalence : Equivalence ctx_equiv.
Proof.
  split.
  - by intros c.
  - intros c1 c2 [? ? ? H]. split; [done..|]. intros. by rewrite H.
  - intros c1 c2 c3 [? ? ? H] [? ? ? H']. split; [congruence..|].
    intros. by rewrite H, H'.
Qed.

Class Btcd := {
  (** [wire.BlockHeader] *)
  BlockHeader : Type;
  hdr_BlockHash : BlockHeader → bytes;
  hdr_PrevBlock : BlockHeader → bytes;
  hdr_MerkleRoot : BlockHeader → bytes;
  hdr_Bits : BlockHeader → N;
  (** [header.Timestamp], in nanoseconds since the epoch *)
  hdr_Timestamp : BlockHeader → Z;
  (** [header.Serialize] and [header.Deserialize] *)
  Serialize : BlockHeader → bytes;
  Deserialize : bytes → option BlockHeader;
  (** [blockchain.CalcWork]: the work of a header with the given bits *)
  btcd_CalcWork : N → N;
  (** [blockchain.CheckBlockHeaderContext] without flags, skipping checkpoints *)
  CheckBlockHeaderContext : BlockHeader → HeaderCtx → bool;
  (** [blockchain.CheckBlockHeaderSanity] for the network's proof-of-work limit *)
  CheckBlockHeaderSanity : BlockHeader → bool;
  (** [blockchain.CheckProofOfWork] for the network's proof-of-work limit *)
  CheckProofOfWork : BlockHeader → bool;
  (** [btcutil.Tx] *)
  Tx : Type;
  NewTxFromBytes : bytes → option Tx;
  CheckTransactionSanity : Tx → bool;
  tx_Hash : Tx → bytes;
  (** the [PkScript] of each output of [tx.MsgTx()] *)
  tx_PkScripts : Tx → list bytes;
  (** [txscript.IsNullData] *)
  IsNullData : bytes → bool;
  (** [chainhash.DoubleHashH] *)
  DoubleHashH : bytes → bytes;
  (** [blockchain.BuildMerkleTreeStore(txs, false)]; nil entries are [None] *)
  BuildMerkleTreeStore : list Tx → list (option bytes);
}.

Class BtcdLaws `{Btcd} : Prop := {
  Deserialize_Serialize h : Deserialize (Serialize h) = Some h;
  length_Serialize h : length (Serialize h) = 80;
  CheckBlockHeaderContext_proper h ::
    Proper (ctx_equiv ==> eq) (CheckBlockHeaderContext h);
  length_hdr_MerkleRoot h : length (hdr_MerkleRoot h) = 32;
  length_tx_Hash t : length (tx_Hash t) = 32;
  length_DoubleHashH l : length (DoubleHashH l) = 32;
}.

(** [header.Timestamp.Unix()] *)
Definition hdr_Unix `{Btcd} (h : BlockHeader) : Z := (hdr_Timestamp h / 10 ^ 9)%Z.

(** [ValidateBTCHeader] of [src/anon/types/btcutils.go]. *)
Definition ValidateBTCHeader `{Btcd} (header : BlockHeader) : bool :=
  CheckProofOfWork header &&
  bool_decide (hdr_Timestamp header = hdr_Unix header * 10 ^ 9)%Z.

(** ** A small Bitcoin for the examples

    A header is four bytes: its hash, its parent's hash, its bits and the first
    byte of its Merkle root.  Contextual validation asks for the parent's bits.
    A transaction is its bytes; its only output's script is the whole of it. *)
Module Toy.
Record header := Header { t_id : byte; t_prev : byte; t_bits : byte; t_root : byte }.

Definition hdr (id prev bits root : N) : header :=
  Header (byte_of_N id) (byte_of_N prev) (byte_of_N bits) (byte_of_N root).

Definition pad32 (l : bytes) : bytes := take 32 (l ++ replicate 32 (byte_of_N 0)).

Lemma length_pad32 l : length (pad32 l) = 32.
Proof. unfold pad32. rewrite length_take, length_app, length_replicate. lia. Qed.

#[global] Instance btcd : Btcd := {|
  BlockHeader := header;
  hdr_BlockHash h := pad32 [t_id h];
  hdr_PrevBlock h := pad32 [t_prev h];
  hdr_MerkleRoot h := pad32 [t_root h];
  hdr_Bits h := N_of_byte (t_bits h);
  hdr_Timestamp h := 0%Z;
  Serialize h := [t_id h; t_prev h; t_bits h; t_root h] ++ replicate 76 (byte_of_N 0);
  Deserialize l :=
    match l with i :: p :: b :: r :: _ => Some (Header i p b r) | _ => None end;
  btcd_CalcWork n := n;
  CheckBlockHeaderContext h c := (N_of_byte (t_bits h) =? ctx_Bits c)%N;
  CheckBlockHeaderSanity h := true;
  CheckProofOfWork h := true;
  Tx := bytes;
  NewTxFromBytes l := Some l;
  CheckTransactionSanity _ := true;
  tx_Hash := pad32;
  tx_PkScripts t := [t];
  IsNullData l := match l with b :: _ => (N_of_byte b =? 0x6a)%N | [] => false end;
  DoubleHashH l := pad32 (reverse l);
  BuildMerkleTreeStore txs := Some ∘ pad32 <$> txs;
|}.

#[global] Instance btcd_laws : BtcdLaws.
Proof.
  split; [by intros []|done| |intros; apply length_pad32..].
  intros h c1 c2 Hc. simpl. by rewrite (ctx_equiv_bits _ _ Hc).
Qed.
End Toy.
