(* ===== verification/BtcTxFormatter.v ===== *)
(** The OP_RETURN format of checkpoints: [src/anon/btctxformatter/formatter.go].

    A checkpoint is written to Bitcoin as two OP_RETURN payloads.  The first
    carries the epoch, the block hash, the bitmap and the submitter; the second
    the BLS multi-signature and the first ten bytes of the SHA-256 of the first
    payload (without its header), which ties the two together.  [sha256] is not
    code of the repository: it is a parameter, and the theorems use only that
    its digests have 32 bytes. *)
From stdpp Require Import base numbers list.
From S2P Require Import Prelude Bytes.

Module BtcTxFormatter.

Abbreviation AnonTag := bytes.
Abbreviation FormatVersion := N.

Record formatHeader := FormatHeader {
  fh_tag : AnonTag;
  fh_version : FormatVersion;
  fh_part : N;
}.

Record AnonData := mkAnonData { ad_Data : bytes; ad_Index : N }.

Record RawBtcCheckpoint := mkRawBtcCheckpoint {
  Epoch : N;
  BlockHash : bytes;
  BitMap : bytes;
  SubmitterAddress : bytes;
  BlsSig : bytes;
}.

#[global] Instance RawBtcCheckpoint_eq_dec : EqDecision RawBtcCheckpoint.
Proof. solve_decision. Defined.

Definition TagLength : nat := 4.
Definition CurrentVersion : FormatVersion := 0.
Definition firstPartIndex : N := 0.
Definition secondPartIndex : N := 1.
Definition headerLength : nat := TagLength + 1.
Definition BlockHashLength : nat := 32.
Definition BitMapLength : nat := 13.
Definition AddressLength : nat := 20.
Definition NumberOfParts : nat := 2.
Definition firstPartHashLength : nat := 10.
Definition BlsSigLength : nat := 48.
Definition EpochLength : nat := 8.
Definition firstPartLength : nat :=
  headerLength + BlockHashLength + AddressLength + EpochLength + BitMapLength.
Definition secondPartLength : nat :=
  headerLength + BlsSigLength + firstPartHashLength.
Definition RawBTCCheckpointLength : nat :=
  EpochLength + BlockHashLength + BitMapLength + BlsSigLength + AddressLength.

(** The errors of the package, one constructor per message. *)
Inductive FmtErr :=
  | ErrTagLength | ErrInvalidFormatVersion | ErrAppHashLength | ErrBitmapLength
  | ErrBlsSigLength | ErrAddressLength
  | ErrUnexpectedTag | ErrHeaderVersion | ErrHeaderPart
  | ErrPartIndex | ErrNotSupportedVersion | ErrFirstPartLength | ErrSecondPartLength
  | ErrNotAnonData | ErrRawCheckpointLength
  | ErrNotValidFirstPart | ErrNotValidSecondPart | ErrPartsDoNotConnect.

#[global] Instance FmtErr_eq_dec : EqDecision FmtErr.
Proof. solve_decision. Defined.

Definition getVerHalf (version : FormatVersion) (halfNumber : N) : N :=
  let verHalf := 0%N in
  let verHalf := N.lor (N.land verHalf 0xf0) (N.land version 0xf) in
  N.lor (N.land verHalf 0xf) (u8 (N.shiftl halfNumber 4)).

Definition encodeHeader (tag : AnonTag) (version : FormatVersion) (halfNumber : N)
  : bytes := tag ++ [byte_of_N (getVerHalf version halfNumber)].

Definition U64ToBEBytes (u : N) : bytes := Uint64ToBigEndian u.

Definition encodeFirstOpRetrun (tag : AnonTag) (version : FormatVersion)
    (epoch : N) (appHash bitMap submitterAddress : bytes) : bytes :=
  encodeHeader tag version firstPartIndex ++ U64ToBEBytes epoch ++ appHash ++
  bitMap ++ submitterAddress.

Definition parseHeader (data : bytes) : res FmtErr formatHeader :=
  tagBytes ← slice_to TagLength data;
  verHalf ← index_go TagLength data;
  mret (FormatHeader tagBytes (N.land (N_of_byte verHalf) 0xf)
          (N.shiftr (N_of_byte verHalf) 4)).

Definition validateHeader (header : formatHeader) (expectedTag : AnonTag)
    (expectedPart : N) : res FmtErr unit :=
  require (bool_decide (fh_tag header = expectedTag)) ErrUnexpectedTag;;
  require (negb (CurrentVersion <? fh_version header)%N) ErrHeaderVersion;;
  require (fh_part header =? expectedPart)%N ErrHeaderPart.

Definition GetCheckpointData (tag : AnonTag) (version : FormatVersion)
    (partIndex : N) (data : bytes) : res FmtErr bytes :=
  require (negb (1 <? partIndex)%N) ErrPartIndex;;
  require (negb (CurrentVersion <? version)%N) ErrNotSupportedVersion;;
  require (negb ((partIndex =? 0)%N && negb (length data =? firstPartLength)))
    ErrFirstPartLength;;
  require (negb ((partIndex =? 1)%N && negb (length data =? secondPartLength)))
    ErrSecondPartLength;;
  header ← parseHeader data;
  validateHeader header tag partIndex;;
  slice_from headerLength data.

(** [for idx < NumberOfParts { ... }], [n] iterations from [idx] on. *)
Fixpoint tryParts (tag : AnonTag) (version : FormatVersion) (data : bytes)
    (idx : N) (n : nat) : res FmtErr AnonData :=
  match n with
  | O => Err ErrNotAnonData
  | S n =>
      match GetCheckpointData tag version idx data with
      | Ok d => Ok (mkAnonData d idx)
      | Err _ => tryParts tag version data (idx + 1) n
      | Panic => Panic
      end
  end.

Definition IsAnonCheckpointData (tag : AnonTag) (version : FormatVersion)
    (data : bytes) : res FmtErr AnonData :=
  tryParts tag version data 0 NumberOfParts.

(** [b.Next(n)] on a [bytes.Buffer]: at most [n] bytes, and the rest. *)
Definition buf_next (n : nat) (b : bytes) : bytes * bytes := (take n b, drop n b).

Definition DecodeRawCheckpoint (version : FormatVersion) (btcCkptBytes : bytes)
  : res FmtErr RawBtcCheckpoint :=
  require (negb (CurrentVersion <? version)%N) ErrNotSupportedVersion;;
  require (length btcCkptBytes =? RawBTCCheckpointLength) ErrRawCheckpointLength;;
  let '(epochBytes, b) := buf_next EpochLength btcCkptBytes in
  let '(appHashBytes, b) := buf_next BlockHashLength b in
  let '(bitmapBytes, b) := buf_next BitMapLength b in
  let '(addressBytes, b) := buf_next AddressLength b in
  let '(blsSigBytes, b) := buf_next BlsSigLength b in
  mret (mkRawBtcCheckpoint (BigEndianToUint64 epochBytes) appHashBytes bitmapBytes
          addressBytes blsSigBytes).

Section sha.
Context (sha256 : bytes → bytes).

Definition getCheckSum (firstTxBytes : bytes) : bytes :=
  take firstPartHashLength (sha256 firstTxBytes).

Definition encodeSecondOpReturn (tag : AnonTag) (version : FormatVersion)
    (firstOpReturnBytes blsSig : bytes) : res FmtErr bytes :=
  appData ← slice_from headerLength firstOpReturnBytes;
  mret (encodeHeader tag version secondPartIndex ++ blsSig ++ getCheckSum appData).

Definition EncodeCheckpointData (tag : AnonTag) (version : FormatVersion)
    (rawBTCCheckpoint : RawBtcCheckpoint) : res FmtErr (bytes * bytes) :=
  require (length tag =? TagLength) ErrTagLength;;
  require (negb (CurrentVersion <? version)%N) ErrInvalidFormatVersion;;
  require (length (BlockHash rawBTCCheckpoint) =? BlockHashLength) ErrAppHashLength;;
  require (length (BitMap rawBTCCheckpoint) =? BitMapLength) ErrBitmapLength;;
  require (length (BlsSig rawBTCCheckpoint) =? BlsSigLength) ErrBlsSigLength;;
  require (length (SubmitterAddress rawBTCCheckpoint) =? AddressLength)
    ErrAddressLength;;
  let firstHalf := encodeFirstOpRetrun tag version (Epoch rawBTCCheckpoint)
    (BlockHash rawBTCCheckpoint) (BitMap rawBTCCheckpoint)
    (SubmitterAddress rawBTCCheckpoint) in
  secondHalf ← encodeSecondOpReturn tag version firstHalf (BlsSig rawBTCCheckpoint);
  mret (firstHalf, secondHalf).

Definition MustEncodeCheckpointData (tag : AnonTag) (version : FormatVersion)
    (rawBTCCheckpoint : RawBtcCheckpoint) : res FmtErr (bytes * bytes) :=
  match EncodeCheckpointData tag version rawBTCCheckpoint with
  | Err _ => Panic
  | r => r
  end.

Definition ConnectParts (version : FormatVersion) (f s : bytes) : res FmtErr bytes :=
  require (negb (CurrentVersion <? version)%N) ErrNotSupportedVersion;;
  require (length f =? firstPartLength - headerLength) ErrNotValidFirstPart;;
  require (length s =? secondPartLength - headerLength) ErrNotValidSecondPart;;
  let firstHash := sha256 f in
  let hashStartIdx := length s - firstPartHashLength in
  expectedHash ← slice_from hashStartIdx s;
  require (bool_decide (take firstPartHashLength firstHash = expectedHash))
    ErrPartsDoNotConnect;;
  sig ← slice_to hashStartIdx s;
  mret (f ++ sig).
End sha.

Lemma buf_next_app n (l k : bytes) : length l = n → buf_next n (l ++ k) = (l, k).
Proof. intros <-. unfold buf_next. by rewrite take_app_length, drop_app_length. Qed.

(** ** Headers *)

Lemma getVerHalf_0 p : (p ≤ 1)%N → getVerHalf CurrentVersion p = (16 * p)%N.
Proof. intros. assert (p = 0 ∨ p = 1)%N as [-> | ->] by lia; done. Qed.

Lemma length_encodeHeader tag v p :
  length tag = TagLength → length (encodeHeader tag v p) = headerLength.
Proof. intros H. unfold encodeHeader. rewrite length_app, H. done. Qed.

Lemma not_ltb_current (v : N) : negb (CurrentVersion <? v)%N = true ↔ v = CurrentVersion.
Proof.
  unfold CurrentVersion. rewrite negb_true_iff, N.ltb_ge. split; lia.
Qed.

(** The header written for a part is the header read back. *)
Lemma parseHeader_encode tag p rest :
  length tag = TagLength → (p ≤ 1)%N →
  parseHeader (encodeHeader tag CurrentVersion p ++ rest) =
    Ok (FormatHeader tag CurrentVersion p).
Proof.
  intros Ht Hp. unfold parseHeader, encodeHeader. rewrite <- app_assoc.
  rewrite slice_to_ok by (rewrite length_app; lia).
  rewrite take_app_length' by done. simpl.
  unfold index_go. rewrite lookup_app_r, Ht by lia. simpl.
  rewrite getVerHalf_0 by done.
  assert (p = 0 ∨ p = 1)%N as [-> | ->] by lia; reflexivity.
Qed.

(** A byte whose low half is zero and whose high half is [p] is the version
    byte of part [p]. *)
Lemma verHalf_inv (b : byte) p :
  (N.land (N_of_byte b) 0xf ≤ CurrentVersion)%N → N.shiftr (N_of_byte b) 4 = p →
  (p ≤ 1)%N → b = byte_of_N (getVerHalf CurrentVersion p).
Proof.
  intros Hl Hs Hp. rewrite getVerHalf_0 by done.
  rewrite <- (byte_of_N_of_byte b). f_equal. unfold CurrentVersion in Hl.
  change 0xf%N with (N.ones 4) in Hl. rewrite N.land_ones in Hl.
  rewrite N.shiftr_div_pow2 in Hs. change (2 ^ 4)%N with 16%N in *.
  assert (N_of_byte b mod 16 = 0)%N as H0 by (by apply N.le_0_r).
  rewrite (N.div_mod (N_of_byte b) 16), Hs, H0 by done. apply N.add_0_r.
Qed.

Lemma parseHeader_inv data h p :
  parseHeader data = Ok h → (fh_version h ≤ CurrentVersion)%N → fh_part h = p →
  (p ≤ 1)%N → data = encodeHeader (fh_tag h) CurrentVersion p ++ drop headerLength data.
Proof.
  unfold parseHeader. intros Hd Hv Hp Hle. inv_ok.
  unfold slice_to in *. case_decide; inv_ok. unfold index_go in *.
  destruct (data !! TagLength) as [b|] eqn:Hb; inv_ok.
  rewrite <- (take_drop_middle data TagLength _ Hb) at 1.
  unfold encodeHeader, headerLength. rewrite Nat.add_1_r, <- app_assoc. simpl.
  f_equal. f_equal. by apply verHalf_inv.
Qed.

(** ** One part *)

Definition partLength (p : N) : nat :=
  if (p =? 0)%N then firstPartLength else secondPartLength.

Lemma GetCheckpointData_encode tag p d :
  length tag = TagLength → (p ≤ 1)%N → length d = partLength p - headerLength →
  GetCheckpointData tag CurrentVersion p
    (encodeHeader tag CurrentVersion p ++ d) = Ok d.
Proof.
  intros Ht Hp Hd. unfold GetCheckpointData.
  assert (length (encodeHeader tag CurrentVersion p ++ d) = partLength p) as Hlen.
  { rewrite length_app, length_encodeHeader, Hd by done.
    unfold partLength. case_match; done. }
  rewrite Hlen, parseHeader_encode by done. unfold validateHeader. simpl.
  rewrite bool_decide_true by done. simpl.
  rewrite slice_from_ok by (rewrite Hlen; unfold partLength; case_match; cbv; lia).
  rewrite drop_app_length' by (by rewrite length_encodeHeader).
  assert (p = 0 ∨ p = 1)%N as [-> | ->] by lia; reflexivity.
Qed.

Lemma GetCheckpointData_inv tag v p data d :
  GetCheckpointData tag v p data = Ok d →
  v = CurrentVersion ∧ (p ≤ 1)%N ∧ length tag = TagLength ∧
  length data = partLength p ∧ data = encodeHeader tag CurrentVersion p ++ d.
Proof.
  unfold GetCheckpointData. intros H. inv_ok.
  match goal with H : parseHeader data = Ok ?h |- _ => rename h into hd; rename H into Hh end.
  unfold validateHeader in *. inv_ok. unfold slice_from in *. case_decide; inv_ok.
  rewrite bool_decide_eq_true in *. subst tag.
  assert (p ≤ 1)%N by (destruct (1 <? p)%N eqn:E; [done|]; apply N.ltb_ge in E; lia).
  assert (fh_version hd ≤ CurrentVersion)%N
    by (destruct (CurrentVersion <? fh_version hd)%N eqn:E; [done|];
        by apply N.ltb_ge in E).
  assert (length data = partLength p).
  { unfold partLength. assert (p = 0 ∨ p = 1)%N as [-> | ->] by lia; simpl in *;
      match goal with
      | H : negb (negb (?a =? ?b)) = true |- _ =>
          rewrite negb_involutive in H; by apply Nat.eqb_eq in H
      end. }
  split_and!; [by apply not_ltb_current|done| |done|].
  - unfold parseHeader in Hh. inv_ok. unfold slice_to in *. case_decide; inv_ok.
    simpl. rewrite length_take. unfold TagLength in *. lia.
  - eapply parseHeader_inv; [done|done| |done]. by apply N.eqb_eq.
Qed.

(** ** The whole checkpoint *)

(** Length requirements of [EncodeCheckpointData]. *)
Definition ckpt_wf (c : RawBtcCheckpoint) : Prop :=
  length (BlockHash c) = BlockHashLength ∧ length (BitMap c) = BitMapLength ∧
  length (BlsSig c) = BlsSigLength ∧ length (SubmitterAddress c) = AddressLength.

#[global] Instance ckpt_wf_dec c : Decision (ckpt_wf c).
Proof. unfold ckpt_wf. apply _. Defined.

(** The application data of the first part, without its header. *)
Definition firstData (c : RawBtcCheckpoint) : bytes :=
  U64ToBEBytes (Epoch c) ++ BlockHash c ++ BitMap c ++ SubmitterAddress c.

Lemma length_firstData c :
  ckpt_wf c → length (firstData c) = firstPartLength - headerLength.
Proof.
  intros (H1 & H2 & H3 & H4). unfold firstData, U64ToBEBytes, Uint64ToBigEndian.
  by rewrite !length_app, length_be_encode, H1, H2, H4.
Qed.

Section theorems.
Context (sha256 : bytes → bytes).
Context (sha256_length : ∀ l, length (sha256 l) = 32).

Definition secondData (c : RawBtcCheckpoint) : bytes :=
  BlsSig c ++ getCheckSum sha256 (firstData c).

Lemma length_secondData c :
  ckpt_wf c → length (secondData c) = secondPartLength - headerLength.
Proof.
  intros (H1 & H2 & H3 & H4). unfold secondData, getCheckSum.
  by rewrite length_app, H3, length_take, sha256_length.
Qed.

Lemma GetCheckpointData_first tag c :
  length tag = TagLength → ckpt_wf c →
  GetCheckpointData tag CurrentVersion 0
    (encodeHeader tag CurrentVersion firstPartIndex ++ firstData c) =
    Ok (firstData c).
Proof. intros. apply GetCheckpointData_encode; [done..|by apply length_firstData]. Qed.

Lemma GetCheckpointData_second tag c :
  length tag = TagLength → ckpt_wf c →
  GetCheckpointData tag CurrentVersion 1
    (encodeHeader tag CurrentVersion secondPartIndex ++ secondData c) =
    Ok (secondData c).
Proof.
  intros. apply GetCheckpointData_encode; [done..|by apply length_secondData].
Qed.

(** [EncodeCheckpointData] succeeds exactly on well-formed input, with each
    part its header followed by its data. *)
Lemma EncodeCheckpointData_Ok tag v c fs :
  EncodeCheckpointData sha256 tag v c = Ok fs ↔
  length tag = TagLength ∧ v = CurrentVersion ∧ ckpt_wf c ∧
  fs = (encodeHeader tag v firstPartIndex ++ firstData c,
        encodeHeader tag v secondPartIndex ++ secondData c).
Proof.
  unfold EncodeCheckpointData, encodeSecondOpReturn, ckpt_wf.
  assert (∀ t, length t = TagLength →
    slice_from (E := FmtErr) headerLength
      (encodeFirstOpRetrun t v (Epoch c) (BlockHash c) (BitMap c)
         (SubmitterAddress c)) = Ok (firstData c)) as Hslice.
  { intros t Ht. unfold encodeFirstOpRetrun.
    rewrite slice_from_ok by (rewrite length_app, length_encodeHeader; [lia|done]).
    by rewrite drop_app_length' by (by rewrite length_encodeHeader). }
  split.
  - intros H. inv_ok. rewrite !Nat.eqb_eq, not_ltb_current in *. subst v.
    rewrite Hslice in * by done. inv_ok. unfold secondData. done.
  - intros (Ht & -> & (H1 & H2 & H3 & H4) & ->).
    rewrite Ht, H1, H2, H3, H4, Hslice by done. done.
Qed.

Lemma ConnectParts_parts c :
  ckpt_wf c →
  ConnectParts sha256 CurrentVersion (firstData c) (secondData c) =
    Ok (firstData c ++ BlsSig c).
Proof.
  intros Hc. unfold ConnectParts.
  rewrite (length_firstData c Hc), (length_secondData c Hc). simpl.
  assert (length (BlsSig c) = 48) as Hs by apply Hc.
  rewrite slice_from_ok by (rewrite length_secondData by done; cbv; lia).
  rewrite slice_to_ok by (rewrite length_secondData by done; cbv; lia).
  unfold secondData, getCheckSum. rewrite drop_app_length' by done.
  rewrite take_app_length' by done. simpl. by rewrite bool_decide_true.
Qed.

Lemma ConnectParts_inv v f s d :
  ConnectParts sha256 v f s = Ok d →
  length f = firstPartLength - headerLength ∧
  length s = secondPartLength - headerLength ∧
  d = f ++ take BlsSigLength s ∧
  s = take BlsSigLength s ++ getCheckSum sha256 f.
Proof.
  unfold ConnectParts. intros H. inv_ok.
  unfold slice_from, slice_to in *. repeat case_decide; inv_ok.
  rewrite !Nat.eqb_eq in *. rewrite bool_decide_eq_true in *.
  match goal with H : length s = _ |- _ => rename H into Hs end.
  rewrite Hs in *. split_and!; [done|done|done|].
  unfold getCheckSum.
  match goal with H : drop _ s = _ |- _ => rewrite <- H end.
  symmetry. apply take_drop.
Qed.

Lemma DecodeRawCheckpoint_parts c :
  ckpt_wf c → (Epoch c < 2 ^ 64)%N →
  DecodeRawCheckpoint CurrentVersion (firstData c ++ BlsSig c) = Ok c.
Proof.
  intros Hc He. unfold DecodeRawCheckpoint.
  rewrite length_app, (length_firstData c Hc).
  destruct Hc as (H1 & H2 & H3 & H4). rewrite H3. cbn -[buf_next firstData].
  unfold firstData, U64ToBEBytes. rewrite <- !app_assoc.
  rewrite (buf_next_app EpochLength) by apply length_be_encode.
  rewrite !buf_next_app by done. rewrite <- (app_nil_r (BlsSig c)).
  rewrite buf_next_app, BigEndianToUint64_encode by done. by destruct c.
Qed.

Lemma DecodeRawCheckpoint_inv v d c :
  DecodeRawCheckpoint v d = Ok c →
  v = CurrentVersion ∧ ckpt_wf c ∧ (Epoch c < 2 ^ 64)%N ∧ d = firstData c ++ BlsSig c.
Proof.
  unfold DecodeRawCheckpoint, buf_next. intros H. inv_ok.
  rewrite Nat.eqb_eq, not_ltb_current in *.
  match goal with H : length d = _ |- _ => rename H into Hd end.
  unfold RawBTCCheckpointLength, EpochLength, BlockHashLength, BitMapLength,
    AddressLength, BlsSigLength in *.
  split; [done|]. split.
  { unfold ckpt_wf. simpl. rewrite !length_take, !length_drop, Hd. done. }
  split.
  { simpl. unfold BigEndianToUint64.
    eapply N.lt_le_trans; [apply be_decode_lt|]. by rewrite length_take, Hd. }
  unfold firstData, U64ToBEBytes.
  cbn [Epoch BlockHash BitMap SubmitterAddress BlsSig].
  rewrite Uint64ToBigEndian_decode by (by rewrite length_take, Hd).
  rewrite (take_ge (drop 20 _)) by (rewrite !length_drop, Hd; done).
  rewrite <- !app_assoc, !take_drop. done.
Qed.
End theorems.

(** The reader's pipeline: both payloads are stripped of their headers,
    connected and decoded ([ParseTwoProofs] of
    [src/anon/x/btccheckpoint/types/msgs.go] composes the calls this way). *)
Definition decodeParts (sha256 : bytes → bytes) (tag : AnonTag) (v : FormatVersion)
    (first second : bytes) : res FmtErr RawBtcCheckpoint :=
  f ← GetCheckpointData tag v 0 first;
  s ← GetCheckpointData tag v 1 second;
  d ← ConnectParts sha256 v f s;
  DecodeRawCheckpoint v d.

(** C11: The wire format is a bijection: a checkpoint is encoded as a
    pair of payloads exactly when that pair decodes to the checkpoint.  So
    every checkpoint that can be written is read back unchanged, and a pair of
    payloads that is accepted is byte for byte the encoding of what was read
    (no two different pairs stand for one checkpoint). *)
Theorem checkpoint_codec_bijection (sha256 : bytes → bytes) tag v c f s :
  (∀ l, length (sha256 l) = 32) → (Epoch c < 2 ^ 64)%N →
  EncodeCheckpointData sha256 tag v c = Ok (f, s) ↔
  decodeParts sha256 tag v f s = Ok c.
Proof.
  intros Hsha He. rewrite EncodeCheckpointData_Ok. unfold decodeParts. split.
  - intros (Ht & -> & Hc & [= -> ->]).
    rewrite GetCheckpointData_first by done.
    rewrite GetCheckpointData_second by done.
    simpl. rewrite ConnectParts_parts by done. by apply DecodeRawCheckpoint_parts.
  - intros H. inv_ok.
    repeat match goal with
    | H : GetCheckpointData _ _ _ _ = Ok _ |- _ =>
        apply GetCheckpointData_inv in H as (? & _ & ? & ? & ->)
    end.
    match goal with H : DecodeRawCheckpoint _ _ = Ok _ |- _ =>
      apply DecodeRawCheckpoint_inv in H as (-> & Hc & _ & Hd) end.
    match goal with H : ConnectParts _ _ _ _ = Ok _ |- _ =>
      apply ConnectParts_inv in H as (Hf & Hs & -> & Hss) end.
    assert (x = firstData c ∧ take BlsSigLength x0 = BlsSig c) as [-> Hsig].
    { apply app_inj_1; [|done]. by rewrite Hf, length_firstData. }
    split_and!; [done|done|done|]. unfold secondData. by rewrite Hss, Hsig.
Qed.

(** A digest for the examples: the input, padded or cut to 32 bytes. *)
Definition toy_sha256 (l : bytes) : bytes := take 32 (l ++ replicate 32 (byte_of_N 0)).

Lemma toy_sha256_length l : length (toy_sha256 l) = 32.
Proof. unfold toy_sha256. rewrite length_take, length_app, length_replicate. lia. Qed.

Definition toy_tag : AnonTag := byte_of_N <$> [1; 2; 3; 4]%N.
Definition toy_ckpt : RawBtcCheckpoint :=
  mkRawBtcCheckpoint 258 (byte_of_N ∘ N.of_nat <$> seq 0 32) (byte_of_N ∘ N.of_nat <$> seq 100 13)
    (byte_of_N ∘ N.of_nat <$> seq 50 20) (byte_of_N ∘ N.of_nat <$> seq 200 48).
Definition toy_parts : bytes * bytes :=
  (encodeHeader toy_tag CurrentVersion 0 ++ firstData toy_ckpt,
   encodeHeader toy_tag CurrentVersion 1 ++ secondData toy_sha256 toy_ckpt).

Lemma checkpoint_codec_bijection_witness :
  EncodeCheckpointData toy_sha256 toy_tag CurrentVersion toy_ckpt =
    Ok (toy_parts.1, toy_parts.2) ∧
  decodeParts toy_sha256 toy_tag CurrentVersion toy_parts.1 toy_parts.2 = Ok toy_ckpt.
Proof.
  assert (EncodeCheckpointData toy_sha256 toy_tag CurrentVersion toy_ckpt =
    Ok (toy_parts.1, toy_parts.2)) as H by (vm_compute; reflexivity).
  split; [exact H|].
  refine (proj1 (checkpoint_codec_bijection toy_sha256 toy_tag CurrentVersion toy_ckpt
    toy_parts.1 toy_parts.2 toy_sha256_length _) H).
  vm_compute; reflexivity.
Defined.

(** Scanning a payload with [IsAnonCheckpointData] recognises both
    payloads of an encoded checkpoint, at the right part index, and returns
    their data without the header; the two parts are never confused. *)
Theorem IsAnonCheckpointData_encoded (sha256 : bytes → bytes) tag v c f s :
  (∀ l, length (sha256 l) = 32) →
  EncodeCheckpointData sha256 tag v c = Ok (f, s) →
  IsAnonCheckpointData tag v f = Ok (mkAnonData (firstData c) firstPartIndex) ∧
  IsAnonCheckpointData tag v s = Ok (mkAnonData (secondData sha256 c) secondPartIndex).
Proof.
  intros Hsha (Ht & -> & Hc & [= -> ->])%EncodeCheckpointData_Ok.
  unfold IsAnonCheckpointData, NumberOfParts. cbn [tryParts]. split.
  - rewrite GetCheckpointData_first by done.
    done.
  - destruct (GetCheckpointData tag CurrentVersion 0 _) eqn:E.
    + exfalso. apply GetCheckpointData_inv in E as (_ & _ & _ & Hlen & _).
      rewrite length_app, length_encodeHeader, length_secondData in Hlen; done.
    + rewrite GetCheckpointData_second by done.
      done.
    + exfalso. revert E. unfold GetCheckpointData.
      rewrite length_app, length_encodeHeader, length_secondData by done. done.
Qed.

Lemma IsAnonCheckpointData_encoded_witness :
  IsAnonCheckpointData toy_tag CurrentVersion toy_parts.1 =
    Ok (mkAnonData (firstData toy_ckpt) 0) ∧
  IsAnonCheckpointData toy_tag CurrentVersion toy_parts.2 =
    Ok (mkAnonData (secondData toy_sha256 toy_ckpt) 1).
Proof.
  apply (IsAnonCheckpointData_encoded toy_sha256 toy_tag CurrentVersion toy_ckpt);
    [apply toy_sha256_length | vm_compute; reflexivity].
Defined.

Lemma GetCheckpointData_no_panic tag v p data : GetCheckpointData tag v p data ≠ Panic.
Proof.
  unfold GetCheckpointData, validateHeader. intros H.
  inv_panic; inv_ok.
  all: assert (headerLength ≤ length data) as Hlen by
    (repeat match goal with H : negb _ = true |- _ => apply negb_true_iff in H end;
     rewrite N.ltb_ge in *; rewrite ?andb_false_iff, ?negb_false_iff, ?Nat.eqb_eq in *;
     assert (p = 0 ∨ p = 1)%N as [-> | ->] by lia; simpl in *;
     unfold firstPartLength, secondPartLength, headerLength in *; intuition (try done; lia)).
  - unfold parseHeader in *. inv_panic.
    + rewrite slice_to_ok in H by (unfold headerLength in *; lia). done.
    + unfold index_go in H.
      destruct (lookup_lt_is_Some_2 data TagLength) as [b Hb];
        [unfold headerLength in *; lia|]. by rewrite Hb in H.
  - by rewrite slice_from_ok in H.
Qed.

(** No payload, however malformed, makes a reader panic: every input
    is either decoded or rejected with an error. *)
Theorem readers_never_panic (sha256 : bytes → bytes) tag v p data f s :
  GetCheckpointData tag v p data ≠ Panic ∧
  IsAnonCheckpointData tag v data ≠ Panic ∧
  ConnectParts sha256 v f s ≠ Panic ∧
  DecodeRawCheckpoint v data ≠ Panic.
Proof.
  split_and!.
  - apply GetCheckpointData_no_panic.
  - unfold IsAnonCheckpointData. generalize NumberOfParts. intros n. generalize 0%N.
    induction n as [|n IH]; intros i; [done|]. cbn [tryParts].
    pose proof (GetCheckpointData_no_panic tag v i data).
    by destruct (GetCheckpointData tag v i data).
  - unfold ConnectParts. intros H. inv_panic.
    + by rewrite slice_from_ok in H by lia.
    + by rewrite slice_to_ok in H by lia.
  - unfold DecodeRawCheckpoint, buf_next. intros H.
    destruct (CurrentVersion <? v)%N; [done|]. by destruct (length data =? _).
Qed.

End BtcTxFormatter.
