(* ===== verification/BtcUtils.v ===== *)
(** Merkle inclusion proofs: [src/anon/x/btccheckpoint/types/btcutils.go].

    [verify] checks that a transaction hash is a leaf of the Merkle tree whose
    root is in a block header; [createBranch] builds such a proof from the
    flattened tree; [ParseProof] combines the checks on one proof of a
    checkpoint submission.  Hashing and the construction of the flattened tree
    ([blockchain.BuildMerkleTreeStore]) belong to btcd; the tree is described by
    its documentation, as the concatenation of the levels, from the leaves to
    the root, with empty entries in between. *)
From Equations Require Import Equations.
From stdpp Require Import base numbers list.
From S2P Require Import Prelude Bytes Btcd.

Module BtcUtils.

Definition hashSize : nat := 32.

Section merkle.
Context `{B : Btcd}.

Definition hashConcat (a b : bytes) : bytes := DoubleHashH (a ++ b).

(** The loop of [verify]: [n] iterations from [i] on. *)
Fixpoint verify_loop (proof : bytes) (i n : nat) (current : bytes) (idx : N)
  : bytes :=
  match n with
  | O => current
  | S n =>
      let next := take 32 (drop (i * 32) proof) in
      let current :=
        if (idx mod 2 =? 1)%N then hashConcat next current
        else hashConcat current next in
      verify_loop proof (i + 1) n current (N.shiftr idx 1)
  end.

(** [merkleRoot] is the 32 bytes of the root in the header. *)
Definition verify (tx : Tx) (merkleRoot intermediateNodes : bytes) (index : N) : bool :=
  let txHash := tx_Hash tx in
  if bool_decide (txHash = merkleRoot) && (index =? 0)%N &&
     (length intermediateNodes =? 0) then true
  else
    let proof := txHash ++ intermediateNodes ++ merkleRoot in
    let proofLength := length proof in
    if negb (proofLength mod 32 =? 0) then false
    else if proofLength =? 64 then false
    else
      let root := drop (proofLength - 32) proof in
      let cur := take 32 proof in
      let numSteps := proofLength / 32 - 1 in
      bool_decide (verify_loop proof 1 (numSteps - 1) cur index = root).

Definition VerifyInclusionProof (tx : Tx) (merkleRoot intermediateNodes : bytes)
    (index : N) : bool := verify tx merkleRoot intermediateNodes index.

(** *** Reference definition: folding a list of siblings. *)
Fixpoint merkle_fold (current : bytes) (siblings : list bytes) (idx : N) : bytes :=
  match siblings with
  | [] => current
  | next :: siblings =>
      merkle_fold
        (if (idx mod 2 =? 1)%N then hashConcat next current
         else hashConcat current next) siblings (N.shiftr idx 1)
  end.

Definition is_hash (h : bytes) : Prop := length h = hashSize.

(** What [verify] computes, on a proof given as a list of siblings. *)
Definition verify_spec (txHash merkleRoot : bytes) (siblings : list bytes)
    (index : N) : bool :=
  match siblings with
  | [] => bool_decide (txHash = merkleRoot) && (index =? 0)%N
  | _ => bool_decide (merkle_fold txHash siblings index = merkleRoot)
  end.

Lemma length_concat_hashes (ns : list bytes) :
  Forall is_hash ns → length (concat ns) = length ns * 32.
Proof.
  induction 1 as [|n ns Hn _ IH]; [done|]. simpl.
  rewrite length_app, IH, Hn. unfold hashSize. lia.
Qed.

Lemma verify_loop_fold pre ns post i cur idx :
  Forall is_hash ns → length pre = i * 32 →
  verify_loop (pre ++ concat ns ++ post) i (length ns) cur idx =
  merkle_fold cur ns idx.
Proof.
  intros Hns. revert pre i cur idx.
  induction Hns as [|n ns Hn _ IH]; intros pre i cur idx Hpre; [done|].
  cbn [concat length verify_loop merkle_fold].
  rewrite drop_app_length' by done. rewrite <- (app_assoc n).
  rewrite take_app_length' by done. rewrite (app_assoc pre n).
  apply IH. rewrite length_app, Hpre, Hn. unfold hashSize. lia.
Qed.

Lemma verify_unfold `{!BtcdLaws} tx root ns idx :
  is_hash root → Forall is_hash ns →
  verify tx root (concat ns) idx = verify_spec (tx_Hash tx) root ns idx.
Proof.
  intros Hr Hns. unfold verify, verify_spec.
  pose proof (length_tx_Hash tx) as Ht. generalize dependent (tx_Hash tx).
  intros txHash Ht.
  assert (length (txHash ++ concat ns ++ root) = (length ns + 2) * 32) as Hlen.
  { rewrite !length_app, length_concat_hashes by done. rewrite Ht, Hr.
    unfold hashSize. lia. }
  rewrite Hlen, length_concat_hashes by done.
  rewrite Nat.Div0.mod_mul. simpl (negb _).
  destruct ns as [|n ns].
  - simpl. rewrite andb_true_r. by case_match.
  - rewrite (proj2 (Nat.eqb_neq (length (n :: ns) * 32) 0)) by (simpl; lia).
    rewrite andb_false_r.
    rewrite (proj2 (Nat.eqb_neq _ 64)) by (simpl; lia).
    rewrite Nat.div_mul by done.
    replace (length (n :: ns) + 2 - 1 - 1) with (length (n :: ns)) by (simpl; lia).
    rewrite verify_loop_fold by (first [done | rewrite Ht; done]).
    rewrite take_app_length' by done. rewrite app_assoc, drop_app_length'; [done|].
    rewrite length_app, length_concat_hashes, Ht by done. unfold hashSize. lia.
Qed.

(** *** Building a proof *)

(** The loop of [createBranch]: [size] is the size of the current level, [i]
    where the level starts in [nodes].  The level size strictly decreases, so
    the loop terminates. *)
Equations? createBranch_loop (nodes : list bytes) (size index i : nat)
    (branch : list bytes) : res unit (list bytes) by wf size lt :=
  createBranch_loop nodes size index i branch with le_lt_dec size 1 => {
    | left _ := Ok branch;
    | right _ :=
        match nodes !! (i + Nat.min (Nat.lxor index 1) (size - 1)) with
        | None => Panic
        | Some n => createBranch_loop nodes (Nat.div2 (size + 1)) (Nat.div2 index)
                      (i + size) (branch ++ [n])
        end }.
Proof. rewrite Nat.div2_div. apply Nat.Div0.div_lt_upper_bound; lia. Qed.

Definition createBranch (nodes : list bytes) (numfLeafs idx : nat)
  : res unit (list bytes) := createBranch_loop nodes numfLeafs idx 0 [].

(** *** Bitcoin's Merkle tree *)

(** The level above [l]; an unpaired last node is paired with itself. *)
Fixpoint next_level (l : list bytes) : list bytes :=
  match l with
  | [] => []
  | [a] => [hashConcat a a]
  | a :: b :: l => hashConcat a b :: next_level l
  end.

Lemma length_next_level l : length (next_level l) = Nat.div2 (length l + 1).
Proof.
  induction l as [| a | a b l IH] using list_ind_two; [done|done|].
  cbn [next_level length]. by rewrite IH.
Qed.

Lemma next_level_lookup l k :
  next_level l !! k =
    match l !! (2 * k), l !! (2 * k + 1) with
    | Some a, Some b => Some (hashConcat a b)
    | Some a, None => Some (hashConcat a a)
    | None, _ => None
    end.
Proof.
  revert k. induction l as [| a | a b l IH] using list_ind_two; intros k; [done| |].
  - destruct k as [|k]; [done|]. replace (2 * S k) with (S (S (2 * k))) by lia. done.
  - destruct k as [|k]; [done|]. cbn [next_level].
    replace (2 * S k) with (S (S (2 * k))) by lia.
    replace (S (S (2 * k)) + 1) with (S (S (2 * k + 1))) by lia. apply IH.
Qed.

Lemma next_level_is_hash l :
  (∀ x, is_hash (DoubleHashH x)) → Forall is_hash (next_level l).
Proof.
  intros Hh. induction l as [| a | a b l IH] using list_ind_two; simpl;
    repeat constructor; auto; apply Hh.
Qed.

(** The levels from [l] up to the root, concatenated: the array of
    [BuildMerkleTreeStore] without its empty nodes. *)
Equations? tree_nodes (l : list bytes) : list bytes by wf (length l) lt :=
  tree_nodes l with le_lt_dec (length l) 1 => {
    | left _ := l;
    | right _ := l ++ tree_nodes (next_level l) }.
Proof. rewrite length_next_level, Nat.div2_div. apply Nat.Div0.div_lt_upper_bound; lia. Qed.

Equations? merkle_root (l : list bytes) : option bytes by wf (length l) lt :=
  merkle_root l with le_lt_dec (length l) 1 => {
    | left _ := head l;
    | right _ := merkle_root (next_level l) }.
Proof. rewrite length_next_level, Nat.div2_div. apply Nat.Div0.div_lt_upper_bound; lia. Qed.

(** The node that is hashed with node [idx] of level [l]. *)
Lemma sibling_lookup l idx leaf :
  1 < length l → l !! idx = Some leaf →
  ∃ sib, l !! Nat.min (Nat.lxor idx 1) (length l - 1) = Some sib ∧
    next_level l !! Nat.div2 idx =
      Some (if Nat.odd idx then hashConcat sib leaf else hashConcat leaf sib).
Proof.
  intros Hl Hleaf. pose proof (lookup_lt_Some _ _ _ Hleaf) as Hlt.
  rewrite next_level_lookup.
  pose proof (Nat.div2_odd idx) as Hi. destruct (Nat.odd idx); simpl Nat.b2n in Hi;
    remember (Nat.div2 idx) as k; clear Heqk; subst idx.
  - rewrite lxor_1_odd, Nat.min_l by lia.
    destruct (lookup_lt_is_Some_2 l (2 * k)) as [sib Hs]; [lia|].
    exists sib. by rewrite Hs, Hleaf.
  - rewrite Nat.add_0_r in *. rewrite lxor_1_even, Hleaf.
    destruct (l !! (2 * k + 1)) as [sib|] eqn:Hs.
    + pose proof (lookup_lt_Some _ _ _ Hs). rewrite Nat.min_l by lia. eauto.
    + apply lookup_ge_None in Hs. rewrite Nat.min_r by lia.
      replace (length l - 1) with (2 * k) by lia. eauto.
Qed.

(** The branch built for leaf [idx] folds up to the root. *)
Lemma createBranch_loop_spec l pre idx leaf br :
  (∀ x, is_hash (DoubleHashH x)) → Forall is_hash l → l !! idx = Some leaf →
  ∃ sibs root,
    createBranch_loop (pre ++ tree_nodes l) (length l) idx (length pre) br =
      Ok (br ++ sibs) ∧
    merkle_root l = Some root ∧ merkle_fold leaf sibs (N.of_nat idx) = root ∧
    Forall is_hash sibs ∧ (sibs = [] ↔ length l = 1).
Proof.
  intros Hh. remember (length l) as n eqn:Hn. revert l Hn pre idx leaf br.
  induction n as [n IH] using lt_wf_ind. intros l -> pre idx leaf br Hl Hleaf.
  pose proof (lookup_lt_Some _ _ _ Hleaf) as Hlt.
  simp createBranch_loop tree_nodes merkle_root.
  destruct (le_lt_dec (length l) 1) as [Hle|Hgt]; simpl.
  - destruct l as [|x [|y l]]; simpl in *; [lia| |lia].
    assert (idx = 0) as -> by lia. simplify_eq/=.
    exists [], leaf. rewrite app_nil_r. split_and!; done.
  - destruct (sibling_lookup l idx leaf Hgt Hleaf) as (sib & Hsib & Hup).
    rewrite lookup_app_r by lia. rewrite Nat.add_comm, Nat.add_sub.
    rewrite lookup_app_l by (pose proof (lookup_lt_Some _ _ _ Hsib); lia).
    rewrite Hsib. rewrite app_assoc, <- length_next_level.
    rewrite <- (length_app pre l).
    destruct (IH (length (next_level l))) with (l := next_level l) (pre := pre ++ l)
      (idx := Nat.div2 idx) (leaf := if Nat.odd idx then hashConcat sib leaf
         else hashConcat leaf sib) (br := br ++ [sib])
      as (sibs & root & Hb & Hr & Hf & Hs & _); try done.
    { rewrite length_next_level, Nat.div2_div. apply Nat.Div0.div_lt_upper_bound; lia. }
    { by apply next_level_is_hash. }
    exists (sib :: sibs), root.
    rewrite Hb, <- app_assoc. split_and!; [done|done| | |split; [done|lia]].
    + cbn [merkle_fold]. rewrite <- Hf. f_equal.
      * by rewrite N_odd_of_nat.
      * by rewrite N_shiftr_of_nat.
    + constructor; [|done]. eapply Forall_lookup_1; [exact Hl|exact Hsib].
Qed.

(** *** Proofs for a block's transactions *)

Inductive ProofErr :=
  | ErrEmptyTransactionList | ErrIndexTooLarge | ErrTxDecoding | ErrTxSanity
  | ErrHeaderInvalid | ErrFailedProof | ErrManyOpReturns | ErrNoOpReturnData.

(** [for _, b := range transactions { tx, e := btcutil.NewTxFromBytes(b) }]. *)
Definition parse_txs (transactions : list bytes) : res ProofErr (list Tx) :=
  of_option ErrTxDecoding (mapM NewTxFromBytes transactions).

Definition CreateProofForIdx (transactions : list bytes) (idx : nat)
  : res ProofErr (list bytes) :=
  require (negb (length transactions =? 0)) ErrEmptyTransactionList;;
  require (negb (length transactions <=? idx)) ErrIndexTooLarge;;
  txs ← parse_txs transactions;
  let storeNoNil := omap id (BuildMerkleTreeStore txs) in
  match createBranch storeNoNil (length transactions) idx with
  | Ok branch => Ok branch
  | _ => Panic
  end.

Record BTCSpvProof := mkBTCSpvProof {
  BtcTransaction : bytes;
  BtcTransactionIndex : N;
  MerkleNodes : bytes;
  ConfirmingBtcHeader : bytes;
}.

Definition SpvProofFromHeaderAndTransactions (headerBytes : bytes)
    (transactions : list bytes) (transactionIdx : nat) : res ProofErr BTCSpvProof :=
  proof ← CreateProofForIdx transactions transactionIdx;
  let flatProof := concat proof in
  match transactions !! transactionIdx with
  | None => Panic
  | Some tx => mret (mkBTCSpvProof tx (u32 (N.of_nat transactionIdx)) flatProof
                       headerBytes)
  end.

(** *** OP_RETURN data *)

Definition OP_PUSHDATA1 : N := 0x4c.

Fixpoint ExtractStandardOpReturnData_loop (scripts : list bytes) (counter : nat)
    (opReturnData : bytes) : res ProofErr bytes :=
  match scripts with
  | [] => Ok opReturnData
  | script :: scripts =>
      if negb (IsNullData script) then
        ExtractStandardOpReturnData_loop scripts counter opReturnData
      else
        let counter := S counter in
        if 1 <? counter then Err ErrManyOpReturns
        else if length script =? 1 then
          ExtractStandardOpReturnData_loop scripts counter opReturnData
        else
          b ← index_go 1 script;
          data ← (if (N_of_byte b =? OP_PUSHDATA1)%N then slice_from 3 script
                  else slice_from 2 script);
          ExtractStandardOpReturnData_loop scripts counter (opReturnData ++ data)
  end.

Definition ExtractStandardOpReturnData (tx : Tx) : res ProofErr bytes :=
  ExtractStandardOpReturnData_loop (tx_PkScripts tx) 0 [].

Record ParsedProof := mkParsedProof {
  pp_BlockHash : bytes;
  pp_Transaction : Tx;
  pp_TransactionBytes : bytes;
  pp_TransactionIdx : N;
  pp_OpReturnData : bytes;
}.

Definition ParseTransaction (b : bytes) : res ProofErr Tx :=
  tx ← of_option ErrTxDecoding (NewTxFromBytes b);
  require (CheckTransactionSanity tx) ErrTxSanity;;
  mret tx.

(** [ToBlockHeader] of [src/anon/types/btc_header_bytes.go]. *)
Definition ToBlockHeader {E} (m : bytes) : res E BlockHeader :=
  match Deserialize m with Some h => Ok h | None => Panic end.

Definition ParseProof (btcTransaction : bytes) (transactionIndex : N)
    (merkleProof btcHeader : bytes) : res ProofErr ParsedProof :=
  tx ← ParseTransaction btcTransaction;
  header ← ToBlockHeader btcHeader;
  require (ValidateBTCHeader header) ErrHeaderInvalid;;
  require (verify tx (hdr_MerkleRoot header) merkleProof transactionIndex)
    ErrFailedProof;;
  opReturnData ← ExtractStandardOpReturnData tx;
  require (negb (length opReturnData =? 0)) ErrNoOpReturnData;;
  mret (mkParsedProof (hdr_BlockHash header) tx btcTransaction transactionIndex
          opReturnData).

(** The higher bits of an index are never looked at. *)
Lemma merkle_fold_index ns cur idx k :
  merkle_fold cur ns (idx + k * 2 ^ N.of_nat (length ns)) = merkle_fold cur ns idx.
Proof.
  revert cur idx. induction ns as [|n ns IH]; intros cur idx; [done|].
  cbn [merkle_fold length]. rewrite Nat2N.inj_succ, N.pow_succ_r'.
  replace (idx + k * (2 * 2 ^ N.of_nat (length ns)))%N
    with (idx + k * 2 ^ N.of_nat (length ns) * 2)%N by lia.
  rewrite N.Div0.mod_add, !N.shiftr_div_pow2, N.div_add by done. apply IH.
Qed.

(** Folding different leaves to one value exhibits a hash collision. *)
Definition collision : Prop := ∃ x y, x ≠ y ∧ DoubleHashH x = DoubleHashH y.

Lemma merkle_fold_collision `{!BtcdLaws} ns1 ns2 c1 c2 idx :
  length ns1 = length ns2 → is_hash c1 → is_hash c2 →
  Forall is_hash ns1 → Forall is_hash ns2 →
  merkle_fold c1 ns1 idx = merkle_fold c2 ns2 idx → c1 = c2 ∨ collision.
Proof.
  revert ns2 c1 c2 idx. induction ns1 as [|n1 ns1 IH]; intros [|n2 ns2] c1 c2 idx Hl
    H1 H2 Hn1 Hn2 Hf; simplify_eq/=; [by left|].
  apply Forall_cons in Hn1 as [Hn1 Hns1]. apply Forall_cons in Hn2 as [Hn2 Hns2].
  apply IH in Hf as [Heq|?]; [|by right|done|case_match; apply length_DoubleHashH
    |case_match; apply length_DoubleHashH|done|done].
  assert (c1 = c2 ∨ c1 ≠ c2) as [->|Hne] by (destruct (decide (c1 = c2)); auto);
    [by left|right].
  unfold is_hash in *. unfold hashConcat in Heq.
  case_match; eexists _, _; (split; [|exact Heq]); intros Happ.
  - apply app_inj_1 in Happ as [? ?]; [done|congruence].
  - apply app_inj_1 in Happ as [? ?]; [done|congruence].
Qed.
End merkle.
Arguments ProofErr : clear implicits.

Section theorems.
Context `{B : Btcd} {L : BtcdLaws}.

(** Cutting a byte string into hashes. *)
Lemma chunk_hashes n (l : bytes) :
  length l = n * 32 → ∃ ns, Forall is_hash ns ∧ concat ns = l ∧ length ns = n.
Proof.
  revert l. induction n as [|n IH]; intros l Hl.
  - exists []. apply nil_length_inv in Hl. by subst.
  - destruct (IH (drop 32 l)) as (ns & Hns & Hc & Hlen); [rewrite length_drop; lia|].
    exists (take 32 l :: ns). split_and!; simpl.
    + constructor; [|done]. unfold is_hash. rewrite length_take. unfold hashSize. lia.
    + by rewrite Hc, take_drop.
    + by rewrite Hlen.
Qed.

(** An accepted proof is a sequence of hashes. *)
Lemma verify_chunks tx root nodes idx :
  is_hash root → verify tx root nodes idx = true →
  ∃ ns, Forall is_hash ns ∧ nodes = concat ns ∧ length nodes = length ns * 32.
Proof.
  intros Hr Hv. assert (length nodes mod 32 = 0) as Hm.
  { unfold verify in Hv. case_match eqn:Hs.
    - rewrite !andb_true_iff, Nat.eqb_eq in Hs. destruct Hs as [_ ->]. done.
    - case_match eqn:Hmod; [done|]. apply negb_false_iff, Nat.eqb_eq in Hmod.
      rewrite !length_app, length_tx_Hash, Hr in Hmod. unfold hashSize in Hmod.
      replace (32 + (length nodes + 32)) with (length nodes + 2 * 32) in Hmod by lia.
      by rewrite Nat.Div0.mod_add in Hmod. }
  apply Nat.Div0.div_exact in Hm.
  destruct (chunk_hashes (length nodes / 32) nodes) as (ns & Hns & Hc & Hl); [lia|].
  exists ns. split_and!; [done|done|lia].
Qed.

Lemma parse_txs_lookup transactions txs idx raw :
  mapM NewTxFromBytes transactions = Some txs → transactions !! idx = Some raw →
  ∃ tx, txs !! idx = Some tx ∧ NewTxFromBytes raw = Some tx.
Proof.
  intros Hm Hi. apply mapM_Some in Hm.
  destruct (Forall2_lookup_l _ _ _ _ _ Hm Hi) as (tx & ? & ?). eauto.
Qed.

(** C28: Completeness of inclusion proofs: for any block, given as its
    transactions with the tree btcd documents, and any transaction of it,
    [SpvProofFromHeaderAndTransactions] returns a proof (it neither fails nor
    panics) that [verify] accepts against the Merkle root of the block, for
    block sizes that are not a power of two as well. *)
Theorem spv_proof_complete headerBytes transactions txs idx raw :
  mapM NewTxFromBytes transactions = Some txs →
  omap id (BuildMerkleTreeStore txs) = tree_nodes (tx_Hash <$> txs) →
  transactions !! idx = Some raw → (N.of_nat idx < 2 ^ 32)%N →
  ∃ p tx root,
    SpvProofFromHeaderAndTransactions headerBytes transactions idx = Ok p ∧
    BtcTransaction p = raw ∧ NewTxFromBytes raw = Some tx ∧
    merkle_root (tx_Hash <$> txs) = Some root ∧
    verify tx root (MerkleNodes p) (BtcTransactionIndex p) = true.
Proof.
  intros Hm Hstore Hraw Hidx.
  destruct (parse_txs_lookup _ _ _ _ Hm Hraw) as (tx & Htx & Hparse).
  pose proof (lookup_lt_Some _ _ _ Hraw) as Hlt.
  assert (length (tx_Hash <$> txs) = length transactions) as Hlen.
  { rewrite length_fmap. symmetry. apply (length_mapM _ _ _ Hm). }
  assert (Forall is_hash (tx_Hash <$> txs)) as Hall
    by (apply Forall_fmap, Forall_true; intros; apply length_tx_Hash).
  destruct (createBranch_loop_spec (tx_Hash <$> txs) [] idx (tx_Hash tx) [])
    as (sibs & root & Hb & Hr & Hf & Hs & Hn).
  { apply length_DoubleHashH. } { done. } { by rewrite list_lookup_fmap, Htx. }
  assert (is_hash root) as Hroot.
  { rewrite <- Hf. clear -Hs L. destruct sibs as [|s sibs] using rev_ind;
      [apply length_tx_Hash|]. clear -L.
    generalize (tx_Hash tx) (N.of_nat idx). induction sibs as [|s' sibs IH]; intros;
      simpl; [case_match; apply length_DoubleHashH|apply IH]. }
  unfold SpvProofFromHeaderAndTransactions, CreateProofForIdx, parse_txs.
  rewrite (proj2 (Nat.eqb_neq _ 0)), (proj2 (Nat.leb_gt _ _)) by lia.
  rewrite Hm. simpl. rewrite Hstore. unfold createBranch. rewrite <- Hlen.
  simpl in Hb. rewrite Hb, Hraw. simpl.
  eexists _, tx, root. split_and!; [done|done|done|done|]. simpl.
  rewrite verify_unfold by done. rewrite u32_small by done.
  unfold verify_spec. destruct sibs as [|s sibs].
  - rewrite bool_decide_true by done.
    assert (idx = 0) as -> by (assert (length (tx_Hash <$> txs) = 1) by tauto; lia).
    done.
  - by rewrite bool_decide_true.
Qed.

(** Soundness of inclusion proofs: two proofs of the same length at
    the same index against one Merkle root prove the same transaction hash,
    unless they exhibit a collision of the hash function. *)
Theorem verify_sound tx1 tx2 root nodes1 nodes2 idx :
  length root = hashSize → length nodes1 = length nodes2 →
  verify tx1 root nodes1 idx = true → verify tx2 root nodes2 idx = true →
  tx_Hash tx1 = tx_Hash tx2 ∨ collision.
Proof.
  intros Hr Hl H1 H2.
  destruct (verify_chunks _ _ _ _ Hr H1) as (ns1 & Hn1 & -> & Hl1).
  destruct (verify_chunks _ _ _ _ Hr H2) as (ns2 & Hn2 & -> & Hl2).
  assert (length ns1 = length ns2) as Hlen by lia.
  rewrite verify_unfold in H1, H2 by done. unfold verify_spec in *.
  destruct ns1 as [|n1 ns1], ns2 as [|n2 ns2]; try done.
  - left. rewrite andb_true_iff, bool_decide_eq_true in *.
    destruct H1 as [-> _], H2 as [-> _]. done.
  - rewrite bool_decide_eq_true in *.
    apply (merkle_fold_collision (n1 :: ns1) (n2 :: ns2) _ _ idx); try done.
    + apply length_tx_Hash.
    + apply length_tx_Hash.
    + by rewrite H1, H2.
Qed.

(** The index of a transaction is not bound by its proof: whatever
    is accepted at index [i] with [n > 0] siblings is also accepted at
    [i + k * 2^n], and the parsed proof carries the index it was given.  The
    same inclusion proof can therefore be presented under many transaction
    indices. *)
Theorem ParseProof_index_not_bound raw nodes hdr idx k pp :
  nodes ≠ [] → ParseProof raw idx nodes hdr = Ok pp →
  ParseProof raw (idx + k * 2 ^ N.of_nat (length nodes / 32)) nodes hdr =
    Ok (mkParsedProof (pp_BlockHash pp) (pp_Transaction pp) (pp_TransactionBytes pp)
          (idx + k * 2 ^ N.of_nat (length nodes / 32)) (pp_OpReturnData pp)).
Proof.
  intros Hne H. unfold ParseProof in *. inv_ok.
  match goal with H : verify ?t (hdr_MerkleRoot ?h) _ _ = true |- _ =>
    pose proof (length_hdr_MerkleRoot h) as Hroot;
    destruct (verify_chunks _ _ _ _ Hroot H) as (ns & Hns & -> & Hlen);
    rewrite verify_unfold in H by done; rename H into Hv end.
  rewrite Hlen, Nat.div_mul by done.
  repeat match goal with H : ?x = Ok _ |- context [?x] => rewrite H; simpl end.
  rewrite verify_unfold by done. unfold verify_spec in *.
  destruct ns as [|n ns]; [done|]. rewrite merkle_fold_index, Hv.
  repeat match goal with H : ?x = _ |- context [?x] => rewrite H; simpl end.
  done.
Qed.
End theorems.

(** *** Examples *)

(** The example Bitcoin with the documented Merkle tree construction. *)
Definition toy_tree : Btcd := {|
  BlockHeader := @BlockHeader Toy.btcd;
  hdr_BlockHash := @hdr_BlockHash Toy.btcd;
  hdr_PrevBlock := @hdr_PrevBlock Toy.btcd;
  hdr_MerkleRoot := @hdr_MerkleRoot Toy.btcd;
  hdr_Bits := @hdr_Bits Toy.btcd;
  hdr_Timestamp := @hdr_Timestamp Toy.btcd;
  Serialize := @Serialize Toy.btcd;
  Deserialize := @Deserialize Toy.btcd;
  btcd_CalcWork := @btcd_CalcWork Toy.btcd;
  CheckBlockHeaderContext := @CheckBlockHeaderContext Toy.btcd;
  CheckBlockHeaderSanity := @CheckBlockHeaderSanity Toy.btcd;
  CheckProofOfWork := @CheckProofOfWork Toy.btcd;
  Tx := bytes;
  NewTxFromBytes := Some;
  CheckTransactionSanity _ := true;
  tx_Hash := Toy.pad32;
  tx_PkScripts t := [t];
  IsNullData := @IsNullData Toy.btcd;
  DoubleHashH := @DoubleHashH Toy.btcd;
  BuildMerkleTreeStore txs :=
    None :: (Some <$> @tree_nodes Toy.btcd (Toy.pad32 <$> txs));
|}.

Definition toy_tree_laws : @BtcdLaws toy_tree.
Proof. destruct Toy.btcd_laws. by split. Qed.

(** Three transactions, so that the last leaf is paired with itself. *)
Definition toy_txs : list bytes := [[byte_of_N 1]; [byte_of_N 2]; [byte_of_N 3]].

Lemma spv_proof_complete_witness : ∃ p tx root,
  @SpvProofFromHeaderAndTransactions toy_tree [] toy_txs 2 = Ok p ∧
  BtcTransaction p = [byte_of_N 3] ∧ @NewTxFromBytes toy_tree [byte_of_N 3] = Some tx ∧
  @merkle_root toy_tree (@tx_Hash toy_tree <$> toy_txs) = Some root ∧
  @verify toy_tree tx root (MerkleNodes p) (BtcTransactionIndex p) = true.
Proof.
  apply (@spv_proof_complete toy_tree toy_tree_laws [] toy_txs toy_txs 2 [byte_of_N 3]).
  - reflexivity.
  - vm_compute; reflexivity.
  - reflexivity.
  - reflexivity.
Defined.

(** Two transactions of 33 bytes with one hash. *)
Definition toy_tx33 (n : N) : bytes := replicate 32 (byte_of_N 9) ++ [byte_of_N n].

Lemma verify_sound_witness :
  tx_Hash (toy_tx33 1) = tx_Hash (toy_tx33 2) ∨ @collision Toy.btcd.
Proof.
  apply (verify_sound (B := Toy.btcd) (toy_tx33 1) (toy_tx33 2)
    (DoubleHashH (Toy.pad32 (toy_tx33 1) ++ Toy.pad32 [])) (Toy.pad32 []) (Toy.pad32 []) 0);
    vm_compute; reflexivity.
Defined.

Definition toy_node : bytes := replicate 31 (byte_of_N 0) ++ [byte_of_N 7].
Definition toy_op_return : bytes := byte_of_N <$> [0x6a; 2; 11; 12]%N.
Definition toy_header : bytes := Serialize (Toy.hdr 5 4 1 7).

(** The proof for index 0 is accepted for index 6 too. *)
Lemma ParseProof_index_not_bound_witness :
  ParseProof toy_op_return 6 toy_node toy_header =
    Ok (@mkParsedProof Toy.btcd (Toy.pad32 [byte_of_N 5]) toy_op_return toy_op_return 6
          (byte_of_N <$> [11; 12]%N)).
Proof.
  change 6%N with (0 + 3 * 2 ^ N.of_nat (length toy_node / 32))%N.
  refine (ParseProof_index_not_bound (B := Toy.btcd) toy_op_return toy_node toy_header 0 3
    (@mkParsedProof Toy.btcd (Toy.pad32 [byte_of_N 5]) toy_op_return toy_op_return 0
       (byte_of_N <$> [11; 12]%N)) _ _);
    [discriminate | vm_compute; reflexivity].
Defined.

End BtcUtils.
