(* ===== verification/BtcTx.v ===== *)
(** Bitcoin transactions and scripts, as the staking code uses them through btcd.

    The structures of [wire] are records.  Functions of [wire], [txscript],
    [blockchain], [mempool] and [btcec/schnorr] are the fields of the classes
    [BtcTx] and [TxScript]; what the theorems rely on is [BtcTxLaws] and
    [TxScriptLaws]: signature hashes depend on the spent outputs of the inputs and
    not on witnesses, Schnorr signatures are those of BIP-340, the engine reads a
    script as what the script builder was told to push and execute, and a script
    tree has, for each of its leaves, a control block that proves it.  The last
    section is the part of the Bitcoin script language that the staking scripts
    use, by BIP-342. *)
From Stdlib Require Import Strings.Byte.
From stdpp Require Import base numbers list gmap.
From S2P Require Import Prelude Bytes Secp256k1 Eots Btcd.

(** ** Transactions *)

Record OutPoint := mkOutPoint { op_Hash : bytes; op_Index : N }.
Record TxIn := mkTxIn {
  PreviousOutPoint : OutPoint;
  SignatureScript : bytes;
  Witness : list bytes;
  Sequence : N;
}.
Record TxOut := mkTxOut { Value : Z; PkScript : bytes }.
Record MsgTx := mkMsgTx {
  Version : Z;
  txIn : list TxIn;
  txOut : list TxOut;
  LockTime : N;
}.

#[global] Instance OutPoint_eq_dec : EqDecision OutPoint.
Proof. solve_decision. Defined.
#[global] Instance TxIn_eq_dec : EqDecision TxIn.
Proof. solve_decision. Defined.
#[global] Instance TxOut_eq_dec : EqDecision TxOut.
Proof. solve_decision. Defined.

Definition MaxTxInSequenceNum : N := 0xffffffff.
Definition SigHashDefault : N := 0.
Definition OP_RETURN : byte := x6a.

(** [tx.TxIn[i].Witness = w]. *)
Definition set_witness (tx : MsgTx) (i : nat) (w : list bytes) : MsgTx :=
  mkMsgTx (Version tx)
    (alter (λ t, mkTxIn (PreviousOutPoint t) (SignatureScript t) w (Sequence t)) i (txIn tx))
    (txOut tx) (LockTime tx).

(** A [PrevOutputFetcher]: the output that an input spends. *)
Definition PrevOuts : Type := OutPoint → option TxOut.

Class BtcTx `{Btcd} `{Curve} := {
  MsgTx_Deserialize : bytes → option MsgTx;
  TxHash : MsgTx → bytes;
  NewTx : MsgTx → Tx;                              (** [btcutil.NewTx] *)
  GetTransactionWeight : MsgTx → Z;
  IsDust : TxOut → bool;                           (** with [DefaultMinRelayTxFee] *)
  IsPayToTaproot : bytes → bool;
  (** [btcutil.Amount(a).MulF64(rate.Float64())]; the rate has 18 decimals *)
  MulF64 : Z → Z → Z;
  WriteTxOut : TxOut → bytes;
  ReadTxOut : bytes → option TxOut;
  (** hash type, transaction, input, spent outputs, leaf script *)
  CalcTapscriptSignaturehash : N → MsgTx → nat → PrevOuts → bytes → option bytes;
  (** transaction, input, spent outputs, leaf script, hash type, private key *)
  RawTxInTapscriptSignature : MsgTx → nat → PrevOuts → bytes → N → Z → option bytes;
  (** [schnorr.ParseSignature] and [Signature.Verify]: signature, hash, key *)
  ParseSignature : bytes → option (N * Z);
  sig_Verify : N * Z → bytes → point → bool;
}.

Definition MaxSatoshi : Z := 2100000000000000.

Class BtcTxLaws `{BtcTx} : Prop := {
  (** consensus: every output, and their sum, is an amount of money *)
  CheckTransactionSanity_amounts tx : CheckTransactionSanity (NewTx tx) = true →
    Forall (λ out, 0 ≤ Value out)%Z (txOut tx) ∧
    (foldr (λ out sum, Value out + sum) 0 (txOut tx) ≤ MaxSatoshi)%Z;
  (** a share of an amount, rounded *)
  MulF64_share a rate : (0 ≤ a ≤ MaxSatoshi)%Z → (0 < rate < 10 ^ 18)%Z → (0 ≤ MulF64 a rate ≤ a)%Z;
  sighash_proper ty tx i f g script :
    (∀ t, t ∈ txIn tx → f (PreviousOutPoint t) = g (PreviousOutPoint t)) →
    CalcTapscriptSignaturehash ty tx i f script =
      CalcTapscriptSignaturehash ty tx i g script;
  sighash_witness ty tx i f script j w :
    CalcTapscriptSignaturehash ty (set_witness tx j w) i f script =
      CalcTapscriptSignaturehash ty tx i f script;
  ParseSignature_Some b r s : ParseSignature b = Some (r, s) ↔
    b = field_bytes r ++ sc_bytes s ∧ (r < field_prime)%N ∧ (0 ≤ s < order)%Z;
  (** with the default hash type, 64 bytes that the key of the signer verifies *)
  RawTxInTapscriptSignature_valid tx i f script sk sig :
    RawTxInTapscriptSignature tx i f script SigHashDefault sk = Some sig →
    ∃ h P s, CalcTapscriptSignaturehash SigHashDefault tx i f script = Some h ∧
      (0 ≤ s < order)%Z ∧ sig = field_bytes (X P) ++ sc_bytes s ∧
      sig_Verify (X P, s) h (ScalarBaseMult sk) = true;
  (** signing tries nonces until one works *)
  RawTxInTapscriptSignature_Some tx i f script sk :
    is_Some (CalcTapscriptSignaturehash SigHashDefault tx i f script) → (0 < sk < order)%Z →
    is_Some (RawTxInTapscriptSignature tx i f script SigHashDefault sk);
  (** BIP-340 *)
  sig_Verify_spec sig h pk :
    sig_Verify sig h pk = bool_decide (Eots.verifyHash (SerializePubKey pk) sig.1 h sig.2 = Ok tt);
}.

(** ** Scripts *)

(** The calls of a [txscript.ScriptBuilder]. *)
Inductive ScriptElem :=
  | AddData (d : bytes)
  | AddOp (op : N)
  | AddInt64 (n : Z).

Definition OP_16 : N := 0x60.
Definition OP_CHECKSIG : N := 0xac.
Definition OP_CHECKSIGVERIFY : N := 0xad.
Definition OP_CHECKSIGADD : N := 0xba.
Definition OP_NUMEQUAL : N := 0x9c.
Definition OP_NUMEQUALVERIFY : N := 0x9d.
Definition OP_CHECKSEQUENCEVERIFY : N := 0xb2.

Definition MaxScriptSize : N := 10000.

(** How the script engine reads a script: pushes and operations. *)
Inductive Token := Push (d : bytes) | Op (op : N).

Class TxScript `{Curve} := {
  builder_Script : list ScriptElem → option bytes;
  TapHash : bytes → bytes;                           (** [NewBaseTapLeaf(script).TapHash()] *)
  IndexedTapScriptTree : Type;
  NewIndexedTapScriptTree : IndexedTapScriptTree;    (** of no leaves *)
  AssembleTaprootScriptTree : list bytes → IndexedTapScriptTree;
  RootHash : IndexedTapScriptTree → bytes;
  TapscriptProof : Type;
  (** the proof of a leaf by its hash: [LeafProofIndex] and [LeafMerkleProofs] *)
  LeafProof : IndexedTapScriptTree → bytes → option TapscriptProof;
  FirstProof : IndexedTapScriptTree → option TapscriptProof;   (** [LeafMerkleProofs[0]] *)
  proof_Script : TapscriptProof → bytes;             (** [TapLeaf.Script] *)
  TapControlBlock : Type;
  ToControlBlock : TapscriptProof → point → TapControlBlock;
  cb_ToBytes : TapControlBlock → option bytes;
  ComputeTaprootOutputKey : point → bytes → point;
  Address : Type;
  NewAddressTaproot : bytes → option Address;
  PayToAddrScript : Address → option bytes;
  (** the program of a taproot output, and whether a control block proves that the
      program commits to a script: [VerifyTaprootLeafCommitment] *)
  taproot_program : bytes → option bytes;
  VerifyLeafCommitment : bytes → bytes → bytes → bool;
  unspendableKeyPathKey : point;
  script_tokens : bytes → option (list Token);
  (** the stack's encoding of numbers *)
  num_encode : Z → bytes;
  num_decode : bytes → option Z;
  as_bool : bytes → bool;
}.

Section elems.
Context `{TS : TxScript}.

Definition token (e : ScriptElem) : Token :=
  match e with
  | AddData d => Push d
  | AddOp op => Op op
  | AddInt64 n => Push (num_encode n)
  end.

(** Data that is not a small number, operations that are not pushes. *)
Definition plain (e : ScriptElem) : Prop :=
  match e with
  | AddData d => length d = 32
  | AddOp op => (OP_16 < op < 256)%N
  | AddInt64 n => (0 ≤ n < 2 ^ 32)%Z
  end.

(** An upper bound of the bytes an element takes. *)
Definition elem_size (e : ScriptElem) : nat :=
  match e with AddData d => 1 + length d | AddOp _ => 1 | AddInt64 _ => 6 end.
End elems.

Class TxScriptLaws `{TS : TxScript} : Prop := {
  script_tokens_nil : script_tokens [] = Some [];
  script_tokens_app es b rest : builder_Script es = Some b → Forall plain es →
    script_tokens (b ++ rest) = (λ l, (token <$> es) ++ l) <$> script_tokens rest;
  builder_Script_Some es : Forall plain es → (N.of_nat (sum_list (elem_size <$> es)) ≤ MaxScriptSize)%N →
    is_Some (builder_Script es);
  (** BIP-341: a tree commits to its leaves *)
  LeafProof_Some scripts s : NoDup (TapHash <$> scripts) → s ∈ scripts →
    ∃ p, LeafProof (AssembleTaprootScriptTree scripts) (TapHash s) = Some p ∧ proof_Script p = s;
  ToControlBlock_valid scripts s p key :
    LeafProof (AssembleTaprootScriptTree scripts) (TapHash s) = Some p →
    ∃ cb, cb_ToBytes (ToControlBlock p key) = Some cb ∧
      VerifyLeafCommitment cb
        (SerializePubKey
           (ComputeTaprootOutputKey key (RootHash (AssembleTaprootScriptTree scripts))))
        (proof_Script p) = true;
  FirstProof_single s : FirstProof (AssembleTaprootScriptTree [s]) =
    LeafProof (AssembleTaprootScriptTree [s]) (TapHash s);
  pay_to_taproot key : length key = 32 →
    ∃ a script, NewAddressTaproot key = Some a ∧ PayToAddrScript a = Some script ∧
      taproot_program script = Some key;
  num_decode_encode n : (0 ≤ n < 2 ^ 31)%Z → num_decode (num_encode n) = Some n;
  as_bool_encode n : (0 ≤ n < 2 ^ 31)%Z → as_bool (num_encode n) = negb (n =? 0)%Z;
}.

(** ** The script language, by BIP-342 *)
Section exec.
Context `{TS : TxScript}.
(** Whether a signature is valid for a key, and whether the input is old enough. *)
Context (checksig : bytes → bytes → bool) (csv : Z → bool).

Definition push_bool (b : bool) : bytes := num_encode (if b then 1 else 0)%Z.

(** An empty signature counts as absent; one that is not empty must be valid. *)
Definition check_one (pk sig : bytes) : option bool :=
  if bool_decide (sig = []) then Some false
  else if checksig pk sig then Some true else None.

(** The stack with its top first; [None] is failure. *)
Definition exec_op (op : N) (st : list bytes) : option (list bytes) :=
  if decide (op = OP_CHECKSIG) then
    match st with
    | pk :: sig :: st => b ← check_one pk sig; Some (push_bool b :: st)
    | _ => None
    end
  else if decide (op = OP_CHECKSIGVERIFY) then
    match st with
    | pk :: sig :: st => b ← check_one pk sig; if (b : bool) then Some st else None
    | _ => None
    end
  else if decide (op = OP_CHECKSIGADD) then
    match st with
    | pk :: n :: sig :: st =>
        n ← num_decode n; b ← check_one pk sig;
        Some (num_encode (if (b : bool) then n + 1 else n)%Z :: st)
    | _ => None
    end
  else if decide (op = OP_NUMEQUAL) then
    match st with
    | a :: b :: st => a ← num_decode a; b ← num_decode b; Some (push_bool (a =? b)%Z :: st)
    | _ => None
    end
  else if decide (op = OP_NUMEQUALVERIFY) then
    match st with
    | a :: b :: st => a ← num_decode a; b ← num_decode b; if (a =? b)%Z then Some st else None
    | _ => None
    end
  else if decide (op = OP_CHECKSEQUENCEVERIFY) then
    match st with
    | n :: _ => z ← num_decode n; if csv z then Some st else None
    | [] => None
    end
  else None.

Definition exec_token (t : Token) (st : list bytes) : option (list bytes) :=
  match t with Push d => Some (d :: st) | Op op => exec_op op st end.

Fixpoint exec (ts : list Token) (st : list bytes) : option (list bytes) :=
  match ts with
  | [] => Some st
  | t :: ts => st ← exec_token t st; exec ts st
  end.

(** A script is satisfied by a stack when it leaves exactly one true value. *)
Definition script_accepts (script : bytes) (st : list bytes) : bool :=
  match script_tokens script with
  | None => false
  | Some ts => match exec ts st with Some [r] => as_bool r | _ => false end
  end.
End exec.

(** Spending a taproot output by a script: the witness holds the stack from the
    bottom, the script and the control block.  The validity of signatures depends
    on the script. *)
Definition output_accepts `{TxScript} (checksig : bytes → bytes → bytes → bool) (csv : Z → bool)
    (pkScript : bytes) (witness : list bytes) : bool :=
  match taproot_program pkScript, rev witness with
  | Some program, cb :: script :: st =>
      VerifyLeafCommitment cb program script && script_accepts (checksig script) csv script st
  | _, _ => false
  end.
