(* ===== verification/BtcTxToy.v ===== *)
(** A small Bitcoin with transactions and scripts, for the examples.

    Instances of [Btcd], [BtcTx] and [TxScript] over the curve of seven points, with
    proofs of [BtcTxLaws] and [TxScriptLaws]: the laws that the theorems on staking
    rely on hold together.  Transactions have a simple wire format, scripts the one
    of Bitcoin restricted to short pushes, and signatures are real Schnorr
    signatures on the small curve. *)
From Stdlib Require Import Strings.Byte.
From stdpp Require Import base numbers list gmap.
From S2P Require Import Prelude Bytes Secp256k1 Eots Btcd BtcTx.

Module ToyTx.
#[local] Existing Instance Toy.curve.
#[local] Existing Instance Toy.laws.

(** ** A wire format for transactions *)

(** A number in two bytes. *)
Definition enc2 (n : N) : bytes := be_encode 2 n.

Definition enc_in (t : TxIn) : bytes :=
  op_Hash (PreviousOutPoint t) ++ enc2 (op_Index (PreviousOutPoint t)) ++
  [if (Sequence t =? MaxTxInSequenceNum)%N then x01 else x00].
Definition enc_out (o : TxOut) : bytes :=
  be_encode 4 (Z.to_N (Value o)) ++ enc2 (N.of_nat (length (PkScript o))) ++ PkScript o.
Definition enc_list {A} (f : A → bytes) (l : list A) : bytes :=
  byte_of_N (N.of_nat (length l)) :: mjoin (f <$> l).
Definition enc_tx (tx : MsgTx) : bytes :=
  byte_of_N (Z.to_N (Version tx)) :: byte_of_N (LockTime tx) ::
  enc_list enc_in (txIn tx) ++ enc_list enc_out (txOut tx).

Definition dec_N (n : nat) (b : bytes) : option (N * bytes) :=
  if decide (length b < n) then None else Some (be_decode (take n b), drop n b).
Definition dec_in (b : bytes) : option (TxIn * bytes) :=
  if decide (length b < 35) then None
  else Some (mkTxIn (mkOutPoint (take 32 b) (be_decode (take 2 (drop 32 b)))) [] []
               (if decide (take 1 (drop 34 b) = [x01]) then MaxTxInSequenceNum else 0%N), drop 35 b).
Definition dec_out (b : bytes) : option (TxOut * bytes) :=
  '(v, b) ← dec_N 4 b; '(n, b) ← dec_N 2 b;
  if decide (length b < N.to_nat n) then None
  else Some (mkTxOut (Z.of_N v) (take (N.to_nat n) b), drop (N.to_nat n) b).
Fixpoint dec_list {A} (f : bytes → option (A * bytes)) (n : nat) (b : bytes)
  : option (list A * bytes) :=
  match n with
  | 0 => Some ([], b)
  | S n => '(x, b) ← f b; '(l, b) ← dec_list f n b; Some (x :: l, b)
  end.
Definition dec_tx (b : bytes) : option MsgTx :=
  '(v, b) ← dec_N 1 b; '(lt, b) ← dec_N 1 b;
  '(ni, b) ← dec_N 1 b; '(ins, b) ← dec_list dec_in (N.to_nat ni) b;
  '(no, b) ← dec_N 1 b; '(outs, b) ← dec_list dec_out (N.to_nat no) b;
  if decide (b = []) then Some (mkMsgTx (Z.of_N v) ins outs lt) else None.

(** A checksum for a hash. *)
Definition checksum (b : bytes) : bytes :=
  be_encode 32 (foldl (λ h x, (h * 257 + N_of_byte x + 1) mod 0xfffffffffffffffffffffffffffffff1)%N 7%N b).

Definition amounts_ok (tx : MsgTx) : bool :=
  forallb (λ out, 0 <=? Value out)%Z (txOut tx) &&
  (foldr (λ out sum, Value out + sum) 0 (txOut tx) <=? MaxSatoshi)%Z.

#[global] Instance btcd : Btcd := {|
  BlockHeader := Toy.header;
  hdr_BlockHash h := Toy.pad32 [Toy.t_id h];
  hdr_PrevBlock h := Toy.pad32 [Toy.t_prev h];
  hdr_MerkleRoot h := Toy.pad32 [Toy.t_root h];
  hdr_Bits h := N_of_byte (Toy.t_bits h);
  hdr_Timestamp h := 0%Z;
  Serialize h :=
    [Toy.t_id h; Toy.t_prev h; Toy.t_bits h; Toy.t_root h] ++ replicate 76 (byte_of_N 0);
  Deserialize l :=
    match l with i :: p :: b :: r :: _ => Some (Toy.Header i p b r) | _ => None end;
  btcd_CalcWork n := n;
  CheckBlockHeaderContext h c := (N_of_byte (Toy.t_bits h) =? ctx_Bits c)%N;
  CheckBlockHeaderSanity h := true;
  CheckProofOfWork h := true;
  Tx := MsgTx;
  NewTxFromBytes := dec_tx;
  CheckTransactionSanity := amounts_ok;
  tx_Hash tx := checksum (enc_tx tx);
  tx_PkScripts tx := PkScript <$> txOut tx;
  IsNullData l := match l with b :: _ => (N_of_byte b =? 0x6a)%N | [] => false end;
  DoubleHashH l := checksum l;
  BuildMerkleTreeStore txs := (λ tx, Some (checksum (enc_tx tx))) <$> txs;
|}.

(** ** Signatures *)

Definition strip (t : TxIn) : OutPoint * N := (PreviousOutPoint t, Sequence t).
Definition sighash (ty : N) (tx : MsgTx) (i : nat) (f : PrevOuts) (script : bytes) : option bytes :=
  if decide (length (txIn tx) ≤ i) then None
  else
    spent ← mapM (λ t, f t.1) (strip <$> txIn tx);
    Some (checksum (byte_of_N ty :: enc_list (λ t, op_Hash t.1 ++ enc2 (op_Index t.1) ++ enc2 t.2)
            (strip <$> txIn tx) ++
          enc_list enc_out (txOut tx) ++ enc_list enc_out spent ++ script)).

Definition parse_sig (b : bytes) : option (N * Z) :=
  let r := be_decode (take 32 b) in
  let s := Z.of_N (be_decode (drop 32 b)) in
  if decide (length b = 64 ∧ (r < field_prime)%N ∧ (s < order)%Z) then Some (r, s) else None.

(** The nonce is 1, the generator, whose y coordinate is even. *)
Definition sign (sk : Z) (h : bytes) : bytes :=
  let e := (challenge (field_bytes (X (ScalarBaseMult 1))) (SerializePubKey (ScalarBaseMult sk)) h).1 in
  field_bytes (X (ScalarBaseMult 1)) ++ sc_bytes ((1 + e * Eots.even sk) mod order)%Z.

Definition is_taproot (script : bytes) : option bytes :=
  match script with
  | x51 :: x20 :: key => if decide (length key = 32) then Some key else None
  | _ => None
  end.

#[global] Instance btctx : BtcTx := {|
  MsgTx_Deserialize := dec_tx;
  TxHash tx := checksum (enc_tx tx);
  NewTx tx := tx;
  GetTransactionWeight tx := Z.of_nat (length (enc_tx tx));
  IsDust out := (Value out <? 3)%Z;
  IsPayToTaproot script := bool_decide (is_Some (is_taproot script));
  MulF64 a rate := (a * rate / 10 ^ 18)%Z;
  WriteTxOut := enc_out;
  ReadTxOut b := fst <$> dec_out b;
  CalcTapscriptSignaturehash := sighash;
  RawTxInTapscriptSignature tx i f script ty sk :=
    if decide (sk mod 7 = 0)%Z then None else sign sk <$> sighash ty tx i f script;
  ParseSignature := parse_sig;
  sig_Verify sig h pk :=
    bool_decide (Eots.verifyHash (SerializePubKey pk) sig.1 h sig.2 = Ok tt);
|}.

Lemma sighash_ext ty tx i f g script :
  (∀ t, t ∈ txIn tx → f (PreviousOutPoint t) = g (PreviousOutPoint t)) →
  sighash ty tx i f script = sighash ty tx i g script.
Proof.
  intros Hfg. unfold sighash. case_decide; [done|].
  assert (mapM (λ t : OutPoint * N, f t.1) (strip <$> txIn tx) =
    mapM (λ t : OutPoint * N, g t.1) (strip <$> txIn tx)) as ->; [|done].
  clear -Hfg. induction (txIn tx) as [|t l IH]; [done|]. cbn [mapM fmap list_fmap].
  cbn. rewrite (Hfg t) by by left.
  change (list_fmap _ _ strip l) with (strip <$> l). rewrite IH by (intros; apply Hfg; by right). done.
Qed.

Lemma sighash_set_witness ty tx i f script j w :
  sighash ty (set_witness tx j w) i f script = sighash ty tx i f script.
Proof.
  unfold sighash, set_witness. cbn [txIn txOut]. rewrite length_alter.
  assert (∀ l : list TxIn, strip <$> alter (λ t, mkTxIn (PreviousOutPoint t) (SignatureScript t) w (Sequence t)) j l
    = strip <$> l) as Hs.
  { intros l. revert j. induction l as [|t l IH]; intros [|j]; [done..|]. cbn. f_equal. apply IH. }
  by rewrite Hs.
Qed.

(** Tagged hashes are below 7. *)
Lemma no_overflow r p h : (challenge r p h).2 = false.
Proof.
  unfold challenge, SetBytes, TaggedHash. cbv zeta. cbn [snd order Toy.curve].
  apply bool_decide_false, Z.lt_nge. rewrite be_decode_encode.
  set (n := Toy.byte_sum _). pose proof (N.mod_lt n 7). rewrite N.mod_small; [lia|].
  etrans; [by apply N.mod_lt|reflexivity].
Qed.

Lemma sign_valid sk h : (sk mod 7 ≠ 0)%Z →
  ∃ s, (0 ≤ s < order)%Z ∧ sign sk h = field_bytes (X (ScalarBaseMult 1)) ++ sc_bytes s ∧
    Eots.verifyHash (SerializePubKey (ScalarBaseMult sk)) (X (ScalarBaseMult 1)) h s = Ok tt.
Proof.
  intros Hsk. unfold sign. cbv zeta.
  destruct (challenge (field_bytes (X (ScalarBaseMult 1))) (SerializePubKey (ScalarBaseMult sk)) h)
    as [e o] eqn:He. cbn [fst]. exists ((1 + e * Eots.even sk) mod order)%Z.
  split; [apply mod_range|]. split; [reflexivity|].
  assert (o = false) as ->.
  { change o with (e, o).2. rewrite <- He. apply no_overflow. }
  apply (Eots.verifyHash_Ok _ _ _ _ e); [|exact He|].
  - intros Hz. apply base_Infinity in Hz. by apply Hsk.
  - cbv zeta. assert (ScalarBaseMult ((1 + e * Eots.even sk) mod order - e * Eots.even sk) =
      ScalarBaseMult 1) as ->; [|done].
    apply base_proper. rewrite eqm_mod. apply eqm_of_eq. lia.
Qed.

Lemma parse_sig_Some b r s : parse_sig b = Some (r, s) ↔
  b = field_bytes r ++ sc_bytes s ∧ (r < field_prime)%N ∧ (0 ≤ s < order)%Z.
Proof.
  unfold parse_sig. cbv zeta. split.
  - case_decide as Hd; [|done]. intros [= <- <-]. destruct Hd as (Hl & Hr & Hs).
    split_and!; [|done|lia|done]. unfold field_bytes, sc_bytes. rewrite N2Z.id.
    rewrite <- (take_drop 32 b) at 1. f_equal.
    + rewrite <- (be_encode_decode (take 32 b)) at 1. f_equal. rewrite length_take. lia.
    + rewrite <- (be_encode_decode (drop 32 b)) at 1. f_equal. rewrite length_drop. lia.
  - intros (-> & Hr & Hs). rewrite take_app_length', drop_app_length' by (symmetry; apply length_be_encode).
    assert (be_decode (field_bytes r) = r) as ->.
    { unfold field_bytes. rewrite be_decode_encode, N.mod_small; [done|]. etrans; [exact Hr|done]. }
    assert (be_decode (sc_bytes s) = Z.to_N s) as ->.
    { unfold sc_bytes. rewrite be_decode_encode, N.mod_small; [done|]. apply N2Z.inj_lt.
      rewrite Z2N.id by lia. etrans; [apply Hs|done]. }
    rewrite Z2N.id by lia. rewrite decide_True; [done|]. split_and!; [|done..|lia].
    rewrite length_app. unfold field_bytes, sc_bytes. by rewrite !length_be_encode.
Qed.

#[global] Instance btctx_laws : BtcTxLaws.
Proof.
  split; cbn [CalcTapscriptSignaturehash btctx ParseSignature RawTxInTapscriptSignature sig_Verify
    CheckTransactionSanity NewTx btcd MulF64].
  - intros tx [Hp Hs]%andb_true_iff. split; [|by apply Z.leb_le].
    apply Forall_forall. intros o Ho. apply Z.leb_le. rewrite forallb_forall in Hp.
    by apply Hp, list_elem_of_In.
  - intros a rate Ha Hr. split; [apply Z.div_pos; lia|]. apply Z.div_le_upper_bound; nia.
  - intros. by apply sighash_ext.
  - intros. apply sighash_set_witness.
  - apply parse_sig_Some.
  - intros tx i f script sk sig Hs. case_decide as Hsk; [done|].
    apply fmap_Some in Hs as (h & Hh & ->). destruct (sign_valid sk h Hsk) as (s & Hr & -> & Hv).
    exists h, (ScalarBaseMult 1), s. split_and!; [done|lia..|done|]. by apply bool_decide_true.
  - intros tx i f script sk [h Hh] Hsk. rewrite decide_False.
    + rewrite Hh. by eexists.
    + cbn in Hsk. rewrite Z.mod_small; lia.
  - done.
Qed.

(** ** Scripts *)

Definition enc_num (n : Z) : bytes := be_encode 5 (Z.to_N n).

Definition enc_elem (e : ScriptElem) : bytes :=
  match e with
  | AddData d => byte_of_N (N.of_nat (length d)) :: d
  | AddOp op => [byte_of_N op]
  | AddInt64 n => x05 :: enc_num n
  end.
Definition plainb (e : ScriptElem) : bool :=
  match e with
  | AddData d => length d =? 32
  | AddOp op => (OP_16 <? op)%N && (op <? 256)%N
  | AddInt64 n => (0 <=? n)%Z && (n <? 2 ^ 32)%Z
  end.

(** Bytes up to 75 push the bytes that follow. *)
Fixpoint dec_tokens (fuel : nat) (b : bytes) : option (list Token) :=
  match fuel, b with
  | _, [] => Some []
  | 0, _ => None
  | S fuel, x :: b =>
      let n := N_of_byte x in
      if (n <=? 75)%N then
        if decide (length b < N.to_nat n) then None
        else l ← dec_tokens fuel (drop (N.to_nat n) b); Some (Push (take (N.to_nat n) b) :: l)
      else l ← dec_tokens fuel b; Some (Op n :: l)
  end.

(** A control block is the output key and the script. *)
Definition block (tree : list bytes) (key : Toy.T7) (script : bytes) : bytes :=
  SerializePubKey (Toy.of_Z (1 + Z.of_N (Toy.byte_sum (mjoin tree)) mod 3)) ++ script.

#[global] Instance txscript : TxScript := {|
  builder_Script es :=
    if forallb plainb es && (N.of_nat (sum_list (elem_size <$> es)) <=? MaxScriptSize)%N
    then Some (mjoin (enc_elem <$> es)) else None;
  TapHash s := s;
  IndexedTapScriptTree := list bytes;
  NewIndexedTapScriptTree := [];
  AssembleTaprootScriptTree l := l;
  RootHash l := mjoin l;
  TapscriptProof := list bytes * bytes;
  LeafProof l h := if decide (h ∈ l) then Some (l, h) else None;
  FirstProof l := match l with [] => None | s :: _ => Some (l, s) end;
  proof_Script p := p.2;
  TapControlBlock := bytes;
  ToControlBlock p key := block p.1 key p.2;
  cb_ToBytes b := Some b;
  ComputeTaprootOutputKey _ root := Toy.of_Z (1 + Z.of_N (Toy.byte_sum root) mod 3);
  Address := bytes;
  NewAddressTaproot key := if decide (length key = 32) then Some key else None;
  PayToAddrScript a := Some (x51 :: x20 :: a);
  taproot_program := is_taproot;
  VerifyLeafCommitment cb program script := bool_decide (cb = program ++ script);
  unspendableKeyPathKey := Toy.P1;
  script_tokens b := dec_tokens (length b) b;
  num_encode := enc_num;
  num_decode b := if decide (length b = 5) then Some (Z.of_N (be_decode b)) else None;
  as_bool b := negb (be_decode b =? 0)%N;
|}.

Lemma dec_tokens_fuel fuel b : length b ≤ fuel → dec_tokens fuel b = dec_tokens (length b) b.
Proof.
  revert b. induction fuel as [fuel IH] using lt_wf_ind. intros b Hl.
  destruct b as [|x b]; [by destruct fuel|]. destruct fuel as [|fuel]; [simpl in Hl; lia|].
  simpl in Hl. cbn [dec_tokens length].
  assert (∀ k, dec_tokens fuel (drop k b) = dec_tokens (length b) (drop k b)) as Hd.
  { intros k. assert (length (drop k b) ≤ length b) by (rewrite length_drop; lia).
    destruct (decide (length b = fuel)) as [<-|Hne]; [done|].
    rewrite (IH fuel) by lia. symmetry. apply IH; lia. }
  case_match; [|specialize (Hd 0); rewrite drop_0 in Hd; by rewrite Hd]. case_decide; [done|]. by rewrite Hd.
Qed.

Lemma dec_push d rest n : N_of_byte n = N.of_nat (length d) → length d ≤ 75 →
  script_tokens (n :: d ++ rest) = cons (Push d) <$> script_tokens rest.
Proof.
  intros Hn Hl. cbn [script_tokens txscript]. cbn [length dec_tokens]. rewrite Hn, Nat2N.id.
  rewrite (proj2 (N.leb_le _ _)) by lia. rewrite decide_False by (rewrite length_app; lia).
  rewrite take_app_length, drop_app_length, dec_tokens_fuel by (rewrite length_app; lia). done.
Qed.

Lemma dec_elem e rest : plain e →
  script_tokens (enc_elem e ++ rest) = cons (token e) <$> script_tokens rest.
Proof.
  destruct e as [d|op|n]; cbn [plain enc_elem token]; intros Hp.
  - apply dec_push; [|lia]. by rewrite Hp.
  - cbn [app script_tokens txscript length dec_tokens]. rewrite N_of_byte_of_N.
    unfold OP_16 in Hp. unfold u8. rewrite N.mod_small by lia.
    rewrite (proj2 (N.leb_gt _ _)) by lia. done.
  - apply (dec_push (enc_num n) rest x05); unfold enc_num; rewrite length_be_encode; done || lia.
Qed.

Lemma plainb_plain es : forallb plainb es = true ↔ Forall plain es.
Proof.
  rewrite forallb_forall, Forall_forall. setoid_rewrite list_elem_of_In.
  assert (∀ e, plainb e = true ↔ plain e) as He; [|by setoid_rewrite He].
  intros [d|op|n]; cbn [plainb plain].
  - apply Nat.eqb_eq.
  - by rewrite andb_true_iff, !N.ltb_lt.
  - by rewrite andb_true_iff, Z.leb_le, Z.ltb_lt.
Qed.

#[global] Instance txscript_laws : TxScriptLaws.
Proof.
  split; try done.
  - intros es b rest. cbn [builder_Script txscript]. destruct (_ && _); [|done]. intros [= <-] Hp.
    induction Hp as [|e es He Hp IH]; [cbn [mjoin list_join fmap list_fmap app]; by destruct (script_tokens rest)|].
    rewrite fmap_cons. change (mjoin (enc_elem e :: (enc_elem <$> es))) with (enc_elem e ++ mjoin (enc_elem <$> es)). rewrite <- (assoc_L app). rewrite dec_elem by done.
    rewrite IH. by destruct (script_tokens rest).
  - intros es Hp%plainb_plain Hs. cbn [builder_Script txscript].
    rewrite Hp, (proj2 (N.leb_le _ _)) by done. by eexists.
  - intros scripts s _ Hs. cbn. rewrite decide_True by done. by eexists.
  - intros scripts s p key Hp. cbn in Hp. case_decide; [|done]. injection Hp as <-. cbn.
    eexists. split; [done|]. by apply bool_decide_true.
  - intros s. cbn [FirstProof LeafProof txscript AssembleTaprootScriptTree TapHash].
    rewrite decide_True; [done|by left].
  - intros key Hk. cbn. rewrite decide_True by done. eexists _, _. split_and!; [done..|].
    cbn. by rewrite decide_True.
  - intros n Hn. cbn [num_decode num_encode txscript]. unfold enc_num.
    rewrite decide_True by apply length_be_encode. rewrite be_decode_encode, N.mod_small.
    + by rewrite Z2N.id by lia.
    + apply N2Z.inj_lt. rewrite Z2N.id by lia. etrans; [apply Hn|done].
  - intros n Hn. cbn [as_bool num_encode txscript]. unfold enc_num. rewrite be_decode_encode, N.mod_small.
    + destruct n; [done|done|lia].
    + apply N2Z.inj_lt. rewrite Z2N.id by lia. etrans; [apply Hn|done].
Qed.
End ToyTx.
