(* ===== verification/StakingScripts.v ===== *)
(** The scripts of staking and unbonding outputs, and the witnesses that spend them.
    [src/anon/btcstaking/scripts_utils.go], [types.go] and [witness_utils.go].

    A staking output can be spent in three ways: by the staker after a timelock, by
    the staker with a quorum of the covenant committee (unbonding), and by the
    staker, one of the finality providers and a quorum of the committee (slashing).
    The section on execution shows what each script demands; the theorems state
    that an output built from a set of keys can be spent by scripts in exactly
    these ways.  Keys are points: the checks for nil keys have no counterpart. *)
From stdpp Require Import base numbers list sorting gmap strings.
From S2P Require Import Prelude Bytes Secp256k1 Btcd BtcTx Hex AdaptorSig.

Module StakingScripts.

Inductive ScriptErr :=
  | ErrNoKeys | ErrTooFewKeys | ErrThreshold | ErrDuplicatedKeyInScript | ErrBuilder
  | ErrEmptyScript | ErrDuplicateScript | ErrScriptNotFound | ErrAddress
  | ErrNoCovenantSigs | ErrNoFpSigs | ErrNoDelegatorSig | ErrControlBlock | ErrStoreKey.

#[global] Instance ScriptErr_eq_dec : EqDecision ScriptErr.
Proof. solve_decision. Defined.

Section scripts.
Context `{C : Curve} {TS : TxScript}.

(** ** Scripts: [scripts_utils.go] *)

Definition Script (es : list ScriptElem) : res ScriptErr bytes :=
  of_option ErrBuilder (builder_Script es).

Definition multisig_keys (pubkeys : list point) : list ScriptElem :=
  mjoin (imap (λ i key, [AddData (SerializePubKey key);
                         AddOp (if i =? 0 then OP_CHECKSIG else OP_CHECKSIGADD)]) pubkeys).

Definition assembleMultiSigScript (pubkeys : list point) (threshold : N) (withVerify : bool)
  : res ScriptErr bytes :=
  Script (multisig_keys pubkeys ++
    [AddInt64 (Z.of_N threshold); AddOp (if withVerify then OP_NUMEQUALVERIFY else OP_NUMEQUAL)]).

Definition key_le (k1 k2 : point) : Prop := bytes_le (SerializePubKey k1) (SerializePubKey k2).

#[global] Instance key_le_dec k1 k2 : Decision (key_le k1 k2).
Proof. unfold key_le. apply _. Defined.

Definition SortKeys (keys : list point) : list point := merge_sort key_le keys.

Definition prepareKeysForMultisigScript (keys : list point) : res ScriptErr (list point) :=
  require (negb (length keys <? 2)) ErrTooFewKeys;; mret (SortKeys keys).

Definition buildSingleKeySigScript (pubKey : point) (withVerify : bool) : res ScriptErr bytes :=
  Script [AddData (SerializePubKey pubKey);
          AddOp (if withVerify then OP_CHECKSIGVERIFY else OP_CHECKSIG)].

Definition buildMultiSigScript (keys : list point) (threshold : N) (withVerify : bool)
  : res ScriptErr bytes :=
  require (negb (length keys =? 0)) ErrNoKeys;;
  require (negb (N.of_nat (length keys) <? threshold)%N) ErrThreshold;;
  match keys with
  | [key] => buildSingleKeySigScript key withVerify
  | _ =>
      sortedKeys ← prepareKeysForMultisigScript keys;
      assembleMultiSigScript sortedKeys threshold withVerify
  end.

Definition buildTimeLockScript (pubKey : point) (lockTime : N) : res ScriptErr bytes :=
  Script [AddData (SerializePubKey pubKey); AddOp OP_CHECKSIGVERIFY;
          AddInt64 (Z.of_N lockTime); AddOp OP_CHECKSEQUENCEVERIFY].

(** ** Script trees: [types.go] *)

Definition DeriveTaprootAddress (tapScriptTree : IndexedTapScriptTree) (internalPubKey : point)
  : res ScriptErr Address :=
  let outputKey := ComputeTaprootOutputKey internalPubKey (RootHash tapScriptTree) in
  of_option ErrAddress (NewAddressTaproot (SerializePubKey outputKey)).

Definition DeriveTaprootPkScript (tapScriptTree : IndexedTapScriptTree) : res ScriptErr bytes :=
  taprootAddress ← DeriveTaprootAddress tapScriptTree unspendableKeyPathKey;
  of_option ErrAddress (PayToAddrScript taprootAddress).

(** The key is nil in a holder of no scripts. *)
Record taprootScriptHolder := mkTaprootScriptHolder {
  internalPubKey : option point;
  scriptTree : IndexedTapScriptTree;
}.

(** The loop that collects the leaves. *)
Fixpoint check_leaves (createdLeafs : list bytes) (scripts : list bytes) : res ScriptErr unit :=
  match scripts with
  | [] => mret tt
  | script :: rest =>
      require (negb (length script =? 0)) ErrEmptyScript;;
      let leafHash := TapHash script in
      require (negb (bool_decide (leafHash ∈ createdLeafs))) ErrDuplicateScript;;
      check_leaves (leafHash :: createdLeafs) rest
  end.

Definition newTaprootScriptHolder (key : point) (scripts : list bytes)
  : res ScriptErr taprootScriptHolder :=
  match scripts with
  | [] => mret (mkTaprootScriptHolder None NewIndexedTapScriptTree)
  | _ =>
      check_leaves [] scripts;;
      mret (mkTaprootScriptHolder (Some key) (AssembleTaprootScriptTree scripts))
  end.

Record SpendInfo := mkSpendInfo {
  ControlBlock : TapControlBlock;
  RevealedLeaf : bytes;   (** the script of the leaf *)
}.

Definition GetPkScriptPath (si : SpendInfo) : bytes := RevealedLeaf si.

(** [ToControlBlock] of a nil key panics. *)
Definition scriptSpendInfoByName (t : taprootScriptHolder) (leafHash : bytes)
  : res ScriptErr SpendInfo :=
  merkleProof ← of_option ErrScriptNotFound (LeafProof (scriptTree t) leafHash);
  match internalPubKey t with
  | None => Panic
  | Some key => mret (mkSpendInfo (ToControlBlock merkleProof key) (proof_Script merkleProof))
  end.

Definition taprootPkScript (t : taprootScriptHolder) : res ScriptErr bytes :=
  DeriveTaprootPkScript (scriptTree t).

Definition SpendInfoFromRevealedScript (revealedScript : bytes) (internalKey : point)
    (tree : IndexedTapScriptTree) : res ScriptErr SpendInfo :=
  let leafHash := TapHash revealedScript in
  merkleProof ← of_option ErrScriptNotFound (LeafProof tree leafHash);
  mret (mkSpendInfo (ToControlBlock merkleProof internalKey) revealedScript).

Definition aggregateScripts (scripts : list bytes) : bytes := mjoin scripts.

Record anonScriptPaths := mkScriptPaths {
  timeLockPathScript : bytes;
  unbondingPathScript : bytes;
  slashingPathScript : bytes;
}.

Definition keyToString (key : point) : string := hex_EncodeToString (SerializePubKey key).

(** The map of seen keys has hexadecimal strings as keys, which determine them. *)
Fixpoint check_keys (keyMap : list string) (keys : list point) : res ScriptErr (list string) :=
  match keys with
  | [] => mret keyMap
  | key :: rest =>
      let keyStr := keyToString key in
      require (negb (bool_decide (keyStr ∈ keyMap))) ErrDuplicatedKeyInScript;;
      check_keys (keyStr :: keyMap) rest
  end.

Definition checkForDuplicateKeys (stakerKey : point) (fpKeys covenantKeys : list point)
  : res ScriptErr unit :=
  keyMap ← check_keys [keyToString stakerKey] fpKeys;
  check_keys keyMap covenantKeys;;
  mret tt.

Definition newAnonScriptPaths (stakerKey : point) (fpKeys covenantKeys : list point)
    (covenantQuorum lockTime : N) : res ScriptErr anonScriptPaths :=
  checkForDuplicateKeys stakerKey fpKeys covenantKeys;;
  timeLockPathScript ← buildTimeLockScript stakerKey lockTime;
  covenantMultisigScript ← buildMultiSigScript covenantKeys covenantQuorum false;
  stakerSigScript ← buildSingleKeySigScript stakerKey true;
  fpMultisigScript ← buildMultiSigScript fpKeys 1 true;
  mret (mkScriptPaths timeLockPathScript
    (aggregateScripts [stakerSigScript; covenantMultisigScript])
    (aggregateScripts [stakerSigScript; fpMultisigScript; covenantMultisigScript])).

(** *** Outputs *)

Record StakingInfo := mkStakingInfo {
  StakingOutput : TxOut;
  sti_scriptHolder : taprootScriptHolder;
  sti_timeLockPathLeafHash : bytes;
  sti_unbondingPathLeafHash : bytes;
  sti_slashingPathLeafHash : bytes;
}.

Definition GetPkScript (sti : StakingInfo) : bytes := PkScript (StakingOutput sti).

Definition BuildStakingInfo (stakerKey : point) (fpKeys covenantKeys : list point)
    (covenantQuorum stakingTime : N) (stakingAmount : Z) : res ScriptErr StakingInfo :=
  anonScripts ← newAnonScriptPaths stakerKey fpKeys covenantKeys covenantQuorum stakingTime;
  let unbondingPaths := [timeLockPathScript anonScripts; unbondingPathScript anonScripts;
                         slashingPathScript anonScripts] in
  let timeLockLeafHash := TapHash (timeLockPathScript anonScripts) in
  let unbondingPathLeafHash := TapHash (unbondingPathScript anonScripts) in
  let slashingLeafHash := TapHash (slashingPathScript anonScripts) in
  sh ← newTaprootScriptHolder unspendableKeyPathKey unbondingPaths;
  pkScript ← taprootPkScript sh;
  mret (mkStakingInfo (mkTxOut stakingAmount pkScript) sh timeLockLeafHash
          unbondingPathLeafHash slashingLeafHash).

Definition sti_TimeLockPathSpendInfo (i : StakingInfo) : res ScriptErr SpendInfo :=
  scriptSpendInfoByName (sti_scriptHolder i) (sti_timeLockPathLeafHash i).
Definition sti_UnbondingPathSpendInfo (i : StakingInfo) : res ScriptErr SpendInfo :=
  scriptSpendInfoByName (sti_scriptHolder i) (sti_unbondingPathLeafHash i).
Definition sti_SlashingPathSpendInfo (i : StakingInfo) : res ScriptErr SpendInfo :=
  scriptSpendInfoByName (sti_scriptHolder i) (sti_slashingPathLeafHash i).

Record UnbondingInfo := mkUnbondingInfo {
  UnbondingOutput : TxOut;
  ubi_scriptHolder : taprootScriptHolder;
  ubi_timeLockPathLeafHash : bytes;
  ubi_slashingPathLeafHash : bytes;
}.

Definition BuildUnbondingInfo (stakerKey : point) (fpKeys covenantKeys : list point)
    (covenantQuorum unbondingTime : N) (unbondingAmount : Z) : res ScriptErr UnbondingInfo :=
  anonScripts ← newAnonScriptPaths stakerKey fpKeys covenantKeys covenantQuorum unbondingTime;
  let unbondingPaths := [timeLockPathScript anonScripts; slashingPathScript anonScripts] in
  let timeLockLeafHash := TapHash (timeLockPathScript anonScripts) in
  let slashingLeafHash := TapHash (slashingPathScript anonScripts) in
  sh ← newTaprootScriptHolder unspendableKeyPathKey unbondingPaths;
  pkScript ← taprootPkScript sh;
  mret (mkUnbondingInfo (mkTxOut unbondingAmount pkScript) sh timeLockLeafHash slashingLeafHash).

Definition ubi_TimeLockPathSpendInfo (i : UnbondingInfo) : res ScriptErr SpendInfo :=
  scriptSpendInfoByName (ubi_scriptHolder i) (ubi_timeLockPathLeafHash i).
Definition ubi_SlashingPathSpendInfo (i : UnbondingInfo) : res ScriptErr SpendInfo :=
  scriptSpendInfoByName (ubi_scriptHolder i) (ubi_slashingPathLeafHash i).

Record RelativeTimeLockTapScriptInfo := mkRelativeTimeLock {
  rt_SpendInfo : SpendInfo;
  rt_LockTime : N;
  TapAddress : Address;
  rt_PkScript : bytes;
}.

Definition BuildRelativeTimelockTaprootScript (pk : point) (lockTime : N)
  : res ScriptErr RelativeTimeLockTapScriptInfo :=
  script ← buildTimeLockScript pk lockTime;
  sh ← newTaprootScriptHolder unspendableKeyPathKey [script];
  match FirstProof (scriptTree sh) with
  | None => Panic
  | Some proof =>
      let spendInfo := mkSpendInfo (ToControlBlock proof unspendableKeyPathKey)
                         (proof_Script proof) in
      taprootAddress ← DeriveTaprootAddress (scriptTree sh) unspendableKeyPathKey;
      pkScript ← of_option ErrAddress (PayToAddrScript taprootAddress);
      mret (mkRelativeTimeLock spendInfo lockTime taprootAddress pkScript)
  end.

(** Store keys of the finality module: a height and a public key. *)
Definition ParseBlkHeightAndPubKeyFromStoreKey (key : bytes) : res ScriptErr (N * bytes) :=
  let sizeBigEndian := 8 in
  require (negb (length key <? sizeBigEndian + 1)) ErrStoreKey;;
  let fpBTCPK := drop sizeBigEndian key in
  require (length fpBTCPK =? 32) ErrStoreKey;;
  mret (BigEndianToUint64 (take sizeBigEndian key), fpBTCPK).

(** ** Witnesses: [witness_utils.go] *)

Definition CreateWitness (si : SpendInfo) (signatures : list bytes) : res ScriptErr (list bytes) :=
  controlBlockBytes ← of_option ErrControlBlock (cb_ToBytes (ControlBlock si));
  mret (signatures ++ [GetPkScriptPath si; controlBlockBytes]).

Definition sig_bytes (sig : option (N * Z)) : bytes :=
  match sig with None => [] | Some sig => AdaptorSig.sig_Serialize sig end.

Definition CreateTimeLockPathWitness (si : SpendInfo) (delegatorSig : option (N * Z))
  : res ScriptErr (list bytes) :=
  match delegatorSig with
  | None => Err ErrNoDelegatorSig
  | Some sig => CreateWitness si [AdaptorSig.sig_Serialize sig]
  end.

Definition CreateUnbondingPathWitness (si : SpendInfo) (covenantSigs : list (option (N * Z)))
    (delegatorSig : option (N * Z)) : res ScriptErr (list bytes) :=
  require (negb (length covenantSigs =? 0)) ErrNoCovenantSigs;;
  match delegatorSig with
  | None => Err ErrNoDelegatorSig
  | Some sig => CreateWitness si ((sig_bytes <$> covenantSigs) ++ [AdaptorSig.sig_Serialize sig])
  end.

Definition CreateSlashingPathWitness (si : SpendInfo) (covenantSigs fpSigs : list (option (N * Z)))
    (delegatorSig : option (N * Z)) : res ScriptErr (list bytes) :=
  require (negb (length covenantSigs =? 0)) ErrNoCovenantSigs;;
  require (negb (length fpSigs =? 0)) ErrNoFpSigs;;
  match delegatorSig with
  | None => Err ErrNoDelegatorSig
  | Some sig =>
      CreateWitness si ((sig_bytes <$> covenantSigs) ++ (sig_bytes <$> fpSigs) ++
                        [AdaptorSig.sig_Serialize sig])
  end.
End scripts.

(** ** What the scripts demand *)
Section exec.
Context `{TSL : TxScriptLaws} (checksig : bytes → bytes → bool) (csv : Z → bool).
Abbreviation exec := (BtcTx.exec checksig csv).
Abbreviation accepts := (script_accepts checksig csv).

(** The signatures that are there. *)
Definition signed (sigs : list bytes) : nat := length (filter (λ sig, sig ≠ []) sigs).

(** A signature that is there is valid for the key in its place. *)
Definition sigs_valid (keys : list point) (sigs : list bytes) : Prop :=
  Forall2 (λ key sig, sig = [] ∨ checksig (SerializePubKey key) sig = true) keys sigs.

Definition signed_by (key : point) (sig : bytes) : Prop :=
  sig ≠ [] ∧ checksig (SerializePubKey key) sig = true.

Lemma exec_app ts us st : exec (ts ++ us) st = exec ts st ≫= exec us.
Proof.
  revert st. induction ts as [|t ts IH]; intros st; [done|]. simpl.
  destruct (exec_token checksig csv t st); [apply IH|done].
Qed.

Lemma exec_app_Some ts us st r :
  exec (ts ++ us) st = Some r ↔ ∃ st', exec ts st = Some st' ∧ exec us st' = Some r.
Proof. rewrite exec_app. apply bind_Some. Qed.

Lemma check_one_Some pk sig b :
  check_one checksig pk sig = Some b ↔
    b = bool_decide (sig ≠ []) ∧ (sig = [] ∨ checksig pk sig = true).
Proof.
  unfold check_one. destruct (decide (sig = [])) as [->|Hs].
  - rewrite bool_decide_true, bool_decide_false by tauto. naive_solver.
  - rewrite (bool_decide_false (sig = [])), bool_decide_true by done.
    destruct (checksig pk sig); naive_solver.
Qed.

Lemma signed_cons sig sigs :
  Z.of_nat (signed (sig :: sigs)) = ((if bool_decide (sig ≠ []) then 1 else 0) + Z.of_nat (signed sigs))%Z.
Proof.
  unfold signed. rewrite filter_cons. case_decide; case_bool_decide; try tauto; simpl; lia.
Qed.

Lemma signed_le sigs : signed sigs ≤ length sigs.
Proof. apply length_filter. Qed.

Definition add_tokens (keys : list point) : list Token :=
  mjoin ((λ key, [Push (SerializePubKey key); Op OP_CHECKSIGADD]) <$> keys).

Ltac pick_op := unfold exec_op; repeat rewrite decide_False by done; rewrite decide_True by done.

Lemma exec_CHECKSIG pk st :
  exec_op checksig csv OP_CHECKSIG (pk :: st) =
    match st with sig :: st => b ← check_one checksig pk sig; Some (push_bool b :: st) | _ => None end.
Proof. by pick_op. Qed.
Lemma exec_CHECKSIGVERIFY pk st :
  exec_op checksig csv OP_CHECKSIGVERIFY (pk :: st) =
    match st with
    | sig :: st => b ← check_one checksig pk sig; if (b : bool) then Some st else None
    | _ => None
    end.
Proof. by pick_op. Qed.
Lemma exec_CHECKSIGADD pk n st : (0 ≤ n < 2 ^ 31)%Z →
  exec_op checksig csv OP_CHECKSIGADD (pk :: num_encode n :: st) =
    match st with
    | sig :: st =>
        b ← check_one checksig pk sig; Some (num_encode (if (b : bool) then n + 1 else n)%Z :: st)
    | _ => None
    end.
Proof. intros Hn. pick_op. by rewrite num_decode_encode by done. Qed.
Lemma exec_NUMEQUAL a b st : (0 ≤ a < 2 ^ 31)%Z → (0 ≤ b < 2 ^ 31)%Z →
  exec_op checksig csv OP_NUMEQUAL (num_encode a :: num_encode b :: st) =
    Some (push_bool (a =? b)%Z :: st).
Proof. intros Ha Hb. pick_op. by rewrite !num_decode_encode by done. Qed.
Lemma exec_NUMEQUALVERIFY a b st : (0 ≤ a < 2 ^ 31)%Z → (0 ≤ b < 2 ^ 31)%Z →
  exec_op checksig csv OP_NUMEQUALVERIFY (num_encode a :: num_encode b :: st) =
    if (a =? b)%Z then Some st else None.
Proof. intros Ha Hb. pick_op. by rewrite !num_decode_encode by done. Qed.

Lemma exec_adds keys n st st' :
  (0 ≤ n)%Z → (n + Z.of_nat (length keys) < 2 ^ 31)%Z →
  exec (add_tokens keys) (num_encode n :: st) = Some st' ↔
  ∃ sigs rest, st = sigs ++ rest ∧ sigs_valid keys sigs ∧
    st' = num_encode (n + Z.of_nat (signed sigs))%Z :: rest.
Proof.
  unfold sigs_valid. revert n st. induction keys as [|key keys IH]; intros n st Hn Hlt.
  { simpl. split.
    - intros [= <-]. exists [], st. split_and!; [done|constructor|].
      by rewrite Z.add_0_r.
    - intros (sigs & rest & -> & ->%Forall2_nil_inv_l & ->). simpl. by rewrite Z.add_0_r. }
  cbn [length] in Hlt. change (add_tokens (key :: keys)) with
    (Push (SerializePubKey key) :: Op OP_CHECKSIGADD :: add_tokens keys).
  cbn [BtcTx.exec exec_token mbind option_bind]. rewrite exec_CHECKSIGADD by lia.
  destruct st as [|sig st].
  { split; [done|]. intros (sigs & rest & Hnil & Hv & _).
    apply Forall2_cons_inv_l in Hv as (? & ? & _ & _ & ->). done. }
  destruct (check_one checksig (SerializePubKey key) sig) as [b|] eqn:Hc.
  - apply check_one_Some in Hc as [-> Hc]. cbn [mbind option_bind].
    replace (if bool_decide (sig ≠ []) then n + 1 else n)%Z with
      (n + if bool_decide (sig ≠ []) then 1 else 0)%Z by (case_bool_decide; lia).
    rewrite IH by (case_bool_decide; lia). split.
    + intros (sigs & rest & -> & Hv & ->). exists (sig :: sigs), rest.
      split_and!; [done|by constructor|]. by rewrite signed_cons, Z.add_assoc.
    + intros (sigs & rest & Heq & Hv & ->).
      apply Forall2_cons_inv_l in Hv as (sig' & sigs' & _ & Hv & ->). simplify_eq/=.
      exists sigs', rest. split_and!; [done..|]. by rewrite signed_cons, Z.add_assoc.
  - split; [done|]. intros (sigs & rest & Heq & Hv & _).
    apply Forall2_cons_inv_l in Hv as (sig' & sigs' & Hs & Hv & ->). simplify_eq/=.
    assert (check_one checksig (SerializePubKey key) sig' = Some (bool_decide (sig' ≠ [])))
      by by apply check_one_Some. congruence.
Qed.

(** What a multisignature of some keys with a threshold does to the stack: it
    takes a signature, which may be empty, for each key. *)
Definition multisig_runs (keys : list point) (threshold : N) (withVerify : bool)
    (st st' : list bytes) : Prop :=
  ∃ sigs rest, st = sigs ++ rest ∧ sigs_valid keys sigs ∧
    if withVerify then N.of_nat (signed sigs) = threshold ∧ st' = rest
    else st' = push_bool (N.of_nat (signed sigs) =? threshold)%N :: rest.

Lemma multisig_tokens key keys :
  token <$> multisig_keys (key :: keys) =
    Push (SerializePubKey key) :: Op OP_CHECKSIG :: add_tokens keys.
Proof.
  unfold multisig_keys. rewrite imap_cons.
  change (imap _ keys) with
    (imap (const (λ k, [AddData (SerializePubKey k); AddOp OP_CHECKSIGADD])) keys).
  rewrite imap_const. unfold add_tokens.
  change (token <$> mjoin ([?a; ?b] :: ?l)) with (token a :: token b :: (token <$> mjoin l)).
  f_equal. f_equal. induction keys as [|k keys IH]; [done|].
  change (mjoin ((?f <$> k :: keys))) with (f k ++ mjoin (f <$> keys)).
  by rewrite fmap_app, IH.
Qed.

Lemma exec_first key st st' :
  exec [Push (SerializePubKey key); Op OP_CHECKSIG] st = Some st' ↔
  ∃ sig rest, st = sig :: rest ∧ (sig = [] ∨ checksig (SerializePubKey key) sig = true) ∧
    st' = push_bool (bool_decide (sig ≠ [])) :: rest.
Proof.
  cbn [BtcTx.exec exec_token mbind option_bind]. rewrite exec_CHECKSIG.
  destruct st as [|sig st]; [naive_solver|].
  destruct (check_one _ _ sig) as [b|] eqn:Hc; cbn [mbind option_bind].
  - apply check_one_Some in Hc as [-> Hc]. naive_solver.
  - split; [done|]. intros (sig' & rest & [= <- <-] & Hs & _).
    assert (check_one checksig (SerializePubKey key) sig = Some (bool_decide (sig ≠ [])))
      by by apply check_one_Some. congruence.
Qed.

Lemma exec_multisig_keys key keys st st' :
  (Z.of_nat (length (key :: keys)) < 2 ^ 31)%Z →
  exec (token <$> multisig_keys (key :: keys)) st = Some st' ↔
  ∃ sigs rest, st = sigs ++ rest ∧ sigs_valid (key :: keys) sigs ∧
    st' = num_encode (Z.of_nat (signed sigs)) :: rest.
Proof.
  intros Hlt. cbn [length] in Hlt. rewrite multisig_tokens.
  change (Push ?a :: Op ?b :: ?c) with ([Push a; Op b] ++ c). rewrite exec_app_Some.
  unfold sigs_valid. split.
  - intros (st1 & (sig & rest & -> & Hs & ->)%exec_first & Hadd).
    apply exec_adds in Hadd as (sigs & rest' & -> & Hv & ->);
      [|case_bool_decide; lia..].
    exists (sig :: sigs), rest'. split_and!; [done|by constructor|]. by rewrite signed_cons.
  - intros (sigs & rest & -> & Hv & ->).
    apply Forall2_cons_inv_l in Hv as (sig & sigs' & Hs & Hv & ->).
    eexists. split; [apply exec_first; by exists sig, (sigs' ++ rest)|].
    apply exec_adds; [case_bool_decide; lia..|]. exists sigs', rest.
    split_and!; [done..|]. by rewrite signed_cons.
Qed.

Lemma exec_multisig keys threshold (withVerify : bool) st st' :
  keys ≠ [] → (Z.of_nat (length keys) < 2 ^ 31)%Z → (threshold < 2 ^ 31)%N →
  exec (token <$> multisig_keys keys ++ [AddInt64 (Z.of_N threshold);
    AddOp (if withVerify then OP_NUMEQUALVERIFY else OP_NUMEQUAL)]) st = Some st' ↔
  multisig_runs keys threshold withVerify st st'.
Proof.
  intros Hne Hlt Hthr. destruct keys as [|key keys]; [done|].
  rewrite fmap_app, exec_app_Some. unfold multisig_runs.
  assert (∀ sigs, sigs_valid (key :: keys) sigs → (0 ≤ Z.of_nat (signed sigs) < 2 ^ 31)%Z) as Hle.
  { intros sigs Hv%Forall2_length. pose proof (signed_le sigs). lia. }
  assert (∀ n m rest, (n < 2 ^ 31)%N →
    exec (token <$> [AddInt64 (Z.of_N threshold);
      AddOp (if withVerify then OP_NUMEQUALVERIFY else OP_NUMEQUAL)])
      (num_encode (Z.of_N n) :: rest) = Some m ↔
    if withVerify then n = threshold ∧ m = rest
    else m = push_bool (n =? threshold)%N :: rest) as Hend.
  { intros n m rest Hn. cbn [fmap list_fmap token BtcTx.exec exec_token mbind option_bind].
    assert ((Z.of_N threshold =? Z.of_N n)%Z = (n =? threshold)%N) as Heq.
    { destruct (N.eqb_spec n threshold); [|apply Z.eqb_neq; lia]. subst. apply Z.eqb_refl. }
    destruct withVerify.
    - rewrite exec_NUMEQUALVERIFY, Heq by lia. destruct (N.eqb_spec n threshold); naive_solver.
    - rewrite exec_NUMEQUAL, Heq by lia. naive_solver. }
  split.
  - intros (st1 & (sigs & rest & -> & Hv & ->)%exec_multisig_keys & Hend'); [|done].
    rewrite <- nat_N_Z in Hend'. apply Hend in Hend'; [|specialize (Hle _ Hv); lia].
    exists sigs, rest. done.
  - intros (sigs & rest & -> & Hv & Hres). eexists.
    split; [apply exec_multisig_keys; [done|by exists sigs, rest]|].
    rewrite <- nat_N_Z. apply Hend; [specialize (Hle _ Hv); lia|done].
Qed.

(** *** From scripts to tokens *)

(** The engine reads the tokens wherever the bytes stand. *)
Definition reads (b : bytes) (ts : list Token) : Prop :=
  ∀ rest, script_tokens (b ++ rest) = (λ l, ts ++ l) <$> script_tokens rest.

Lemma reads_app b1 ts1 b2 ts2 : reads b1 ts1 → reads b2 ts2 → reads (b1 ++ b2) (ts1 ++ ts2).
Proof.
  intros H1 H2 rest. rewrite <- app_assoc, H1, H2, <- option_fmap_compose.
  apply option_fmap_ext. intros l. simpl. by rewrite app_assoc.
Qed.

Lemma reads_tokens b ts : reads b ts → script_tokens b = Some ts.
Proof.
  intros Hb. rewrite <- (app_nil_r b), Hb, script_tokens_nil. simpl. by rewrite app_nil_r.
Qed.

Lemma plain_key key : plain (AddData (SerializePubKey key)).
Proof. apply length_be_encode. Qed.

Lemma Script_reads es b : Script es = Ok b → Forall plain es → reads b (token <$> es).
Proof. intros Hb%of_option_Ok Hp rest. by apply script_tokens_app. Qed.

Ltac plain_elems := repeat constructor; try apply plain_key; cbn; lia.

Lemma plain_multisig keys : Forall plain (multisig_keys keys).
Proof.
  unfold multisig_keys. apply Forall_join, Forall_lookup. intros i es Hes.
  apply list_lookup_imap_Some in Hes as (key & _ & ->). destruct (i =? 0); plain_elems.
Qed.

Lemma exec_key key (withVerify : bool) st st' :
  exec (token <$> [AddData (SerializePubKey key);
    AddOp (if withVerify then OP_CHECKSIGVERIFY else OP_CHECKSIG)]) st = Some st' ↔
  multisig_runs [key] 1 withVerify st st'.
Proof.
  unfold multisig_runs, sigs_valid.
  assert (∀ sig : bytes, (N.of_nat (signed [sig]) =? 1)%N = bool_decide (sig ≠ [])) as Hone.
  { intros sig. unfold signed. rewrite filter_cons, filter_nil.
    case_decide; case_bool_decide; tauto. }
  destruct withVerify.
  - cbn [fmap list_fmap token BtcTx.exec exec_token mbind option_bind].
    rewrite exec_CHECKSIGVERIFY. split.
    + destruct st as [|sig st]; [done|].
      destruct (check_one _ _ sig) as [b|] eqn:Hc; [|done]. cbn [mbind option_bind].
      apply check_one_Some in Hc as [-> Hc]. rewrite <- Hone.
      destruct (N.eqb_spec (N.of_nat (signed [sig])) 1); [|done]. intros [= <-].
      exists [sig], st. split_and!; [done|by constructor|done..].
    + intros (sigs & rest & -> & Hv & Hn & ->).
      apply Forall2_cons_inv_l in Hv as (sig & ? & Hs & ->%Forall2_nil_inv_l & ->). simpl.
      assert (check_one checksig (SerializePubKey key) sig = Some (bool_decide (sig ≠ []))) as ->
        by by apply check_one_Some.
      cbn [mbind option_bind]. by rewrite <- Hone, Hn.
  - etrans; [apply exec_first|]. split.
    + intros (sig & rest & -> & Hs & ->). exists [sig], rest.
      split_and!; [done|by constructor|]. by rewrite Hone.
    + intros (sigs & rest & -> & Hv & ->).
      apply Forall2_cons_inv_l in Hv as (sig & ? & Hs & ->%Forall2_nil_inv_l & ->).
      exists sig, rest. by rewrite Hone.
Qed.

Lemma buildSingleKeySigScript_runs key withVerify b :
  buildSingleKeySigScript key withVerify = Ok b →
  ∃ ts, reads b ts ∧ ∀ st st', exec ts st = Some st' ↔ multisig_runs [key] 1 withVerify st st'.
Proof.
  intros Hb. eexists. split; [apply (Script_reads _ _ Hb); destruct withVerify; plain_elems|].
  intros st st'. apply exec_key.
Qed.

Lemma buildMultiSigScript_runs keys threshold withVerify b :
  buildMultiSigScript keys threshold withVerify = Ok b →
  (1 ≤ threshold)%N → (Z.of_nat (length keys) < 2 ^ 31)%Z →
  ∃ ts, reads b ts ∧
    ∀ st st', exec ts st = Some st' ↔ multisig_runs (SortKeys keys) threshold withVerify st st'.
Proof.
  unfold buildMultiSigScript. intros Hb Hthr Hlt. inv_ok.
  assert (N.of_nat (length keys) < threshold → False)%N as Hle
    by (rewrite <- N.ltb_lt; by destruct (_ <? _)%N).
  destruct keys as [|key [|key2 keys]]; [done| |].
  - assert (threshold = 1%N) as -> by (cbn [length] in Hle; lia).
    by apply buildSingleKeySigScript_runs.
  - inv_ok. unfold prepareKeysForMultisigScript in *. inv_ok.
    assert (SortKeys (key :: key2 :: keys) ≡ₚ key :: key2 :: keys) as Hp
      by apply merge_sort_Permutation.
    eexists. split.
    { eapply Script_reads; [done|]. apply Forall_app. split; [apply plain_multisig|].
      apply Forall_cons. split; [cbn [plain]; lia|]. destruct withVerify; plain_elems. }
    intros st st'. apply exec_multisig.
    + intros Hnil. rewrite Hnil in Hp. by apply Permutation_nil_cons in Hp.
    + by rewrite Hp.
    + lia.
Qed.

(** *** The three ways to spend *)

Lemma accepts_reads b ts st : reads b ts →
  accepts b st = true ↔ ∃ r, exec ts st = Some [r] ∧ as_bool r = true.
Proof.
  intros Hb%reads_tokens. unfold script_accepts. rewrite Hb.
  destruct (exec ts st) as [[|r [|]]|]; naive_solver.
Qed.

Lemma as_bool_push b : as_bool (push_bool b) = b.
Proof. unfold push_bool. rewrite as_bool_encode by (destruct b; lia). by destruct b. Qed.

(** A multisignature at the end of a script leaves its result alone on the stack. *)
Lemma multisig_runs_last keys threshold st :
  (∃ r, multisig_runs keys threshold false st [r] ∧ as_bool r = true) ↔
  sigs_valid keys st ∧ N.of_nat (signed st) = threshold.
Proof.
  split.
  - intros (r & (sigs & rest & -> & Hv & [= -> <-]) & Hr).
    rewrite as_bool_push, N.eqb_eq in Hr. by rewrite app_nil_r.
  - intros [Hv Hn]. eexists. split.
    + exists st, []. by rewrite app_nil_r.
    + rewrite as_bool_push. by apply N.eqb_eq.
Qed.

Lemma multisig_runs_verify keys threshold st st' :
  multisig_runs keys threshold true st st' ↔
  ∃ sigs, st = sigs ++ st' ∧ sigs_valid keys sigs ∧ N.of_nat (signed sigs) = threshold.
Proof. unfold multisig_runs. naive_solver. Qed.

Lemma multisig_runs_key key st st' :
  multisig_runs [key] 1 true st st' ↔ ∃ sig, st = sig :: st' ∧ signed_by key sig.
Proof.
  rewrite multisig_runs_verify. unfold signed_by, sigs_valid. split.
  - intros (sigs & -> & Hv & Hn).
    apply Forall2_cons_inv_l in Hv as (sig & ? & Hs & ->%Forall2_nil_inv_l & ->).
    exists sig. split; [done|]. destruct Hs as [->|Hs]; [done|]. split; [|done].
    by intros ->.
  - intros (sig & -> & Hne & Hs). exists [sig]. split_and!; [done|by constructor; auto|].
    unfold signed. by rewrite filter_cons_True.
Qed.

Lemma timelock_accepts key lockTime b st :
  buildTimeLockScript key lockTime = Ok b → (lockTime < 2 ^ 16)%N →
  accepts b st = true ↔
  ∃ sig, st = [sig] ∧ signed_by key sig ∧ csv (Z.of_N lockTime) = true ∧ lockTime ≠ 0%N.
Proof.
  intros Hb Hlock. rewrite accepts_reads;
    [|apply (Script_reads _ _ Hb); repeat constructor; try apply plain_key; cbn [plain]; lia].
  change (token <$> [?a; ?b; ?c; ?d]) with ((token <$> [a; b]) ++ (token <$> [c; d])).
  set (last := token <$> [AddInt64 _; _]). setoid_rewrite exec_app_Some.
  assert (∀ st st', exec last st = Some st' ↔
    csv (Z.of_N lockTime) = true ∧ st' = num_encode (Z.of_N lockTime) :: st) as Hlast.
  { intros st1 st2. unfold last.
    cbn [fmap list_fmap token BtcTx.exec exec_token mbind option_bind].
    assert (exec_op checksig csv OP_CHECKSEQUENCEVERIFY (num_encode (Z.of_N lockTime) :: st1) =
      if csv (Z.of_N lockTime) then Some (num_encode (Z.of_N lockTime) :: st1) else None) as ->.
    { pick_op. by rewrite num_decode_encode by lia. }
    destruct (csv _); naive_solver. }
  assert (as_bool (num_encode (Z.of_N lockTime)) = true ↔ lockTime ≠ 0%N) as Hbool.
  { rewrite as_bool_encode by lia. destruct (Z.eqb_spec (Z.of_N lockTime) 0); simpl; split; lia. }
  split.
  - intros (r & (st1 & Hk & (Hcsv & [= -> <-])%Hlast) & Hr%Hbool).
    apply (exec_key key true), multisig_runs_key in Hk as (sig & -> & Hs). by exists sig.
  - intros (sig & -> & Hs & Hcsv & Hne). eexists. split; [|by apply Hbool].
    exists []. split; [|by apply Hlast]. apply (exec_key key true), multisig_runs_key. by exists sig.
Qed.

(** The three scripts of a staking output demand what they are meant to.  The
    timelock path takes exactly a signature of the staker, on an input that is old
    enough, and never works with a timelock of zero.  The unbonding path takes a
    signature of the staker and, for each key of the covenant committee in
    lexicographic order, an empty or valid signature, exactly a quorum of them not
    empty.  The slashing path also takes signatures for the finality providers,
    exactly one of them not empty. *)
Lemma spending_conditions stakerKey fpKeys covenantKeys covenantQuorum lockTime p :
  newAnonScriptPaths stakerKey fpKeys covenantKeys covenantQuorum lockTime = Ok p →
  (1 ≤ covenantQuorum)%N → (lockTime < 2 ^ 16)%N →
  (Z.of_nat (length covenantKeys) < 2 ^ 31)%Z → (Z.of_nat (length fpKeys) < 2 ^ 31)%Z →
  (∀ st, accepts (timeLockPathScript p) st = true ↔
     ∃ sig, st = [sig] ∧ signed_by stakerKey sig ∧ csv (Z.of_N lockTime) = true ∧
       lockTime ≠ 0%N) ∧
  (∀ st, accepts (unbondingPathScript p) st = true ↔
     ∃ sig covSigs, st = sig :: covSigs ∧ signed_by stakerKey sig ∧
       sigs_valid (SortKeys covenantKeys) covSigs ∧ N.of_nat (signed covSigs) = covenantQuorum) ∧
  (∀ st, accepts (slashingPathScript p) st = true ↔
     ∃ sig fpSigs covSigs, st = sig :: fpSigs ++ covSigs ∧ signed_by stakerKey sig ∧
       sigs_valid (SortKeys fpKeys) fpSigs ∧ signed fpSigs = 1 ∧
       sigs_valid (SortKeys covenantKeys) covSigs ∧ N.of_nat (signed covSigs) = covenantQuorum).
Proof.
  intros Hp Hq Hlock Hcov Hfp. unfold newAnonScriptPaths in Hp. inv_ok. cbn.
  match goal with H : buildTimeLockScript _ _ = Ok _ |- _ => rename H into Ht end.
  match goal with H : buildSingleKeySigScript _ _ = Ok _ |- _ =>
    apply buildSingleKeySigScript_runs in H as (tsS & HrS & HS) end.
  match goal with H : buildMultiSigScript covenantKeys _ _ = Ok _ |- _ =>
    apply buildMultiSigScript_runs in H as (tsC & HrC & HC); [|done..] end.
  match goal with H : buildMultiSigScript fpKeys _ _ = Ok _ |- _ =>
    apply buildMultiSigScript_runs in H as (tsF & HrF & HF); [|done..] end.
  split_and!.
  - intros st. by apply timelock_accepts.
  - intros st. rewrite app_nil_r, (accepts_reads _ (tsS ++ tsC)) by by apply reads_app.
    setoid_rewrite exec_app_Some. setoid_rewrite HS.
    setoid_rewrite multisig_runs_key. setoid_rewrite HC.
    split.
    + intros (r & (st' & (sig & -> & Hs) & Hc) & Hr). exists sig, st'.
      assert (sigs_valid (SortKeys covenantKeys) st' ∧ N.of_nat (signed st') = covenantQuorum)
        by (apply multisig_runs_last; eauto). naive_solver.
    + intros (sig & covSigs & -> & Hs & Hc).
      apply multisig_runs_last in Hc as (r & Hc & Hr). naive_solver.
  - intros st. rewrite app_nil_r, (accepts_reads _ (tsS ++ tsF ++ tsC)) by by repeat apply reads_app.
    setoid_rewrite exec_app_Some. setoid_rewrite exec_app_Some. setoid_rewrite HS.
    setoid_rewrite multisig_runs_key. setoid_rewrite HF. setoid_rewrite multisig_runs_verify.
    setoid_rewrite HC.
    split.
    + intros (r & (st' & (sig & -> & Hs) & (st2 & (fs & -> & Hf & Hn) & Hc)) & Hr).
      exists sig, fs, st2. assert (signed fs = 1) by lia.
      assert (sigs_valid (SortKeys covenantKeys) st2 ∧ N.of_nat (signed st2) = covenantQuorum)
        by (apply multisig_runs_last; eauto). naive_solver.
    + intros (sig & fpSigs & covSigs & -> & Hs & Hf & Hn & Hc).
      apply multisig_runs_last in Hc as (r & Hc & Hr).
      assert (N.of_nat (signed fpSigs) = 1%N) by lia. exists r. naive_solver.
Qed.
End exec.

(** ** Outputs and the witnesses that spend them *)
Section spend.
Context `{TSL : TxScriptLaws} (checksig : bytes → bytes → bytes → bool) (csv : Z → bool).

Lemma check_leaves_NoDup seen scripts :
  check_leaves seen scripts = Ok tt →
  NoDup (TapHash <$> scripts) ∧ (∀ s, s ∈ scripts → TapHash s ∉ seen).
Proof.
  revert seen. induction scripts as [|s scripts IH]; intros seen; simpl.
  { intros _. split; [constructor|]. by intros s ?%elem_of_nil. }
  intros Hc. inv_ok.
  match goal with H : check_leaves _ _ = Ok _ |- _ => apply IH in H as [Hn Hs] end. rewrite negb_true_iff, bool_decide_eq_false in *.
  split.
  - constructor; [|done]. rewrite list_elem_of_fmap. intros (s' & Heq & Hs').
    apply (Hs _ Hs'). rewrite <- Heq. by left.
  - intros s' [->|Hs']%elem_of_cons; [done|]. specialize (Hs _ Hs'). set_solver.
Qed.

(** The spend info of a leaf of an output: any stack of signatures makes a witness,
    and the witness is accepted when the script accepts the stack. *)
Lemma holder_spends scripts sh pkScript s :
  scripts ≠ [] → newTaprootScriptHolder unspendableKeyPathKey scripts = Ok sh →
  taprootPkScript sh = Ok pkScript → s ∈ scripts →
  ∃ si, scriptSpendInfoByName sh (TapHash s) = Ok si ∧ RevealedLeaf si = s ∧
    ∀ sigs, ∃ w, CreateWitness si sigs = Ok w ∧
      output_accepts checksig csv pkScript w = script_accepts (checksig s) csv s (rev sigs).
Proof.
  intros Hne Hsh Hpk Hs. unfold newTaprootScriptHolder in Hsh.
  destruct scripts as [|s0 scripts']; [done|]. set (scripts := s0 :: scripts') in *.
  inv_ok. match goal with x : unit, H : check_leaves _ _ = Ok ?x |- _ =>
    destruct x; apply check_leaves_NoDup in H as [Hnd _] end.
  destruct (LeafProof_Some scripts s Hnd Hs) as (p & Hp & Hps).
  destruct (ToControlBlock_valid scripts s p unspendableKeyPathKey Hp) as (cb & Hcb & Hv).
  unfold scriptSpendInfoByName. cbn [scriptTree internalPubKey]. rewrite Hp.
  cbn [of_option mbind res_bind mret res_ret].
  eexists. split; [done|]. split; [done|]. intros sigs.
  unfold CreateWitness. cbn [ControlBlock]. rewrite Hcb.
  cbn [of_option mbind res_bind mret res_ret]. eexists. split; [done|].
  unfold taprootPkScript, DeriveTaprootPkScript, DeriveTaprootAddress in Hpk.
  cbn [scriptTree] in Hpk. set (k := SerializePubKey _) in *.
  destruct (pay_to_taproot k (length_be_encode _ _)) as (a & script & Ha & Hsc & Hprog).
  rewrite Ha in Hpk. cbn [of_option mbind res_bind mret res_ret] in Hpk. rewrite Hsc in Hpk.
  injection Hpk as <-. unfold output_accepts. rewrite Hprog, rev_app_distr. simpl.
  by rewrite Hps, <- Hps, Hv.
Qed.

(** A signature that is there is valid for the key in its place. *)
Definition sig_ok (script : bytes) (key : point) (sig : option (N * Z)) : Prop :=
  match sig with
  | None => True
  | Some sig => checksig script (SerializePubKey key) (AdaptorSig.sig_Serialize sig) = true
  end.

Definition present (sigs : list (option (N * Z))) : nat := length (filter is_Some sigs).

Lemma sig_Serialize_ne sig : AdaptorSig.sig_Serialize sig ≠ [].
Proof.
  intros Hs%(f_equal length). unfold AdaptorSig.sig_Serialize, field_bytes in Hs.
  rewrite length_app, length_be_encode in Hs. done.
Qed.

Lemma rev_reverse {A} (l : list A) : rev l = reverse l.
Proof. apply rev_alt. Qed.

Lemma Forall2_reverse_r {A B} (P : A → B → Prop) l k :
  Forall2 P l (reverse k) ↔ Forall2 P (reverse l) k.
Proof.
  split; intros HP%Forall2_reverse; by rewrite reverse_involutive in HP.
Qed.

Lemma sigs_valid_rev script keys sigs :
  sigs_valid (checksig script) keys (rev (sig_bytes <$> sigs)) ↔
  Forall2 (sig_ok script) (reverse keys) sigs.
Proof.
  unfold sigs_valid. rewrite rev_reverse, Forall2_reverse_r.
  rewrite Forall2_fmap_r. split; intros HF; apply (Forall2_impl _ _ _ _ HF); intros key [sig|]; simpl; try tauto.
  intros [Hs|Hs]; [|done]. by apply sig_Serialize_ne in Hs.
Qed.

Lemma signed_rev sigs : signed (rev (sig_bytes <$> sigs)) = present sigs.
Proof.
  unfold signed, present. rewrite rev_reverse, reverse_Permutation.
  induction sigs as [|[sig|] sigs IH]; [done| |].
  - rewrite fmap_cons, !filter_cons_True; [|by eexists|apply sig_Serialize_ne]. simpl. by rewrite IH.
  - rewrite fmap_cons, !filter_cons_False; [done| |]; simpl; [by intros []|tauto].
Qed.

Lemma signed_by_sig script key sig :
  signed_by (checksig script) key (AdaptorSig.sig_Serialize sig) ↔ sig_ok script key (Some sig).
Proof. unfold signed_by. simpl. pose proof (sig_Serialize_ne sig). tauto. Qed.

(** The witness for the slashing path, of staking and unbonding outputs alike. *)
Lemma slashing_witness stakerKey fpKeys covenantKeys covenantQuorum lockTime p scripts sh pkScript :
  newAnonScriptPaths stakerKey fpKeys covenantKeys covenantQuorum lockTime = Ok p →
  (1 ≤ covenantQuorum)%N → (lockTime < 2 ^ 16)%N →
  (Z.of_nat (length covenantKeys) < 2 ^ 31)%Z → (Z.of_nat (length fpKeys) < 2 ^ 31)%Z →
  newTaprootScriptHolder unspendableKeyPathKey scripts = Ok sh →
  taprootPkScript sh = Ok pkScript → slashingPathScript p ∈ scripts →
  ∃ si, scriptSpendInfoByName sh (TapHash (slashingPathScript p)) = Ok si ∧
    ∀ covSigs fpSigs sig, covSigs ≠ [] → fpSigs ≠ [] → length fpSigs = length fpKeys →
    ∃ w, CreateSlashingPathWitness si covSigs fpSigs (Some sig) = Ok w ∧
      (output_accepts checksig csv pkScript w = true ↔
       sig_ok (RevealedLeaf si) stakerKey (Some sig) ∧
       Forall2 (sig_ok (RevealedLeaf si)) (reverse (SortKeys fpKeys)) fpSigs ∧ present fpSigs = 1 ∧
       Forall2 (sig_ok (RevealedLeaf si)) (reverse (SortKeys covenantKeys)) covSigs ∧
       N.of_nat (present covSigs) = covenantQuorum).
Proof.
  intros Hp Hq Hlock Hcov Hfp Hsh Hpk Hin.
  destruct (holder_spends scripts sh pkScript (slashingPathScript p)) as (si & Hsi & Hleaf & Hw);
    [intros ->; by apply elem_of_nil in Hin|done..|].
  exists si. split; [done|]. intros covSigs fpSigs sig Hc Hf Hlen.
  destruct (Hw ((sig_bytes <$> covSigs) ++ (sig_bytes <$> fpSigs) ++
    [AdaptorSig.sig_Serialize sig])) as (w & Hcw & Hacc). exists w. split.
  { unfold CreateSlashingPathWitness. by destruct covSigs, fpSigs. }
  rewrite Hacc, Hleaf, !rev_app_distr.
  eapply spending_conditions in Hp as (_ & _ & ->); [|done..]. cbn [rev app].
  rewrite <- signed_by_sig, <- !sigs_valid_rev, <- !signed_rev. split.
  - intros (sig' & fs & cs & Heq & Hs & Hfs & Hn & Hcs & Hm).
    injection Heq as -> Heq.
    assert (length fs = length (rev (sig_bytes <$> fpSigs))) as Hlf.
    { apply Forall2_length in Hfs. rewrite <- Hfs. unfold SortKeys.
      by rewrite merge_sort_Permutation, length_rev, length_fmap. }
    apply app_inj_1 in Heq as [-> ->]; [|done]. done.
  - intros (Hs & Hfs & Hn & Hcs & Hm). eexists _, _, _. done.
Qed.

Lemma unbonding_witness stakerKey fpKeys covenantKeys covenantQuorum lockTime p scripts sh pkScript :
  newAnonScriptPaths stakerKey fpKeys covenantKeys covenantQuorum lockTime = Ok p →
  (1 ≤ covenantQuorum)%N → (lockTime < 2 ^ 16)%N →
  (Z.of_nat (length covenantKeys) < 2 ^ 31)%Z → (Z.of_nat (length fpKeys) < 2 ^ 31)%Z →
  newTaprootScriptHolder unspendableKeyPathKey scripts = Ok sh →
  taprootPkScript sh = Ok pkScript → unbondingPathScript p ∈ scripts →
  ∃ si, scriptSpendInfoByName sh (TapHash (unbondingPathScript p)) = Ok si ∧
    ∀ covSigs sig, covSigs ≠ [] →
    ∃ w, CreateUnbondingPathWitness si covSigs (Some sig) = Ok w ∧
      (output_accepts checksig csv pkScript w = true ↔
       sig_ok (RevealedLeaf si) stakerKey (Some sig) ∧
       Forall2 (sig_ok (RevealedLeaf si)) (reverse (SortKeys covenantKeys)) covSigs ∧
       N.of_nat (present covSigs) = covenantQuorum).
Proof.
  intros Hp Hq Hlock Hcov Hfp Hsh Hpk Hin.
  destruct (holder_spends scripts sh pkScript (unbondingPathScript p)) as (si & Hsi & Hleaf & Hw);
    [intros ->; by apply elem_of_nil in Hin|done..|].
  exists si. split; [done|]. intros covSigs sig Hc.
  destruct (Hw ((sig_bytes <$> covSigs) ++ [AdaptorSig.sig_Serialize sig])) as (w & Hcw & Hacc).
  exists w. split; [unfold CreateUnbondingPathWitness; by destruct covSigs|].
  rewrite Hacc, Hleaf, rev_app_distr.
  eapply spending_conditions in Hp as (_ & -> & _); [|done..]. cbn [rev app].
  rewrite <- signed_by_sig, <- !sigs_valid_rev, <- !signed_rev. naive_solver.
Qed.

Lemma timelock_witness key lockTime b scripts sh pkScript :
  buildTimeLockScript key lockTime = Ok b → (lockTime < 2 ^ 16)%N →
  newTaprootScriptHolder unspendableKeyPathKey scripts = Ok sh →
  taprootPkScript sh = Ok pkScript → b ∈ scripts →
  ∃ si, scriptSpendInfoByName sh (TapHash b) = Ok si ∧
    ∀ sig, ∃ w, CreateTimeLockPathWitness si (Some sig) = Ok w ∧
      (output_accepts checksig csv pkScript w = true ↔
       sig_ok (RevealedLeaf si) key (Some sig) ∧ csv (Z.of_N lockTime) = true ∧ lockTime ≠ 0%N).
Proof.
  intros Hb Hlock Hsh Hpk Hin.
  destruct (holder_spends scripts sh pkScript b) as (si & Hsi & Hleaf & Hw);
    [intros ->; by apply elem_of_nil in Hin|done..|].
  exists si. split; [done|]. intros sig.
  destruct (Hw [AdaptorSig.sig_Serialize sig]) as (w & Hcw & Hacc). exists w. split; [done|].
  rewrite Hacc, Hleaf, (timelock_accepts (checksig b) csv key lockTime) by done. cbn [rev app].
  rewrite <- signed_by_sig. naive_solver.
Qed.

Lemma paths_timelock stakerKey fpKeys covenantKeys covenantQuorum lockTime p :
  newAnonScriptPaths stakerKey fpKeys covenantKeys covenantQuorum lockTime = Ok p →
  buildTimeLockScript stakerKey lockTime = Ok (timeLockPathScript p).
Proof. unfold newAnonScriptPaths. intros Hp. by inv_ok. Qed.

(** C16: A staking output can be spent in the three intended ways: for each path the
    code finds the spend info, assembles a witness, and Bitcoin accepts the witness
    exactly when the staker has signed and the timelock has passed (and is not
    zero); the staker has signed, every covenant signature is valid for the key in
    its place in reverse lexicographic order, and exactly a quorum is there; or,
    for slashing, also exactly one signature of the finality providers is there,
    and it is valid. *)
Theorem staking_output_spends stakerKey fpKeys covenantKeys covenantQuorum stakingTime amount info :
  BuildStakingInfo stakerKey fpKeys covenantKeys covenantQuorum stakingTime amount = Ok info →
  (1 ≤ covenantQuorum)%N → (stakingTime < 2 ^ 16)%N →
  (Z.of_nat (length covenantKeys) < 2 ^ 31)%Z → (Z.of_nat (length fpKeys) < 2 ^ 31)%Z →
  Value (StakingOutput info) = amount ∧
  ∃ tl ub sl, sti_TimeLockPathSpendInfo info = Ok tl ∧ sti_UnbondingPathSpendInfo info = Ok ub ∧
    sti_SlashingPathSpendInfo info = Ok sl ∧
    (∀ sig, ∃ w, CreateTimeLockPathWitness tl (Some sig) = Ok w ∧
      (output_accepts checksig csv (GetPkScript info) w = true ↔
       sig_ok (RevealedLeaf tl) stakerKey (Some sig) ∧ csv (Z.of_N stakingTime) = true ∧
       stakingTime ≠ 0%N)) ∧
    (∀ covSigs sig, covSigs ≠ [] →
     ∃ w, CreateUnbondingPathWitness ub covSigs (Some sig) = Ok w ∧
      (output_accepts checksig csv (GetPkScript info) w = true ↔
       sig_ok (RevealedLeaf ub) stakerKey (Some sig) ∧
       Forall2 (sig_ok (RevealedLeaf ub)) (reverse (SortKeys covenantKeys)) covSigs ∧
       N.of_nat (present covSigs) = covenantQuorum)) ∧
    (∀ covSigs fpSigs sig, covSigs ≠ [] → fpSigs ≠ [] → length fpSigs = length fpKeys →
     ∃ w, CreateSlashingPathWitness sl covSigs fpSigs (Some sig) = Ok w ∧
      (output_accepts checksig csv (GetPkScript info) w = true ↔
       sig_ok (RevealedLeaf sl) stakerKey (Some sig) ∧
       Forall2 (sig_ok (RevealedLeaf sl)) (reverse (SortKeys fpKeys)) fpSigs ∧ present fpSigs = 1 ∧
       Forall2 (sig_ok (RevealedLeaf sl)) (reverse (SortKeys covenantKeys)) covSigs ∧
       N.of_nat (present covSigs) = covenantQuorum)).
Proof.
  intros Hinfo Hq Ht Hcov Hfp. unfold BuildStakingInfo in Hinfo. cbv zeta in Hinfo. inv_ok.
  match goal with H : newAnonScriptPaths _ _ _ _ _ = Ok ?x |- _ => rename H into Hp, x into p end.
  pose proof (paths_timelock _ _ _ _ _ _ Hp) as Htl.
  match goal with H1 : newTaprootScriptHolder _ _ = Ok _, H2 : taprootPkScript _ = Ok _ |- _ =>
    destruct (timelock_witness _ _ _ _ _ _ Htl Ht H1 H2) as (tl & Htl1 & Htl2); [set_solver|];
    destruct (unbonding_witness _ _ _ _ _ _ _ _ _ Hp Hq Ht Hcov Hfp H1 H2) as (ub & Hub1 & Hub2);
      [set_solver|];
    destruct (slashing_witness _ _ _ _ _ _ _ _ _ Hp Hq Ht Hcov Hfp H1 H2) as (sl & Hsl1 & Hsl2);
      [set_solver|] end.
  split; [done|]. by exists tl, ub, sl.
Qed.
End spend.
End StakingScripts.
