(* ===== verification/BtcLightClient.v ===== *)
(** The Bitcoin light client library:
    [src/anon/x/btclightclient/types/btc_light_client.go] and [work.go].

    [InsertHeaders] decides what to do with a list of headers: extend the tip,
    or replace the part of the chain after a fork point by a chain with more
    work.  It reads the chain through the interface [BtcChainReadStore], here a
    record of operations, and validates every header with btcd in a context
    that sees both the stored chain and the headers accepted so far. *)
From stdpp Require Import base numbers list.
From S2P Require Import Prelude Bytes Btcd BtcUtils.
Import BtcUtils.

Module BtcLightClient.

Inductive LCErr :=
  | ErrHeaderDoesNotExist | ErrHeaderParentDoesNotExist | ErrEmptyMessage
  | ErrInvalidHeader | ErrChainWithNotEnoughWork | ErrUnauthorizedReporter
  | ErrInvalidMessageFormat | ErrForkStartWithKnownHeader
  | ErrEmptyHeaders | ErrHeadersNotChain | ErrNilTip | ErrUnexpectedRollback
  | ErrInvalidSigner | ErrInvalidParams.

#[global] Instance LCErr_eq_dec : EqDecision LCErr.
Proof. solve_decision. Defined.

Record BTCHeaderInfo := mkBTCHeaderInfo {
  Header : bytes;
  Hash : bytes;
  Height : N;
  Work : N;
}.

#[global] Instance BTCHeaderInfo_eq_dec : EqDecision BTCHeaderInfo.
Proof. solve_decision. Defined.

(** [BtcChainReadStore].  A nil tip is [None]. *)
Record BtcChainReadStore := mkBtcChainReadStore {
  rs_GetHeaderByHash : bytes → res LCErr BTCHeaderInfo;
  rs_GetHeaderByHeight : N → res LCErr BTCHeaderInfo;
  rs_GetTip : option BTCHeaderInfo;
}.

(** ** Work: [sdkmath.Uint] has 256 bits and panics on overflow. *)
Definition uint256 {E} (n : N) : res E N :=
  if (n <? 2 ^ 256)%N then Ok n else Panic.

Definition CumulativeWork {E} (childWork parentWork : N) : res E N :=
  sum ← uint256 (0 + childWork)%N;
  uint256 (sum + parentWork)%N.

Section types.
Context `{B : Btcd}.

Definition CalcHeaderWork {E} (header : BlockHeader) : res E N :=
  uint256 (btcd_CalcWork (hdr_Bits header)).

Record localHeaderInfo := mkLocalHeaderInfo {
  lh_header : BlockHeader;
  lh_height : N;
  lh_totalWork : N;
}.

Definition toLocalInfo {E} (i : BTCHeaderInfo) : res E localHeaderInfo :=
  h ← ToBlockHeader (Header i);
  mret (mkLocalHeaderInfo h (Height i) (Work i)).

(** [NewBTCHeaderBytesFromBlockHeader]: [FromBlockHeader] serialises and then
    unmarshals, and panics when that fails. *)
Definition NewBTCHeaderBytesFromBlockHeader {E} (h : BlockHeader) : res E bytes :=
  let bz := Serialize h in
  if (length bz =? 80) && bool_decide (is_Some (Deserialize bz)) then Ok bz
  else Panic.

Definition toBTCHeaderInfo {E} (i : localHeaderInfo) : res E BTCHeaderInfo :=
  headerBytes ← NewBTCHeaderBytesFromBlockHeader (lh_header i);
  mret (mkBTCHeaderInfo headerBytes (hdr_BlockHash (lh_header i)) (lh_height i)
          (lh_totalWork i)).

Fixpoint toBTCHeaderInfos {E} (infos : list localHeaderInfo)
  : res E (list BTCHeaderInfo) :=
  match infos with
  | [] => Ok []
  | i :: infos =>
      x ← toBTCHeaderInfo i;
      xs ← toBTCHeaderInfos infos;
      mret (x :: xs)
  end.

(** ** The stored chain together with the headers being added *)

Record storeWithExtensionChain := mkStoreWithExtensionChain {
  ext_headers : list localHeaderInfo;
  ext_store : BtcChainReadStore;
}.

Definition addHeader (s : storeWithExtensionChain) (header : localHeaderInfo)
  : storeWithExtensionChain :=
  mkStoreWithExtensionChain (ext_headers s ++ [header]) (ext_store s).

(** [s.store.GetHeaderByHeight(height)], errors read as "no such header". *)
Definition storedHeaderAt {E} (s : storeWithExtensionChain) (height : N)
  : res E (option localHeaderInfo) :=
  match rs_GetHeaderByHeight (ext_store s) height with
  | Ok h =>
      header ← ToBlockHeader (Header h);
      mret (Some (mkLocalHeaderInfo header height (Work h)))
  | Err _ => Ok None
  | Panic => Panic
  end.

Definition getHeaderAtHeight {E} (s : storeWithExtensionChain) (height : N)
  : res E (option localHeaderInfo) :=
  match ext_headers s with
  | [] => storedHeaderAt s height
  | h0 :: _ =>
      if (height <? lh_height h0)%N then storedHeaderAt s height
      else
        let headerIndex := u32_sub height (lh_height h0) in
        match ext_headers s !! N.to_nat headerIndex with
        | Some h => Ok (Some h)
        | None => Panic
        end
  end.

(** [RelativeAncestorCtx] of a [lightHeaderCtx] at [height]. *)
Definition RelativeAncestorCtx (s : storeWithExtensionChain) (height : N)
    (distance : Z) : res unit (option (Z * N * Z)) :=
  let ancestorHeight := int32 (int32 (Z.of_N height) - distance) in
  if (ancestorHeight <? 0)%Z then Ok None
  else
    let ancU32 := Z.to_N ancestorHeight in
    ancestor ← getHeaderAtHeight s ancU32;
    mret (match ancestor with
          | None => None
          | Some a => Some (int32 (Z.of_N ancU32), hdr_Bits (lh_header a),
                            hdr_Unix (lh_header a))
          end).

Definition newLightHeaderCtx (height : N) (header : BlockHeader)
    (s : storeWithExtensionChain) : HeaderCtx :=
  mkHeaderCtx (int32 (Z.of_N height)) (hdr_Bits header) (hdr_Unix header)
    (RelativeAncestorCtx s height).

(** [checkHeader]: nil or the error of btcd. *)
Definition checkHeader (s : storeWithExtensionChain) (parentHeaderInfo : localHeaderInfo)
    (blockHeader : BlockHeader) : bool :=
  CheckBlockHeaderContext blockHeader
    (newLightHeaderCtx (lh_height parentHeaderInfo) (lh_header parentHeaderInfo) s) &&
  CheckBlockHeaderSanity blockHeader.

(** ** Inserting headers *)

Definition emptyHash : bytes := replicate 32 (byte_of_N 0).

Fixpoint headersFormChain_loop (lastHeader : bytes) (headers : list BlockHeader)
  : bool :=
  match headers with
  | [] => true
  | blockHeader :: headers =>
      let blockHash := hdr_BlockHash blockHeader in
      if bool_decide (lastHeader = emptyHash) then
        headersFormChain_loop blockHash headers
      else if negb (bool_decide (hdr_PrevBlock blockHeader = lastHeader)) then false
      else headersFormChain_loop blockHash headers
  end.

Definition headersFormChain (headers : list BlockHeader) : bool :=
  headersFormChain_loop emptyHash headers.

Fixpoint processNewHeadersChain (store : storeWithExtensionChain)
    (parentHeaderInfo : localHeaderInfo) (chain : list BlockHeader)
  : res LCErr storeWithExtensionChain :=
  match chain with
  | [] => Ok store
  | h :: chain =>
      require (checkHeader store parentHeaderInfo h) ErrInvalidHeader;;
      childWork ← CalcHeaderWork h;
      totalWork ← CumulativeWork (lh_totalWork parentHeaderInfo) childWork;
      let newHeaderInfo :=
        mkLocalHeaderInfo h (u32_add (lh_height parentHeaderInfo) 1) totalWork in
      processNewHeadersChain (addHeader store newHeaderInfo) newHeaderInfo chain
  end.

Record InsertResult := mkInsertResult {
  HeadersToInsert : list BTCHeaderInfo;
  (** the header to roll back to, if any *)
  RollbackInfo : option BTCHeaderInfo;
}.

Definition InsertHeaders (readStore : BtcChainReadStore) (headers : list BlockHeader)
  : res LCErr InsertResult :=
  match headers with
  | [] => Err ErrEmptyHeaders
  | firstHeaderOfExtensionChain :: _ =>
    require (headersFormChain headers) ErrHeadersNotChain;;
    tip ← of_option ErrNilTip (rs_GetTip readStore);
    currentTip ← toLocalInfo tip;
    let currentTipHash := hdr_BlockHash (lh_header currentTip) in
    let store := mkStoreWithExtensionChain [] readStore in
    if bool_decide (hdr_PrevBlock firstHeaderOfExtensionChain = currentTipHash) then
      store ← processNewHeadersChain store currentTip headers;
      infos ← toBTCHeaderInfos (ext_headers store);
      mret (mkInsertResult infos None)
    else
      match rs_GetHeaderByHash readStore (hdr_BlockHash firstHeaderOfExtensionChain) with
      | Panic => Panic
      | Ok _ => Err ErrForkStartWithKnownHeader
      | Err _ =>
        match rs_GetHeaderByHash readStore (hdr_PrevBlock firstHeaderOfExtensionChain) with
        | Panic => Panic
        | Err _ => Err ErrHeaderParentDoesNotExist
        | Ok forkParent =>
          forkParentInfo ← toLocalInfo forkParent;
          store ← processNewHeadersChain store forkParentInfo headers;
          match last (ext_headers store) with
          | None => Panic
          | Some tipOfNewChain =>
            require (negb (lh_totalWork tipOfNewChain <=? lh_totalWork currentTip)%N)
              ErrChainWithNotEnoughWork;;
            infos ← toBTCHeaderInfos (ext_headers store);
            mret (mkInsertResult infos (Some forkParent))
          end
        end
      end
  end.
End types.
End BtcLightClient.
