(* ===== verification/BtcLightClientSpec.v ===== *)
(** What the light client promises, and the proof that it keeps the promise.

    The abstract state is one list of headers, the best chain from the base
    header to the tip, in which every header names its predecessor, heights
    are consecutive and work is accumulated ([wf_chain]).  [insert_spec] is the
    abstract operation: validate the new headers against the chain they
    extend, keep the chain with more work.  [store_of] gives the stores that
    hold a chain. *)
From stdpp Require Import base numbers list sorting gmap strings.
From S2P Require Import Prelude KVStore Bytes Btcd BtcUtils BtcLightClient BtcLightClientKeeper.
Import BtcUtils BtcLightClient BtcLightClientKeeper.

Module BtcLightClientSpec.

(** ** Lists of headers with consecutive heights *)

Definition base (c : list BTCHeaderInfo) : N :=
  match c with [] => 0 | h :: _ => Height h end.

Definition at_height (c : list BTCHeaderInfo) (n : N) : option BTCHeaderInfo :=
  if (n <? base c)%N then None else c !! N.to_nat (n - base c).

Definition by_height (h : BTCHeaderInfo) : N * BTCHeaderInfo := (Height h, h).
Definition by_hash (h : BTCHeaderInfo) : bytes * N := (Hash h, Height h).

Definition store_of (c : list BTCHeaderInfo) : headersState :=
  mkHeadersState (list_to_map (by_height <$> c)) (list_to_map (by_hash <$> c)).

(** Heights are consecutive. *)
Definition consecutive (c : list BTCHeaderInfo) : Prop :=
  ∀ i h, c !! i = Some h → Height h = (base c + N.of_nat i)%N.

Lemma consecutive_take c n : consecutive c → consecutive (take n c).
Proof.
  intros Hc i h Hi. destruct n; [done|].
  assert (i < S n) by (apply lookup_lt_Some in Hi; rewrite length_take in Hi; lia).
  rewrite lookup_take_lt in Hi by done. rewrite (Hc i h Hi). by destruct c.
Qed.

Lemma consecutive_last c t :
  consecutive c → last c = Some t → (Height t + 1 = base c + N.of_nat (length c))%N.
Proof.
  intros Hc Ht. rewrite last_lookup in Ht. specialize (Hc _ _ Ht).
  destruct c; [done|]. simpl in *. lia.
Qed.

Lemma base_app c h : c ≠ [] → base (c ++ h) = base c.
Proof. by destruct c. Qed.

Lemma consecutive_snoc c t h :
  consecutive c → last c = Some t → Height h = (Height t + 1)%N →
  consecutive (c ++ [h]).
Proof.
  intros Hc Ht Hh i h' Hi.
  assert (c ≠ []) as Hne by (intros ->; done).
  rewrite base_app by done.
  apply lookup_snoc_Some in Hi as [[? ?]|[-> ->]]; [by apply Hc|].
  rewrite Hh. by apply consecutive_last.
Qed.

Lemma consecutive_sorted c : consecutive c → StronglySorted kv_lt (by_height <$> c).
Proof.
  induction c as [|h c IH] using rev_ind; intros Hc; [constructor|].
  assert (consecutive c) as Hc'.
  { specialize (consecutive_take _ (length c) Hc). by rewrite take_app_length. }
  rewrite fmap_app. apply StronglySorted_app_2; [|by apply IH|repeat constructor].
  intros x y (h1 & -> & H1)%list_elem_of_fmap (h2 & -> & H2)%list_elem_of_fmap.
  apply list_elem_of_singleton in H2 as ->.
  apply list_elem_of_lookup_1 in H1 as [i Hi].
  pose proof (Hc i h1 (lookup_app_l_Some _ _ _ _ Hi)) as E1.
  pose proof (Hc (length c) h (list_lookup_middle _ _ _ _ eq_refl)) as E2.
  apply lookup_lt_Some in Hi. unfold kv_lt, by_height. simpl. lia.
Qed.

Lemma kv_asc_store c : consecutive c → kv_asc (headers (store_of c)) = by_height <$> c.
Proof. intros. by apply kv_asc_list_to_map, consecutive_sorted. Qed.

Lemma kv_desc_store c :
  consecutive c → kv_desc (headers (store_of c)) = by_height <$> reverse c.
Proof. intros. unfold kv_desc. by rewrite kv_asc_store, fmap_reverse. Qed.

Lemma consecutive_NoDup c : consecutive c → NoDup (by_height <$> c).*1.
Proof. intros. by apply kv_lt_sorted_NoDup, consecutive_sorted. Qed.

(** ** Reading the stores of a chain *)

Lemma GetTip_store c : consecutive c → GetTip (store_of c) = last c.
Proof.
  intros Hc. unfold GetTip, IterateReverseHeaders. rewrite kv_desc_store by done.
  destruct c as [|h c _] using rev_ind; [done|].
  by rewrite reverse_snoc, last_snoc.
Qed.

Lemma BaseHeader_store c : consecutive c → BaseHeader (store_of c) = head c.
Proof.
  intros Hc. unfold BaseHeader, IterateForwardHeaders. simpl (0 =? 0)%N. cbv iota.
  rewrite kv_asc_store by done. by destruct c.
Qed.

Lemma headers_store c n : consecutive c → headers (store_of c) !! n = at_height c n.
Proof.
  intros Hc. apply option_eq. intros h. simpl.
  rewrite <- elem_of_list_to_map by by apply consecutive_NoDup.
  rewrite list_elem_of_fmap. unfold at_height. split.
  - intros (h' & [= -> ->] & [i Hi]%list_elem_of_lookup_1).
    specialize (Hc _ _ Hi) as E. rewrite E.
    destruct (N.ltb_spec (base c + N.of_nat i) (base c)); [lia|].
    by replace (N.to_nat _) with i by lia.
  - destruct (N.ltb_spec n (base c)); [done|]. intros Hi. exists h. split.
    + unfold by_height. specialize (Hc _ _ Hi) as ->. f_equal. lia.
    + by eapply list_elem_of_lookup_2.
Qed.

Lemma GetHeaderByHeight_store c n :
  consecutive c → GetHeaderByHeight (store_of c) n = of_option ErrHeaderDoesNotExist (at_height c n).
Proof. intros. unfold GetHeaderByHeight. by rewrite headers_store. Qed.

(** Looking a header up by hash finds its position. *)
Definition find_hash (c : list BTCHeaderInfo) (hash : bytes) : option (nat * BTCHeaderInfo) :=
  list_find (λ h, Hash h = hash) c.

Lemma hashToHeight_store c hash :
  NoDup (Hash <$> c) → hashToHeight (store_of c) !! hash = Height ∘ snd <$> find_hash c hash.
Proof.
  intros Hn. simpl. unfold find_hash.
  assert (NoDup (by_hash <$> c).*1) as Hn' by by rewrite <- list_fmap_compose.
  destruct (list_find _ c) as [[i h]|] eqn:Hf; simpl.
  - apply list_find_Some in Hf as (Hi & <- & _).
    apply elem_of_list_to_map; [done|].
    apply list_elem_of_fmap. exists h. split; [done|]. by eapply list_elem_of_lookup_2.
  - apply list_find_None in Hf. apply not_elem_of_list_to_map.
    rewrite <- list_fmap_compose. intros (h & -> & Hh)%list_elem_of_fmap.
    rewrite Forall_forall in Hf. by apply (Hf _ Hh).
Qed.

Lemma at_height_lookup c i h :
  consecutive c → c !! i = Some h → at_height c (Height h) = Some h.
Proof.
  intros Hc Hi. unfold at_height. rewrite (Hc _ _ Hi).
  destruct (N.ltb_spec (base c + N.of_nat i) (base c)); [lia|].
  by replace (N.to_nat _) with i by lia.
Qed.

(** The two stores agree: looking up by hash never panics. *)
Lemma GetHeaderByHash_store c hash :
  consecutive c → NoDup (Hash <$> c) →
  GetHeaderByHash (store_of c) hash = of_option ErrHeaderDoesNotExist (snd <$> find_hash c hash).
Proof.
  intros Hc Hn. unfold GetHeaderByHash. rewrite hashToHeight_store by done.
  destruct (find_hash c hash) as [[i h]|] eqn:Hf; [|done].
  apply list_find_Some in Hf as (Hi & _ & _). cbn -[store_of].
  rewrite (headers_store c (Height h)) by done.
  by rewrite (at_height_lookup c i h).
Qed.

(** ** Writing the stores of a chain *)

Lemma insertHeader_store c h :
  consecutive (c ++ [h]) → NoDup (Hash <$> c ++ [h]) →
  insertHeader (store_of c) h = store_of (c ++ [h]).
Proof.
  intros Hc Hn. apply consecutive_NoDup in Hc. unfold insertHeader, store_of. simpl.
  rewrite !fmap_app in *. simpl in *. f_equal.
  - apply NoDup_app in Hc as (_ & Hd & _). symmetry; apply list_to_map_snoc.
    intros Hin. by apply (Hd (Height h) Hin), list_elem_of_singleton.
  - apply NoDup_app in Hn as (_ & Hd & _). symmetry; apply list_to_map_snoc.
    rewrite <- list_fmap_compose. intros Hin.
    by apply (Hd (Hash h) Hin), list_elem_of_singleton.
Qed.

Lemma deleteHeader_store c h :
  consecutive (c ++ [h]) → NoDup (Hash <$> c ++ [h]) →
  deleteHeader (store_of (c ++ [h])) h = store_of c.
Proof.
  intros Hc Hn. rewrite <- insertHeader_store by done. apply consecutive_NoDup in Hc.
  unfold insertHeader, deleteHeader, store_of. simpl. rewrite !fmap_app in *. simpl in *.
  f_equal.
  - apply NoDup_app in Hc as (_ & Hd & _). rewrite delete_insert_id; [done|].
    apply not_elem_of_list_to_map. intros Hin.
    by apply (Hd (Height h) Hin), list_elem_of_singleton.
  - apply NoDup_app in Hn as (_ & Hd & _). rewrite delete_insert_id; [done|].
    apply not_elem_of_list_to_map. rewrite <- list_fmap_compose. intros Hin.
    by apply (Hd (Hash h) Hin), list_elem_of_singleton.
Qed.

Lemma consecutive_app_l p q : consecutive (p ++ q) → consecutive p.
Proof.
  intros Hc. specialize (consecutive_take _ (length p) Hc). by rewrite take_app_length.
Qed.

Lemma NoDup_hash_app_l (p q : list BTCHeaderInfo) :
  NoDup (Hash <$> p ++ q) → NoDup (Hash <$> p).
Proof. rewrite fmap_app. by intros [? _]%NoDup_app. Qed.

Lemma insertHeaders_store c new :
  consecutive (c ++ new) → NoDup (Hash <$> c ++ new) →
  foldl insertHeader (store_of c) new = store_of (c ++ new).
Proof.
  induction new as [|h new IH] using rev_ind; intros Hc Hn; simpl.
  - by rewrite app_nil_r.
  - rewrite foldl_snoc. rewrite app_assoc in *.
    rewrite IH by eauto using consecutive_app_l, NoDup_hash_app_l.
    by apply insertHeader_store.
Qed.

Lemma deleteHeaders_store p q :
  consecutive (p ++ q) → NoDup (Hash <$> p ++ q) →
  foldl deleteHeader (store_of (p ++ q)) (reverse q) = store_of p.
Proof.
  induction q as [|h q IH] using rev_ind; intros Hc Hn; simpl.
  - by rewrite app_nil_r.
  - rewrite reverse_snoc. simpl. rewrite app_assoc in *.
    rewrite deleteHeader_store by done.
    apply IH; eauto using consecutive_app_l, NoDup_hash_app_l.
Qed.

(** ** Rolling back *)

Definition rollback_fn (height : N) (kv : N * BTCHeaderInfo) (acc : list BTCHeaderInfo) :=
  if (length acc =? 0) && (Height kv.2 <=? height)%N then (acc, true)
  else if (Height kv.2 =? height)%N then (acc, true)
  else (acc ++ [kv.2], false).

Lemma iterate_rollback_above n r rest acc :
  Forall (λ h, n < Height h)%N r →
  iterate (rollback_fn n) ((by_height <$> r) ++ rest) acc =
  iterate (rollback_fn n) rest (acc ++ r).
Proof.
  revert acc. induction r as [|h r IH]; intros acc Hr; simpl.
  - by rewrite app_nil_r.
  - apply Forall_cons in Hr as [Hh Hr]. unfold rollback_fn at 1. simpl.
    destruct (N.leb_spec (Height h) n); [lia|]. rewrite andb_false_r.
    destruct (N.eqb_spec (Height h) n); [lia|].
    rewrite IH by done. by rewrite <- app_assoc.
Qed.

(** The number of headers of [c] that a rollback to [height] keeps. *)
Definition kept (c : list BTCHeaderInfo) (height : N) : nat :=
  N.to_nat (height + 1 - base c).

Lemma kept_drop_above c n :
  consecutive c → Forall (λ h, n < Height h)%N (drop (kept c n) c).
Proof.
  intros Hc. apply Forall_lookup. intros i h. rewrite lookup_drop. intros Hi.
  rewrite (Hc _ _ Hi). unfold kept. lia.
Qed.

Lemma iterate_rollback_stop c n :
  consecutive c →
  iterate (rollback_fn n) (by_height <$> reverse (take (kept c n) c))
    (reverse (drop (kept c n) c)) = reverse (drop (kept c n) c).
Proof.
  intros Hc. set (k := kept c n).
  destruct (take k c) as [|t p _] eqn:Hp using rev_ind; [done|].
  rewrite reverse_snoc. simpl. unfold rollback_fn at 1. simpl.
  rewrite length_reverse, length_drop.
  assert (length p < k ∧ c !! length p = Some t) as [Hk Ht].
  { assert (take k c !! length p = Some t) as [? ?]%lookup_take_Some
      by (rewrite Hp; by apply list_lookup_middle). done. }
  specialize (Hc _ _ Ht). pose proof (lookup_lt_Some _ _ _ Ht).
  assert (length (take k c) = S (length p)) as Hl by
    (rewrite Hp, length_app; simpl; lia).
  rewrite length_take in Hl. unfold k, kept in *.
  destruct (Nat.eqb_spec (length c - N.to_nat (n + 1 - base c)) 0);
    destruct (N.leb_spec (Height t) n); simpl; try done; [lia| |lia].
  destruct (N.eqb_spec (Height t) n); [done|lia].
Qed.

Lemma rollBack_store c n :
  consecutive c → NoDup (Hash <$> c) →
  rollBackHeadersUpTo (store_of c) n = store_of (take (kept c n) c).
Proof.
  intros Hc Hn. unfold rollBackHeadersUpTo, IterateReverseHeaders.
  rewrite kv_desc_store by done.
  rewrite <- (take_drop (kept c n) c) at 2. rewrite reverse_app, fmap_app.
  change (iterate _ _ []) with
    (iterate (rollback_fn n) ((by_height <$> reverse (drop (kept c n) c)) ++
                              (by_height <$> reverse (take (kept c n) c))) []).
  rewrite iterate_rollback_above by (by apply Forall_reverse, kept_drop_above).
  rewrite app_nil_l, iterate_rollback_stop by done.
  rewrite <- (take_drop (kept c n) c) at 1.
  by apply deleteHeaders_store; rewrite take_drop.
Qed.

Lemma rollBack_store_at p q t :
  consecutive (p ++ q) → NoDup (Hash <$> p ++ q) → last p = Some t →
  rollBackHeadersUpTo (store_of (p ++ q)) (Height t) = store_of p.
Proof.
  intros Hc Hn Ht. rewrite rollBack_store by done. f_equal.
  pose proof (consecutive_last p t (consecutive_app_l _ _ Hc) Ht) as E.
  assert (p ≠ []) by (intros ->; done).
  unfold kept. rewrite base_app by done.
  replace (N.to_nat _) with (length p) by lia. apply take_app_length.
Qed.

(** ** Queries *)

Lemma kv_from_store c n :
  consecutive c →
  kv_from n (headers (store_of c)) = by_height <$> drop (N.to_nat (n - base c)) c.
Proof.
  intros Hc. apply kv_lt_sorted_unique.
  - apply kv_from_lt_sorted.
  - apply (StronglySorted_app_1_r _ (by_height <$> take (N.to_nat (n - base c)) c)).
    rewrite <- fmap_app, take_drop. by apply consecutive_sorted.
  - intros [k h]. rewrite elem_of_kv_from, headers_store, list_elem_of_fmap by done.
    unfold at_height, by_height. split.
    + destruct (N.ltb_spec k (base c)); [by intros []|]. intros [Hi Hk].
      exists h. split; [by rewrite (Hc _ _ Hi); f_equal; lia|].
      apply (list_elem_of_lookup_2 _ (N.to_nat (k - base c) - N.to_nat (n - base c))).
      rewrite lookup_drop. rewrite <- Hi. f_equal. lia.
    + intros (h' & [= -> ->] & [i Hi]%list_elem_of_lookup_1).
      rewrite lookup_drop in Hi. rewrite (Hc _ _ Hi).
      destruct (N.ltb_spec (base c + N.of_nat (N.to_nat (n - base c) + i)) (base c)); [lia|].
      split; [|lia]. rewrite <- Hi. f_equal. lia.
Qed.

Lemma IterateForward_store {S} c n (fn : BTCHeaderInfo → S → S * bool) acc :
  consecutive c →
  IterateForwardHeaders (store_of c) n fn acc =
  iterate fn (drop (N.to_nat (n - base c)) c) acc.
Proof.
  intros Hc. unfold IterateForwardHeaders.
  rewrite <- kv_from_0, !kv_from_store by done.
  replace (if (n =? 0)%N then _ else _)
    with (by_height <$> drop (N.to_nat (n - base c)) c)
    by (destruct (N.eqb_spec n 0); by subst).
  generalize (drop (N.to_nat (n - base c)) c). intros l. revert acc.
  induction l as [|h l IH]; intros acc; simpl; [done|].
  destruct (fn h acc) as [? []]; auto.
Qed.

Lemma IterateReverse_store {S} c (fn : BTCHeaderInfo → S → S * bool) acc :
  consecutive c →
  IterateReverseHeaders (store_of c) fn acc = iterate fn (reverse c) acc.
Proof.
  intros Hc. unfold IterateReverseHeaders. rewrite kv_desc_store by done.
  generalize (reverse c). intros l. revert acc.
  induction l as [|h l IH]; intros acc; simpl; [done|].
  destruct (fn h acc) as [? []]; auto.
Qed.

Lemma iterate_limit {A} (limit : N) (l acc : list A) :
  iterate (λ a acc, if (limit <=? N.of_nat (length acc))%N then (acc, true)
                    else (acc ++ [a], false)) l acc =
  acc ++ take (N.to_nat limit - length acc) l.
Proof.
  revert acc. induction l as [|a l IH]; intros acc; simpl.
  - by rewrite take_nil, app_nil_r.
  - destruct (N.leb_spec limit (N.of_nat (length acc))).
    + replace (_ - _) with 0 by lia. by rewrite app_nil_r.
    + rewrite IH, length_app. simpl. rewrite <- app_assoc.
      replace (N.to_nat limit - length acc) with (S (N.to_nat limit - (length acc + 1))) by lia.
      done.
Qed.

Lemma iterate_depth {A} (depth cur : N) (l acc : list A) :
  (cur + N.of_nat (length l) < 2 ^ 32)%N →
  (iterate (λ a '(acc, cur), if (depth <? cur)%N then ((acc, cur), true)
                    else ((acc ++ [a], u32_add cur 1), false)) l (acc, cur)).1 =
  acc ++ take (N.to_nat (depth + 1 - cur)) l.
Proof.
  revert acc cur. induction l as [|a l IH]; intros acc cur Hb; cbn [iterate].
  - by rewrite take_nil, app_nil_r.
  - cbn [length] in Hb. destruct (N.ltb_spec depth cur).
    + replace (N.to_nat _) with 0 by lia. by rewrite app_nil_r.
    + rewrite u32_add_small by lia. rewrite IH by lia. rewrite <- app_assoc.
      replace (N.to_nat (depth + 1 - cur)) with (S (N.to_nat (depth + 1 - (cur + 1)))) by lia.
      done.
Qed.

Lemma iterate_all {A} (l acc : list A) :
  iterate (λ a acc, (acc ++ [a], false)) l acc = acc ++ l.
Proof.
  rewrite (iterate_nostop (λ a acc, acc ++ [a])), (foldl_snoc_map id). by rewrite list_fmap_id.
Qed.

(** A position in the list of headers is [length c - 1] minus its depth. *)
Lemma MainChainDepth_store c hash :
  consecutive c → NoDup (Hash <$> c) → (base c + N.of_nat (length c) < 2 ^ 32)%N →
  MainChainDepth (store_of c) (Some hash) =
  match find_hash c hash with
  | None => Err ErrHeaderDoesNotExist
  | Some (i, _) => Ok (N.of_nat (length c - 1 - i))
  end.
Proof.
  intros Hc Hn Hb. unfold MainChainDepth.
  rewrite GetHeaderByHash_store, GetTip_store by done.
  destruct (find_hash c hash) as [[i h]|] eqn:Hf; [|done]. simpl.
  apply list_find_Some in Hf as (Hi & _ & _).
  pose proof (lookup_lt_Some _ _ _ Hi).
  destruct (last c) as [t|] eqn:Ht; [|by apply last_None in Ht; subst].
  pose proof (consecutive_last _ _ Hc Ht). specialize (Hc _ _ Hi).
  destruct (N.ltb_spec (Height t) (Height h)); [lia|].
  rewrite u32_sub_small by lia. f_equal. lia.
Qed.

(** ** The abstract light client *)

Section spec.
Context `{B : Btcd}.
Implicit Types (c : list BTCHeaderInfo) (b : BlockHeader).

(** The header is the one its hash was computed from. *)
Definition authentic (h : BTCHeaderInfo) : Prop :=
  ∃ b, Deserialize (Header h) = Some b ∧ Hash h = hdr_BlockHash b.

(** [h] names [p] as its parent, is one higher and adds its own work. *)
Definition child_of (p h : BTCHeaderInfo) : Prop :=
  ∃ b, Deserialize (Header h) = Some b ∧ hdr_PrevBlock b = Hash p ∧
       Height h = (Height p + 1)%N ∧ Work h = (Work p + btcd_CalcWork (hdr_Bits b))%N.

Record wf_chain (c : list BTCHeaderInfo) : Prop := {
  wf_nonempty : c ≠ [];
  wf_authentic : Forall authentic c;
  wf_linked i (p h : BTCHeaderInfo) : c !! i = Some p → c !! S i = Some h → child_of p h;
  wf_hashes : NoDup (Hash <$> c);
}.

(** The context btcd validates the next header of [c] in: the tip of [c] and,
    as ancestors, exactly the headers of [c]. *)
Definition ancestor_at c (n : N) : option (Z * N * Z) :=
  a ← at_height c n;
  b ← Deserialize (Header a);
  Some (Z.of_N n, hdr_Bits b, hdr_Unix b).

Definition chain_ctx c (tip : BTCHeaderInfo) (b : BlockHeader) : HeaderCtx :=
  mkHeaderCtx (Z.of_N (Height tip)) (hdr_Bits b) (hdr_Unix b)
    (λ d, Ok (if (Z.of_N (Height tip) <? d)%Z then None
              else ancestor_at c (Height tip - Z.to_N d))).

Definition extend1 c (b : BlockHeader) : res LCErr BTCHeaderInfo :=
  match last c with
  | None => Err ErrNilTip
  | Some tip =>
      match Deserialize (Header tip) with
      | None => Panic
      | Some tb =>
          require (CheckBlockHeaderContext b (chain_ctx c tip tb) && CheckBlockHeaderSanity b)
            ErrInvalidHeader;;
          total ← (w ← CalcHeaderWork b; CumulativeWork (Work tip) w);
          mret (mkBTCHeaderInfo (Serialize b) (hdr_BlockHash b) (Height tip + 1) total)
      end
  end.

(** The headers that extend [c] by [bs], each validated on top of the last. *)
Fixpoint extend c (bs : list BlockHeader) : res LCErr (list BTCHeaderInfo) :=
  match bs with
  | [] => Ok []
  | b :: bs =>
      h ← extend1 c b;
      hs ← extend (c ++ [h]) bs;
      mret (h :: hs)
  end.

Fixpoint chained (bs : list BlockHeader) : bool :=
  match bs with
  | b1 :: (b2 :: _) as bs =>
      bool_decide (hdr_PrevBlock b2 = hdr_BlockHash b1) && chained bs
  | _ => true
  end.

(** The result is the part of [c] that stays and the headers added to it. *)
Definition insert_spec c (bs : list BlockHeader)
  : res LCErr (list BTCHeaderInfo * list BTCHeaderInfo) :=
  match bs, last c with
  | [], _ => Err ErrEmptyHeaders
  | b0 :: _, tip =>
      require (chained bs) ErrHeadersNotChain;;
      tip ← of_option ErrNilTip tip;
      if bool_decide (hdr_PrevBlock b0 = Hash tip) then
        new ← extend c bs;
        mret (c, new)
      else
        match find_hash c (hdr_BlockHash b0), find_hash c (hdr_PrevBlock b0) with
        | Some _, _ => Err ErrForkStartWithKnownHeader
        | None, None => Err ErrHeaderParentDoesNotExist
        | None, Some (i, _) =>
            let p := take (S i) c in
            new ← extend p bs;
            match last new with
            | None => Panic
            | Some newTip =>
                require (Work tip <? Work newTip)%N ErrChainWithNotEnoughWork;;
                mret (p, new)
            end
        end
  end.

(** *** Properties of the abstract light client *)

Lemma wf_consecutive c : wf_chain c → consecutive c.
Proof.
  intros [_ _ Hl _] i. induction i as [|i IH]; intros h Hi.
  - destruct c; [done|]. simplify_eq/=. lia.
  - destruct (c !! i) as [p|] eqn:Hp.
    + destruct (Hl _ _ _ Hp Hi) as (b & _ & _ & Hh & _). rewrite Hh, (IH _ eq_refl). lia.
    + apply lookup_ge_None in Hp. apply lookup_lt_Some in Hi. lia.
Qed.

Lemma wf_chain_take c i : wf_chain c → wf_chain (take (S i) c).
Proof.
  intros [Hne Ha Hl Hn]. split.
  - by destruct c.
  - by apply Forall_take.
  - intros j p h [Hp _]%lookup_take_Some [Hh _]%lookup_take_Some. by eapply Hl.
  - rewrite fmap_take. rewrite <- (take_drop (S i)) in Hn. by apply NoDup_app in Hn as [? _].
Qed.

Lemma extend1_Ok `{L : !BtcdLaws} c b h :
  extend1 c b = Ok h →
  ∃ tip, last c = Some tip ∧ Header h = Serialize b ∧ Hash h = hdr_BlockHash b ∧
         Height h = (Height tip + 1)%N ∧
         Work h = (Work tip + btcd_CalcWork (hdr_Bits b))%N ∧
         Deserialize (Header h) = Some b.
Proof.
  unfold extend1, CalcHeaderWork, CumulativeWork, uint256. intros Hx.
  destruct (last c) as [tip|]; [|done].
  destruct (Deserialize (Header tip)) as [tb|]; [|done].
  inv_ok. repeat case_match; simplify_eq. eexists.
  split_and!; [done..| |apply Deserialize_Serialize]. simpl. lia.
Qed.

Lemma extend_hashes `{L : !BtcdLaws} c bs new :
  extend c bs = Ok new → Hash <$> new = hdr_BlockHash <$> bs.
Proof.
  revert c new. induction bs as [|b bs IH]; intros c new Hx; simpl in Hx; inv_ok; [done|].
  simpl. erewrite IH by done.
  by edestruct extend1_Ok as (tip & _ & _ & -> & _).
Qed.

(** A list of headers, chained and chained to the tip, keeps a chain linked. *)
Definition chained_to (hash : bytes) (bs : list BlockHeader) : Prop :=
  match bs with [] => True | b :: _ => hdr_PrevBlock b = hash end ∧ chained bs = true.

Record linked_chain (c : list BTCHeaderInfo) : Prop := {
  lk_nonempty : c ≠ [];
  lk_authentic : Forall authentic c;
  lk_linked i (p h : BTCHeaderInfo) : c !! i = Some p → c !! S i = Some h → child_of p h;
}.

Lemma wf_chain_alt c : wf_chain c ↔ linked_chain c ∧ NoDup (Hash <$> c).
Proof. split; [intros []; by repeat split|intros [[] ?]; by split]. Qed.

Lemma linked_snoc c tip h :
  linked_chain c → last c = Some tip → authentic h → child_of tip h →
  linked_chain (c ++ [h]).
Proof.
  intros [Hne Ha Hl] Ht Hh Hch. split.
  - by destruct c.
  - by apply Forall_app_2; [|apply Forall_singleton].
  - intros i p h' Hp Hh'. apply lookup_snoc_Some in Hh' as [[? Hh']|[Hi <-]].
    + rewrite lookup_app_l in Hp by lia. by eapply Hl.
    + rewrite lookup_app_l in Hp by lia. rewrite last_lookup in Ht.
      replace (pred (length c)) with i in Ht by lia. by simplify_eq.
Qed.

Lemma extend_linked `{L : !BtcdLaws} c tip bs new :
  linked_chain c → last c = Some tip → chained_to (Hash tip) bs →
  extend c bs = Ok new → linked_chain (c ++ new).
Proof.
  revert c tip new. induction bs as [|b bs IH]; intros c tip new Hc Ht [Hp Hbs] Hx;
    simpl in Hx; inv_ok; [by rewrite app_nil_r|].
  edestruct extend1_Ok as (tip' & Ht' & _ & Hhash & Hheight & Hwork & Hd); [done|].
  simplify_eq. rewrite cons_middle, app_assoc.
  eapply IH; [|apply last_snoc| |done].
  - eapply linked_snoc; [done..|by eexists|]. exists b. by split_and!.
  - rewrite Hhash. destruct bs as [|b' bs]; [done|].
    apply andb_true_iff in Hbs as [Hb Hbs]. by apply bool_decide_eq_true in Hb.
Qed.

Lemma extend_consecutive `{L : !BtcdLaws} c bs new :
  consecutive c → extend c bs = Ok new → consecutive (c ++ new).
Proof.
  revert c new. induction bs as [|b bs IH]; intros c new Hc Hx; simpl in Hx; inv_ok.
  - by rewrite app_nil_r.
  - edestruct extend1_Ok as (tip & Ht & _ & _ & Hh & _); [done|].
    rewrite cons_middle, app_assoc. eapply IH; [|done]. by eapply consecutive_snoc.
Qed.

Lemma extend_length c bs new : extend c bs = Ok new → length new = length bs.
Proof.
  revert c new. induction bs as [|b bs IH]; intros c new Hx; simpl in Hx; inv_ok; [done|].
  simpl. f_equal. by eapply IH.
Qed.

(** Extending a chain never loses work. *)
Lemma extend_work `{L : !BtcdLaws} c bs new tip tip' :
  extend c bs = Ok new → last c = Some tip → last (c ++ new) = Some tip' →
  (Work tip ≤ Work tip')%N.
Proof.
  revert c new tip. induction bs as [|b bs IH]; intros c new tip Hx Ht Ht';
    simpl in Hx; inv_ok.
  - rewrite app_nil_r in Ht'. by simplify_eq.
  - edestruct extend1_Ok as (tip0 & Ht0 & _ & _ & _ & Hw & _); [done|]. simplify_eq.
    rewrite cons_middle, app_assoc in Ht'.
    etrans; [|eapply IH; [done|apply last_snoc|done]]. lia.
Qed.

Lemma find_hash_Some c hash i h :
  find_hash c hash = Some (i, h) → last (take (S i) c) = Some h ∧ Hash h = hash ∧ i < length c.
Proof.
  intros (Hi & <- & _)%list_find_Some. pose proof (lookup_lt_Some _ _ _ Hi).
  split_and!; [|done..]. rewrite last_lookup, length_take.
  replace (pred _) with i by lia. rewrite lookup_take_lt by lia. done.
Qed.
End spec.

(** ** The library validates headers against the chain they extend *)

Section simulation.
Context `{B : Btcd} {L : BtcdLaws}.
Implicit Types (c p q : list BTCHeaderInfo) (xs : list localHeaderInfo).

Definition to_info (l : localHeaderInfo) : BTCHeaderInfo :=
  mkBTCHeaderInfo (Serialize (lh_header l)) (hdr_BlockHash (lh_header l))
    (lh_height l) (lh_totalWork l).

Definition parses (h : BTCHeaderInfo) : Prop := is_Some (Deserialize (Header h)).

(** The header [l] in memory is the stored header [t]. *)
Definition local_matches (t : BTCHeaderInfo) (l : localHeaderInfo) : Prop :=
  Deserialize (Header t) = Some (lh_header l) ∧ lh_height l = Height t ∧
  lh_totalWork l = Work t.

Lemma to_info_matches l : local_matches (to_info l) l.
Proof. split_and!; [apply Deserialize_Serialize|done..]. Qed.

Lemma at_height_app_l p q n :
  p ≠ [] → (n < base p + N.of_nat (length p))%N → at_height (p ++ q) n = at_height p n.
Proof.
  intros Hp Hn. unfold at_height. rewrite base_app by done.
  destruct (N.ltb_spec n (base p)); [done|]. apply lookup_app_l. lia.
Qed.

Definition local_at c (n : N) : option localHeaderInfo :=
  a ← at_height c n; b ← Deserialize (Header a); Some (mkLocalHeaderInfo b n (Work a)).

Lemma storedHeaderAt_spec {E} p q xs n :
  p ≠ [] → consecutive (p ++ q) → Forall parses (p ++ q) →
  (n < base p + N.of_nat (length p))%N →
  @storedHeaderAt B E (mkStoreWithExtensionChain xs (readStore (store_of (p ++ q)))) n =
  Ok (local_at p n).
Proof.
  intros Hp Hc Hpa Hn. unfold storedHeaderAt, local_at. cbn -[store_of].
  rewrite GetHeaderByHeight_store, at_height_app_l by done.
  destruct (at_height p n) as [a|] eqn:Ha; [|done]. simpl.
  assert (parses a) as [b Hb].
  { rewrite Forall_forall in Hpa. apply Hpa, elem_of_app. left.
    unfold at_height in Ha. case_match; [done|]. by eapply list_elem_of_lookup_2. }
  unfold ToBlockHeader. by rewrite Hb.
Qed.

Lemma getHeaderAtHeight_spec {E} p q xs n :
  p ≠ [] → consecutive (p ++ q) → Forall parses (p ++ q) →
  let c := p ++ (to_info <$> xs) in
  consecutive c → (base p + N.of_nat (length c) < 2 ^ 32)%N →
  (n < base p + N.of_nat (length c))%N →
  @getHeaderAtHeight B E (mkStoreWithExtensionChain xs (readStore (store_of (p ++ q)))) n =
  Ok (local_at c n).
Proof.
  intros Hp Hc Hpa c Hcc Hb Hn. unfold getHeaderAtHeight. cbn -[store_of].
  unfold c in *. rewrite length_app, length_fmap in *.
  destruct xs as [|x0 xs].
  { cbn in *. rewrite app_nil_r. apply storedHeaderAt_spec; [done..|lia]. }
  pose proof (Hcc (length p) (to_info x0) (list_lookup_middle _ _ _ _ eq_refl)) as H0.
  rewrite base_app in H0 by done. cbn [to_info Height] in H0. rewrite H0.
  destruct (N.ltb_spec n (base p + N.of_nat (length p))) as [Hlt|Hge].
  - rewrite storedHeaderAt_spec by done. unfold local_at. by rewrite at_height_app_l.
  - cbn [length] in *. rewrite u32_sub_small by lia.
    destruct (lookup_lt_is_Some_2 (x0 :: xs) (N.to_nat (n - (base p + N.of_nat (length p)))))
      as [x Hx]; [simpl; lia|]. rewrite Hx.
    assert (at_height (p ++ (to_info <$> x0 :: xs)) n = Some (to_info x)) as Ha.
    { unfold at_height. rewrite base_app by done.
      destruct (N.ltb_spec n (base p)); [lia|]. rewrite lookup_app_r by lia.
      rewrite list_lookup_fmap. replace (N.to_nat (n - base p) - length p) with
        (N.to_nat (n - (base p + N.of_nat (length p)))) by lia. by rewrite Hx. }
    unfold local_at. rewrite Ha. simpl. rewrite Deserialize_Serialize. simpl.
    assert (Height (to_info x) = n) as <-; [|by destruct x].
    unfold at_height in Ha. rewrite base_app in Ha by done. case_match; [done|].
    apply Hcc in Ha. rewrite base_app in Ha by done. lia.
Qed.

(** *** Validation of one header *)

Lemma ctx_of_chain p q xs t l :
  p ≠ [] → consecutive (p ++ q) → Forall parses (p ++ q) →
  let c := p ++ (to_info <$> xs) in
  consecutive c → last c = Some t → local_matches t l → (Height t < 2 ^ 31)%N →
  ctx_equiv
    (newLightHeaderCtx (lh_height l) (lh_header l)
       (mkStoreWithExtensionChain xs (readStore (store_of (p ++ q)))))
    (chain_ctx c t (lh_header l)).
Proof.
  intros Hp Hc Hpa c Hcc Ht (Hd & Hh & Hw) Hb.
  pose proof (consecutive_last _ _ Hcc Ht) as Hlast.
  unfold c in Hlast. rewrite base_app in Hlast by done.
  split; simpl; [|done|done|].
  { rewrite Hh, int32_small by lia. done. }
  intros d Hdist. unfold RelativeAncestorCtx. rewrite Hh.
  rewrite (int32_small (Z.of_N (Height t))) by lia.
  rewrite int32_small by lia.
  destruct (Z.ltb_spec (Z.of_N (Height t) - d) 0);
    destruct (Z.ltb_spec (Z.of_N (Height t)) d); try lia; [done|].
  rewrite getHeaderAtHeight_spec; try done; [|fold c; unfold c; lia|fold c; unfold c; lia].
  replace (Z.to_N (Z.of_N (Height t) - d)) with (Height t - Z.to_N d)%N by lia.
  simpl. f_equal. unfold local_at, ancestor_at. fold c.
  destruct (at_height c _) as [a|]; simpl; [|done].
  destruct (Deserialize (Header a)); simpl; [|done].
  by rewrite int32_small by lia.
Qed.

Lemma checkHeader_spec p q xs t l b :
  p ≠ [] → consecutive (p ++ q) → Forall parses (p ++ q) →
  let c := p ++ (to_info <$> xs) in
  consecutive c → last c = Some t → local_matches t l → (Height t < 2 ^ 31)%N →
  checkHeader (mkStoreWithExtensionChain xs (readStore (store_of (p ++ q)))) l b =
  CheckBlockHeaderContext b (chain_ctx c t (lh_header l)) && CheckBlockHeaderSanity b.
Proof.
  intros. unfold checkHeader. f_equal.
  apply CheckBlockHeaderContext_proper. by apply ctx_of_chain.
Qed.

(** *** Validation of a list of headers *)

Lemma process_extend p q xs t l bs :
  p ≠ [] → consecutive (p ++ q) → Forall parses (p ++ q) →
  let c := p ++ (to_info <$> xs) in
  consecutive c → last c = Some t → local_matches t l →
  (Height t + N.of_nat (length bs) < 2 ^ 31)%N →
  res_rel (λ st new, ext_headers st = xs ++ drop (length xs) (ext_headers st) ∧
                     to_info <$> drop (length xs) (ext_headers st) = new)
    (processNewHeadersChain (mkStoreWithExtensionChain xs (readStore (store_of (p ++ q)))) l bs)
    (extend c bs).
Proof.
  intros Hp Hc Hpa. revert xs t l. induction bs as [|b bs IH]; intros xs t l c Hcc Ht Hl Hb.
  - simpl. constructor. simpl. rewrite drop_all. by rewrite app_nil_r.
  - cbn -[store_of]. unfold extend1. cbn [length] in Hb. fold c in Ht, Hcc. rewrite Ht.
    pose proof Hl as (Hd & Hh & Hw). rewrite Hd.
    rewrite (checkHeader_spec p q xs t l b) by (done || lia). fold c.
    destruct (CheckBlockHeaderContext b _ && _); simpl; [|constructor].
    rewrite Hw, Hh, u32_add_small by lia.
    destruct (CalcHeaderWork b) as [w| |]; simpl; [|constructor..].
    destruct (CumulativeWork (Work t) w) as [total| |]; simpl; [|constructor..].
    set (x := mkLocalHeaderInfo b (Height t + 1) total).
    assert (c ++ [to_info x] = p ++ (to_info <$> xs ++ [x])) as Hsnoc
      by (unfold c; rewrite fmap_app; by rewrite app_assoc).
    specialize (IH (xs ++ [x]) (to_info x) x). rewrite <- Hsnoc in IH.
    change (mkBTCHeaderInfo (Serialize b) (hdr_BlockHash b) (Height t + 1) total)
      with (to_info x).
    change (addHeader _ x) with
      (mkStoreWithExtensionChain (xs ++ [x]) (readStore (store_of (p ++ q)))).
    specialize (IH ltac:(by eapply consecutive_snoc) (last_snoc _ _)
                  (to_info_matches x) ltac:(simpl; lia)).
    destruct IH as [st new [IH1 IH2]|e|]; [|constructor..].
    rewrite length_app in *. cbn [length] in *. constructor.
    rewrite IH1, <- app_assoc, drop_app_length. split; [done|].
    rewrite fmap_app, IH2. done.
Qed.

Lemma toBTCHeaderInfos_spec {E} xs : @toBTCHeaderInfos B E xs = Ok (to_info <$> xs).
Proof.
  induction xs as [|x xs IH]; [done|]. simpl. rewrite IH.
  unfold toBTCHeaderInfo, NewBTCHeaderBytesFromBlockHeader.
  rewrite length_Serialize, Deserialize_Serialize. done.
Qed.

(** A zero hash switches the check of the next link off. *)
Lemma headersFormChain_loop_spec b bs :
  Forall (λ b, hdr_BlockHash b ≠ emptyHash) (b :: bs) →
  headersFormChain_loop (hdr_BlockHash b) bs = chained (b :: bs).
Proof.
  revert b. induction bs as [|b' bs IH]; intros b [Hb Hbs]%Forall_cons; [done|].
  cbn [headersFormChain_loop]. rewrite bool_decide_eq_false_2 by done.
  change (chained (b :: b' :: bs)) with
    (bool_decide (hdr_PrevBlock b' = hdr_BlockHash b) && chained (b' :: bs)).
  destruct (bool_decide_reflect (hdr_PrevBlock b' = hdr_BlockHash b)); simpl; [|done].
  by rewrite IH.
Qed.

Lemma headersFormChain_spec bs :
  Forall (λ b, hdr_BlockHash b ≠ emptyHash) bs → headersFormChain bs = chained bs.
Proof.
  intros Hbs. destruct bs as [|b bs]; [done|]. unfold headersFormChain.
  cbn [headersFormChain_loop]. rewrite bool_decide_eq_true_2 by done.
  by apply headersFormChain_loop_spec.
Qed.

Lemma parses_of_wf c : wf_chain c → Forall parses c.
Proof. intros Hc. eapply Forall_impl; [apply Hc|]. intros h (b & Hb & _). by exists b. Qed.

Lemma toLocalInfo_spec {E} c i h :
  wf_chain c → c !! i = Some h →
  ∃ l, @toLocalInfo B E h = Ok l ∧ local_matches h l ∧ hdr_BlockHash (lh_header l) = Hash h.
Proof.
  intros Hc Hi. apply wf_authentic in Hc. rewrite Forall_lookup in Hc.
  destruct (Hc _ _ Hi) as (b & Hb & Hh).
  exists (mkLocalHeaderInfo b (Height h) (Work h)).
  unfold toLocalInfo, ToBlockHeader. rewrite Hb. done.
Qed.

(** *** The decision of the library *)

Definition result_of c (r : list BTCHeaderInfo * list BTCHeaderInfo) : InsertResult :=
  mkInsertResult r.2 (if length r.1 <? length c then last r.1 else None).

Lemma process_extend_from c i t l bs :
  wf_chain c → last (take (S i) c) = Some t → local_matches t l →
  (Height t + N.of_nat (length bs) < 2 ^ 31)%N →
  res_rel (λ st new, to_info <$> ext_headers st = new)
    (processNewHeadersChain (mkStoreWithExtensionChain [] (readStore (store_of c))) l bs)
    (extend (take (S i) c) bs).
Proof.
  intros Hc Ht Hl Hb.
  pose proof (process_extend (take (S i) c) (drop (S i) c) [] t l bs) as H.
  rewrite take_drop in H. cbn [fmap list_fmap] in H. rewrite app_nil_r in H.
  pose proof (wf_consecutive _ Hc) as Hcc.
  destruct H as [st new [_ H]|e|]; [..|constructor; exact H|constructor|constructor]; try done.
  - by apply (wf_nonempty _ (wf_chain_take _ i Hc)).
  - by apply parses_of_wf.
  - by apply consecutive_take.
Qed.

Lemma take_all_S c : c ≠ [] → take (S (length c - 1)) c = c.
Proof. intros. apply take_ge. destruct c; simpl; [done|lia]. Qed.

Lemma InsertHeaders_spec c tip bs :
  wf_chain c → last c = Some tip → Forall (λ b, hdr_BlockHash b ≠ emptyHash) bs →
  (Height tip + N.of_nat (length bs) < 2 ^ 31)%N →
  InsertHeaders (readStore (store_of c)) bs = (r ← insert_spec c bs; Ok (result_of c r)).
Proof.
  intros Hc Ht Hz Hb. pose proof (wf_consecutive _ Hc) as Hcc.
  pose proof (wf_hashes _ Hc) as Hn. destruct bs as [|b0 bs']; [done|].
  remember (b0 :: bs') as bs eqn:Hbs. unfold InsertHeaders, insert_spec. rewrite Hbs at 1 2.
  rewrite headersFormChain_spec by done. cbn -[store_of].
  destruct (chained bs); [|done]. cbn -[store_of]. rewrite GetTip_store, Ht by done.
  pose proof Ht as Hti. rewrite last_lookup in Hti.
  destruct (toLocalInfo_spec (E := LCErr) _ _ _ Hc Hti) as (l & Hl & Hm & Hhash).
  cbn -[store_of]. rewrite Hl. cbn -[store_of]. rewrite Hhash.
  destruct (bool_decide_reflect (hdr_PrevBlock b0 = Hash tip)) as [Htip|Htip].
  - pose proof (process_extend_from c (length c - 1) tip l bs Hc) as H.
    rewrite take_all_S in H by apply Hc.
    destruct (H Ht Hm Hb) as [st new <-|e|]; cbn -[store_of]; [|done..].
    rewrite toBTCHeaderInfos_spec. cbn. unfold result_of. by rewrite Nat.ltb_irrefl.
  - rewrite !GetHeaderByHash_store by done.
    destruct (find_hash c (hdr_BlockHash b0)); cbn -[store_of]; [done|].
    destruct (find_hash c (hdr_PrevBlock b0)) as [[i fp]|] eqn:Hf; cbn -[store_of take]; [|done].
    assert (c !! i = Some fp) as Hi by (by apply list_find_Some in Hf as [? _]).
    apply find_hash_Some in Hf as (Hfp & Hfph & Hil).
    destruct (toLocalInfo_spec (E := LCErr) _ _ _ Hc Hi) as (l' & Hl' & Hm' & _).
    rewrite Hl'. cbn -[store_of take].
    pose proof (consecutive_last _ _ Hcc Ht). pose proof (Hcc _ _ Hi).
    destruct (process_extend_from c i fp l' bs Hc Hfp Hm') as [st new <-|e|];
      [lia|..]; cbn -[store_of take]; [|done..].
    rewrite fmap_last. destruct (last (ext_headers st)) as [x|] eqn:Hx; cbn -[store_of take].
    + destruct Hm as (_ & _ & ->). unfold require.
      destruct (N.leb_spec (lh_totalWork x) (Work tip)), (N.ltb_spec (Work tip) (lh_totalWork x));
        try lia; cbn -[store_of take]; [done|].
      rewrite toBTCHeaderInfos_spec. cbn -[take]. unfold result_of. simpl.
      assert (S i ≠ length c).
      { intros E. apply Htip. rewrite <- Hfph. f_equal.
        rewrite <- E in Hti. simpl in Hti. congruence. }
      rewrite Hfp. rewrite length_take.
      destruct (Nat.ltb_spec (S i `min` length c) (length c)); [done|lia].
    + done.
Qed.

(** *** The handler *)

Context {X : Type} (hooks : BTCLightClientHooks X).

(** The hooks that run when [c] becomes [p ++ new]: one roll back if [p] is
    not the whole of [c], then two calls per new header, each made when the
    stores hold the chain up to that header. *)
Definition notify_step (dx : list BTCHeaderInfo * X) (h : BTCHeaderInfo) :=
  let d := dx.1 ++ [h] in
  (d, AfterBTCRollForward hooks (store_of d) h
        (AfterBTCHeaderInserted hooks (store_of d) h dx.2)).

Definition notify_new p (new : list BTCHeaderInfo) (x : X) : X :=
  (foldl notify_step (p, x) new).2.

Definition notify c p new (x : X) : X :=
  notify_new p new
    match last c, last p with
    | Some from, Some to =>
        if length p <? length c then AfterBTCRollBack hooks (store_of p) from to x else x
    | _, _ => x
    end.

Lemma insertAndTrigger_store p new x :
  consecutive (p ++ new) → NoDup (Hash <$> p ++ new) →
  foldl (insertAndTrigger hooks) (store_of p, x) new =
  (store_of (p ++ new), notify_new p new x).
Proof.
  intros Hc Hn. unfold notify_new.
  assert (∀ p new x, (foldl notify_step (p, x) new).1 = p ++ new) as Hfst.
  { clear. intros p new. revert p. induction new as [|h new IH]; intros p x; simpl.
    - by rewrite app_nil_r.
    - unfold notify_step at 2. simpl. rewrite IH. by rewrite <- app_assoc. }
  induction new as [|h new IH] using rev_ind; simpl.
  { by rewrite app_nil_r. }
  rewrite app_assoc in Hc, Hn. rewrite !foldl_snoc.
  rewrite IH by eauto using consecutive_app_l, NoDup_hash_app_l.
  unfold insertAndTrigger, triggerRollForward, triggerHeaderInserted, notify_step at 1.
  cbn -[store_of]. rewrite Hfst, insertHeader_store by done. by rewrite app_assoc.
Qed.

(** What [insert_spec] keeps is a beginning of the chain, of the right length. *)
Lemma insert_spec_Ok c bs p new :
  wf_chain c → insert_spec c bs = Ok (p, new) →
  ∃ i, p = take (S i) c ∧ extend p bs = Ok new ∧ bs ≠ [] ∧ chained bs = true ∧
       (∃ t, last p = Some t ∧ chained_to (Hash t) bs) ∧
       (p = c ∨ S i < length c ∧ ∃ tip tip', last c = Some tip ∧
                  last (p ++ new) = Some tip' ∧ (Work tip < Work tip')%N).
Proof.
  intros Hc Hx. unfold insert_spec in Hx. destruct bs as [|b0 bs']; [done|].
  remember (b0 :: bs') as bs eqn:Hbs.
  destruct (last c) as [tip|] eqn:Ht; [|by apply bind_Ok in Hx as (? & _ & ?)].
  apply bind_Ok in Hx as ([] & Hch%require_Ok & Hx). simpl in Hx.
  destruct (bool_decide_reflect (hdr_PrevBlock b0 = Hash tip)) as [Htip|Htip].
  - inv_ok. exists (length p - 1). rewrite take_all_S by apply Hc.
    split_and!; [done..| |by left]. exists tip. done.
  - destruct (find_hash c (hdr_BlockHash b0)); [done|].
    destruct (find_hash c (hdr_PrevBlock b0)) as [[i fp]|] eqn:Hf; [|done].
    pose proof Hf as (Hi & _)%list_find_Some.
    apply find_hash_Some in Hf as (Hfp & Hfph & Hil).
    apply bind_Ok in Hx as (new' & Hnew & Hx).
    destruct (last new') as [tip'|] eqn:Ht'; [|done]. inv_ok.
    exists i. split_and!; [done..| |].
    { exists fp. split; [done|]. by split; [rewrite Hfph|]. }
    right. split.
    + destruct (decide (S i = length c)) as [E|]; [|lia]. exfalso. apply Htip.
      rewrite last_lookup, <- E in Ht. simpl in Ht. congruence.
    + exists tip, tip'. split_and!; [done| |by apply N.ltb_lt].
      rewrite last_app, Ht'. done.
Qed.
End simulation.

(** ** The promises of the light client *)

Section promises.
Context `{B : Btcd} {L : BtcdLaws} {X : Type} (hooks : BTCLightClientHooks X).
Implicit Types (c p new : list BTCHeaderInfo) (bs : list BlockHeader).

(** What inserting [bs] into the chain [c] relies on: heights fit the [int32]s
    of btcd, no hash is zero, and no two headers of the resulting chain have
    the same hash. *)
Record insertable c bs : Prop := {
  ins_height tip : last c = Some tip → (Height tip + N.of_nat (length bs) < 2 ^ 31)%N;
  ins_nonzero : Forall (λ b, hdr_BlockHash b ≠ emptyHash) bs;
  ins_distinct p new : insert_spec c bs = Ok (p, new) → NoDup (Hash <$> p ++ new);
}.

Lemma wf_last c : wf_chain c → ∃ tip, last c = Some tip.
Proof. intros Hc. apply last_is_Some_iff, Hc. Qed.

Lemma handler_spec c bs p new x :
  wf_chain c → insertable c bs → insert_spec c bs = Ok (p, new) →
  triggerEventAndHandleHooksHandler hooks (store_of c) x (result_of c (p, new)) =
  Ok (store_of (p ++ new), notify hooks c p new x).
Proof.
  intros Hc Hins Hx. pose proof (ins_distinct _ _ Hins _ _ Hx) as Hn.
  destruct (insert_spec_Ok _ _ _ _ Hc Hx) as (i & Hp & He & _ & _ & (t & Ht & _) & Hor).
  pose proof (wf_consecutive _ Hc) as Hcc.
  assert (consecutive p) as Hpc by (subst p; by apply consecutive_take).
  pose proof (extend_consecutive _ _ _ Hpc He) as Hcn.
  destruct (wf_last _ Hc) as [tip Htip].
  unfold triggerEventAndHandleHooksHandler, result_of, notify. cbn -[store_of Nat.ltb].
  rewrite Htip, Ht. destruct Hor as [->|(Hi & _)].
  - rewrite Nat.ltb_irrefl. cbn -[store_of].
    by rewrite insertAndTrigger_store.
  - assert (length p < length c) as Hlt by (subst p; rewrite length_take; lia).
    apply Nat.ltb_lt in Hlt as ->. cbn -[store_of].
    rewrite GetTip_store, Htip by done.
    assert (rollBackHeadersUpTo (store_of c) (Height t) = store_of p) as ->.
    { rewrite <- (take_drop (S i) c), <- Hp.
      apply rollBack_store_at; [|rewrite Hp, take_drop; apply Hc|done].
      by rewrite Hp, take_drop. }
    unfold triggerRollBack, CheckRollBackInvariants.
    pose proof (consecutive_last _ _ Hcc Htip). pose proof (consecutive_last _ _ Hpc Ht) as E.
    rewrite Hp in E. rewrite length_take in E.
    replace (base (take (S i) c)) with (base c) in E by by destruct c.
    destruct (N.leb_spec (Height tip) (Height t)); [lia|].
    cbn -[store_of]. by rewrite insertAndTrigger_store.
Qed.

(** C1: The keeper refines the abstract light client: on the stores of a chain,
    inserting headers gives the outcome of [insert_spec], error or not; when headers are
    accepted the new stores are those of the new chain and the hooks have run exactly as
    [notify] says.  Side conditions ([insertable]): heights stay below [2 ^ 31], no
    header has the empty hash, and no two headers of the resulting chain have the same
    hash. *)
Theorem insert_refines c bs x :
  wf_chain c → insertable c bs →
  insertHeadersInternal (store_of c) x bs (triggerEventAndHandleHooksHandler hooks) =
  ('(p, new) ← insert_spec c bs; Ok (store_of (p ++ new), notify hooks c p new x)).
Proof.
  intros Hc Hins. destruct (wf_last _ Hc) as [tip Htip]. unfold insertHeadersInternal.
  rewrite (InsertHeaders_spec c tip) by (done || apply Hins; done).
  destruct (insert_spec c bs) as [[p new]| |] eqn:Hx; [|done..].
  simpl. by apply (handler_spec c bs).
Qed.

Lemma insert_keeps_wf c bs p new :
  wf_chain c → insertable c bs → insert_spec c bs = Ok (p, new) → wf_chain (p ++ new).
Proof.
  intros Hc Hins Hx. apply wf_chain_alt.
  destruct (insert_spec_Ok _ _ _ _ Hc Hx) as (i & Hp & He & _ & _ & (t & Ht & Hto) & _).
  split; [|by apply (ins_distinct _ _ Hins)].
  eapply extend_linked; [|done..]. subst p. by apply (wf_chain_alt _), wf_chain_take.
Qed.

Lemma BtcHeadersBytesToBlockHeader_length raw bs :
  BtcHeadersBytesToBlockHeader raw = Ok bs → length bs = length raw.
Proof.
  revert bs. induction raw as [|r raw IH]; intros bs Hr; simpl in Hr; inv_ok; [done|].
  simpl. f_equal. by apply IH.
Qed.

(** The chain with more work wins: what stays is a beginning [p] of the old
    chain, and either all of it stays or the new tip has strictly more work. *)
Definition better_chain c c' : Prop :=
  ∃ p new tip tip', c' = p ++ new ∧ new ≠ [] ∧ p `prefix_of` c ∧ p ≠ [] ∧
    last c = Some tip ∧ last c' = Some tip' ∧ (Work tip ≤ Work tip')%N ∧
    (p = c ∨ (Work tip < Work tip')%N).

Lemma insert_spec_better c bs p new :
  wf_chain c → insert_spec c bs = Ok (p, new) → better_chain c (p ++ new).
Proof.
  intros Hc Hx.
  destruct (insert_spec_Ok _ _ _ _ Hc Hx) as (i & Hp & He & Hne & _ & (t & Ht & _) & Hor).
  destruct (wf_last _ Hc) as [tip Htip].
  assert (new ≠ []) as Hnew.
  { apply extend_length in He. intros ->. by destruct bs. }
  destruct (last (p ++ new)) as [tip'|] eqn:Htip'.
  2: { apply last_None, app_eq_nil in Htip' as [_ ?]. done. }
  exists p, new, tip, tip'. split_and!; try done.
  - rewrite Hp. apply prefix_take.
  - intros ->. done.
  - destruct Hor as [->|(_ & tip1 & tip2 & H1 & H2 & ?)].
    + simplify_eq. by eapply extend_work.
    + simplify_eq. lia.
  - destruct Hor as [->|(_ & tip1 & tip2 & H1 & H2 & ?)]; [by left|right; by simplify_eq].
Qed.

(** C14: Every accepted message leaves the stores holding one well-formed chain, which
    keeps a non-empty beginning of the old one (the base header is never replaced) and
    never has less work; it has strictly more work whenever a stored header was dropped.
    Heights stay below [2 ^ 31] and hashes do not collide ([insertable]). *)
Theorem accepted_headers_best_chain c raw x s' x' :
  wf_chain c → (∀ bs, BtcHeadersBytesToBlockHeader raw = Ok bs → insertable c bs) →
  InsertHeadersWithHookAndEvents hooks (store_of c) x raw = Ok (s', x') →
  ∃ c', s' = store_of c' ∧ wf_chain c' ∧ better_chain c c'.
Proof.
  intros Hc Hins Hx. unfold InsertHeadersWithHookAndEvents in Hx.
  destruct (length raw =? 0); [done|]. apply bind_Ok in Hx as (bs & Hbs & Hx).
  specialize (Hins _ Hbs). destruct (wf_last _ Hc) as [tip Htip].
  apply bind_Ok in Hx as (r & Hr & Hx).
  rewrite (InsertHeaders_spec c tip) in Hr by (done || apply Hins; done).
  apply bind_Ok in Hr as ([p new] & Hspec & [= <-]).
  rewrite (handler_spec c bs p new) in Hx by done. inv_ok.
  exists (p ++ new). split_and!; [done| |].
  - by eapply insert_keeps_wf.
  - by eapply insert_spec_better.
Qed.

(** *** Panics *)

Definition work_of bs : N := foldr (λ b n, btcd_CalcWork (hdr_Bits b) + n)%N 0%N bs.

Lemma CalcHeaderWork_small {E} b :
  (btcd_CalcWork (hdr_Bits b) < 2 ^ 256)%N →
  @CalcHeaderWork B E b = Ok (btcd_CalcWork (hdr_Bits b)).
Proof. intros H. unfold CalcHeaderWork, uint256. by apply N.ltb_lt in H as ->. Qed.

Lemma CumulativeWork_small {E} (w1 w2 : N) :
  (w1 + w2 < 2 ^ 256)%N → @CumulativeWork E w1 w2 = Ok (w1 + w2)%N.
Proof.
  intros H. unfold CumulativeWork, uint256. rewrite N.add_0_l.
  assert (w1 < 2 ^ 256)%N as ->%N.ltb_lt by lia. simpl. by apply N.ltb_lt in H as ->.
Qed.

Lemma extend_no_panic c bs tip :
  Forall parses c → last c = Some tip → (Work tip + work_of bs < 2 ^ 256)%N →
  extend c bs ≠ Panic.
Proof.
  revert c tip. induction bs as [|b bs IH]; intros c tip Hp Ht Hw Hx; [done|].
  cbn [work_of foldr] in Hw. fold (work_of bs) in Hw. simpl in Hx.
  apply bind_Panic in Hx as [Hx|(h & Hh & Hx)].
  - unfold extend1 in Hx. rewrite Ht in Hx.
    assert (parses tip) as [tb Htb].
    { rewrite Forall_forall in Hp. apply Hp. by apply last_Some_elem_of. }
    rewrite Htb in Hx.
    rewrite CalcHeaderWork_small in Hx by lia. simpl in Hx.
    rewrite CumulativeWork_small in Hx by lia. by inv_panic.
  - destruct (extend1_Ok _ _ _ Hh) as (tip' & Ht' & _ & _ & _ & Hwork & Hd). simplify_eq.
    inv_panic. revert Hx. eapply IH; [|apply last_snoc|lia].
    apply Forall_app_2; [done|]. apply Forall_singleton. by exists b.
Qed.

Lemma insert_spec_no_panic c bs :
  wf_chain c → Forall (λ h, Work h + work_of bs < 2 ^ 256)%N c → insert_spec c bs ≠ Panic.
Proof.
  intros Hc Hw Hx. unfold insert_spec in Hx. destruct bs as [|b0 bs']; [done|].
  remember (b0 :: bs') as bs. destruct (wf_last _ Hc) as [tip Htip]. rewrite Htip in Hx.
  rewrite Forall_forall in Hw. pose proof (parses_of_wf _ Hc) as Hp.
  apply bind_Panic in Hx as [?%require_no_panic|(_ & _ & Hx)]; [done|]. simpl in Hx.
  case_bool_decide.
  - apply bind_Panic in Hx as [Hx|(? & _ & ?)]; [|done]. revert Hx.
    eapply extend_no_panic; [done..|]. by apply Hw, last_Some_elem_of.
  - destruct (find_hash c (hdr_BlockHash b0)); [done|].
    destruct (find_hash c (hdr_PrevBlock b0)) as [[i h]|] eqn:Hf; [|done].
    assert (h ∈ c) by (apply list_find_Some in Hf as [? _]; by eapply list_elem_of_lookup_2).
    apply find_hash_Some in Hf as (Hf & _ & _).
    apply bind_Panic in Hx as [Hx|(new & Hnew & Hx)]; revert Hx.
    + eapply extend_no_panic; [by apply Forall_take|done|by apply Hw].
    + destruct (last new) as [t|] eqn:Hl; [by destruct (Work tip <? Work t)%N|].
      apply last_None in Hl as ->. apply extend_length in Hnew. by subst bs.
Qed.

Lemma BtcHeadersBytesToBlockHeader_total raw :
  Forall (λ r, is_Some (Deserialize r)) raw →
  ∃ bs, BtcHeadersBytesToBlockHeader raw = Ok bs.
Proof.
  induction 1 as [|r raw [b Hb] _ [bs IH]]; [by eexists|]. exists (b :: bs).
  simpl. unfold ToBlockHeader. rewrite Hb. simpl. by rewrite IH.
Qed.

(** Inserting headers never panics: not in the library, not in the checks
    of the rollback trigger, not in the stores. The sums of work have to fit
    256 bits. *)
Theorem insert_headers_never_panics c raw x :
  wf_chain c → Forall (λ r, is_Some (Deserialize r)) raw →
  (∀ bs, BtcHeadersBytesToBlockHeader raw = Ok bs →
     insertable c bs ∧ Forall (λ h, Work h + work_of bs < 2 ^ 256)%N c) →
  InsertHeadersWithHookAndEvents hooks (store_of c) x raw ≠ Panic.
Proof.
  intros Hc (bs & Hbs)%BtcHeadersBytesToBlockHeader_total Hins Hx.
  destruct (Hins _ Hbs) as [Hi Hw]. unfold InsertHeadersWithHookAndEvents in Hx.
  destruct (length raw =? 0); [done|]. rewrite Hbs in Hx. simpl in Hx.
  destruct (wf_last _ Hc) as [tip Htip]. unfold insertHeadersInternal in Hx.
  rewrite (InsertHeaders_spec c tip) in Hx by (done || apply Hi; done).
  pose proof (insert_spec_no_panic _ _ Hc Hw).
  destruct (insert_spec c bs) as [[p new]| |] eqn:Hspec; [|done..].
  cbn -[store_of result_of triggerEventAndHandleHooksHandler] in Hx.
  by rewrite (handler_spec c bs) in Hx.
Qed.
End promises.

(** ** Queries, parameters and genesis *)

(** [MainChainDepth] and [BlockHeight], the two queries other modules rely
    on, read the chain: a header of the chain at position [i] has depth
    [length c - 1 - i] and height [base c + i]; any other hash is an error, and
    neither query panics. *)
Theorem depth_and_height_of_chain `{B : Btcd} c hash :
  wf_chain c → (base c + N.of_nat (length c) < 2 ^ 32)%N →
  (MainChainDepth (store_of c) (Some hash), BlockHeight (store_of c) (Some hash)) =
  match find_hash c hash with
  | None => (Err ErrHeaderDoesNotExist, Err ErrHeaderDoesNotExist)
  | Some (i, _) => (Ok (N.of_nat (length c - 1 - i)), Ok (base c + N.of_nat i)%N)
  end.
Proof.
  intros Hc Hb. pose proof (wf_consecutive _ Hc) as Hcc. pose proof (wf_hashes _ Hc) as Hn.
  rewrite MainChainDepth_store by done. unfold BlockHeight.
  rewrite GetHeaderByHash_store by done.
  destruct (find_hash c hash) as [[i h]|] eqn:Hf; [|done].
  apply list_find_Some in Hf as [Hi _]. simpl. by rewrite (Hcc _ _ Hi).
Qed.

(** Rolling back to a height keeps exactly the headers up to that height, in
    both stores: nothing when the height is below the base, everything when it
    is not below the tip. *)
Theorem rollback_exact `{B : Btcd} c height :
  wf_chain c →
  rollBackHeadersUpTo (store_of c) height =
  store_of (filter (λ h, Height h ≤ height)%N c).
Proof.
  intros Hc. pose proof (wf_consecutive _ Hc) as Hcc.
  rewrite rollBack_store by (done || apply Hc). f_equal.
  symmetry. apply filter_prefix.
  - apply Forall_lookup. intros i h [Hi Hk]%lookup_take_Some.
    rewrite (Hcc _ _ Hi). unfold kept in Hk. lia.
  - eapply Forall_impl; [by apply kept_drop_above|]. simpl. lia.
Qed.

(** The queries for parts of the main chain: from a height, from a height
    with a limit, the last [depth + 1] headers from the tip down, and the whole
    chain backwards. *)
Theorem main_chain_queries `{B : Btcd} c start limit depth :
  wf_chain c → (N.of_nat (length c) < 2 ^ 32)%N →
  let s := store_of c in
  let from := drop (N.to_nat (start - base c)) c in
  GetMainChainFrom s start = from ∧
  GetMainChainFromWithLimit s start limit = take (N.to_nat limit) from ∧
  GetMainChainUpTo s depth = take (N.to_nat depth + 1) (reverse c) ∧
  GetMainChainReverse s = reverse c ∧
  BaseHeader s = head c ∧ GetTip s = last c.
Proof.
  intros Hc Hb. pose proof (wf_consecutive _ Hc) as Hcc. split_and!.
  - unfold GetMainChainFrom. rewrite IterateForward_store by done. apply iterate_all.
  - unfold GetMainChainFromWithLimit. rewrite IterateForward_store by done.
    rewrite iterate_limit. by rewrite Nat.sub_0_r.
  - unfold GetMainChainUpTo. rewrite IterateReverse_store by done.
    rewrite iterate_depth by (rewrite length_reverse; lia).
    rewrite app_nil_l. f_equal. lia.
  - unfold GetMainChainReverse. rewrite IterateReverse_store by done. apply iterate_all.
  - by apply BaseHeader_store.
  - by apply GetTip_store.
Qed.

Section admin.
Context `{B : Btcd} {A : Bech32}.

Definition params_valid (st : LCState) : Prop := Params_Validate (GetParams st) = true.

Lemma valid_fold allow (r : list N) acc :
  ValidateAddressList allow = true →
  fold_res (E := LCErr) (λ ok addr,
    match AccAddressFromBech32 addr with
    | None => Panic
    | Some a => Ok (if bool_decide (a = r) then true else ok)
    end) acc allow = Ok (acc || existsb (λ a, bool_decide (AccAddressFromBech32 a = Some r)) allow).
Proof.
  revert acc. induction allow as [|a allow IH]; intros acc Hv; simpl.
  { by rewrite orb_false_r. }
  simpl in Hv. apply andb_true_iff in Hv as [[b Hb]%bool_decide_eq_true Hv].
  rewrite Hb. simpl. rewrite IH by done. f_equal.
  rewrite (bool_decide_ext (Some b = Some r) (b = r)) by naive_solver.
  destruct acc; by case_bool_decide.
Qed.

(** Who may insert headers. Parameters stay valid under [UpdateParams]
    (which only the authority can do), and while they are valid
    [canInsertHeaders] does not panic and admits everybody when the list is
    empty, else exactly the addresses on the list. *)
Theorem reporters_admitted st st' authority req reporter :
  params_valid st →
  (UpdateParams authority st req = Ok st' → authority = Authority req ∧ params_valid st') ∧
  ∃ b, canInsertHeaders st reporter = Ok b ∧
    (b = true ↔ InsertHeadersAllowList (GetParams st) = [] ∨
       ∃ a, a ∈ InsertHeadersAllowList (GetParams st) ∧
            AccAddressFromBech32 a = Some reporter).
Proof.
  intros Hv. split.
  - unfold UpdateParams, SetParams. intros Hu. inv_ok. case_bool_decide; done.
  - unfold canInsertHeaders, AllowAllReporters.
    destruct (InsertHeadersAllowList (GetParams st)) as [|a0 l] eqn:Hl.
    { exists true. naive_solver. }
    cbv iota. cbn [length Nat.eqb]. unfold params_valid, Params_Validate in Hv.
    rewrite Hl in Hv. rewrite valid_fold by done. eexists; split; [done|].
    rewrite orb_false_l, existsb_exists.
    split.
    + intros (a & Ha & Hd%bool_decide_eq_true). right. exists a.
      by rewrite list_elem_of_In.
    + intros [?|(a & Ha & Hd)]; [done|]. exists a.
      rewrite <- list_elem_of_In. by rewrite bool_decide_eq_true_2.
Qed.

Lemma Forall_authentic_validate c :
  Forall authentic c → Forall (λ h, Work h ≠ 0%N) c →
  forallb BTCHeaderInfo_Validate c = true.
Proof.
  induction 1 as [|h c (b & Hb & Hh) _ IH]; intros Hw; [done|].
  apply Forall_cons in Hw as [Hw Hws]. simpl. rewrite IH by done.
  unfold BTCHeaderInfo_Validate. apply N.eqb_neq in Hw as ->. rewrite Hb.
  by rewrite bool_decide_eq_true_2.
Qed.

Lemma IsRetargetBlock_true h : (Height h mod 2016 = 0)%N → IsRetargetBlock h = Ok true.
Proof.
  intros H%N.eqb_eq. unfold IsRetargetBlock.
  change (BlocksPerRetarget <? 0)%Z with false.
  change (Z.to_N BlocksPerRetarget) with 2016%N. by rewrite H.
Qed.

(** Exporting the state and initialising an empty module from the export
    gives the state back, provided the base header starts a difficulty period
    and has work, which genesis asks for. *)
Theorem genesis_roundtrip c params :
  wf_chain c → Params_Validate params = true →
  (base c mod 2016 = 0)%N → Forall (λ h, Work h ≠ 0%N) c →
  InitGenesis (mkLCState (store_of []) None)
    (ExportGenesis (mkLCState (store_of c) (Some params))) =
  Ok (mkLCState (store_of c) (Some params)).
Proof.
  intros Hc Hv Hbase Hw. pose proof (wf_consecutive _ Hc) as Hcc.
  unfold InitGenesis, ExportGenesis, GenesisState_Validate, SetParams, GetMainChainFrom.
  cbn [lc_headers lc_params gs_Params gs_BtcHeaders GetParams default].
  rewrite IterateForward_store, iterate_all by done.
  rewrite N.sub_0_l, drop_0, app_nil_l. unfold GetParams.
  cbn [lc_params default id]. rewrite Hv. cbn [require mbind res_bind].
  destruct c as [|h c]; [by destruct (wf_nonempty _ Hc)|].
  rewrite IsRetargetBlock_true by done. cbn -[store_of forallb].
  rewrite Forall_authentic_validate by (done || apply Hc). cbn -[store_of].
  f_equal. f_equal. apply (insertHeaders_store [] (h :: c)); [done|apply Hc].
Qed.
End admin.

(** ** Instances

    A chain of three headers over the toy Bitcoin, and a fork from its first
    header with more work. *)
Module Examples.
Definition base_header : BTCHeaderInfo :=
  let b := Toy.hdr 1 0 5 0 in mkBTCHeaderInfo (Serialize b) (hdr_BlockHash b) 2016 5.
Definition chain_headers : list Toy.header := [Toy.hdr 2 1 5 0; Toy.hdr 3 2 5 0].
Definition fork_headers : list Toy.header :=
  [Toy.hdr 4 1 5 0; Toy.hdr 5 4 5 0; Toy.hdr 6 5 5 0].
Definition ext (bs : list Toy.header) : list BTCHeaderInfo :=
  match extend [base_header] bs with Ok new => base_header :: new | _ => [] end.
Definition chain : list BTCHeaderInfo := ext chain_headers.
Definition forked : list BTCHeaderInfo := ext fork_headers.

Lemma wf_ext_chain : wf_chain chain.
Proof.
  apply wf_chain_alt. split.
  - apply (extend_linked (B := Toy.btcd) [base_header] base_header chain_headers); [|done..].
    split; [done| |].
    + apply Forall_singleton. by eexists.
    + by intros [|].
  - apply (bool_decide_eq_true_1 _). vm_compute. reflexivity.
Qed.

(** Records the events, latest first: 0 inserted, 1 rolled forward, 2 rolled back. *)
Definition trace_hooks : BTCLightClientHooks (list (N * N)) :=
  mkHooks (λ s h x, (0%N, Height h) :: x)
          (λ s from to x, (2%N, Height to) :: x)
          (λ s h x, (1%N, Height h) :: x).

Lemma fork_insertable : insertable (B := Toy.btcd) chain fork_headers.
Proof.
  split.
  - intros tip [= <-]. vm_compute. reflexivity.
  - repeat constructor; intros H; vm_compute in H; discriminate H.
  - intros p new H. vm_compute in H. injection H as <- <-.
    apply (bool_decide_eq_true_1 _). vm_compute. reflexivity.
Qed.

Lemma insert_refines_witness :
  insertHeadersInternal (B := Toy.btcd) (store_of chain) [] fork_headers
    (triggerEventAndHandleHooksHandler trace_hooks) =
  Ok (store_of forked,
      [(1, 2019); (0, 2019); (1, 2018); (0, 2018); (1, 2017); (0, 2017); (2, 2016)]%N).
Proof.
  rewrite (insert_refines (B := Toy.btcd) trace_hooks chain fork_headers [] wf_ext_chain fork_insertable).
  vm_compute. reflexivity.
Defined.

Definition fork_bytes : list bytes := Serialize (Btcd := Toy.btcd) <$> fork_headers.

Lemma fork_bytes_parse bs :
  BtcHeadersBytesToBlockHeader (B := Toy.btcd) fork_bytes = Ok bs → bs = fork_headers.
Proof. intros H. vm_compute in H. by injection H as <-. Qed.

Lemma accepted_headers_best_chain_witness :
  ∃ c', store_of forked = store_of c' ∧ wf_chain (B := Toy.btcd) c' ∧ better_chain chain c'.
Proof.
  apply (accepted_headers_best_chain (B := Toy.btcd) trace_hooks chain fork_bytes []
           (store_of forked)
           [(1, 2019); (0, 2019); (1, 2018); (0, 2018); (1, 2017); (0, 2017); (2, 2016)]%N).
  - apply wf_ext_chain.
  - intros bs ->%fork_bytes_parse. apply fork_insertable.
  - vm_compute. reflexivity.
Defined.

Lemma insert_headers_never_panics_witness :
  InsertHeadersWithHookAndEvents (B := Toy.btcd) trace_hooks (store_of chain) [] fork_bytes
    ≠ Panic.
Proof.
  apply (insert_headers_never_panics (B := Toy.btcd) trace_hooks chain fork_bytes []).
  - apply wf_ext_chain.
  - repeat constructor; by eexists.
  - intros bs ->%fork_bytes_parse. split; [apply fork_insertable|].
    repeat constructor; vm_compute; reflexivity.
Defined.

Lemma depth_and_height_of_chain_witness :
  (MainChainDepth (store_of chain) (Some (Toy.pad32 [byte_of_N 2])),
   BlockHeight (store_of chain) (Some (Toy.pad32 [byte_of_N 2]))) = (Ok 1%N, Ok 2017%N).
Proof.
  rewrite (depth_and_height_of_chain (B := Toy.btcd) chain _ wf_ext_chain);
    vm_compute; reflexivity.
Defined.

Lemma rollback_exact_witness :
  rollBackHeadersUpTo (store_of chain) 2016 = store_of [base_header].
Proof.
  rewrite (rollback_exact (B := Toy.btcd) chain 2016 wf_ext_chain). vm_compute. reflexivity.
Defined.

Lemma main_chain_queries_witness :
  GetMainChainFrom (store_of chain) 2017 = tail chain ∧
  GetMainChainFromWithLimit (store_of chain) 2017 1 = take 1 (tail chain) ∧
  GetMainChainUpTo (store_of chain) 0 = take 1 (reverse chain) ∧
  GetMainChainReverse (store_of chain) = reverse chain ∧
  BaseHeader (store_of chain) = Some base_header ∧
  GetTip (store_of chain) = last chain.
Proof.
  apply (main_chain_queries (B := Toy.btcd) chain 2017 1 0 wf_ext_chain).
  vm_compute. reflexivity.
Defined.

(** Addresses that decode to themselves, and one that does not decode. *)
Definition toy_bech32 : Bech32 :=
  λ s, if bool_decide (s = "") then None else Some [N.of_nat (String.length s)].
Definition toy_params : Params := mkParams ["alice"; "bob"].

Lemma reporters_admitted_witness :
  let st := mkLCState (store_of chain) (Some toy_params) in
  let req := mkMsgUpdateParams "gov" toy_params in
  (UpdateParams (A := toy_bech32) "gov" st req = Ok st →
     "gov" = Authority req ∧ params_valid (A := toy_bech32) st) ∧
  ∃ b, canInsertHeaders (A := toy_bech32) st [3%N] = Ok b ∧
    (b = true ↔ InsertHeadersAllowList (GetParams st) = [] ∨
       ∃ a, a ∈ InsertHeadersAllowList (GetParams st) ∧
            AccAddressFromBech32 (Bech32 := toy_bech32) a = Some [3%N]).
Proof.
  apply (reporters_admitted (A := toy_bech32)). vm_compute. reflexivity.
Defined.

Lemma genesis_roundtrip_witness :
  InitGenesis (B := Toy.btcd) (A := toy_bech32) (mkLCState (store_of []) None)
    (ExportGenesis (mkLCState (store_of chain) (Some toy_params))) =
  Ok (mkLCState (store_of chain) (Some toy_params)).
Proof.
  apply (genesis_roundtrip (B := Toy.btcd) (A := toy_bech32) chain toy_params);
    [apply wf_ext_chain|vm_compute; reflexivity|vm_compute; reflexivity|].
  repeat constructor; vm_compute; discriminate.
Defined.
End Examples.

End BtcLightClientSpec.
