(* ===== verification/Epoching.v ===== *)
(** x/epoching: epochs, validator sets, the message queue and slashed power.
    [src/anon/x/epoching/types/epoching.go], [types/validator.go],
    [keeper/epochs.go], [keeper/epoch_val_set.go], [keeper/epoch_msg_queue.go],
    [keeper/epoch_slashed_val_set.go], [keeper/hooks.go] (slashing), [abci.go].

    An epoch is an interval of blocks; the validator set is fixed at its first
    block and messages that would change it are queued until its last block. *)
From stdpp Require Import base numbers list sorting gmap strings.
From S2P Require Import Prelude KVStore Bytes.

Module Epoching.

Inductive EpErr :=
  | ErrUnknownEpochNumber | ErrUnknownValidator | ErrInvalidHeight | ErrNotGenesis
  | ErrBitmapTooSmall | ErrValidatorNotFound | ErrInvalidSigner | ErrInvalidParams
  | ErrInvalidEpoch.

(** ** Epochs: [types/epoching.go] *)

Record Epoch := mkEpoch {
  EpochNumber : N;
  CurrentEpochInterval : N;
  FirstBlockHeight : N;
  LastBlockTime : option Z;
  SealerAppHash : bytes;
  SealerBlockHash : bytes;
}.

Definition NewEpoch (epochNumber epochInterval firstBlockHeight : N)
    (lastBlockTime : option Z) : Epoch :=
  mkEpoch epochNumber epochInterval firstBlockHeight lastBlockTime [] [].

(** What the code reads of [sdk.Context]: the header of the current block. *)
Record HeaderInfo := mkHeaderInfo {
  hi_Height : Z;
  hi_Time : Z;
  hi_AppHash : bytes;
  hi_Hash : bytes;
}.

Definition GetLastBlockHeight (e : Epoch) : N :=
  if (EpochNumber e =? 0)%N then 0%N
  else u64_sub (u64_add (FirstBlockHeight e) (CurrentEpochInterval e)) 1.

Definition GetSealerBlockHeight (e : Epoch) : N := u64_add (GetLastBlockHeight e) 1.

Definition GetSecondBlockHeight {E} (e : Epoch) : res E N :=
  if (EpochNumber e =? 0)%N then Panic else Ok (u64_add (FirstBlockHeight e) 1).

Definition IsLastBlock (e : Epoch) (ctx : HeaderInfo) : bool :=
  (GetLastBlockHeight e =? u64_of_Z (hi_Height ctx))%N.

Definition IsFirstBlock (e : Epoch) (ctx : HeaderInfo) : bool :=
  (FirstBlockHeight e =? u64_of_Z (hi_Height ctx))%N.

Definition IsSecondBlock {E} (e : Epoch) (ctx : HeaderInfo) : res E bool :=
  if (EpochNumber e =? 0)%N then Ok false
  else h ← GetSecondBlockHeight e; mret (h =? u64_of_Z (hi_Height ctx))%N.

Definition IsFirstBlockOfNextEpoch (e : Epoch) (ctx : HeaderInfo) : bool :=
  if (EpochNumber e =? 0)%N then (hi_Height ctx =? 1)%Z
  else (u64_add (FirstBlockHeight e) (CurrentEpochInterval e) =? u64_of_Z (hi_Height ctx))%N.

Definition IsVoteExtensionProposal (e : Epoch) (ctx : HeaderInfo) : bool :=
  if (EpochNumber e =? 0)%N then false else IsFirstBlockOfNextEpoch e ctx.

Definition WithinBoundary (e : Epoch) (height : N) : bool :=
  negb ((height <? FirstBlockHeight e)%N || (GetLastBlockHeight e <? height)%N).

Definition Epoch_ValidateBasic (e : Epoch) : res EpErr unit :=
  require (negb (CurrentEpochInterval e <? 2)%N) ErrInvalidEpoch.

(** ** Validator sets: [types/validator.go] *)

Record Validator := mkValidator { Addr : bytes; Power : Z }.
Abbreviation ValidatorSet := (list Validator).

#[global] Instance Validator_eq_dec : EqDecision Validator.
Proof. solve_decision. Defined.

Definition val_le (v w : Validator) : Prop := bytes_le (Addr v) (Addr w).
Definition val_lt (v w : Validator) : Prop := bytes_lt (Addr v) (Addr w).
#[global] Instance val_le_dec v w : Decision (val_le v w).
Proof. unfold val_le. apply _. Defined.

(** [sort.Slice] by address; addresses are distinct, so the sort is unique. *)
Definition NewSortedValidatorSet (vals : list Validator) : ValidatorSet :=
  merge_sort val_le vals.

(** The loop [for lo <= hi]; [-1] is [None]. *)
Fixpoint binarySearch_loop (fuel : nat) (vs : ValidatorSet) (targetAddr : bytes) (lo hi : Z)
  : option nat :=
  match fuel with
  | O => None
  | S fuel =>
      if (lo <=? hi)%Z then
        let mid := (lo + Z.quot (hi - lo) 2)%Z in
        match vs !! Z.to_nat mid with
        | None => None
        | Some v =>
            match bytes_Compare (Addr v) targetAddr with
            | Eq => Some (Z.to_nat mid)
            | Gt => binarySearch_loop fuel vs targetAddr lo (mid - 1)
            | Lt => binarySearch_loop fuel vs targetAddr (mid + 1) hi
            end
        end
      else None
  end.

(** Each round shortens the interval: [length vs] rounds and a last test are enough. *)
Definition binarySearch (vs : ValidatorSet) (targetAddr : bytes) : option nat :=
  binarySearch_loop (S (length vs)) vs targetAddr 0 (Z.of_nat (length vs) - 1).

Definition FindValidatorWithIndex (vs : ValidatorSet) (valAddr : bytes)
  : res EpErr (Validator * nat) :=
  match binarySearch vs valAddr with
  | None => Err ErrValidatorNotFound
  | Some index =>
      match vs !! index with None => Panic | Some v => Ok (v, index) end
  end.

(** go-bitmap ([github.com/boljen/go-bitmap]): bits in a byte slice.  Indexing out
    of range panics, as slices do. *)
Class Bitmap := {
  bm_New : nat → bytes;
  bm_Len : bytes → nat;
  bm_Bit : bytes → nat → bool;
  bm_Put : bytes → nat → bool → bytes;
}.

Definition bm_Get {E} `{Bitmap} (bm : bytes) (i : nat) : res E bool :=
  if i <? bm_Len bm then Ok (bm_Bit bm i) else Panic.
Definition bm_Set {E} `{Bitmap} (bm : bytes) (i : nat) (b : bool) : res E bytes :=
  if i <? bm_Len bm then Ok (bm_Put bm i b) else Panic.

Class BitmapLaws `{Bitmap} : Prop := {
  bm_Len_New l : l ≤ bm_Len (bm_New l);
  bm_Bit_New l i : bm_Bit (bm_New l) i = false;
  bm_Len_Put m i b : bm_Len (bm_Put m i b) = bm_Len m;
  bm_Bit_Put m i b j : i < bm_Len m → bm_Bit (bm_Put m i b) j =
    if decide (i = j) then b else bm_Bit m j;
}.

Definition FindSubset `{Bitmap} (vs : ValidatorSet) (bm : bytes) : res EpErr ValidatorSet :=
  if bm_Len bm <? length vs then Err ErrBitmapTooSmall
  else
    fold_res (λ valSet i,
      bit ← bm_Get bm i;
      if (bit : bool) then
        match vs !! i with None => Panic | Some v => Ok (valSet ++ [v]) end
      else Ok valSet) [] (seq 0 (length vs)).

(** ** The keeper *)

Record ExecuteGas := mkExecuteGas {
  Delegate : N; Undelegate : N; BeginRedelegate : N;
  CancelUnbondingDelegation : N; EditValidator : N; CreateValidator : N;
}.

Record Params := mkParams {
  EpochInterval : N;
  params_ExecuteGas : ExecuteGas;
  MinAmount : N;
}.

Definition validateExecuteGas (gas : ExecuteGas) : bool :=
  negb (Delegate gas =? 0)%N && negb (Undelegate gas =? 0)%N &&
  negb (BeginRedelegate gas =? 0)%N && negb (CancelUnbondingDelegation gas =? 0)%N &&
  negb (EditValidator gas =? 0)%N && negb (CreateValidator gas =? 0)%N.

Definition Params_Validate (p : Params) : bool :=
  negb (EpochInterval p <? 2)%N && validateExecuteGas (params_ExecuteGas p) &&
  negb (MinAmount p <? 1)%N.

Section keeper.
  (** [Msg] is the type of queued messages and [X] the state of the other
      modules (staking, bank, and the modules that registered hooks). *)
Context {Msg X : Type}.

Record EpochingState := mkEpochingState {
  epochInfoStore : gmap N Epoch;
  valSetStore : gmap N (gmap bytes Z);
  votingPowerStore : gmap N Z;
  msgQueueStore : gmap N (gmap N Msg);
  msgQueueLengthStore : gmap N N;
  slashedVotingPowerStore : gmap N Z;
  slashedValSetStore : gmap N (gmap bytes Z);
  ep_params : Params;
}.
Implicit Types (s : EpochingState) (x : X) (ctx : HeaderInfo).

(** *** Epoch metadata: [keeper/epochs.go] *)

Definition setEpochInfo s (epochNumber : N) (epoch : Epoch) : EpochingState :=
  mkEpochingState (<[epochNumber := epoch]> (epochInfoStore s)) (valSetStore s)
    (votingPowerStore s) (msgQueueStore s) (msgQueueLengthStore s)
    (slashedVotingPowerStore s) (slashedValSetStore s) (ep_params s).

Definition getEpochInfo s (epochNumber : N) : res EpErr Epoch :=
  of_option ErrUnknownEpochNumber (epochInfoStore s !! epochNumber).

Definition InitEpoch s ctx (genEpochs : list Epoch) : res EpErr EpochingState :=
  if negb (length genEpochs =? 0) then
    Ok (foldl (λ s e, setEpochInfo s (EpochNumber e) e) s genEpochs)
  else if (0 <? hi_Height ctx)%Z then Err ErrNotGenesis
  else Ok (setEpochInfo s 0 (NewEpoch 0 1 0 (Some (hi_Time ctx)))).

(** [iter.Value()] of an exhausted iterator panics. *)
Definition GetEpoch {E} s : res E Epoch :=
  match kv_desc (epochInfoStore s) with
  | [] => Panic
  | (_, e) :: _ => Ok e
  end.

Definition CalculateEpochNumber {E} (height epochInterval : N) : res E N :=
  if (height =? 0)%N then Ok 0%N
  else
    let height := u64_sub height 1 in
    if (epochInterval =? 0)%N then Panic
    else Ok (u64_add (height / epochInterval) 1).

Definition GetEpochNumByHeight {E} s (height : N) : res E N :=
  CalculateEpochNumber height (EpochInterval (ep_params s)).

Definition GetHistoricalEpoch s (epochNumber : N) : res EpErr Epoch :=
  getEpochInfo s epochNumber.

Definition RecordLastHeaderTime s ctx : res EpErr EpochingState :=
  epoch ← GetEpoch s;
  require (IsLastBlock epoch ctx) ErrInvalidHeight;;
  mret (setEpochInfo s (EpochNumber epoch)
    (mkEpoch (EpochNumber epoch) (CurrentEpochInterval epoch) (FirstBlockHeight epoch)
       (Some (hi_Time ctx)) (SealerAppHash epoch) (SealerBlockHash epoch))).

Definition RecordSealerAppHashForPrevEpoch s ctx : res EpErr EpochingState :=
  epoch ← GetEpoch s;
  if negb (IsFirstBlock epoch ctx) then Panic
  else
    match GetHistoricalEpoch s (u64_sub (EpochNumber epoch) 1) with
    | Ok e =>
        Ok (setEpochInfo s (EpochNumber e)
              (mkEpoch (EpochNumber e) (CurrentEpochInterval e) (FirstBlockHeight e)
                 (LastBlockTime e) (hi_AppHash ctx) (SealerBlockHash e)))
    | _ => Panic
    end.

Definition RecordSealerBlockHashForEpoch s ctx : res EpErr EpochingState :=
  epoch ← GetEpoch s;
  if negb (IsLastBlock epoch ctx) then Panic
  else
    Ok (setEpochInfo s (EpochNumber epoch)
          (mkEpoch (EpochNumber epoch) (CurrentEpochInterval epoch) (FirstBlockHeight epoch)
             (LastBlockTime epoch) (SealerAppHash epoch) (hi_Hash ctx))).

Definition IncEpoch s ctx : res EpErr (EpochingState * Epoch) :=
  epoch ← GetEpoch s;
  let incrementedEpochNumber := u64_add (EpochNumber epoch) 1 in
  let newEpoch := NewEpoch incrementedEpochNumber (EpochInterval (ep_params s))
                    (u64_of_Z (hi_Height ctx)) None in
  mret (setEpochInfo s incrementedEpochNumber newEpoch, newEpoch).

(** *** Validator sets: [keeper/epoch_val_set.go] *)

Definition GetValidatorSet s (epochNumber : N) : ValidatorSet :=
  let store := default ∅ (valSetStore s !! epochNumber) in
  NewSortedValidatorSet ((λ kv, mkValidator kv.1 kv.2) <$> bkv_asc store).

Definition setValSet s (epochNumber : N) (store : gmap bytes Z) (totalPower : Z) :=
  mkEpochingState (epochInfoStore s) (<[epochNumber := store]> (valSetStore s))
    (<[epochNumber := totalPower]> (votingPowerStore s)) (msgQueueStore s)
    (msgQueueLengthStore s) (slashedVotingPowerStore s) (slashedValSetStore s) (ep_params s).

(** [powers] is what [stk.IterateLastValidatorPowers] visits. *)
Definition InitValidatorSet s (powers : list (bytes * Z)) : res EpErr EpochingState :=
  epoch ← GetEpoch s;
  let n := EpochNumber epoch in
  let '(store, totalPower) :=
    foldl (λ '(store, totalPower) '(addr, power),
             (<[addr := power]> store, int64 (totalPower + power)))
      (default ∅ (valSetStore s !! n), 0%Z) powers in
  mret (setValSet s n store totalPower).

Definition ClearValidatorSet s (epochNumber : N) : EpochingState :=
  mkEpochingState (epochInfoStore s) (delete epochNumber (valSetStore s))
    (delete epochNumber (votingPowerStore s)) (msgQueueStore s)
    (msgQueueLengthStore s) (slashedVotingPowerStore s) (slashedValSetStore s) (ep_params s).

Definition GetValidatorVotingPower s (epochNumber : N) (valAddr : bytes) : res EpErr Z :=
  of_option ErrUnknownValidator (default ∅ (valSetStore s !! epochNumber) !! valAddr).

Definition GetTotalVotingPower {E} s (epochNumber : N) : res E Z :=
  match votingPowerStore s !! epochNumber with None => Panic | Some p => Ok p end.

(** *** The message queue: [keeper/epoch_msg_queue.go] *)

Definition setQueue s (queues : gmap N (gmap N Msg)) (lengths : gmap N N) : EpochingState :=
  mkEpochingState (epochInfoStore s) (valSetStore s) (votingPowerStore s) queues lengths
    (slashedVotingPowerStore s) (slashedValSetStore s) (ep_params s).

Definition InitMsgQueue s : res EpErr EpochingState :=
  epoch ← GetEpoch s;
  mret (setQueue s (msgQueueStore s) (<[EpochNumber epoch := 0%N]> (msgQueueLengthStore s))).

Definition GetQueueLength s (epochNumber : N) : N :=
  default 0%N (msgQueueLengthStore s !! epochNumber).

Definition GetCurrentQueueLength s : res EpErr N :=
  epoch ← GetEpoch s; mret (GetQueueLength s (EpochNumber epoch)).

Definition incCurrentQueueLength s : res EpErr EpochingState :=
  epoch ← GetEpoch s;
  let queueLen := GetQueueLength s (EpochNumber epoch) in
  mret (setQueue s (msgQueueStore s)
          (<[EpochNumber epoch := u64_add queueLen 1]> (msgQueueLengthStore s))).

Definition EnqueueMsg s (msg : Msg) : res EpErr EpochingState :=
  epoch ← GetEpoch s;
  let n := EpochNumber epoch in
  queueLen ← GetCurrentQueueLength s;
  let store := default ∅ (msgQueueStore s !! n) in
  incCurrentQueueLength
    (setQueue s (<[n := <[queueLen := msg]> store]> (msgQueueStore s)) (msgQueueLengthStore s)).

Definition GetEpochMsgs s (epochNumber : N) : list Msg :=
  (kv_asc (default ∅ (msgQueueStore s !! epochNumber))).*2.

Definition GetCurrentEpochMsgs s : res EpErr (list Msg) :=
  epoch ← GetEpoch s; mret (GetEpochMsgs s (EpochNumber epoch)).

(** [setEpochQueue] of InitGenesis. *)
Definition setEpochQueue s (epochNumber : N) (msgs : list Msg) : EpochingState :=
  let '(store, queueLen) :=
    foldl (λ '(store, queueLen) m, (<[queueLen := m]> store, u64_add queueLen 1))
      (default ∅ (msgQueueStore s !! epochNumber), 0%N) msgs in
  setQueue s (<[epochNumber := store]> (msgQueueStore s))
    (<[epochNumber := queueLen]> (msgQueueLengthStore s)).

(** *** Slashed validators: [keeper/epoch_slashed_val_set.go] *)

Definition setSlashed s (powers : gmap N Z) (sets : gmap N (gmap bytes Z)) : EpochingState :=
  mkEpochingState (epochInfoStore s) (valSetStore s) (votingPowerStore s) (msgQueueStore s)
    (msgQueueLengthStore s) powers sets (ep_params s).

Definition setSlashedVotingPower s (epochNumber : N) (power : Z) : EpochingState :=
  setSlashed s (<[epochNumber := power]> (slashedVotingPowerStore s)) (slashedValSetStore s).

Definition InitSlashedVotingPower s : res EpErr EpochingState :=
  epoch ← GetEpoch s; mret (setSlashedVotingPower s (EpochNumber epoch) 0).

Definition GetSlashedVotingPower {E} s (epochNumber : N) : res E Z :=
  match slashedVotingPowerStore s !! epochNumber with None => Panic | Some p => Ok p end.

Definition AddSlashedValidator s (valAddr : bytes) : res EpErr EpochingState :=
  epoch ← GetEpoch s;
  let n := EpochNumber epoch in
  match GetValidatorVotingPower s n valAddr with
  | Ok thisVotingPower =>
      let store := default ∅ (slashedValSetStore s !! n) in
      let s := setSlashed s (slashedVotingPowerStore s)
                 (<[n := <[valAddr := thisVotingPower]> store]> (slashedValSetStore s)) in
      slashedVotingPower ← GetSlashedVotingPower s n;
      mret (setSlashedVotingPower s n (int64 (slashedVotingPower + thisVotingPower)))
  | _ => Panic
  end.

Definition GetSlashedValidators s (epochNumber : N) : ValidatorSet :=
  (λ kv, mkValidator kv.1 kv.2) <$> bkv_asc (default ∅ (slashedValSetStore s !! epochNumber)).

Definition ClearSlashedValidators s (epochNumber : N) : EpochingState :=
  setSlashed s (delete epochNumber (slashedVotingPowerStore s))
    (delete epochNumber (slashedValSetStore s)).

(** *** Blocks: [abci.go] *)

(** [EpochingHooks] of the other modules; [None] is a panic. *)
Record EpochingHooks := mkEpochingHooks {
  AfterEpochBegins : N → X → option X;
  BeforeEpochEnds : N → X → option X;
  AfterEpochEnds : N → X → option X;
}.

Definition run_hook (r : option X) : res EpErr X :=
  match r with Some x => Ok x | None => Panic end.

(** What the end of an epoch uses of other modules: the funds locked for a
    message ([UnlockFundsForDelegateMsgs] over the bank), its execution by the
    staking module in a cached store ([HandleQueuedMsg]), the validator set
    update of the staking module. *)
Record Staking := mkStaking {
  LastValidatorPowers : X → list (bytes * Z);
  UnlockFundsForDelegateMsgs : Msg → X → option X;
  HandleQueuedMsg : Msg → X → X;
  ApplyAndReturnValidatorSetUpdates : X → X;
}.

Context (hooks : EpochingHooks) (stk : Staking).

Definition BeginBlocker (sx : EpochingState * X) ctx : res EpErr (EpochingState * X) :=
  let '(s, x) := sx in
  epoch ← GetEpoch s;
  '(s, x) ← (if IsFirstBlockOfNextEpoch epoch ctx then
               '(s, incEpoch) ← IncEpoch s ctx;
               s ← RecordSealerAppHashForPrevEpoch s ctx;
               s ← InitMsgQueue s;
               s ← InitSlashedVotingPower s;
               s ← InitValidatorSet s (LastValidatorPowers stk x);
               x ← run_hook (AfterEpochBegins hooks (EpochNumber incEpoch) x);
               mret (s, x)
             else Ok (s, x));
  if IsLastBlock epoch ctx then
    s ← RecordSealerBlockHashForEpoch s ctx;
    mret (s, x)
  else Ok (s, x).

(** One message of the queue: it is skipped when its funds cannot be unlocked;
    a failing message only leaves an event. *)
Definition forwardMsg (x : X) (msg : Msg) : X :=
  match UnlockFundsForDelegateMsgs stk msg x with
  | None => x
  | Some x => HandleQueuedMsg stk msg x
  end.

Definition EndBlocker (sx : EpochingState * X) ctx : res EpErr (EpochingState * X) :=
  let '(s, x) := sx in
  epoch ← GetEpoch s;
  if IsLastBlock epoch ctx then
    x ← run_hook (BeforeEpochEnds hooks (EpochNumber epoch) x);
    s ← RecordLastHeaderTime s ctx;
    queuedMsgs ← GetCurrentEpochMsgs s;
    let x := foldl forwardMsg x queuedMsgs in
    let x := ApplyAndReturnValidatorSetUpdates stk x in
    x ← run_hook (AfterEpochEnds hooks (EpochNumber epoch) x);
    mret (s, x)
  else Ok (s, x).

Definition UpdateParams (authority msgAuthority : string) s (p : Params)
  : res EpErr EpochingState :=
  require (bool_decide (authority = msgAuthority)) ErrInvalidSigner;;
  require (Params_Validate p) ErrInvalidParams;;
  mret (mkEpochingState (epochInfoStore s) (valSetStore s) (votingPowerStore s)
          (msgQueueStore s) (msgQueueLengthStore s) (slashedVotingPowerStore s)
          (slashedValSetStore s) p).
End keeper.
Arguments EpochingState : clear implicits.
Arguments EpochingHooks : clear implicits.
Arguments Staking : clear implicits.

(** ** Epochs and heights *)

(** Block [h] is in epoch [n] when epochs have [i] blocks. *)
Definition in_epoch (i n h : N) : Prop :=
  (h = 0 ∧ n = 0 ∨ 0 < n ∧ (n - 1) * i < h ≤ n * i)%N.

Lemma in_epoch_num i n h :
  (0 < i)%N → (h < 2 ^ 64)%N →
  in_epoch i n h → @CalculateEpochNumber EpErr h i = Ok n.
Proof.
  intros Hi Hh [[-> ->]|[Hn [H1 H2]]]; [done|]. unfold CalculateEpochNumber.
  destruct (N.eqb_spec h 0); [lia|]. destruct (N.eqb_spec i 0); [lia|].
  rewrite u64_sub_small by lia. f_equal.
  assert ((h - 1) / i = n - 1)%N as ->.
  { symmetry. apply (N.div_unique _ _ _ (h - 1 - (n - 1) * i)); nia. }
  rewrite u64_add_small; nia.
Qed.

Lemma in_epoch_succ i n h :
  (2 ≤ i)%N → in_epoch i n h →
  (h = n * i → in_epoch i (n + 1) (h + 1))%N ∧ (h ≠ n * i → in_epoch i n (h + 1))%N.
Proof. unfold in_epoch. intros Hi [[-> ->]|[Hn [H1 H2]]]; split; intros; nia. Qed.

Section epochs.
Context {Msg X : Type} (hooks : EpochingHooks X) (stk : Staking Msg X).
Implicit Types (s : EpochingState Msg) (x : X).

Lemma GetEpoch_max {E} s n e :
  epochInfoStore s !! n = Some e →
  (∀ k e', epochInfoStore s !! k = Some e' → (k ≤ n)%N) → @GetEpoch Msg E s = Ok e.
Proof.
  intros Hn Hmax. unfold GetEpoch.
  by destruct (kv_desc_head _ _ _ Hn Hmax) as [l ->].
Qed.

(** The metadata of epoch [k]. *)
Definition epoch_ok (i k : N) (e : Epoch) : Prop :=
  EpochNumber e = k ∧
  (k ≠ 0 → CurrentEpochInterval e = i ∧ FirstBlockHeight e = (k - 1) * i + 1)%N.

(** After block [h]: the epochs up to that of [h] are stored, and no other. *)
Record epochs_at (i n : N) s : Prop := {
  ea_params : EpochInterval (ep_params s) = i;
  ea_stored k : (k ≤ n)%N → is_Some (epochInfoStore s !! k);
  ea_max k e : epochInfoStore s !! k = Some e → (k ≤ n)%N;
  ea_ok k e : epochInfoStore s !! k = Some e → epoch_ok i k e;
}.

Lemma epochs_at_current {E} i n s :
  epochs_at i n s → ∃ e, epochInfoStore s !! n = Some e ∧ @GetEpoch Msg E s = Ok e ∧ epoch_ok i n e.
Proof.
  intros [_ Hst Hmax Hok]. destruct (Hst n) as [e He]; [done|].
  exists e. split_and!; [done| |by apply Hok]. eapply GetEpoch_max; [done|]. naive_solver.
Qed.

(** Rewriting the metadata of a stored epoch. *)
Lemma epochs_at_set i n s k e :
  epochs_at i n s → (k ≤ n)%N → epoch_ok i k e → epochs_at i n (setEpochInfo s k e).
Proof.
  intros [Hp Hst Hmax Hok] Hk He. split; simpl; [done|..].
  - intros k' Hk'. destruct (decide (k = k')) as [->|]; [by rewrite lookup_insert_eq|].
    rewrite lookup_insert_ne by done. by apply Hst.
  - intros k' e' [[<- <-]|[_ ?]]%lookup_insert_Some; [done|by eapply Hmax].
  - intros k' e' [[<- <-]|[_ ?]]%lookup_insert_Some; [done|by eapply Hok].
Qed.

Lemma epochs_at_inc i n s e :
  epochs_at i n s → epoch_ok i (n + 1) e → epochs_at i (n + 1) (setEpochInfo s (n + 1) e).
Proof.
  intros [Hp Hst Hmax Hok] He. split; simpl; [done|..].
  - intros k' Hk'. destruct (decide (n + 1 = k')%N) as [->|]; [by rewrite lookup_insert_eq|].
    rewrite lookup_insert_ne by done. apply Hst. lia.
  - intros k' e' [[<- <-]|[_ H]]%lookup_insert_Some; [done|]. apply Hmax in H. lia.
  - intros k' e' [[<- <-]|[_ ?]]%lookup_insert_Some; [done|by eapply Hok].
Qed.

(** The other stores do not matter. *)
Lemma epochs_at_eq i n s s' :
  epochs_at i n s → epochInfoStore s' = epochInfoStore s → ep_params s' = ep_params s →
  epochs_at i n s'.
Proof. intros [] Hs Hp. split; rewrite ?Hs, ?Hp; done. Qed.

Lemma epoch_ok_last i n e :
  epoch_ok i n e → n ≠ 0%N → (2 ≤ i)%N → (n * i + 1 < 2 ^ 64)%N → GetLastBlockHeight e = (n * i)%N.
Proof.
  intros [Hn Hf] Hne Hi Hb. destruct (Hf Hne) as [Hint Hfst]. unfold GetLastBlockHeight.
  rewrite Hn, Hint, Hfst. destruct (N.eqb_spec n 0); [done|].
  rewrite u64_add_small by nia. rewrite u64_sub_small; nia.
Qed.

Lemma epoch_ok_boundary i n e ctx h :
  epoch_ok i n e → (2 ≤ i)%N → in_epoch i n h → (h + i + 1 < 2 ^ 64)%N →
  hi_Height ctx = Z.of_N (h + 1) →
  IsFirstBlockOfNextEpoch e ctx = bool_decide (h = n * i)%N ∧
  IsLastBlock e ctx = bool_decide (h + 1 = n * i)%N.
Proof.
  intros Hok Hi Hin Hb Hh. unfold IsFirstBlockOfNextEpoch, IsLastBlock.
  rewrite Hh, u64_of_Z_small by lia. pose proof Hok as [Hn Hf].
  destruct (decide (n = 0)%N) as [->|Hne].
  - unfold GetLastBlockHeight. rewrite Hn. simpl.
    destruct Hin as [[-> _]|[? _]]; [|done]. split; [done|].
    by rewrite bool_decide_eq_false_2 by lia.
  - destruct (Hf Hne) as [Hint Hfst].
    assert (n * i < 2 ^ 64)%N by (destruct Hin as [[_ ?]|[_ ?]]; [done|nia]).
    rewrite (epoch_ok_last i n) by (done || (destruct Hin as [[_ ?]|[_ ?]]; [done|nia])).
    rewrite Hn, Hint, Hfst. destruct (N.eqb_spec n 0); [done|].
    rewrite u64_add_small by (destruct Hin as [[_ ?]|[_ ?]]; [done|nia]).
    split; apply eq_iff_eq_true; rewrite N.eqb_eq, bool_decide_eq_true; nia.
Qed.

Lemma InitMsgQueue_at i n s :
  epochs_at i n s → ∃ s', InitMsgQueue s = Ok s' ∧ epochs_at i n s'.
Proof.
  intros Hs. unfold InitMsgQueue. destruct (epochs_at_current (E := EpErr) _ _ _ Hs) as (e & _ & -> & _).
  eexists. split; [done|]. by eapply epochs_at_eq.
Qed.
Lemma InitSlashedVotingPower_at i n s :
  epochs_at i n s → ∃ s', InitSlashedVotingPower s = Ok s' ∧ epochs_at i n s'.
Proof.
  intros Hs. unfold InitSlashedVotingPower.
  destruct (epochs_at_current (E := EpErr) _ _ _ Hs) as (e & _ & -> & _).
  eexists. split; [done|]. by eapply epochs_at_eq.
Qed.
Lemma InitValidatorSet_at i n s powers :
  epochs_at i n s → ∃ s', InitValidatorSet s powers = Ok s' ∧ epochs_at i n s'.
Proof.
  intros Hs. unfold InitValidatorSet.
  destruct (epochs_at_current (E := EpErr) _ _ _ Hs) as (e & _ & -> & _). simpl.
  destruct (foldl _ _ powers) as [store total]. eexists. split; [done|].
  by eapply epochs_at_eq.
Qed.

(** A new epoch begins at block [h + 1 = n * i + 1]. *)
Lemma IncEpoch_at i n s ctx :
  epochs_at i n s → (2 ≤ i)%N → (n + 1 < 2 ^ 64)%N → (n * i + 1 < 2 ^ 64)%N →
  hi_Height ctx = Z.of_N (n * i + 1) →
  ∃ s' e', IncEpoch s ctx = Ok (s', e') ∧ epochs_at i (n + 1) s' ∧ EpochNumber e' = (n + 1)%N ∧
    IsFirstBlock e' ctx = true ∧ @GetEpoch Msg EpErr s' = Ok e'.
Proof.
  intros Hs Hi Hn Hb Hh. unfold IncEpoch.
  destruct (epochs_at_current (E := EpErr) _ _ _ Hs) as (e & _ & -> & [He _]). simpl.
  rewrite He, u64_add_small, Hh, u64_of_Z_small by done.
  rewrite (ea_params _ _ _ Hs).
  set (e' := NewEpoch (n + 1) i (n * i + 1) None).
  assert (epochs_at i (n + 1) (setEpochInfo s (n + 1) e')) as Hs'.
  { apply epochs_at_inc; [done|]. split; [done|]. simpl. intros _. split; [done|]. nia. }
  exists (setEpochInfo s (n + 1) e'), e'. split_and!; [done..| |].
  - unfold IsFirstBlock. simpl. rewrite Hh, u64_of_Z_small by done. apply N.eqb_refl.
  - eapply (GetEpoch_max _ (n + 1)); [apply lookup_insert_eq|].
    intros k e1. apply (ea_max _ _ _ Hs').
Qed.

Lemma RecordSealerAppHash_at i n s e ctx :
  epochs_at i (n + 1) s → (n + 1 < 2 ^ 64)%N → @GetEpoch Msg EpErr s = Ok e →
  EpochNumber e = (n + 1)%N → IsFirstBlock e ctx = true →
  ∃ s', RecordSealerAppHashForPrevEpoch s ctx = Ok s' ∧ epochs_at i (n + 1) s'.
Proof.
  intros Hs Hn He Hnum Hf. unfold RecordSealerAppHashForPrevEpoch. rewrite He. simpl.
  rewrite Hf. simpl. rewrite Hnum, u64_sub_small by lia.
  replace (n + 1 - 1)%N with n by lia.
  destruct (ea_stored _ _ _ Hs n) as [e0 He0]; [lia|].
  unfold GetHistoricalEpoch, getEpochInfo. rewrite He0. simpl.
  pose proof (ea_ok _ _ _ Hs _ _ He0) as [Hk Hok].
  eexists. split; [done|]. apply epochs_at_set; [done|lia|]. by rewrite Hk.
Qed.

(** No hook panics. *)
Definition hooks_total (hooks : EpochingHooks X) : Prop := ∀ n x,
  is_Some (AfterEpochBegins hooks n x) ∧ is_Some (BeforeEpochEnds hooks n x) ∧
  is_Some (AfterEpochEnds hooks n x).

Lemma BeginBlocker_at i n h s x ctx :
  hooks_total hooks → epochs_at i n s → in_epoch i n h → (2 ≤ i)%N → (h + i + 2 < 2 ^ 64)%N →
  hi_Height ctx = Z.of_N (h + 1) →
  ∃ s' x' n', BeginBlocker hooks stk (s, x) ctx = Ok (s', x') ∧ epochs_at i n' s' ∧
    in_epoch i n' (h + 1).
Proof.
  intros Hht Hs Hin Hi Hb Hh. unfold BeginBlocker.
  destruct (epochs_at_current (E := EpErr) _ _ _ Hs) as (e & Hlk & -> & Hok).
  destruct (epoch_ok_boundary _ _ _ ctx h Hok Hi Hin) as [Hfst Hlast]; [lia|done|].
  destruct (in_epoch_succ i n h Hi Hin) as [Hsucc1 Hsucc2]. simpl. rewrite Hfst, Hlast.
  destruct (bool_decide_reflect (h = n * i)%N) as [Heq|Hne].
  - assert (n ≤ h)%N by nia. rewrite (bool_decide_eq_false_2 (h + 1 = n * i)%N) by lia.
    destruct (IncEpoch_at i n s ctx) as (s1 & e1 & -> & H1 & Hn1 & Hf1 & Hg1);
      [done|done|lia|lia|by rewrite Hh, Heq|]. simpl.
    destruct (RecordSealerAppHash_at i n s1 e1 ctx) as (s2 & -> & H2); [done|lia|done..|]. simpl.
    destruct (InitMsgQueue_at _ _ _ H2) as (s3 & -> & H3). simpl.
    destruct (InitSlashedVotingPower_at _ _ _ H3) as (s4 & -> & H4). simpl.
    destruct (InitValidatorSet_at _ _ _ (LastValidatorPowers stk x) H4) as (s5 & -> & H5). simpl.
    destruct (Hht (EpochNumber e1) x) as [[x' ->] _]. simpl.
    eexists _, _, (n + 1)%N. split_and!; [done|done|by apply Hsucc1].
  - simpl. destruct (bool_decide_reflect (h + 1 = n * i)%N) as [Hl|Hl].
    + unfold RecordSealerBlockHashForEpoch.
      destruct (epochs_at_current (E := EpErr) _ _ _ Hs) as (e' & Hlk' & -> & _). simplify_eq.
      simpl. rewrite Hlast. simpl.
      eexists _, _, n. split_and!; [done| |by apply Hsucc2].
      destruct Hok as [Hk Hok]. apply epochs_at_set; [done|lia|]. by rewrite Hk.
    + eexists _, _, n. split_and!; [done|done|by apply Hsucc2].
Qed.

Lemma EndBlocker_at i n s x ctx :
  hooks_total hooks → epochs_at i n s →
  ∃ s' x', EndBlocker hooks stk (s, x) ctx = Ok (s', x') ∧ epochs_at i n s'.
Proof.
  intros Hht Hs. unfold EndBlocker.
  destruct (epochs_at_current (E := EpErr) _ _ _ Hs) as (e & Hlk & He & [Hk Hok]).
  rewrite He. simpl. destruct (IsLastBlock e ctx) eqn:Hl; [|by eexists _, _].
  destruct (Hht (EpochNumber e) x) as (_ & [x1 ->] & _). simpl.
  unfold RecordLastHeaderTime. rewrite He. simpl. rewrite Hl. simpl.
  set (s1 := setEpochInfo s _ _).
  assert (epochs_at i n s1) as H1 by (apply epochs_at_set; [done|lia|by rewrite Hk]).
  unfold GetCurrentEpochMsgs.
  destruct (epochs_at_current (E := EpErr) _ _ _ H1) as (e1 & _ & -> & _). simpl.
  destruct (Hht (EpochNumber e) (ApplyAndReturnValidatorSetUpdates stk
    (foldl (forwardMsg stk) x1 (GetEpochMsgs s1 (EpochNumber e1))))) as (_ & _ & [x2 ->]). simpl. eauto.
Qed.
End epochs.

Section runs.
Context {Msg X : Type} (hooks : EpochingHooks X) (stk : Staking Msg X).
Implicit Types (s : EpochingState Msg) (x : X).

(** A block without transactions, and a list of such blocks. *)
Definition run_block (sx : EpochingState Msg * X) (ctx : HeaderInfo) :=
  sx' ← BeginBlocker hooks stk sx ctx; EndBlocker hooks stk sx' ctx.
Definition run_blocks := fold_res run_block.

Lemma genesis_epochs s0 s1 genesis :
  epochInfoStore s0 = ∅ → hi_Height genesis = 0%Z → InitEpoch s0 genesis [] = Ok s1 →
  epochs_at (EpochInterval (ep_params s0)) 0 s1.
Proof.
  intros Hs0 Hg H1. unfold InitEpoch in H1. simpl in H1.
  rewrite Hg in H1. simpl in H1. injection H1 as <-.
  split; simpl; [done|..]; rewrite Hs0.
  - intros k Hk. replace k with 0%N by lia. rewrite lookup_insert_eq. done.
  - intros k e [[<- _]|[_ ?]]%lookup_insert_Some; done.
  - intros k e [[<- <-]|[_ ?]]%lookup_insert_Some; done.
Qed.

Lemma run_blocks_at i s1 x headers :
  hooks_total hooks → epochs_at i 0 s1 → (2 ≤ i)%N → (N.of_nat (length headers) + i + 2 < 2 ^ 64)%N →
  (∀ k ctx, headers !! k = Some ctx → hi_Height ctx = Z.of_nat (S k)) →
  ∃ s x' n, run_blocks (s1, x) headers = Ok (s, x') ∧ epochs_at i n s ∧
    in_epoch i n (N.of_nat (length headers)).
Proof.
  intros Hht H1 Hi Hb Hh. induction headers as [|ctx headers IH] using rev_ind.
  { exists s1, x, 0%N. split_and!; [done|done|by left]. }
  rewrite length_app in *. cbn [length] in *.
  destruct IH as (s & x1 & n & Hr & Hs & Hin); [lia| |].
  { intros k ctx' Hk. apply Hh. by apply lookup_app_l_Some. }
  unfold run_blocks in *. rewrite fold_res_app, Hr. cbn [fold_res mbind res_bind].
  unfold run_block at 1.
  destruct (BeginBlocker_at hooks stk i n (N.of_nat (length headers)) s x1 ctx)
    as (s2 & x2 & n' & -> & Hs' & Hin'); [done|done|done|done|lia| |].
  { rewrite (Hh (length headers) ctx) by (by apply list_lookup_middle). lia. }
  cbn [mbind res_bind].
  destruct (EndBlocker_at hooks stk i n' s2 x2 ctx Hht Hs') as (s3 & x3 & -> & Hs3).
  exists s3, x3, n'. split_and!; [done|done|].
  by replace (N.of_nat (length headers + 1)) with (N.of_nat (length headers) + 1)%N by lia.
Qed.

End runs.

(** ** Validator sets *)

Lemma val_lt_addr v w : val_lt v w → Addr v ≠ Addr w.
Proof. unfold val_lt. intros H E. rewrite E in H. by apply bytes_lt_irrefl in H. Qed.

Lemma binarySearch_loop_spec fuel vs target lo hi :
  StronglySorted val_lt vs → (0 ≤ lo)%Z → (hi < Z.of_nat (length vs))%Z →
  (hi - lo + 1 < Z.of_nat fuel)%Z →
  match binarySearch_loop fuel vs target lo hi with
  | Some i => ∃ v, vs !! i = Some v ∧ Addr v = target
  | None => ∀ j v, (lo ≤ Z.of_nat j ≤ hi)%Z → vs !! j = Some v → Addr v ≠ target
  end.
Proof.
  intros Hs. revert lo hi. induction fuel as [|fuel IH]; intros lo hi Hlo Hhi Hf.
  { simpl. intros j v Hj. lia. }
  cbn [binarySearch_loop]. destruct (Z.leb_spec lo hi) as [Hle|Hgt].
  2: { intros j v Hj. lia. }
  set (mid := (lo + Z.quot (hi - lo) 2)%Z).
  assert (lo ≤ mid ≤ hi)%Z as Hmid 
    by (pose proof (Z.quot_pos (hi - lo) 2); pose proof (Z.quot_le_upper_bound (hi - lo) 2 (hi - lo));
        unfold mid; lia).
  destruct (lookup_lt_is_Some_2 vs (Z.to_nat mid)) as [v Hv]; [lia|]. rewrite Hv.
  destruct (bytes_Compare (Addr v) target) eqn:Hc.
  - exists v. split; [done|]. by apply bytes_Compare_eq.
  - specialize (IH (mid + 1)%Z hi ltac:(lia) ltac:(lia) ltac:(lia)).
    destruct (binarySearch_loop _ _ _ _ _); [done|]. intros j w Hj Hw.
    destruct (decide (Z.of_nat j ≤ mid)%Z); [|apply (IH j w); [lia|done]].
    intros <-. destruct (decide (j = Z.to_nat mid)) as [->|].
    { simplify_eq. by rewrite bytes_Compare_refl in Hc. }
    assert (val_lt w v) as Hlt by (eapply StronglySorted_lookup; [done..|lia]).
    apply (bytes_lt_irrefl (Addr v)). by etrans.
  - specialize (IH lo (mid - 1)%Z ltac:(lia) ltac:(lia) ltac:(lia)).
    destruct (binarySearch_loop _ _ _ _ _); [done|]. intros j w Hj Hw.
    destruct (decide (mid ≤ Z.of_nat j)%Z); [|apply (IH j w); [lia|done]].
    intros <-. destruct (decide (j = Z.to_nat mid)) as [->|].
    { simplify_eq. by rewrite bytes_Compare_refl in Hc. }
    assert (val_lt v w) as Hlt by (eapply StronglySorted_lookup; [done..|lia]).
    unfold val_lt, bytes_lt in Hlt. congruence.
Qed.

Lemma FindValidatorWithIndex_spec vs addr :
  StronglySorted val_lt vs →
  (∀ v i, FindValidatorWithIndex vs addr = Ok (v, i) ↔ vs !! i = Some v ∧ Addr v = addr) ∧
  (FindValidatorWithIndex vs addr = Err ErrValidatorNotFound ↔ ∀ v, v ∈ vs → Addr v ≠ addr) ∧
  FindValidatorWithIndex vs addr ≠ Panic.
Proof.
  intros Hs. unfold FindValidatorWithIndex, binarySearch.
  pose proof (binarySearch_loop_spec (S (length vs)) vs addr 0 (Z.of_nat (length vs) - 1) Hs
    ltac:(lia) ltac:(lia) ltac:(lia)) as H.
  destruct (binarySearch_loop _ _ _ _ _) as [i|].
  - destruct H as (v & Hv & <-). rewrite Hv. split_and!; [|split; [done|]|done].
    + intros w j. split; [naive_solver|]. intros [Hw Ha].
      destruct (Nat.lt_total i j) as [Hlt|[->|Hlt]]; [|by simplify_eq|].
      * assert (val_lt v w) as []%val_lt_addr by (by eapply StronglySorted_lookup). done.
      * assert (val_lt w v) as []%val_lt_addr by (by eapply StronglySorted_lookup). done.
    + intros Hno. by destruct (Hno v (list_elem_of_lookup_2 _ _ _ Hv)).
  - split_and!; [|split; [|done]|done].
    + intros v i. split; [done|]. intros [Hv Ha]. pose proof (lookup_lt_Some _ _ _ Hv).
      destruct (H i v); [lia|done|done].
    + intros _ v [i Hi]%list_elem_of_lookup_1. pose proof (lookup_lt_Some _ _ _ Hi).
      apply (H i v); [lia|done].
Qed.

#[global] Instance val_le_total : Total val_le.
Proof. intros v w. apply (total bytes_le). Qed.
#[global] Instance val_le_trans : Transitive val_le.
Proof. intros u v w. unfold val_le. apply transitivity. Qed.

Lemma NewSortedValidatorSet_sorted vals :
  NoDup (Addr <$> vals) → StronglySorted val_lt (NewSortedValidatorSet vals).
Proof.
  intros Hn. unfold NewSortedValidatorSet.
  assert (StronglySorted val_le (merge_sort val_le vals)) as Hs
    by (apply StronglySorted_merge_sort; apply _).
  assert (NoDup (Addr <$> merge_sort val_le vals)) as Hn'
    by (by rewrite merge_sort_Permutation).
  induction (merge_sort val_le vals) as [|v l IH]; [constructor|].
  apply StronglySorted_cons in Hs as [Hv Hs]. apply NoDup_cons in Hn' as [Hnv Hn'].
  apply StronglySorted_cons. split; [|by auto].
  rewrite Forall_forall in Hv |- *. intros w Hw. specialize (Hv w Hw).
  apply bytes_le_lt_eq in Hv as [Hv|Heq]; [done|].
  destruct Hnv. rewrite Heq. by apply list_elem_of_fmap_2.
Qed.

Section valsets.
Context {Msg : Type}.
Implicit Types s : EpochingState Msg.

Lemma GetValidatorSet_sorted s n : StronglySorted val_lt (GetValidatorSet s n).
Proof.
  apply NewSortedValidatorSet_sorted. rewrite <- list_fmap_compose.
  rewrite bkv_asc_perm. apply NoDup_fst_map_to_list.
Qed.

Lemma elem_of_GetValidatorSet s n v :
  v ∈ GetValidatorSet s n ↔ default ∅ (valSetStore s !! n) !! Addr v = Some (Power v).
Proof.
  unfold GetValidatorSet, NewSortedValidatorSet. rewrite merge_sort_Permutation.
  rewrite list_elem_of_fmap. setoid_rewrite <- elem_of_bkv_asc. split.
  - intros ([a p] & -> & H). done.
  - intros H. exists (Addr v, Power v). by destruct v.
Qed.

(** The validator set of an epoch as other modules search it (sorted list,
    binary search) and as it is stored (address to power) are the same: an
    address is found exactly with its stored power, it is reported missing
    exactly when it is not stored, and the search never runs out of bounds. *)
Theorem validator_search_is_lookup s n addr :
  (∀ p, (∃ i, FindValidatorWithIndex (GetValidatorSet s n) addr = Ok (mkValidator addr p, i)) ↔
        GetValidatorVotingPower s n addr = Ok p) ∧
  (FindValidatorWithIndex (GetValidatorSet s n) addr = Err ErrValidatorNotFound ↔
   GetValidatorVotingPower s n addr = Err ErrUnknownValidator) ∧
  FindValidatorWithIndex (GetValidatorSet s n) addr ≠ Panic.
Proof.
  destruct (FindValidatorWithIndex_spec _ addr (GetValidatorSet_sorted s n)) as (Hok & Herr & Hp).
  unfold GetValidatorVotingPower. split_and!; [|rewrite Herr|done].
  - intros p. rewrite of_option_Ok. setoid_rewrite Hok. split.
    + intros (i & Hi & _). by apply list_elem_of_lookup_2, elem_of_GetValidatorSet in Hi.
    + intros H. assert (mkValidator addr p ∈ GetValidatorSet s n) as [i Hi]%list_elem_of_lookup_1
        by (by apply elem_of_GetValidatorSet). eauto.
  - destruct (default ∅ _ !! addr) as [p|] eqn:Hl; simpl.
    + split; [|done]. intros Hno. destruct (Hno (mkValidator addr p)); [|done].
      by apply elem_of_GetValidatorSet.
    + split; [done|]. intros _ v Hv%elem_of_GetValidatorSet Ha. congruence.
Qed.

(** *** Total power *)

Definition sum_power (l : list Z) : Z := foldr Z.add 0%Z l.

Lemma sum_power_perm l1 l2 : l1 ≡ₚ l2 → sum_power l1 = sum_power l2.
Proof. induction 1; simpl in *; lia. Qed.

Lemma sum_power_nonneg l : Forall (λ p, 0 ≤ p)%Z l → (0 ≤ sum_power l)%Z.
Proof. unfold sum_power. induction 1; simpl; lia. Qed.

Lemma valset_fold (powers : list (bytes * Z)) (store : gmap bytes Z) (total : Z) :
  NoDup powers.*1 → (∀ a, a ∈ powers.*1 → store !! a = None) →
  Forall (λ kv, 0 ≤ kv.2)%Z powers → (0 ≤ total)%Z → (total + sum_power powers.*2 < 2 ^ 63)%Z →
  let r := foldl (λ '(store, totalPower) '(addr, power),
             (<[addr := power]> store, int64 (totalPower + power))) (store, total) powers in
  r.2 = (total + sum_power powers.*2)%Z ∧ map_to_list r.1 ≡ₚ powers ++ map_to_list store.
Proof.
  revert store total. induction powers as [|[a p] powers IH]; intros store total Hn Hfresh Hpos Ht Hb.
  { simpl. split; [lia|done]. }
  cbn [fmap list_fmap fst snd] in *. apply NoDup_cons in Hn as [Ha Hn].
  apply Forall_cons in Hpos as [Hp Hpos]. cbn [sum_power foldr] in Hb. fold (sum_power powers.*2) in Hb.
  assert (0 ≤ sum_power powers.*2)%Z.
  { apply sum_power_nonneg, Forall_fmap. done. }
  simpl in Hp. cbn [foldl]. rewrite int64_small by lia.
  destruct (IH (<[a := p]> store) (total + p)%Z) as [H1 H2]; [done| |done|lia|lia|].
  { intros b Hb'. rewrite lookup_insert_ne by (intros ->; done). apply Hfresh. by right. }
  split; [rewrite H1; cbn [sum_power foldr]; fold (sum_power powers.*2); lia|].
  rewrite H2, map_to_list_insert by (apply Hfresh; by left).
  symmetry. apply Permutation_middle.
Qed.

(** The total voting power recorded for an epoch is the sum of the powers in
    its validator set, and the set is what the staking module reported. *)
Theorem total_power_is_sum s s' e (powers : list (bytes * Z)) :
  @GetEpoch Msg EpErr s = Ok e → valSetStore s !! EpochNumber e = None →
  NoDup powers.*1 → Forall (λ kv, 0 ≤ kv.2)%Z powers → (sum_power powers.*2 < 2 ^ 63)%Z →
  InitValidatorSet s powers = Ok s' →
  let vs := GetValidatorSet s' (EpochNumber e) in
  @GetTotalVotingPower Msg EpErr s' (EpochNumber e) = Ok (sum_power (Power <$> vs)) ∧
  vs ≡ₚ (λ kv, mkValidator kv.1 kv.2) <$> powers.
Proof.
  intros He Hfresh Hn Hpos Hb Hi vs. unfold InitValidatorSet in Hi. rewrite He in Hi.
  cbn -[foldl] in Hi. rewrite Hfresh in Hi. cbn -[foldl] in Hi.
  destruct (valset_fold powers ∅ 0 Hn) as [H1 H2]; [by intros; apply lookup_empty|done|lia|lia|].
  destruct (foldl _ _ powers) as [store total]. simpl in H1, H2. injection Hi as <-.
  rewrite map_to_list_empty, app_nil_r in H2.
  assert (vs ≡ₚ (λ kv, mkValidator kv.1 kv.2) <$> powers) as Hvs.
  { unfold vs, GetValidatorSet, NewSortedValidatorSet. simpl.
    rewrite lookup_insert_eq, merge_sort_Permutation. simpl. by rewrite bkv_asc_perm, H2. }
  split; [|done]. unfold GetTotalVotingPower. simpl. rewrite lookup_insert_eq. f_equal.
  rewrite H1. rewrite (sum_power_perm (Power <$> vs) powers.*2); [lia|].
  rewrite Hvs, <- list_fmap_compose. done.
Qed.
End valsets.

(** ** The message queue *)

Section queue.
Context {Msg X : Type} (hooks : EpochingHooks X) (stk : Staking Msg X).
Implicit Types (s : EpochingState Msg) (msgs : list Msg).

Definition indexed msgs : list (N * Msg) := imap (λ i m, (N.of_nat i, m)) msgs.

Lemma indexed_snoc msgs m : indexed (msgs ++ [m]) = indexed msgs ++ [(N.of_nat (length msgs), m)].
Proof. unfold indexed. rewrite imap_app. simpl. by rewrite Nat.add_0_r. Qed.

Lemma indexed_key_lt msgs kv : kv ∈ indexed msgs → (kv.1 < N.of_nat (length msgs))%N.
Proof.
  intros [i Hi]%list_elem_of_lookup_1. unfold indexed in Hi.
  apply list_lookup_imap_Some in Hi as (m & Hm & ->). apply lookup_lt_Some in Hm. simpl. lia.
Qed.

Lemma indexed_sorted msgs : StronglySorted kv_lt (indexed msgs).
Proof.
  induction msgs as [|m msgs IH] using rev_ind; [constructor|]. rewrite indexed_snoc.
  apply StronglySorted_app_2; [|done|repeat constructor].
  intros x y Hx%indexed_key_lt ->%list_elem_of_singleton. done.
Qed.

Lemma indexed_snd msgs : (indexed msgs).*2 = msgs.
Proof.
  induction msgs as [|m msgs IH] using rev_ind; [done|].
  by rewrite indexed_snoc, fmap_app, IH.
Qed.

(** The queue of epoch [n] holds [msgs]. *)
Record queue_holds s (n : N) msgs : Prop := {
  qh_store : default ∅ (msgQueueStore s !! n) = list_to_map (indexed msgs);
  qh_length : GetQueueLength s n = N.of_nat (length msgs);
}.

Lemma queue_msgs s n msgs : queue_holds s n msgs → GetEpochMsgs s n = msgs.
Proof.
  intros [Hs _]. unfold GetEpochMsgs. rewrite Hs, kv_asc_list_to_map by apply indexed_sorted.
  apply indexed_snd.
Qed.

Lemma EnqueueMsg_holds s e msgs m :
  (∀ s', epochInfoStore s' = epochInfoStore s → @GetEpoch Msg EpErr s' = Ok e) →
  queue_holds s (EpochNumber e) msgs → (N.of_nat (length msgs) + 1 < 2 ^ 64)%N →
  ∃ s', EnqueueMsg s m = Ok s' ∧ queue_holds s' (EpochNumber e) (msgs ++ [m]) ∧
    epochInfoStore s' = epochInfoStore s ∧ ep_params s' = ep_params s ∧
    ∀ n, n ≠ EpochNumber e → msgQueueStore s' !! n = msgQueueStore s !! n.
Proof.
  intros Hge [Hs Hl] Hb. unfold EnqueueMsg, GetCurrentQueueLength, incCurrentQueueLength.
  rewrite (Hge s) by done. simpl. rewrite Hl, Hs, Hge by done. simpl.
  unfold GetQueueLength in *. simpl. rewrite Hl, u64_add_small by lia.
  eexists. split; [done|]. split_and!; [|done|done|].
  - split; simpl.
    + rewrite lookup_insert_eq. simpl. rewrite indexed_snoc. symmetry. apply list_to_map_snoc.
      intros ([k v] & Hk & Hin)%list_elem_of_fmap. apply indexed_key_lt in Hin. simpl in *. lia.
    + unfold GetQueueLength. simpl. rewrite lookup_insert_eq, length_app. simpl. lia.
  - intros n Hn. simpl. by rewrite lookup_insert_ne.
Qed.

Lemma EnqueueMsgs_holds s e msgs new :
  (∀ s', epochInfoStore s' = epochInfoStore s → @GetEpoch Msg EpErr s' = Ok e) →
  queue_holds s (EpochNumber e) msgs → (N.of_nat (length (msgs ++ new)) < 2 ^ 64)%N →
  ∃ s', fold_res EnqueueMsg s new = Ok s' ∧ queue_holds s' (EpochNumber e) (msgs ++ new) ∧
    epochInfoStore s' = epochInfoStore s ∧ ep_params s' = ep_params s ∧
    ∀ n, n ≠ EpochNumber e → msgQueueStore s' !! n = msgQueueStore s !! n.
Proof.
  revert s msgs. induction new as [|m new IH]; intros s msgs Hge Hq Hb.
  { exists s. by rewrite app_nil_r. }
  rewrite length_app in Hb. simpl in Hb.
  destruct (EnqueueMsg_holds s e msgs m Hge Hq) as (s1 & H1 & Hq1 & He1 & Hp1 & Ho1); [lia|].
  destruct (IH s1 (msgs ++ [m])) as (s2 & H2 & Hq2 & He2 & Hp2 & Ho2);
    [intros s' Hs'; apply Hge; congruence|done|rewrite !length_app; simpl; lia|].
  exists s2. simpl. rewrite H1. simpl. rewrite cons_middle, app_assoc.
  split_and!; [done|done|congruence|congruence|].
  intros n Hn. rewrite Ho2, Ho1 by done. done.
Qed.

(** Messages queued during an epoch are executed at its end, each exactly
    once and in the order in which they were queued; the queues of other epochs
    are not touched. *)
Theorem queue_is_fifo s i n e msgs x ctx :
  epochs_at i n s → @GetEpoch Msg EpErr s = Ok e → msgQueueStore s !! n = None →
  (N.of_nat (length msgs) < 2 ^ 64)%N → IsLastBlock e ctx = true →
  ∃ s1 s2 s3, InitMsgQueue s = Ok s1 ∧ fold_res EnqueueMsg s1 msgs = Ok s2 ∧
    GetCurrentEpochMsgs s2 = Ok msgs ∧
    (∀ n', n' ≠ n → GetEpochMsgs s2 n' = GetEpochMsgs s n') ∧
    ∀ x1 x2, BeforeEpochEnds hooks n x = Some x1 →
      AfterEpochEnds hooks n (ApplyAndReturnValidatorSetUpdates stk (foldl (forwardMsg stk) x1 msgs)) =
        Some x2 → EndBlocker hooks stk (s2, x) ctx = Ok (s3, x2).
Proof.
  intros Hs He Hfresh Hb Hlast.
  destruct (epochs_at_current (E := EpErr) _ _ _ Hs) as (e' & Hlk & He' & [Hk Hok]).
  assert (e' = e) as -> by congruence. subst n.
  set (s1 := setQueue s (msgQueueStore s) (<[EpochNumber e := 0%N]> (msgQueueLengthStore s))).
  assert (∀ s', epochInfoStore s' = epochInfoStore s1 → @GetEpoch Msg EpErr s' = Ok e) as Hge.
  { intros s' Hs'. unfold GetEpoch in *. by rewrite Hs'. }
  destruct (EnqueueMsgs_holds s1 e [] msgs Hge) as (s2 & H2 & Hq & Hei & Hep & Hother).
  { split; simpl; [by rewrite Hfresh|]. unfold GetQueueLength. simpl. by rewrite lookup_insert_eq. }
  { done. }
  assert (epochs_at i (EpochNumber e) s2) as Hs2 by (by eapply epochs_at_eq).
  set (s3 := setEpochInfo s2 (EpochNumber e) (mkEpoch (EpochNumber e) (CurrentEpochInterval e)
    (FirstBlockHeight e) (Some (hi_Time ctx)) (SealerAppHash e) (SealerBlockHash e))).
  assert (epochs_at i (EpochNumber e) s3) as Hs3 by (by apply epochs_at_set).
  exists s1, s2, s3. split_and!; [|done|..].
  - unfold InitMsgQueue. by rewrite He.
  - unfold GetCurrentEpochMsgs. rewrite Hge by done. simpl. by rewrite (queue_msgs _ _ _ Hq).
  - intros n' Hn'. unfold GetEpochMsgs. by rewrite Hother.
  - intros x1 x2 Hx1 Hx2. unfold EndBlocker. rewrite Hge by done. simpl. rewrite Hlast, Hx1. simpl.
    unfold RecordLastHeaderTime. rewrite Hge by done. simpl. rewrite Hlast. simpl. fold s3.
    unfold GetCurrentEpochMsgs.
    destruct (epochs_at_current (E := EpErr) _ _ _ Hs3) as (e3 & _ & -> & [Hk3 _]). simpl.
    rewrite Hk3. change (GetEpochMsgs s3 (EpochNumber e)) with (GetEpochMsgs s2 (EpochNumber e)).
    rewrite (queue_msgs _ _ _ Hq). cbn [app]. by rewrite Hx2.
Qed.
End queue.

(** ** Subsets by bitmap *)

Lemma bm_Get_in {E} `{BM : Bitmap} bm i : i < bm_Len bm → @bm_Get E BM bm i = Ok (bm_Bit bm i).
Proof. intros H. unfold bm_Get. by apply Nat.ltb_lt in H as ->. Qed.

Lemma bm_Set_in {E} `{BM : Bitmap} bm i b :
  i < bm_Len bm → @bm_Set E BM bm i b = Ok (bm_Put bm i b).
Proof. intros H. unfold bm_Set. by apply Nat.ltb_lt in H as ->. Qed.

Lemma FindSubset_spec `{BM : Bitmap} vs bm :
  length vs ≤ bm_Len bm →
  FindSubset vs bm = Ok (snd <$> filter (λ iv, bm_Bit bm iv.1 = true) (zip (seq 0 (length vs)) vs)).
Proof.
  intros Hl. unfold FindSubset. destruct (Nat.ltb_spec (bm_Len bm) (length vs)); [lia|].
  enough (∀ (done todo : ValidatorSet) acc, vs = done ++ todo →
    fold_res (E := EpErr) (λ valSet i,
      bit ← bm_Get bm i;
      if (bit : bool) then match vs !! i with None => Panic | Some v => Ok (valSet ++ [v]) end
      else Ok valSet) acc (seq (length done) (length todo)) =
    Ok (acc ++ (snd <$> filter (λ iv, bm_Bit bm iv.1 = true)
                  (zip (seq (length done) (length todo)) todo)))) as Hgen by (by apply (Hgen [])).
  intros done todo. revert done. induction todo as [|v todo IH]; intros done acc Hvs; simpl.
  { by rewrite app_nil_r. }
  assert (vs !! length done = Some v) as Hv by (rewrite Hvs; by apply list_lookup_middle).
  pose proof (lookup_lt_Some _ _ _ Hv). rewrite bm_Get_in by lia. simpl. rewrite Hv.
  specialize (IH (done ++ [v])). rewrite length_app, Nat.add_1_r in IH.
  rewrite filter_cons. simpl.
  destruct (bm_Bit bm (length done)) eqn:Hbit; simpl; rewrite IH by by rewrite <- app_assoc.
  - by rewrite <- app_assoc.
  - done.
Qed.

(** ** Instances *)

Module Examples.
  (** A bitmap over a slice of bytes, lowest bit first. *)
Definition get_bit (m : bytes) (i : nat) : bool :=
  match m !! (i / 8) with
  | Some b => N.testbit (N_of_byte b) (N.of_nat (i mod 8))
  | None => false
  end.
Definition put_bit (m : bytes) (i : nat) (v : bool) : bytes :=
  alter (λ b, byte_of_N ((if v then N.setbit else N.clearbit) (N_of_byte b) (N.of_nat (i mod 8))))
    (i / 8) m.

Instance byte_bitmap : Bitmap := {|
  bm_New l := replicate ((l + 7) / 8) (byte_of_N 0);
  bm_Len m := 8 * length m;
  bm_Bit := get_bit;
  bm_Put := put_bit;
|}.

Instance byte_bitmap_laws : BitmapLaws.
Proof.
  split; cbn [bm_New bm_Len bm_Bit bm_Put byte_bitmap].
  - intros l. rewrite length_replicate.
    pose proof (Nat.div_mod_eq (l + 7) 8). pose proof (Nat.mod_upper_bound (l + 7) 8 ltac:(done)). lia.
  - intros l i. unfold get_bit.
    destruct (replicate _ _ !! _) as [b|] eqn:Hb; [|done].
    apply lookup_replicate in Hb as [-> _]. apply N.bits_0.
  - intros m i b. unfold put_bit. by rewrite length_alter.
  - intros m i v j Hi. unfold get_bit, put_bit.
    pose proof (Nat.div_mod_eq i 8). pose proof (Nat.div_mod_eq j 8).
    pose proof (Nat.mod_upper_bound i 8 ltac:(done)). pose proof (Nat.mod_upper_bound j 8 ltac:(done)).
    destruct (decide (i / 8 = j / 8)) as [Hd|Hd].
    + rewrite <- Hd, list_lookup_alter_eq.
      destruct (lookup_lt_is_Some_2 m (i / 8)) as [b Hb]; [lia|]. rewrite Hb.
      cbn [fmap option_fmap option_map]. rewrite N_of_byte_of_N. unfold u8. rewrite N.mod_pow2_bits_low by lia.
      destruct (decide (i = j)) as [<-|Hij].
      * destruct v; [apply N.setbit_eq|]. apply N.clearbit_eq.
      * destruct v; [apply N.setbit_neq|apply N.clearbit_neq]; lia.
    + rewrite list_lookup_alter_ne by done. rewrite decide_False; [done|]. intros ->. done.
Qed.

Definition gas : ExecuteGas := mkExecuteGas 1 1 1 1 1 1.
Definition params (i : N) : Params := mkParams i gas 1.
Definition empty (i : N) : EpochingState nat :=
  mkEpochingState ∅ ∅ ∅ ∅ ∅ ∅ ∅ (params i).
Definition header (h : nat) : HeaderInfo := mkHeaderInfo (Z.of_nat h) (Z.of_nat h) [] [].
Definition no_hooks : EpochingHooks (list nat) := mkEpochingHooks (λ _, Some) (λ _, Some) (λ _, Some).
(** Executing message [m] records it. *)
Definition log_staking : Staking nat (list nat) :=
  mkStaking (λ _, [([byte_of_N 2], 7%Z); ([byte_of_N 1], 3%Z)]) (λ _ x, Some x)
    (λ m x, x ++ [m]) (λ x, x).
Definition genesis (i : N) : EpochingState nat :=
  match InitEpoch (empty i) (header 0) [] with Ok s => s | _ => empty i end.
Definition headers (n : nat) : list HeaderInfo := header <$> seq 1 n.

Lemma headers_heights n k ctx :
  headers n !! k = Some ctx → hi_Height ctx = Z.of_nat (S k).
Proof.
  unfold headers. rewrite list_lookup_fmap. intros (h & Hh & ->)%fmap_Some.
  apply lookup_seq in Hh as [-> _]. done.
Qed.

(** The state after a number of blocks. *)
Definition after (i : N) (n : nat) : EpochingState nat :=
  match run_blocks no_hooks log_staking (genesis i, []) (headers n) with
  | Ok (s, _) => s | _ => empty i
  end.

Definition the_epoch (s : EpochingState nat) : Epoch :=
  match @GetEpoch nat EpErr s with Ok e => e | _ => NewEpoch 0 0 0 None end.

Definition vals : list (bytes * Z) := [([byte_of_N 2], 7%Z); ([byte_of_N 1], 3%Z)].

Definition with_vals : EpochingState nat :=
  match InitValidatorSet (genesis 5) vals with Ok s => s | _ => genesis 5 end.

Lemma total_power_is_sum_witness :
  let vs := GetValidatorSet with_vals 0 in
  @GetTotalVotingPower nat EpErr with_vals 0 = Ok (sum_power (Power <$> vs)) ∧
  vs ≡ₚ (λ kv, mkValidator kv.1 kv.2) <$> vals.
Proof.
  apply (total_power_is_sum (genesis 5) with_vals (the_epoch (genesis 5)) vals).
  - vm_compute. reflexivity.
  - vm_compute. reflexivity.
  - apply (bool_decide_eq_true_1 _). vm_compute. reflexivity.
  - repeat constructor; vm_compute; discriminate.
  - vm_compute. reflexivity.
  - vm_compute. reflexivity.
Defined.

Lemma after_at : epochs_at 5 1 (after 5 4).
Proof.
  destruct (run_blocks_at no_hooks log_staking 5 (genesis 5) [] (headers 4))
    as (s & x & n & Hr & Hs & Hin).
  - intros n x. split_and!; by eexists.
  - apply (genesis_epochs (empty 5) (genesis 5) (header 0)); done.
  - done.
  - done.
  - apply headers_heights.
  - unfold after. rewrite Hr. assert (n = 1%N) as <-; [|done].
    destruct Hin as [[? _]|[? Hin]]; [done|]. change (N.of_nat (length (headers 4))) with 4%N in Hin. lia.
Qed.

Lemma queue_is_fifo_witness :
  ∃ s1 s2 s3, InitMsgQueue (after 5 4) = Ok s1 ∧ fold_res EnqueueMsg s1 [30; 10; 20] = Ok s2 ∧
    GetCurrentEpochMsgs s2 = Ok [30; 10; 20] ∧
    (∀ n', n' ≠ 1%N → GetEpochMsgs s2 n' = GetEpochMsgs (after 5 4) n') ∧
    EndBlocker no_hooks log_staking (s2, []) (header 5) = Ok (s3, [30; 10; 20]).
Proof.
  destruct (queue_is_fifo no_hooks log_staking (after 5 4) 5 1 (the_epoch (after 5 4))
           [30; 10; 20] [] (header 5)) as (s1 & s2 & s3 & H1 & H2 & H3 & H4 & H5).
  - apply after_at.
  - vm_compute. reflexivity.
  - vm_compute. reflexivity.
  - vm_compute. reflexivity.
  - vm_compute. reflexivity.
  - exists s1, s2, s3. split_and!; [done..|]. by apply (H5 [] [30; 10; 20]).
Defined.

Definition changed : EpochingState nat :=
  match UpdateParams "gov" "gov" (after 2 6) (params 3) with Ok s => s | _ => empty 3 end.

(** The formula uses the current interval for all heights, so after the
    interval has been changed by governance it disagrees with the epochs that
    have been recorded: here blocks 1 to 6 ran with an interval of 2, the
    interval became 3, and height 6, the last block of epoch 3, is attributed
    to epoch 2. *)
Theorem interval_change_moves_past_epochs :
  ∃ s, UpdateParams "gov" "gov" (after 2 6) (params 3) = Ok s ∧
    EpochNumber (the_epoch s) = 3%N ∧ WithinBoundary (the_epoch s) 6 = true ∧
    @GetEpochNumByHeight nat EpErr s 6 = Ok 2%N.
Proof. exists changed. split_and!; vm_compute; reflexivity. Qed.
End Examples.

End Epoching.
