(* ===== verification/EpochingSpec.v ===== *)
(** x/epoching over the life of the chain.

    [step] is the step relation of the module: blocks begin and end, and in between
    staking messages are queued, validators are slashed, the parameters change and the
    other modules do whatever they do.  In every reachable state the epochs that are
    stored tile the heights of the chain ([epochs_tile_the_chain]), also when governance
    changes the length of epochs. *)
From stdpp Require Import base numbers list gmap strings relations.
From S2P Require Import Prelude Bytes Epoching.

Module EpochingSpec.
Import Epoching.
Local Open Scope N_scope.

Section spec.
Context {Msg X : Type} (hooks : EpochingHooks X) (stk : Staking Msg X).
Implicit Types (s : EpochingState Msg) (x : X) (ctx : HeaderInfo).

(** The height of the last block, whether it is in progress, the state of the module and
    that of the others. *)
Record config := mkConfig {
  ec_height : N;
  ec_open : bool;
  ec_st : EpochingState Msg;
  ec_x : X;
}.

(** Intervals and heights stay below [2 ^ 62], so that their sums do not wrap. *)
Definition interval_ok (i : N) : Prop := 2 ≤ i < 2 ^ 62.

Inductive initial : config → Prop :=
  | initial_genesis s0 x ctx s :
      epochInfoStore s0 = ∅ → Params_Validate (ep_params s0) = true →
      EpochInterval (ep_params s0) < 2 ^ 62 → hi_Height ctx = 0%Z →
      InitEpoch s0 ctx [] = Ok s → initial (mkConfig 0 false s x).

Inductive step : config → config → Prop :=
  | step_begin h s x ctx s' x' :
      h + 1 < 2 ^ 62 → hi_Height ctx = Z.of_N (h + 1) →
      BeginBlocker hooks stk (s, x) ctx = Ok (s', x') →
      step (mkConfig h false s x) (mkConfig (h + 1) true s' x')
  | step_enqueue h s x msg s' :
      EnqueueMsg s msg = Ok s' → step (mkConfig h true s x) (mkConfig h true s' x)
  | step_slash h s x valAddr s' :
      AddSlashedValidator s valAddr = Ok s' → step (mkConfig h true s x) (mkConfig h true s' x)
  | step_params h s x authority msgAuthority p s' :
      EpochInterval p < 2 ^ 62 → UpdateParams authority msgAuthority s p = Ok s' →
      step (mkConfig h true s x) (mkConfig h true s' x)
  | step_others h o s x x' : step (mkConfig h o s x) (mkConfig h o s x')
  | step_end h s x ctx s' x' :
      hi_Height ctx = Z.of_N h → EndBlocker hooks stk (s, x) ctx = Ok (s', x') →
      step (mkConfig h true s x) (mkConfig h false s' x').

Definition reachable (c : config) : Prop := ∃ c0, initial c0 ∧ rtc step c0 c.

(** ** The invariant *)

(** The epochs up to [n] are stored; epoch 1 starts at height 1, every other one where the
    one before ends, and height [h] is in epoch [n]. *)
Record tiled (n h : N) s : Prop := {
  ti_params : interval_ok (EpochInterval (ep_params s));
  ti_stored k : k ≤ n → is_Some (epochInfoStore s !! k);
  ti_epoch k e : epochInfoStore s !! k = Some e → k ≤ n ∧ EpochNumber e = k;
  ti_shape k e : epochInfoStore s !! k = Some e → k ≠ 0 →
    interval_ok (CurrentEpochInterval e) ∧ 1 ≤ FirstBlockHeight e ≤ h;
  ti_first e : epochInfoStore s !! 1 = Some e → FirstBlockHeight e = 1;
  ti_next k e e' : k ≠ 0 → epochInfoStore s !! k = Some e → epochInfoStore s !! (k + 1) = Some e' →
    FirstBlockHeight e' = FirstBlockHeight e + CurrentEpochInterval e;
  ti_here e : epochInfoStore s !! n = Some e → if decide (n = 0) then h = 0
    else FirstBlockHeight e ≤ h < FirstBlockHeight e + CurrentEpochInterval e;
}.

Lemma tiled_current {E} n h s :
  tiled n h s → ∃ e, epochInfoStore s !! n = Some e ∧ @GetEpoch Msg E s = Ok e ∧ EpochNumber e = n.
Proof.
  intros [_ Hst Hep _ _ _ _]. destruct (Hst n) as [e He]; [done|]. exists e.
  split_and!; [done| |by apply (Hep n)]. eapply GetEpoch_max; [done|]. intros k e' Hk. by apply (Hep k e').
Qed.

(** The other stores do not matter. *)
Lemma tiled_eq n h s s' :
  tiled n h s → epochInfoStore s' = epochInfoStore s → interval_ok (EpochInterval (ep_params s')) →
  tiled n h s'.
Proof. intros [] Hs Hp. split; rewrite ?Hs; done. Qed.

(** Writing hashes and times of a stored epoch. *)
Lemma tiled_set n h s k e e' :
  tiled n h s → epochInfoStore s !! k = Some e → EpochNumber e' = k →
  CurrentEpochInterval e' = CurrentEpochInterval e → FirstBlockHeight e' = FirstBlockHeight e →
  tiled n h (setEpochInfo s k e').
Proof.
  intros [T1 T2 T3 T4 T5 T6 T7] He Hn Hi Hf.
  assert (∀ k1 e1, epochInfoStore (setEpochInfo s k e') !! k1 = Some e1 → EpochNumber e1 = k1 →
    ∃ e0, epochInfoStore s !! k1 = Some e0 ∧ CurrentEpochInterval e1 = CurrentEpochInterval e0 ∧
      FirstBlockHeight e1 = FirstBlockHeight e0) as Hold.
  { intros k1 e1. simpl. rewrite lookup_insert_Some. intros [[<- <-]|[_ H1]] _; eauto. }
  assert (∀ k1 e1, epochInfoStore (setEpochInfo s k e') !! k1 = Some e1 → k1 ≤ n ∧ EpochNumber e1 = k1) as Hep.
  { intros k1 e1. simpl. rewrite lookup_insert_Some. intros [[<- <-]|[_ H1]]; [|by apply T3].
    split; [by apply (T3 k e)|done]. }
  split.
  - done.
  - intros k1 Hk1. simpl. rewrite lookup_insert_is_Some. destruct (decide (k = k1)); [by left|right; auto].
  - done.
  - intros k1 e1 H1 Hne. destruct (Hold k1 e1 H1) as (e0 & H0 & -> & ->); [by apply (Hep k1)|]. by apply (T4 k1).
  - intros e1 H1. destruct (Hold 1 e1 H1) as (e0 & H0 & _ & ->); [by apply (Hep 1)|]. by apply T5.
  - intros k1 e1 e2 Hne H1 H2. destruct (Hold k1 e1 H1) as (e0 & H0 & -> & ->); [by apply (Hep k1)|].
    destruct (Hold (k1 + 1) e2 H2) as (e3 & H3 & _ & ->); [by apply (Hep (k1 + 1))|]. by apply (T6 k1).
  - intros e1 H1. destruct (Hold n e1 H1) as (e0 & H0 & -> & ->); [by apply (Hep n)|]. by apply T7.
Qed.

(** *** Blocks *)

Lemma ctx_height_u64 ctx h : hi_Height ctx = Z.of_N h → h < 2 ^ 62 → u64_of_Z (hi_Height ctx) = h.
Proof. intros -> Hh. apply u64_of_Z_small. lia. Qed.

(** A new epoch begins, or the block is one more of the current epoch. *)
Lemma next_epoch n h s e ctx :
  tiled n h s → epochInfoStore s !! n = Some e → h + 1 < 2 ^ 62 → hi_Height ctx = Z.of_N (h + 1) →
  if IsFirstBlockOfNextEpoch e ctx
  then IsLastBlock e ctx = false ∧ (n = 0 ∧ h = 0 ∨ n ≠ 0 ∧ h + 1 = FirstBlockHeight e + CurrentEpochInterval e)
  else n ≠ 0 ∧ FirstBlockHeight e ≤ h + 1 < FirstBlockHeight e + CurrentEpochInterval e.
Proof.
  intros Ht He Hw Hh. pose proof (ti_here _ _ _ Ht e He) as Hhere.
  destruct (ti_epoch _ _ _ Ht n e He) as [_ Hn]. pose proof (ctx_height_u64 ctx (h + 1) Hh Hw) as Hu.
  unfold IsFirstBlockOfNextEpoch, IsLastBlock, GetLastBlockHeight. rewrite Hn, Hu.
  destruct (N.eqb_spec n 0) as [Hz|Hz].
  - rewrite decide_True in Hhere by done. rewrite Hh, Hhere. simpl. split; [done|]. by left.
  - rewrite decide_False in Hhere by done. destruct (ti_shape _ _ _ Ht n e He Hz) as [[Hi1 Hi2] Hf].
    rewrite u64_add_small by lia. rewrite u64_sub_small by lia.
    destruct (N.eqb_spec (FirstBlockHeight e + CurrentEpochInterval e) (h + 1)).
    + split; [apply N.eqb_neq; lia|]. right. split; [done|lia].
    + split; [done|lia].
Qed.

(** One more block of the epoch. *)
Lemma tiled_block n h s e :
  tiled n h s → epochInfoStore s !! n = Some e → n ≠ 0 →
  FirstBlockHeight e ≤ h + 1 < FirstBlockHeight e + CurrentEpochInterval e → tiled n (h + 1) s.
Proof.
  intros [T1 T2 T3 T4 T5 T6 T7] He Hn Hh. split; try done.
  - intros k e' Hk Hne. destruct (T4 k e' Hk Hne). split; [done|lia].
  - intros e' He'. rewrite decide_False by done. rewrite He in He'. by injection He' as <-.
Qed.

Lemma tiled_inc n h s e :
  tiled n h s → epochInfoStore s !! n = Some e →
  (n = 0 ∧ h = 0 ∨ n ≠ 0 ∧ h + 1 = FirstBlockHeight e + CurrentEpochInterval e) →
  tiled (n + 1) (h + 1)
    (setEpochInfo s (n + 1) (NewEpoch (n + 1) (EpochInterval (ep_params s)) (h + 1) None)).
Proof.
  intros [T1 T2 T3 T4 T5 T6 T7] He Hcase.
  assert (epochInfoStore s !! (n + 1) = None) as Hnone.
  { destruct (epochInfoStore s !! (n + 1)) as [e'|] eqn:H'; [|done]. apply T3 in H' as [? _]. lia. }
  split; cbn [setEpochInfo epochInfoStore ep_params].
  - done.
  - intros k Hk. rewrite lookup_insert_is_Some. destruct (decide (n + 1 = k)); [by left|right].
    split; [done|]. apply T2. lia.
  - intros k e'. rewrite lookup_insert_Some. intros [[<- <-]|[_ H1]]; [done|].
    destruct (T3 k e' H1). split; [lia|done].
  - intros k e'. rewrite lookup_insert_Some. intros [[<- <-]|[_ H1]] Hne; simpl; [split; [done|lia]|].
    destruct (T4 k e' H1 Hne). split; [done|lia].
  - intros e'. rewrite lookup_insert_Some. intros [[Hk <-]|[_ H1]]; simpl; [|by apply T5].
    destruct Hcase as [[-> ->]|[? _]]; [done|lia].
  - intros k e1 e2 Hne. rewrite !lookup_insert_Some. intros [[<- <-]|[Hk1 H1]] [[Hk2 <-]|[Hk2 H2]]; simpl.
    + lia.
    + destruct (T3 _ _ H2). lia.
    + assert (k = n) as -> by lia. rewrite He in H1. injection H1 as <-.
      destruct Hcase as [[? _]|[_ ?]]; [lia|done].
    + by eapply T6.
  - intros e'. rewrite lookup_insert_eq. intros [= <-]. rewrite decide_False by lia. simpl.
    unfold interval_ok in T1. lia.
Qed.

(** *** The parts of [BeginBlocker] *)

Lemma queue_tiled n h s s' : tiled n h s → InitMsgQueue s = Ok s' → tiled n h s'.
Proof.
  intros Ht Hq. unfold InitMsgQueue in Hq. apply bind_Ok in Hq as (e & _ & Hq). inv_ok.
  apply (tiled_eq _ _ s); [done|done|]. apply Ht.
Qed.

Lemma slashed_tiled n h s s' : tiled n h s → InitSlashedVotingPower s = Ok s' → tiled n h s'.
Proof.
  intros Ht Hq. unfold InitSlashedVotingPower in Hq. apply bind_Ok in Hq as (e & _ & Hq). inv_ok.
  apply (tiled_eq _ _ s); [done|done|]. apply Ht.
Qed.

Lemma valset_tiled n h s powers s' : tiled n h s → InitValidatorSet s powers = Ok s' → tiled n h s'.
Proof.
  intros Ht Hq. unfold InitValidatorSet in Hq. apply bind_Ok in Hq as (e & _ & Hq).
  destruct (foldl _ _ powers) as [store total]. inv_ok.
  apply (tiled_eq _ _ s); [done|done|]. apply Ht.
Qed.

(** A new epoch is opened and the previous one gets its sealer's hash. *)
Lemma inc_tiled n h s e ctx s1 e1 s2 :
  tiled n h s → epochInfoStore s !! n = Some e → h + 1 < 2 ^ 62 → n ≤ h → hi_Height ctx = Z.of_N (h + 1) →
  (n = 0 ∧ h = 0 ∨ n ≠ 0 ∧ h + 1 = FirstBlockHeight e + CurrentEpochInterval e) →
  IncEpoch s ctx = Ok (s1, e1) → RecordSealerAppHashForPrevEpoch s1 ctx = Ok s2 →
  tiled (n + 1) (h + 1) s2 ∧ EpochNumber e1 = n + 1.
Proof.
  intros Ht He Hw Hnh Hh Hcase Hinc Hrec. unfold IncEpoch in Hinc.
  destruct (tiled_current (E := EpErr) _ _ _ Ht) as (e' & He' & Hg & Hn). rewrite He in He'. injection He' as <-.
  rewrite Hg in Hinc. cbn [mbind res_bind] in Hinc. cbv zeta in Hinc.
  rewrite Hn, u64_add_small, (ctx_height_u64 ctx (h + 1) Hh Hw) in Hinc by lia. injection Hinc as <- <-.
  pose proof (tiled_inc _ _ _ _ Ht He Hcase) as Ht1. split; [|done].
  set (s1 := setEpochInfo s (n + 1) _) in *.
  unfold RecordSealerAppHashForPrevEpoch in Hrec.
  destruct (tiled_current (E := EpErr) _ _ _ Ht1) as (e2 & He2 & Hg2 & Hn2). rewrite Hg2 in Hrec.
  cbn [mbind res_bind] in Hrec. destruct (negb _); [done|]. rewrite Hn2, u64_sub_small in Hrec by lia.
  replace (n + 1 - 1) with n in Hrec by lia. unfold GetHistoricalEpoch, getEpochInfo in Hrec.
  destruct (epochInfoStore s1 !! n) as [e3|] eqn:He3; [|done]. cbn [of_option] in Hrec. injection Hrec as <-.
  destruct (ti_epoch _ _ _ Ht1 n e3 He3) as [_ Hn3]. rewrite Hn3. by eapply tiled_set.
Qed.

Lemma tiled_bound n h s : tiled n h s → n ≤ h.
Proof.
  intros Ht. destruct (ti_stored _ _ _ Ht n) as [e He]; [done|].
  assert (∀ k : nat, N.of_nat k ≤ n → ∀ e, epochInfoStore s !! N.of_nat k = Some e → k ≠ 0%nat →
    N.of_nat k ≤ FirstBlockHeight e) as Hk.
  { intros k. induction k as [|k IH]; intros Hle e' He' Hne; [done|].
    destruct (decide (k = 0%nat)) as [->|Hk]; [by rewrite (ti_first _ _ _ Ht e')|].
    destruct (ti_stored _ _ _ Ht (N.of_nat k)) as [e0 He0]; [lia|].
    specialize (IH ltac:(lia) e0 He0 Hk). destruct (ti_shape _ _ _ Ht _ e0 He0) as [[? ?] _]; [lia|].
    rewrite (ti_next _ _ _ Ht (N.of_nat k) e0 e'); [lia|lia|done|].
    by replace (N.of_nat k + 1) with (N.of_nat (S k)) by lia. }
  destruct (decide (n = 0)) as [->|Hn]; [lia|].
  specialize (Hk (N.to_nat n)). rewrite N2Nat.id in Hk. specialize (Hk ltac:(done) e He ltac:(lia)).
  destruct (ti_shape _ _ _ Ht n e He Hn) as [_ ?]. lia.
Qed.

Lemma begin_tiled n h s x ctx s' x' :
  tiled n h s → h + 1 < 2 ^ 62 → hi_Height ctx = Z.of_N (h + 1) →
  BeginBlocker hooks stk (s, x) ctx = Ok (s', x') → ∃ n', tiled n' (h + 1) s'.
Proof.
  intros Ht Hw Hh Hb. pose proof (tiled_bound _ _ _ Ht) as Hnh. unfold BeginBlocker in Hb.
  destruct (tiled_current (E := EpErr) _ _ _ Ht) as (e & He & Hg & Hn). rewrite Hg in Hb.
  cbn [mbind res_bind] in Hb. pose proof (next_epoch _ _ _ _ _ Ht He Hw Hh) as Hcase.
  destruct (IsFirstBlockOfNextEpoch e ctx).
  - destruct Hcase as [Hlast Hcase]. rewrite Hlast in Hb. apply bind_Ok in Hb as ([s1 x1] & Hb & Hb').
    injection Hb' as <- _. apply bind_Ok in Hb as ([s2 e2] & Hinc & Hb).
    apply bind_Ok in Hb as (s3 & Hrec & Hb). apply bind_Ok in Hb as (s4 & Hq & Hb).
    apply bind_Ok in Hb as (s5 & Hsl & Hb). apply bind_Ok in Hb as (s6 & Hv & Hb).
    apply bind_Ok in Hb as (x2 & _ & Hb). injection Hb as <- _.
    destruct (inc_tiled _ _ _ _ _ _ _ _ Ht He Hw Hnh Hh Hcase Hinc Hrec) as [Ht3 _].
    exists (n + 1). by eapply valset_tiled, Hv; eapply slashed_tiled, Hsl; eapply queue_tiled, Hq.
  - destruct Hcase as [Hne Hr]. pose proof (tiled_block _ _ _ _ Ht He Hne Hr) as Ht1. exists n.
    cbn [mbind res_bind] in Hb. destruct (IsLastBlock e ctx) eqn:Hl; [|by injection Hb as <- _].
    apply bind_Ok in Hb as (s1 & Hrec & Hb). injection Hb as <- _.
    unfold RecordSealerBlockHashForEpoch in Hrec. rewrite Hg in Hrec. cbn [mbind res_bind] in Hrec.
    rewrite Hl in Hrec. cbn [negb] in Hrec. injection Hrec as <-. rewrite Hn. by eapply tiled_set.
Qed.

Lemma end_tiled n h s x ctx s' x' :
  tiled n h s → EndBlocker hooks stk (s, x) ctx = Ok (s', x') → tiled n h s'.
Proof.
  intros Ht Hb. unfold EndBlocker in Hb.
  destruct (tiled_current (E := EpErr) _ _ _ Ht) as (e & He & Hg & Hn). rewrite Hg in Hb.
  cbn [mbind res_bind] in Hb. destruct (IsLastBlock e ctx) eqn:Hl; [|by injection Hb as <- _].
  apply bind_Ok in Hb as (x1 & _ & Hb). apply bind_Ok in Hb as (s1 & Hrec & Hb).
  apply bind_Ok in Hb as (msgs & _ & Hb). cbv zeta in Hb. apply bind_Ok in Hb as (x2 & _ & Hb).
  injection Hb as <- _. unfold RecordLastHeaderTime in Hrec. rewrite Hg in Hrec. cbn [mbind res_bind] in Hrec.
  apply require_bind_Ok in Hrec as [_ Hrec]. injection Hrec as <-. rewrite Hn. by eapply tiled_set.
Qed.

(** *** Transactions *)

Lemma enqueue_frame s msg s' :
  EnqueueMsg s msg = Ok s' → epochInfoStore s' = epochInfoStore s ∧ ep_params s' = ep_params s.
Proof.
  intros Hq. unfold EnqueueMsg, incCurrentQueueLength in Hq. apply bind_Ok in Hq as (e & _ & Hq).
  apply bind_Ok in Hq as (l & _ & Hq). apply bind_Ok in Hq as (e' & _ & Hq). by inv_ok.
Qed.

Lemma slash_frame s addr s' :
  AddSlashedValidator s addr = Ok s' → epochInfoStore s' = epochInfoStore s ∧ ep_params s' = ep_params s.
Proof.
  intros Hq. unfold AddSlashedValidator in Hq. apply bind_Ok in Hq as (e & _ & Hq).
  destruct (GetValidatorVotingPower _ _ _); [|done..]. cbv zeta in Hq.
  apply bind_Ok in Hq as (p & _ & Hq). by inv_ok.
Qed.

Lemma params_frame authority msgAuthority s p s' :
  UpdateParams authority msgAuthority s p = Ok s' →
  epochInfoStore s' = epochInfoStore s ∧ ep_params s' = p ∧ 2 ≤ EpochInterval p.
Proof.
  intros Hq. unfold UpdateParams in Hq. apply require_bind_Ok in Hq as [_ Hq].
  apply require_bind_Ok in Hq as [Hv Hq]. inv_ok. split_and!; [done..|].
  unfold Params_Validate in Hv. rewrite !andb_true_iff, !negb_true_iff, N.ltb_ge in Hv. tauto.
Qed.

Lemma step_tiled c c' :
  (∃ n, tiled n (ec_height c) (ec_st c)) → step c c' → ∃ n, tiled n (ec_height c') (ec_st c').
Proof.
  intros [n Ht] Hs. destruct Hs; cbn [ec_height ec_st] in *.
  - by eapply begin_tiled.
  - exists n. apply enqueue_frame in H as [He Hp]. apply (tiled_eq _ _ s); [done|done|]. rewrite Hp. apply Ht.
  - exists n. apply slash_frame in H as [He Hp]. apply (tiled_eq _ _ s); [done|done|]. rewrite Hp. apply Ht.
  - exists n. apply params_frame in H0 as (He & Hp & Hi). apply (tiled_eq _ _ s); [done|done|]. by rewrite Hp.
  - by exists n.
  - exists n. by eapply end_tiled.
Qed.

Lemma initial_tiled c : initial c → ∃ n, tiled n (ec_height c) (ec_st c).
Proof.
  intros [s0 x ctx s Hs0 Hp Hi Hh Hinit]. exists 0. unfold InitEpoch in Hinit. simpl in Hinit.
  rewrite Hh in Hinit. simpl in Hinit. injection Hinit as <-.
  unfold Params_Validate in Hp. rewrite !andb_true_iff, !negb_true_iff, N.ltb_ge in Hp.
  split; cbn [setEpochInfo epochInfoStore ep_params ec_height ec_st]; rewrite ?Hs0.
  - split; [tauto|done].
  - intros k Hk. replace k with 0 by lia. by rewrite lookup_insert_eq.
  - intros k e. rewrite lookup_insert_Some, lookup_empty. by intros [[<- <-]|[_ ?]].
  - intros k e. rewrite lookup_insert_Some, lookup_empty. by intros [[<- <-]|[_ ?]].
  - intros e. rewrite lookup_insert_Some, lookup_empty. by intros [[? _]|[_ ?]].
  - intros k e e' _ _. rewrite lookup_insert_Some, lookup_empty. intros [[? _]|[_ ?]]; [lia|done].
  - intros e _. by rewrite decide_True.
Qed.

Lemma reachable_tiled c : reachable c → ∃ n, tiled n (ec_height c) (ec_st c).
Proof.
  intros (c0 & Hi & Hr). apply initial_tiled in Hi. revert Hi.
  induction Hr as [|c0 c1 c Hs _ IH]; [done|]. intros Hinv. apply IH. by eapply step_tiled.
Qed.

(** The formula, when all epochs have the length that the parameters give. *)
Lemma formula_agrees n h s :
  tiled n h s → h < 2 ^ 62 →
  (∀ k e, epochInfoStore s !! k = Some e → k ≠ 0 → CurrentEpochInterval e = EpochInterval (ep_params s)) →
  @GetEpochNumByHeight Msg EpErr s h = Ok n.
Proof.
  intros Ht Hh Hall. set (i := EpochInterval (ep_params s)) in *.
  assert (∀ k : nat, N.of_nat (S k) ≤ n → ∀ e, epochInfoStore s !! N.of_nat (S k) = Some e →
    FirstBlockHeight e = N.of_nat k * i + 1) as Hfirst.
  { intros k. induction k as [|k IH]; intros Hle e He; [rewrite (ti_first _ _ _ Ht e) by done; lia|].
    destruct (ti_stored _ _ _ Ht (N.of_nat (S k))) as [e0 He0]; [lia|].
    specialize (IH ltac:(lia) e0 He0). rewrite (ti_next _ _ _ Ht (N.of_nat (S k)) e0 e).
    - rewrite IH, (Hall _ _ He0) by lia. fold i. lia.
    - lia.
    - done.
    - by replace (N.of_nat (S k) + 1) with (N.of_nat (S (S k))) by lia. }
  destruct (ti_params _ _ _ Ht) as [Hi1 Hi2]. fold i in Hi1, Hi2.
  destruct (ti_stored _ _ _ Ht n) as [e He]; [done|]. pose proof (ti_here _ _ _ Ht e He) as Hhere.
  unfold GetEpochNumByHeight. fold i. destruct (decide (n = 0)) as [->|Hn]; [by rewrite Hhere|].
  apply in_epoch_num; [lia|lia|]. right. split; [lia|].
  specialize (Hfirst (N.to_nat n - 1)%nat). replace (N.of_nat (S (N.to_nat n - 1))) with n in Hfirst by lia.
  specialize (Hfirst ltac:(done) e He). rewrite Hfirst, (Hall _ _ He Hn) in Hhere. fold i in Hhere. nia.
Qed.

(** ** The tiles *)

Lemma within_boundary n h s k e h' :
  tiled n h s → h < 2 ^ 62 → epochInfoStore s !! k = Some e → 0 < h' →
  WithinBoundary e h' = true ↔
    k ≠ 0 ∧ FirstBlockHeight e ≤ h' < FirstBlockHeight e + CurrentEpochInterval e.
Proof.
  intros Ht Hw He Hpos. destruct (ti_epoch _ _ _ Ht k e He) as [_ Hn].
  unfold WithinBoundary, GetLastBlockHeight. rewrite Hn, negb_true_iff, orb_false_iff, !N.ltb_ge.
  destruct (N.eqb_spec k 0) as [->|Hk]; [lia|].
  destruct (ti_shape _ _ _ Ht k e He Hk) as [[? ?] ?].
  rewrite u64_add_small by lia. rewrite u64_sub_small by lia. lia.
Qed.

(** Epochs with a greater number start later. *)
Lemma tiles_ordered n h s k d e e' :
  tiled n h s → k ≠ 0 → epochInfoStore s !! k = Some e →
  epochInfoStore s !! (k + N.of_nat (S d)) = Some e' →
  FirstBlockHeight e + CurrentEpochInterval e ≤ FirstBlockHeight e'.
Proof.
  intros Ht Hk He. revert e'. induction d as [|d IH]; intros e' He'.
  - rewrite (ti_next _ _ _ Ht k e e' Hk He); [done|]. done.
  - destruct (ti_epoch _ _ _ Ht _ _ He') as [Hle _].
    destruct (ti_stored _ _ _ Ht (k + N.of_nat (S d))) as [e0 He0]; [lia|].
    specialize (IH e0 He0). rewrite (ti_next _ _ _ Ht (k + N.of_nat (S d)) e0 e'); [lia|lia|done|].
    by replace (k + N.of_nat (S d) + 1) with (k + N.of_nat (S (S d))) by lia.
Qed.

Lemma tile_exists n h s h' :
  tiled n h s → h < 2 ^ 62 → 0 < h' ≤ h →
  ∃ k e, epochInfoStore s !! k = Some e ∧ WithinBoundary e h' = true.
Proof.
  intros Ht Hw Hh'.
  assert (∀ (k : nat) e, epochInfoStore s !! N.of_nat (S k) = Some e →
    h' < FirstBlockHeight e + CurrentEpochInterval e →
    ∃ k e, epochInfoStore s !! k = Some e ∧ WithinBoundary e h' = true) as Hgo.
  { intros k. induction k as [|k IH]; intros e He Hlt.
    - exists 1, e. split; [done|]. apply (within_boundary n h s 1); [done|done|done|lia|].
      pose proof (ti_first _ _ _ Ht e He). lia.
    - destruct (N.le_gt_cases (FirstBlockHeight e) h') as [Hle|Hgt].
      + exists (N.of_nat (S (S k))), e. split; [done|].
        apply (within_boundary n h s (N.of_nat (S (S k)))); [done|done|done|lia|]. lia.
      + destruct (ti_epoch _ _ _ Ht _ _ He) as [Hk _].
        destruct (ti_stored _ _ _ Ht (N.of_nat (S k))) as [e0 He0]; [lia|].
        apply (IH e0 He0). rewrite <- (ti_next _ _ _ Ht (N.of_nat (S k)) e0 e); [done|lia|done|].
        by replace (N.of_nat (S k) + 1) with (N.of_nat (S (S k))) by lia. }
  destruct (ti_stored _ _ _ Ht n) as [e He]; [done|]. pose proof (ti_here _ _ _ Ht e He) as Hhere.
  destruct (decide (n = 0)) as [|Hn]; [lia|].
  apply (Hgo (N.to_nat n - 1)%nat e); [|lia]. by replace (N.of_nat (S (N.to_nat n - 1))) with n by lia.
Qed.

Lemma tile_unique n h s h' k1 e1 k2 e2 :
  tiled n h s → h < 2 ^ 62 → 0 < h' →
  epochInfoStore s !! k1 = Some e1 → WithinBoundary e1 h' = true →
  epochInfoStore s !! k2 = Some e2 → WithinBoundary e2 h' = true → k1 = k2.
Proof.
  intros Ht Hw Hpos. assert (∀ k1 e1 k2 e2, k1 < k2 →
    epochInfoStore s !! k1 = Some e1 → WithinBoundary e1 h' = true →
    epochInfoStore s !! k2 = Some e2 → WithinBoundary e2 h' = true → False) as Hno.
  { intros a ea b eb Hab Ha Hwa Hb Hwb.
    apply (within_boundary n h s a) in Hwa as [Hane ?]; [|done..].
    apply (within_boundary n h s b) in Hwb as [_ ?]; [|done..].
    pose proof (tiles_ordered n h s a (N.to_nat (b - a) - 1)%nat ea eb Ht Hane Ha) as Ho.
    replace (a + N.of_nat (S (N.to_nat (b - a) - 1))) with b in Ho by lia. specialize (Ho Hb). lia. }
  intros H1 Hw1 H2 Hw2. destruct (N.lt_trichotomy k1 k2) as [Hlt|[|Hlt]]; [|done|]; exfalso; eauto.
Qed.

(** ** The next block *)

Lemma begin_succeeds n h s x ctx :
  hooks_total hooks → tiled n h s → h + 1 < 2 ^ 62 → hi_Height ctx = Z.of_N (h + 1) →
  ∃ r, BeginBlocker hooks stk (s, x) ctx = Ok r.
Proof.
  intros Hht Ht Hw Hh. pose proof (tiled_bound _ _ _ Ht) as Hnh. unfold BeginBlocker.
  destruct (tiled_current (E := EpErr) _ _ _ Ht) as (e & He & Hg & Hn). rewrite Hg. cbn [mbind res_bind].
  pose proof (next_epoch _ _ _ _ _ Ht He Hw Hh) as Hcase.
  destruct (IsFirstBlockOfNextEpoch e ctx).
  - destruct Hcase as [Hlast Hcase]. rewrite Hlast. unfold IncEpoch. rewrite Hg. cbn [mbind res_bind].
    cbv zeta. rewrite Hn, u64_add_small, (ctx_height_u64 ctx (h + 1) Hh Hw) by lia.
    pose proof (tiled_inc _ _ _ _ Ht He Hcase) as Ht1. set (e1 := NewEpoch _ _ _ _) in *.
    set (s1 := setEpochInfo s (n + 1) e1) in *. cbn [mbind res_bind mret res_ret].
    destruct (tiled_current (E := EpErr) _ _ _ Ht1) as (e2 & He2 & Hg2 & Hn2).
    assert (e2 = e1) as ->. { unfold s1 in He2. simpl in He2. rewrite lookup_insert_eq in He2. by injection He2. }
    unfold RecordSealerAppHashForPrevEpoch. rewrite Hg2. cbn [mbind res_bind].
    assert (IsFirstBlock e1 ctx = true) as ->.
    { unfold IsFirstBlock. rewrite (ctx_height_u64 ctx (h + 1) Hh Hw). apply N.eqb_refl. }
    cbn [negb]. rewrite Hn2, u64_sub_small by lia. replace (n + 1 - 1) with n by lia.
    destruct (ti_stored _ _ _ Ht1 n) as [e3 He3]; [lia|].
    unfold GetHistoricalEpoch, getEpochInfo. rewrite He3. cbn [of_option mbind res_bind].
    destruct (ti_epoch _ _ _ Ht1 n e3 He3) as [_ Hn3]. rewrite Hn3.
    set (s2 := setEpochInfo s1 n _).
    assert (tiled (n + 1) (h + 1) s2) as Ht2 by (by eapply tiled_set).
    unfold InitMsgQueue. destruct (tiled_current (E := EpErr) _ _ _ Ht2) as (e4 & _ & -> & _).
    cbn [mbind res_bind mret res_ret]. set (s3 := setQueue _ _ _).
    assert (tiled (n + 1) (h + 1) s3) as Ht3 by (apply (tiled_eq _ _ s2); [done|done|apply Ht2]).
    unfold InitSlashedVotingPower. destruct (tiled_current (E := EpErr) _ _ _ Ht3) as (e5 & _ & -> & _).
    cbn [mbind res_bind mret res_ret]. set (s4 := setSlashedVotingPower _ _ _).
    assert (tiled (n + 1) (h + 1) s4) as Ht4 by (apply (tiled_eq _ _ s3); [done|done|apply Ht3]).
    unfold InitValidatorSet. destruct (tiled_current (E := EpErr) _ _ _ Ht4) as (e6 & _ & -> & _).
    cbn [mbind res_bind mret res_ret]. destruct (foldl _ _ _) as [store total]. cbn [mbind res_bind].
    destruct (Hht (n + 1) x) as ([x' ->] & _). by eexists.
  - cbn [mbind res_bind]. destruct (IsLastBlock e ctx) eqn:Hl; [|by eexists].
    unfold RecordSealerBlockHashForEpoch. rewrite Hg. cbn [mbind res_bind]. rewrite Hl. by eexists.
Qed.

Lemma end_succeeds n h s x ctx :
  hooks_total hooks → tiled n h s → ∃ r, EndBlocker hooks stk (s, x) ctx = Ok r.
Proof.
  intros Hht Ht. unfold EndBlocker.
  destruct (tiled_current (E := EpErr) _ _ _ Ht) as (e & He & Hg & Hn). rewrite Hg. cbn [mbind res_bind].
  destruct (IsLastBlock e ctx) eqn:Hl; [|by eexists].
  destruct (Hht (EpochNumber e) x) as (_ & [x1 ->] & _). cbn [run_hook mbind res_bind].
  unfold RecordLastHeaderTime. rewrite Hg. cbn [mbind res_bind]. rewrite Hl.
  cbn [require mbind res_bind mret res_ret]. set (s1 := setEpochInfo s _ _).
  assert (tiled n h s1) as Ht1 by (unfold s1; rewrite Hn; by eapply tiled_set).
  unfold GetCurrentEpochMsgs. destruct (tiled_current (E := EpErr) _ _ _ Ht1) as (e1 & _ & -> & _).
  cbn [mbind res_bind mret res_ret].
  destruct (Hht (EpochNumber e) (ApplyAndReturnValidatorSetUpdates stk
    (foldl (forwardMsg stk) x1 (GetEpochMsgs s1 (EpochNumber e1))))) as (_ & _ & [x2 ->]). by eexists.
Qed.

Lemma reachable_height c : reachable c → ec_height c < 2 ^ 62.
Proof.
  intros (c0 & Hi & Hr). assert (ec_height c0 < 2 ^ 62) as H0 by (by destruct Hi). revert H0. clear Hi.
  induction Hr as [|c0 c1 c Hs _ IH]; [done|]. intros H0. apply IH. by destruct Hs.
Qed.

End spec.

(** ** A run *)
Module Examples.
Import Epoching.Examples.

Abbreviation estep := (step no_hooks log_staking).

Definition get (d : EpochingState nat * list nat) (r : res EpErr (EpochingState nat * list nat)) :=
  match r with Ok a => a | _ => d end.
Lemma estep_ok d r : is_ok r = true → r = Ok ((get d r).1, (get d r).2).
Proof. destruct r as [[]| |]; done. Qed.

(** Two blocks with an interval of 2, then 3; message 7 is queued in block 1. *)
Definition w0 : EpochingState nat * list nat := (genesis 2, []).
Definition w1 := get w0 (BeginBlocker no_hooks log_staking (w0.1, w0.2) (header 1)).
Definition w2 := (match EnqueueMsg w1.1 7%nat with Ok s => s | _ => w1.1 end, w1.2).
Definition w3 := (match UpdateParams "gov" "gov" w2.1 (params 3) with Ok s => s | _ => w2.1 end, w2.2).
Definition w4 := get w3 (EndBlocker no_hooks log_staking (w3.1, w3.2) (header 1)).
Definition w5 := get w4 (BeginBlocker no_hooks log_staking (w4.1, w4.2) (header 2)).
Definition w6 := get w5 (EndBlocker no_hooks log_staking (w5.1, w5.2) (header 2)).
Definition w7 := get w6 (BeginBlocker no_hooks log_staking (w6.1, w6.2) (header 3)).

Lemma w7_reachable : reachable no_hooks log_staking (mkConfig 3 true w7.1 w7.2).
Proof.
  exists (mkConfig 0 false w0.1 w0.2). split.
  { apply (initial_genesis (empty 2) [] (header 0)); [done|done|done|done|vm_compute; reflexivity]. }
  eapply (rtc_l _ _ (mkConfig 1 true w1.1 w1.2)).
  { apply (step_begin _ _ 0 _ _ (header 1)); [done|done|]. apply estep_ok. vm_compute. reflexivity. }
  eapply (rtc_l _ _ (mkConfig 1 true w2.1 w2.2)).
  { apply (step_enqueue _ _ 1 _ _ 7%nat). vm_compute. reflexivity. }
  eapply (rtc_l _ _ (mkConfig 1 true w3.1 w3.2)).
  { apply (step_params _ _ 1 _ _ "gov" "gov" (params 3)); [done|]. vm_compute. reflexivity. }
  eapply (rtc_l _ _ (mkConfig 1 false w4.1 w4.2)).
  { apply (step_end _ _ 1 _ _ (header 1)); [done|]. apply estep_ok. vm_compute. reflexivity. }
  eapply (rtc_l _ _ (mkConfig 2 true w5.1 w5.2)).
  { apply (step_begin _ _ 1 _ _ (header 2)); [done|done|]. apply estep_ok. vm_compute. reflexivity. }
  eapply (rtc_l _ _ (mkConfig 2 false w6.1 w6.2)).
  { apply (step_end _ _ 2 _ _ (header 2)); [done|]. apply estep_ok. vm_compute. reflexivity. }
  apply rtc_once. apply (step_begin _ _ 2 _ _ (header 3)); [done|done|]. apply estep_ok. vm_compute. reflexivity.
Qed.

End Examples.
End EpochingSpec.
