(* ===== verification/Checkpointing.v ===== *)
(** x/checkpointing: raw checkpoints, their life cycle and BLS registrations.
    [src/anon/x/checkpointing/types/types.go], [types/utils.go],
    [types/checkpoint.go], [types/val_bls_set.go], [keeper/keeper.go],
    [keeper/ckpt_state.go], [keeper/registration_state.go],
    [keeper/val_bls_set.go], [abci.go] and [src/anon/crypto/bls12381/bls.go].

    A checkpoint of an epoch accumulates BLS signatures of validators until more
    than two thirds of the power have signed ([Sealed]); submissions to Bitcoin
    then move it to [Submitted], [Confirmed] and [Finalized], or back to
    [Sealed] when Bitcoin forgets them. *)
From stdpp Require Import base numbers list sorting gmap strings.
From S2P Require Import Prelude KVStore Bytes Epoching BtcTxFormatter.

Module Checkpointing.
Import Epoching.

Inductive CkptErr :=
  | ErrCkptDoesNotExist | ErrCkptAlreadyExist | ErrCkptHashNotEqual
  | ErrCkptNotAccumulating | ErrCkptAlreadyVoted | ErrInvalidRawCheckpoint
  | ErrInvalidCkptStatus | ErrBlsKeyDoesNotExist | ErrBlsKeyAlreadyExist
  | ErrInvalidBlsSignature | ErrConflictingCheckpoint | ErrValAddrDoesNotExist
  | ErrNotSealed | ErrBlsAggregation | ErrInvalidLength | ErrHook
  | ErrEpoching (e : EpErr).

#[global] Instance EpErr_eq_dec : EqDecision EpErr.
Proof. solve_decision. Defined.
#[global] Instance CkptErr_eq_dec : EqDecision CkptErr.
Proof. solve_decision. Defined.

(** ** BLS signatures: [crypto/bls12381]

    The curve operations are those of blst ([github.com/supranational/blst]):
    aggregation of compressed points, which fails on invalid points, and
    verification. *)
Class Blst := {
  P1AggregateCompressed : list bytes → option bytes;
  P2AggregateCompressed : list bytes → option bytes;
  VerifyCompressed : bytes → bytes → bytes → bool;
}.

Section bls.
Context `{BL : Blst}.

Definition SignatureSize : nat := 48.
Definition PubKeySize : nat := 96.

Definition AggrSigList (sigs : list bytes) : res CkptErr bytes :=
  of_option ErrBlsAggregation (P1AggregateCompressed sigs).

(** A nil slice is an empty list. *)
Definition AggrSig (existingSig newSig : bytes) : res CkptErr bytes :=
  match existingSig with
  | [] => Ok newSig
  | _ => AggrSigList [existingSig; newSig]
  end.

Definition AggrPKList (pks : list bytes) : res CkptErr bytes :=
  of_option ErrBlsAggregation (P2AggregateCompressed pks).

Definition AggrPK (existingPK newPK : bytes) : res CkptErr bytes :=
  match existingPK with
  | [] => Ok newPK
  | _ => AggrPKList [existingPK; newPK]
  end.

Lemma AggrSig_no_panic a b : AggrSig a b ≠ Panic.
Proof.
  destruct a; [done|]. unfold AggrSig, AggrSigList. by destruct (P1AggregateCompressed _).
Qed.
Lemma AggrPK_no_panic a b : AggrPK a b ≠ Panic.
Proof.
  destruct a; [done|]. unfold AggrPK, AggrPKList. by destruct (P2AggregateCompressed _).
Qed.

Definition Verify (sig pk msg : bytes) : bool := VerifyCompressed sig pk msg.

Definition VerifyMultiSig (sig : bytes) (pks : list bytes) (msg : bytes) : res CkptErr bool :=
  aggPk ← AggrPKList pks;
  mret (Verify sig aggPk msg).
End bls.

(** ** Checkpoints: [types] *)

Inductive CheckpointStatus := Accumulating | Sealed | Submitted | Confirmed | Finalized.

#[global] Instance CheckpointStatus_eq_dec : EqDecision CheckpointStatus.
Proof. solve_decision. Defined.

(** The values of the protobuf enum. *)
Definition status_num (s : CheckpointStatus) : N :=
  match s with
  | Accumulating => 0 | Sealed => 1 | Submitted => 2 | Confirmed => 3 | Finalized => 4
  end.

Record CheckpointStateUpdate := mkCheckpointStateUpdate {
  State : CheckpointStatus;
  csu_BlockHeight : N;
  csu_BlockTime : Z;
}.

Record RawCheckpoint := mkRawCheckpoint {
  EpochNum : N;
  BlockHash : option bytes;
  ckpt_Bitmap : option bytes;
  BlsMultiSig : option bytes;
}.

#[global] Instance RawCheckpoint_eq_dec : EqDecision RawCheckpoint.
Proof. solve_decision. Defined.

Record RawCheckpointWithMeta := mkRawCheckpointWithMeta {
  Ckpt : RawCheckpoint;
  Status : CheckpointStatus;
  BlsAggrPk : option bytes;
  PowerSum : N;
  Lifecycle : list CheckpointStateUpdate;
}.

Definition HashSize : nat := 32.
Definition BitmapBits : nat := 104.

Section types.
Context `{BM : Bitmap} `{BL : Blst}.

Definition NewCheckpoint (epochNum : N) (blockHash : bytes) : RawCheckpoint :=
  mkRawCheckpoint epochNum (Some blockHash) (Some (bm_New BitmapBits)) None.

Definition NewCheckpointWithMeta (ckpt : RawCheckpoint) (status : CheckpointStatus)
  : RawCheckpointWithMeta := mkRawCheckpointWithMeta ckpt status None 0 [].

Definition setMultiSig (cm : RawCheckpointWithMeta) (sig : bytes) :=
  mkRawCheckpointWithMeta
    (mkRawCheckpoint (EpochNum (Ckpt cm)) (BlockHash (Ckpt cm)) (ckpt_Bitmap (Ckpt cm)) (Some sig))
    (Status cm) (BlsAggrPk cm) (PowerSum cm) (Lifecycle cm).
Definition setAggrPk (cm : RawCheckpointWithMeta) (pk : bytes) :=
  mkRawCheckpointWithMeta (Ckpt cm) (Status cm) (Some pk) (PowerSum cm) (Lifecycle cm).
Definition setBitmap (cm : RawCheckpointWithMeta) (bm : bytes) :=
  mkRawCheckpointWithMeta
    (mkRawCheckpoint (EpochNum (Ckpt cm)) (BlockHash (Ckpt cm)) (Some bm) (BlsMultiSig (Ckpt cm)))
    (Status cm) (BlsAggrPk cm) (PowerSum cm) (Lifecycle cm).
Definition setPower (cm : RawCheckpointWithMeta) (status : CheckpointStatus) (power : N) :=
  mkRawCheckpointWithMeta (Ckpt cm) status (BlsAggrPk cm) power (Lifecycle cm).

(** [Accumulate] changes the checkpoint in place, also on the way to an error:
    the result is the checkpoint after the call and the error. A nil bitmap is
    an empty slice. *)
Definition Accumulate (cm : RawCheckpointWithMeta) (vals : ValidatorSet)
    (signerAddr signerBlsKey sig : bytes) (totalPower : Z)
  : res False (RawCheckpointWithMeta * option CkptErr) :=
  if negb (bool_decide (Status cm = Accumulating)) then Ok (cm, Some ErrCkptNotAccumulating)
  else
    match FindValidatorWithIndex vals signerAddr with
    | Panic => Panic
    | Err e => Ok (cm, Some (ErrEpoching e))
    | Ok (val, index) =>
      let bm := default [] (ckpt_Bitmap (Ckpt cm)) in
      voted ← bm_Get bm index;
      if (voted : bool) then Ok (cm, Some ErrCkptAlreadyVoted)
      else
        match match BlsMultiSig (Ckpt cm) with
              | Some s => AggrSig s sig
              | None => Ok sig
              end with
        | Panic => Panic
        | Err e => Ok (cm, Some e)
        | Ok aggSig =>
          let cm := setMultiSig cm aggSig in
          match match BlsAggrPk cm with
                | Some pk => AggrPK pk signerBlsKey
                | None => Ok signerBlsKey
                end with
          | Panic => Panic
          | Err e => Ok (cm, Some e)
          | Ok aggPK =>
            let cm := setAggrPk cm aggPK in
            bm ← bm_Set bm index true;
            let cm := setBitmap cm bm in
            let power := u64_add (PowerSum cm) (u64_of_Z (Power val)) in
            let status :=
              if (int64 (totalPower * 2) <? int64 (int64 (Z.of_N power) * 3))%Z then Sealed
              else Status cm in
            mret (setPower cm status power, None)
          end
        end
    end.

Definition IsMoreMatureThanStatus (cm : RawCheckpointWithMeta) (status : CheckpointStatus) : bool :=
  (status_num status <? status_num (Status cm))%N.

Definition RecordStateUpdate (ctx : HeaderInfo) (cm : RawCheckpointWithMeta)
    (status : CheckpointStatus) : RawCheckpointWithMeta :=
  mkRawCheckpointWithMeta (Ckpt cm) (Status cm) (BlsAggrPk cm) (PowerSum cm)
    (Lifecycle cm ++
       [mkCheckpointStateUpdate status (u64_of_Z (hi_Height ctx)) (hi_Time ctx)]).

(** [RawCheckpoint.ValidateBasic], with those of [BlockHash] and [Signature]. *)
Definition ValidateBasic (ckpt : RawCheckpoint) : bool :=
  match ckpt_Bitmap ckpt, BlockHash ckpt, BlsMultiSig ckpt with
  | Some _, Some h, Some sig => (length h =? HashSize) && (length sig =? SignatureSize)
  | _, _, _ => false
  end.

Definition GetSignBytes (epoch : N) (hash : bytes) : bytes := Uint64ToBigEndian epoch ++ hash.

Definition FromBTCCkptToRawCkpt (btcCkpt : BtcTxFormatter.RawBtcCheckpoint)
  : res CkptErr RawCheckpoint :=
  require (length (BtcTxFormatter.BlockHash btcCkpt) =? HashSize) ErrInvalidLength;;
  require (length (BtcTxFormatter.BlsSig btcCkpt) =? SignatureSize) ErrInvalidLength;;
  mret (mkRawCheckpoint (BtcTxFormatter.Epoch btcCkpt) (Some (BtcTxFormatter.BlockHash btcCkpt))
          (Some (BtcTxFormatter.BitMap btcCkpt)) (Some (BtcTxFormatter.BlsSig btcCkpt))).

Definition FromRawCkptToBTCCkpt (rawCkpt : RawCheckpoint) (address : bytes)
  : BtcTxFormatter.RawBtcCheckpoint :=
  BtcTxFormatter.mkRawBtcCheckpoint (EpochNum rawCkpt) (default [] (BlockHash rawCkpt))
    (default [] (ckpt_Bitmap rawCkpt)) address (default [] (BlsMultiSig rawCkpt)).
End types.

(** ** The keeper *)

Record ValidatorWithBlsKey := mkValidatorWithBlsKey {
  vb_ValidatorAddress : bytes;
  vb_BlsPubKey : bytes;
  vb_VotingPower : N;
}.

Record CkptState := mkCkptState {
  checkpoints : gmap N RawCheckpointWithMeta;
  addrToBlsKeys : gmap bytes bytes;
  blsKeysToAddr : gmap bytes bytes;
  valBlsSetStore : gmap N (list ValidatorWithBlsKey);
  LastFinalizedEpoch : option N;
  ConflictingCheckpointReceived : bool;
}.

Definition setCheckpoints (s : CkptState) (m : gmap N RawCheckpointWithMeta) : CkptState :=
  mkCkptState m (addrToBlsKeys s) (blsKeysToAddr s) (valBlsSetStore s) (LastFinalizedEpoch s)
    (ConflictingCheckpointReceived s).
Definition setRegistrations (s : CkptState) (a2k k2a : gmap bytes bytes) : CkptState :=
  mkCkptState (checkpoints s) a2k k2a (valBlsSetStore s) (LastFinalizedEpoch s)
    (ConflictingCheckpointReceived s).

(** *** Storage of checkpoints: [keeper/ckpt_state.go] *)

Definition CreateRawCkptWithMeta (s : CkptState) (ckptWithMeta : option RawCheckpointWithMeta)
  : res CkptErr CkptState :=
  match ckptWithMeta with
  | None => Err ErrInvalidRawCheckpoint
  | Some cm =>
      let epoch := EpochNum (Ckpt cm) in
      require (negb (bool_decide (is_Some (checkpoints s !! epoch)))) ErrCkptAlreadyExist;;
      mret (setCheckpoints s (<[epoch := cm]> (checkpoints s)))
  end.

Definition GetRawCkptWithMeta (s : CkptState) (epoch : N) : res CkptErr RawCheckpointWithMeta :=
  of_option ErrCkptDoesNotExist (checkpoints s !! epoch).

Definition UpdateCheckpoint (s : CkptState) (ckpt : RawCheckpointWithMeta) : res CkptErr CkptState :=
  _ ← GetRawCkptWithMeta s (EpochNum (Ckpt ckpt));
  mret (setCheckpoints s (<[EpochNum (Ckpt ckpt) := ckpt]> (checkpoints s))).

(** *** BLS registrations: [keeper/registration_state.go] *)

Definition GetBlsPubKey (s : CkptState) (addr : bytes) : res CkptErr bytes :=
  rawBytes ← of_option ErrBlsKeyDoesNotExist (addrToBlsKeys s !! addr);
  require (length rawBytes =? PubKeySize) ErrInvalidLength;;
  mret rawBytes.

Definition GetValAddr (s : CkptState) (key : bytes) : res CkptErr bytes :=
  of_option ErrValAddrDoesNotExist (blsKeysToAddr s !! key).

Definition CreateRegistration (s : CkptState) (key valAddr : bytes) : res CkptErr CkptState :=
  require (negb match GetBlsPubKey s valAddr with
                | Ok blsPubKey => negb (bool_decide (blsPubKey = key))
                | _ => false
                end) ErrBlsKeyAlreadyExist;;
  require (negb match blsKeysToAddr s !! key with
                | Some addr => negb (bool_decide (addr = valAddr))
                | None => false
                end) ErrBlsKeyAlreadyExist;;
  mret (setRegistrations s (<[valAddr := key]> (addrToBlsKeys s)) (<[key := valAddr]> (blsKeysToAddr s))).

Definition Exists (s : CkptState) (addr : bytes) : bool :=
  bool_decide (is_Some (addrToBlsKeys s !! addr)).

(** *** Flags and counters *)

Definition GetLastFinalizedEpoch (s : CkptState) : N := default 0%N (LastFinalizedEpoch s).

Definition SetLastFinalizedEpoch (s : CkptState) (epochNumber : N) : CkptState :=
  mkCkptState (checkpoints s) (addrToBlsKeys s) (blsKeysToAddr s) (valBlsSetStore s)
    (Some epochNumber) (ConflictingCheckpointReceived s).

Definition SetConflictingCheckpointReceived (s : CkptState) (value : bool) : CkptState :=
  mkCkptState (checkpoints s) (addrToBlsKeys s) (blsKeysToAddr s) (valBlsSetStore s)
    (LastFinalizedEpoch s) value.

(** *** What the module uses of x/epoching *)

Class EpochingKeeper := {
  ek_GetValidatorSet : N → ValidatorSet;
  (** panics when the epoch has no recorded power *)
  ek_GetTotalVotingPower : N → res CkptErr Z;
}.

(** [CheckpointingHooks]. Errors of hooks are logged, except those of
    [AfterRawCheckpointBlsSigVerified]. *)
Record CheckpointingHooks (X : Type) := mkCheckpointingHooks {
  AfterRawCheckpointSealed : N → X → X;
  AfterRawCheckpointConfirmed : N → X → X;
  AfterRawCheckpointForgotten : RawCheckpoint → X → X;
  AfterRawCheckpointFinalized : N → X → X;
  AfterRawCheckpointBlsSigVerified : RawCheckpoint → X → option X;
}.
Arguments mkCheckpointingHooks {_} _ _ _ _ _.
Arguments AfterRawCheckpointSealed {_} _ _ _.
Arguments AfterRawCheckpointConfirmed {_} _ _ _.
Arguments AfterRawCheckpointForgotten {_} _ _ _.
Arguments AfterRawCheckpointFinalized {_} _ _ _.
Arguments AfterRawCheckpointBlsSigVerified {_} _ _ _.

Section keeper.
Context `{BM : Bitmap} `{BL : Blst} `{EK : EpochingKeeper} {X : Type}.
Context (hooks : CheckpointingHooks X).
Implicit Types (s : CkptState) (x : X) (ctx : HeaderInfo).

(** The Sealed update is recorded on the value in memory after it has been
    stored; it is not written back. *)
Definition SealCheckpoint s x ctx (ckptWithMeta : RawCheckpointWithMeta)
  : res CkptErr (CkptState * X) :=
  require (bool_decide (Status ckptWithMeta = Sealed)) ErrNotSealed;;
  s ← CreateRawCkptWithMeta s (Some ckptWithMeta);
  mret (s, AfterRawCheckpointSealed hooks (EpochNum (Ckpt ckptWithMeta)) x).

Definition GetStatus s (epochNum : N) : res CkptErr CheckpointStatus :=
  cm ← GetRawCkptWithMeta s epochNum; mret (Status cm).

Definition BuildRawCheckpoint s ctx (epochNum : N) (blockHash : bytes)
  : res CkptErr (CkptState * RawCheckpointWithMeta) :=
  let cm := NewCheckpointWithMeta (NewCheckpoint epochNum blockHash) Accumulating in
  let cm := RecordStateUpdate ctx cm Accumulating in
  s ← CreateRawCkptWithMeta s (Some cm);
  mret (s, cm).

(** The keys and the power of a set of signers, in [int64]. *)
Definition signersKeysAndPower s (signerSet : ValidatorSet) : res CkptErr (list bytes * Z) :=
  fold_res (λ '(keys, sum) v,
    key ← GetBlsPubKey s (Addr v);
    mret (keys ++ [key], int64 (sum + Power v))) ([], 0%Z) signerSet.

Definition VerifyRawCheckpoint s (ckpt : RawCheckpoint) : res CkptErr unit :=
  totalPower ← ek_GetTotalVotingPower (EpochNum ckpt);
  signerSet ← map_err ErrEpoching
    (FindSubset (ek_GetValidatorSet (EpochNum ckpt)) (default [] (ckpt_Bitmap ckpt)));
  '(signersPubKeys, sum) ← signersKeysAndPower s signerSet;
  require (negb (int64 (sum * 3) <=? int64 (totalPower * 2))%Z) ErrInvalidRawCheckpoint;;
  match BlockHash ckpt, BlsMultiSig ckpt with
  | Some blockHash, Some sig =>
      ok ← VerifyMultiSig sig signersPubKeys (GetSignBytes (EpochNum ckpt) blockHash);
      require ok ErrInvalidRawCheckpoint
  | _, _ => Panic
  end.

(** The checks before the hook; the flag says that the checkpoint is the local
    one and needs no signature check. *)
Definition checkCkptBytes s (rawCheckpoint : BtcTxFormatter.RawBtcCheckpoint)
  : res CkptErr (RawCheckpoint * RawCheckpointWithMeta * bool) :=
  ckpt ← FromBTCCkptToRawCkpt rawCheckpoint;
  require (ValidateBasic ckpt) ErrInvalidRawCheckpoint;;
  ckptWithMeta ← GetRawCkptWithMeta s (EpochNum ckpt);
  if bool_decide (Ckpt ckptWithMeta = ckpt) && negb (bool_decide (Status ckptWithMeta = Accumulating))
  then mret (ckpt, ckptWithMeta, true)
  else VerifyRawCheckpoint s ckpt;; mret (ckpt, ckptWithMeta, false).

(** The hook's effect stays also when a conflict is reported. *)
Definition verifyCkptBytes s x (rawCheckpoint : BtcTxFormatter.RawBtcCheckpoint)
  : X * res CkptErr RawCheckpointWithMeta :=
  match checkCkptBytes s rawCheckpoint with
  | Panic => (x, Panic)
  | Err e => (x, Err e)
  | Ok (ckpt, ckptWithMeta, identical) =>
      match AfterRawCheckpointBlsSigVerified hooks ckpt x with
      | None => (x, Err ErrHook)
      | Some x =>
          if (identical : bool) then (x, Ok ckptWithMeta)
          else if bool_decide (BlockHash (Ckpt ckptWithMeta) = BlockHash ckpt)
          then (x, Ok ckptWithMeta)
          else (x, Err ErrConflictingCheckpoint)
      end
  end.

(** [errors.Is(err, ErrConflictingCheckpoint)] sets the flag that halts the chain. *)
Definition VerifyCheckpoint (sx : CkptState * X) (checkpoint : BtcTxFormatter.RawBtcCheckpoint)
  : (CkptState * X) * res CkptErr unit :=
  let '(x, r) := verifyCkptBytes sx.1 sx.2 checkpoint in
  match r with
  | Ok _ => ((sx.1, x), Ok tt)
  | Panic => ((sx.1, x), Panic)
  | Err e =>
      ((if bool_decide (e = ErrConflictingCheckpoint)
        then SetConflictingCheckpointReceived sx.1 true else sx.1, x), Err e)
  end.

Definition validateCheckpointStatus (cm : RawCheckpointWithMeta)
    (allowedStatuses : list CheckpointStatus) : bool :=
  existsb (λ status, bool_decide (Status cm = status)) allowedStatuses.

Definition setCheckpointStatus s ctx (epoch : N) (expectedStatus : list CheckpointStatus)
    (to : CheckpointStatus) : res CkptErr (CkptState * RawCheckpointWithMeta) :=
  cm ← GetRawCkptWithMeta s epoch;
  require (validateCheckpointStatus cm expectedStatus) ErrInvalidCkptStatus;;
  let cm := RecordStateUpdate ctx (setPower cm to (PowerSum cm)) to in
  match UpdateCheckpoint s cm with
  | Ok s => Ok (s, cm)
  | _ => Panic
  end.

(** The setters log the error and return. *)
Definition SetCheckpointSubmitted (sx : CkptState * X) ctx (epoch : N) : res CkptErr (CkptState * X) :=
  match setCheckpointStatus sx.1 ctx epoch [Sealed] Submitted with
  | Err _ => Ok sx
  | Panic => Panic
  | Ok (s, _) => Ok (s, sx.2)
  end.

Definition SetCheckpointConfirmed (sx : CkptState * X) ctx (epoch : N) : res CkptErr (CkptState * X) :=
  match setCheckpointStatus sx.1 ctx epoch [Submitted] Confirmed with
  | Err _ => Ok sx
  | Panic => Panic
  | Ok (s, _) => Ok (s, AfterRawCheckpointConfirmed hooks epoch sx.2)
  end.

Definition SetCheckpointFinalized (sx : CkptState * X) ctx (epoch : N) : res CkptErr (CkptState * X) :=
  match setCheckpointStatus sx.1 ctx epoch [Confirmed] Finalized with
  | Err _ => Ok sx
  | Panic => Panic
  | Ok (s, _) => Ok (SetLastFinalizedEpoch s epoch, AfterRawCheckpointFinalized hooks epoch sx.2)
  end.

Definition SetCheckpointForgotten (sx : CkptState * X) ctx (epoch : N) : res CkptErr (CkptState * X) :=
  match setCheckpointStatus sx.1 ctx epoch [Submitted; Confirmed] Sealed with
  | Err _ => Ok sx
  | Panic => Panic
  | Ok (s, cm) => Ok (s, AfterRawCheckpointForgotten hooks (Ckpt cm) sx.2)
  end.

(** *** Validator sets with BLS keys: [keeper/val_bls_set.go] *)

Definition GetBLSPubKeySet s (epochNumber : N) : res CkptErr (list ValidatorWithBlsKey) :=
  fold_res (λ acc val,
    pubkey ← GetBlsPubKey s (Addr val);
    mret (acc ++ [mkValidatorWithBlsKey (Addr val) pubkey (u64_of_Z (Power val))]))
    [] (ek_GetValidatorSet epochNumber).

Definition InitValidatorBLSSet s (epochNumber : N) : res CkptErr CkptState :=
  valBlsSet ← GetBLSPubKeySet s epochNumber;
  mret (mkCkptState (checkpoints s) (addrToBlsKeys s) (blsKeysToAddr s)
          (<[epochNumber := valBlsSet]> (valBlsSetStore s)) (LastFinalizedEpoch s)
          (ConflictingCheckpointReceived s)).

(** *** Blocks: [abci.go] *)

Definition BeginBlocker s ctx (epoch : Epoch) : res CkptErr CkptState :=
  if IsFirstBlock epoch ctx then
    match InitValidatorBLSSet s (EpochNumber epoch) with
    | Ok s => Ok s
    | _ => Panic
    end
  else Ok s.

Definition EndBlocker s : res CkptErr unit :=
  if ConflictingCheckpointReceived s then Panic else Ok tt.
End keeper.

(** [FindSubsetWithPowerSum] and [GetTotalPower] of [types/val_bls_set.go]. *)
Definition FindSubsetWithPowerSum `{Bitmap} (ks : list ValidatorWithBlsKey) (bm : bytes)
  : res CkptErr (list ValidatorWithBlsKey * N) :=
  if bm_Len bm <? length ks then Err (ErrEpoching ErrBitmapTooSmall)
  else
    fold_res (λ '(valSet, sum) i,
      bit ← bm_Get bm i;
      if (bit : bool) then
        match ks !! i with
        | None => Panic
        | Some v => Ok (valSet ++ [v], u64_add sum (vb_VotingPower v))
        end
      else Ok (valSet, sum)) ([], 0%N) (seq 0 (length ks)).

Definition GetTotalPower (ks : list ValidatorWithBlsKey) : N :=
  foldl (λ total v, u64_add total (vb_VotingPower v)) 0%N ks.

(** ** The life cycle of checkpoints *)

(** The transitions that the setters make. *)
Inductive next_status : CheckpointStatus → CheckpointStatus → Prop :=
  | next_submitted : next_status Sealed Submitted
  | next_confirmed : next_status Submitted Confirmed
  | next_finalized : next_status Confirmed Finalized
  | next_forgotten_submitted : next_status Submitted Sealed
  | next_forgotten_confirmed : next_status Confirmed Sealed.

(** [l] lists the states reached one after the other from [from], ending in [to]. *)
Fixpoint status_path (from : CheckpointStatus) (l : list CheckpointStatus)
    (to : CheckpointStatus) : Prop :=
  match l with
  | [] => from = to
  | st :: l => next_status from st ∧ status_path st l to
  end.

Lemma status_path_snoc from l mid to :
  status_path from l mid → next_status mid to → status_path from (l ++ [to]) to.
Proof.
  revert from. induction l as [|st l IH]; intros from; simpl.
  - by intros ->.
  - intros [? ?] ?. split; [done|]. by apply IH.
Qed.

Section lifecycle.
Context `{BM : Bitmap} `{BL : Blst} `{EK : EpochingKeeper} {X : Type}.
Context (hooks : CheckpointingHooks X).
Implicit Types (s : CkptState) (x : X) (ctx : HeaderInfo) (cm : RawCheckpointWithMeta).

Record ckpt_ok (e : N) cm : Prop := {
  co_epoch : EpochNum (Ckpt cm) = e;
  co_path : status_path Sealed (State <$> Lifecycle cm) (Status cm);
}.

Record lifecycle_ok s : Prop := {
  lo_ckpts e cm : checkpoints s !! e = Some cm → ckpt_ok e cm;
  lo_last e : LastFinalizedEpoch s = Some e → e ≠ 0%N →
    ∃ cm, checkpoints s !! e = Some cm ∧ Status cm = Finalized;
}.

(** What never changes about the checkpoints of [s] on the way to [s']. *)
Definition evolves s s' : Prop :=
  ∀ e cm, checkpoints s !! e = Some cm → ∃ cm', checkpoints s' !! e = Some cm' ∧
    Ckpt cm' = Ckpt cm ∧ Lifecycle cm `prefix_of` Lifecycle cm' ∧
    (Status cm = Finalized → cm' = cm).

#[global] Instance evolves_preorder : PreOrder evolves.
Proof.
  split.
  - intros s e cm He. exists cm. split_and!; done.
  - intros s1 s2 s3 H12 H23 e cm He.
    destruct (H12 e cm He) as (cm2 & He2 & Hc2 & Hp2 & Hf2).
    destruct (H23 e cm2 He2) as (cm3 & He3 & Hc3 & Hp3 & Hf3).
    exists cm3. split_and!; [done|congruence|by etrans|].
    intros Hfin. specialize (Hf2 Hfin) as ->. by apply Hf3.
Qed.

Lemma setCheckpointStatus_spec s ctx e expected to :
  lifecycle_ok s → (∀ st, st ∈ expected → next_status st to) →
  match setCheckpointStatus s ctx e expected to with
  | Ok (s', cm') => ∃ cm, checkpoints s !! e = Some cm ∧ Status cm ∈ expected ∧
      cm' = RecordStateUpdate ctx (setPower cm to (PowerSum cm)) to ∧
      s' = setCheckpoints s (<[e := cm']> (checkpoints s))
  | Err _ => checkpoints s !! e = None ∨
      ∃ cm, checkpoints s !! e = Some cm ∧ Status cm ∉ expected
  | Panic => False
  end.
Proof.
  intros Hok Hnext. unfold setCheckpointStatus, GetRawCkptWithMeta.
  destruct (checkpoints s !! e) as [cm|] eqn:He; simpl; [|by left].
  pose proof (co_epoch _ _ (lo_ckpts _ Hok _ _ He)) as Hep.
  unfold validateCheckpointStatus.
  destruct (existsb _ expected) eqn:Hex; simpl.
  - apply existsb_exists in Hex as (st & Hin%list_elem_of_In & Hst%bool_decide_eq_true). subst st.
    unfold UpdateCheckpoint, GetRawCkptWithMeta. simpl. rewrite Hep, He. simpl. eauto.
  - right. exists cm. split; [done|]. intros Hin. apply not_true_iff_false in Hex. apply Hex.
    apply existsb_exists. exists (Status cm). rewrite <- list_elem_of_In. split; [done|].
    by apply bool_decide_eq_true.
Qed.

Lemma finalized_stays_out (expected : list CheckpointStatus) to :
  (∀ st, st ∈ expected → next_status st to) → Finalized ∉ expected.
Proof. intros H Hin. specialize (H _ Hin). inversion H. Qed.

Lemma status_update_ok s ctx e (expected : list CheckpointStatus) to cm cm' :
  lifecycle_ok s → (∀ st, st ∈ expected → next_status st to) →
  checkpoints s !! e = Some cm → Status cm ∈ expected →
  cm' = RecordStateUpdate ctx (setPower cm to (PowerSum cm)) to →
  let s' := setCheckpoints s (<[e := cm']> (checkpoints s)) in
  lifecycle_ok s' ∧ evolves s s'.
Proof.
  intros Hok Hnext He Hst -> s'. pose proof (lo_ckpts _ Hok _ _ He) as [Hep Hpath].
  pose proof (finalized_stays_out _ _ Hnext) as Hfin.
  split; [split|]; unfold s'; cbn [checkpoints setCheckpoints LastFinalizedEpoch].
  - intros e' cm1 [[<- <-]|[_ He']]%lookup_insert_Some; [|by apply Hok]. split; [done|].
    simpl. rewrite fmap_app. eapply status_path_snoc; [done|]. by apply Hnext.
  - intros e' Hlast Hne. destruct (lo_last _ Hok _ Hlast Hne) as (cm1 & He1 & Hf1).
    exists cm1. split; [|done]. simpl. apply lookup_insert_Some. right.
    split; [|done]. intros ->. simplify_eq. by rewrite Hf1 in Hst.
  - intros e' cm1 He'. simpl. destruct (decide (e = e')) as [<-|Hne].
    + rewrite lookup_insert_eq. simplify_eq. eexists. split_and!; [done|done|by apply prefix_app_r|].
      intros Hf. by rewrite Hf in Hst.
    + rewrite lookup_insert_ne by done. exists cm1. split_and!; done.
Qed.

(** *** Sequences of operations *)

Inductive ckpt_op :=
  | OpSeal (cm : RawCheckpointWithMeta)
  | OpSubmitted (e : N) | OpConfirmed (e : N) | OpFinalized (e : N) | OpForgotten (e : N)
  | OpVerify (c : BtcTxFormatter.RawBtcCheckpoint)
  | OpRegister (key addr : bytes)
  | OpInitBls (e : N).

Definition exec (sx : CkptState * X) ctx (op : ckpt_op) : res CkptErr (CkptState * X) :=
  match op with
  | OpSeal cm => SealCheckpoint hooks sx.1 sx.2 ctx cm
  | OpSubmitted e => SetCheckpointSubmitted sx ctx e
  | OpConfirmed e => SetCheckpointConfirmed hooks sx ctx e
  | OpFinalized e => SetCheckpointFinalized hooks sx ctx e
  | OpForgotten e => SetCheckpointForgotten hooks sx ctx e
  | OpVerify c => Ok (VerifyCheckpoint hooks sx c).1
  | OpRegister key addr => s ← CreateRegistration sx.1 key addr; mret (s, sx.2)
  | OpInitBls e => s ← InitValidatorBLSSet sx.1 e; mret (s, sx.2)
  end.

(** A failed operation is rolled back with its transaction. *)
Definition step (sx : CkptState * X) (co : HeaderInfo * ckpt_op) : CkptState * X :=
  match exec sx co.1 co.2 with Ok sx' => sx' | _ => sx end.

(** A checkpoint arrives sealed with an empty life cycle, as the proposer
    builds it. *)
Definition op_ok (co : HeaderInfo * ckpt_op) : Prop :=
  match co.2 with OpSeal cm => Lifecycle cm = [] | _ => True end.

(** A change that does not touch checkpoints and the last finalised epoch. *)
Lemma lifecycle_same s s' :
  checkpoints s' = checkpoints s → LastFinalizedEpoch s' = LastFinalizedEpoch s →
  lifecycle_ok s → lifecycle_ok s' ∧ evolves s s'.
Proof.
  intros Hc Hl [H1 H2]. split; [split; rewrite ?Hc, ?Hl; done|].
  intros e cm He. rewrite Hc. exists cm. split_and!; done.
Qed.

Lemma setter_ok s ctx e expected to :
  lifecycle_ok s → (∀ st, st ∈ expected → next_status st to) →
  match setCheckpointStatus s ctx e expected to with
  | Ok (s', cm') => lifecycle_ok s' ∧ evolves s s' ∧ checkpoints s' !! e = Some cm' ∧ Status cm' = to
  | Err _ => True
  | Panic => False
  end.
Proof.
  intros Hok Hnext. pose proof (setCheckpointStatus_spec s ctx e expected to Hok Hnext) as H.
  destruct (setCheckpointStatus s ctx e expected to) as [[s' cm']| |]; [|done..].
  destruct H as (cm & He & Hst & Hcm & ->).
  destruct (status_update_ok s ctx e expected to cm cm' Hok Hnext He Hst Hcm).
  split_and!; [done|done|apply lookup_insert_eq|by rewrite Hcm].
Qed.

Lemma seal_ok s x ctx cm s' x' :
  lifecycle_ok s → Lifecycle cm = [] → SealCheckpoint hooks s x ctx cm = Ok (s', x') →
  lifecycle_ok s' ∧ evolves s s'.
Proof.
  intros Hok Hl Hs. unfold SealCheckpoint, CreateRawCkptWithMeta in Hs. inv_ok.
  match goal with H : bool_decide (Status cm = Sealed) = true |- _ =>
    apply bool_decide_eq_true in H as Hst end.
  match goal with H : negb _ = true |- _ =>
    apply negb_true_iff, bool_decide_eq_false, eq_None_not_Some in H as Hnone end.
  split; [split|]; cbn [checkpoints setCheckpoints LastFinalizedEpoch].
  - intros e cm' [[<- <-]|[_ He]]%lookup_insert_Some; [|by apply Hok].
    split; [done|]. by rewrite Hl, Hst.
  - intros e Hlast Hne. destruct (lo_last _ Hok _ Hlast Hne) as (cm1 & He1 & Hf1).
    exists cm1. split; [|done]. apply lookup_insert_Some. right.
    split; [|done]. intros <-. congruence.
  - intros e cm1 He. exists cm1. simpl. rewrite lookup_insert_ne by congruence.
    split_and!; done.
Qed.

Lemma finalize_ok s e cm :
  lifecycle_ok s → checkpoints s !! e = Some cm → Status cm = Finalized →
  lifecycle_ok (SetLastFinalizedEpoch s e).
Proof. intros [H1 H2] He Hf. split; simpl; [done|]. intros ? [= <-] _. eauto. Qed.

Lemma step_ok sx co :
  lifecycle_ok sx.1 → op_ok co → lifecycle_ok (step sx co).1 ∧ evolves sx.1 (step sx co).1.
Proof.
  destruct sx as [s x], co as [ctx op]. unfold step, op_ok. simpl. intros Hok Hop.
  destruct op as [cm|e|e|e|e|c|key addr|e]; simpl in *.
  - destruct (SealCheckpoint _ _ _ _ _) as [[s' x']| |] eqn:Hs; [by eapply seal_ok|done..].
  - unfold SetCheckpointSubmitted. simpl.
    pose proof (setter_ok s ctx e [Sealed] Submitted Hok) as H.
    destruct (setCheckpointStatus _ _ _ _ _) as [[s' cm']| |]; [|done..].
    destruct H as (? & ? & _); [|done]. intros st ->%list_elem_of_singleton. constructor.
  - unfold SetCheckpointConfirmed. simpl.
    pose proof (setter_ok s ctx e [Submitted] Confirmed Hok) as H.
    destruct (setCheckpointStatus _ _ _ _ _) as [[s' cm']| |]; [|done..].
    destruct H as (? & ? & _); [|done]. intros st ->%list_elem_of_singleton. constructor.
  - unfold SetCheckpointFinalized. simpl.
    pose proof (setter_ok s ctx e [Confirmed] Finalized Hok) as H.
    destruct (setCheckpointStatus _ _ _ _ _) as [[s' cm']| |]; [|done..].
    destruct H as (? & ? & ? & ?); [intros st ->%list_elem_of_singleton; constructor|].
    split; [by eapply finalize_ok|done].
  - unfold SetCheckpointForgotten. simpl.
    pose proof (setter_ok s ctx e [Submitted; Confirmed] Sealed Hok) as H.
    destruct (setCheckpointStatus _ _ _ _ _) as [[s' cm']| |]; [|done..].
    destruct H as (? & ? & _); [|done].
    intros st [->|[->|?%elem_of_nil]%elem_of_cons]%elem_of_cons; [constructor..|done].
  - unfold VerifyCheckpoint. simpl. destruct (verifyCkptBytes _ _ _ _) as [x' [?|e|]]; [done| |done].
    simpl. case_bool_decide; [by apply lifecycle_same|done].
  - unfold CreateRegistration. destruct (_ ≫= _) as [s'|e|] eqn:Hr; simpl; [|done..].
    inv_ok. by apply lifecycle_same.
  - destruct (InitValidatorBLSSet s e) as [s'|?|] eqn:Hr; simpl; [|done..].
    unfold InitValidatorBLSSet in Hr. inv_ok. by apply lifecycle_same.
Qed.

(** C10: Whatever sequence of operations the other modules call, the history
    recorded with a checkpoint is a path of allowed transitions from Sealed to
    its present status; its contents never change, its history only grows, and
    once Finalized it never changes again. *)
Theorem checkpoint_lifecycle sx ops :
  lifecycle_ok sx.1 → Forall op_ok ops →
  let s' := (foldl step sx ops).1 in
  lifecycle_ok s' ∧
  ∀ e cm, checkpoints sx.1 !! e = Some cm → ∃ cm', checkpoints s' !! e = Some cm' ∧
    Ckpt cm' = Ckpt cm ∧ Lifecycle cm `prefix_of` Lifecycle cm' ∧
    (Status cm = Finalized → cm' = cm).
Proof.
  intros Hok Hops. change (∀ e cm, _) with (evolves sx.1 (foldl step sx ops).1).
  revert sx Hok. induction Hops as [|op ops Hop _ IH]; intros sx Hok; simpl; [done|].
  destruct (step_ok sx op Hok Hop) as [H1 H2].
  destruct (IH (step sx op) H1) as [H3 H4]. split; [done|by etrans].
Qed.
End lifecycle.

(** ** Accumulating signatures *)

Section accumulate.
Context `{BM : Bitmap} `{BML : !BitmapLaws} `{BL : Blst}.
Implicit Types (vals : ValidatorSet) (cm : RawCheckpointWithMeta) (bm : bytes).

(** The power of the validators from index [i] on whose bit is set. *)
Fixpoint flagged_power bm (i : nat) vals : Z :=
  match vals with
  | [] => 0
  | v :: vals => ((if bm_Bit bm i then Power v else 0) + flagged_power bm (S i) vals)%Z
  end.

Lemma flagged_power_subset bm i vals :
  sum_power (Power <$> (snd <$> filter (λ iv, bm_Bit bm iv.1 = true) (zip (seq i (length vals)) vals))) =
  flagged_power bm i vals.
Proof.
  revert i. induction vals as [|v vals IH]; intros i; simpl; [done|].
  rewrite filter_cons. simpl. destruct (bm_Bit bm i) eqn:Hb.
  - rewrite decide_True by done. simpl. f_equal. apply IH.
  - rewrite decide_False by done. apply IH.
Qed.

Lemma flagged_power_put bm i vals j v :
  j < bm_Len bm → bm_Bit bm j = false → i ≤ j → vals !! (j - i) = Some v →
  flagged_power (bm_Put bm j true) i vals = (flagged_power bm i vals + Power v)%Z.
Proof.
  intros Hj Hb. revert i. induction vals as [|w vals IH]; intros i Hij Hv; [done|]. simpl.
  rewrite bm_Bit_Put by done. destruct (decide (j = i)) as [->|Hne].
  - rewrite Nat.sub_diag in Hv. simplify_eq/=. rewrite Hb.
    assert (∀ k vals, i < k → flagged_power (bm_Put bm i true) k vals = flagged_power bm k vals) as Hrest.
    { clear -Hj BML. intros k vals. revert k. induction vals as [|w vals IH]; intros k Hk; simpl; [done|].
      rewrite bm_Bit_Put by done. rewrite decide_False by lia. rewrite IH by lia. done. }
    rewrite Hrest by lia. lia.
  - rewrite (IH (S i)) by (lia || (replace (j - i) with (S (j - S i)) in Hv by lia; done)). lia.
Qed.

Lemma flagged_power_bounds bm i vals :
  Forall (λ v, 0 ≤ Power v)%Z vals → (0 ≤ flagged_power bm i vals ≤ sum_power (Power <$> vals))%Z.
Proof.
  intros Hp. revert i. induction Hp as [|v vals Hv _ IH]; intros i; [done|].
  change (sum_power (Power <$> v :: vals)) with (Power v + sum_power (Power <$> vals))%Z.
  simpl. specialize (IH (S i)). destruct (bm_Bit bm i); lia.
Qed.

Lemma flagged_power_New l i vals : flagged_power (bm_New l) i vals = 0%Z.
Proof.
  revert i. induction vals as [|v vals IH]; intros i; simpl; [done|].
  by rewrite bm_Bit_New, IH.
Qed.

(** What a validator set has to satisfy: sorted, no negative power, small enough
    for the bitmap and for [int64]. *)
Record vals_ok vals : Prop := {
  vo_sorted : StronglySorted val_lt vals;
  vo_power : Forall (λ v, 0 ≤ Power v)%Z vals;
  vo_size : length vals ≤ BitmapBits;
  vo_total : (sum_power (Power <$> vals) * 3 < 2 ^ 63)%Z;
}.

(** More than two thirds of the power. *)
Definition quorum (power total : Z) : Prop := (total * 2 < power * 3)%Z.

Record acc_ok vals (epoch : N) (hash : bytes) (voted : list bytes) cm : Prop := {
  ao_epoch : EpochNum (Ckpt cm) = epoch;
  ao_hash : BlockHash (Ckpt cm) = Some hash;
  ao_lifecycle : Lifecycle cm = [];
  ao_bitmap : ∃ bm, ckpt_Bitmap (Ckpt cm) = Some bm ∧ BitmapBits ≤ bm_Len bm ∧
    Z.of_N (PowerSum cm) = flagged_power bm 0 vals ∧
    ∀ i v, bm_Bit bm i = true → vals !! i = Some v → Addr v ∈ voted;
  ao_status : Status cm = Accumulating ∧ ¬ quorum (Z.of_N (PowerSum cm)) (sum_power (Power <$> vals)) ∨
              Status cm = Sealed ∧ quorum (Z.of_N (PowerSum cm)) (sum_power (Power <$> vals));
}.

Lemma acc_ok_voted vals epoch hash voted voted' cm :
  acc_ok vals epoch hash voted cm → voted ⊆ voted' → acc_ok vals epoch hash voted' cm.
Proof.
  intros [He Hh Hlc (bm & Hbm & Hlen & Hpow & Hv) Hst] Hsub. split; [done..| |done].
  exists bm. split_and!; [done..|]. intros i v Hi Hvi. apply Hsub. by eapply Hv.
Qed.

Lemma Accumulate_ok vals epoch hash voted cm addr key sig :
  vals_ok vals → acc_ok vals epoch hash voted cm →
  ∃ cm' err, Accumulate cm vals addr key sig (sum_power (Power <$> vals)) = Ok (cm', err) ∧
    acc_ok vals epoch hash (addr :: voted) cm'.
Proof.
  intros [Hs Hp Hsz Ht] Hao%(acc_ok_voted _ _ _ _ (addr :: voted)); [|set_solver].
  pose proof Hao as [He Hh Hlc (bm & Hbm & Hlen & Hpow & Hvoted) Hst].
  unfold Accumulate.
  destruct (bool_decide_reflect (Status cm = Accumulating)) as [Hacc|Hacc]; simpl; [|by eauto].
  destruct Hst as [[_ Hnq]|[? _]]; [|congruence].
  destruct (FindValidatorWithIndex_spec vals addr Hs) as (Hok & _ & Hnp).
  destruct (FindValidatorWithIndex vals addr) as [[v i]|e|] eqn:Hf; [|by eauto|done].
  destruct (proj1 (Hok v i) eq_refl) as [Hi Haddr]. pose proof (lookup_lt_Some _ _ _ Hi).
  rewrite Hbm. simpl. rewrite bm_Get_in by lia. simpl.
  destruct (bm_Bit bm i) eqn:Hbit; [by eauto|].
  destruct (match BlsMultiSig (Ckpt cm) with Some s => _ | None => _ end) as [aggSig|e|] eqn:Hsig.
  2: { by eauto. }
  2: { destruct (BlsMultiSig (Ckpt cm)); [by apply AggrSig_no_panic in Hsig|done]. }
  simpl. destruct (match BlsAggrPk cm with Some s => _ | None => _ end) as [aggPk|e|] eqn:Hpk.
  2: { eexists _, _. split; [done|]. split; eauto. }
  2: { destruct (BlsAggrPk cm); [by apply AggrPK_no_panic in Hpk|done]. }
  rewrite bm_Set_in by lia. simpl. eexists _, _. split; [done|].
  pose proof (flagged_power_put bm 0 vals i v ltac:(lia) Hbit ltac:(lia) ltac:(by rewrite Nat.sub_0_r)) as Hput.
  pose proof (flagged_power_bounds (bm_Put bm i true) 0 vals Hp) as Hbounds.
  pose proof (flagged_power_bounds bm 0 vals Hp).
  assert (0 ≤ Power v)%Z by (rewrite Forall_forall in Hp; by eapply Hp, list_elem_of_lookup_2).
  unfold u64_of_Z. rewrite Z.mod_small by lia. rewrite u64_add_small by lia.
  assert (Z.of_N (PowerSum cm + Z.to_N (Power v)) = flagged_power (bm_Put bm i true) 0 vals)%Z as Hsum by lia.
  split; simpl; [done|done|done| |].
  - exists (bm_Put bm i true). rewrite bm_Len_Put. split_and!; [done..|].
    intros j w. rewrite bm_Bit_Put by lia. case_decide; [subst j|by apply Hvoted].
    intros _ Hw. simplify_eq. by left.
  - rewrite Hsum, (int64_small (flagged_power _ _ _)), !int64_small by lia. unfold quorum.
    destruct (Z.ltb_spec (sum_power (Power <$> vals) * 2) (flagged_power (bm_Put bm i true) 0 vals * 3)).
    + by right.
    + left. split; [done|]. lia.
Qed.

(** Signatures are accumulated one after the other; errors are skipped. *)
Definition accumulate_all vals (total : Z) cm (votes : list (bytes * bytes * bytes))
  : res False RawCheckpointWithMeta :=
  fold_res (λ cm '(addr, key, sig),
    r ← Accumulate cm vals addr key sig total; mret r.1) cm votes.

Lemma accumulate_all_ok vals epoch hash voted cm votes :
  vals_ok vals → acc_ok vals epoch hash voted cm →
  ∃ cm', accumulate_all vals (sum_power (Power <$> vals)) cm votes = Ok cm' ∧
    acc_ok vals epoch hash (voted ++ votes.*1.*1) cm'.
Proof.
  intros Hv. revert voted cm. induction votes as [|[[addr key] sig] votes IH]; intros voted cm Hao.
  - exists cm. split; [done|]. by rewrite app_nil_r.
  - destruct (Accumulate_ok vals epoch hash voted cm addr key sig Hv Hao) as (cm1 & err & H1 & Hao1).
    destruct (IH _ _ Hao1) as (cm2 & H2 & Hao2). exists cm2. split.
    + unfold accumulate_all. simpl. rewrite H1. exact H2.
    + eapply acc_ok_voted; [done|]. set_solver.
Qed.

Lemma new_checkpoint_ok vals epoch hash :
  vals_ok vals →
  acc_ok vals epoch hash [] (NewCheckpointWithMeta (NewCheckpoint epoch hash) Accumulating).
Proof.
  intros [_ Hp _ _]. split; simpl; [done..| |].
  - exists (bm_New BitmapBits). split_and!; [done|apply bm_Len_New|by rewrite flagged_power_New|].
    intros i v. by rewrite bm_Bit_New.
  - left. split; [done|]. unfold quorum.
    pose proof (sum_power_nonneg (Power <$> vals)). rewrite Forall_fmap in H.
    specialize (H Hp). simpl. lia.
Qed.

(** Accumulating any list of signatures onto a new checkpoint of an epoch,
    in any order and with repetitions and failures, never panics; the bitmap
    then selects the validators that were counted, each once and only if it
    voted; the power sum is their power, and the checkpoint is Sealed exactly
    when that is more than two thirds of the total. *)
Theorem accumulate_counts_once vals epoch hash votes :
  vals_ok vals →
  ∃ cm bm signers,
    accumulate_all vals (sum_power (Power <$> vals))
      (NewCheckpointWithMeta (NewCheckpoint epoch hash) Accumulating) votes = Ok cm ∧
    EpochNum (Ckpt cm) = epoch ∧ BlockHash (Ckpt cm) = Some hash ∧
    ckpt_Bitmap (Ckpt cm) = Some bm ∧ FindSubset vals bm = Ok signers ∧
    (∀ v, v ∈ signers → v ∈ vals ∧ Addr v ∈ votes.*1.*1) ∧
    Z.of_N (PowerSum cm) = sum_power (Power <$> signers) ∧
    (Status cm = Sealed ↔ quorum (sum_power (Power <$> signers)) (sum_power (Power <$> vals))) ∧
    (Status cm = Sealed ∨ Status cm = Accumulating).
Proof.
  intros Hv. destruct (accumulate_all_ok vals epoch hash []
    (NewCheckpointWithMeta (NewCheckpoint epoch hash) Accumulating) votes Hv)
    as (cm & Hcm & [He Hh _ (bm & Hbm & Hlen & Hpow & Hvoted) Hst]);
    [by apply new_checkpoint_ok|].
  pose proof (vo_size _ Hv) as Hsz. pose proof (flagged_power_subset bm 0 vals) as Hsub.
  pose proof (FindSubset_spec vals bm ltac:(lia)) as Hf.
  eexists cm, bm, _. split_and!; [done..|exact Hf| |by rewrite Hsub| |].
  2: { rewrite Hsub, <- Hpow. by destruct Hst as [[-> ?]|[-> ?]]. }
  2: { destruct Hst as [[-> _]|[-> _]]; auto. }
  intros v ([i w] & -> & [Hbit Hin]%list_elem_of_filter)%list_elem_of_fmap. simpl in *.
  apply elem_of_lookup_zip_with in Hin as (j & i' & w' & [= -> ->] & Hi & Hw).
  apply lookup_seq in Hi as [-> _]. split; [by eapply list_elem_of_lookup_2|].
  by eapply Hvoted.
Qed.
End accumulate.

(** ** Registrations *)

(** The two stores are inverse to each other and hold keys of the right size. *)
Record reg_ok (s : CkptState) : Prop := {
  ro_inverse a k : addrToBlsKeys s !! a = Some k ↔ blsKeysToAddr s !! k = Some a;
  ro_size a k : addrToBlsKeys s !! a = Some k → length k = PubKeySize;
}.

Lemma GetBlsPubKey_Ok s a k : reg_ok s → GetBlsPubKey s a = Ok k ↔ addrToBlsKeys s !! a = Some k.
Proof.
  intros [_ Hsz]. unfold GetBlsPubKey. split.
  - intros H. inv_ok. done.
  - intros H. rewrite H. simpl. by rewrite (Hsz _ _ H).
Qed.

(** Validators and BLS keys are registered one to one. A registration
    succeeds exactly when neither the validator nor the key is bound to another
    partner; it then binds them to each other and keeps all other bindings. *)
Theorem registration_bijective s key addr :
  reg_ok s → length key = PubKeySize →
  ((∃ s', CreateRegistration s key addr = Ok s') ↔
     (∀ k, GetBlsPubKey s addr = Ok k → k = key) ∧ (∀ a, GetValAddr s key = Ok a → a = addr)) ∧
  ∀ s', CreateRegistration s key addr = Ok s' →
    reg_ok s' ∧ GetBlsPubKey s' addr = Ok key ∧ GetValAddr s' key = Ok addr ∧
    checkpoints s' = checkpoints s ∧
    ∀ a k, GetBlsPubKey s a = Ok k → GetBlsPubKey s' a = Ok k.
Proof.
  intros Hok Hk. pose proof Hok as [Hinv Hsz].
  assert ((∃ s', CreateRegistration s key addr = Ok s') ↔
     (∀ k, GetBlsPubKey s addr = Ok k → k = key) ∧ (∀ a, GetValAddr s key = Ok a → a = addr)) as Hiff.
  { unfold CreateRegistration, GetValAddr. setoid_rewrite of_option_Ok.
    destruct (GetBlsPubKey s addr) as [k| |], (blsKeysToAddr s !! key) as [a|];
      simpl; repeat case_bool_decide; simpl; naive_solver. }
  split; [done|]. intros s' Hs'. destruct (proj1 Hiff (ex_intro _ _ Hs')) as [H1 H2].
  unfold CreateRegistration in Hs'. inv_ok.
  setoid_rewrite (GetBlsPubKey_Ok s) in H1; [|done]. unfold GetValAddr in H2.
  setoid_rewrite of_option_Ok in H2.
  assert (reg_ok (setRegistrations s (<[addr:=key]> (addrToBlsKeys s)) (<[key:=addr]> (blsKeysToAddr s)))) as Hok'.
  { split; simpl.
    - intros a k. rewrite !lookup_insert_Some. split.
      + intros [[<- <-]|[Hne Ha]]; [by left|]. right. apply Hinv in Ha as Hb.
        split; [|done]. intros <-. apply Hne. symmetry. by apply H2.
      + intros [[<- <-]|[Hne Ha]]; [by left|]. right. apply Hinv in Ha as Hb.
        split; [|done]. intros <-. apply Hne. symmetry. by apply H1.
    - intros a k [[<- <-]|[_ Ha]]%lookup_insert_Some; [done|by eapply Hsz]. }
  split_and!; [done| | |done|].
  - apply GetBlsPubKey_Ok; [done|]. apply lookup_insert_eq.
  - unfold GetValAddr. simpl. by rewrite lookup_insert_eq.
  - intros a k Ha%(GetBlsPubKey_Ok s); [|done]. apply GetBlsPubKey_Ok; [done|]. simpl.
    apply lookup_insert_Some. destruct (decide (addr = a)) as [<-|]; [left|by right].
    split; [done|]. symmetry. by apply H1.
Qed.

(** ** Verification of checkpoints found on Bitcoin *)

Section verification.
Context `{BM : Bitmap} `{BL : Blst} `{EK : EpochingKeeper} {X : Type}.
Context (hooks : CheckpointingHooks X).
Implicit Types (s : CkptState) (x : X).

(** A set of validators with more than two thirds of the power of the epoch
    signed [hash] with their registered keys. *)
Definition quorum_signed s (epoch : N) (hash bm sig : bytes) : Prop :=
  ∃ signers keys aggPk total,
    FindSubset (ek_GetValidatorSet epoch) bm = Ok signers ∧
    Forall2 (λ v k, GetBlsPubKey s (Addr v) = Ok k) signers keys ∧
    ek_GetTotalVotingPower epoch = Ok total ∧
    quorum (sum_power (Power <$> signers)) total ∧
    AggrPKList keys = Ok aggPk ∧ Verify sig aggPk (GetSignBytes epoch hash) = true.

Lemma signersKeysAndPower_spec s signers r :
  Forall (λ v, 0 ≤ Power v)%Z signers → (sum_power (Power <$> signers) < 2 ^ 63)%Z →
  signersKeysAndPower s signers = Ok r →
  Forall2 (λ v k, GetBlsPubKey s (Addr v) = Ok k) signers r.1 ∧
  r.2 = sum_power (Power <$> signers).
Proof.
  intros Hp Hb. unfold signersKeysAndPower.
  enough (∀ acc n, (0 ≤ n)%Z → (n + sum_power (Power <$> signers) < 2 ^ 63)%Z →
    fold_res (λ '(keys, sum) v,
      key ← GetBlsPubKey s (Addr v); mret (keys ++ [key], int64 (sum + Power v)))
      (acc, n) signers = Ok r →
    ∃ keys, r.1 = acc ++ keys ∧ Forall2 (λ v k, GetBlsPubKey s (Addr v) = Ok k) signers keys ∧
      r.2 = (n + sum_power (Power <$> signers))%Z) as Hgen.
  { intros Hr. destruct (Hgen [] 0%Z ltac:(lia) ltac:(lia) Hr) as (keys & -> & ? & ->). done. }
  clear Hb. induction Hp as [|v signers Hv Hpos IH]; intros acc n Hn Hb Hr; simpl in Hr.
  - inv_ok. exists []. rewrite app_nil_r. split_and!; [done|constructor|simpl; lia].
  - change (sum_power (Power <$> v :: signers)) with (Power v + sum_power (Power <$> signers))%Z in *.
    assert (0 ≤ sum_power (Power <$> signers))%Z by (by apply sum_power_nonneg, Forall_fmap).
    apply bind_Ok in Hr as (st & Hst & Hr). apply bind_Ok in Hst as (key & Hkey & [= <-]).
    rewrite int64_small in Hr by lia.
    destruct (IH (acc ++ [key]) (n + Power v)%Z ltac:(lia) ltac:(lia) Hr) as (keys & -> & Hf & ->).
    exists (key :: keys). rewrite <- app_assoc. split_and!; [done|by constructor|lia].
Qed.

Lemma FindSubset_subset vals bm signers :
  FindSubset vals bm = Ok signers → signers ⊆ vals ∧
  (Forall (λ v, 0 ≤ Power v)%Z vals → sum_power (Power <$> signers) ≤ sum_power (Power <$> vals))%Z.
Proof.
  intros Hf. assert (length vals ≤ bm_Len bm) as Hl.
  { unfold FindSubset in Hf. destruct (Nat.ltb_spec (bm_Len bm) (length vals)); [done|lia]. }
  rewrite FindSubset_spec in Hf by done. injection Hf as <-. split.
  - intros v ([i w] & -> & [_ Hin]%list_elem_of_filter)%list_elem_of_fmap.
    apply elem_of_lookup_zip_with in Hin as (j & i' & w' & [= -> ->] & _ & Hw).
    by eapply list_elem_of_lookup_2.
  - intros Hp. rewrite flagged_power_subset. by apply flagged_power_bounds.
Qed.

Lemma VerifyRawCheckpoint_quorum s ckpt hash sig :
  let vals := ek_GetValidatorSet (EpochNum ckpt) in
  vals_ok vals → ek_GetTotalVotingPower (EpochNum ckpt) = Ok (sum_power (Power <$> vals)) →
  BlockHash ckpt = Some hash → BlsMultiSig ckpt = Some sig →
  VerifyRawCheckpoint s ckpt = Ok tt →
  quorum_signed s (EpochNum ckpt) hash (default [] (ckpt_Bitmap ckpt)) sig.
Proof.
  intros vals [Hs Hp Hsz Ht] Htot Hh Hsig Hv. unfold VerifyRawCheckpoint in Hv.
  rewrite Htot, Hh, Hsig in Hv. simpl in Hv.
  apply bind_Ok in Hv as (signers & Hf%map_err_Ok & Hv).
  apply bind_Ok in Hv as ([keys sum] & Hk & Hv).
  apply bind_Ok in Hv as ([] & Hq%require_Ok & Hv). cbv beta in Hv.
  apply bind_Ok in Hv as (ok & Hok & ->%require_Ok).
  unfold VerifyMultiSig in Hok. inv_ok.
  destruct (FindSubset_subset _ _ _ Hf) as [Hsub Hle]. specialize (Hle Hp).
  assert (Forall (λ v, 0 ≤ Power v)%Z signers) as Hps
    by (rewrite Forall_forall in Hp |- *; intros v Hin; by apply Hp, Hsub).
  assert (0 ≤ sum_power (Power <$> vals))%Z by (by apply sum_power_nonneg, Forall_fmap).
  assert (0 ≤ sum_power (Power <$> signers))%Z by (by apply sum_power_nonneg, Forall_fmap).
  fold vals in Hle. apply signersKeysAndPower_spec in Hk as [Hk1 Hk2]; [|done|lia].
  simpl in Hk2. subst sum.
  rewrite !int64_small in Hq by lia. apply negb_true_iff, Z.leb_gt in Hq.
  eexists signers, keys, _, _. split_and!; [done..|exact Htot|unfold quorum; lia|done|done].
Qed.

(** A sealed checkpoint is its own proof; any other has to carry a quorum. *)
Definition justified s (c : BtcTxFormatter.RawBtcCheckpoint) cm : Prop :=
  (Status cm ≠ Accumulating ∧
   Ckpt cm = mkRawCheckpoint (BtcTxFormatter.Epoch c) (Some (BtcTxFormatter.BlockHash c))
               (Some (BtcTxFormatter.BitMap c)) (Some (BtcTxFormatter.BlsSig c))) ∨
  quorum_signed s (BtcTxFormatter.Epoch c) (BtcTxFormatter.BlockHash c)
    (BtcTxFormatter.BitMap c) (BtcTxFormatter.BlsSig c).

Lemma checkCkptBytes_Ok s c ckpt cm identical :
  checkCkptBytes s c = Ok (ckpt, cm, identical) →
  ckpt = mkRawCheckpoint (BtcTxFormatter.Epoch c) (Some (BtcTxFormatter.BlockHash c))
           (Some (BtcTxFormatter.BitMap c)) (Some (BtcTxFormatter.BlsSig c)) ∧
  checkpoints s !! BtcTxFormatter.Epoch c = Some cm ∧
  (if identical then Ckpt cm = ckpt ∧ Status cm ≠ Accumulating
   else VerifyRawCheckpoint s ckpt = Ok tt).
Proof.
  unfold checkCkptBytes, FromBTCCkptToRawCkpt. intros Hc.
  apply bind_Ok in Hc as (ckpt' & Hck & Hc). inv_ok.
  match goal with H : GetRawCkptWithMeta _ _ = Ok _ |- _ =>
    unfold GetRawCkptWithMeta in H; apply of_option_Ok in H as Hget end.
  match goal with H : (if ?b then _ else _) = Ok _ |- _ => destruct b eqn:Hb end; inv_ok.
  - apply andb_true_iff in Hb as [Hid%bool_decide_eq_true Hna%negb_true_iff%bool_decide_eq_false].
    done.
  - split_and!; [done|done|]. by match goal with u : unit |- _ => destruct u end.
Qed.

Lemma checkCkptBytes_Err s c e :
  (∃ total, ek_GetTotalVotingPower (BtcTxFormatter.Epoch c) = Ok total) →
  checkCkptBytes s c = Err e → e ≠ ErrConflictingCheckpoint.
Proof.
  intros (total & Ht) Hc. unfold checkCkptBytes, FromBTCCkptToRawCkpt in Hc.
  apply bind_Err in Hc as [Hc|(ckpt & Hck & Hc)]; [by inv_err; subst|]. inv_ok.
  apply bind_Err in Hc as [Hc|([] & _ & Hc)]; [by inv_err; subst|]. cbv beta in Hc.
  apply bind_Err in Hc as [Hc|(cm & _ & Hc)]; [unfold GetRawCkptWithMeta in Hc; by inv_err; subst|].
  case_match; [done|]. unfold VerifyRawCheckpoint in Hc. simpl in Hc. rewrite Ht in Hc. simpl in Hc.
  apply bind_Err in Hc as [Hc|([] & _ & Hc)]; [|done].
  apply bind_Err in Hc as [Hc|(signers & _ & Hc)].
  { destruct (FindSubset _ _); simplify_eq/=; done. }
  apply bind_Err in Hc as [Hc|([keys sum] & _ & Hc)].
  { apply fold_res_Err in Hc as ([? ?] & v & _ & Hc). unfold GetBlsPubKey in Hc. inv_err; by subst. }
  unfold VerifyMultiSig, AggrPKList in Hc. inv_err; by subst.
Qed.

(** A checkpoint found on Bitcoin is accepted only for an epoch whose local
    checkpoint has the same block hash, when it is the local checkpoint or is
    signed by a quorum; the store does not change. The conflict flag is set
    exactly when a quorum signed another block hash for the epoch, and then the
    end of the block halts the chain. Every other outcome leaves the store. *)
Theorem verify_checkpoint_spec s x s' x' r c :
  (∀ e, vals_ok (ek_GetValidatorSet e) ∧
        ek_GetTotalVotingPower e = Ok (sum_power (Power <$> ek_GetValidatorSet e))) →
  VerifyCheckpoint hooks (s, x) c = ((s', x'), r) →
  match r with
  | Ok _ => s' = s ∧ ∃ cm, checkpoints s !! BtcTxFormatter.Epoch c = Some cm ∧
      BlockHash (Ckpt cm) = Some (BtcTxFormatter.BlockHash c) ∧ justified s c cm
  | Err ErrConflictingCheckpoint =>
      s' = SetConflictingCheckpointReceived s true ∧ EndBlocker s' = Panic ∧
      ∃ cm, checkpoints s !! BtcTxFormatter.Epoch c = Some cm ∧
         BlockHash (Ckpt cm) ≠ Some (BtcTxFormatter.BlockHash c) ∧
         quorum_signed s (BtcTxFormatter.Epoch c) (BtcTxFormatter.BlockHash c)
           (BtcTxFormatter.BitMap c) (BtcTxFormatter.BlsSig c)
  | _ => s' = s
  end.
Proof.
  intros Hek Hv. unfold VerifyCheckpoint, verifyCkptBytes in Hv. simpl in Hv.
  pose proof (λ H, VerifyRawCheckpoint_quorum s
    (mkRawCheckpoint (BtcTxFormatter.Epoch c) (Some (BtcTxFormatter.BlockHash c))
       (Some (BtcTxFormatter.BitMap c)) (Some (BtcTxFormatter.BlsSig c)))
    _ _ (proj1 (Hek _)) (proj2 (Hek _)) eq_refl eq_refl H) as Hq. simpl in Hq.
  destruct (checkCkptBytes s c) as [[[ckpt cm] identical]|e|] eqn:Hc; [| |by simplify_eq].
  2: { simplify_eq. apply checkCkptBytes_Err in Hc; [|by eexists; apply Hek].
       rewrite bool_decide_eq_false_2 by done. by destruct e. }
  apply checkCkptBytes_Ok in Hc as (-> & Hcm & Hid).
  destruct (AfterRawCheckpointBlsSigVerified _ _ _) as [x1|]; [|by simplify_eq].
  destruct identical; [|case_bool_decide as Hh]; simplify_eq/=.
  - destruct Hid as [Hid Hna]. split; [done|]. exists cm. rewrite Hid.
    split_and!; [done|done|by left].
  - split; [done|]. exists cm. split_and!; [done|done|right; by apply Hq].
  - split_and!; [done|done|]. exists cm. split_and!; [done|done|by apply Hq].
Qed.
End verification.

End Checkpointing.
