(* ===== verification/CheckpointingProposal.v ===== *)
(** Building the checkpoint of an epoch from the vote extensions of its last
    block: [src/anon/x/checkpointing/prepare/proposal.go], with [VerifyBLSSig]
    of the keeper and [VoteExtension] of [types/types.go]. *)
From stdpp Require Import base numbers list sorting gmap strings.
From S2P Require Import Prelude KVStore Bytes Epoching BtcTxFormatter Checkpointing.

Module CheckpointingProposal.
Import Epoching Checkpointing.

Record VoteExtension := mkVoteExtension {
  ve_Signer : string;
  ve_ValidatorAddress : string;
  ve_BlockHash : option bytes;
  ve_EpochNum : N;
  ve_Height : N;
  ve_BlsSig : option bytes;
}.

Record BlsSig := mkBlsSig {
  bs_EpochNum : N;
  bs_BlockHash : bytes;
  bs_BlsSig : bytes;
  bs_SignerAddress : string;
  bs_ValidatorAddress : string;
}.

(** [abci.ExtendedVoteInfo]: the power of the voter and the extension's bytes. *)
Record ExtendedVoteInfo := mkExtendedVoteInfo {
  vote_Power : Z;
  vote_Extension : bytes;
  vote_Absent : bool;
}.

(** Protobuf decoding of extensions and bech32 decoding of addresses. *)
Class VoteCodec := {
  ve_Unmarshal : bytes → option VoteExtension;
  (** [unknownproto.RejectUnknownFieldsStrict] *)
  ve_KnownFieldsOnly : bytes → bool;
  ValAddressFromBech32 : string → option bytes;
}.

Inductive PropErr :=
  | ErrEmptyExtension | ErrUnknownFields | ErrUnmarshal | ErrInvalidExtension
  | ErrInvalidAddress | ErrUnexpectedBlockHash | ErrNoBlockHash
  | ErrInsufficientVotingPower | ErrCkpt (e : CkptErr) | ErrMapOrder.

Section proposal.
Context `{BM : Bitmap} `{BL : Blst} `{EK : EpochingKeeper} `{VC : VoteCodec}.
(** The order in which [range] visits a Go map: any order. *)
Context (map_range : gmap bytes Z → list (bytes * Z)).
Implicit Types (s : CkptState) (votes : list ExtendedVoteInfo).

Definition VoteExtension_Validate (ve : VoteExtension) : bool :=
  negb (bool_decide (ve_Signer ve = "")) && negb (bool_decide (ve_ValidatorAddress ve = "")) &&
  bool_decide (is_Some (ve_BlockHash ve)) && bool_decide (is_Some (ve_BlsSig ve)).

(** [VerifyBLSSig] of [keeper/keeper.go]. *)
Definition VerifyBLSSig s (sig : BlsSig) : res PropErr unit :=
  signerAddr ← of_option ErrInvalidAddress (ValAddressFromBech32 (bs_SignerAddress sig));
  signerBlsKey ← map_err ErrCkpt (GetBlsPubKey s signerAddr);
  require (Verify (bs_BlsSig sig) signerBlsKey (GetSignBytes (bs_EpochNum sig) (bs_BlockHash sig)))
    (ErrCkpt ErrInvalidBlsSignature).

Definition verifyVoteExtension s (veBytes expectedBlockHash : bytes) : res PropErr BlsSig :=
  require (negb (length veBytes =? 0)) ErrEmptyExtension;;
  require (ve_KnownFieldsOnly veBytes) ErrUnknownFields;;
  ve ← of_option ErrUnmarshal (ve_Unmarshal veBytes);
  require (VoteExtension_Validate ve) ErrInvalidExtension;;
  _ ← of_option ErrInvalidAddress (ValAddressFromBech32 (ve_Signer ve));
  _ ← of_option ErrInvalidAddress (ValAddressFromBech32 (ve_ValidatorAddress ve));
  match ve_BlockHash ve, ve_BlsSig ve with
  | Some blockHash, Some blsSig =>
      require (bool_decide (blockHash = expectedBlockHash)) ErrUnexpectedBlockHash;;
      let sig := mkBlsSig (ve_EpochNum ve) blockHash blsSig (ve_Signer ve) (ve_ValidatorAddress ve) in
      VerifyBLSSig s sig;;
      mret sig
  | _, _ => Panic
  end.

Definition getValidBlsSigs s votes (blockHash : bytes) : list BlsSig :=
  omap (λ vote, match verifyVoteExtension s (vote_Extension vote) blockHash with
                | Ok sig => Some sig | _ => None end) votes.

(** The proposer also marks invalid votes as absent. *)
Definition getValidBlsSigsAndPruneCommitInfo s votes (blockHash : bytes)
  : list BlsSig * list ExtendedVoteInfo :=
  foldl (λ '(sigs, pruned) vote,
    match verifyVoteExtension s (vote_Extension vote) blockHash with
    | Ok sig => (sigs ++ [sig], pruned ++ [vote])
    | _ => (sigs, pruned ++ [mkExtendedVoteInfo (vote_Power vote) [] true])
    end) ([], []) votes.

(** The block hash a vote commits to. Hex encoding is injective: the map is
    keyed by the bytes. *)
Definition vote_hash (vote : ExtendedVoteInfo) : option bytes :=
  if length (vote_Extension vote) =? 0 then None
  else ve ← ve_Unmarshal (vote_Extension vote); ve_BlockHash ve.

Definition findLastBlockHash votes : res PropErr bytes :=
  let '(blockHashes, totalPower) :=
    foldl (λ '(blockHashes, totalPower) vote,
      let totalPower := int64 (totalPower + vote_Power vote) in
      match vote_hash vote with
      | None => (blockHashes, totalPower)
      | Some bHash =>
          (<[bHash := int64 (default 0%Z (blockHashes !! bHash) + vote_Power vote)]> blockHashes,
           totalPower)
      end) (∅ : gmap bytes Z, 0%Z) votes in
  let '(maxPower, resBlockHash) :=
    foldl (λ '(maxPower, resBlockHash) '(blockHash, power),
      if (maxPower <? power)%Z then (power, blockHash) else (maxPower, resBlockHash))
      (0%Z, []) (map_range blockHashes) in
  require (negb (length resBlockHash =? 0)) ErrNoBlockHash;;
  let requiredVP := int64 (Z.quot (int64 (totalPower * 2)) 3 + 1) in
  require (negb (maxPower <? requiredVP)%Z) ErrInsufficientVotingPower;;
  mret resBlockHash.

(** The loop over the valid signatures, which ends when the checkpoint is
    sealed. *)
Fixpoint accumulate_sigs s vals (totalPower : Z) (ckpt : RawCheckpointWithMeta)
    (sigs : list BlsSig) : res PropErr RawCheckpointWithMeta :=
  match sigs with
  | [] => Ok ckpt
  | sig :: sigs =>
      match ValAddressFromBech32 (bs_SignerAddress sig) with
      | None => accumulate_sigs s vals totalPower ckpt sigs
      | Some signerAddress =>
          match GetBlsPubKey s signerAddress with
          | Ok signerBlsKey =>
              match Accumulate ckpt vals signerAddress signerBlsKey (bs_BlsSig sig) totalPower with
              | Ok (ckpt, Some _) => accumulate_sigs s vals totalPower ckpt sigs
              | Ok (ckpt, None) =>
                  if bool_decide (Status ckpt = Sealed) then Ok ckpt
                  else accumulate_sigs s vals totalPower ckpt sigs
              | _ => Panic
              end
          | Err _ => accumulate_sigs s vals totalPower ckpt sigs
          | Panic => Panic
          end
      end
  end.

Definition buildCheckpointFromVoteExtensions s (epoch : N) votes
  : res PropErr RawCheckpointWithMeta :=
  prevBlockID ← findLastBlockHash votes;
  let ckpt := NewCheckpointWithMeta (NewCheckpoint epoch prevBlockID) Accumulating in
  let validBLSSigs := getValidBlsSigs s votes prevBlockID in
  let vals := ek_GetValidatorSet epoch in
  totalPower ← map_err ErrCkpt (ek_GetTotalVotingPower epoch);
  ckpt ← accumulate_sigs s vals totalPower ckpt validBLSSigs;
  require (bool_decide (Status ckpt = Sealed)) ErrInsufficientVotingPower;;
  mret ckpt.

(** The part of [PrepareProposal] and [ProcessProposal] that concerns the
    checkpoint: the proposer injects the checkpoint it builds together with the
    pruned votes; the others rebuild it from those votes and compare. *)
Definition prepareCheckpoint s (epoch : N) votes
  : res PropErr (RawCheckpointWithMeta * list ExtendedVoteInfo) :=
  ckpt ← buildCheckpointFromVoteExtensions s epoch votes;
  prevBlockID ← findLastBlockHash votes;
  mret (ckpt, (getValidBlsSigsAndPruneCommitInfo s votes prevBlockID).2).
End proposal.

(** ** The block hash does not depend on the order of the map *)

Section last_block_hash.
Context `{VC : VoteCodec}.
Implicit Types (votes : list ExtendedVoteInfo) (h : bytes).

Definition total_power votes : Z := sum_power (vote_Power <$> votes).
(** The power of the votes that commit to [h]. *)
Definition power_for h votes : Z :=
  sum_power ((λ v, if decide (vote_hash v = Some h) then vote_Power v else 0%Z) <$> votes).

Lemma sum_power_cons x l : sum_power (x :: l) = (x + sum_power l)%Z.
Proof. done. Qed.
Lemma sum_power_app l k : sum_power (l ++ k) = (sum_power l + sum_power k)%Z.
Proof. induction l as [|x l IH]; [done|]. rewrite <- app_comm_cons, !sum_power_cons. lia. Qed.

Lemma power_for_two h1 h2 votes :
  Forall (λ v, 0 ≤ vote_Power v)%Z votes → h1 ≠ h2 →
  (power_for h1 votes + power_for h2 votes ≤ total_power votes)%Z.
Proof.
  intros Hp Hne. unfold power_for, total_power. induction Hp as [|v votes Hv _ IH]; [done|].
  rewrite !fmap_cons, !sum_power_cons. repeat case_decide; simplify_eq; lia.
Qed.

Lemma power_for_bounds h votes :
  Forall (λ v, 0 ≤ vote_Power v)%Z votes → (0 ≤ power_for h votes ≤ total_power votes)%Z.
Proof.
  intros Hp. unfold power_for, total_power. induction Hp as [|v votes Hv _ IH]; [done|].
  rewrite !fmap_cons, !sum_power_cons. case_decide; lia.
Qed.

(** The map and the total after the first loop. *)
Definition count_votes votes : gmap bytes Z * Z :=
  foldl (λ '(blockHashes, totalPower) vote,
      let totalPower := int64 (totalPower + vote_Power vote) in
      match vote_hash vote with
      | None => (blockHashes, totalPower)
      | Some bHash =>
          (<[bHash := int64 (default 0%Z (blockHashes !! bHash) + vote_Power vote)]> blockHashes,
           totalPower)
      end) (∅ : gmap bytes Z, 0%Z) votes.

Lemma power_for_snoc h votes v :
  power_for h (votes ++ [v]) =
  (power_for h votes + if decide (vote_hash v = Some h) then vote_Power v else 0)%Z.
Proof. unfold power_for. rewrite fmap_app, sum_power_app. simpl. lia. Qed.

Lemma total_power_snoc votes v : total_power (votes ++ [v]) = (total_power votes + vote_Power v)%Z.
Proof. unfold total_power. rewrite fmap_app, sum_power_app. simpl. lia. Qed.

Lemma count_votes_spec votes :
  Forall (λ v, 0 ≤ vote_Power v)%Z votes → (total_power votes < 2 ^ 63)%Z →
  (count_votes votes).2 = total_power votes ∧
  ∀ h, default 0%Z ((count_votes votes).1 !! h) = power_for h votes.
Proof.
  induction votes as [|v votes IH] using rev_ind; intros Hp Hb; [done|].
  apply Forall_app in Hp as [Hp Hv]. apply Forall_cons in Hv as [Hv _].
  rewrite total_power_snoc in *.
  destruct (IH Hp ltac:(lia)) as [IH1 IH2]. unfold count_votes in *. rewrite foldl_snoc.
  destruct (foldl _ _ votes) as [m total]. simpl in IH1, IH2. subst total.
  assert (∀ h, 0 ≤ power_for h votes ≤ total_power votes)%Z as Hpf
    by (intros h; by apply power_for_bounds).
  pose proof (Hpf []). destruct (vote_hash v) as [h0|] eqn:Hh; simpl.
  - split; [rewrite int64_small by lia; done|]. intros h. rewrite power_for_snoc, Hh.
    destruct (decide (h0 = h)) as [->|Hne].
    + rewrite lookup_insert_eq, (decide_True _ _ eq_refl). simpl. rewrite IH2.
      specialize (Hpf h). by rewrite int64_small by lia.
    + rewrite lookup_insert_ne, decide_False, Z.add_0_r by congruence. apply IH2.
  - split; [rewrite int64_small by lia; done|]. intros h. rewrite power_for_snoc, Hh.
    rewrite decide_False, Z.add_0_r by done. apply IH2.
Qed.

(** The second loop finds an entry with the greatest power. *)
Definition max_entry (l : list (bytes * Z)) : Z * bytes :=
  foldl (λ '(maxPower, resBlockHash) '(blockHash, power),
      if (maxPower <? power)%Z then (power, blockHash) else (maxPower, resBlockHash))
      (0%Z, []) l.

Lemma max_entry_spec l :
  let '(m, h) := max_entry l in
  (m = 0%Z ∧ h = [] ∨ (0 < m)%Z ∧ (h, m) ∈ l) ∧ ∀ h' p, (h', p) ∈ l → (p ≤ m)%Z.
Proof.
  unfold max_entry. induction l as [|[h1 p1] l IH] using rev_ind; simpl.
  { split; [by left|]. intros h' p Hin%elem_of_nil. done. }
  rewrite foldl_snoc. destruct (foldl _ _ l) as [m h]. destruct IH as [IH1 IH2].
  destruct (Z.ltb_spec m p1).
  - split.
    + right. split; [|set_solver]. destruct IH1 as [[-> _]|[? _]]; lia.
    + intros h' p [Hin|[= -> ->]%list_elem_of_singleton]%elem_of_app; [|lia].
      specialize (IH2 _ _ Hin). lia.
  - split; [destruct IH1 as [?|[? ?]]; [by left|right; set_solver]|].
    intros h' p [Hin|[= -> ->]%list_elem_of_singleton]%elem_of_app; [|lia]. by eapply IH2.
Qed.

Lemma required_quorum t p :
  (0 ≤ t)%Z → (t * 3 < 2 ^ 63)%Z →
  (int64 (Z.quot (int64 (t * 2)) 3 + 1) ≤ p)%Z ↔ quorum p t.
Proof.
  intros Ht Hb. unfold quorum. rewrite (int64_small (t * 2)) by lia.
  rewrite Z.quot_div_nonneg by lia. pose proof (Z.div_mod (t * 2) 3 ltac:(done)).
  pose proof (Z.mod_pos_bound (t * 2) 3 ltac:(done)).
  rewrite int64_small by lia. lia.
Qed.

(** The block hash the checkpoint commits to is the one with more than two
    thirds of the power of all votes, if there is one, and there is never a
    second; the order in which the map of hashes is visited plays no role. *)
Theorem last_block_hash_is_quorum map_range votes h :
  (∀ m, map_range m ≡ₚ map_to_list m) →
  Forall (λ v, 0 ≤ vote_Power v)%Z votes → (total_power votes * 3 < 2 ^ 63)%Z →
  findLastBlockHash map_range votes = Ok h ↔
  h ≠ [] ∧ quorum (power_for h votes) (total_power votes).
Proof.
  intros Hr Hp Hb. assert (0 ≤ total_power votes)%Z by (by apply sum_power_nonneg, Forall_fmap).
  destruct (count_votes_spec votes Hp ltac:(lia)) as [Ht Hm]. unfold findLastBlockHash.
  fold (count_votes votes). destruct (count_votes votes) as [m t]. simpl in Ht, Hm. subst t.
  fold (max_entry (map_range m)). pose proof (max_entry_spec (map_range m)) as Hmax.
  destruct (max_entry (map_range m)) as [pm hm]. destruct Hmax as [Hent Hle].
  setoid_rewrite Hr in Hent. setoid_rewrite Hr in Hle.
  setoid_rewrite elem_of_map_to_list in Hent. setoid_rewrite elem_of_map_to_list in Hle.
  split.
  - intros Hx. inv_ok. split.
    { destruct h; [done|by intros]. }
    apply required_quorum; [done..|]. destruct Hent as [[-> ->]|[Hpos Hin]]; [done|].
    assert (power_for h votes = pm) as -> by (rewrite <- Hm, Hin; done).
    match goal with H : negb (pm <? _)%Z = true |- _ => apply negb_true_iff, Z.ltb_ge in H; done end.
  - intros [Hne Hq]. unfold quorum in Hq.
    assert (m !! h = Some (power_for h votes)) as Hin.
    { specialize (Hm h). destruct (m !! h) as [p|] eqn:E; simpl in Hm; [by f_equal|lia]. }
    pose proof (Hle _ _ Hin) as Hpm. destruct Hent as [[-> ->]|[Hpos Hin']]; [lia|].
    assert (power_for hm votes = pm) as Hpm' by (rewrite <- Hm, Hin'; done).
    assert (hm = h) as ->.
    { destruct (decide (hm = h)) as [|Hd]; [done|].
      pose proof (power_for_two hm h votes Hp Hd). lia. }
    destruct h as [|b h]; [done|]. simpl.
    rewrite (proj2 (Z.ltb_ge pm _)); [done|]. apply required_quorum; [done..|]. unfold quorum. lia.
Qed.
End last_block_hash.

(** ** The checkpoint that is built *)

Section build.
Context `{BM : Bitmap} `{BML : !BitmapLaws} `{BL : Blst} `{EK : EpochingKeeper} `{VC : VoteCodec}.
Context (map_range : gmap bytes Z → list (bytes * Z)).
Implicit Types (s : CkptState) (votes : list ExtendedVoteInfo) (sig : BlsSig).

Definition sig_addr sig : option bytes := ValAddressFromBech32 (bs_SignerAddress sig).

Lemma GetBlsPubKey_no_panic s a : GetBlsPubKey s a ≠ Panic.
Proof.
  unfold GetBlsPubKey. destruct (addrToBlsKeys s !! a); simpl; [|done].
  by destruct (length _ =? _).
Qed.

Lemma accumulate_sigs_ok s vals epoch hash voted cm sigs :
  vals_ok vals → acc_ok vals epoch hash voted cm →
  ∃ cm', accumulate_sigs s vals (sum_power (Power <$> vals)) cm sigs = Ok cm' ∧
    acc_ok vals epoch hash (voted ++ omap sig_addr sigs) cm'.
Proof.
  intros Hv. revert voted cm. induction sigs as [|sig sigs IH]; intros voted cm Hao; simpl.
  { exists cm. by rewrite app_nil_r. }
  unfold sig_addr at 1. destruct (ValAddressFromBech32 (bs_SignerAddress sig)) as [addr|]; [|by apply IH].
  assert (∀ cm1, acc_ok vals epoch hash (addr :: voted) cm1 →
    acc_ok vals epoch hash (voted ++ addr :: omap sig_addr sigs) cm1) as Hmono
    by (intros cm1 H1; eapply acc_ok_voted; [done|set_solver]).
  assert (∀ cm1, acc_ok vals epoch hash (addr :: voted) cm1 →
    ∃ cm', accumulate_sigs s vals (sum_power (Power <$> vals)) cm1 sigs = Ok cm' ∧
      acc_ok vals epoch hash (voted ++ addr :: omap sig_addr sigs) cm') as Hrest.
  { intros cm1 H1. destruct (IH _ _ H1) as (cm2 & H2 & Hao2). exists cm2. split; [done|].
    eapply acc_ok_voted; [done|set_solver]. }
  destruct (GetBlsPubKey s addr) as [key|e|] eqn:Hk; [| |by apply GetBlsPubKey_no_panic in Hk].
  - destruct (Accumulate_ok vals epoch hash voted cm addr key (bs_BlsSig sig) Hv Hao)
      as (cm1 & err & -> & Hao1).
    destruct err; [by apply Hrest|]. case_bool_decide; [|by apply Hrest]. eauto.
  - apply Hrest. eapply acc_ok_voted; [done|set_solver].
Qed.

Lemma verifyVoteExtension_sound s ext h sig :
  verifyVoteExtension s ext h = Ok sig →
  bs_BlockHash sig = h ∧ ∃ addr key, sig_addr sig = Some addr ∧ GetBlsPubKey s addr = Ok key ∧
    Verify (bs_BlsSig sig) key (GetSignBytes (bs_EpochNum sig) h) = true.
Proof.
  unfold verifyVoteExtension. intros Hx. inv_ok.
  match goal with H : match ve_BlockHash ?ve with _ => _ end = _ |- _ =>
    destruct (ve_BlockHash ve) as [bh|]; [|done]; destruct (ve_BlsSig ve) as [bs|]; [|done] end.
  unfold VerifyBLSSig in *. inv_ok. simpl in *.
  match goal with H : bool_decide _ = true |- _ => apply bool_decide_eq_true in H as -> end.
  split; [done|]. unfold sig_addr. simpl. eauto.
Qed.

(** C24: A checkpoint that is built is sealed, is about the epoch and about a block
    hash that votes with more than two thirds of the power of all votes name, and its
    bitmap selects validators with more than two thirds of the power of the epoch, each
    of which signed that block hash with its registered key in one of the votes.  The
    powers of the votes are not negative and three times their sum fits in 63 bits; the
    map of hashes is visited in any order. *)
Theorem built_checkpoint_has_quorum s epoch votes ckpt :
  let vals := ek_GetValidatorSet epoch in
  vals_ok vals → ek_GetTotalVotingPower epoch = Ok (sum_power (Power <$> vals)) →
  (∀ m, map_range m ≡ₚ map_to_list m) →
  Forall (λ v, 0 ≤ vote_Power v)%Z votes → (total_power votes * 3 < 2 ^ 63)%Z →
  buildCheckpointFromVoteExtensions map_range s epoch votes = Ok ckpt →
  ∃ h bm signers, h ≠ [] ∧ quorum (power_for h votes) (total_power votes) ∧
    Status ckpt = Sealed ∧ Lifecycle ckpt = [] ∧
    EpochNum (Ckpt ckpt) = epoch ∧ BlockHash (Ckpt ckpt) = Some h ∧
    ckpt_Bitmap (Ckpt ckpt) = Some bm ∧ FindSubset vals bm = Ok signers ∧
    quorum (sum_power (Power <$> signers)) (sum_power (Power <$> vals)) ∧
    ∀ v, v ∈ signers → ∃ vote sig key, vote ∈ votes ∧
      verifyVoteExtension s (vote_Extension vote) h = Ok sig ∧ sig_addr sig = Some (Addr v) ∧
      GetBlsPubKey s (Addr v) = Ok key ∧
      Verify (bs_BlsSig sig) key (GetSignBytes (bs_EpochNum sig) h) = true.
Proof.
  intros vals Hv Htot Hrange Hpos Hbound Hb. unfold buildCheckpointFromVoteExtensions in Hb.
  apply bind_Ok in Hb as (h & Hh & Hb). cbv zeta in Hb.
  apply last_block_hash_is_quorum in Hh as [Hne Hmaj]; [|done..]. rewrite Htot in Hb. simpl in Hb.
  destruct (accumulate_sigs_ok s vals epoch h []
    (NewCheckpointWithMeta (NewCheckpoint epoch h) Accumulating) (getValidBlsSigs s votes h) Hv)
    as (cm & Hcm & [He Hbh Hlc (bm & Hbm & Hlen & Hpow & Hvoted) Hst]); [by apply new_checkpoint_ok|].
  fold vals in Hb. rewrite Hcm in Hb. simpl in Hb. inv_ok.
  match goal with H : bool_decide _ = true |- _ => apply bool_decide_eq_true in H as Hsealed end.
  destruct Hst as [[? _]|[_ Hq]]; [congruence|].
  pose proof (vo_size _ Hv) as Hsz. pose proof (FindSubset_spec vals bm ltac:(lia)) as Hf.
  eexists h, bm, _. split_and!; [done..|exact Hf|by rewrite flagged_power_subset, <- Hpow|].
  intros v ([i w] & -> & [Hbit Hin]%list_elem_of_filter)%list_elem_of_fmap. simpl in *.
  apply elem_of_lookup_zip_with in Hin as (j & i' & w' & [= -> ->] & Hi & Hw).
  apply lookup_seq in Hi as [-> _]. specialize (Hvoted _ _ Hbit Hw).
  apply list_elem_of_omap in Hvoted as (sig & Hsig & Ha).
  apply list_elem_of_omap in Hsig as (vote & Hvote & Hver).
  destruct (verifyVoteExtension s (vote_Extension vote) h) as [sig'| |] eqn:Hve; simplify_eq.
  destruct (verifyVoteExtension_sound _ _ _ _ Hve) as (_ & addr & key & Ha' & Hk & Hverify).
  simplify_eq. exists vote, sig, key. split_and!; done.
Qed.

(** *** The proposer and the other validators agree *)

Lemma prune_spec s h votes :
  let r := getValidBlsSigsAndPruneCommitInfo s votes h in
  r.1 = getValidBlsSigs s votes h ∧ getValidBlsSigs s r.2 h = getValidBlsSigs s votes h.
Proof.
  unfold getValidBlsSigsAndPruneCommitInfo.
  induction votes as [|vote votes IH] using rev_ind; [done|]. cbv zeta in *.
  rewrite foldl_snoc. destruct (foldl _ _ votes) as [sigs pruned]. simpl in IH.
  destruct IH as [-> IH]. unfold getValidBlsSigs in *. rewrite omap_app. simpl.
  destruct (verifyVoteExtension s (vote_Extension vote) h) as [sig| |] eqn:Hv; simpl;
    rewrite omap_app, IH; simpl; rewrite ?Hv, ?app_nil_r; done.
Qed.

(** C33: If the proposer builds a checkpoint and the votes it keeps still name
    its block hash with more than two thirds of the power, every other validator
    rebuilds exactly that checkpoint from the votes the proposer injected, also
    when its map is visited in another order. *)
Theorem validators_rebuild_checkpoint map_range' s epoch votes ckpt pruned h :
  (∀ m, map_range' m ≡ₚ map_to_list m) →
  Forall (λ v, 0 ≤ vote_Power v)%Z pruned → (total_power pruned * 3 < 2 ^ 63)%Z →
  prepareCheckpoint map_range s epoch votes = Ok (ckpt, pruned) →
  findLastBlockHash map_range votes = Ok h → h ≠ [] →
  quorum (power_for h pruned) (total_power pruned) →
  buildCheckpointFromVoteExtensions map_range' s epoch pruned = Ok ckpt.
Proof.
  intros Hr Hp Hb Hprep Hh Hne Hq. unfold prepareCheckpoint in Hprep.
  apply bind_Ok in Hprep as (ckpt' & Hbuild & Hprep). rewrite Hh in Hprep.
  injection Hprep as -> <-. unfold buildCheckpointFromVoteExtensions in *.
  rewrite Hh in Hbuild.
  rewrite (proj2 (last_block_hash_is_quorum map_range' _ h Hr Hp Hb)) by done.
  cbn [mbind res_bind] in *. by rewrite (proj2 (prune_spec s h votes)).
Qed.
End build.

(** ** Instances

    Four validators of power one. A signature of a message is the message itself,
    padded; aggregating equal signatures gives that signature, and aggregating
    different ones gives a point that verifies nothing. *)
Module Examples.
Definition pad (n : nat) (l : bytes) : bytes := take n (l ++ replicate n (byte_of_N 0)).

Instance toy_blst : Blst := {|
  P1AggregateCompressed sigs :=
    match sigs with
    | [] => None
    | sig :: sigs =>
        Some (if forallb (λ s, bool_decide (s = sig)) sigs then sig else replicate 48 (byte_of_N 255))
    end;
  P2AggregateCompressed pks := Some (replicate 96 (byte_of_N 0));
  VerifyCompressed sig pk msg := bool_decide (sig = pad 48 msg);
|}.

Definition addr (k : N) : bytes := [byte_of_N k].
Definition key (k : N) : bytes := replicate 96 (byte_of_N k).
Definition vals : ValidatorSet := (λ k, mkValidator (addr k) 1) <$> [1; 2; 3; 4]%N.

Instance toy_epoching : EpochingKeeper := {|
  ek_GetValidatorSet _ := vals;
  ek_GetTotalVotingPower _ := Ok 4%Z;
|}.

Existing Instance Epoching.Examples.byte_bitmap.
Existing Instance Epoching.Examples.byte_bitmap_laws.

Definition hash : bytes := replicate 32 (byte_of_N 7).

(** Extension [k] is signed by validator [k] for epoch 1; extension [10 + k] is
    signed by validator [k] for epoch 9. *)
Definition name (k : N) : string :=
  match k with 1%N => "v1" | 2%N => "v2" | 3%N => "v3" | _ => "v4" end.
Definition extension (k : N) : VoteExtension :=
  let '(signer, epoch) := if (k <? 10)%N then (k, 1%N) else ((k - 10)%N, 9%N) in
  mkVoteExtension (name signer) (name signer) (Some hash) epoch 10
    (Some (pad 48 (GetSignBytes epoch hash))).
Instance toy_codec : VoteCodec := {|
  ve_Unmarshal l := match l with [b] => Some (extension (N_of_byte b)) | _ => None end;
  ve_KnownFieldsOnly _ := true;
  ValAddressFromBech32 n :=
    if bool_decide (n = "v1") then Some (addr 1)
    else if bool_decide (n = "v2") then Some (addr 2)
    else if bool_decide (n = "v3") then Some (addr 3)
    else if bool_decide (n = "v4") then Some (addr 4) else None;
|}.
Definition vote (k : N) : ExtendedVoteInfo := mkExtendedVoteInfo 1 [byte_of_N k] false.

Definition registered : CkptState :=
  mkCkptState ∅ (list_to_map ((λ k, (addr k, key k)) <$> [1; 2; 3; 4]%N))
    (list_to_map ((λ k, (key k, addr k)) <$> [1; 2; 3; 4]%N)) ∅ (Some 0%N) false.

Lemma vals_are_ok : vals_ok vals.
Proof.
  split.
  - unfold vals. simpl. repeat (reflexivity || constructor).
  - repeat constructor; vm_compute; discriminate.
  - vm_compute. lia.
  - vm_compute. reflexivity.
Qed.

Definition ctx : HeaderInfo := mkHeaderInfo 11 11 [] [].
Definition no_hooks : CheckpointingHooks unit :=
  mkCheckpointingHooks (λ _ x, x) (λ _ x, x) (λ _ x, x) (λ _ x, x) (λ _ x, Some x).

Definition built (votes : list ExtendedVoteInfo) : RawCheckpointWithMeta :=
  match buildCheckpointFromVoteExtensions map_to_list registered 1 votes with
  | Ok ckpt => ckpt
  | _ => NewCheckpointWithMeta (NewCheckpoint 0 []) Accumulating
  end.
Definition good_votes : list ExtendedVoteInfo := vote <$> [1; 2; 3; 4]%N.

Lemma built_checkpoint_has_quorum_witness :
  ∃ h bm signers, h ≠ [] ∧ quorum (power_for h good_votes) (total_power good_votes) ∧
    Status (built good_votes) = Sealed ∧ Lifecycle (built good_votes) = [] ∧
    EpochNum (Ckpt (built good_votes)) = 1%N ∧ BlockHash (Ckpt (built good_votes)) = Some h ∧
    ckpt_Bitmap (Ckpt (built good_votes)) = Some bm ∧ FindSubset vals bm = Ok signers ∧
    quorum (sum_power (Power <$> signers)) (sum_power (Power <$> vals)) ∧
    ∀ v, v ∈ signers → ∃ vote sig key, vote ∈ good_votes ∧
      verifyVoteExtension registered (vote_Extension vote) h = Ok sig ∧
      sig_addr sig = Some (Addr v) ∧ GetBlsPubKey registered (Addr v) = Ok key ∧
      Verify (bs_BlsSig sig) key (GetSignBytes (bs_EpochNum sig) h) = true.
Proof.
  apply (built_checkpoint_has_quorum (BM := Epoching.Examples.byte_bitmap) (BL := toy_blst)
           (EK := toy_epoching) (VC := toy_codec) map_to_list registered 1 good_votes (built good_votes)).
  - apply vals_are_ok.
  - vm_compute. reflexivity.
  - done.
  - repeat constructor; vm_compute; discriminate.
  - vm_compute. reflexivity.
  - vm_compute. reflexivity.
Defined.

Lemma last_block_hash_is_quorum_witness :
  findLastBlockHash (λ m, reverse (map_to_list m)) good_votes = Ok hash.
Proof.
  apply (last_block_hash_is_quorum (λ m, reverse (map_to_list m)) good_votes hash).
  - intros m. apply reverse_Permutation.
  - repeat constructor; vm_compute; discriminate.
  - vm_compute. reflexivity.
  - split; [discriminate|]. vm_compute. reflexivity.
Defined.

Lemma validators_rebuild_checkpoint_witness :
  buildCheckpointFromVoteExtensions (λ m, reverse (map_to_list m)) registered 1
    [vote 1; vote 2; vote 3; mkExtendedVoteInfo 1 [] true] = Ok (built good_votes).
Proof.
  apply (validators_rebuild_checkpoint map_to_list (λ m, reverse (map_to_list m)) registered 1
           [vote 1; vote 2; vote 3; mkExtendedVoteInfo 1 [] false]
           (built good_votes) [vote 1; vote 2; vote 3; mkExtendedVoteInfo 1 [] true] hash).
  - intros m. apply reverse_Permutation.
  - repeat constructor; vm_compute; discriminate.
  - vm_compute. reflexivity.
  - vm_compute. reflexivity.
  - vm_compute. reflexivity.
  - discriminate.
  - vm_compute. reflexivity.
Defined.

Lemma accumulate_counts_once_witness :
  let votes := [(addr 2, key 2, [byte_of_N 1]); (addr 2, key 2, [byte_of_N 1]);
                (addr 9, key 9, [byte_of_N 1]); (addr 1, key 1, [byte_of_N 1])] in
  ∃ cm bm signers,
    accumulate_all vals (sum_power (Power <$> vals))
      (NewCheckpointWithMeta (NewCheckpoint 1 hash) Accumulating) votes = Ok cm ∧
    EpochNum (Ckpt cm) = 1%N ∧ BlockHash (Ckpt cm) = Some hash ∧
    ckpt_Bitmap (Ckpt cm) = Some bm ∧ FindSubset vals bm = Ok signers ∧
    (∀ v, v ∈ signers → v ∈ vals ∧ Addr v ∈ votes.*1.*1) ∧
    Z.of_N (PowerSum cm) = sum_power (Power <$> signers) ∧
    (Status cm = Sealed ↔ quorum (sum_power (Power <$> signers)) (sum_power (Power <$> vals))) ∧
    (Status cm = Sealed ∨ Status cm = Accumulating).
Proof. exact (accumulate_counts_once vals 1 hash _ vals_are_ok). Defined.

(** The life of the checkpoint of epoch 1: submitted, forgotten, submitted again,
    confirmed and finalised; a late attempt to forget it has no effect. *)
Definition life : list (HeaderInfo * ckpt_op) :=
  (λ op, (ctx, op)) <$>
    [OpSeal (built good_votes); OpSubmitted 1; OpForgotten 1; OpSubmitted 1; OpConfirmed 1;
     OpFinalized 1; OpForgotten 1].

Lemma registered_lifecycle_ok : lifecycle_ok registered.
Proof. split; [by intros e cm H|]. intros e [= <-] ?. done. Qed.

Lemma checkpoint_lifecycle_witness :
  let s' := (foldl (step no_hooks) (registered, tt) life).1 in
  lifecycle_ok s' ∧
  ∀ e cm, checkpoints registered !! e = Some cm → ∃ cm', checkpoints s' !! e = Some cm' ∧
    Ckpt cm' = Ckpt cm ∧ Lifecycle cm `prefix_of` Lifecycle cm' ∧
    (Status cm = Finalized → cm' = cm).
Proof.
  apply (checkpoint_lifecycle no_hooks (registered, tt) life).
  - apply registered_lifecycle_ok.
  - repeat constructor; vm_compute; reflexivity.
Defined.

Lemma reg_ok_empty : reg_ok (mkCkptState ∅ ∅ ∅ ∅ None false).
Proof. by split. Qed.

Lemma registration_bijective_witness :
  let s := mkCkptState ∅ ∅ ∅ ∅ None false in
  ((∃ s', CreateRegistration s (key 1) (addr 1) = Ok s') ↔
     (∀ k, GetBlsPubKey s (addr 1) = Ok k → k = key 1) ∧
     (∀ a, GetValAddr s (key 1) = Ok a → a = addr 1)) ∧
  ∀ s', CreateRegistration s (key 1) (addr 1) = Ok s' →
    reg_ok s' ∧ GetBlsPubKey s' (addr 1) = Ok (key 1) ∧ GetValAddr s' (key 1) = Ok (addr 1) ∧
    checkpoints s' = checkpoints s ∧
    ∀ a k, GetBlsPubKey s a = Ok k → GetBlsPubKey s' a = Ok k.
Proof. exact (registration_bijective _ (key 1) (addr 1) reg_ok_empty eq_refl). Defined.

Definition sealed_state : CkptState :=
  (foldl (step no_hooks) (registered, tt) [(ctx, OpSeal (built good_votes))]).1.
Definition on_btc : BtcTxFormatter.RawBtcCheckpoint :=
  FromRawCkptToBTCCkpt (Ckpt (built good_votes)) [].

Lemma verify_checkpoint_spec_witness :
  VerifyCheckpoint no_hooks (sealed_state, tt) on_btc = ((sealed_state, tt), Ok tt) ∧
  ∃ cm, checkpoints sealed_state !! BtcTxFormatter.Epoch on_btc = Some cm ∧
    BlockHash (Ckpt cm) = Some (BtcTxFormatter.BlockHash on_btc) ∧
    justified sealed_state on_btc cm.
Proof.
  assert (VerifyCheckpoint no_hooks (sealed_state, tt) on_btc = ((sealed_state, tt), Ok tt)) as Hv
    by (vm_compute; reflexivity).
  split; [exact Hv|].
  refine (proj2 (verify_checkpoint_spec no_hooks sealed_state tt sealed_state tt (Ok tt) on_btc _ Hv)).
  intros e. split; [apply vals_are_ok|]. vm_compute. reflexivity.
Defined.

(** A vote extension is accepted whatever epoch it names, and its signature
    is aggregated: here validator 3 signed for epoch 9, the checkpoint of epoch 1
    is sealed all the same, and its multi-signature is not valid. *)
Theorem wrong_epoch_signature_is_aggregated :
  let ckpt := built (vote <$> [1; 2; 13]%N) in
  Status ckpt = Sealed ∧ EpochNum (Ckpt ckpt) = 1%N ∧
  (∃ sig, verifyVoteExtension registered (vote_Extension (vote 13)) hash = Ok sig ∧
          bs_EpochNum sig = 9%N) ∧
  VerifyRawCheckpoint registered (Ckpt ckpt) = Err ErrInvalidRawCheckpoint.
Proof.
  split_and!; [vm_compute; reflexivity..| |vm_compute; reflexivity].
  eexists. split; vm_compute; reflexivity.
Qed.
End Examples.

End CheckpointingProposal.
