(* ===== verification/BtcCheckpoint.v ===== *)
(** x/btccheckpoint: submissions of checkpoints to Bitcoin.
    [src/anon/x/btccheckpoint/types/types.go], [types/msgs.go],
    [types/params.go], [keeper/keeper.go], [keeper/submissions.go],
    [keeper/msg_server.go], [keeper/params.go], [keeper/hooks.go],
    [keeper/genesis.go] and [abci.go].

    A submission is a pair of Bitcoin transactions carrying the two halves of a
    checkpoint.  The module records the submissions of each epoch, and whenever
    the tip of the light client moves it re-reads their depths: submissions that
    left the main chain are dropped, and an epoch whose best submission is [k]
    (or [w]) deep becomes confirmed (finalised), which it reports to
    x/checkpointing.

    The two modules it calls appear as the interfaces [BTCLightClientKeeper] and
    [CheckpointingKeeper] (the Go interfaces of [types/expected_keepers.go]);
    the theorems are proved against the laws of these interfaces. *)
From stdpp Require Import base numbers list sorting gmap strings.
From S2P Require Import Prelude KVStore Bytes Btcd BtcTxFormatter.
From S2P Require Import BtcUtils BtcLightClient Epoching Checkpointing.

Module BtcCheckpoint.
Import BtcUtils.

(** ** Data *)

Record TransactionKey := mkTransactionKey {
  tk_Index : N;
  tk_Hash : option bytes;   (** a pointer *)
}.

Record SubmissionKey := mkSubmissionKey { Key : list TransactionKey }.

#[global] Instance TransactionKey_eq_dec : EqDecision TransactionKey.
Proof. solve_decision. Defined.
#[global] Instance TransactionKey_countable : Countable TransactionKey.
Proof.
  refine (inj_countable' (λ t, (tk_Index t, tk_Hash t)) (λ p, mkTransactionKey p.1 p.2) _).
  by intros [].
Defined.
#[global] Instance SubmissionKey_eq_dec : EqDecision SubmissionKey.
Proof. solve_decision. Defined.
#[global] Instance SubmissionKey_countable : Countable SubmissionKey.
Proof. refine (inj_countable' Key mkSubmissionKey _). by intros []. Defined.

Record TransactionInfo := mkTransactionInfo {
  ti_Key : TransactionKey;
  ti_Transaction : bytes;
  ti_Proof : bytes;
}.

Record CheckpointAddresses := mkCheckpointAddresses {
  Submitter : bytes;
  Reporter : list N;
}.

Record SubmissionData := mkSubmissionData {
  VigilanteAddresses : CheckpointAddresses;
  TxsInfo : list TransactionInfo;
  sd_Epoch : N;
}.

(** [Submitted < Confirmed < Finalized] is the order of the protobuf enum. *)
Inductive BtcStatus := Submitted | Confirmed | Finalized.

#[global] Instance BtcStatus_eq_dec : EqDecision BtcStatus.
Proof. solve_decision. Defined.

Definition status_num (s : BtcStatus) : N :=
  match s with Submitted => 0 | Confirmed => 1 | Finalized => 2 end.

Record EpochData := mkEpochData {
  Keys : list SubmissionKey;
  Status : BtcStatus;
}.

#[global] Instance EpochData_eq_dec : EqDecision EpochData.
Proof. solve_decision. Defined.

Definition NewEmptyEpochData : EpochData := mkEpochData [] Submitted.

Definition AppendKey (s : EpochData) (k : SubmissionKey) : EpochData :=
  mkEpochData (Keys s ++ [k]) (Status s).

Record SubmissionBtcInfo := mkSubmissionBtcInfo {
  si_SubmissionKey : SubmissionKey;
  OldestBlockDepth : N;
  YoungestBlockDepth : N;
  YoungestBlockHash : bytes;
  YoungestBlockLowestTxIdx : N;
}.

Definition HappenedAfter (submission parentEpochSubmission : SubmissionBtcInfo) : bool :=
  (OldestBlockDepth submission <? YoungestBlockDepth parentEpochSubmission)%N.

Definition SubmissionDepth (submission : SubmissionBtcInfo) : N := YoungestBlockDepth submission.

Definition IsBetterThan (newSubmission currentBestSubmission : SubmissionBtcInfo) : bool :=
  if (SubmissionDepth currentBestSubmission <? SubmissionDepth newSubmission)%N then true
  else if (SubmissionDepth newSubmission <? SubmissionDepth currentBestSubmission)%N then false
  else (YoungestBlockLowestTxIdx newSubmission <?
        YoungestBlockLowestTxIdx currentBestSubmission)%N.

Inductive BcErr :=
  | ErrInvalidCheckpointProof | ErrDuplicatedSubmission | ErrInvalidHeader
  | ErrEpochAlreadyFinalized | ErrNoCheckpointsForPreviousEpoch
  | ErrProvidedHeaderDoesNotHaveAncestor | ErrSubmissionUnknown
  | ErrEpochNotFinalized | ErrInvalidSigner | ErrInvalidProposalMsg
  | ErrKeysNil | ErrInvalidKey | ErrInvalidAddresses
  | ErrCheckpointing (e : Checkpointing.CkptErr).

#[global] Instance BcErr_eq_dec : EqDecision BcErr.
Proof. solve_decision. Defined.

(** ** Parameters: [types/params.go] *)

Record Params := mkParams {
  BtcConfirmationDepth : N;
  CheckpointFinalizationTimeout : N;
  CheckpointTag : string;
}.

(** [hex.DecodeString] of Go's [encoding/hex]. *)
Definition fromHexChar (c : Ascii.ascii) : option N :=
  let n := N.of_nat (Ascii.nat_of_ascii c) in
  if ((48 <=? n) && (n <=? 57))%N then Some (n - 48)%N
  else if ((97 <=? n) && (n <=? 102))%N then Some (n - 97 + 10)%N
  else if ((65 <=? n) && (n <=? 70))%N then Some (n - 65 + 10)%N
  else None.

Fixpoint hex_DecodeString (s : string) : option bytes :=
  match s with
  | String.EmptyString => Some []
  | String.String _ String.EmptyString => None
  | String.String a (String.String b s) =>
      x ← fromHexChar a; y ← fromHexChar b;
      l ← hex_DecodeString s; Some (byte_of_N (x * 16 + y) :: l)
  end.

Definition validateCheckpointTag (t : string) : bool :=
  match hex_DecodeString t with
  | None => false
  | Some decoded => length decoded =? BtcTxFormatter.TagLength
  end.

Definition Params_Validate (p : Params) : bool :=
  negb (BtcConfirmationDepth p =? 0)%N &&
  negb (CheckpointFinalizationTimeout p =? 0)%N &&
  validateCheckpointTag (CheckpointTag p) &&
  negb (CheckpointFinalizationTimeout p <=? BtcConfirmationDepth p)%N.

(** ** The interfaces to the other modules: [types/expected_keepers.go] *)

Class BTCLightClientKeeper := {
  LightClient : Type;
  lc_MainChainDepth : LightClient → option bytes → res BtcLightClient.LCErr N;
}.

Class CheckpointingKeeper := {
  CkptSt : Type;
  ck_VerifyCheckpoint : CkptSt → BtcTxFormatter.RawBtcCheckpoint →
    CkptSt * res Checkpointing.CkptErr unit;
  ck_SetCheckpointSubmitted : CkptSt → Epoching.HeaderInfo → N → res Checkpointing.CkptErr CkptSt;
  ck_SetCheckpointConfirmed : CkptSt → Epoching.HeaderInfo → N → res Checkpointing.CkptErr CkptSt;
  ck_SetCheckpointFinalized : CkptSt → Epoching.HeaderInfo → N → res Checkpointing.CkptErr CkptSt;
  ck_SetCheckpointForgotten : CkptSt → Epoching.HeaderInfo → N → res Checkpointing.CkptErr CkptSt;
}.

(** ** State

    The KV store: epoch data by epoch number, submissions by key (the protobuf
    encoding of a key is injective, so the key itself is the index), the last
    finalised epoch, the parameters; and the transient flag set when the tip of
    the light client moved in the current block. *)
Record BCState := mkBCState {
  epochData : gmap N EpochData;
  submissions : gmap SubmissionKey SubmissionData;
  latestFinalizedEpoch : option N;
  btcLightClientUpdated : bool;
  bc_params : option Params;
}.

Definition setEpochData (s : BCState) (m : gmap N EpochData) : BCState :=
  mkBCState m (submissions s) (latestFinalizedEpoch s) (btcLightClientUpdated s) (bc_params s).
Definition setSubmissions (s : BCState) (m : gmap SubmissionKey SubmissionData) : BCState :=
  mkBCState (epochData s) m (latestFinalizedEpoch s) (btcLightClientUpdated s) (bc_params s).

Definition GetParams (s : BCState) : Params := default (mkParams 0 0 "") (bc_params s).

Definition SetParams (s : BCState) (p : Params) : res BcErr BCState :=
  require (Params_Validate p) ErrInvalidProposalMsg;;
  mret (mkBCState (epochData s) (submissions s) (latestFinalizedEpoch s)
          (btcLightClientUpdated s) (Some p)).

Definition GetExpectedTag {E} (s : BCState) : res E BtcTxFormatter.AnonTag :=
  match hex_DecodeString (CheckpointTag (GetParams s)) with
  | None => Panic
  | Some tag => Ok tag
  end.

Definition setBtcLightClientUpdated (s : BCState) : BCState :=
  mkBCState (epochData s) (submissions s) (latestFinalizedEpoch s) true (bc_params s).

Definition BtcLightClientUpdated (s : BCState) : bool := btcLightClientUpdated s.

Definition getLastFinalizedEpochNumber (s : BCState) : N := default 0%N (latestFinalizedEpoch s).

Definition setLastFinalizedEpochNumber (s : BCState) (epoch : N) : BCState :=
  mkBCState (epochData s) (submissions s) (Some epoch) (btcLightClientUpdated s) (bc_params s).

(** ** Submissions: [keeper/submissions.go] *)

Definition HasSubmission (s : BCState) (sk : SubmissionKey) : bool :=
  bool_decide (is_Some (submissions s !! sk)).

Definition GetEpochData (s : BCState) (e : N) : option EpochData := epochData s !! e.

Definition saveEpochData (s : BCState) (e : N) (ed : EpochData) : BCState :=
  setEpochData s (<[e := ed]> (epochData s)).

Definition saveSubmission (s : BCState) (sk : SubmissionKey) (sd : SubmissionData) : BCState :=
  setSubmissions s (<[sk := sd]> (submissions s)).

Definition deleteSubmission (s : BCState) (sk : SubmissionKey) : BCState :=
  setSubmissions s (delete sk (submissions s)).

(** [currentEpoch.Status] is left as it is. *)
Definition clearEpochData (s : BCState) (epoch : N) (currentEpoch : EpochData) : BCState :=
  let s := foldl deleteSubmission s (Keys currentEpoch) in
  saveEpochData s epoch (mkEpochData [] (Status currentEpoch)).

Definition GetBestSubmission (s : BCState) (epochNumber : N)
  : res BcErr (BtcStatus * SubmissionKey) :=
  ed ← of_option ErrNoCheckpointsForPreviousEpoch (GetEpochData s epochNumber);
  require (bool_decide (Status ed = Finalized)) ErrEpochNotFinalized;;
  match Keys ed with
  | [] => Err ErrNoCheckpointsForPreviousEpoch
  | bestSubmissionKey :: _ => Ok (Status ed, bestSubmissionKey)
  end.

Section keeper.
Context `{LC : BTCLightClientKeeper} `{CK : CheckpointingKeeper}.
Implicit Types (lc : LightClient) (s : BCState) (c : CkptSt) (sk : SubmissionKey)
  (ed : EpochData) (ctx : Epoching.HeaderInfo).

Definition headerDepth lc (headerHash : option bytes) : res BcErr N :=
  match lc_MainChainDepth lc headerHash with
  | Ok d => Ok d
  | Err _ => Err ErrSubmissionUnknown
  | Panic => Panic
  end.

(** The variables of the loop: depth and hash of the youngest block, the lowest
    index in it, depth of the oldest block. *)
Definition btc_info_step lc (acc : N * option bytes * N * N) (tk : TransactionKey)
  : res BcErr (N * option bytes * N * N) :=
  let '(youngest, hash, lowest, oldest) := acc in
  current ← headerDepth lc (tk_Hash tk);
  let '(youngest, lowest, hash) :=
    if (current <? youngest)%N then (current, tk_Index tk, tk_Hash tk)
    else (youngest, lowest, hash) in
  let lowest :=
    if (current =? youngest)%N && (tk_Index tk <? lowest)%N then tk_Index tk else lowest in
  let oldest := if (oldest <? current)%N then current else oldest in
  mret (youngest, hash, lowest, oldest).

Definition GetSubmissionBtcInfo lc sk : res BcErr SubmissionBtcInfo :=
  acc ← fold_res (btc_info_step lc) (max_u32, None, max_u32, 0%N) (Key sk);
  let '(youngest, hash, lowest, oldest) := acc in
  match hash with
  | None => Panic
  | Some hash => Ok (mkSubmissionBtcInfo sk oldest youngest hash lowest)
  end.

(** The loop of [checkAncestors] over the keys of the previous epoch; it stops
    at the first ancestor. *)
Fixpoint haveAncestor lc (newSubmissionInfo : SubmissionBtcInfo) (keys : list SubmissionKey)
  : res BcErr bool :=
  match keys with
  | [] => Ok false
  | sk :: keys =>
      if length (Key sk) <? 2 then Panic
      else
        match GetSubmissionBtcInfo lc sk with
        | Panic => Panic
        | Err _ => haveAncestor lc newSubmissionInfo keys
        | Ok parentEpochSubmissionInfo =>
            if HappenedAfter newSubmissionInfo parentEpochSubmissionInfo then Ok true
            else haveAncestor lc newSubmissionInfo keys
        end
  end.

Definition checkAncestors lc s (submissionEpoch : N) (newSubmissionInfo : SubmissionBtcInfo)
  : res BcErr unit :=
  if (submissionEpoch <=? 1)%N then Ok tt
  else
    previousEpochData ←
      of_option ErrNoCheckpointsForPreviousEpoch (GetEpochData s (u64_sub submissionEpoch 1));
    require (negb (length (Keys previousEpochData) =? 0)) ErrNoCheckpointsForPreviousEpoch;;
    found ← haveAncestor lc newSubmissionInfo (Keys previousEpochData);
    require found ErrProvidedHeaderDoesNotHaveAncestor.

Record epochChangesSummary := mkEpochChangesSummary {
  SubmissionsToDelete : list SubmissionKey;
  SubmissionsToKeep : list SubmissionKey;
  EpochBestSubmission : option SubmissionBtcInfo;
  BestSubmissionIdx : nat;
}.

(** The loop of [getEpochChanges] from index [i] on.  [BestSubmissionIdx] is
    not assigned when the first best submission is found. *)
Fixpoint getEpochChanges_loop lc (parent : option SubmissionBtcInfo)
    (keys : list SubmissionKey) (i : nat) (acc : epochChangesSummary)
  : res BcErr epochChangesSummary :=
  match keys with
  | [] => Ok acc
  | sk :: keys =>
      let '(mkEpochChangesSummary del keep best idx) := acc in
      if length (Key sk) <? 2 then Panic
      else
        match GetSubmissionBtcInfo lc sk with
        | Panic => Panic
        | Err _ =>
            getEpochChanges_loop lc parent keys (S i)
              (mkEpochChangesSummary (del ++ [sk]) keep best idx)
        | Ok info =>
            if match parent with Some p => negb (HappenedAfter info p) | None => false end
            then getEpochChanges_loop lc parent keys (S i)
                   (mkEpochChangesSummary (del ++ [sk]) keep best idx)
            else
              getEpochChanges_loop lc parent keys (S i)
                match best with
                | None => mkEpochChangesSummary del (keep ++ [sk]) (Some info) idx
                | Some b =>
                    if IsBetterThan info b
                    then mkEpochChangesSummary del (keep ++ [sk]) (Some info) i
                    else mkEpochChangesSummary del (keep ++ [sk]) best idx
                end
        end
  end.

Definition getEpochChanges lc (parentEpochBestSubmission : option SubmissionBtcInfo) ed
  : res BcErr epochChangesSummary :=
  getEpochChanges_loop lc parentEpochBestSubmission (Keys ed) 0
    (mkEpochChangesSummary [] [] None 0).

Definition GetEpochBestSubmissionBtcInfo lc (ed : option EpochData)
  : res BcErr (option SubmissionBtcInfo) :=
  match ed with
  | None => Ok None
  | Some ed =>
      match Keys ed with
      | [] => Ok None
      | [sk] =>
          match GetSubmissionBtcInfo lc sk with
          | Ok btcInfo => Ok (Some btcInfo)
          | Err _ => Ok None
          | Panic => Panic
          end
      | _ => epochSummary ← getEpochChanges lc None ed; mret (EpochBestSubmission epochSummary)
      end
  end.

Definition checkSubmissionStatus s (info : SubmissionBtcInfo) : BtcStatus :=
  let subDepth := SubmissionDepth info in
  if (CheckpointFinalizationTimeout (GetParams s) <=? subDepth)%N then Finalized
  else if (BtcConfirmationDepth (GetParams s) <=? subDepth)%N then Confirmed
  else Submitted.

(** Deletes the submissions whose index is not [best]. *)
Definition deleteAllExcept s (keys : list SubmissionKey) (best : nat) : BCState :=
  foldl (λ s '(i, sk), if decide (i = best) then s else deleteSubmission s sk) s
    (imap pair keys).

(** Calls into x/checkpointing.  The setters return nothing in Go. *)
Definition call_ck {A} (r : res Checkpointing.CkptErr A) : res BcErr A :=
  map_err ErrCheckpointing r.

(** The status updates of an epoch with at least one submission. *)
Definition updateStatus s c ctx (epoch : N) (status best : BtcStatus)
  : res BcErr (BCState * CkptSt * BtcStatus) :=
  '(c, status) ←
    (if ((status_num status <? status_num best)%N && bool_decide (status = Submitted))
     then c ← call_ck (ck_SetCheckpointConfirmed c ctx epoch); mret (c, Confirmed)
     else mret (c, status));
  if ((status_num status <? status_num best)%N && bool_decide (status = Confirmed))
  then c ← call_ck (ck_SetCheckpointFinalized c ctx epoch);
       mret (setLastFinalizedEpochNumber s epoch, c, Finalized)
  else mret (s, c, status).

(** One iteration of [checkCheckpoints].  [parent] is [parentEpochInfo]: nil,
    or the best submission of the previous epoch, which may itself be nil.
    [None] is the [break]. *)
Definition checkEpoch lc ctx (sc : BCState * CkptSt) (parent : option (option SubmissionBtcInfo))
    (epoch : N) (currentEpoch : EpochData)
  : res BcErr (option (BCState * CkptSt * option SubmissionBtcInfo)) :=
  let '(s, c) := sc in
  match Keys currentEpoch with
  | [] => Ok None
  | k0 :: krest =>
      if bool_decide (Status currentEpoch = Finalized) then
        assert_go (length (k0 :: krest) =? 1);;
        match GetSubmissionBtcInfo lc k0 with
        | Ok subInfo => Ok (Some (s, c, Some subInfo))
        | _ => Panic
        end
      else if match parent with Some None => true | _ => false end then
        c ← call_ck (ck_SetCheckpointForgotten c ctx epoch);
        mret (Some (clearEpochData s epoch currentEpoch, c, None))
      else
        epochChanges ← getEpochChanges lc (default None parent) currentEpoch;
        match SubmissionsToKeep epochChanges, EpochBestSubmission epochChanges with
        | [], _ =>
            c ← call_ck (ck_SetCheckpointForgotten c ctx epoch);
            mret (Some (clearEpochData s epoch currentEpoch, c, None))
        | _ :: _, None => Panic
        | _ :: _, Some best =>
            '(s, c, status) ←
              updateStatus s c ctx epoch (Status currentEpoch) (checkSubmissionStatus s best);
            let '(s, keys) :=
              if bool_decide (status = Finalized)
              then (deleteAllExcept s (Keys currentEpoch) (BestSubmissionIdx epochChanges),
                    [si_SubmissionKey best])
              else (foldl deleteSubmission s (SubmissionsToDelete epochChanges),
                    SubmissionsToKeep epochChanges) in
            mret (Some (saveEpochData s epoch (mkEpochData keys status), c, Some best))
        end
  end.

(** Only the entry being visited is written, so the iterator yields the entries
    the store had when the loop started. *)
Fixpoint checkCheckpoints_loop lc ctx (sc : BCState * CkptSt)
    (parent : option (option SubmissionBtcInfo)) (entries : list (N * EpochData))
  : res BcErr (BCState * CkptSt) :=
  match entries with
  | [] => Ok sc
  | (epoch, currentEpoch) :: entries =>
      r ← checkEpoch lc ctx sc parent epoch currentEpoch;
      match r with
      | None => Ok sc
      | Some (s, c, best) => checkCheckpoints_loop lc ctx (s, c) (Some best) entries
      end
  end.

Definition checkCheckpoints lc ctx (sc : BCState * CkptSt) : res BcErr (BCState * CkptSt) :=
  let lastFinalizedEpoch := getLastFinalizedEpochNumber sc.1 in
  let it := if (0 <? lastFinalizedEpoch)%N then kv_from lastFinalizedEpoch (epochData sc.1)
            else kv_asc (epochData sc.1) in
  checkCheckpoints_loop lc ctx sc None it.

Definition OnTipChange := checkCheckpoints.

Definition EndBlocker lc ctx (sc : BCState * CkptSt) : res BcErr (BCState * CkptSt) :=
  if BtcLightClientUpdated sc.1 then OnTipChange lc ctx sc else Ok sc.

Definition addEpochSubmission ctx (sc : BCState * CkptSt) (epochNum : N) ed sk
    (sd : SubmissionData) : res BcErr (BCState * CkptSt) :=
  let '(s, c) := sc in
  c ← (match Keys ed with
       | [] => call_ck (ck_SetCheckpointSubmitted c ctx epochNum)
       | _ => mret c
       end);
  let s := saveEpochData s epochNum (AppendKey ed sk) in
  mret (saveSubmission s sk sd, c).
End keeper.

(** ** Hooks into the light client: [keeper/hooks.go] *)

Definition AfterBTCRollBack (s : BCState) : BCState := setBtcLightClientUpdated s.
Definition AfterBTCRollForward (s : BCState) : BCState := setBtcLightClientUpdated s.

(** ** Messages *)

Record MsgInsertBTCSpvProof := mkMsgInsertBTCSpvProof {
  msg_Submitter : string;
  Proofs : list BTCSpvProof;
}.

Record MsgUpdateParams := mkMsgUpdateParams {
  upd_Authority : string;
  upd_Params : Params;
}.

Section messages.
Context `{B : Btcd} {A : Bech32} (sha256 : bytes → bytes).

Record RawCheckpointSubmission := mkRawCheckpointSubmission {
  rcs_Reporter : list N;
  Proof1 : ParsedProof;
  Proof2 : ParsedProof;
  CheckpointData : BtcTxFormatter.RawBtcCheckpoint;
}.

Definition toTransactionKey (p : ParsedProof) : TransactionKey :=
  mkTransactionKey (pp_TransactionIdx p) (Some (pp_BlockHash p)).

Definition GetSubmissionKey (s : RawCheckpointSubmission) : SubmissionKey :=
  mkSubmissionKey [toTransactionKey (Proof1 s); toTransactionKey (Proof2 s)].

Definition GetSubmissionData (s : RawCheckpointSubmission) (epochNum : N)
    (txsInfo : list TransactionInfo) : SubmissionData :=
  mkSubmissionData
    (mkCheckpointAddresses (BtcTxFormatter.SubmitterAddress (CheckpointData s)) (rcs_Reporter s))
    txsInfo epochNum.

Definition ParseBTCSpvProof (p : BTCSpvProof) : res ProofErr ParsedProof :=
  ParseProof (BtcTransaction p) (BtcTransactionIndex p) (MerkleNodes p)
    (ConfirmingBtcHeader p).

(** Every error of parsing becomes [ErrInvalidCheckpointProof] in the handler.
    The index [i] of a part is below [NumberOfParts], so the test for more than
    255 proofs never fires. *)
Definition ParseTwoProofs (submitter : list N) (proofs : list BTCSpvProof)
    (expectedTag : BtcTxFormatter.AnonTag) : res BcErr RawCheckpointSubmission :=
  require (length proofs =? BtcTxFormatter.NumberOfParts) ErrInvalidCheckpointProof;;
  parsedProofs ← fold_res (λ acc proof,
      p ← map_err (λ _, ErrInvalidCheckpointProof) (ParseBTCSpvProof proof);
      mret (acc ++ [p])) [] proofs;
  checkpointData ← fold_res (λ acc '(i, p),
      data ← map_err (λ _, ErrInvalidCheckpointProof)
        (BtcTxFormatter.GetCheckpointData expectedTag BtcTxFormatter.CurrentVersion
           (u8 (N.of_nat i)) (pp_OpReturnData p));
      mret (acc ++ [data])) [] (imap pair parsedProofs);
  match checkpointData, parsedProofs with
  | f :: s :: _, p1 :: p2 :: _ =>
      rawCkptData ← map_err (λ _, ErrInvalidCheckpointProof)
        (BtcTxFormatter.ConnectParts sha256 BtcTxFormatter.CurrentVersion f s);
      rawCheckpoint ← map_err (λ _, ErrInvalidCheckpointProof)
        (BtcTxFormatter.DecodeRawCheckpoint BtcTxFormatter.CurrentVersion rawCkptData);
      mret (mkRawCheckpointSubmission submitter p1 p2 rawCheckpoint)
  | _, _ => Panic
  end.

Definition ParseSubmission (m : MsgInsertBTCSpvProof)
    (expectedTag : BtcTxFormatter.AnonTag) : res BcErr RawCheckpointSubmission :=
  address ← of_option ErrInvalidCheckpointProof (AccAddressFromBech32 (msg_Submitter m));
  ParseTwoProofs address (Proofs m) expectedTag.

Context `{LC : BTCLightClientKeeper} `{CK : CheckpointingKeeper} {X : Type}.
(** [incentiveKeeper.IndexRefundableMsg], on the state of x/incentive. *)
Context (IndexRefundableMsg : MsgInsertBTCSpvProof → X → X) (authority : string).

(** [txsInfo], built from the keys and the proofs at the same positions. *)
Definition txs_info (submissionKey : SubmissionKey) (proofs : list BTCSpvProof)
  : res BcErr (list TransactionInfo) :=
  fold_res (λ acc '(i, txKey),
    match proofs !! i with
    | None => Panic
    | Some p => mret (acc ++ [mkTransactionInfo txKey (BtcTransaction p) (MerkleNodes p)])
    end) [] (imap pair (Key submissionKey)).

(** A transaction whose handler returns an error is rolled back.  After a
    conflict the handler succeeds, which keeps the conflict flag of
    x/checkpointing. *)
Definition InsertBTCSpvProof (lc : LightClient) (ctx : Epoching.HeaderInfo)
    (scx : BCState * CkptSt * X) (req : MsgInsertBTCSpvProof)
  : res BcErr (BCState * CkptSt * X) :=
  let '(s, c, x) := scx in
  tag ← GetExpectedTag s;
  rawSubmission ← ParseSubmission req tag;
  let submissionKey := GetSubmissionKey rawSubmission in
  require (negb (HasSubmission s submissionKey)) ErrDuplicatedSubmission;;
  newSubmissionInfo ← map_err (λ _, ErrInvalidHeader) (GetSubmissionBtcInfo lc submissionKey);
  let epochNum := BtcTxFormatter.Epoch (CheckpointData rawSubmission) in
  let ed := default NewEmptyEpochData (GetEpochData s epochNum) in
  require (negb (bool_decide (Status ed = Finalized))) ErrEpochAlreadyFinalized;;
  match ck_VerifyCheckpoint c (CheckpointData rawSubmission) with
  | (_, Panic) => Panic
  | (c, Err e) =>
      if bool_decide (e = Checkpointing.ErrConflictingCheckpoint) then Ok (s, c, x)
      else Err (ErrCheckpointing e)
  | (c, Ok _) =>
      checkAncestors lc s epochNum newSubmissionInfo;;
      txsInfo ← txs_info submissionKey (Proofs req);
      let submissionData := GetSubmissionData rawSubmission epochNum txsInfo in
      sc ← addEpochSubmission ctx (s, c) epochNum ed submissionKey submissionData;
      mret (sc, IndexRefundableMsg req x)
  end.

Definition UpdateParams (s : BCState) (req : MsgUpdateParams) : res BcErr BCState :=
  require (bool_decide (authority = upd_Authority req)) ErrInvalidSigner;;
  require (Params_Validate (upd_Params req)) ErrInvalidProposalMsg;;
  require (CheckpointFinalizationTimeout (upd_Params req) =?
           CheckpointFinalizationTimeout (GetParams s))%N ErrInvalidProposalMsg;;
  SetParams s (upd_Params req).
End messages.

End BtcCheckpoint.
