(* ===== verification/BtcCheckpointSpec.v ===== *)
(** What x/btccheckpoint promises, proved against the interfaces of the two
    modules it calls.

    [placed] says where a submission is on the Bitcoin chain, [viable] and
    [is_best] which submissions of an epoch count and which of them is the best,
    [bc_ok] is the invariant of the module's state, and [settled] what holds of
    an epoch after the tip of the light client has moved. *)
From stdpp Require Import base numbers list sorting gmap strings.
From S2P Require Import Prelude KVStore Bytes Btcd BtcTxFormatter.
From S2P Require Import BtcUtils BtcLightClient Epoching Checkpointing BtcCheckpoint.

Module BtcCheckpointSpec.
Import BtcUtils BtcCheckpoint.

(** ** The laws of the interfaces *)

(** In a consistent light client depths are [uint32]s other than the largest,
    and a nil hash has no depth. *)
Class BTCLightClientLaws `{BTCLightClientKeeper} := {
  lc_ok : LightClient → Prop;
  lc_depth_total lc h : lc_ok lc → lc_MainChainDepth lc h ≠ Panic;
  lc_depth_bound lc h d : lc_ok lc → lc_MainChainDepth lc h = Ok d → (d < max_u32)%N;
  lc_depth_nil lc d : lc_MainChainDepth lc None ≠ Ok d;
}.

(** The effect of a setter on the status of a checkpoint: it moves to [to] from one
    of the [expected] statuses, and stays otherwise. *)
Definition status_change (expected : list Checkpointing.CheckpointStatus)
    (to : Checkpointing.CheckpointStatus) (st : option Checkpointing.CheckpointStatus)
  : option Checkpointing.CheckpointStatus :=
  match st with
  | Some st => Some (if decide (st ∈ expected) then to else st)
  | None => None
  end.

(** x/checkpointing never panics when told about a status, changes only the status
    it is told about, and has no checkpoint of epoch 0. *)
Class CheckpointingLaws `{CheckpointingKeeper} := {
  ck_ok : CkptSt → Prop;
  ck_status : CkptSt → N → option Checkpointing.CheckpointStatus;
  ck_setters_total c ctx e f : ck_ok c →
    f ∈ [ck_SetCheckpointSubmitted; ck_SetCheckpointConfirmed; ck_SetCheckpointFinalized;
         ck_SetCheckpointForgotten] →
    ∃ c', f c ctx e = Ok c' ∧ ck_ok c';
  ck_setters_status c ctx e f expected to c' : ck_ok c →
    (f, expected, to) ∈
      [(ck_SetCheckpointSubmitted, [Checkpointing.Sealed], Checkpointing.Submitted);
       (ck_SetCheckpointConfirmed, [Checkpointing.Submitted], Checkpointing.Confirmed);
       (ck_SetCheckpointFinalized, [Checkpointing.Confirmed], Checkpointing.Finalized);
       (ck_SetCheckpointForgotten, [Checkpointing.Submitted; Checkpointing.Confirmed],
        Checkpointing.Sealed)] →
    f c ctx e = Ok c' → ∀ e', ck_status c' e' =
      if decide (e' = e) then status_change expected to (ck_status c e) else ck_status c e';
  ck_verify_ok c ckpt c' r : ck_ok c → ck_VerifyCheckpoint c ckpt = (c', r) →
    ck_ok c' ∧ ∀ e, ck_status c' e = ck_status c e;
  ck_verify_known c ckpt c' u : ck_ok c → ck_VerifyCheckpoint c ckpt = (c', Ok u) →
    BtcTxFormatter.Epoch ckpt ≠ 0%N ∧ is_Some (ck_status c (BtcTxFormatter.Epoch ckpt));
}.

(** ** Where a submission is *)

Section placement.
Context `{LC : BTCLightClientKeeper} `{LL : !BTCLightClientLaws}.
Implicit Types (lc : LightClient) (sk : SubmissionKey) (tk : TransactionKey)
  (info : SubmissionBtcInfo) (ed : EpochData).

Definition depth_of lc tk : option N :=
  match lc_MainChainDepth lc (tk_Hash tk) with Ok d => Some d | _ => None end.

(** [info] describes the blocks of [tks]: the depths range from the youngest to
    the oldest, both attained, and the index is the lowest in the youngest. *)
Record placed_in lc (tks : list TransactionKey) (youngest : N) (hash : option bytes)
    (lowest oldest : N) : Prop := {
  pl_range tk : tk ∈ tks → ∃ d, depth_of lc tk = Some d ∧ (youngest ≤ d ≤ oldest)%N;
  pl_youngest : ∃ tk, tk ∈ tks ∧ depth_of lc tk = Some youngest ∧ tk_Hash tk = hash;
  pl_oldest : ∃ tk, tk ∈ tks ∧ depth_of lc tk = Some oldest;
  pl_lowest : ∃ tk, tk ∈ tks ∧ depth_of lc tk = Some youngest ∧ tk_Index tk = lowest;
  pl_lowest_min tk : tk ∈ tks → depth_of lc tk = Some youngest → (lowest ≤ tk_Index tk)%N;
}.

Definition placed lc info : Prop :=
  placed_in lc (Key (si_SubmissionKey info)) (YoungestBlockDepth info)
    (Some (YoungestBlockHash info)) (YoungestBlockLowestTxIdx info) (OldestBlockDepth info).

Lemma headerDepth_cases lc tk :
  lc_ok lc →
  (∃ d, headerDepth lc (tk_Hash tk) = Ok d ∧ depth_of lc tk = Some d ∧ (d < max_u32)%N) ∨
  (headerDepth lc (tk_Hash tk) = Err ErrSubmissionUnknown ∧ depth_of lc tk = None).
Proof.
  intros Hlc. unfold headerDepth, depth_of.
  pose proof (lc_depth_total lc (tk_Hash tk) Hlc).
  destruct (lc_MainChainDepth lc (tk_Hash tk)) as [d|e|] eqn:Hd; [|by right|done].
  left. exists d. split_and!; [done..|by eapply lc_depth_bound].
Qed.

Lemma btc_info_step_unknown lc acc tk e :
  headerDepth lc (tk_Hash tk) = Err e → btc_info_step lc acc tk = Err e.
Proof. intros Hd. unfold btc_info_step. destruct acc as [[[??]?]?]. by rewrite Hd. Qed.

(** The first transaction of the loop. *)
Lemma btc_info_step_first lc tk d :
  headerDepth lc (tk_Hash tk) = Ok d → (d < max_u32)%N →
  btc_info_step lc (max_u32, None, max_u32, 0%N) tk = Ok (d, tk_Hash tk, tk_Index tk, d).
Proof.
  intros Hd Hb. unfold btc_info_step. rewrite Hd. simpl.
  rewrite (proj2 (N.ltb_lt _ _) Hb), N.eqb_refl, N.ltb_irrefl. simpl.
  destruct (0 <? d)%N eqn:E; [done|]. apply N.ltb_ge in E.
  by replace d with 0%N by lia.
Qed.

Lemma placed_in_first lc tk d :
  depth_of lc tk = Some d → placed_in lc [tk] d (tk_Hash tk) (tk_Index tk) d.
Proof.
  intros Hd. split.
  - intros t ->%list_elem_of_singleton. exists d. split; [done|lia].
  - exists tk. split_and!; [by left|done|done].
  - exists tk. split; [by left|done].
  - exists tk. split_and!; [by left|done|done].
  - intros t ->%list_elem_of_singleton _. lia.
Qed.

(** Every further transaction. *)
Lemma btc_info_step_placed lc tks tk d y h l o y' h' l' o' :
  placed_in lc tks y h l o → headerDepth lc (tk_Hash tk) = Ok d → depth_of lc tk = Some d →
  btc_info_step lc (y, h, l, o) tk = Ok (y', h', l', o') →
  placed_in lc (tks ++ [tk]) y' h' l' o'.
Proof.
  intros [Hr (ty & Hty & Hyd & Hyh) (to & Hto & Hod) (tl & Htl & Hld & Hli) Hmin] Hd Hdo Hs.
  unfold btc_info_step, mret, res_ret in Hs. rewrite Hd in Hs. simpl in Hs.
  assert (∀ t, t ∈ tks ++ [tk] → t ∈ tks ∨ t = tk) as Hin
    by (intros t [|?%list_elem_of_singleton]%elem_of_app; auto).
  assert (∀ t, t ∈ tks → t ∈ tks ++ [tk]) as Hl by (intros; apply elem_of_app; auto).
  assert (tk ∈ tks ++ [tk]) as Htk by (apply elem_of_app; right; by left).
  destruct (Hr _ Hty) as (dy & Hdy & Hyb).
  replace (if (o <? d)%N then d else o) with (N.max o d) in Hs
    by (destruct (N.ltb_spec o d); lia).
  assert (∃ t, t ∈ tks ++ [tk] ∧ depth_of lc t = Some (N.max o d)) as Holdest.
  { destruct (N.max_spec o d) as [[_ ->]|[_ ->]]; [by exists tk|exists to; auto]. }
  destruct (N.ltb_spec d y) as [Hlt|Hge]; [|destruct (N.eqb_spec d y) as [->|Hne]].
  - rewrite N.eqb_refl, N.ltb_irrefl in Hs. injection Hs as <- <- <- <-.
    split; [|exists tk; auto|exact Holdest|exists tk; auto|].
    + intros t [Ht| ->]%Hin; [|exists d; split; [done|lia]].
      destruct (Hr t Ht) as (dt & ? & ?). exists dt. split; [done|lia].
    + intros t [Ht| ->]%Hin Hdt; [|lia]. destruct (Hr t Ht) as (dt & ? & ?).
      simplify_eq. lia.
  - simpl in Hs. destruct (N.ltb_spec (tk_Index tk) l); injection Hs as <- <- <- <-;
      (split; [|exists ty; auto|exact Holdest| |]).
    + intros t [Ht| ->]%Hin; [|exists y; split; [done|lia]].
      destruct (Hr t Ht) as (dt & ? & ?). exists dt. split; [done|lia].
    + by exists tk.
    + intros t [Ht| ->]%Hin Hdt; [|lia]. specialize (Hmin t Ht Hdt). lia.
    + intros t [Ht| ->]%Hin; [|exists y; split; [done|lia]].
      destruct (Hr t Ht) as (dt & ? & ?). exists dt. split; [done|lia].
    + exists tl; auto.
    + intros t [Ht| ->]%Hin Hdt; [|lia]. specialize (Hmin t Ht Hdt). lia.
  - injection Hs as <- <- <- <-. split; [|exists ty; auto|exact Holdest|exists tl; auto|].
    + intros t [Ht| ->]%Hin; [|exists d; split; [done|lia]].
      destruct (Hr t Ht) as (dt & ? & ?). exists dt. split; [done|lia].
    + intros t [Ht| ->]%Hin Hdt; [by apply Hmin|congruence].
Qed.

Lemma btc_info_fold lc tks more y h l o :
  lc_ok lc → placed_in lc tks y h l o →
  match fold_res (btc_info_step lc) (y, h, l, o) more with
  | Ok (y', h', l', o') => placed_in lc (tks ++ more) y' h' l' o'
  | Err e => e = ErrSubmissionUnknown ∧ ∃ tk, tk ∈ more ∧ depth_of lc tk = None
  | Panic => False
  end.
Proof.
  intros Hlc. revert tks y h l o. induction more as [|tk more IH]; intros tks y h l o Hp;
    cbn [fold_res].
  { by rewrite app_nil_r. }
  destruct (headerDepth_cases lc tk Hlc) as [(d & Hd & Hdo & Hb)|[Hd Hdo]].
  - destruct (btc_info_step lc (y, h, l, o) tk) as [[[[y' h'] l'] o']|e|] eqn:Hs;
      [|unfold btc_info_step in Hs; rewrite Hd in Hs; simpl in Hs; by destruct (d <? y)%N..].
    pose proof (btc_info_step_placed _ _ _ _ _ _ _ _ _ _ _ _ Hp Hd Hdo Hs) as Hp'.
    cbn [mbind res_bind]. specialize (IH _ _ _ _ _ Hp').
    destruct (fold_res _ _ _) as [[[[??]?]?]|e|]; [by rewrite cons_middle, app_assoc| |done].
    destruct IH as (? & t & ? & ?). split; [done|]. exists t. split; [by right|done].
  - rewrite (btc_info_step_unknown _ _ _ _ Hd). split; [done|].
    exists tk. split; [by left|done].
Qed.

Lemma placed_hash lc tks y h l o : placed_in lc tks y h l o → is_Some h.
Proof.
  intros [_ (tk & _ & Hd & <-) _ _ _]. unfold depth_of in Hd.
  destruct (tk_Hash tk); [by eexists|].
  destruct (lc_MainChainDepth lc None) as [d'| |] eqn:E; [|done..].
  by apply lc_depth_nil in E.
Qed.

Lemma GetSubmissionBtcInfo_spec lc sk :
  lc_ok lc → Key sk ≠ [] →
  match GetSubmissionBtcInfo lc sk with
  | Ok info => si_SubmissionKey info = sk ∧ placed lc info
  | Err e => e = ErrSubmissionUnknown ∧ ∃ tk, tk ∈ Key sk ∧ depth_of lc tk = None
  | Panic => False
  end.
Proof.
  intros Hlc Hne. destruct sk as [[|tk tks]]; [done|]. unfold GetSubmissionBtcInfo.
  cbn [Key fold_res].
  destruct (headerDepth_cases lc tk Hlc) as [(d & Hd & Hdo & Hb)|[Hd Hdo]].
  - rewrite (btc_info_step_first _ _ _ Hd Hb). cbn [mbind res_bind].
    pose proof (btc_info_fold lc [tk] tks _ _ _ _ Hlc (placed_in_first lc tk d Hdo)) as H.
    destruct (fold_res _ _ _) as [[[[y h] l] o]|e|]; simpl; [| |done].
    + destruct (placed_hash _ _ _ _ _ _ H) as [h' ->]. done.
    + destruct H as (? & t & ? & ?). split; [done|]. exists t. split; [by right|done].
  - rewrite (btc_info_step_unknown _ _ _ _ Hd). split; [done|].
    exists tk. split; [by left|done].
Qed.
End placement.

(** ** The submissions of an epoch *)

(** [IsBetterThan] compares depth first, then the index. *)
Lemma IsBetterThan_true a b :
  IsBetterThan a b = true ↔
  (SubmissionDepth b < SubmissionDepth a)%N ∨
  (SubmissionDepth a = SubmissionDepth b ∧
   YoungestBlockLowestTxIdx a < YoungestBlockLowestTxIdx b)%N.
Proof.
  unfold IsBetterThan.
  destruct (N.ltb_spec (SubmissionDepth b) (SubmissionDepth a)),
    (N.ltb_spec (SubmissionDepth a) (SubmissionDepth b)); rewrite ?N.ltb_lt; naive_solver lia.
Qed.

Lemma IsBetterThan_irrefl a : IsBetterThan a a = false.
Proof. apply not_true_iff_false. rewrite IsBetterThan_true. lia. Qed.

(** What is not better than [b] is not better than anything better than [b]. *)
Lemma IsBetterThan_mono a b c :
  IsBetterThan a b = false → IsBetterThan c b = true → IsBetterThan a c = false.
Proof. rewrite <- !not_true_iff_false, !IsBetterThan_true. lia. Qed.

Section epochs.
Context `{LC : BTCLightClientKeeper} `{LL : !BTCLightClientLaws}.
Implicit Types (lc : LightClient) (sk : SubmissionKey) (info : SubmissionBtcInfo)
  (ed : EpochData) (keys : list SubmissionKey) (parent : option SubmissionBtcInfo).

Definition two_parts sk : Prop := 2 ≤ length (Key sk).

Lemma two_parts_ne sk : two_parts sk → Key sk ≠ [].
Proof. unfold two_parts. destruct (Key sk); simpl; [lia|done]. Qed.

(** The position of a submission on the main chain, if it is there. *)
Definition info_of lc sk : option SubmissionBtcInfo :=
  match GetSubmissionBtcInfo lc sk with Ok info => Some info | _ => None end.

Lemma info_of_cases lc sk :
  lc_ok lc → two_parts sk →
  (∃ info, GetSubmissionBtcInfo lc sk = Ok info ∧ info_of lc sk = Some info ∧
     si_SubmissionKey info = sk) ∨
  (∃ e, GetSubmissionBtcInfo lc sk = Err e ∧ info_of lc sk = None).
Proof.
  intros Hlc Hsk. pose proof (GetSubmissionBtcInfo_spec lc sk Hlc (two_parts_ne _ Hsk)) as H.
  unfold info_of. destruct (GetSubmissionBtcInfo lc sk) as [info|e|]; [|by eauto|done].
  left. exists info. by destruct H.
Qed.

(** A submission counts when it is on the main chain, after [parent]. *)
Definition viable lc parent sk : bool :=
  match info_of lc sk with
  | None => false
  | Some info => match parent with Some p => HappenedAfter info p | None => true end
  end.

(** [b] is the position of a submission of [keys] that no other one beats. *)
Record is_best lc keys (b : SubmissionBtcInfo) : Prop := {
  best_elem : si_SubmissionKey b ∈ keys;
  best_info : info_of lc (si_SubmissionKey b) = Some b;
  best_max sk info : sk ∈ keys → info_of lc sk = Some info → IsBetterThan info b = false;
}.

(** What the loop has computed after the keys [done]. *)
Record changes_ok lc parent (done : list SubmissionKey) (sum : epochChangesSummary) : Prop := {
  ch_keep : SubmissionsToKeep sum = filter (λ sk, viable lc parent sk = true) done;
  ch_del : SubmissionsToDelete sum = filter (λ sk, viable lc parent sk ≠ true) done;
  ch_best : match EpochBestSubmission sum with
            | None => SubmissionsToKeep sum = []
            | Some b => is_best lc (SubmissionsToKeep sum) b
            end;
}.

Lemma is_best_singleton lc sk info :
  info_of lc sk = Some info → si_SubmissionKey info = sk → is_best lc [sk] info.
Proof.
  intros Hi <-. split; [by left|done|].
  intros sk' i' ->%list_elem_of_singleton ?. simplify_eq. apply IsBetterThan_irrefl.
Qed.

Lemma is_best_snoc lc keys b sk info :
  is_best lc keys b → info_of lc sk = Some info → si_SubmissionKey info = sk →
  is_best lc (keys ++ [sk]) (if IsBetterThan info b then info else b).
Proof.
  intros [He Hi Hm] Hsk Hk. destruct (IsBetterThan info b) eqn:Hb; split.
  - rewrite Hk. apply elem_of_app. right. by left.
  - by rewrite Hk.
  - intros sk' i' [H| ->%list_elem_of_singleton]%elem_of_app Hi'.
    + eapply IsBetterThan_mono; [by eapply Hm|done].
    + simplify_eq. apply IsBetterThan_irrefl.
  - apply elem_of_app. by left.
  - done.
  - intros sk' i' [H| ->%list_elem_of_singleton]%elem_of_app Hi'; [by eapply Hm|].
    by simplify_eq.
Qed.

Lemma getEpochChanges_loop_ok lc parent keys i done sum :
  lc_ok lc → Forall two_parts keys → changes_ok lc parent done sum →
  ∃ sum', getEpochChanges_loop lc parent keys i sum = Ok sum' ∧
    changes_ok lc parent (done ++ keys) sum'.
Proof.
  intros Hlc Hk. revert i done sum. induction Hk as [|sk keys Hsk _ IH]; intros i done sum Hs.
  { exists sum. by rewrite app_nil_r. }
  rewrite cons_middle, app_assoc. cbn [getEpochChanges_loop].
  destruct sum as [del keep best idx], Hs as [Hkeep Hdel Hbest]. simpl in *.
  rewrite (proj2 (Nat.ltb_ge _ _)) by done.
  destruct (info_of_cases lc sk Hlc Hsk) as [(info & -> & Hi & Hik)|(e & -> & Hi)]; cycle 1.
  { apply IH. assert (viable lc parent sk = false) as Hv by (unfold viable; by rewrite Hi).
    split; simpl; [..|done]; rewrite filter_app, filter_cons, Hv, ?Hkeep, ?Hdel; simpl;
      by rewrite ?app_nil_r. }
  assert (viable lc parent sk =
    negb (match parent with Some p => negb (HappenedAfter info p) | None => false end)) as Hv.
  { unfold viable. rewrite Hi. destruct parent; [by rewrite negb_involutive|done]. }
  destruct (match parent with Some p => negb (HappenedAfter info p) | None => false end);
    simpl in Hv; apply IH.
  - split; simpl; [..|done]; rewrite filter_app, filter_cons, Hv, ?Hkeep, ?Hdel; simpl;
      by rewrite ?app_nil_r.
  - destruct best as [b|]; [|rewrite Hbest in Hkeep |- *; clear Hbest].
    + pose proof (is_best_snoc _ _ _ _ _ Hbest Hi Hik) as Hb.
      destruct (IsBetterThan info b); (split; simpl; [..|done]);
        rewrite filter_app, filter_cons, Hv, ?Hkeep, ?Hdel; simpl; by rewrite ?app_nil_r.
    + split; simpl; [..|by apply is_best_singleton];
        rewrite filter_app, filter_cons, Hv, ?Hdel, <- ?Hkeep; simpl; by rewrite ?app_nil_r.
Qed.

Lemma getEpochChanges_ok lc parent ed :
  lc_ok lc → Forall two_parts (Keys ed) →
  ∃ sum, getEpochChanges lc parent ed = Ok sum ∧ changes_ok lc parent (Keys ed) sum.
Proof. intros Hlc Hk. apply (getEpochChanges_loop_ok lc parent (Keys ed) 0 []); done. Qed.
End epochs.

(** ** The state *)

Abbreviation lf s := (getLastFinalizedEpochNumber s).

(** The invariant of the state.  Epochs are numbered from 1 without gaps; an
    epoch with submissions follows one with submissions, with the exceptions [P]
    excludes; the finalised epochs are those up to the last finalised one, with
    one submission each. *)
Record bc_inv (P : N → Prop) (s : BCState) : Prop := {
  bo_zero : epochData s !! 0%N = None;
  bo_prev e : (2 ≤ e)%N → is_Some (epochData s !! e) → is_Some (epochData s !! (e - 1)%N);
  bo_keys_prev e ed : P e → (2 ≤ e)%N → epochData s !! e = Some ed → Keys ed ≠ [] →
    ∃ ed', epochData s !! (e - 1)%N = Some ed' ∧ Keys ed' ≠ [];
  bo_final e ed : epochData s !! e = Some ed → Status ed = Finalized ↔ (e ≤ lf s)%N;
  bo_lf : lf s = 0%N ∨ is_Some (epochData s !! lf s);
  bo_one e ed : epochData s !! e = Some ed → Status ed = Finalized → ∃ sk, Keys ed = [sk];
  bo_parts e ed : epochData s !! e = Some ed → Forall two_parts (Keys ed);
  bo_params : Params_Validate (GetParams s) = true;
}.

Definition bc_ok : BCState → Prop := bc_inv (λ _, True).

Lemma bc_inv_weaken (P Q : N → Prop) s : (∀ e, Q e → P e) → bc_inv P s → bc_inv Q s.
Proof. intros HPQ [???????]. split; eauto. Qed.

(** The state differs from [s] in the data of epoch [e] and in the submissions. *)
Definition with_epoch (s s' : BCState) (e : N) (ed : EpochData) : Prop :=
  epochData s' = <[e := ed]> (epochData s) ∧ bc_params s' = bc_params s.

Lemma deleteSubmissions_frame (s : BCState) keys :
  let s' := foldl deleteSubmission s keys in
  epochData s' = epochData s ∧ latestFinalizedEpoch s' = latestFinalizedEpoch s ∧
  bc_params s' = bc_params s.
Proof.
  revert s. induction keys as [|k keys IH]; intros s; [done|].
  apply (IH (deleteSubmission s k)).
Qed.

Lemma deleteAllExcept_frame (s : BCState) keys best :
  let s' := deleteAllExcept s keys best in
  epochData s' = epochData s ∧ latestFinalizedEpoch s' = latestFinalizedEpoch s ∧
  bc_params s' = bc_params s.
Proof.
  unfold deleteAllExcept. generalize (imap pair keys). intros l. revert s.
  induction l as [|[i k] l IH]; intros s; [done|]. simpl. case_decide; [apply IH|].
  destruct (IH (deleteSubmission s k)) as (-> & -> & ->). done.
Qed.

(** Epochs after one without submissions have none. *)
Lemma empty_epochs P s n ed e ed' :
  bc_inv P s → (∀ e, (n < e)%N → P e) → (1 ≤ n)%N → epochData s !! n = Some ed → Keys ed = [] →
  (n ≤ e)%N → epochData s !! e = Some ed' → Keys ed' = [].
Proof.
  intros Hs HP Hn Hed Hk Hle. revert ed'.
  replace e with (n + (e - n))%N by lia. generalize (e - n)%N as d. clear e Hle.
  induction d as [|d IH] using N.peano_ind; intros ed' He.
  { rewrite N.add_0_r in He. by simplify_eq. }
  destruct (Keys ed') eqn:Hed'; [done|].
  destruct (bo_keys_prev _ _ Hs (n + N.succ d) ed') as (ed2 & He2 & Hk2);
    [apply HP; lia|lia|done|by rewrite Hed'|].
  replace (n + N.succ d - 1)%N with (n + d)%N in He2 by lia.
  by rewrite (IH _ He2) in Hk2.
Qed.

(** The entries of a gapless store from [n] on, as an iterator visits them. *)
Inductive run : N → list (N * EpochData) → Prop :=
  | run_nil n : run n []
  | run_cons n ed l : run (n + 1) l → run n ((n, ed) :: l).

Lemma sorted_run n (l : list (N * EpochData)) :
  StronglySorted kv_lt l → (∀ e, e ∈ l.*1 → (n ≤ e)%N) →
  (∀ e, e ∈ l.*1 → e ≠ n → (e - 1)%N ∈ l.*1) → run n l.
Proof.
  intros Hs. revert n. induction Hs as [|[e ed] l Hs IH Hlt]; intros n Hge Hcl; [constructor|].
  rewrite Forall_forall in Hlt.
  assert (∀ e', e' ∈ l.*1 → (e < e')%N) as Hlt'.
  { intros e' (x & -> & Hx)%list_elem_of_fmap. specialize (Hlt x Hx). done. }
  assert (n ≤ e)%N as Hne by (apply Hge; by left).
  assert (e = n) as ->.
  { destruct (decide (e = n)) as [|Hn]; [done|].
    assert (e - 1 ∈ e :: l.*1)%N as [|H%Hlt']%elem_of_cons by (apply Hcl; [by left|done]);
      [lia|unfold kv_lt in H; simpl in H; lia]. }
  constructor. apply IH.
  - intros e' He'. specialize (Hlt' _ He'). lia.
  - intros e' He' Hn. specialize (Hlt' _ He').
    assert (e' - 1 ∈ n :: l.*1)%N as [H|H]%elem_of_cons; [|lia|done].
    apply Hcl; [by right|lia].
Qed.

Lemma run_gt n l e ed : run n l → (e, ed) ∈ l → (n ≤ e)%N.
Proof.
  induction 1 as [|n ed' l _ IH]; [by intros ?%not_elem_of_nil|].
  intros [[= -> ->]|Hin%IH]%elem_of_cons; lia.
Qed.

Lemma elem_of_keys_from (m : gmap N EpochData) n e :
  e ∈ (kv_from n m).*1 ↔ is_Some (m !! e) ∧ (n ≤ e)%N.
Proof.
  rewrite list_elem_of_fmap. split.
  - intros ([k v] & -> & [Hk Hl]%elem_of_kv_from). simpl. eauto.
  - intros [[v Hv] Hl]. exists (e, v). split; [done|]. by apply elem_of_kv_from.
Qed.

Lemma entries_run P s :
  bc_inv P s →
  let n := N.max 1 (lf s) in
  (if (0 <? lf s)%N then kv_from (lf s) (epochData s) else kv_asc (epochData s)) =
    kv_from n (epochData s) ∧ run n (kv_from n (epochData s)).
Proof.
  intros Hs n. split.
  - destruct (N.ltb_spec 0 (lf s)); [by replace n with (lf s) by lia|].
    replace n with 1%N by lia.
    assert (∀ x, x ∈ kv_asc (epochData s) → (1 ≤ x.1)%N) as Hnz.
    { intros [k v] Hk%elem_of_kv_asc. destruct (decide (k = 0%N)) as [->|]; [|simpl; lia].
      by rewrite (bo_zero _ _ Hs) in Hk. }
    unfold kv_from. induction (kv_asc (epochData s)) as [|x l IH]; [done|].
    rewrite filter_cons_True by (apply Hnz; by left). f_equal. apply IH.
    intros y Hy. apply Hnz. by right.
  - apply sorted_run; [apply kv_from_lt_sorted|by intros e [_ ?]%elem_of_keys_from|].
    intros e [He Hle]%elem_of_keys_from Hne. apply elem_of_keys_from.
    split; [|lia]. apply (bo_prev _ _ Hs); [lia|done].
Qed.

(** Replacing the data of epoch [n], possibly finalising it. *)
Lemma update_epoch s s' n ed ed' :
  bc_inv (λ e, e ≠ n) s → (1 ≤ n)%N → epochData s !! n = Some ed →
  epochData s' = <[n := ed']> (epochData s) → bc_params s' = bc_params s →
  (lf s' = lf s ∨ (lf s' = n ∧ lf s = n - 1)%N) →
  (Status ed' = Finalized ↔ (n ≤ lf s')%N) →
  (Status ed' = Finalized → ∃ sk, Keys ed' = [sk]) →
  Forall two_parts (Keys ed') →
  ((2 ≤ n)%N → Keys ed' ≠ [] → ∃ ep, epochData s !! (n - 1)%N = Some ep ∧ Keys ep ≠ []) →
  bc_inv (λ e, e ≠ n + 1)%N s'.
Proof.
  intros Hs Hn He Hd Hp Hlf Hfin Hone Htwo Hprev.
  assert (∀ e, is_Some (epochData s' !! e) ↔ is_Some (epochData s !! e)) as Hdom.
  { intros e. rewrite Hd. destruct (decide (e = n)) as [->|].
    - rewrite lookup_insert_eq, He. split; eauto.
    - by rewrite lookup_insert_ne. }
  split.
  - rewrite Hd, lookup_insert_ne by lia. apply Hs.
  - intros e H2. rewrite !Hdom. by apply (bo_prev _ _ Hs).
  - intros e ed2 Hne H2. rewrite Hd.
    rewrite (lookup_insert_ne _ n (e - 1)%N) by lia.
    intros [[<- <-]|[Hne' He2]]%lookup_insert_Some Hk; [by auto|].
    by apply (bo_keys_prev _ _ Hs e ed2).
  - intros e ed2. rewrite Hd.
    intros [[<- <-]|[Hne He2]]%lookup_insert_Some; [done|].
    rewrite (bo_final _ _ Hs e ed2 He2). lia.
  - destruct Hlf as [->|[-> _]]; [destruct (bo_lf _ _ Hs) as [|]|];
      [by left|right; by apply Hdom|right; apply Hdom; by rewrite He].
  - intros e ed2. rewrite Hd.
    intros [[<- <-]|[_ He2]]%lookup_insert_Some; [done|]. by apply (bo_one _ _ Hs e).
  - intros e ed2. rewrite Hd.
    intros [[<- <-]|[_ He2]]%lookup_insert_Some; [done|]. by apply (bo_parts _ _ Hs e).
  - unfold GetParams. rewrite Hp. apply Hs.
Qed.

Section tip.
Context `{LC : BTCLightClientKeeper} `{LL : !BTCLightClientLaws}.
Context `{CK : CheckpointingKeeper} `{CL : !CheckpointingLaws}.
Implicit Types (lc : LightClient) (s : BCState) (c : CkptSt) (ed : EpochData)
  (ctx : Epoching.HeaderInfo) (b : SubmissionBtcInfo).

(** [k] and [w]. *)
Abbreviation kdeep s := (BtcConfirmationDepth (GetParams s)).
Abbreviation wdeep s := (CheckpointFinalizationTimeout (GetParams s)).

Definition join (a b : BtcStatus) : BtcStatus :=
  if (status_num a <? status_num b)%N then b else a.

Lemma updateStatus_spec s c ctx e status best :
  ck_ok c → status ≠ Finalized →
  ∃ c', ck_ok c' ∧ updateStatus s c ctx e status best =
    Ok (if decide (join status best = Finalized) then setLastFinalizedEpochNumber s e else s,
        c', join status best).
Proof.
  intros Hc Hst. unfold updateStatus, join.
  destruct (ck_setters_total c ctx e ck_SetCheckpointConfirmed Hc) as (c1 & H1 & Hc1);
    [set_solver|].
  destruct (ck_setters_total c ctx e ck_SetCheckpointFinalized Hc) as (c2 & H2 & Hc2);
    [set_solver|].
  destruct (ck_setters_total c1 ctx e ck_SetCheckpointFinalized Hc1) as (c3 & H3 & Hc3);
    [set_solver|].
  destruct status, best; try done; simpl; rewrite ?H1; simpl; rewrite ?H2, ?H3; simpl; eauto.
Qed.

Lemma checkSubmissionStatus_spec s b :
  Params_Validate (GetParams s) = true →
  (checkSubmissionStatus s b = Finalized ↔ (wdeep s ≤ SubmissionDepth b)%N) ∧
  (checkSubmissionStatus s b ≠ Submitted ↔ (kdeep s ≤ SubmissionDepth b)%N).
Proof.
  intros Hp. unfold Params_Validate in Hp. rewrite !andb_true_iff, !negb_true_iff in Hp.
  destruct Hp as [_ Hkw%N.leb_gt]. unfold checkSubmissionStatus.
  destruct (N.leb_spec (wdeep s) (SubmissionDepth b)),
    (N.leb_spec (kdeep s) (SubmissionDepth b)); split; split; (done || lia).
Qed.

(** Two best submissions are equally deep. *)
Lemma is_best_depth lc keys b b' :
  is_best lc keys b → is_best lc keys b' → SubmissionDepth b = SubmissionDepth b'.
Proof.
  intros [He Hi Hm] [He' Hi' Hm'].
  pose proof (Hm _ _ He' Hi') as H1. pose proof (Hm' _ _ He Hi) as H2.
  apply not_true_iff_false in H1, H2. rewrite IsBetterThan_true in H1, H2. lia.
Qed.

(** What holds of an epoch with submissions after the tip has moved: all its
    submissions are on the main chain, after the best submission of the previous
    epoch, and the depth of the best one decides about its status. *)
Record settled lc s (e : N) ed b : Prop := {
  se_best : is_best lc (Keys ed) b;
  se_on_chain sk : sk ∈ Keys ed → is_Some (info_of lc sk);
  se_order ed' b' : epochData s !! (e - 1)%N = Some ed' → is_best lc (Keys ed') b' →
    ∀ sk info, sk ∈ Keys ed → info_of lc sk = Some info → HappenedAfter info b' = true;
  se_final : Status ed = Finalized ↔ (wdeep s ≤ SubmissionDepth b)%N;
  se_confirmed : (kdeep s ≤ SubmissionDepth b)%N → Status ed ≠ Submitted;
}.

(** [parentEpochInfo] when the loop reaches epoch [n]. *)
Definition parent_ok lc s (n : N) (parent : option (option SubmissionBtcInfo)) : Prop :=
  match parent with
  | None => n = N.max 1 (lf s)
  | Some None => (2 ≤ n)%N ∧ ∃ ed, epochData s !! (n - 1)%N = Some ed ∧ Keys ed = []
  | Some (Some b) =>
      (2 ≤ n)%N ∧ (lf s < n)%N ∧ ∃ ed, epochData s !! (n - 1)%N = Some ed ∧
        is_best lc (Keys ed) b ∧ ((wdeep s ≤ SubmissionDepth b)%N → Status ed = Finalized)
  end.

(** The last finalised epoch's submission has left the main chain. *)
Definition finalized_reorged lc s : Prop :=
  ∃ ed sk, epochData s !! lf s = Some ed ∧ Keys ed = [sk] ∧ info_of lc sk = None.

(** The state after the loop has dealt with epoch [n], whose data was [ed]. *)
Record advanced lc s (n : N) ed s' (best : option SubmissionBtcInfo) : Prop := {
  ad_inv : bc_inv (λ e, e ≠ n + 1)%N s';
  ad_data : ∃ ed', epochData s' = <[n := ed']> (epochData s) ∧
    (Status ed = Finalized → ed' = ed) ∧ (status_num (Status ed) ≤ status_num (Status ed'))%N ∧
    ((lf s < n)%N → Keys ed' ≠ [] → ∃ b, settled lc s' n ed' b);
  ad_parent : parent_ok lc s' (n + 1)%N (Some best);
  ad_lf : (lf s ≤ lf s' ≤ N.max n (lf s))%N;
  ad_params : bc_params s' = bc_params s;
}.

Lemma clear_advances lc s n ed :
  bc_inv (λ e, e ≠ n) s → (1 ≤ n)%N → epochData s !! n = Some ed → Status ed ≠ Finalized →
  advanced lc s n ed (clearEpochData s n ed) None.
Proof.
  intros Hs Hn He Hst. unfold clearEpochData.
  destruct (deleteSubmissions_frame s (Keys ed)) as (Hd & Hl & Hp).
  set (s1 := foldl deleteSubmission s (Keys ed)) in *.
  assert (lf s1 = lf s) as Hlf by (unfold getLastFinalizedEpochNumber; by rewrite Hl).
  set (ed' := mkEpochData [] (Status ed)).
  assert (epochData (saveEpochData s1 n ed') = <[n := ed']> (epochData s)) as Hdata
    by (simpl; by rewrite Hd).
  split; [eapply (update_epoch s _ n ed ed'); try done|exists ed'| | |done].
  - left. done.
  - change (Status ed = Finalized ↔ (n ≤ lf s1)%N). rewrite Hlf. by apply (bo_final _ _ Hs).
  - split_and!; done.
  - split; [lia|]. exists ed'. rewrite N.add_sub, Hdata. by rewrite lookup_insert_eq.
  - change (lf s ≤ lf s1 ≤ N.max n (lf s))%N. lia.
Qed.

(** In a placed submission the youngest block is not deeper than the oldest. *)
Lemma info_depths lc sk info :
  lc_ok lc → two_parts sk → info_of lc sk = Some info →
  (YoungestBlockDepth info ≤ OldestBlockDepth info)%N.
Proof.
  intros Hlc Hsk Hi. pose proof (GetSubmissionBtcInfo_spec lc sk Hlc (two_parts_ne _ Hsk)) as H.
  unfold info_of in Hi. destruct (GetSubmissionBtcInfo lc sk); simplify_eq.
  destruct H as (_ & [Hr (tk & Htk & Hd & _) _ _ _]).
  destruct (Hr tk Htk) as (d & Hd' & ?). simplify_eq. lia.
Qed.

Lemma HappenedAfter_depth lc sk info p :
  lc_ok lc → two_parts sk → info_of lc sk = Some info → HappenedAfter info p = true →
  (SubmissionDepth info < SubmissionDepth p)%N.
Proof.
  intros Hlc Hsk Hi Ha%N.ltb_lt. pose proof (info_depths _ _ _ Hlc Hsk Hi).
  unfold SubmissionDepth. lia.
Qed.

(** The epoch finalises only when the previous one is finalised. *)
Lemma previous_finalized lc s n ed parent sum b :
  bc_inv (λ e, e ≠ n) s → (1 ≤ n)%N → lc_ok lc → epochData s !! n = Some ed →
  (lf s < n)%N → parent_ok lc s n parent → parent ≠ Some None →
  changes_ok lc (default None parent) (Keys ed) sum → EpochBestSubmission sum = Some b →
  (wdeep s ≤ SubmissionDepth b)%N → lf s = (n - 1)%N.
Proof.
  intros Hs Hn Hlc He Hlt Hpar Hne [Hkeep _ Hbest] Hb Hw. rewrite Hb in Hbest.
  destruct parent as [[p|]|]; simpl in *; [|done|lia].
  destruct Hpar as (Hn2 & _ & ep & Hep & Hbp & Hfin).
  pose proof (best_elem _ _ _ Hbest) as Hel. rewrite Hkeep in Hel.
  apply list_elem_of_filter in Hel as [Hv Hel]. unfold viable in Hv.
  rewrite (best_info _ _ _ Hbest) in Hv.
  assert (two_parts (si_SubmissionKey b)) as Htwo.
  { pose proof (bo_parts _ _ Hs _ _ He) as H. rewrite Forall_forall in H. by apply H. }
  pose proof (HappenedAfter_depth _ _ _ _ Hlc Htwo (best_info _ _ _ Hbest) Hv).
  assert (Status ep = Finalized) as Hf by (apply Hfin; lia).
  apply (bo_final _ _ Hs _ _ Hep) in Hf. lia.
Qed.

Lemma parent_keys lc s n parent :
  (2 ≤ n)%N → (lf s < n)%N → parent_ok lc s n parent → parent ≠ Some None →
  ∃ ep, epochData s !! (n - 1)%N = Some ep ∧ Keys ep ≠ [].
Proof.
  intros Hn Hlt Hp Hne. destruct parent as [[p|]|]; simpl in Hp; [|done|lia].
  destruct Hp as (_ & _ & ep & Hep & Hb & _). exists ep. split; [done|].
  intros Hk. pose proof (best_elem _ _ _ Hb) as Hel. rewrite Hk in Hel.
  by apply not_elem_of_nil in Hel.
Qed.

(** The new data of an epoch that keeps submissions settles it. *)
Lemma kept_settled lc s s' n ed parent sum b keys :
  bc_inv (λ e, e ≠ n) s → Params_Validate (GetParams s) = true →
  (lf s < n)%N → parent_ok lc s n parent → parent ≠ Some None → Status ed ≠ Finalized →
  changes_ok lc (default None parent) (Keys ed) sum → EpochBestSubmission sum = Some b →
  (∀ e, e ≠ n → epochData s' !! e = epochData s !! e) → bc_params s' = bc_params s →
  (1 ≤ n)%N →
  (keys = SubmissionsToKeep sum ∨ keys = [si_SubmissionKey b]) →
  settled lc s' n (mkEpochData keys (join (Status ed) (checkSubmissionStatus s b))) b.
Proof.
  intros Hs Hpv Hlt Hpar Hne Hst [Hkeep _ Hbest] Hb Hother Hp Hn Hkeys. rewrite Hb in Hbest.
  assert (∀ sk, sk ∈ keys → sk ∈ SubmissionsToKeep sum) as Hsub.
  { intros sk Hsk. destruct Hkeys as [->| ->]; [done|].
    apply list_elem_of_singleton in Hsk as ->. apply Hbest. }
  assert (∀ sk, sk ∈ keys → viable lc (default None parent) sk = true) as Hv.
  { intros sk Hsk%Hsub. rewrite Hkeep in Hsk. by apply list_elem_of_filter in Hsk as [? _]. }
  destruct (checkSubmissionStatus_spec s b Hpv) as [Hw Hk].
  assert (GetParams s' = GetParams s) as Hgp by (unfold GetParams; by rewrite Hp).
  split; simpl; rewrite ?Hgp.
  - destruct Hkeys as [->| ->]; [done|]. apply is_best_singleton; [apply Hbest|done].
  - intros sk Hsk. specialize (Hv sk Hsk). unfold viable in Hv.
    destruct (info_of lc sk); [by eexists|done].
  - intros ed' b' He' Hb' sk info Hsk Hi. rewrite Hother in He' by lia.
    specialize (Hv sk Hsk). unfold viable in Hv. rewrite Hi in Hv.
    destruct parent as [[p|]|]; simpl in *; [|done|].
    + destruct Hpar as (_ & _ & ep & Hep & Hbp & _). simplify_eq.
      unfold HappenedAfter in *. pose proof (is_best_depth _ _ _ _ Hbp Hb') as Hd.
      unfold SubmissionDepth in Hd. by rewrite <- Hd.
    + assert (n = 1)%N as -> by lia. change (1 - 1)%N with 0%N in He'.
      by rewrite (bo_zero _ _ Hs) in He'.
  - rewrite <- Hw. unfold join. destruct (Status ed), (checkSubmissionStatus s b); done.
  - rewrite <- Hk. unfold join. destruct (Status ed), (checkSubmissionStatus s b); done.
Qed.
(** The state after an epoch that keeps submissions has been saved. *)
Definition kept_state s n ed sum b : BCState :=
  let status := join (Status ed) (checkSubmissionStatus s b) in
  let s1 := if decide (status = Finalized) then setLastFinalizedEpochNumber s n else s in
  if bool_decide (status = Finalized)
  then saveEpochData (deleteAllExcept s1 (Keys ed) (BestSubmissionIdx sum)) n
         (mkEpochData [si_SubmissionKey b] status)
  else saveEpochData (foldl deleteSubmission s1 (SubmissionsToDelete sum)) n
         (mkEpochData (SubmissionsToKeep sum) status).

Lemma kept_state_frame s n ed sum b :
  let status := join (Status ed) (checkSubmissionStatus s b) in
  ∃ keys, (keys = if decide (status = Finalized) then [si_SubmissionKey b]
                  else SubmissionsToKeep sum) ∧
    epochData (kept_state s n ed sum b) = <[n := mkEpochData keys status]> (epochData s) ∧
    lf (kept_state s n ed sum b) = (if decide (status = Finalized) then n else lf s) ∧
    bc_params (kept_state s n ed sum b) = bc_params s.
Proof.
  intros status. eexists; split; [done|]. unfold kept_state. fold status.
  destruct (decide (status = Finalized)) as [->|Hne].
  - rewrite bool_decide_eq_true_2 by done. unfold getLastFinalizedEpochNumber. simpl.
    destruct (deleteAllExcept_frame (setLastFinalizedEpochNumber s n) (Keys ed)
      (BestSubmissionIdx sum)) as (-> & -> & ->). done.
  - rewrite bool_decide_eq_false_2 by done. unfold getLastFinalizedEpochNumber. simpl.
    destruct (deleteSubmissions_frame s (SubmissionsToDelete sum)) as (-> & -> & ->). done.
Qed.

Lemma kept_advances lc s n ed parent sum b :
  bc_inv (λ e, e ≠ n) s → (1 ≤ n)%N → lc_ok lc → epochData s !! n = Some ed →
  Status ed ≠ Finalized → (lf s < n)%N → parent_ok lc s n parent → parent ≠ Some None →
  changes_ok lc (default None parent) (Keys ed) sum → EpochBestSubmission sum = Some b →
  advanced lc s n ed (kept_state s n ed sum b) (Some b).
Proof.
  intros Hs Hn Hlc He Hst Hlt Hpar Hne Hch Hb. pose proof (bo_params _ _ Hs) as Hpv.
  destruct (kept_state_frame s n ed sum b) as (keys & Hkeys & Hdata & Hlf & Hp).
  set (status := join (Status ed) (checkSubmissionStatus s b)) in *.
  set (s' := kept_state s n ed sum b) in *.
  destruct (checkSubmissionStatus_spec s b Hpv) as [Hw Hk].
  assert (status = Finalized ↔ checkSubmissionStatus s b = Finalized) as Hfin.
  { unfold status, join. destruct (Status ed), (checkSubmissionStatus s b); done. }
  assert (keys = SubmissionsToKeep sum ∨ keys = [si_SubmissionKey b]) as Hkeys'
    by (destruct (decide _); auto).
  assert (settled lc s' n (mkEpochData keys status) b) as Hset.
  { eapply kept_settled; try done. intros e Hne'. rewrite Hdata. by rewrite lookup_insert_ne. }
  assert (Forall two_parts keys) as Htwo.
  { pose proof (bo_parts _ _ Hs _ _ He) as H. rewrite Forall_forall in H |- *.
    intros sk Hsk. apply H. assert (sk ∈ SubmissionsToKeep sum) as Hsk'.
    { destruct Hkeys' as [->| ->]; [done|]. apply list_elem_of_singleton in Hsk as ->.
      pose proof (ch_best _ _ _ _ Hch) as Hbest. rewrite Hb in Hbest. apply Hbest. }
    rewrite (ch_keep _ _ _ _ Hch) in Hsk'. by apply list_elem_of_filter in Hsk' as [_ ?]. }
  assert (lf s' = lf s ∨ (lf s' = n ∧ lf s = n - 1)%N) as Hlf'.
  { rewrite Hlf. destruct (decide (status = Finalized)) as [Hf|]; [right|by left].
    split; [done|]. eapply previous_finalized; try done. apply Hw, Hfin, Hf. }
  split.
  - eapply (update_epoch s s' n ed (mkEpochData keys status)); try done; simpl.
    + rewrite Hlf. destruct (decide (status = Finalized)) as [->|]; [split; [lia|done]|].
      split; [done|lia].
    + intros Hf. rewrite Hkeys, decide_True by done. eauto.
    + intros Hn2 _. by eapply parent_keys.
  - exists (mkEpochData keys status). split_and!; [done|done| |by eauto].
    simpl. unfold status, join. destruct (N.ltb_spec (status_num (Status ed))
      (status_num (checkSubmissionStatus s b))); lia.
  - simpl. split_and!; [lia|lia|]. exists (mkEpochData keys status).
    rewrite N.add_sub, Hdata, lookup_insert_eq. split_and!; [done|apply Hset|].
    unfold GetParams. rewrite Hp. intros Hd. apply Hfin, Hw, Hd.
  - lia.
  - done.
Qed.

(** One iteration of the loop. *)
Lemma checkEpoch_ok lc ctx s c n ed parent :
  bc_inv (λ e, e ≠ n) s → (1 ≤ n)%N → lc_ok lc → ck_ok c → epochData s !! n = Some ed →
  parent_ok lc s n parent →
  match checkEpoch lc ctx (s, c) parent n ed with
  | Ok None => Keys ed = []
  | Ok (Some (s', c', best)) => ck_ok c' ∧ advanced lc s n ed s' best
  | Err _ => False
  | Panic => lf s = n ∧ parent = None ∧ finalized_reorged lc s
  end.
Proof.
  intros Hs Hn Hlc Hc He Hpar. unfold checkEpoch.
  destruct (Keys ed) as [|k0 krest] eqn:Hkeys; [done|].
  destruct (ck_setters_total c ctx n ck_SetCheckpointForgotten Hc) as (cf & Hcf & Hcfo);
    [set_solver|].
  case_bool_decide as Hst.
  - pose proof (proj1 (bo_final _ _ Hs _ _ He) Hst) as Hle.
    destruct (bo_one _ _ Hs _ _ He Hst) as [sk Hsk].
    rewrite Hkeys in Hsk. injection Hsk as -> ->.
    assert (parent = None ∧ n = lf s) as [-> Hnl].
    { destruct parent as [[p|]|]; simpl in Hpar; [lia| |split; [done|lia]].
      destruct Hpar as (Hn2 & ep & Hep & Hk).
      destruct (bo_one _ _ Hs _ _ Hep) as [? ?]; [|congruence].
      apply (bo_final _ _ Hs _ _ Hep). lia. }
    assert (two_parts sk) as Htwo.
    { pose proof (bo_parts _ _ Hs _ _ He) as H. rewrite Hkeys in H. by inversion H. }
    simpl. destruct (info_of_cases lc sk Hlc Htwo) as [(info & -> & Hi & Hik)|(e & -> & Hi)].
    + split; [done|]. split; [eapply (update_epoch s s n ed ed); try done| | | |done].
      * by rewrite insert_id.
      * by left.
      * intros _. eauto.
      * apply (bo_parts _ _ Hs _ _ He).
      * intros Hn2 _. destruct (bo_prev _ _ Hs n Hn2) as [ep Hep]; [by rewrite He|].
        destruct (bo_one _ _ Hs _ _ Hep) as [? Hep1]; [apply (bo_final _ _ Hs _ _ Hep); lia|].
        exists ep. by rewrite Hep1.
      * exists ed. rewrite insert_id by done. split_and!; [done|done|lia|lia].
      * split_and!; [lia|lia|]. exists ed. rewrite N.add_sub, Hkeys.
        split_and!; [done|by apply is_best_singleton|done].
      * lia.
    + split_and!; [done|done|]. exists ed, sk. rewrite <- Hnl. done.
  - assert (lf s < n)%N as Hlt.
    { destruct (decide (n ≤ lf s)%N) as [Hle|]; [|lia].
      by apply (bo_final _ _ Hs _ _ He) in Hle. }
    destruct (match parent with Some None => true | _ => false end) eqn:Hpn.
    + rewrite Hcf. simpl. split; [done|]. by apply clear_advances.
    + assert (parent ≠ Some None) as Hne by (by intros ->).
      pose proof (bo_parts _ _ Hs _ _ He) as Htwo.
      destruct (getEpochChanges_ok lc (default None parent) ed Hlc Htwo) as (sum & Hsum & Hch).
      rewrite Hsum. cbn [mbind res_bind].
      destruct (SubmissionsToKeep sum) as [|sk0 sks] eqn:Hkeep.
      { rewrite Hcf. simpl. split; [done|]. by apply clear_advances. }
      pose proof (ch_best _ _ _ _ Hch) as Hbest.
      destruct (EpochBestSubmission sum) as [b|] eqn:Hb; [|congruence].
      destruct (updateStatus_spec s c ctx n (Status ed) (checkSubmissionStatus s b) Hc Hst)
        as (c' & Hc' & ->). cbn [mbind res_bind].
      pose proof (kept_advances lc s n ed parent sum b Hs Hn Hlc He Hst Hlt Hpar Hne Hch Hb) as Ha.
      unfold kept_state in Ha. rewrite Hkeep, Hkeys in Ha.
      case_bool_decide; (split; [done|exact Ha]).
Qed.
Lemma settled_frame lc s s' e ed b :
  epochData s' !! (e - 1)%N = epochData s !! (e - 1)%N → bc_params s' = bc_params s →
  settled lc s e ed b → settled lc s' e ed b.
Proof.
  intros Hprev Hp [????]. assert (GetParams s' = GetParams s) as Hg
    by (unfold GetParams; by rewrite Hp).
  split; rewrite ?Hg; try done. by rewrite Hprev.
Qed.

(** What a run of the loop from epoch [n] on makes of the state. *)
Record loop_post lc s (n : N) s' : Prop := {
  lp_ok : bc_ok s';
  lp_params : bc_params s' = bc_params s;
  lp_lf : (lf s ≤ lf s')%N;
  lp_before e : (e < n)%N → epochData s' !! e = epochData s !! e;
  lp_new e : epochData s !! e = None → epochData s' !! e = None;
  lp_from e ed : (n ≤ e)%N → epochData s !! e = Some ed →
    ∃ ed', epochData s' !! e = Some ed' ∧ (Status ed = Finalized → ed' = ed) ∧
      (status_num (Status ed) ≤ status_num (Status ed'))%N ∧
      ((lf s < e)%N → Keys ed' ≠ [] → ∃ b, settled lc s' e ed' b);
}.

(** The loop stops, or runs out of entries, without touching anything. *)
Lemma loop_post_stop lc s n :
  bc_inv (λ e, e ≠ n) s →
  (∀ e ed, (n ≤ e)%N → epochData s !! e = Some ed → Keys ed = []) → loop_post lc s n s.
Proof.
  intros Hs Hempty. split; try done.
  - destruct Hs. split; try done. intros e ed _ Hn He Hk.
    apply bo_keys_prev0 with ed; try done. intros ->. apply Hk. by apply (Hempty n).
  - intros e ed Hle He. exists ed. split_and!; try done. intros _ Hk.
    by rewrite (Hempty e ed) in Hk.
Qed.

Lemma loop_post_step lc s n ed s1 best s' :
  epochData s !! n = Some ed → advanced lc s n ed s1 best →
  loop_post lc s1 (n + 1)%N s' → loop_post lc s n s'.
Proof.
  intros He [_ (ed1 & Hd1 & Hf1 & Hst1 & Hset1) _ Hlf1 Hp1] [Hok Hp Hlf Hbefore Hnew Hfrom].
  split; [done|congruence|lia| | |].
  - intros e Hlt. rewrite Hbefore by lia. rewrite Hd1. by rewrite lookup_insert_ne by lia.
  - intros e Hnone. apply Hnew. rewrite Hd1, lookup_insert_ne; [done|congruence].
  - intros e ed2 Hle He2. destruct (decide (e = n)) as [->|Hne].
    + simplify_eq. exists ed1. rewrite Hbefore by lia. rewrite Hd1, lookup_insert_eq.
      split_and!; [done|done|done|]. intros Hlt Hk. destruct (Hset1 Hlt Hk) as [b Hb].
      exists b. eapply settled_frame; [|done|done]. apply Hbefore. lia.
    + destruct (Hfrom e ed2) as (ed' & He' & Hf' & Hst' & Hset'); [lia| |].
      { rewrite Hd1. by rewrite lookup_insert_ne. }
      exists ed'. split_and!; [done|done|done|]. intros Hlt. apply Hset'. lia.
Qed.

Lemma checkCheckpoints_loop_ok lc ctx n l s c parent :
  run n l → bc_inv (λ e, e ≠ n) s → (1 ≤ n)%N → lc_ok lc → ck_ok c →
  (∀ e ed, (e, ed) ∈ l ↔ (n ≤ e)%N ∧ epochData s !! e = Some ed) →
  parent_ok lc s n parent →
  match checkCheckpoints_loop lc ctx (s, c) parent l with
  | Ok (s', c') => ck_ok c' ∧ loop_post lc s n s'
  | Err _ => False
  | Panic => parent = None ∧ finalized_reorged lc s
  end.
Proof.
  intros Hrun. revert s c parent.
  induction Hrun as [n|n ed l Hrun IH]; intros s c parent Hs Hn Hlc Hc Hl Hpar;
    cbn [checkCheckpoints_loop].
  { split; [done|]. apply loop_post_stop; [done|]. intros e ed Hle He.
    by destruct (not_elem_of_nil (e, ed)); apply Hl. }
  assert (epochData s !! n = Some ed) as He by (apply (Hl n ed); by left).
  pose proof (checkEpoch_ok lc ctx s c n ed parent Hs Hn Hlc Hc He Hpar) as Hstep.
  destruct (checkEpoch lc ctx (s, c) parent n ed) as [[[[s1 c1] best]|]|e|];
    cbn [mbind res_bind]; [| |done|by destruct Hstep as (_ & ? & ?)].
  - destruct Hstep as [Hc1 Ha].
    specialize (IH s1 c1 (Some best) (ad_inv _ _ _ _ _ _ Ha)).
    destruct (ad_data _ _ _ _ _ _ Ha) as (ed1 & Hd1 & _).
    assert (∀ e ed', (e, ed') ∈ l ↔ (n + 1 ≤ e)%N ∧ epochData s1 !! e = Some ed') as Hl1.
    { intros e ed'. rewrite Hd1. specialize (Hl e ed'). rewrite elem_of_cons in Hl.
      destruct (decide (e = n)) as [->|Hne].
      - split; [|lia]. intros Hin. exfalso. by eapply run_gt in Hin; [|done]; lia.
      - rewrite lookup_insert_ne by done. split.
        + intros Hin. destruct (proj1 Hl) as [? ?]; [by right|]. split; [lia|done].
        + intros [? ?]. destruct (proj2 Hl) as [[=]|?]; [split; [lia|done]|done|done]. }
    specialize (IH ltac:(lia) Hlc Hc1 Hl1 (ad_parent _ _ _ _ _ _ Ha)).
    destruct (checkCheckpoints_loop lc ctx (s1, c1) (Some best) l) as [[s' c']|e|];
      [|done|by destruct IH].
    destruct IH as [? ?]. split; [done|]. by eapply loop_post_step.
  - split; [done|]. apply loop_post_stop; [done|]. intros e ed' Hle He'.
    eapply (empty_epochs _ s n ed); try done. simpl. lia.
Qed.

(** The loop meets the last finalised epoch first. *)
Lemma reorged_panics lc ctx s c l :
  bc_ok s → lc_ok lc → run (N.max 1 (lf s)) l →
  (∀ e ed, (e, ed) ∈ l ↔ (N.max 1 (lf s) ≤ e)%N ∧ epochData s !! e = Some ed) →
  finalized_reorged lc s → checkCheckpoints_loop lc ctx (s, c) None l = Panic.
Proof.
  intros Hs Hlc Hrun Hl (ed & sk & He & Hk & Hi).
  assert (lf s ≠ 0%N) as Hnz by (intros Hz; rewrite Hz, (bo_zero _ _ Hs) in He; done).
  assert ((lf s, ed) ∈ l) as Hin by (apply Hl; split; [lia|done]).
  replace (N.max 1 (lf s)) with (lf s) in Hrun by lia.
  inversion Hrun as [|n ed' l' Hrun']; subst; [by apply not_elem_of_nil in Hin|].
  apply elem_of_cons in Hin as [[= <-]|Hin]; [|apply (run_gt _ _ _ _ Hrun') in Hin; lia].
  cbn [checkCheckpoints_loop]. unfold checkEpoch. rewrite Hk.
  rewrite bool_decide_eq_true_2 by (apply (bo_final _ _ Hs _ _ He); lia). simpl.
  unfold info_of in Hi. by destruct (GetSubmissionBtcInfo lc sk).
Qed.

(** The tip has moved: unless the last finalised epoch's submission has left
    the main chain, every epoch is settled. *)
Lemma checkCheckpoints_ok lc ctx s c :
  bc_ok s → lc_ok lc → ck_ok c →
  match checkCheckpoints lc ctx (s, c) with
  | Ok (s', c') => ck_ok c' ∧ loop_post lc s 1 s' ∧ ¬ finalized_reorged lc s
  | Err _ => False
  | Panic => finalized_reorged lc s
  end.
Proof.
  intros Hs Hlc Hc. unfold checkCheckpoints. cbn [fst].
  destruct (entries_run _ _ Hs) as [-> Hrun].
  assert (bc_inv (λ e, e ≠ N.max 1 (lf s)) s) as Hs' by (by eapply bc_inv_weaken, Hs).
  assert (∀ e ed, (e, ed) ∈ kv_from (N.max 1 (lf s)) (epochData s) ↔
    (N.max 1 (lf s) ≤ e)%N ∧ epochData s !! e = Some ed) as Hl
    by (intros e ed; rewrite elem_of_kv_from; tauto).
  pose proof (checkCheckpoints_loop_ok lc ctx _ _ s c None Hrun Hs' ltac:(lia) Hlc Hc Hl eq_refl)
    as H.
  destruct (checkCheckpoints_loop _ _ _ _ _) as [[s' c']|e|] eqn:Hloop;
    [|done|by destruct H].
  destruct H as [Hc' [Hok Hp Hlf Hbefore Hnew Hfrom]]. split_and!; [done| |].
  - split; try done.
    + intros e He. apply Hbefore. lia.
    + intros e ed He Hed. destruct (decide (N.max 1 (lf s) ≤ e)%N); [by auto|].
      exists ed. rewrite Hbefore by lia. split_and!; [done|done|lia|lia].
  - intros Hre. by rewrite (reorged_panics lc ctx s c _ Hs Hlc Hrun Hl Hre) in Hloop.
Qed.
End tip.

(** ** Messages *)

Lemma DecodeRawCheckpoint_epoch v d ckpt :
  BtcTxFormatter.DecodeRawCheckpoint v d = Ok ckpt → (BtcTxFormatter.Epoch ckpt < 2 ^ 64)%N.
Proof.
  intros H. unfold BtcTxFormatter.DecodeRawCheckpoint, BtcTxFormatter.buf_next in H. inv_ok.
  simpl. unfold BigEndianToUint64. eapply N.lt_le_trans; [apply be_decode_lt|].
  rewrite length_take. change (2 ^ 64)%N with (256 ^ 8)%N. apply N.pow_le_mono_r; [done|].
  unfold BtcTxFormatter.EpochLength. lia.
Qed.

(** The epochs up to the last finalised one are all recorded. *)
Lemma recorded_up_to s e :
  bc_ok s → (1 ≤ e)%N → (e ≤ lf s)%N → is_Some (epochData s !! e).
Proof.
  intros Hs H1 Hle. destruct (bo_lf _ _ Hs) as [|Hlf]; [lia|].
  replace e with (lf s - (lf s - e))%N by lia. assert (lf s - e < lf s)%N as Hd by lia.
  revert Hd. generalize (lf s - e)%N. clear Hle H1 e.
  induction n as [|d IH] using N.peano_ind; intros Hd; [by rewrite N.sub_0_r|].
  replace (lf s - N.succ d)%N with (lf s - d - 1)%N by lia.
  apply (bo_prev _ _ Hs); [lia|]. apply IH. lia.
Qed.

Section messages.
Context `{B : Btcd} {A : Bech32} (sha256 : bytes → bytes).
Context `{LC : BTCLightClientKeeper} `{LL : !BTCLightClientLaws}.
Context `{CK : CheckpointingKeeper} `{CL : !CheckpointingLaws}.
Context {X : Type} (IndexRefundableMsg : MsgInsertBTCSpvProof → X → X).
Implicit Types (lc : LightClient) (s : BCState) (c : CkptSt) (x : X)
  (ctx : Epoching.HeaderInfo) (sub : RawCheckpointSubmission).

Definition sub_epoch sub : N := BtcTxFormatter.Epoch (CheckpointData sub).

(** [sub] may be recorded: its key is new, it is on the main chain, its epoch is
    open, and some submission of the previous epoch happened before it. *)
Record admissible lc s sub (info : SubmissionBtcInfo) : Prop := {
  adm_new : submissions s !! GetSubmissionKey sub = None;
  adm_chain : info_of lc (GetSubmissionKey sub) = Some info;
  adm_open : Status (default NewEmptyEpochData (epochData s !! sub_epoch sub)) ≠ Finalized;
  adm_epoch : sub_epoch sub ≠ 0%N;
  adm_ancestor : (2 ≤ sub_epoch sub)%N → ∃ ed sk parent,
    epochData s !! (sub_epoch sub - 1)%N = Some ed ∧ sk ∈ Keys ed ∧
    info_of lc sk = Some parent ∧ HappenedAfter info parent = true;
}.

(** The state with [sub] recorded. *)
Definition recorded s sub (txs : list TransactionInfo) : BCState :=
  let e := sub_epoch sub in
  let ed := default NewEmptyEpochData (epochData s !! e) in
  saveSubmission (saveEpochData s e (AppendKey ed (GetSubmissionKey sub)))
    (GetSubmissionKey sub) (GetSubmissionData sub e txs).

Lemma ParseSubmission_epoch m tag sub :
  ParseSubmission sha256 m tag = Ok sub → (sub_epoch sub < 2 ^ 64)%N.
Proof.
  intros H. unfold ParseSubmission, ParseTwoProofs in H.
  repeat match goal with H : (_ ≫= _) = Ok _ |- _ => apply bind_Ok in H as (? & ? & H) end.
  repeat case_match; simplify_eq. inv_ok. unfold sub_epoch. simpl.
  by eapply DecodeRawCheckpoint_epoch.
Qed.

Lemma haveAncestor_true lc info keys :
  haveAncestor lc info keys = Ok true →
  ∃ sk parent, sk ∈ keys ∧ info_of lc sk = Some parent ∧ HappenedAfter info parent = true.
Proof.
  induction keys as [|sk keys IH]; simpl; [done|].
  destruct (length (Key sk) <? 2); [done|].
  destruct (GetSubmissionBtcInfo lc sk) as [p|e|] eqn:Hi; [| |done].
  - destruct (HappenedAfter info p) eqn:Ha.
    + intros _. exists sk, p. unfold info_of. rewrite Hi. split_and!; [by left|done|done].
    + intros (sk' & p' & ? & ?)%IH. exists sk', p'. split; [by right|done].
  - intros (sk' & p' & ? & ?)%IH. exists sk', p'. split; [by right|done].
Qed.

Lemma checkAncestors_ok lc s e info :
  (e < 2 ^ 64)%N → checkAncestors lc s e info = Ok tt → (2 ≤ e)%N →
  ∃ ed sk parent, epochData s !! (e - 1)%N = Some ed ∧ sk ∈ Keys ed ∧
    info_of lc sk = Some parent ∧ HappenedAfter info parent = true.
Proof.
  intros He Hc H2. unfold checkAncestors in Hc.
  rewrite (proj2 (N.leb_gt e 1)), u64_sub_small in Hc by lia. inv_ok.
  match goal with H : haveAncestor _ _ _ = Ok ?b |- _ =>
    apply haveAncestor_true in H as (sk & p & ? & ? & ?) end.
  eexists _, sk, p. done.
Qed.

(** A submission is recorded exactly as the handler promises. *)
Lemma InsertBTCSpvProof_cases lc ctx s c x req s' c' x' :
  lc_ok lc → ck_ok c →
  InsertBTCSpvProof sha256 IndexRefundableMsg lc ctx (s, c, x) req = Ok (s', c', x') →
  ck_ok c' ∧
  ∃ tag sub, GetExpectedTag s = Ok (E := BcErr) tag ∧ ParseSubmission sha256 req tag = Ok sub ∧
    ((∃ c1, ck_VerifyCheckpoint c (CheckpointData sub) =
        (c1, Err Checkpointing.ErrConflictingCheckpoint) ∧ s' = s ∧ c' = c1 ∧ x' = x) ∨
     (∃ info txs, admissible lc s sub info ∧ txs_info (GetSubmissionKey sub) (Proofs req) = Ok txs ∧
        s' = recorded s sub txs ∧ x' = IndexRefundableMsg req x ∧
        ∃ c1 u, ck_VerifyCheckpoint c (CheckpointData sub) = (c1, Ok u) ∧
          match Keys (default NewEmptyEpochData (epochData s !! sub_epoch sub)) with
          | [] => call_ck (ck_SetCheckpointSubmitted c1 ctx (sub_epoch sub)) = Ok c'
          | _ => c' = c1
          end)).
Proof.
  intros Hlc Hc H. unfold InsertBTCSpvProof in H.
  apply bind_Ok in H as (tag & Htag & H). apply bind_Ok in H as (sub & Hsub & H).
  apply bind_Ok in H as (u1 & Hnew%require_Ok & H).
  apply bind_Ok in H as (info & Hinfo%map_err_Ok & H).
  apply bind_Ok in H as (u2 & Hopen%require_Ok & H).
  destruct (ck_VerifyCheckpoint c (CheckpointData sub)) as [c1 [u|e|]] eqn:Hv; [| |done].
  - apply bind_Ok in H as ([] & Hanc & H). apply bind_Ok in H as (txs & Htxs & H).
    apply bind_Ok in H as (sc & Hadd & H). injection H as -> <-.
    destruct (ck_verify_ok _ _ _ _ Hc Hv) as [Hc1 _].
    apply bind_Ok in Hadd as (c2 & Hset & Hadd). injection Hadd as <- <-.
    split.
    + destruct (Keys (default NewEmptyEpochData _)); [|by injection Hset as <-].
      destruct (ck_setters_total c1 ctx (BtcTxFormatter.Epoch (CheckpointData sub))
        ck_SetCheckpointSubmitted Hc1) as (c3 & H3 & ?); [by left|].
      rewrite H3 in Hset. simpl in Hset. by injection Hset as <-.
    + exists tag, sub. split_and!; [done|done|]. right. exists info, txs.
      split_and!; [split|done|done|done|exists c1, u; split; [done|]].
      * apply negb_true_iff, bool_decide_eq_false in Hnew. by apply eq_None_not_Some.
      * unfold info_of. by rewrite Hinfo.
      * by apply negb_true_iff, bool_decide_eq_false in Hopen.
      * by destruct (ck_verify_known c (CheckpointData sub) c1 u).
      * intros H2. eapply checkAncestors_ok; [by eapply ParseSubmission_epoch|done|done].
      * unfold GetEpochData in Hset. unfold sub_epoch. destruct (Keys _); [done|].
        by injection Hset as <-.
  - case_bool_decide; [|done]. injection H as <- <- <-. subst e.
    split; [by destruct (ck_verify_ok _ _ _ _ Hc Hv)|]. exists tag, sub. split_and!; [done|done|].
    left. by exists c1.
Qed.

Lemma recorded_ok lc s sub info txs :
  bc_ok s → admissible lc s sub info → bc_ok (recorded s sub txs).
Proof.
  intros Hs [_ _ Hopen Hz Hanc]. set (e := sub_epoch sub) in *.
  set (ed := default NewEmptyEpochData (epochData s !! e)) in *.
  assert (epochData (recorded s sub txs) = <[e := AppendKey ed (GetSubmissionKey sub)]> (epochData s))
    as Hdata by done.
  assert (lf (recorded s sub txs) = lf s) as Hlf by done.
  assert (¬ (e ≤ lf s)%N) as Hgt.
  { intros Hle. destruct (recorded_up_to s e Hs) as [ed' Hed']; [lia|done|].
    apply Hopen. unfold ed. rewrite Hed'. by apply (bo_final _ _ Hs _ _ Hed'). }
  assert ((2 ≤ e)%N → ∃ ed', epochData s !! (e - 1)%N = Some ed' ∧ Keys ed' ≠ []) as Hprev.
  { intros H2. destruct (Hanc H2) as (ed' & sk & p & Hed' & Hsk & _). exists ed'.
    split; [done|]. intros Hk. rewrite Hk in Hsk. by apply not_elem_of_nil in Hsk. }
  split; rewrite ?Hdata, ?Hlf.
  - rewrite lookup_insert_ne by done. apply Hs.
  - intros e' H2. rewrite !lookup_insert_is_Some.
    intros [<-|[Hne Hsome]].
    + destruct (Hprev H2) as (ed' & -> & _). right. split; [lia|done].
    + destruct (decide (e = e' - 1)%N); [by left|right]. split; [done|].
      by apply (bo_prev _ _ Hs).
  - intros e' ed' _ H2 [[<- <-]|[Hne He']]%lookup_insert_Some Hk.
    + rewrite lookup_insert_ne by lia. by apply Hprev.
    + destruct (decide (e = e' - 1)%N) as [Heq|Hne'].
      * exists (AppendKey ed (GetSubmissionKey sub)). rewrite <- Heq, lookup_insert_eq.
        split; [done|]. simpl. by destruct (Keys ed).
      * rewrite lookup_insert_ne by done. by apply (bo_keys_prev _ _ Hs e' ed').
  - intros e' ed' [[<- <-]|[Hne He']]%lookup_insert_Some; [|by apply (bo_final _ _ Hs)].
    simpl. split; [by intros|done].
  - destruct (bo_lf _ _ Hs) as [|]; [by left|right]. apply lookup_insert_is_Some.
    destruct (decide (e = lf s)); [by left|by right].
  - intros e' ed' [[<- <-]|[Hne He']]%lookup_insert_Some; [by intros|by apply (bo_one _ _ Hs e')].
  - intros e' ed' [[<- <-]|[Hne He']]%lookup_insert_Some; [|by apply (bo_parts _ _ Hs e')].
    simpl. apply Forall_app. split; [|constructor; [unfold two_parts; simpl; lia|constructor]].
    unfold ed. destruct (epochData s !! e) as [ed0|] eqn:E; simpl; [|constructor].
    by apply (bo_parts _ _ Hs e).
  - apply Hs.
Qed.
(** *** Sequences of operations *)

Context (authority : string).

(** What happens to the module between two states: a submission, the end of a
    block (with the light client as it is then), a notification of the light
    client, a new parameter set, the transient store cleared. *)
Inductive bc_step : BCState * CkptSt * X → BCState * CkptSt * X → Prop :=
  | step_insert lc ctx req scx scx' : lc_ok lc →
      InsertBTCSpvProof sha256 IndexRefundableMsg lc ctx scx req = Ok scx' → bc_step scx scx'
  | step_end_block lc ctx sc sc' x : lc_ok lc →
      EndBlocker lc ctx sc = Ok sc' → bc_step (sc, x) (sc', x)
  | step_tip s c x : bc_step (s, c, x) (AfterBTCRollForward s, c, x)
  | step_rollback s c x : bc_step (s, c, x) (AfterBTCRollBack s, c, x)
  | step_params s c x req s' :
      UpdateParams authority s req = Ok s' → bc_step (s, c, x) (s', c, x)
  | step_commit s c x :
      bc_step (s, c, x) (mkBCState (epochData s) (submissions s) (latestFinalizedEpoch s) false
                           (bc_params s), c, x).

(** What an operation may do to the recorded epochs. *)
Record progress s s' : Prop := {
  pr_lf : (lf s ≤ lf s')%N;
  pr_final e ed : epochData s !! e = Some ed → Status ed = Finalized →
    epochData s' !! e = Some ed;
  pr_status e ed : epochData s !! e = Some ed → ∃ ed', epochData s' !! e = Some ed' ∧
    (status_num (Status ed) ≤ status_num (Status ed'))%N;
  pr_timeout : CheckpointFinalizationTimeout (GetParams s') =
    CheckpointFinalizationTimeout (GetParams s);
}.

#[global] Instance progress_preorder : PreOrder progress.
Proof.
  split.
  - intros s. split; [lia|done| |done]. intros e ed He. by exists ed.
  - intros s1 s2 s3 [A1 A2 A3 A4] [B1 B2 B3 B4]. split; [lia|by eauto| |congruence].
    intros e ed He. destruct (A3 e ed He) as (ed2 & He2 & ?).
    destruct (B3 e ed2 He2) as (ed3 & He3 & ?). exists ed3. split; [done|lia].
Qed.

(** An operation that leaves the epochs and the timeout alone. *)
Lemma progress_same s s' :
  epochData s' = epochData s → latestFinalizedEpoch s' = latestFinalizedEpoch s →
  CheckpointFinalizationTimeout (GetParams s') = CheckpointFinalizationTimeout (GetParams s) →
  progress s s'.
Proof.
  intros Hd Hl Hp. split; [|by rewrite Hd| |done].
  - unfold getLastFinalizedEpochNumber. rewrite Hl. lia.
  - intros e ed He. exists ed. by rewrite Hd.
Qed.

Lemma bc_ok_same s s' :
  epochData s' = epochData s → latestFinalizedEpoch s' = latestFinalizedEpoch s →
  Params_Validate (GetParams s') = true → bc_ok s → bc_ok s'.
Proof.
  intros Hd Hl Hp [???????]. unfold getLastFinalizedEpochNumber in *.
  split; rewrite ?Hd; unfold getLastFinalizedEpochNumber; rewrite ?Hl; done.
Qed.

Lemma recorded_progress lc s sub info txs :
  admissible lc s sub info → progress s (recorded s sub txs).
Proof.
  intros [_ _ Hopen _ _]. split; [done| | |done]; intros e ed He.
  - intros Hf. unfold recorded. simpl. rewrite lookup_insert_ne; [done|]. intros <-.
    by rewrite He in Hopen.
  - unfold recorded. simpl. destruct (decide (sub_epoch sub = e)) as [<-|].
    + rewrite lookup_insert_eq, He. eexists. split; [done|]. simpl. lia.
    + rewrite lookup_insert_ne by done. by exists ed.
Qed.

Lemma loop_post_progress lc s s' : bc_ok s → loop_post lc s 1 s' → progress s s'.
Proof.
  intros Hs [_ Hp Hlf _ _ Hfrom].
  assert (∀ e ed, epochData s !! e = Some ed → (1 ≤ e)%N) as H1.
  { intros e ed He. destruct (decide (e = 0%N)) as [->|]; [|lia].
    by rewrite (bo_zero _ _ Hs) in He. }
  split; [done| | |].
  - intros e ed He Hf. destruct (Hfrom e ed) as (ed' & ? & Hfin & _); [by eauto|done|].
    by rewrite <- (Hfin Hf).
  - intros e ed He. destruct (Hfrom e ed) as (ed' & ? & _ & ? & _); eauto.
  - unfold GetParams. by rewrite Hp.
Qed.

Lemma bc_step_ok scx scx' :
  bc_step scx scx' → bc_ok scx.1.1 → ck_ok scx.1.2 →
  bc_ok scx'.1.1 ∧ ck_ok scx'.1.2 ∧ progress scx.1.1 scx'.1.1.
Proof.
  destruct 1 as [lc ctx req [[s c] x] [[s' c'] x'] Hlc Hi|lc ctx [s c] [s' c'] x Hlc He
    |s c x|s c x|s c x req s' Hu|s c x]; simpl; intros Hs Hc.
  - destruct (InsertBTCSpvProof_cases _ _ _ _ _ _ _ _ _ Hlc Hc Hi)
      as (Hc' & tag & sub & _ & _ & [(c1 & _ & -> & _)|(info & txs & Hadm & _ & -> & _ & _)]).
    + by split_and!.
    + split_and!; [by eapply recorded_ok|done|by eapply recorded_progress].
  - unfold EndBlocker, OnTipChange in He. destruct (BtcLightClientUpdated _);
      [|injection He as <- <-; by split_and!].
    pose proof (checkCheckpoints_ok lc ctx s c Hs Hlc Hc) as H. rewrite He in H.
    destruct H as (Hc' & Hp & _). split_and!; [apply Hp|done|by eapply loop_post_progress].
  - split_and!; [|done|by apply progress_same]. by eapply bc_ok_same; [..|apply Hs|exact Hs].
  - split_and!; [|done|by apply progress_same]. by eapply bc_ok_same; [..|apply Hs|exact Hs].
  - unfold UpdateParams, SetParams in Hu. inv_ok.
    match goal with H : (_ =? _)%N = true |- _ => apply N.eqb_eq in H as Hw end.
    split_and!; [|done|by apply progress_same]. by eapply bc_ok_same; [..|exact Hs].
  - split_and!; [|done|by apply progress_same]. by eapply bc_ok_same; [..|apply Hs|exact Hs].
Qed.
End messages.

(** ** The two modules agree about an epoch *)

(** The status x/checkpointing has for an epoch with submissions. *)
Definition ckpt_status (st : BtcStatus) : Checkpointing.CheckpointStatus :=
  match st with
  | Submitted => Checkpointing.Submitted
  | Confirmed => Checkpointing.Confirmed
  | Finalized => Checkpointing.Finalized
  end.

Section sync.
Context `{LC : BTCLightClientKeeper} `{LL : !BTCLightClientLaws}.
Context `{CK : CheckpointingKeeper} `{CL : !CheckpointingLaws}.
Implicit Types (lc : LightClient) (s : BCState) (c : CkptSt) (ed : EpochData)
  (ctx : Epoching.HeaderInfo).

(** An epoch with submissions has the same status in both modules; the checkpoint
    of an epoch without submissions, if there is one, is sealed. *)
Definition epoch_in_sync s c (e : N) : Prop :=
  match epochData s !! e with
  | Some (mkEpochData (_ :: _) status) => ck_status c e = Some (ckpt_status status)
  | _ => ck_status c e = None ∨ ck_status c e = Some Checkpointing.Sealed
  end.
Definition in_sync s c : Prop := ∀ e, epoch_in_sync s c e.

(** Only epoch [n] changes. *)
Definition only_epoch s c s' c' (n : N) : Prop :=
  ∀ e, e ≠ n → epochData s' !! e = epochData s !! e ∧ ck_status c' e = ck_status c e.

Lemma in_sync_only s c s' c' n :
  in_sync s c → only_epoch s c s' c' n → epoch_in_sync s' c' n → in_sync s' c'.
Proof.
  intros Hs Ho Hn e. destruct (decide (e = n)) as [->|Hne]; [done|].
  destruct (Ho e Hne) as [He Hc]. unfold epoch_in_sync. rewrite He, Hc. apply Hs.
Qed.

(** A successful setter, for the status it expects. *)
Lemma setter_status c ctx e f expected to c' st :
  ck_ok c →
  (f, expected, to) ∈
    [(ck_SetCheckpointSubmitted, [Checkpointing.Sealed], Checkpointing.Submitted);
     (ck_SetCheckpointConfirmed, [Checkpointing.Submitted], Checkpointing.Confirmed);
     (ck_SetCheckpointFinalized, [Checkpointing.Confirmed], Checkpointing.Finalized);
     (ck_SetCheckpointForgotten, [Checkpointing.Submitted; Checkpointing.Confirmed],
      Checkpointing.Sealed)] →
  ck_status c e = Some st → st ∈ expected → call_ck (f c ctx e) = Ok c' →
  ck_status c' e = Some to ∧ ∀ e', e' ≠ e → ck_status c' e' = ck_status c e'.
Proof.
  intros Hc Hf Hst Hin Hcall%map_err_Ok.
  pose proof (ck_setters_status c ctx e f expected to c' Hc Hf Hcall) as H. split.
  - rewrite H, decide_True, Hst by done. simpl. by rewrite decide_True.
  - intros e' Hne. by rewrite H, decide_False.
Qed.

Lemma status_call_ok c ctx e f c' :
  ck_ok c →
  f ∈ [ck_SetCheckpointSubmitted; ck_SetCheckpointConfirmed; ck_SetCheckpointFinalized;
       ck_SetCheckpointForgotten] →
  call_ck (f c ctx e) = Ok c' → ck_ok c'.
Proof.
  intros Hc Hf Hcall%map_err_Ok. destruct (ck_setters_total c ctx e f Hc Hf) as (c1 & H1 & ?).
  congruence.
Qed.

Lemma updateStatus_sync s c ctx e status best s' c' status' :
  ck_ok c → ck_status c e = Some (ckpt_status status) →
  updateStatus s c ctx e status best = Ok (s', c', status') →
  ck_ok c' ∧ epochData s' = epochData s ∧ ck_status c' e = Some (ckpt_status status') ∧
  ∀ e', e' ≠ e → ck_status c' e' = ck_status c e'.
Proof.
  intros Hc Hst H. unfold updateStatus in H.
  apply bind_Ok in H as ([c1 st1] & H1 & H2).
  assert (ck_ok c1 ∧ ck_status c1 e = Some (ckpt_status st1) ∧
    ∀ e', e' ≠ e → ck_status c1 e' = ck_status c e') as (Hc1 & Hst1 & Ho1).
  { destruct (_ && bool_decide (status = Submitted)) eqn:Hb; [|by inv_ok].
    apply andb_true_iff in Hb as [_ ->%bool_decide_eq_true].
    apply bind_Ok in H1 as (c2 & Hcall & [= <- <-]).
    split; [by eapply status_call_ok; [..|exact Hcall]; [done|set_solver]|].
    eapply (setter_status c ctx e ck_SetCheckpointConfirmed [Checkpointing.Submitted]);
      [done|set_solver|done|by left|done]. }
  destruct (_ && bool_decide (st1 = Confirmed)) eqn:Hb; [|inv_ok; by split_and!].
  apply andb_true_iff in Hb as [_ ->%bool_decide_eq_true].
  apply bind_Ok in H2 as (c2 & Hcall & [= <- <- <-]).
  split; [by eapply status_call_ok; [..|exact Hcall]; [done|set_solver]|]. split; [done|].
  destruct (setter_status c1 ctx e ck_SetCheckpointFinalized [Checkpointing.Confirmed]
    Checkpointing.Finalized c2 Checkpointing.Confirmed) as [H3 H4]; [done|set_solver|done|by left|done|].
  split; [done|]. intros e' Hne. rewrite H4, Ho1; done.
Qed.

(** Forgetting an epoch that both modules have as submitted or confirmed. *)
Lemma clear_sync s c ctx n ed c' :
  ck_ok c → Status ed ≠ Finalized → ck_status c n = Some (ckpt_status (Status ed)) →
  call_ck (ck_SetCheckpointForgotten c ctx n) = Ok c' →
  ck_ok c' ∧ epoch_in_sync (clearEpochData s n ed) c' n ∧
  only_epoch s c (clearEpochData s n ed) c' n.
Proof.
  intros Hc Hst Hs Hcall.
  destruct (setter_status c ctx n ck_SetCheckpointForgotten
    [Checkpointing.Submitted; Checkpointing.Confirmed] Checkpointing.Sealed c'
    (ckpt_status (Status ed)) Hc ltac:(set_solver) Hs) as [H1 H2];
    [destruct (Status ed); set_solver|done|].
  unfold clearEpochData, epoch_in_sync, only_epoch. simpl.
  destruct (deleteSubmissions_frame s (Keys ed)) as (-> & _ & _).
  split_and!; [by eapply status_call_ok; [..|exact Hcall]; [done|set_solver]| |].
  - rewrite lookup_insert_eq. by right.
  - intros e Hne. rewrite lookup_insert_ne by done. auto.
Qed.

Lemma checkEpoch_sync lc ctx s c parent n ed s' c' best :
  ck_ok c → epochData s !! n = Some ed → epoch_in_sync s c n →
  checkEpoch lc ctx (s, c) parent n ed = Ok (Some (s', c', best)) →
  ck_ok c' ∧ epoch_in_sync s' c' n ∧ only_epoch s c s' c' n.
Proof.
  intros Hc He Hs H. unfold checkEpoch in H.
  destruct (Keys ed) as [|k0 krest] eqn:Hk; [done|].
  assert (ck_status c n = Some (ckpt_status (Status ed))) as Hst.
  { unfold epoch_in_sync in Hs. rewrite He in Hs. destruct ed as [keys st].
    simpl in *. by subst keys. }
  case_bool_decide as Hf.
  - apply bind_Ok in H as (? & _ & H). destruct (GetSubmissionBtcInfo lc k0); [|done..].
    injection H as <- <- _. by split_and!.
  - case_match.
    { apply bind_Ok in H as (c1 & Hcall & [= <- <- _]). by eapply clear_sync. }
    apply bind_Ok in H as (sum & _ & H).
    destruct (SubmissionsToKeep sum) as [|sk0 sks] eqn:Hkeep.
    { apply bind_Ok in H as (c1 & Hcall & [= <- <- _]). by eapply clear_sync. }
    destruct (EpochBestSubmission sum) as [b|]; [|done].
    apply bind_Ok in H as ([[s1 c1] status] & Hu & H).
    destruct (updateStatus_sync _ _ _ _ _ _ _ _ _ Hc Hst Hu) as (Hc1 & Hd1 & Hst1 & Ho1).
    case_bool_decide; injection H as <- <- _; (split; [done|]);
      unfold epoch_in_sync, only_epoch; simpl.
    + destruct (deleteAllExcept_frame s1 (k0 :: krest) (BestSubmissionIdx sum)) as (-> & _ & _).
      rewrite Hd1, lookup_insert_eq. split; [done|]. intros e Hne.
      rewrite lookup_insert_ne by done. auto.
    + destruct (deleteSubmissions_frame s1 (SubmissionsToDelete sum)) as (-> & _ & _).
      rewrite Hd1, lookup_insert_eq. split; [done|]. intros e Hne.
      rewrite lookup_insert_ne by done. auto.
Qed.

Lemma checkCheckpoints_loop_sync lc ctx l s c parent s' c' :
  ck_ok c → NoDup l.*1 → (∀ e ed, (e, ed) ∈ l → epochData s !! e = Some ed) → in_sync s c →
  checkCheckpoints_loop lc ctx (s, c) parent l = Ok (s', c') → ck_ok c' ∧ in_sync s' c'.
Proof.
  revert s c parent. induction l as [|[n ed] l IH]; intros s c parent Hc Hnd Hl Hs H;
    cbn [checkCheckpoints_loop] in H.
  { injection H as <- <-. done. }
  apply bind_Ok in H as ([[[s1 c1] best]|] & Hstep & H); [|by injection H as <- <-].
  simpl in Hnd. apply NoDup_cons in Hnd as [Hn Hnd].
  destruct (checkEpoch_sync lc ctx s c parent n ed s1 c1 best) as (Hc1 & Hs1 & Ho1);
    [done|apply Hl; by left|apply Hs|done|].
  eapply (IH s1 c1); [done|done| |by eapply in_sync_only|done].
  intros e ed' Hin. assert (e ≠ n) as Hne.
  { intros ->. apply Hn. apply list_elem_of_fmap. by exists (n, ed'). }
  destruct (Ho1 e Hne) as [-> _]. apply Hl. by right.
Qed.

Lemma end_block_sync lc ctx s c s' c' :
  ck_ok c → in_sync s c → EndBlocker lc ctx (s, c) = Ok (s', c') → ck_ok c' ∧ in_sync s' c'.
Proof.
  intros Hc Hs H. unfold EndBlocker, OnTipChange, checkCheckpoints in H.
  destruct (BtcLightClientUpdated _); [|by injection H as <- <-].
  eapply checkCheckpoints_loop_sync; [done| | |done|exact H]; simpl.
  - destruct (_ <? _)%N; [apply kv_lt_sorted_NoDup, kv_from_lt_sorted|apply NoDup_kv_asc_keys].
  - intros e ed. destruct (_ <? _)%N; [by intros [? _]%elem_of_kv_from|by intros ?%elem_of_kv_asc].
Qed.
Context `{B : Btcd} {A : Bech32} (sha256 : bytes → bytes).
Context {X : Type} (IndexRefundableMsg : MsgInsertBTCSpvProof → X → X) (authority : string).

Lemma insert_sync lc ctx s c (x : X) req s' c' x' :
  lc_ok lc → ck_ok c →
  (∀ e ed, epochData s !! e = Some ed → Keys ed = [] → Status ed = Submitted) →
  in_sync s c →
  InsertBTCSpvProof sha256 IndexRefundableMsg lc ctx (s, c, x) req = Ok (s', c', x') →
  in_sync s' c'.
Proof.
  intros Hlc Hc Hclean Hs Hi.
  destruct (InsertBTCSpvProof_cases sha256 IndexRefundableMsg _ _ _ _ _ _ _ _ _ Hlc Hc Hi)
    as (_ & tag & sub & _ & _ & [(c1 & Hv & -> & -> & _)|(info & txs & _ & _ & -> & _ & c1 & u & Hv & Hc')]).
  { intros e. unfold epoch_in_sync. rewrite (proj2 (ck_verify_ok _ _ _ _ Hc Hv)). apply Hs. }
  destruct (ck_verify_ok _ _ _ _ Hc Hv) as [Hc1 Hst1].
  destruct (ck_verify_known _ _ _ _ Hc Hv) as [_ [st Hst]]. fold (sub_epoch sub) in Hst.
  pose proof (Hs (sub_epoch sub)) as Hse. unfold epoch_in_sync in Hse. rewrite Hst in Hse.
  apply (in_sync_only s c _ _ (sub_epoch sub) Hs).
  - intros e Hne. unfold recorded. simpl. rewrite lookup_insert_ne by done. split; [done|].
    rewrite <- Hst1. destruct (Keys _); [|by subst].
    apply map_err_Ok in Hc'.
    by rewrite (ck_setters_status c1 ctx (sub_epoch sub) ck_SetCheckpointSubmitted
      [Checkpointing.Sealed] Checkpointing.Submitted c' Hc1 ltac:(set_solver) Hc'), decide_False.
  - unfold epoch_in_sync, recorded. simpl. rewrite lookup_insert_eq. unfold AppendKey.
    destruct (epochData s !! sub_epoch sub) as [[[|k0 ks] status]|] eqn:He; simpl in *.
    + assert (status = Submitted) as -> by (apply (Hclean _ _ He); done).
      destruct Hse as [|[= ->]]; [done|].
      eapply (setter_status c1 ctx (sub_epoch sub) ck_SetCheckpointSubmitted [Checkpointing.Sealed]);
        [done|set_solver|by rewrite Hst1|by left|done].
    + subst c'. by rewrite Hst1, Hst.
    + destruct Hse as [|[= ->]]; [done|].
      eapply (setter_status c1 ctx (sub_epoch sub) ck_SetCheckpointSubmitted [Checkpointing.Sealed]);
        [done|set_solver|by rewrite Hst1|by left|done].
Qed.

Lemma bc_step_sync scx scx' :
  bc_step sha256 IndexRefundableMsg authority scx scx' → ck_ok scx.1.2 →
  (∀ e ed, epochData scx.1.1 !! e = Some ed → Keys ed = [] → Status ed = Submitted) →
  in_sync scx.1.1 scx.1.2 → in_sync scx'.1.1 scx'.1.2.
Proof.
  destruct 1 as [lc ctx req [[s c] x] [[s' c'] x'] Hlc Hi|lc ctx [s c] [s' c'] x Hlc He
    |s c x|s c x|s c x req s' Hu|s c x]; simpl; intros Hc Hclean Hs; try done.
  - by eapply insert_sync.
  - by eapply end_block_sync.
  - unfold UpdateParams, SetParams in Hu. by inv_ok.
Qed.
End sync.

(** ** The promises *)

Section promises.
Context `{LC : BTCLightClientKeeper} `{LL : !BTCLightClientLaws}.
Implicit Types (lc : LightClient) (sk : SubmissionKey) (ed : EpochData).

(** [GetSubmissionBtcInfo] locates a submission: the reported depths are the
    least and the greatest depth of its blocks, the hash is that of a youngest
    block and the index the lowest index among the transactions in youngest
    blocks; it fails exactly when some block is not on the main chain, and it
    never panics on a key with transactions. *)
Theorem submission_position lc sk :
  lc_ok lc → Key sk ≠ [] →
  match GetSubmissionBtcInfo lc sk with
  | Ok info => si_SubmissionKey info = sk ∧
      placed_in lc (Key sk) (YoungestBlockDepth info) (Some (YoungestBlockHash info))
        (YoungestBlockLowestTxIdx info) (OldestBlockDepth info)
  | Err e => e = ErrSubmissionUnknown ∧ ∃ tk, tk ∈ Key sk ∧ depth_of lc tk = None
  | Panic => False
  end.
Proof.
  intros Hlc Hk. pose proof (GetSubmissionBtcInfo_spec lc sk Hlc Hk) as H.
  destruct (GetSubmissionBtcInfo lc sk); [|done..]. unfold placed in H. by destruct H as [<- ?].
Qed.

(** [getEpochChanges] splits the submissions of an epoch into those on the
    main chain after [parent] and the others, keeping their order, and its best
    submission is one of the kept ones that no kept one beats;
    [GetEpochBestSubmissionBtcInfo] finds such a submission among all those on
    the main chain, if there is one. *)
Theorem epoch_best_submission lc parent ed :
  lc_ok lc → Forall two_parts (Keys ed) →
  (∃ sum, getEpochChanges lc parent ed = Ok sum ∧
    SubmissionsToKeep sum = filter (λ sk, viable lc parent sk = true) (Keys ed) ∧
    SubmissionsToDelete sum = filter (λ sk, viable lc parent sk ≠ true) (Keys ed) ∧
    match EpochBestSubmission sum with
    | None => SubmissionsToKeep sum = []
    | Some b => is_best lc (SubmissionsToKeep sum) b
    end) ∧
  match GetEpochBestSubmissionBtcInfo lc (Some ed) with
  | Ok None => ∀ sk, sk ∈ Keys ed → info_of lc sk = None
  | Ok (Some b) => is_best lc (filter (λ sk, viable lc None sk = true) (Keys ed)) b
  | _ => False
  end.
Proof.
  intros Hlc Htwo. split.
  { destruct (getEpochChanges_ok lc parent ed Hlc Htwo) as (sum & ? & [? ? ?]). eauto. }
  unfold GetEpochBestSubmissionBtcInfo.
  destruct (getEpochChanges_ok lc None ed Hlc Htwo) as (sum & Hsum & [Hkeep _ Hbest]).
  destruct (Keys ed) as [|sk [|sk' sks]] eqn:Hk.
  - by intros sk ?%not_elem_of_nil.
  - apply Forall_cons in Htwo as [Htwo _].
    destruct (info_of_cases lc sk Hlc Htwo) as [(info & -> & Hi & Hik)|(e & -> & Hi)].
    + rewrite filter_cons_True by (unfold viable; by rewrite Hi). by apply is_best_singleton.
    + by intros sk' ->%list_elem_of_singleton.
  - rewrite Hsum. simpl. destruct (EpochBestSubmission sum); [by rewrite <- Hkeep|].
    intros sk0 Hel. destruct (info_of lc sk0) as [i|] eqn:Hi; [|done].
    rewrite Hbest in Hkeep. symmetry in Hkeep.
    assert (sk0 ∈ filter (λ sk, viable lc None sk = true) (sk :: sk' :: sks)) as Hf.
    { apply list_elem_of_filter. unfold viable. by rewrite Hi. }
    rewrite Hkeep in Hf. by apply not_elem_of_nil in Hf.
Qed.

Context `{CK : CheckpointingKeeper} `{CL : !CheckpointingLaws}.
Implicit Types (s : BCState) (c : CkptSt) (ctx : Epoching.HeaderInfo).

(** C7: When the tip of the light client moved, the end of the block settles
    every epoch that was not finalised before and still has submissions: all
    its submissions are on the main chain, each after the best submission of the
    previous epoch; it is finalised iff its best submission is w deep, and not
    merely submitted if that is k deep; finalised epochs stay as they are and
    the invariant of the state is kept. *)
Theorem tip_change_settles lc ctx s c s' c' :
  bc_ok s → ck_ok c → lc_ok lc → BtcLightClientUpdated s = true →
  EndBlocker lc ctx (s, c) = Ok (s', c') →
  bc_ok s' ∧ ck_ok c' ∧
  (∀ e ed, epochData s !! e = Some ed → Status ed = Finalized → epochData s' !! e = Some ed) ∧
  (∀ e ed, (lf s < e)%N → epochData s' !! e = Some ed → Keys ed ≠ [] →
     ∃ b, settled lc s' e ed b).
Proof.
  intros Hs Hc Hlc Hu He. unfold EndBlocker in He. simpl in He. rewrite Hu in He.
  pose proof (checkCheckpoints_ok lc ctx s c Hs Hlc Hc) as H.
  unfold OnTipChange in He. rewrite He in H. destruct H as (Hc' & Hp & _).
  split_and!; [apply Hp|done| |].
  - apply (pr_final _ _ (loop_post_progress lc s s' Hs Hp)).
  - intros e ed Hlt He' Hk. destruct (epochData s !! e) as [ed0|] eqn:He0.
    + destruct (lp_from _ _ _ _ Hp e ed0) as (ed' & Hed' & _ & _ & Hset); [lia|done|].
      simplify_eq. by apply Hset.
    + by rewrite (lp_new _ _ _ _ Hp e He0) in He'.
Qed.

(** C27: The end of a block never fails with an error, and it panics, halting
    the chain, exactly when the tip moved and the submission of the last
    finalised epoch is no longer on the main chain. *)
Theorem end_block_halts_iff lc ctx s c :
  bc_ok s → ck_ok c → lc_ok lc →
  (∀ e, EndBlocker lc ctx (s, c) ≠ Err e) ∧
  (EndBlocker lc ctx (s, c) = Panic ↔
   BtcLightClientUpdated s = true ∧
   ∃ ed sk, epochData s !! lf s = Some ed ∧ Status ed = Finalized ∧ Keys ed = [sk] ∧
     info_of lc sk = None).
Proof.
  intros Hs Hc Hlc. pose proof (checkCheckpoints_ok lc ctx s c Hs Hlc Hc) as H.
  assert (finalized_reorged lc s ↔ ∃ ed sk, epochData s !! lf s = Some ed ∧
    Status ed = Finalized ∧ Keys ed = [sk] ∧ info_of lc sk = None) as <-.
  { unfold finalized_reorged. split; intros (ed & sk & He & ?); exists ed, sk.
    - split_and!; [done| |naive_solver..]. by apply (bo_final _ _ Hs _ _ He).
    - naive_solver. }
  unfold EndBlocker, OnTipChange. simpl. destruct (BtcLightClientUpdated s); [|naive_solver].
  destruct (checkCheckpoints lc ctx (s, c)) as [[s' c']|e|]; [|done|naive_solver].
  destruct H as (_ & _ & ?). split; naive_solver.
Qed.

Context `{B : Btcd} {A : Bech32} (sha256 : bytes → bytes).
Context {X : Type} (IndexRefundableMsg : MsgInsertBTCSpvProof → X → X) (authority : string).
Implicit Types (x : X).

(** A submission message that succeeds carries two valid proofs of a
    checkpoint; either x/checkpointing reported a conflict, and only that module's
    state changed, or the submission is new, on the main chain, for an open epoch
    other than 0 and after some submission of the previous epoch, and exactly
    this submission has been added to its epoch and to the store. *)
Theorem submission_admitted lc ctx s c x req s' c' x' :
  lc_ok lc → ck_ok c →
  InsertBTCSpvProof sha256 IndexRefundableMsg lc ctx (s, c, x) req = Ok (s', c', x') →
  ∃ tag sub, GetExpectedTag s = Ok (E := BcErr) tag ∧ ParseSubmission sha256 req tag = Ok sub ∧
    ((∃ c1, ck_VerifyCheckpoint c (CheckpointData sub) =
        (c1, Err Checkpointing.ErrConflictingCheckpoint) ∧ s' = s ∧ c' = c1 ∧ x' = x) ∨
     (∃ info txs, admissible lc s sub info ∧
        epochData s' = <[sub_epoch sub := AppendKey (default NewEmptyEpochData
          (epochData s !! sub_epoch sub)) (GetSubmissionKey sub)]> (epochData s) ∧
        submissions s' = <[GetSubmissionKey sub :=
          GetSubmissionData sub (sub_epoch sub) txs]> (submissions s) ∧
        lf s' = lf s ∧ GetParams s' = GetParams s ∧ x' = IndexRefundableMsg req x)).
Proof.
  intros Hlc Hc Hi.
  destruct (InsertBTCSpvProof_cases sha256 IndexRefundableMsg _ _ _ _ _ _ _ _ _ Hlc Hc Hi)
    as (_ & tag & sub & Htag & Hsub & Hcases).
  exists tag, sub. split_and!; [done|done|].
  destruct Hcases as [?|(info & txs & ? & _ & -> & -> & _)]; [by left|right].
  exists info, txs. by split_and!.
Qed.

(** C23: Whatever sequence of submissions, blocks, light-client notifications
    and parameter changes runs, the invariant of the state is kept, the last
    finalised epoch only grows, a finalised epoch keeps its data, no epoch's
    status goes back, and the finalisation timeout never changes. *)
Theorem finalized_forever scx scx' :
  bc_ok scx.1.1 → ck_ok scx.1.2 →
  rtc (bc_step sha256 IndexRefundableMsg authority) scx scx' →
  bc_ok scx'.1.1 ∧ ck_ok scx'.1.2 ∧ progress scx.1.1 scx'.1.1.
Proof.
  intros Hs Hc Hr. induction Hr as [scx|scx scx1 scx' Hstep _ IH]; [by split_and!|].
  destruct (bc_step_ok _ _ _ _ _ Hstep Hs Hc) as (Hs1 & Hc1 & Hp1).
  destruct (IH Hs1 Hc1) as (? & ? & ?). split_and!; [done|done|by etrans].
Qed.
(** X/btccheckpoint and x/checkpointing agree about the status of every
    epoch, and every sequence of operations keeps it so, as long as in no state
    of the sequence there is an epoch that lost its submissions after it was
    confirmed. *)
Theorem modules_in_sync scx scx' :
  bc_ok scx.1.1 → ck_ok scx.1.2 → in_sync scx.1.1 scx.1.2 →
  rtc (λ a b, bc_step sha256 IndexRefundableMsg authority a b ∧
         ∀ e ed, epochData a.1.1 !! e = Some ed → Keys ed = [] → Status ed = Submitted)
    scx scx' →
  in_sync scx'.1.1 scx'.1.2.
Proof.
  intros Hs Hc Hsync Hr. induction Hr as [scx|scx scx1 scx' [Hstep Hclean] _ IH]; [done|].
  destruct (bc_step_ok _ _ _ _ _ Hstep Hs Hc) as (Hs1 & Hc1 & _).
  apply IH; [done|done|by eapply bc_step_sync].
Qed.
End promises.

(** ** Examples *)

Module Examples.
  (** A light client is its main chain, tip first. *)
Definition lc_toy : BTCLightClientKeeper := {|
  LightClient := list bytes;
  lc_MainChainDepth lc h :=
    match h with
    | None => Err BtcLightClient.ErrEmptyMessage
    | Some h =>
        match list_find (eq h) lc with
        | Some (i, _) => Ok (N.of_nat i)
        | None => Err BtcLightClient.ErrHeaderDoesNotExist
        end
    end;
|}.

Definition lc_toy_laws : BTCLightClientLaws (H := lc_toy).
Proof.
  refine {| lc_ok (lc : @LightClient lc_toy) := (N.of_nat (length (lc : list bytes)) < max_u32)%N |}.
  - intros lc [h|] _; simpl; [|done]. by destruct (list_find _ _) as [[]|].
  - intros lc [h|] d Hlc; simpl; [|done].
    destruct (list_find _ _) as [[i ?]|] eqn:Hf; [|done]. intros [= <-].
    apply list_find_Some in Hf as (Hi%lookup_lt_Some & _). lia.
  - done.
Defined.

(** x/checkpointing reduced to the statuses of its checkpoints. *)
Definition toy_set (expected : list Checkpointing.CheckpointStatus)
    (to : Checkpointing.CheckpointStatus) (m : gmap N Checkpointing.CheckpointStatus)
    (ctx : Epoching.HeaderInfo) (e : N)
  : res Checkpointing.CkptErr (gmap N Checkpointing.CheckpointStatus) :=
  Ok (alter (λ st, if decide (st ∈ expected) then to else st) e m).

Definition ck_toy : CheckpointingKeeper := {|
  CkptSt := gmap N Checkpointing.CheckpointStatus;
  ck_VerifyCheckpoint m ckpt :=
    (m, if (BtcTxFormatter.Epoch ckpt =? 0)%N then Err Checkpointing.ErrCkptDoesNotExist
        else match m !! BtcTxFormatter.Epoch ckpt with
             | Some _ => Ok tt
             | None => Err Checkpointing.ErrCkptDoesNotExist
             end);
  ck_SetCheckpointSubmitted := toy_set [Checkpointing.Sealed] Checkpointing.Submitted;
  ck_SetCheckpointConfirmed := toy_set [Checkpointing.Submitted] Checkpointing.Confirmed;
  ck_SetCheckpointFinalized := toy_set [Checkpointing.Confirmed] Checkpointing.Finalized;
  ck_SetCheckpointForgotten :=
    toy_set [Checkpointing.Submitted; Checkpointing.Confirmed] Checkpointing.Sealed;
|}.

Definition ck_toy_laws : CheckpointingLaws (H := ck_toy).
Proof.
  refine {| ck_ok (c : @CkptSt ck_toy) := True;
            ck_status (c : @CkptSt ck_toy) e :=
              (c : gmap N Checkpointing.CheckpointStatus) !! e |}.
  - intros c ctx e f _ Hf. simpl in Hf. set_unfold in Hf.
    destruct Hf as [->|[->|[->|[->|[]]]]]; eexists; split; done.
  - intros c ctx e f expected to c' _ Hf Hs e'.
    assert (f = toy_set expected to) as ->.
    { rewrite !elem_of_cons in Hf.
      by destruct Hf as [[= -> -> ->]|[[= -> -> ->]|[[= -> -> ->]|[[= -> -> ->]|[]%not_elem_of_nil]]]]. }
    injection Hs as <-. destruct (decide (e' = e)) as [->|Hne].
    + rewrite lookup_alter_eq. unfold status_change. by destruct (c !! e).
    + by rewrite lookup_alter_ne.
  - intros c ckpt c' r _ [= <- _]. done.
  - intros c ckpt c' u _. simpl. destruct (N.eqb_spec (BtcTxFormatter.Epoch ckpt) 0); [by intros [=]|].
    case_match eqn:Hm; [|by intros [=]]. intros _. split; [done|]. by eexists.
Defined.

Definition bech32_toy : Bech32 := λ a, Some [N.of_nat (String.length a)].
Definition ctx : Epoching.HeaderInfo := Epoching.mkHeaderInfo 7 0 [] [].

Definition tag : BtcTxFormatter.AnonTag := BtcTxFormatter.toy_tag.
Definition params : Params := mkParams 2 5 "01020304".
Definition sealed_map : gmap N Checkpointing.CheckpointStatus :=
  {[ 1%N := Checkpointing.Sealed ]}.
Definition sealed : @CkptSt ck_toy := sealed_map.
Definition genesis : BCState := mkBCState ∅ ∅ None false (Some params).

(** A block of the toy Bitcoin, and the chain of the blocks [ids], tip first. *)
Definition block (id : N) : bytes := Toy.pad32 [byte_of_N id].
Definition chain (ids : list N) : @LightClient lc_toy := block <$> ids.

Definition ckpt (epoch : N) : BtcTxFormatter.RawBtcCheckpoint :=
  BtcTxFormatter.mkRawBtcCheckpoint epoch (replicate 32 (byte_of_N 1))
    (replicate 13 (byte_of_N 2)) (replicate 20 (byte_of_N 3)) (replicate 48 (byte_of_N 4)).

Definition parts (epoch : N) : bytes * bytes :=
  match BtcTxFormatter.EncodeCheckpointData BtcTxFormatter.toy_sha256 tag 0 (ckpt epoch) with
  | Ok p => p
  | _ => ([], [])
  end.

Definition spv (tx : bytes) (id idx : N) : BTCSpvProof :=
  mkBTCSpvProof tx idx (replicate 32 (byte_of_N 0)) (Serialize (Btcd := Toy.btcd) (Toy.hdr id 0 5 0)).

(** The checkpoint of [epoch] with its halves in blocks [b1] and [b2], said to be
    the transactions with indices [i1] and [i2]. *)
Definition msg_at (epoch b1 b2 i1 i2 : N) : MsgInsertBTCSpvProof :=
  mkMsgInsertBTCSpvProof "vigilante"
    [spv ([byte_of_N 0x6a; byte_of_N 0x4c; byte_of_N 78] ++ (parts epoch).1) b1 i1;
     spv ([byte_of_N 0x6a; byte_of_N 63] ++ (parts epoch).2) b2 i2].
Definition msg (epoch b1 b2 : N) : MsgInsertBTCSpvProof := msg_at epoch b1 b2 2 4.

Definition key (b1 b2 : N) : SubmissionKey :=
  mkSubmissionKey [mkTransactionKey 2 (Some (block b1)); mkTransactionKey 4 (Some (block b2))].

Definition world : Type := BCState * @CkptSt ck_toy * nat.

Definition insert (ids : list N) (w : world) (m : MsgInsertBTCSpvProof) : res BcErr world :=
  InsertBTCSpvProof (B := Toy.btcd) (A := bech32_toy) BtcTxFormatter.toy_sha256 (LC := lc_toy)
    (CK := ck_toy) (λ _, S) (chain ids) ctx w m.

(** The result of a successful operation. *)
Definition after {A} (d : A) (r : res BcErr A) : A := match r with Ok w => w | _ => d end.

Lemma after_ok {A} (d : A) r : is_ok r = true → r = Ok (after d r).
Proof. by destruct r. Qed.

(** Two submissions of epoch 1: the first in blocks 5 and 6, the second in the
    older blocks 1 and 2. *)
Definition chain1 : list N := [6; 5; 4; 3; 2; 1]%N.
Definition w0 : world := (genesis, sealed, 0).
Definition w1 : world := after w0 (insert chain1 w0 (msg 1 5 6)).
Definition w2 : world := after w0 (insert chain1 w1 (msg 1 1 2)).
(** The two youngest blocks are replaced by three others. *)
Definition chain2 : list N := [17; 16; 15; 4; 3; 2; 1]%N.
Definition s3 : BCState := AfterBTCRollBack w2.1.1.
Definition end_block (ids : list N) (s : BCState) (c : @CkptSt ck_toy)
  : res BcErr (BCState * @CkptSt ck_toy) :=
  EndBlocker (LC := lc_toy) (CK := ck_toy) (chain ids) ctx (s, c).
Definition sc4 : BCState * @CkptSt ck_toy :=
  after (genesis, sealed) (end_block chain2 s3 w2.1.2).

Lemma inserted1 : insert chain1 w0 (msg 1 5 6) = Ok w1.
Proof. apply after_ok. vm_compute. reflexivity. Qed.
Lemma inserted2 : insert chain1 w1 (msg 1 1 2) = Ok w2.
Proof. apply after_ok. vm_compute. reflexivity. Qed.
Lemma ended4 : end_block chain2 s3 w2.1.2 = Ok sc4.
Proof. apply after_ok. vm_compute. reflexivity. Qed.

(** A run in which an epoch is finalised with its best submission, the one
    in blocks 1 and 2, and it is the data of this submission that is deleted; the
    data of the other one, which has left the main chain, is still there. *)
Theorem finalized_best_data_deleted :
  insert chain1 w0 (msg 1 5 6) = Ok w1 ∧ insert chain1 w1 (msg 1 1 2) = Ok w2 ∧
  end_block chain2 (AfterBTCRollBack w2.1.1) w2.1.2 = Ok sc4 ∧
  epochData sc4.1 !! 1%N = Some (mkEpochData [key 1 2] Finalized) ∧
  GetBestSubmission sc4.1 1 = Ok (Finalized, key 1 2) ∧
  HasSubmission sc4.1 (key 1 2) = false ∧ HasSubmission sc4.1 (key 5 6) = true.
Proof.
  split; [exact inserted1|]. split; [exact inserted2|]. split; [exact ended4|].
  split; [apply (bool_decide_eq_true_1 _); vm_compute; reflexivity|].
  vm_compute. repeat split.
Qed.

Lemma chain_ok ids : length ids < 1000 → lc_ok (BTCLightClientLaws := lc_toy_laws) (chain ids).
Proof.
  intros H. change (N.of_nat (length (block <$> ids)) < max_u32)%N.
  rewrite length_fmap. unfold max_u32. lia.
Qed.

Lemma genesis_ok : bc_ok genesis.
Proof.
  split; unfold genesis; simpl.
  - apply lookup_empty.
  - intros e _ [? []%lookup_empty_Some].
  - intros e ed _ _ []%lookup_empty_Some.
  - intros e ed []%lookup_empty_Some.
  - left. reflexivity.
  - intros e ed []%lookup_empty_Some.
  - intros e ed []%lookup_empty_Some.
  - vm_compute. reflexivity.
Qed.

Definition toy_step := bc_step (B := Toy.btcd) (A := bech32_toy) BtcTxFormatter.toy_sha256
  (LL := lc_toy_laws) (CK := ck_toy) (λ _, S) "gov".

Lemma step1 : toy_step w0 w1.
Proof. apply (step_insert _ _ _ (chain chain1) ctx (msg 1 5 6)); [by apply chain_ok; simpl; lia|exact inserted1]. Qed.
Lemma step2 : toy_step w1 w2.
Proof. apply (step_insert _ _ _ (chain chain1) ctx (msg 1 1 2)); [by apply chain_ok; simpl; lia|exact inserted2]. Qed.
Lemma step3 : toy_step w2 (s3, w2.1.2, w2.2).
Proof. unfold s3. generalize w2. intros [[??]?]. constructor. Qed.

Lemma s3_ok : bc_ok s3.
Proof.
  destruct (bc_step_ok (CL := ck_toy_laws) _ _ _ _ _ step1 genesis_ok I) as (H1 & _ & _).
  destruct (bc_step_ok (CL := ck_toy_laws) _ _ _ _ _ step2 H1 I) as (H2 & _ & _).
  by destruct (bc_step_ok (CL := ck_toy_laws) _ _ _ _ _ step3 H2 I) as (H3 & _ & _).
Qed.

Definition info12 : SubmissionBtcInfo := mkSubmissionBtcInfo (key 1 2) 5 4 (block 2) 4.

Lemma submission_position_witness :
  GetSubmissionBtcInfo (LC := lc_toy) (chain chain1) (key 1 2) = Ok info12 ∧
  placed_in (LC := lc_toy) (chain chain1) (Key (key 1 2)) 4 (Some (block 2)) 4 5.
Proof.
  assert (GetSubmissionBtcInfo (LC := lc_toy) (chain chain1) (key 1 2) = Ok info12) as H
    by (vm_compute; reflexivity).
  pose proof (submission_position (LL := lc_toy_laws) (chain chain1) (key 1 2)
    (chain_ok chain1 ltac:(simpl; lia)) ltac:(discriminate)) as Hp.
  rewrite H in Hp. split; [exact H|exact (proj2 Hp)].
Defined.

Definition ed2 : EpochData := mkEpochData [key 5 6; key 30 31; key 1 2] Submitted.

Lemma epoch_best_submission_witness :
  match GetEpochBestSubmissionBtcInfo (LC := lc_toy) (chain chain1) (Some ed2) with
  | Ok (Some b) => b = info12 ∧
      is_best (LC := lc_toy) (chain chain1) (filter (λ sk, viable (LC := lc_toy) (chain chain1) None sk = true) (Keys ed2)) b
  | _ => False
  end.
Proof.
  assert (Forall two_parts (Keys ed2)) as Htwo
    by (repeat (constructor; [unfold two_parts; simpl; lia|]); constructor).
  destruct (epoch_best_submission (LL := lc_toy_laws) (chain chain1) None ed2
    (chain_ok chain1 ltac:(simpl; lia)) Htwo) as [_ H].
  assert (GetEpochBestSubmissionBtcInfo (LC := lc_toy) (chain chain1) (Some ed2) = Ok (Some info12))
    as E by (vm_compute; reflexivity).
  rewrite E in H |- *. split; [reflexivity|exact H].
Defined.

Lemma tip_change_settles_witness :
  end_block chain2 s3 w2.1.2 = Ok sc4 ∧ bc_ok sc4.1 ∧
  ∃ b, settled (LC := lc_toy) (chain chain2) sc4.1 1 (mkEpochData [key 1 2] Finalized) b.
Proof.
  assert (end_block chain2 s3 w2.1.2 = Ok (sc4.1, sc4.2)) as H
    by (rewrite ended4; by destruct sc4).
  destruct (tip_change_settles (LL := lc_toy_laws) (CL := ck_toy_laws) (chain chain2) ctx s3
    w2.1.2 sc4.1 sc4.2 s3_ok I (chain_ok chain2 ltac:(simpl; lia)) eq_refl H)
    as (Hok & _ & _ & Hset).
  split; [exact ended4|]. split; [exact Hok|].
  apply Hset; [vm_compute; reflexivity|vm_compute; reflexivity|discriminate].
Defined.

(** The finalised submission in blocks 1 and 2 leaves the main chain. *)
Definition chain3 : list N := [29; 28; 27; 26; 25; 24; 23; 22; 21]%N.

Lemma step4 : toy_step (s3, w2.1.2, w2.2) (sc4, w2.2).
Proof.
  apply (step_end_block _ _ _ (chain chain2) ctx); [by apply chain_ok; simpl; lia|exact ended4].
Qed.

Lemma s4_ok : bc_ok (AfterBTCRollBack sc4.1).
Proof.
  destruct (bc_step_ok (CL := ck_toy_laws) _ _ _ _ _ step4 s3_ok I) as (H4 & _ & _).
  eapply bc_ok_same; [reflexivity|reflexivity|apply H4|exact H4].
Qed.

Lemma end_block_halts_iff_witness :
  end_block chain3 (AfterBTCRollBack sc4.1) sc4.2 = Panic.
Proof.
  apply (proj2 (end_block_halts_iff (LL := lc_toy_laws) (CL := ck_toy_laws) (chain chain3) ctx
    (AfterBTCRollBack sc4.1) sc4.2 s4_ok I (chain_ok chain3 ltac:(simpl; lia)))).
  split; [reflexivity|]. exists (mkEpochData [key 1 2] Finalized), (key 1 2).
  split; [apply (bool_decide_eq_true_1 _); vm_compute; reflexivity|].
  split; [reflexivity|]. split; [reflexivity|]. vm_compute. reflexivity.
Defined.

Lemma submission_admitted_witness :
  insert chain1 w1 (msg 1 1 2) = Ok w2 ∧
  HasSubmission w1.1.1 (key 1 2) = false ∧ HasSubmission w2.1.1 (key 1 2) = true ∧
  ∃ tag sub, GetExpectedTag w1.1.1 = Ok (E := BcErr) tag ∧
    ParseSubmission (B := Toy.btcd) (A := bech32_toy) BtcTxFormatter.toy_sha256 (msg 1 1 2) tag = Ok sub.
Proof.
  assert (insert chain1 (w1.1.1, w1.1.2, w1.2) (msg 1 1 2) = Ok (w2.1.1, w2.1.2, w2.2)) as H
    by (generalize inserted2; destruct w1 as [[??]?], w2 as [[??]?]; exact id).
  destruct (submission_admitted (LL := lc_toy_laws) (CL := ck_toy_laws) (B := Toy.btcd)
    (A := bech32_toy) BtcTxFormatter.toy_sha256 (λ _, S) (chain chain1) ctx w1.1.1 w1.1.2 w1.2
    (msg 1 1 2) w2.1.1 w2.1.2 w2.2 (chain_ok chain1 ltac:(simpl; lia)) I) as (tag & sub & Ht & Hs & _);
    [exact H|].
  split; [exact inserted2|]. split; [vm_compute; reflexivity|].
  split; [vm_compute; reflexivity|]. exists tag, sub. exact (conj Ht Hs).
Defined.

Lemma finalized_forever_witness :
  bc_ok s3 ∧ progress genesis s3.
Proof.
  destruct (finalized_forever (LL := lc_toy_laws) (CL := ck_toy_laws) (B := Toy.btcd)
    (A := bech32_toy) BtcTxFormatter.toy_sha256 (λ _, S) "gov" w0 (s3, w2.1.2, w2.2) genesis_ok I)
    as (H1 & _ & H2); [|exact (conj H1 H2)].
  eapply rtc_l; [exact step1|]. eapply rtc_l; [exact step2|]. eapply rtc_once. exact step3.
Defined.

(** Checks on a concrete store that no confirmed epoch has been forgotten. *)
Lemma clean_map (m : gmap N EpochData) :
  forallb (λ kv, negb (bool_decide (Keys kv.2 = [])) || bool_decide (Status kv.2 = Submitted))
    (map_to_list m) = true →
  ∀ e ed, m !! e = Some ed → Keys ed = [] → Status ed = Submitted.
Proof.
  intros H e ed He Hk. rewrite forallb_forall in H.
  specialize (H (e, ed)). simpl in H. rewrite bool_decide_eq_true_2 in H by done.
  apply (bool_decide_eq_true_1 _), H. by apply list_elem_of_In, elem_of_map_to_list.
Qed.

Lemma modules_in_sync_witness :
  in_sync (CL := ck_toy_laws) s3 w2.1.2 ∧ ck_status (CheckpointingLaws := ck_toy_laws) w2.1.2 1 =
    Some Checkpointing.Submitted.
Proof.
  split; [|vm_compute; reflexivity].
  apply (modules_in_sync (LL := lc_toy_laws) (CL := ck_toy_laws) (B := Toy.btcd)
    (A := bech32_toy) BtcTxFormatter.toy_sha256 (λ _, S) "gov" w0 (s3, w2.1.2, w2.2)).
  - exact genesis_ok.
  - exact I.
  - intros e. unfold epoch_in_sync. simpl. rewrite lookup_empty.
    destruct (decide (e = 1%N)) as [->|Hne]; [right; reflexivity|left].
    change (sealed_map !! e = None). unfold sealed_map. by rewrite lookup_singleton_ne by done.
  - eapply rtc_l; [split; [exact step1|apply clean_map; vm_compute; reflexivity]|].
    eapply rtc_l; [split; [exact step2|apply clean_map; vm_compute; reflexivity]|].
    eapply rtc_once. split; [exact step3|apply clean_map; vm_compute; reflexivity].
Defined.

(** *** One pair of transactions under several keys *)

Definition without_index (p : BTCSpvProof) : bytes * bytes * bytes :=
  (BtcTransaction p, MerkleNodes p, ConfirmingBtcHeader p).

Definition u1 : world := after w0 (insert [2; 1]%N w0 (msg_at 1 1 2 0 0)).
Definition u2 : world := after w0 (insert [2; 1]%N u1 (msg_at 1 1 2 2 0)).
Definition u3 : world := after w0 (insert [2; 1]%N u2 (msg_at 1 1 2 4 6)).

(** The same two transactions, with the same Merkle proofs, are recorded
    three times, because the check for duplicates compares the claimed indices
    and the Merkle proof, one level deep here, does not determine them; each time
    the message is indexed as refundable. *)
Theorem resubmitted_under_other_index :
  (∀ i1 i2, without_index <$> Proofs (msg_at 1 1 2 i1 i2) =
            without_index <$> Proofs (msg_at 1 1 2 0 0)) ∧
  insert [2; 1]%N w0 (msg_at 1 1 2 0 0) = Ok u1 ∧
  insert [2; 1]%N u1 (msg_at 1 1 2 0 0) = Err ErrDuplicatedSubmission ∧
  insert [2; 1]%N u1 (msg_at 1 1 2 2 0) = Ok u2 ∧
  insert [2; 1]%N u2 (msg_at 1 1 2 4 6) = Ok u3 ∧
  length (Keys (default NewEmptyEpochData (epochData u3.1.1 !! 1%N))) = 3 ∧ u3.2 = 3.
Proof.
  split; [intros; reflexivity|].
  split; [apply after_ok; vm_compute; reflexivity|]. split; [vm_compute; reflexivity|].
  split; [apply after_ok; vm_compute; reflexivity|].
  split; [apply after_ok; vm_compute; reflexivity|]. vm_compute. split; reflexivity.
Qed.

(** *** A confirmed epoch that is forgotten and submitted again *)

Definition end_after (ids : list N) (w : world) : world :=
  let '(s, c, x) := w in
  (after (s, c) (end_block ids (AfterBTCRollBack s) c), x).

Definition v1 : world := after w0 (insert [2; 1]%N w0 (msg 1 1 2)).
(** The submission gets confirmed... *)
Definition v2 : world := end_after [4; 3; 2; 1]%N v1.
(** ... is lost in a reorganisation ... *)
Definition v3 : world := end_after [13; 12; 11; 10; 9]%N v2.
(** ... made again on the new chain ... *)
Definition v4 : world := after w0 (insert [13; 12; 11; 10; 9]%N v3 (msg 1 9 10)).
(** ... and gets five blocks deep there. *)
Definition v5 : world := end_after [15; 14; 13; 12; 11; 10; 9]%N v4.

Definition statuses (w : world) : option BtcStatus * option Checkpointing.CheckpointStatus :=
  (Status <$> epochData w.1.1 !! 1%N, (w.1.2 : gmap N Checkpointing.CheckpointStatus) !! 1%N).

(** After a confirmed checkpoint was forgotten and submitted again, the two
    modules disagree; x/btccheckpoint finalises the epoch and refuses further
    submissions, and x/checkpointing keeps it as submitted. *)
Theorem resubmission_desynchronises :
  is_ok (insert [2; 1]%N w0 (msg 1 1 2)) = true ∧
  statuses v1 = (Some Submitted, Some Checkpointing.Submitted) ∧
  statuses v2 = (Some Confirmed, Some Checkpointing.Confirmed) ∧
  statuses v3 = (Some Confirmed, Some Checkpointing.Sealed) ∧
  is_ok (insert [13; 12; 11; 10; 9]%N v3 (msg 1 9 10)) = true ∧
  statuses v4 = (Some Confirmed, Some Checkpointing.Submitted) ∧
  statuses v5 = (Some Finalized, Some Checkpointing.Submitted) ∧
  getLastFinalizedEpochNumber v5.1.1 = 1%N ∧
  insert [15; 14; 13; 12; 11; 10; 9]%N v5 (msg 1 11 12) = Err ErrEpochAlreadyFinalized.
Proof. vm_compute. repeat split. Qed.
End Examples.

End BtcCheckpointSpec.
