(* ===== verification/BtcStaking.v ===== *)
(** x/btcstaking: finality providers and BTC delegations.
    [src/anon/x/btcstaking/types/btcstaking.go], [types/btc_delegation.go],
    [types/btc_undelegation.go], [types/params.go], [types/commission.go],
    [keeper/finality_providers.go], [keeper/power_dist_change.go],
    [keeper/btc_delegations.go] (queries), [keeper/btc_height_index.go],
    [keeper/btc_reorg.go], [keeper/params.go], [keeper/hooks.go] and [abci.go].

    Holders of bitcoin lock them in a staking transaction and delegate their
    voting power to finality providers.  A delegation becomes active when a
    quorum of the covenant committee has signed and the staking transaction is
    deep enough in Bitcoin; it ends when its timelock nears its end or when it is
    spent.  Every change that affects voting power is recorded as an event under
    a Bitcoin height, which x/finality consumes at the beginning of a block. *)
From stdpp Require Import base numbers list sorting gmap strings.
From S2P Require Import Prelude KVStore Bytes Btcd BtcUtils.
From S2P Require Import BtcLightClient Epoching BtcCheckpoint.

Module BtcStaking.
Import BtcLightClient.

(** ** Data *)

(** [math.LegacyDec]: a decimal with 18 digits, as an integer. *)
Definition Dec : Type := Z.
Definition LegacyOneDec : Dec := (10 ^ 18)%Z.

Record CommissionInfo := mkCommissionInfo {
  MaxRate : Dec;
  MaxChangeRate : Dec;
  UpdateTime : Z;   (** nanoseconds *)
}.

Record Description := mkDescription {
  Moniker : string; Identity : string; Website : string;
  SecurityContact : string; Details : string;
}.

Record ProofOfPossessionBTC := mkProofOfPossessionBTC {
  BtcSigType : N;
  BtcSig : bytes;
}.

Record FinalityProvider := mkFinalityProvider {
  fp_Addr : string;
  fp_Description : option Description;
  fp_Commission : option Dec;
  fp_BtcPk : bytes;
  fp_Pop : option ProofOfPossessionBTC;
  SlashedAnonHeight : N;
  SlashedBtcHeight : N;
  Jailed : bool;
  HighestVotedHeight : N;
  fp_CommissionInfo : option CommissionInfo;
}.

Definition IsSlashed (fp : FinalityProvider) : bool := (0 <? SlashedAnonHeight fp)%N.
Definition IsJailed (fp : FinalityProvider) : bool := Jailed fp.

Definition setSlashed (fp : FinalityProvider) (anonHeight btcHeight : N) : FinalityProvider :=
  mkFinalityProvider (fp_Addr fp) (fp_Description fp) (fp_Commission fp) (fp_BtcPk fp) (fp_Pop fp)
    anonHeight btcHeight (Jailed fp) (HighestVotedHeight fp) (fp_CommissionInfo fp).
Definition setJailed (fp : FinalityProvider) (b : bool) : FinalityProvider :=
  mkFinalityProvider (fp_Addr fp) (fp_Description fp) (fp_Commission fp) (fp_BtcPk fp) (fp_Pop fp)
    (SlashedAnonHeight fp) (SlashedBtcHeight fp) b (HighestVotedHeight fp) (fp_CommissionInfo fp).
Definition setHighestVotedHeight (fp : FinalityProvider) (h : N) : FinalityProvider :=
  mkFinalityProvider (fp_Addr fp) (fp_Description fp) (fp_Commission fp) (fp_BtcPk fp) (fp_Pop fp)
    (SlashedAnonHeight fp) (SlashedBtcHeight fp) (Jailed fp) h (fp_CommissionInfo fp).

Record CovenantAdaptorSignatures := mkCovenantAdaptorSignatures {
  CovPk : bytes;
  AdaptorSigs : list bytes;
}.

Record SignatureInfo := mkSignatureInfo { si_Pk : bytes; si_Sig : option bytes }.

Record DelegatorUnbondingInfo := mkDelegatorUnbondingInfo { SpendStakeTx : bytes }.

Record BTCUndelegation := mkBTCUndelegation {
  UnbondingTx : bytes;
  ud_SlashingTx : bytes;
  DelegatorSlashingSig : bytes;
  CovenantSlashingSigs : list CovenantAdaptorSignatures;
  CovenantUnbondingSigList : list SignatureInfo;
  ud_DelegatorUnbondingInfo : option DelegatorUnbondingInfo;
}.

Record StakeExpansion := mkStakeExpansion {
  PreviousStakingTxHash : bytes;
  OtherFundingTxOut : bytes;
  PreviousStkCovenantSigs : list SignatureInfo;
}.

Record BTCDelegation := mkBTCDelegation {
  StakerAddr : string;
  del_BtcPk : bytes;
  del_Pop : option ProofOfPossessionBTC;
  FpBtcPkList : list bytes;
  StakingTime : N;
  StartHeight : N;
  EndHeight : N;
  TotalSat : N;
  StakingTx : bytes;
  StakingOutputIdx : N;
  SlashingTx : bytes;
  DelegatorSig : bytes;
  CovenantSigs : list CovenantAdaptorSignatures;
  UnbondingTime : N;
  BtcUndelegation : BTCUndelegation;
  ParamsVersion : N;
  BtcTipHeight : N;
  StkExp : option StakeExpansion;
}.

Inductive BTCDelegationStatus := PENDING | VERIFIED | ACTIVE | UNBONDED | EXPIRED.

#[global] Instance BTCDelegationStatus_eq_dec : EqDecision BTCDelegationStatus.
Proof. solve_decision. Defined.

(** [EventPowerDistUpdate]: the state of a delegation, named by its staking
    transaction, or of a finality provider, named by its key. *)
Inductive EventPowerDistUpdate :=
  | BtcDelStateUpdate (StakingTxHash : bytes) (NewState : BTCDelegationStatus)
  | SlashedFp (Pk : bytes)
  | JailedFp (Pk : bytes)
  | UnjailedFp (Pk : bytes).

#[global] Instance EventPowerDistUpdate_eq_dec : EqDecision EventPowerDistUpdate.
Proof. solve_decision. Defined.

Record LargestBtcReOrg := mkLargestBtcReOrg {
  BlockDiff : N;
  RollbackFrom : BTCHeaderInfo;
  RollbackTo : BTCHeaderInfo;
}.

Inductive BsErr :=
  | ErrFpNotFound | ErrBTCDelegationNotFound | ErrFpRegistered | ErrFpAlreadySlashed
  | ErrReusedStakingTx | ErrInvalidCovenantPK | ErrInvalidStakingTx | ErrInvalidCovenantSig
  | ErrCommissionLTMinRate | ErrCommissionGTMaxRate | ErrInvalidBTCUndelegateReq
  | ErrInvalidProofOfPossession | ErrFpAlreadyJailed | ErrFpNotJailed | ErrDuplicatedCovenantSig
  | ErrStakingTxIncludedTooEarly | ErrFinalityProviderIsDeleted
  | ErrCommissionNegative | ErrCommissionHuge | ErrCommissionChangeRateNegative
  | ErrCommissionChangeRateGTMaxRate | ErrCommissionUpdateTime | ErrCommissionGTMaxChangeRate
  | ErrInvalidAddress | ErrInvalidSigner | ErrInvalidProposalMsg | ErrPermissionDenied
  | ErrNoBtcTip | ErrInvalidParams | ErrVersionMap | ErrInvalidArgument | ErrInclusionProof
  | ErrAlreadyIncluded | ErrNoQuorum | ErrAlreadyUnbonded | ErrNoCommissionInfo
  | ErrParamsVersionNotFound.

#[global] Instance BsErr_eq_dec : EqDecision BsErr.
Proof. solve_decision. Defined.

(** ** Parameters: [types/params.go] *)

Record Params := mkParams {
  CovenantPks : list bytes;
  CovenantQuorum : N;
  MinStakingValueSat : Z;
  MaxStakingValueSat : Z;
  MinStakingTimeBlocks : N;
  MaxStakingTimeBlocks : N;
  SlashingPkScript : bytes;
  MinSlashingTxFeeSat : Z;
  SlashingRate : Dec;
  UnbondingTimeBlocks : N;
  UnbondingFeeSat : Z;
  MinCommissionRate : Dec;
  AllowListExpirationHeight : N;
  BtcActivationHeight : N;
}.

Definition HasCovenantPK (p : Params) (pk : bytes) : bool :=
  existsb (λ pk2, bool_decide (pk2 = pk)) (CovenantPks p).

Definition max_u16 : N := 65535.

Definition validateStakingAmout (minStakingAmt maxStakingAmt : Z) : bool :=
  negb (minStakingAmt <=? 0)%Z && negb (maxStakingAmt <=? 0)%Z &&
  negb (maxStakingAmt <? minStakingAmt)%Z.

Definition validateStakingTime (minStakingTime maxStakingTime : N) : bool :=
  negb (minStakingTime =? 0)%N && negb (max_u16 <? minStakingTime)%N &&
  negb (maxStakingTime =? 0)%N && negb (max_u16 <? maxStakingTime)%N &&
  negb (maxStakingTime <? minStakingTime)%N.

Definition validateMinCommissionRate (rate : Dec) : bool :=
  negb (rate <? 0)%Z && negb (LegacyOneDec <? rate)%Z.

(** [btcstaking.IsSlashingRateValid]: strictly between 0 and 1, with at most four
    decimals.  [Mul] by an integer is exact. *)
Definition IsSlashingRateValid (rate : Dec) : bool :=
  if (rate <=? 0)%Z || (LegacyOneDec <=? rate)%Z then false
  else
    let multipliedRate := (rate * 10000)%Z in
    let truncatedRate := (multipliedRate / LegacyOneDec * LegacyOneDec)%Z in
    (multipliedRate =? truncatedRate)%Z.

(** [ExistsDup]; [ToBTCPK] is whether a key parses. *)
Fixpoint ExistsDup_loop (parses : bytes → bool) (seen : list bytes) (btcPKs : list bytes)
  : res BsErr bool :=
  match btcPKs with
  | [] => Ok false
  | btcPK :: rest =>
      if negb (parses btcPK) then Err ErrInvalidParams
      else if bool_decide (btcPK ∈ seen) then Ok true
      else ExistsDup_loop parses (btcPK :: seen) rest
  end.
Definition ExistsDup (parses : bytes → bool) (btcPKs : list bytes) : res BsErr bool :=
  ExistsDup_loop parses [] btcPKs.

(** *** Versions of the parameters *)

Record HeightVersionPair := mkHeightVersionPair { hv_StartHeight : N; hv_Version : N }.

#[global] Instance HeightVersionPair_eq_dec : EqDecision HeightVersionPair.
Proof. solve_decision. Defined.

Definition AddPair (m : list HeightVersionPair) (newPair : HeightVersionPair)
  : res BsErr (list HeightVersionPair) :=
  match last m with
  | None => if negb (hv_Version newPair =? 0)%N then Err ErrVersionMap else Ok [newPair]
  | Some lastPair =>
      if (hv_StartHeight newPair <=? hv_StartHeight lastPair)%N then Err ErrVersionMap
      else if negb (hv_Version newPair =? u32_add (hv_Version lastPair) 1)%N then Err ErrVersionMap
      else Ok (m ++ [newPair])
  end.

Definition NewHeightToVersionMapFromPairs (pairs : list HeightVersionPair)
  : res BsErr (list HeightVersionPair) :=
  match pairs with
  | [] => Err ErrVersionMap
  | _ => fold_res AddPair [] pairs
  end.

Definition GetVersionForHeight (m : list HeightVersionPair) (height : N) : res BsErr N :=
  match m with
  | [] => Err ErrVersionMap
  | _ =>
      let idx := sort_Search (length m)
        (λ i, match m !! i with Some p => (height <? hv_StartHeight p)%N | None => false end) in
      match idx with
      | O => Err ErrVersionMap
      | S idx => match m !! idx with Some p => Ok (hv_Version p) | None => Panic end
      end
  end.

Fixpoint pairs_ordered (m : list HeightVersionPair) : bool :=
  match m with
  | p :: ((q :: _) as rest) =>
      negb (hv_StartHeight q <=? hv_StartHeight p)%N &&
      (hv_Version q =? u32_add (hv_Version p) 1)%N && pairs_ordered rest
  | _ => true
  end.

Definition HeightToVersionMap_Validate (m : list HeightVersionPair) : bool :=
  match m with
  | [] => false
  | [p] => (hv_Version p =? 0)%N
  | _ => pairs_ordered m
  end.

(** ** Delegations: [types/btc_delegation.go], [types/btc_undelegation.go] *)

Definition HasInclusionProof (d : BTCDelegation) : bool :=
  (0 <? StartHeight d)%N && (0 <? EndHeight d)%N.

Definition GetFpIdx (d : BTCDelegation) (fpBTCPK : bytes) : option nat :=
  fst <$> list_find (λ pk, pk = fpBTCPK) (FpBtcPkList d).

Definition IsUnbondedEarly (d : BTCDelegation) : bool :=
  bool_decide (is_Some (ud_DelegatorUnbondingInfo (BtcUndelegation d))).

Definition IsStakeExpansion (d : BTCDelegation) : bool := bool_decide (is_Some (StkExp d)).

Definition ge_quorum {A} (l : list A) (quorum : N) : bool := (quorum <=? N.of_nat (length l))%N.

Definition HasCovenantQuorumOnSlashing (ud : BTCUndelegation) (quorum : N) : bool :=
  ge_quorum (CovenantSlashingSigs ud) quorum.
Definition HasCovenantQuorumOnUnbonding (ud : BTCUndelegation) (quorum : N) : bool :=
  ge_quorum (CovenantUnbondingSigList ud) quorum.
Definition ud_HasCovenantQuorums (ud : BTCUndelegation) (covenantQuorum : N) : bool :=
  HasCovenantQuorumOnUnbonding ud covenantQuorum && HasCovenantQuorumOnSlashing ud covenantQuorum.
Definition stkexp_HasCovenantQuorums (e : StakeExpansion) (quorumPreviousStk : N) : bool :=
  ge_quorum (PreviousStkCovenantSigs e) quorumPreviousStk.

Definition HasCovenantQuorums (d : BTCDelegation) (quorum quorumPreviousStk : N) : bool :=
  let hasQuorum :=
    ge_quorum (CovenantSigs d) quorum && ud_HasCovenantQuorums (BtcUndelegation d) quorum in
  match StkExp d with
  | Some e => hasQuorum && stkexp_HasCovenantQuorums e quorumPreviousStk
  | None => hasQuorum
  end.

Definition IsSignedByCovMember (d : BTCDelegation) (covPk : bytes) : bool :=
  existsb (λ sigInfo, bool_decide (covPk = CovPk sigInfo)) (CovenantSigs d).
Definition IsSignedByCovMemberOnUnbonding (ud : BTCUndelegation) (covPk : bytes) : bool :=
  existsb (λ sigInfo, bool_decide (si_Pk sigInfo = covPk)) (CovenantUnbondingSigList ud).
Definition IsSignedByCovMemberOnSlashing (ud : BTCUndelegation) (covPk : bytes) : bool :=
  existsb (λ sigInfo, bool_decide (CovPk sigInfo = covPk)) (CovenantSlashingSigs ud).
Definition ud_IsSignedByCovMember (ud : BTCUndelegation) (covPk : bytes) : bool :=
  IsSignedByCovMemberOnUnbonding ud covPk && IsSignedByCovMemberOnSlashing ud covPk.
Definition stkexp_IsSignedByCovMember (e : StakeExpansion) (covPk : bytes) : bool :=
  existsb (λ sigInfo, bool_decide (covPk = si_Pk sigInfo)) (PreviousStkCovenantSigs e).

Definition GetStatus (d : BTCDelegation) (btcHeight covenantQuorum quorumPreviousStk : N)
  : BTCDelegationStatus :=
  if IsUnbondedEarly d then UNBONDED
  else if negb (HasCovenantQuorums d covenantQuorum quorumPreviousStk) then PENDING
  else if negb (HasInclusionProof d) then VERIFIED
  else if (btcHeight <? StartHeight d)%N then UNBONDED
  else if (EndHeight d <=? u32_add btcHeight (UnbondingTime d))%N then EXPIRED
  else ACTIVE.

Definition VotingPower (d : BTCDelegation) (btcHeight covenantQuorum quorumPreviousStk : N) : N :=
  if bool_decide (GetStatus d btcHeight covenantQuorum quorumPreviousStk = ACTIVE)
  then TotalSat d else 0%N.

(** The record after [AddCovenantSigs]; the signatures are given encoded. *)
Definition ud_addCovenantSigs (ud : BTCUndelegation) (covPk : bytes) (unbondingSig : option bytes)
    (slashingSigs : list bytes) : BTCUndelegation :=
  mkBTCUndelegation (UnbondingTx ud) (ud_SlashingTx ud) (DelegatorSlashingSig ud)
    (CovenantSlashingSigs ud ++ [mkCovenantAdaptorSignatures covPk slashingSigs])
    (CovenantUnbondingSigList ud ++ [mkSignatureInfo covPk unbondingSig])
    (ud_DelegatorUnbondingInfo ud).
Definition stkexp_AddCovenantSigs (e : StakeExpansion) (covPk : bytes) (stkExpSig : option bytes)
  : StakeExpansion :=
  mkStakeExpansion (PreviousStakingTxHash e) (OtherFundingTxOut e)
    (PreviousStkCovenantSigs e ++ [mkSignatureInfo covPk stkExpSig]).

Definition AddCovenantSigs (d : BTCDelegation) (covPk : bytes) (stakingSlashingSigs : list bytes)
    (unbondingSig : option bytes) (unbondingSlashingSigs : list bytes) (stkExpSig : option bytes)
  : BTCDelegation :=
  mkBTCDelegation (StakerAddr d) (del_BtcPk d) (del_Pop d) (FpBtcPkList d) (StakingTime d)
    (StartHeight d) (EndHeight d) (TotalSat d) (StakingTx d) (StakingOutputIdx d) (SlashingTx d)
    (DelegatorSig d)
    (CovenantSigs d ++ [mkCovenantAdaptorSignatures covPk stakingSlashingSigs])
    (UnbondingTime d)
    (ud_addCovenantSigs (BtcUndelegation d) covPk unbondingSig unbondingSlashingSigs)
    (ParamsVersion d) (BtcTipHeight d)
    ((λ e, stkexp_AddCovenantSigs e covPk stkExpSig) <$> StkExp d).

Definition setHeights (d : BTCDelegation) (startHeight endHeight : N) : BTCDelegation :=
  mkBTCDelegation (StakerAddr d) (del_BtcPk d) (del_Pop d) (FpBtcPkList d) (StakingTime d)
    startHeight endHeight (TotalSat d) (StakingTx d) (StakingOutputIdx d) (SlashingTx d)
    (DelegatorSig d) (CovenantSigs d) (UnbondingTime d) (BtcUndelegation d)
    (ParamsVersion d) (BtcTipHeight d) (StkExp d).

Definition setUnbondingInfo (d : BTCDelegation) (u : DelegatorUnbondingInfo) : BTCDelegation :=
  let ud := BtcUndelegation d in
  mkBTCDelegation (StakerAddr d) (del_BtcPk d) (del_Pop d) (FpBtcPkList d) (StakingTime d)
    (StartHeight d) (EndHeight d) (TotalSat d) (StakingTx d) (StakingOutputIdx d) (SlashingTx d)
    (DelegatorSig d) (CovenantSigs d) (UnbondingTime d)
    (mkBTCUndelegation (UnbondingTx ud) (ud_SlashingTx ud) (DelegatorSlashingSig ud)
       (CovenantSlashingSigs ud) (CovenantUnbondingSigList ud) (Some u))
    (ParamsVersion d) (BtcTipHeight d) (StkExp d).

(** ** State *)

(** The stores by key prefix.  Events are kept by Bitcoin height and index; the
    index of a delegator by finality provider and delegator key. *)
Record BSState := mkBSState {
  finalityProviders : gmap bytes FinalityProvider;
  fpAncAddr : gset (list N);
  finalityProvidersDeleted : gset bytes;
  btcDelegations : gmap bytes BTCDelegation;
  btcDelegators : gmap (bytes * bytes) (list bytes);
  powerDistUpdateEvents : gmap N (gmap N EventPowerDistUpdate);
  btcHeights : gmap N N;
  largestBtcReorg : option LargestBtcReOrg;
  bs_params : gmap N Params;
  heightToVersionMap : option (list HeightVersionPair);
  allowedStakingTxHashes : gset bytes;
}.

Definition set_fps (s : BSState) m : BSState :=
  mkBSState m (fpAncAddr s) (finalityProvidersDeleted s) (btcDelegations s) (btcDelegators s)
    (powerDistUpdateEvents s) (btcHeights s) (largestBtcReorg s) (bs_params s)
    (heightToVersionMap s) (allowedStakingTxHashes s).
Definition set_addrs (s : BSState) m : BSState :=
  mkBSState (finalityProviders s) m (finalityProvidersDeleted s) (btcDelegations s) (btcDelegators s)
    (powerDistUpdateEvents s) (btcHeights s) (largestBtcReorg s) (bs_params s)
    (heightToVersionMap s) (allowedStakingTxHashes s).
Definition set_deleted (s : BSState) m : BSState :=
  mkBSState (finalityProviders s) (fpAncAddr s) m (btcDelegations s) (btcDelegators s)
    (powerDistUpdateEvents s) (btcHeights s) (largestBtcReorg s) (bs_params s)
    (heightToVersionMap s) (allowedStakingTxHashes s).
Definition set_dels (s : BSState) m : BSState :=
  mkBSState (finalityProviders s) (fpAncAddr s) (finalityProvidersDeleted s) m (btcDelegators s)
    (powerDistUpdateEvents s) (btcHeights s) (largestBtcReorg s) (bs_params s)
    (heightToVersionMap s) (allowedStakingTxHashes s).
Definition set_delegators (s : BSState) m : BSState :=
  mkBSState (finalityProviders s) (fpAncAddr s) (finalityProvidersDeleted s) (btcDelegations s) m
    (powerDistUpdateEvents s) (btcHeights s) (largestBtcReorg s) (bs_params s)
    (heightToVersionMap s) (allowedStakingTxHashes s).
Definition set_events (s : BSState) m : BSState :=
  mkBSState (finalityProviders s) (fpAncAddr s) (finalityProvidersDeleted s) (btcDelegations s)
    (btcDelegators s) m (btcHeights s) (largestBtcReorg s) (bs_params s)
    (heightToVersionMap s) (allowedStakingTxHashes s).
Definition set_heights (s : BSState) m : BSState :=
  mkBSState (finalityProviders s) (fpAncAddr s) (finalityProvidersDeleted s) (btcDelegations s)
    (btcDelegators s) (powerDistUpdateEvents s) m (largestBtcReorg s) (bs_params s)
    (heightToVersionMap s) (allowedStakingTxHashes s).
Definition set_reorg (s : BSState) m : BSState :=
  mkBSState (finalityProviders s) (fpAncAddr s) (finalityProvidersDeleted s) (btcDelegations s)
    (btcDelegators s) (powerDistUpdateEvents s) (btcHeights s) m (bs_params s)
    (heightToVersionMap s) (allowedStakingTxHashes s).
Definition set_params (s : BSState) p v : BSState :=
  mkBSState (finalityProviders s) (fpAncAddr s) (finalityProvidersDeleted s) (btcDelegations s)
    (btcDelegators s) (powerDistUpdateEvents s) (btcHeights s) (largestBtcReorg s) p v
    (allowedStakingTxHashes s).

(** *** Parameters: [keeper/params.go] *)

Definition nextParamsVersion (s : BSState) : N :=
  match kv_desc (bs_params s) with [] => 0%N | (v, _) :: _ => u32_add v 1 end.

Definition getLastParams (s : BSState) : option Params :=
  match kv_desc (bs_params s) with [] => None | (_, p) :: _ => Some p end.

Definition GetParams {E} (s : BSState) : res E Params :=
  match getLastParams s with None => Panic | Some p => Ok p end.

Definition GetParamsByVersion (s : BSState) (v : N) : option Params := bs_params s !! v.

Definition GetParamsForBtcHeight (s : BSState) (height : N) : res BsErr (option Params * N) :=
  match heightToVersionMap s with
  | None => Panic
  | Some m => version ← GetVersionForHeight m height; mret (GetParamsByVersion s version, version)
  end.

(** *** Events that affect the voting power: [keeper/power_dist_change.go] *)

Definition events_at (s : BSState) (btcHeight : N) : gmap N EventPowerDistUpdate :=
  default ∅ (powerDistUpdateEvents s !! btcHeight).

Definition addPowerDistUpdateEvent (s : BSState) (btcHeight : N) (event : EventPowerDistUpdate)
  : BSState :=
  let store := events_at s btcHeight in
  let eventIdx := match kv_desc store with [] => 0%N | (k, _) :: _ => u64_add k 1 end in
  set_events s (<[btcHeight := <[eventIdx := event]> store]> (powerDistUpdateEvents s)).

Definition ClearPowerDistUpdateEvents (s : BSState) (btcHeight : N) : BSState :=
  set_events s (<[btcHeight := ∅]> (powerDistUpdateEvents s)).

(** [PowerDistUpdateEventBtcHeightStoreIterator]: the events in order. *)
Definition PowerDistUpdateEvents (s : BSState) (btcHeight : N) : list EventPowerDistUpdate :=
  (kv_asc (events_at s btcHeight)).*2.

Definition GetAllPowerDistUpdateEvents (s : BSState) (lastBTCTip curBTCTip : N)
  : list EventPowerDistUpdate :=
  mjoin (PowerDistUpdateEvents s ∘ N.of_nat <$>
    seq (N.to_nat lastBTCTip) (S (N.to_nat curBTCTip) - N.to_nat lastBTCTip)).

(** *** Delegations with their parameters: [keeper/btc_delegations.go] *)

Definition getBTCDelegation (s : BSState) (stakingTxHash : bytes) : option BTCDelegation :=
  btcDelegations s !! stakingTxHash.

Definition GetBTCDelegation (s : BSState) (stakingTxHash : bytes) : res BsErr BTCDelegation :=
  of_option ErrBTCDelegationNotFound (getBTCDelegation s stakingTxHash).

Record btcDelegationWithParams := mkDelWithParams {
  wp_Delegation : BTCDelegation;
  wp_Params : Params;
  wp_PrevDel : option BTCDelegation;
  wp_PrevParams : option Params;
}.

(** The recursion follows the chain of expanded stakes.  A chain visits each
    delegation at most once unless it is cyclic, so fuel for the number of
    delegations is enough; running out of it is the stack overflow of an endless
    recursion. *)
Fixpoint getBTCDelWithParams_loop (fuel : nat) (s : BSState) (stakingTxHash : bytes)
  : res BsErr btcDelegationWithParams :=
  match fuel with
  | O => Panic
  | S fuel =>
      btcDel ← GetBTCDelegation s stakingTxHash;
      bsParams ← of_option ErrParamsVersionNotFound (GetParamsByVersion s (ParamsVersion btcDel));
      match StkExp btcDel with
      | None => mret (mkDelWithParams btcDel bsParams None None)
      | Some e =>
          stkExpInfo ← getBTCDelWithParams_loop fuel s (PreviousStakingTxHash e);
          mret (mkDelWithParams btcDel bsParams (Some (wp_Delegation stkExpInfo))
                  (Some (wp_Params stkExpInfo)))
      end
  end.
Definition getBTCDelWithParams (s : BSState) (stakingTxHash : bytes)
  : res BsErr btcDelegationWithParams :=
  getBTCDelWithParams_loop (S (size (btcDelegations s))) s stakingTxHash.

(** The quorum of the expanded stake, needed of stake expansions only. *)
Definition quorumPreviousStk (s : BSState) (btcDel : BTCDelegation) : res BsErr N :=
  match StkExp btcDel with
  | None => Ok 0%N
  | Some e =>
      delInfo ← getBTCDelWithParams s (PreviousStakingTxHash e);
      mret (CovenantQuorum (wp_Params delInfo))
  end.

Definition BtcDelHasCovenantQuorums (s : BSState) (btcDel : BTCDelegation) (quorum : N)
  : res BsErr bool :=
  q ← quorumPreviousStk s btcDel; mret (HasCovenantQuorums btcDel quorum q).

Definition BtcDelStatus (s : BSState) (btcDel : BTCDelegation) (covenantQuorum btcTipHeight : N)
  : res BsErr BTCDelegationStatus :=
  q ← quorumPreviousStk s btcDel; mret (GetStatus btcDel btcTipHeight covenantQuorum q).

(** ** The light client: [types/expected_keepers.go] *)

Class BTCLightClientKeeper := {
  LightClient : Type;
  lc_GetBaseBTCHeader : LightClient → option BTCHeaderInfo;
  lc_GetTipInfo : LightClient → option BTCHeaderInfo;
  lc_GetHeaderByHash : LightClient → bytes → option BTCHeaderInfo;
}.

Section keeper.
Context `{LC : BTCLightClientKeeper}.
Implicit Types (lc : LightClient) (s : BSState) (ctx : Epoching.HeaderInfo).

(** *** The Bitcoin height at each block: [keeper/btc_height_index.go] *)

Definition ctx_height (ctx : Epoching.HeaderInfo) : N := u64_of_Z (Epoching.hi_Height ctx).

Definition IndexBTCHeight s lc ctx : BSState :=
  match lc_GetTipInfo lc with
  | None => s
  | Some btcTip => set_heights s (<[ctx_height ctx := Height btcTip]> (btcHeights s))
  end.

Definition GetBTCHeightAtAnonHeight {E} s lc (anonHeight : N) : res E N :=
  match btcHeights s !! anonHeight with
  | None => match lc_GetBaseBTCHeader lc with None => Panic | Some b => Ok (Height b) end
  | Some h => if (max_u32 <? h)%N then Panic else Ok h
  end.

Definition GetCurrentBTCHeight {E} s lc ctx : res E N :=
  GetBTCHeightAtAnonHeight s lc (ctx_height ctx).

Definition BeginBlocker s lc ctx : BSState := IndexBTCHeight s lc ctx.

(** *** Reorganisations: [keeper/btc_reorg.go] and [keeper/hooks.go] *)

Definition NewLargestBtcReOrg (rollbackFrom rollbackTo : BTCHeaderInfo) : LargestBtcReOrg :=
  mkLargestBtcReOrg (u32_sub (Height rollbackFrom) (Height rollbackTo)) rollbackFrom rollbackTo.

Definition SetLargestBtcReorg s (newLargestBlockReorg : LargestBtcReOrg) : BSState :=
  match largestBtcReorg s with
  | None => set_reorg s (Some newLargestBlockReorg)
  | Some current =>
      if (BlockDiff newLargestBlockReorg <=? BlockDiff current)%N then s
      else set_reorg s (Some newLargestBlockReorg)
  end.

Definition AfterBTCRollBack s (rollbackFrom rollbackTo : BTCHeaderInfo) : BSState :=
  SetLargestBtcReorg s (NewLargestBtcReOrg rollbackFrom rollbackTo).

Definition HaltIfBtcReorgLargerThanConfirmationDepth {E} s (p : BtcCheckpoint.Params) : res E unit :=
  match largestBtcReorg s with
  | None => Ok tt
  | Some largestReorg =>
      if (BtcCheckpoint.BtcConfirmationDepth p <=? BlockDiff largestReorg)%N then Panic else Ok tt
  end.

Definition EndBlocker {E} s (p : BtcCheckpoint.Params) : res E unit :=
  HaltIfBtcReorgLargerThanConfirmationDepth s p.

(** *** Finality providers: [keeper/finality_providers.go] *)

Definition HasFinalityProvider s (fpBTCPK : bytes) : bool :=
  bool_decide (is_Some (finalityProviders s !! fpBTCPK)).

Definition GetFinalityProvider s (fpBTCPK : bytes) : res BsErr FinalityProvider :=
  of_option ErrFpNotFound (finalityProviders s !! fpBTCPK).

Definition SetFinalityProvider s (fp : FinalityProvider) : BSState :=
  set_fps s (<[fp_BtcPk fp := fp]> (finalityProviders s)).

Definition UpdateFinalityProvider s (fp : FinalityProvider) : res BsErr BSState :=
  require (HasFinalityProvider s (fp_BtcPk fp)) ErrFpNotFound;; mret (SetFinalityProvider s fp).

Definition IsFinalityProviderDeleted s (fpBtcPk : bytes) : bool :=
  bool_decide (fpBtcPk ∈ finalityProvidersDeleted s).

Definition SoftDeleteFinalityProvider s (fpBtcPk : bytes) : BSState :=
  set_deleted s ({[fpBtcPk]} ∪ finalityProvidersDeleted s).

Definition HasFpRegistered s (fpAncAddr_ : list N) : bool := bool_decide (fpAncAddr_ ∈ fpAncAddr s).

Definition SlashFinalityProvider s lc ctx (fpBTCPK : bytes) : res BsErr BSState :=
  fp ← GetFinalityProvider s fpBTCPK;
  require (negb (IsSlashed fp)) ErrFpAlreadySlashed;;
  btcTip ← of_option ErrNoBtcTip (lc_GetTipInfo lc);
  let fp := setSlashed fp (ctx_height ctx) (Height btcTip) in
  let s := SetFinalityProvider s fp in
  mret (addPowerDistUpdateEvent s (Height btcTip) (SlashedFp (fp_BtcPk fp))).

(** The writes before a failing [GetTipInfo] are undone with the transaction. *)
Definition JailFinalityProvider s lc (fpBTCPK : bytes) : res BsErr BSState :=
  fp ← GetFinalityProvider s fpBTCPK;
  require (negb (IsSlashed fp)) ErrFpAlreadySlashed;;
  require (negb (IsJailed fp)) ErrFpAlreadyJailed;;
  let fp := setJailed fp true in
  let s := SetFinalityProvider s fp in
  btcTip ← of_option ErrNoBtcTip (lc_GetTipInfo lc);
  mret (addPowerDistUpdateEvent s (Height btcTip) (JailedFp (fp_BtcPk fp))).

Definition UnjailFinalityProvider s lc (fpBTCPK : bytes) : res BsErr BSState :=
  fp ← GetFinalityProvider s fpBTCPK;
  require (negb (IsSlashed fp)) ErrFpAlreadySlashed;;
  require (IsJailed fp) ErrFpNotJailed;;
  let fp := setJailed fp false in
  let s := SetFinalityProvider s fp in
  btcTip ← of_option ErrNoBtcTip (lc_GetTipInfo lc);
  mret (addPowerDistUpdateEvent s (Height btcTip) (UnjailedFp (fp_BtcPk fp))).
End keeper.
End BtcStaking.
