(* ===== verification/StakingTx.v ===== *)
(** The transactions of BTC staking: building, checking, signing and verifying them.
    [src/anon/btcstaking/staking.go] and the functions on transactions of
    [src/anon/types/btcutils.go].

    A slashing transaction spends a staking or unbonding output, pays a share of it
    to the slashing script and locks the rest for the staker.  An unbonding
    transaction spends the staking output into an unbonding output.  Both are
    signed before the staking transaction is on Bitcoin, so they are checked to be
    final.  Transactions and keys are values: checks for nil have no counterpart.
    The network is fixed. *)
From Stdlib Require Import Strings.Byte.
From stdpp Require Import base numbers list gmap.
From S2P Require Import Prelude Bytes Secp256k1 Eots AdaptorSig Btcd BtcTx StakingScripts BtcStaking.

Module StakingTx.
Import StakingScripts.
Import AdaptorSig (AdaptorSignature, sig_Serialize).

Inductive TxErr :=
  | ErrScript (e : ScriptErr) | ErrAdaptor (e : AdaptorSig.AdaptorErr)
  | ErrInvalidSlashingRate | ErrDustOutputFound | ErrInsufficientSlashingAmount
  | ErrInsufficientChangeAmount | ErrStakingAmount | ErrEmptySlashingScript
  | ErrOutputIdx | ErrNotTaproot | ErrTxSanity | ErrInputs | ErrOutputs | ErrLockTime
  | ErrVersion | ErrWeight | ErrReplaceable | ErrSignatureScript | ErrSlashesTooLittle
  | ErrSlashingAddress | ErrChangeScript | ErrValues | ErrSpendsTooMuch | ErrFee
  | ErrMinFee | ErrWrongInput | ErrMissingPrevOut | ErrSigHash | ErrSign | ErrParseSig
  | ErrSignatureInvalid | ErrDeserialize | ErrMultipleOutputsMatch | ErrOutputNotFound.

Section tx.
Context `{Bt : Btcd} `{C : Curve} {BT : BtcTx} {TS : TxScript}.

(** ** [types/btcutils.go] *)

Definition NewBTCTxFromBytes (txBytes : bytes) : res TxErr MsgTx :=
  of_option ErrDeserialize (MsgTx_Deserialize txBytes).

(** The loop over the outputs; [matchIdx] is the match found so far. *)
Fixpoint match_outputs (output : TxOut) (i : nat) (matchIdx : option nat) (outs : list TxOut)
  : res TxErr (option nat) :=
  match outs with
  | [] => mret matchIdx
  | out :: rest =>
      if negb (Value out =? Value output)%Z then match_outputs output (S i) matchIdx rest
      else if negb (bool_decide (PkScript out = PkScript output))
      then match_outputs output (S i) matchIdx rest
      else match matchIdx with
           | Some _ => Err ErrMultipleOutputsMatch
           | None => match_outputs output (S i) (Some i) rest
           end
  end.

Definition GetOutputIdxInBTCTx (tx : MsgTx) (output : TxOut) : res TxErr N :=
  matchIdx ← match_outputs output 0 None (txOut tx);
  match matchIdx with
  | None => Err ErrOutputNotFound
  | Some i => if (max_u32 <? N.of_nat i)%N then Err ErrOutputIdx else mret (N.of_nat i)
  end.

(** ** Building: [staking.go] *)

Definition MaxTxVersion : Z := 2.
Definition MaxStandardTxWeight : Z := 400000.

Definition isOPReturn (script : bytes) : bool :=
  match script with [] => false | b :: _ => bool_decide (b = OP_RETURN) end.

(** Outputs that are neither [OP_RETURN] nor worth spending. *)
Definition has_dust (outs : list TxOut) : bool :=
  existsb (λ out, negb (isOPReturn (PkScript out)) && IsDust out) outs.

Definition buildSlashingTxFromOutpoint (stakingOutput : OutPoint) (stakingAmount fee : Z)
    (slashingPkScript : bytes) (changeAddress : Address) (slashingRate : BtcStaking.Dec)
  : res TxErr MsgTx :=
  require (negb (stakingAmount <=? 0)%Z) ErrStakingAmount;;
  require (BtcStaking.IsSlashingRateValid slashingRate) ErrInvalidSlashingRate;;
  require (negb (length slashingPkScript =? 0)) ErrEmptySlashingScript;;
  let slashingAmount := MulF64 stakingAmount slashingRate in
  require (negb (slashingAmount <=? 0)%Z) ErrInsufficientSlashingAmount;;
  let changeAmount := int64 (int64 (stakingAmount - slashingAmount) - fee) in
  require (negb (changeAmount <=? 0)%Z) ErrInsufficientChangeAmount;;
  changeAddrScript ← of_option (ErrScript ErrAddress) (PayToAddrScript changeAddress);
  let tx := mkMsgTx 1 [mkTxIn stakingOutput [] [] MaxTxInSequenceNum]
    [mkTxOut slashingAmount slashingPkScript; mkTxOut changeAmount changeAddrScript] 0 in
  require (negb (has_dust (txOut tx))) ErrDustOutputFound;;
  mret tx.

Definition getPossibleStakingOutput (stakingTx : MsgTx) (stakingOutputIdx : N) : res TxErr TxOut :=
  match txOut stakingTx !! N.to_nat stakingOutputIdx with
  | None => Err ErrOutputIdx
  | Some stakingOutput =>
      require (IsPayToTaproot (PkScript stakingOutput)) ErrNotTaproot;; mret stakingOutput
  end.

Definition BuildSlashingTxFromStakingTxStrict (stakingTx : MsgTx) (stakingOutputIdx : N)
    (slashingPkScript : bytes) (stakerPk : point) (slashChangeLockTime : N) (fee : Z)
    (slashingRate : BtcStaking.Dec) : res TxErr MsgTx :=
  stakingOutput ← getPossibleStakingOutput stakingTx stakingOutputIdx;
  let stakingOutpoint := mkOutPoint (TxHash stakingTx) stakingOutputIdx in
  si ← map_err ErrScript (BuildRelativeTimelockTaprootScript stakerPk slashChangeLockTime);
  buildSlashingTxFromOutpoint stakingOutpoint (Value stakingOutput) fee slashingPkScript
    (TapAddress si) slashingRate.

(** ** Checking *)

Definition IsTransferTx (tx : MsgTx) : res TxErr unit :=
  require (length (txIn tx) =? 1) ErrInputs;; require (length (txOut tx) =? 1) ErrOutputs.

Definition IsSimpleTransfer (tx : MsgTx) : res TxErr unit :=
  IsTransferTx tx;;
  match txIn tx with
  | [] => Panic
  | in0 :: _ =>
      require (Sequence in0 =? MaxTxInSequenceNum)%N ErrReplaceable;;
      require (LockTime tx =? 0)%N ErrLockTime
  end.

Definition check_input (_ : unit) (i : TxIn) : res TxErr unit :=
  require (Sequence i =? MaxTxInSequenceNum)%N ErrReplaceable;;
  require (length (SignatureScript i) =? 0) ErrSignatureScript.

Definition CheckPreSignedTxSanity (tx : MsgTx) (numInputs numOutputs : N)
    (minTxVersion maxTxVersion : Z) : res TxErr unit :=
  require (CheckTransactionSanity (NewTx tx)) ErrTxSanity;;
  require (N.of_nat (length (txIn tx)) =? numInputs)%N ErrInputs;;
  require (N.of_nat (length (txOut tx)) =? numOutputs)%N ErrOutputs;;
  require (LockTime tx =? 0)%N ErrLockTime;;
  require (negb ((maxTxVersion <? Version tx)%Z || (Version tx <? minTxVersion)%Z)) ErrVersion;;
  require (negb (MaxStandardTxWeight <? GetTransactionWeight tx)%Z) ErrWeight;;
  fold_res check_input tt (txIn tx).

Definition CheckPreSignedUnbondingTxSanity (tx : MsgTx) : res TxErr unit :=
  CheckPreSignedTxSanity tx 1 1 MaxTxVersion MaxTxVersion.

Definition CheckPreSignedSlashingTxSanity (tx : MsgTx) : res TxErr unit :=
  CheckPreSignedTxSanity tx 1 2 1 MaxTxVersion.

Definition validateSlashingTx (slashingTx : MsgTx) (slashingPkScript : bytes)
    (slashingRate : BtcStaking.Dec) (slashingTxMinFee stakingOutputValue : Z) (stakerPk : point)
    (slashingChangeLockTime : N) : res TxErr unit :=
  CheckPreSignedSlashingTxSanity slashingTx;;
  let minSlashingAmount := MulF64 stakingOutputValue slashingRate in
  match txOut slashingTx with
  | out0 :: out1 :: _ =>
      require (negb (Value out0 <? minSlashingAmount)%Z) ErrSlashesTooLittle;;
      require (bool_decide (PkScript out0 = slashingPkScript)) ErrSlashingAddress;;
      si ← map_err ErrScript (BuildRelativeTimelockTaprootScript stakerPk slashingChangeLockTime);
      require (bool_decide (PkScript out1 = rt_PkScript si)) ErrChangeScript;;
      require (negb (has_dust (txOut slashingTx))) ErrDustOutputFound;;
      require (negb ((Value out0 <=? 0)%Z || (stakingOutputValue <=? 0)%Z)) ErrValues;;
      let slashingTxOutSum :=
        foldl (λ sum out, int64 (sum + Value out)) 0%Z (txOut slashingTx) in
      require (negb (stakingOutputValue <=? slashingTxOutSum)%Z) ErrSpendsTooMuch;;
      require (negb (int64 (stakingOutputValue - slashingTxOutSum) <? slashingTxMinFee)%Z) ErrFee
  | _ => Panic
  end.

Definition CheckSlashingTxMatchFundingTx (slashingTx fundingTransaction : MsgTx)
    (fundingOutputIdx : N) (slashingTxMinFee : Z) (slashingRate : BtcStaking.Dec)
    (slashingPkScript : bytes) (stakerPk : point) (slashingChangeLockTime : N) : res TxErr unit :=
  require (CheckTransactionSanity (NewTx fundingTransaction)) ErrTxSanity;;
  require (negb (slashingTxMinFee <=? 0)%Z) ErrMinFee;;
  require (BtcStaking.IsSlashingRateValid slashingRate) ErrInvalidSlashingRate;;
  match txOut fundingTransaction !! N.to_nat fundingOutputIdx with
  | None => Err ErrOutputIdx
  | Some stakingOutput =>
      validateSlashingTx slashingTx slashingPkScript slashingRate slashingTxMinFee
        (Value stakingOutput) stakerPk slashingChangeLockTime;;
      match txIn slashingTx with
      | [] => Panic
      | in0 :: _ =>
          require (bool_decide (op_Hash (PreviousOutPoint in0) = TxHash fundingTransaction))
            ErrWrongInput;;
          require (op_Index (PreviousOutPoint in0) =? fundingOutputIdx)%N ErrWrongInput
      end
  end.

(** ** Signing *)

(** The fetcher of a map from outpoints to outputs: the last entry of an outpoint
    counts. *)
Definition prev_outs (m : list (OutPoint * TxOut)) : PrevOuts :=
  λ op, snd <$> last (filter (λ p, p.1 = op) m).

(** [NewCannedPrevOutputFetcher]: one output for every outpoint. *)
Definition canned (out : TxOut) : PrevOuts := λ _, Some out.

Definition signTaprootScriptSpendInput (txToSign : MsgTx) (inputIdxToSign : nat)
    (prevOutputs : list (OutPoint * TxOut)) (privKey : Z) (script : bytes) (sigHashType : N)
  : res TxErr (N * Z) :=
  match txIn txToSign !! inputIdxToSign with
  | None => Err ErrInputs
  | Some inputToSign =>
      match prev_outs prevOutputs (PreviousOutPoint inputToSign) with
      | None => Err ErrMissingPrevOut
      | Some _ =>
          sig ← of_option ErrSign (RawTxInTapscriptSignature txToSign inputIdxToSign
                                     (prev_outs prevOutputs) script sigHashType privKey);
          of_option ErrParseSig (ParseSignature sig)
      end
  end.

Definition SignTxWithOneScriptSpendInputFromTapLeaf (txToSign : MsgTx) (fundingOutput : TxOut)
    (privKey : Z) (script : bytes) : res TxErr (N * Z) :=
  match txIn txToSign with
  | [in0] => signTaprootScriptSpendInput txToSign 0 [(PreviousOutPoint in0, fundingOutput)]
               privKey script SigHashDefault
  | _ => Err ErrInputs
  end.

Definition SignTxWithOneScriptSpendInputFromScript (txToSign : MsgTx) (fundingOutput : TxOut)
    (privKey : Z) (script : bytes) : res TxErr (N * Z) :=
  SignTxWithOneScriptSpendInputFromTapLeaf txToSign fundingOutput privKey script.

Definition SignTxForFirstScriptSpendWithTwoInputsFromTapLeaf (txToSign : MsgTx)
    (fundingOutputToSignIdx0 fundingOutputIdx1 : TxOut) (privKey : Z) (script : bytes)
  : res TxErr (N * Z) :=
  match txIn txToSign with
  | [in0; in1] =>
      signTaprootScriptSpendInput txToSign 0
        [(PreviousOutPoint in0, fundingOutputToSignIdx0);
         (PreviousOutPoint in1, fundingOutputIdx1)] privKey script SigHashDefault
  | _ => Err ErrInputs
  end.

Definition SignTxForFirstScriptSpendWithTwoInputsFromScript (txToSign : MsgTx)
    (fundingOutputToSignIdx0 fundingOutputIdx1 : TxOut) (privKey : Z) (script : bytes)
  : res TxErr (N * Z) :=
  SignTxForFirstScriptSpendWithTwoInputsFromTapLeaf txToSign fundingOutputToSignIdx0
    fundingOutputIdx1 privKey script.

Definition checkTxBeforeSigning (txToSign fundingTx : MsgTx) (fundingOutputIdx : N)
  : res TxErr unit :=
  match txIn txToSign with
  | [in0] =>
      require (fundingOutputIdx <? N.of_nat (length (txOut fundingTx)))%N ErrOutputIdx;;
      require (bool_decide (op_Hash (PreviousOutPoint in0) = TxHash fundingTx)) ErrWrongInput;;
      require (op_Index (PreviousOutPoint in0) =? fundingOutputIdx)%N ErrWrongInput
  | _ => Err ErrInputs
  end.

Definition SignTxWithOneScriptSpendInputStrict (txToSign fundingTx : MsgTx) (fundingOutputIdx : N)
    (signedScriptPath : bytes) (privKey : Z) : res TxErr (N * Z) :=
  checkTxBeforeSigning txToSign fundingTx fundingOutputIdx;;
  match txOut fundingTx !! N.to_nat fundingOutputIdx with
  | None => Panic
  | Some fundingOutput =>
      SignTxWithOneScriptSpendInputFromScript txToSign fundingOutput privKey signedScriptPath
  end.

(** The adaptor signature takes randomness: auxiliary data and two blindings. *)
Definition EncSignTxWithOneScriptSpendInputStrict (rnd rnd' : option bytes) (aux : bytes)
    (txToSign fundingTx : MsgTx) (fundingOutputIdx : N) (signedScriptPath : bytes) (privKey : Z)
    (encKey : point) : res TxErr AdaptorSignature :=
  checkTxBeforeSigning txToSign fundingTx fundingOutputIdx;;
  match txOut fundingTx !! N.to_nat fundingOutputIdx with
  | None => Panic
  | Some fundingOutput =>
      sigHash ← of_option ErrSigHash
        (CalcTapscriptSignaturehash SigHashDefault txToSign 0 (canned fundingOutput)
           signedScriptPath);
      map_err ErrAdaptor (AdaptorSig.EncSignWithAuxData rnd rnd' privKey encKey sigHash aux)
  end.

(** ** Verifying *)

Definition verifyTaprootScriptSpendSignature (tx : MsgTx) (inputIdx : nat)
    (prevOutputs : list (OutPoint * TxOut)) (script : bytes) (pubKey : point) (signature : bytes)
  : res TxErr unit :=
  require (inputIdx <? length (txIn tx)) ErrInputs;;
  sigHash ← of_option ErrSigHash
    (CalcTapscriptSignaturehash SigHashDefault tx inputIdx (prev_outs prevOutputs) script);
  parsedSig ← of_option ErrParseSig (ParseSignature signature);
  require (sig_Verify parsedSig sigHash pubKey) ErrSignatureInvalid.

Definition VerifyTransactionSigWithOutput (transaction : MsgTx) (fundingOutput : TxOut)
    (script : bytes) (pubKey : point) (signature : bytes) : res TxErr unit :=
  match txIn transaction with
  | [in0] => verifyTaprootScriptSpendSignature transaction 0
               [(PreviousOutPoint in0, fundingOutput)] script pubKey signature
  | _ => Err ErrInputs
  end.

Definition VerifyTransactionSigStkExp (stkSpendTx : MsgTx)
    (fundingOutputSignedIdx0 fundingOutputIdx1 : TxOut) (script : bytes) (pubKey : point)
    (signatureOverPrevStkSpend : bytes) : res TxErr unit :=
  match txIn stkSpendTx with
  | [in0; in1] =>
      verifyTaprootScriptSpendSignature stkSpendTx 0
        [(PreviousOutPoint in0, fundingOutputSignedIdx0); (PreviousOutPoint in1, fundingOutputIdx1)]
        script pubKey signatureOverPrevStkSpend
  | _ => Err ErrInputs
  end.

Definition EncVerifyTransactionSigWithOutput (transaction : MsgTx) (fundingOut : TxOut)
    (script : bytes) (pubKey encKey : point) (signature : AdaptorSignature) : res TxErr unit :=
  match txIn transaction with
  | [_] =>
      sigHash ← of_option ErrSigHash
        (CalcTapscriptSignaturehash SigHashDefault transaction 0 (canned fundingOut) script);
      map_err ErrAdaptor (AdaptorSig.EncVerify signature pubKey encKey sigHash)
  | _ => Err ErrInputs
  end.

(** Writing an output to a buffer does not fail. *)
Definition SerializeTxOut (out : TxOut) : res TxErr bytes := mret (WriteTxOut out).
Definition DeserializeTxOut (serializedBytes : bytes) : res TxErr TxOut :=
  of_option ErrDeserialize (ReadTxOut serializedBytes).

(** ** How Bitcoin verifies *)

(** A signature of 64 bytes by BIP-341, for input 0 of a transaction that spends
    one output; longer ones, with a hash type, are not made by the code. *)
Definition tapscript_checksig (tx : MsgTx) (spent : TxOut) (script pk sig : bytes) : bool :=
  match ParsePubKey pk, ParseSignature sig,
        CalcTapscriptSignaturehash SigHashDefault tx 0 (canned spent) script with
  | Some key, Some s, Some h => sig_Verify s h key
  | _, _, _ => false
  end.
End tx.

(** ** Correctness *)
Section correct.
Context `{Bt : Btcd} `{CL : CurveLaws} {BT : BtcTx} {TS : TxScript} {BTL : BtcTxLaws}
  {TSL : TxScriptLaws}.

Lemma prev_outs_single op out : prev_outs [(op, out)] op = Some out.
Proof. unfold prev_outs. by rewrite filter_cons_True. Qed.

(** The single input of a transaction is looked up alike by both fetchers. *)
Lemma sighash_single tx in0 out script : txIn tx = [in0] →
  CalcTapscriptSignaturehash SigHashDefault tx 0 (prev_outs [(PreviousOutPoint in0, out)]) script =
  CalcTapscriptSignaturehash SigHashDefault tx 0 (canned out) script.
Proof.
  intros Hin. apply sighash_proper. rewrite Hin. intros t ->%list_elem_of_singleton.
  apply prev_outs_single.
Qed.

Lemma sighash_checksig tx w out script pk sig :
  tapscript_checksig (set_witness tx 0 w) out script pk sig = tapscript_checksig tx out script pk sig.
Proof. unfold tapscript_checksig. by rewrite sighash_witness. Qed.

(** BIP-340 verification sees a key only through its x coordinate. *)
Lemma sig_Verify_x sig h P Q :
  P ≠ Infinity → ParsePubKey (SerializePubKey P) = Some Q → sig_Verify sig h Q = sig_Verify sig h P.
Proof.
  intros HP HQ. rewrite !sig_Verify_spec. destruct (base_gen P) as [k ->].
  rewrite Eots.parse_serialized in HQ by done. injection HQ as <-.
  by rewrite Eots.SerializePubKey_even.
Qed.

(** What the code verifies is what Bitcoin verifies. *)
Lemma VerifyTransactionSig_checksig tx out script pubKey sig :
  pubKey ≠ Infinity →
  VerifyTransactionSigWithOutput tx out script pubKey sig = Ok tt ↔
  length (txIn tx) = 1 ∧ tapscript_checksig tx out script (SerializePubKey pubKey) sig = true.
Proof.
  intros Hpk. unfold VerifyTransactionSigWithOutput, verifyTaprootScriptSpendSignature.
  destruct (txIn tx) as [|in0 [|]] eqn:Hin; simpl; [naive_solver| |naive_solver].
  rewrite (sighash_single tx in0) by done. unfold tapscript_checksig.
  assert (∃ Q, ParsePubKey (SerializePubKey pubKey) = Some Q) as [Q HQ].
  { destruct (base_gen pubKey) as [k ->]. eexists. by apply Eots.parse_serialized. }
  rewrite HQ. destruct (CalcTapscriptSignaturehash _ _ _ _ _) as [h|]; simpl;
    [|destruct (ParseSignature sig); naive_solver].
  destruct (ParseSignature sig) as [s|]; simpl; [|naive_solver].
  rewrite require_Ok, (sig_Verify_x s h pubKey Q) by done. naive_solver.
Qed.

Lemma check_input_Ok u i v :
  check_input u i = Ok v ↔ Sequence i = MaxTxInSequenceNum ∧ SignatureScript i = [].
Proof.
  unfold check_input. rewrite require_bind_Ok, require_Ok, N.eqb_eq, Nat.eqb_eq, length_zero_iff_nil.
  done.
Qed.

Lemma check_inputs_Ok u ins v :
  fold_res check_input u ins = Ok v ↔
  Forall (λ i, Sequence i = MaxTxInSequenceNum ∧ SignatureScript i = []) ins.
Proof.
  revert u. induction ins as [|i ins IH]; intros u; [destruct u, v; split; [constructor|done]|].
  cbn [fold_res]. rewrite bind_Ok, Forall_cons. setoid_rewrite check_input_Ok. setoid_rewrite IH.
  split; [naive_solver|]. intros [? ?]. by exists tt.
Qed.

Lemma CheckPreSignedTxSanity_Ok tx ni no vmin vmax :
  CheckPreSignedTxSanity tx ni no vmin vmax = Ok tt ↔
  CheckTransactionSanity (NewTx tx) = true ∧ N.of_nat (length (txIn tx)) = ni ∧
  N.of_nat (length (txOut tx)) = no ∧ LockTime tx = 0%N ∧ (vmin ≤ Version tx ≤ vmax)%Z ∧
  (GetTransactionWeight tx ≤ MaxStandardTxWeight)%Z ∧
  Forall (λ i, Sequence i = MaxTxInSequenceNum ∧ SignatureScript i = []) (txIn tx).
Proof.
  unfold CheckPreSignedTxSanity.
  rewrite !require_bind_Ok, check_inputs_Ok, !N.eqb_eq, !negb_true_iff, orb_false_iff, !Z.ltb_ge.
  tauto.
Qed.

(** The output of [BuildRelativeTimelockTaprootScript] is the staker's after the
    timelock. *)
Lemma relative_timelock_spends checksig csv pk lockTime si :
  BuildRelativeTimelockTaprootScript pk lockTime = Ok si → (lockTime < 2 ^ 16)%N →
  ∀ sig, ∃ w, CreateTimeLockPathWitness (rt_SpendInfo si) (Some sig) = Ok w ∧
    (output_accepts checksig csv (rt_PkScript si) w = true ↔
     sig_ok checksig (RevealedLeaf (rt_SpendInfo si)) pk (Some sig) ∧
     csv (Z.of_N lockTime) = true ∧ lockTime ≠ 0%N).
Proof.
  unfold BuildRelativeTimelockTaprootScript. intros Hsi Hlock. inv_ok.
  match goal with H : buildTimeLockScript _ _ = Ok ?b |- _ => rename H into Hb, b into script end.
  match goal with H : newTaprootScriptHolder _ _ = Ok ?h |- _ => rename H into Hh, h into sh end.
  destruct (FirstProof (scriptTree sh)) as [proof|] eqn:Hproof; [|done]. inv_ok.
  match goal with H : DeriveTaprootAddress _ _ = Ok _ |- _ => rename H into Ha end.
  match goal with H : PayToAddrScript _ = Some ?b |- _ => rename H into Hpk, b into pkScript end.
  assert (taprootPkScript sh = Ok pkScript) as Hpk'.
  { unfold taprootPkScript, DeriveTaprootPkScript. rewrite Ha. simpl. by rewrite Hpk. }
  destruct (timelock_witness checksig csv pk lockTime script [script] sh pkScript Hb Hlock Hh Hpk')
    as (si & Hsi & Hw); [by left|].
  assert (internalPubKey sh = Some unspendableKeyPathKey ∧
    scriptTree sh = AssembleTaprootScriptTree [script]) as [Hkey Htree].
  { unfold newTaprootScriptHolder in Hh. by inv_ok. }
  rewrite Htree, FirstProof_single, <- Htree in Hproof.
  unfold scriptSpendInfoByName in Hsi. rewrite Hproof in Hsi. simpl in Hsi. rewrite Hkey in Hsi.
  injection Hsi as <-. done.
Qed.

(** The sum of the two outputs does not wrap around. *)
Lemma out_sum_two tx out0 out1 :
  CheckTransactionSanity (NewTx tx) = true → txOut tx = [out0; out1] →
  (0 ≤ Value out0 ∧ 0 ≤ Value out1 ∧ Value out0 + Value out1 ≤ MaxSatoshi)%Z ∧
  foldl (λ sum out, int64 (sum + Value out)) 0%Z (txOut tx) = (Value out0 + Value out1)%Z.
Proof.
  intros [Hpos Hsum]%CheckTransactionSanity_amounts Hout. rewrite Hout in *.
  rewrite !Forall_cons in Hpos. cbn [foldr] in Hsum. cbn [foldl]. unfold MaxSatoshi in *.
  split; [lia|]. rewrite !int64_small by (rewrite ?int64_small; lia). lia.
Qed.

Lemma funding_amount tx idx out :
  CheckTransactionSanity (NewTx tx) = true → txOut tx !! idx = Some out →
  (0 ≤ Value out ≤ MaxSatoshi)%Z.
Proof.
  intros [Hpos Hsum]%CheckTransactionSanity_amounts. revert idx Hpos Hsum.
  assert (∀ outs, Forall (λ o, 0 ≤ Value o)%Z outs →
    0 ≤ foldr (λ o sum, Value o + sum) 0 outs)%Z as Hnn.
  { induction 1; simpl; lia. }
  induction (txOut tx) as [|o outs IH]; intros idx Hpos Hsum Hout; [done|].
  apply Forall_cons in Hpos as [Ho Hpos]. cbn [foldr] in Hsum. specialize (Hnn _ Hpos).
  destruct idx as [|idx]; simplify_eq/=; [lia|]. apply (IH idx); [done|lia|done].
Qed.

Lemma validateSlashingTx_Ok tx slashingPkScript rate minFee value stakerPk lockTime :
  (0 ≤ value ≤ MaxSatoshi)%Z →
  validateSlashingTx tx slashingPkScript rate minFee value stakerPk lockTime = Ok tt ↔
  CheckPreSignedSlashingTxSanity tx = Ok tt ∧
  ∃ slashed change si, txOut tx = [slashed; change] ∧
    BuildRelativeTimelockTaprootScript stakerPk lockTime = Ok si ∧
    PkScript slashed = slashingPkScript ∧ PkScript change = rt_PkScript si ∧
    (MulF64 value rate ≤ Value slashed)%Z ∧ (0 < Value slashed)%Z ∧
    has_dust (txOut tx) = false ∧
    (0 < value - (Value slashed + Value change) ∧ minFee ≤ value - (Value slashed + Value change))%Z.
Proof.
  intros Hvalue.
  assert (CheckPreSignedSlashingTxSanity tx = Ok tt → ∃ out0 out1, txOut tx = [out0; out1] ∧
    (0 ≤ Value out1)%Z ∧ (-2 ^ 63 ≤ value - (Value out0 + Value out1) < 2 ^ 63)%Z ∧
    foldl (λ sum out, int64 (sum + Value out)) 0%Z (txOut tx) = (Value out0 + Value out1)%Z) as Htwo.
  { intros (Hsane & _ & Hlen & _)%CheckPreSignedTxSanity_Ok.
    destruct (txOut tx) as [|out0 [|out1 [|]]] eqn:Hout; try (cbn in Hlen; lia).
    destruct (out_sum_two _ _ _ Hsane Hout) as [Hr Hsum]. rewrite Hout in Hsum.
    unfold MaxSatoshi in *. exists out0, out1. split_and!; done || lia. }
  unfold validateSlashingTx. rewrite bind_Ok. split.
  - intros ([] & Hs & Hm). split; [done|]. destruct (Htwo Hs) as (out0 & out1 & Hout & Hpos1 & Hr & Hsum).
    rewrite Hsum in Hm. rewrite Hout in *. cbv zeta in Hm. inv_ok. bool_to_Prop.
    rewrite int64_small in * by done. eexists _, _, _. split_and!; done || lia.
  - intros (Hs & slashed & change & si & Hout & Hsi & Hs1 & Hc1 & Hmul & Hpos & Hdust & Hlt & Hfee).
    exists tt. split; [done|]. destruct (Htwo Hs) as (out0 & out1 & Hout' & Hpos1 & Hr & Hsum).
    rewrite Hsum. rewrite Hout in *. injection Hout' as <- <-. cbv zeta.
    rewrite Hsi, Hdust, !bool_decide_true, int64_small by done.
    repeat (rewrite (proj2 (Z.ltb_ge _ _)) by lia). repeat (rewrite (proj2 (Z.leb_gt _ _)) by lia).
    cbn. by rewrite bool_decide_true.
Qed.

(** C17: A slashing transaction that passes the checks is final, spends exactly the
    funding output it is checked against, pays at least the slashing share of it to
    the slashing script and at least the minimum fee, and locks all the rest in an
    output that the staker, and nobody else by that script, can spend after the
    timelock. *)
Theorem slashing_tx_sound slashingTx fundingTx idx minFee rate slashingPkScript stakerPk lockTime
    checksig csv :
  CheckSlashingTxMatchFundingTx slashingTx fundingTx idx minFee rate slashingPkScript stakerPk
    lockTime = Ok tt →
  (lockTime < 2 ^ 16)%N →
  ∃ in0 slashed change funding si,
    txIn slashingTx = [in0] ∧ txOut slashingTx = [slashed; change] ∧
    LockTime slashingTx = 0%N ∧ Sequence in0 = MaxTxInSequenceNum ∧
    PreviousOutPoint in0 = mkOutPoint (TxHash fundingTx) idx ∧
    txOut fundingTx !! N.to_nat idx = Some funding ∧
    PkScript slashed = slashingPkScript ∧ (MulF64 (Value funding) rate ≤ Value slashed)%Z ∧
    (0 < minFee ≤ Value funding - (Value slashed + Value change))%Z ∧
    ∀ sig, ∃ w, CreateTimeLockPathWitness si (Some sig) = Ok w ∧
      (output_accepts checksig csv (PkScript change) w = true ↔
       sig_ok checksig (RevealedLeaf si) stakerPk (Some sig) ∧
       csv (Z.of_N lockTime) = true ∧ lockTime ≠ 0%N).
Proof.
  unfold CheckSlashingTxMatchFundingTx. intros Hc Hlock. inv_ok.
  destruct (txOut fundingTx !! N.to_nat idx) as [funding|] eqn:Hf; [|done]. inv_ok.
  match goal with x : unit, H : validateSlashingTx _ _ _ _ _ _ _ = Ok ?x |- _ =>
    destruct x; apply validateSlashingTx_Ok in H as
      (Hs%CheckPreSignedTxSanity_Ok & slashed & change & si & Hout & Hsi & Hv); [|by eapply funding_amount]
  end.
  destruct Hs as (_ & Hlen & _ & Hl & _ & _ & Hin).
  destruct (txIn slashingTx) as [|in0 [|]] eqn:Htx; try (cbn in Hlen; lia).
  inv_ok. bool_to_Prop. apply Forall_cons in Hin as [[Hseq _] _].
  exists in0, slashed, change, funding, (rt_SpendInfo si).
  destruct Hv as (Hs1 & -> & Hmul & Hpos & _ & Hlt & Hfee).
  split_and!; try done; try lia.
  - destruct (PreviousOutPoint in0). simplify_eq/=. done.
  - by apply relative_timelock_spends.
Qed.

Lemma relative_timelock_address pk lockTime si :
  BuildRelativeTimelockTaprootScript pk lockTime = Ok si →
  PayToAddrScript (TapAddress si) = Some (rt_PkScript si).
Proof.
  unfold BuildRelativeTimelockTaprootScript. intros Hsi. inv_ok.
  destruct (FirstProof _); [|done]. by inv_ok.
Qed.

Lemma IsSlashingRateValid_range rate :
  BtcStaking.IsSlashingRateValid rate = true → (0 < rate < 10 ^ 18)%Z.
Proof.
  unfold BtcStaking.IsSlashingRateValid, BtcStaking.LegacyOneDec.
  destruct (Z.leb_spec rate 0), (Z.leb_spec (10 ^ 18) rate); done || lia.
Qed.

(** A slashing transaction built for an output passes the checks against that
    output, when its fee is at least the minimum fee and Bitcoin's own rules (which
    the builder does not check) hold for it. *)
Theorem built_slashing_tx_accepted stakingTx idx slashingPkScript stakerPk lockTime fee minFee rate tx :
  BuildSlashingTxFromStakingTxStrict stakingTx idx slashingPkScript stakerPk lockTime fee rate
    = Ok tx →
  CheckTransactionSanity (NewTx stakingTx) = true → (0 < minFee ≤ fee)%Z → (fee ≤ MaxSatoshi)%Z →
  CheckTransactionSanity (NewTx tx) = true → (GetTransactionWeight tx ≤ MaxStandardTxWeight)%Z →
  CheckSlashingTxMatchFundingTx tx stakingTx idx minFee rate slashingPkScript stakerPk lockTime
    = Ok tt.
Proof.
  unfold BuildSlashingTxFromStakingTxStrict, buildSlashingTxFromOutpoint, getPossibleStakingOutput.
  intros Hb Hsane Hmin Hfee Htx Hw. cbv zeta in Hb.
  destruct (txOut stakingTx !! N.to_nat idx) as [out|] eqn:Hf; [|done]. inv_ok. bool_to_Prop.
  match type of Hf with _ = Some ?o => rename o into funding end.
  pose proof (funding_amount _ _ _ Hsane Hf) as Hamount.
  match goal with H : BtcStaking.IsSlashingRateValid rate = true |- _ =>
    rename H into Hrate; pose proof (IsSlashingRateValid_range _ Hrate) as Hrange end.
  pose proof (MulF64_share _ _ Hamount Hrange) as Hshare. unfold MaxSatoshi in Hamount, Hfee.
  rewrite int64_small in * by (rewrite ?int64_small; lia).
  rewrite (int64_small (Value funding - _)) in * by lia.
  match goal with H : BuildRelativeTimelockTaprootScript _ _ = Ok _ |- _ =>
    pose proof (relative_timelock_address _ _ _ H) as Haddr; rename H into Hsi end.
  simplify_eq. unfold CheckSlashingTxMatchFundingTx. rewrite Hsane, Hrate, Hf.
  rewrite (proj2 (Z.leb_gt minFee 0)) by lia. cbn [negb require mbind res_bind].
  assert (∀ {A} (r : res TxErr unit) (k : unit → res TxErr A), r = Ok tt → r ≫= k = k tt) as Hbind
    by by intros A r k ->.
  rewrite Hbind.
  - cbn. rewrite bool_decide_true, N.eqb_refl by done. done.
  - apply validateSlashingTx_Ok; [done|]. split.
    + apply CheckPreSignedTxSanity_Ok. split_and!; try done; by repeat constructor.
    + eexists _, _, _. split_and!; try done; cbn [Value]; lia.
Qed.
End correct.
End StakingTx.
