(* ===== verification/StakingSlash.v ===== *)
(** Slashing transactions of delegations.
    [src/anon/x/btcstaking/types/btc_slashing_tx.go], the parts of
    [types/btc_delegation.go], [types/btc_undelegation.go] and
    [types/btcstaking.go] that build witnesses, and
    [src/anon/types/btc_schnorr_pk.go].

    When a finality provider has given its key away, anybody completes the
    signatures of the slashing transactions of all its delegations: the adaptor
    signatures of the covenant committee are decrypted with the key, the provider's
    signature is made with it, and the staker's signature was given in advance.
    The theorem: from verified signatures and the key, the code makes a transaction
    that Bitcoin accepts. *)
From Stdlib Require Import Strings.Byte.
From stdpp Require Import base numbers list sorting gmap.
From S2P Require Import Prelude Bytes Secp256k1 Eots AdaptorSig Btcd BtcTx StakingScripts BtcStaking StakingTx.

Module StakingSlash.
Import StakingScripts StakingTx BtcStaking.
Import AdaptorSig (AdaptorSignature, sig_Serialize).

Inductive SlashErr :=
  | ErrTx (e : TxErr) | ErrAsig (e : AdaptorSig.AdaptorErr) | ErrSc (e : ScriptErr)
  | ErrCovenantSig | ErrFpNotInDelegation | ErrNotEnoughCovenantSigs | ErrFpIdxOutOfScope
  | ErrParseKey | ErrInvalidDelegationState | ErrFpIdx | ErrCovenantPK.

Section slash.
Context `{Bt : Btcd} `{C : Curve} {BT : BtcTx} {TS : TxScript}.

(** ** Keys: [types/btc_schnorr_pk.go] *)

Definition MustToBTCPK {E} (pk : bytes) : res E point :=
  match ParsePubKey pk with Some key => Ok key | None => Panic end.

Definition NewBIP340PubKeyFromBTCPK (btcPK : point) : bytes := SerializePubKey btcPK.

Fixpoint NewBTCPKsFromBIP340PKs {E} (e : E) (pks : list bytes) : res E (list point) :=
  match pks with
  | [] => mret []
  | pk :: rest =>
      btcPK ← of_option e (ParsePubKey pk);
      btcPks ← NewBTCPKsFromBIP340PKs e rest;
      mret (btcPK :: btcPks)
  end.

Definition pk_ge (pk1 pk2 : bytes) : Prop := bytes_le pk2 pk1.
#[global] Instance pk_ge_dec pk1 pk2 : Decision (pk_ge pk1 pk2).
Proof. unfold pk_ge. apply _. Defined.

(** Reverse lexicographic order. *)
Definition SortBIP340PKs (keys : list bytes) : list bytes := merge_sort pk_ge keys.

(** [MustToBTCSig]. *)
Definition MustToBTCSig {E} (sig : bytes) : res E (N * Z) :=
  match ParseSignature sig with Some s => Ok s | None => Panic end.

(** ** Slashing transactions: [types/btc_slashing_tx.go] *)

Definition ToMsgTx (tx : bytes) : res SlashErr MsgTx := map_err ErrTx (NewBTCTxFromBytes tx).

Definition slashing_Sign (tx : bytes) (fundingTx : MsgTx) (spendOutputIndex : N)
    (slashingPkScriptPath : bytes) (sk : Z) : res SlashErr bytes :=
  msgTx ← ToMsgTx tx;
  schnorrSig ← map_err ErrTx (SignTxWithOneScriptSpendInputStrict msgTx fundingTx spendOutputIndex
                                slashingPkScriptPath sk);
  mret (sig_Serialize schnorrSig).

Definition slashing_VerifySignature (tx : bytes) (fundingOut : TxOut) (slashingPkScriptPath : bytes)
    (pk : point) (sig : bytes) : res SlashErr unit :=
  msgTx ← ToMsgTx tx;
  map_err ErrTx (VerifyTransactionSigWithOutput msgTx fundingOut slashingPkScriptPath pk sig).

Definition slashing_EncSign (rnd rnd' : option bytes) (aux : bytes) (tx : bytes)
    (fundingMsgTx : MsgTx) (spendOutputIndex : N) (slashingPkScriptPath : bytes) (sk : Z)
    (encKey : point) : res SlashErr AdaptorSignature :=
  msgTx ← ToMsgTx tx;
  map_err ErrTx (EncSignTxWithOneScriptSpendInputStrict rnd rnd' aux msgTx fundingMsgTx
                   spendOutputIndex slashingPkScriptPath sk encKey).

Definition EncVerifyAdaptorSignature (tx : bytes) (fundingOut : TxOut)
    (slashingPkScriptPath : bytes) (pk encKey : point) (sig : AdaptorSignature)
  : res SlashErr unit :=
  msgTx ← ToMsgTx tx;
  map_err ErrTx (EncVerifyTransactionSigWithOutput msgTx fundingOut slashingPkScriptPath pk encKey sig).

(** The loop over the signatures; a signature without a key panics. *)
Fixpoint ParseEncVerifyAdaptorSignatures (tx : bytes) (fundingOut : TxOut)
    (slashingSpendInfo : SpendInfo) (pk : bytes) (valPKs sigs : list bytes)
  : res SlashErr (list AdaptorSignature) :=
  match sigs with
  | [] => mret []
  | sig :: sigs =>
      adaptorSig ← map_err ErrAsig (AdaptorSig.NewAdaptorSignatureFromBytes sig);
      match valPKs with
      | [] => Panic
      | valPK :: valPKs =>
          valKey ← MustToBTCPK valPK;
          encKey ← map_err ErrAsig (AdaptorSig.NewEncryptionKeyFromBTCPK valKey);
          pkKey ← MustToBTCPK pk;
          map_err (λ _, ErrCovenantSig)
            (EncVerifyAdaptorSignature tx fundingOut (GetPkScriptPath slashingSpendInfo) pkKey
               encKey adaptorSig);;
          adaptorSigs ← ParseEncVerifyAdaptorSignatures tx fundingOut slashingSpendInfo pk valPKs sigs;
          mret (adaptorSig :: adaptorSigs)
      end
  end.

Definition EncVerifyAdaptorSignatures (tx : bytes) (fundingOut : TxOut)
    (slashingSpendInfo : SpendInfo) (pk : bytes) (valPKs sigs : list bytes) : res SlashErr unit :=
  ParseEncVerifyAdaptorSignatures tx fundingOut slashingSpendInfo pk valPKs sigs;; mret tt.

Definition findFPIdxInWitness (fpSK : Z) (fpBTCPKs : list bytes) : res SlashErr nat :=
  let fpBTCPK := NewBIP340PubKeyFromBTCPK (ScalarBaseMult fpSK) in
  match list_find (λ pk, pk = fpBTCPK) (SortBIP340PKs fpBTCPKs) with
  | Some (i, _) => mret i
  | None => Err ErrFpNotInDelegation
  end.

(** The loop that decrypts up to a quorum of signatures; the rest stays nil. *)
Fixpoint decrypt_sigs (decKey : Z) (covenantQuorum : N) (numSigs : N)
    (covenantSigs : list (option AdaptorSignature))
  : res SlashErr (list (option (N * Z)) * N) :=
  match covenantSigs with
  | [] => mret ([], numSigs)
  | covenantSig :: rest =>
      '(covSig, numSigs) ←
        match covenantSig with
        | Some a =>
            covSig ← map_err ErrAsig (AdaptorSig.Decrypt a decKey);
            mret (Some covSig, u32_add numSigs 1)
        | None => mret (None, numSigs)
        end;
      if (numSigs =? covenantQuorum)%N
      then mret (covSig :: replicate (length rest) None, numSigs)
      else
        '(covSigs, numSigs) ← decrypt_sigs decKey covenantQuorum numSigs rest;
        mret (covSig :: covSigs, numSigs)
  end.

(** [rnd] blinds the computation of the decryption key, which overwrites the
    private key of the caller. *)
Definition BuildSlashingTxWithWitness (rnd : option bytes) (tx : bytes) (fpSK : Z)
    (fpBTCPKs : list bytes) (fundingMsgTx : MsgTx) (outputIdx : N) (delegatorSig : bytes)
    (covenantSigs : list (option AdaptorSignature)) (covenantQuorum : N)
    (slashingPathSpendInfo : SpendInfo) : res SlashErr MsgTx :=
  let '(decKey, fpSK) := AdaptorSig.NewDecryptionKeyFromBTCSK rnd fpSK in
  decKey ← map_err ErrAsig decKey;
  '(covSigs, numSigs) ← decrypt_sigs decKey covenantQuorum 0 covenantSigs;
  require (negb (numSigs <? covenantQuorum)%N) ErrNotEnoughCovenantSigs;;
  fpIdxInWitness ← findFPIdxInWitness fpSK fpBTCPKs;
  let fpSigs := replicate (length fpBTCPKs) None in
  fpSig ← slashing_Sign tx fundingMsgTx outputIdx (GetPkScriptPath slashingPathSpendInfo) fpSK;
  fpSig ← MustToBTCSig fpSig;
  let fpSigs := <[fpIdxInWitness := Some fpSig]> fpSigs in
  delSig ← MustToBTCSig delegatorSig;
  witness ← map_err ErrSc
    (CreateSlashingPathWitness slashingPathSpendInfo covSigs fpSigs (Some delSig));
  slashingMsgTxWithWitness ← ToMsgTx tx;
  match txIn slashingMsgTxWithWitness with
  | [] => Panic
  | _ => mret (set_witness slashingMsgTxWithWitness 0 witness)
  end.

(** ** Delegations *)

(** The map from the keys of the committee to their signatures, filled in order. *)
Fixpoint cov_sigs_map (fpIdx : nat) (covSigsList : list CovenantAdaptorSignatures)
    (covSigsMap : gmap bytes AdaptorSignature) : res SlashErr (gmap bytes AdaptorSignature) :=
  match covSigsList with
  | [] => mret covSigsMap
  | covSigs :: rest =>
      match AdaptorSigs covSigs !! fpIdx with
      | None => Err ErrFpIdxOutOfScope
      | Some covSigBytes =>
          covSig ← map_err ErrAsig (AdaptorSig.NewAdaptorSignatureFromBytes covSigBytes);
          cov_sigs_map fpIdx rest (<[CovPk covSigs := covSig]> covSigsMap)
      end
  end.

Definition GetOrderedCovenantSignatures (fpIdx : nat)
    (covSigsList : list CovenantAdaptorSignatures) (params : Params)
  : res SlashErr (list (option AdaptorSignature)) :=
  covSigsMap ← cov_sigs_map fpIdx covSigsList ∅;
  let orderedCovenantPKs := SortBIP340PKs (CovenantPks params) in
  mret ((λ covPK, covSigsMap !! covPK) <$> orderedCovenantPKs).

Definition MustGetValidStakingTime {E} (d : BTCDelegation) : res E N :=
  if (max_u16 <? StakingTime d)%N then Panic else Ok (StakingTime d).

(** [uint16(x)]. *)
Definition u16 (n : N) : N := (n mod 2 ^ 16)%N.

Definition GetStakingInfo (d : BTCDelegation) (bsParams : Params) : res SlashErr StakingInfo :=
  fpBtcPkList ← NewBTCPKsFromBIP340PKs ErrParseKey (FpBtcPkList d);
  covenantBtcPkList ← NewBTCPKsFromBIP340PKs ErrParseKey (CovenantPks bsParams);
  key ← MustToBTCPK (del_BtcPk d);
  stakingTime ← MustGetValidStakingTime d;
  map_err ErrSc (BuildStakingInfo key fpBtcPkList covenantBtcPkList (CovenantQuorum bsParams)
                   stakingTime (int64 (Z.of_N (TotalSat d)))).

Definition GetUnbondingInfo (d : BTCDelegation) (bsParams : Params) : res SlashErr UnbondingInfo :=
  fpBtcPkList ← NewBTCPKsFromBIP340PKs ErrParseKey (FpBtcPkList d);
  covenantBtcPkList ← NewBTCPKsFromBIP340PKs ErrParseKey (CovenantPks bsParams);
  unbondingTx ← ToMsgTx (UnbondingTx (BtcUndelegation d));
  key ← MustToBTCPK (del_BtcPk d);
  match txOut unbondingTx with
  | [] => Panic
  | out0 :: _ =>
      map_err ErrSc (BuildUnbondingInfo key fpBtcPkList covenantBtcPkList
                       (CovenantQuorum bsParams) (u16 (UnbondingTime d)) (Value out0))
  end.

Definition SignUnbondingTx (d : BTCDelegation) (bsParams : Params) (sk : Z) : res SlashErr (N * Z) :=
  stakingTx ← ToMsgTx (StakingTx d);
  unbondingTx ← ToMsgTx (UnbondingTx (BtcUndelegation d));
  stakingInfo ← GetStakingInfo d bsParams;
  unbondingPath ← map_err ErrSc (sti_UnbondingPathSpendInfo stakingInfo);
  map_err ErrTx (SignTxWithOneScriptSpendInputStrict unbondingTx stakingTx (StakingOutputIdx d)
                   (GetPkScriptPath unbondingPath) sk).

Definition findFPIdx (d : BTCDelegation) (fpBTCPK : bytes) : res SlashErr nat :=
  match list_find (λ pk, pk = fpBTCPK) (FpBtcPkList d) with
  | Some (i, _) => mret i
  | None => Err ErrFpNotInDelegation
  end.

Definition del_BuildSlashingTxWithWitness (rnd : option bytes) (d : BTCDelegation)
    (bsParams : Params) (fpSK : Z) : res SlashErr MsgTx :=
  stakingMsgTx ← ToMsgTx (StakingTx d);
  stakingInfo ← GetStakingInfo d bsParams;
  slashingSpendInfo ← map_err ErrSc (sti_SlashingPathSpendInfo stakingInfo);
  let fpBTCPK := NewBIP340PubKeyFromBTCPK (ScalarBaseMult fpSK) in
  fpIdx ← findFPIdx d fpBTCPK;
  covAdaptorSigs ← GetOrderedCovenantSignatures fpIdx (CovenantSigs d) bsParams;
  BuildSlashingTxWithWitness rnd (SlashingTx d) fpSK (FpBtcPkList d) stakingMsgTx
    (StakingOutputIdx d) (DelegatorSig d) covAdaptorSigs (CovenantQuorum bsParams)
    slashingSpendInfo.

Definition BuildUnbondingSlashingTxWithWitness (rnd : option bytes) (d : BTCDelegation)
    (bsParams : Params) (fpSK : Z) : res SlashErr MsgTx :=
  let ud := BtcUndelegation d in
  unbondingMsgTx ← ToMsgTx (UnbondingTx ud);
  unbondingInfo ← GetUnbondingInfo d bsParams;
  slashingSpendInfo ← map_err ErrSc (ubi_SlashingPathSpendInfo unbondingInfo);
  let fpBTCPK := NewBIP340PubKeyFromBTCPK (ScalarBaseMult fpSK) in
  fpIdx ← findFPIdx d fpBTCPK;
  covAdaptorSigs ← GetOrderedCovenantSignatures fpIdx (CovenantSlashingSigs ud) bsParams;
  BuildSlashingTxWithWitness rnd (ud_SlashingTx ud) fpSK (FpBtcPkList d) unbondingMsgTx 0
    (DelegatorSlashingSig ud) covAdaptorSigs (CovenantQuorum bsParams) slashingSpendInfo.

(** The adaptor signature of a member of the committee for a provider. *)
Definition find_cov_sig (covSigs : list CovenantAdaptorSignatures) (covBTCPK : bytes) (valIdx : nat)
  : res SlashErr AdaptorSignature :=
  match list_find (λ c, CovPk c = covBTCPK) covSigs with
  | None => Err ErrCovenantPK
  | Some (_, covASigs) =>
      match AdaptorSigs covASigs !! valIdx with
      | None => Err ErrFpIdx
      | Some sigBytes => map_err ErrAsig (AdaptorSig.NewAdaptorSignatureFromBytes sigBytes)
      end
  end.

Definition GetCovSlashingAdaptorSig (d : BTCDelegation) (covBTCPK : bytes) (valIdx : nat)
    (quorum quorumPreviousStk : N) : res SlashErr AdaptorSignature :=
  require (HasCovenantQuorums d quorum quorumPreviousStk) ErrInvalidDelegationState;;
  find_cov_sig (CovenantSigs d) covBTCPK valIdx.

Definition ud_GetCovSlashingAdaptorSig (ud : BTCUndelegation) (covBTCPK : bytes) (valIdx : nat)
    (quorum : N) : res SlashErr AdaptorSignature :=
  require (ud_HasCovenantQuorums ud quorum) ErrInvalidDelegationState;;
  find_cov_sig (CovenantSlashingSigs ud) covBTCPK valIdx.
End slash.

(** ** Correctness *)
Section correct.
Context `{Bt : Btcd} `{CL : CurveLaws} {BT : BtcTx} {TS : TxScript} {BTL : BtcTxLaws}
  {TSL : TxScriptLaws}.

(** *** Keys *)

Lemma base_not_Infinity sk : (0 < sk < order)%Z → ScalarBaseMult sk ≠ Infinity.
Proof. rewrite base_Infinity. intros ? ?%eqm_small; lia. Qed.

(** The decryption key is the representative of the private key whose point has an
    even y coordinate: the point that the public key parses to. *)
Lemma decryption_key b sk : (0 < sk < order)%Z →
  ∃ dk, AdaptorSig.NewDecryptionKeyFromBTCSK (Some b) sk = (Ok dk, dk) ∧ (0 < dk < order)%Z ∧
    ParsePubKey (SerializePubKey (ScalarBaseMult sk)) = Some (ScalarBaseMult dk) ∧
    SerializePubKey (ScalarBaseMult dk) = SerializePubKey (ScalarBaseMult sk).
Proof.
  intros Hsk. pose proof (base_not_Infinity sk Hsk) as Hinf.
  unfold AdaptorSig.NewDecryptionKeyFromBTCSK, AdaptorSig.NewDecryptionKeyFromModNScalar.
  rewrite bool_decide_false by lia. rewrite Eots.blinding_cancels, Eots.parse_serialized by done.
  eexists. split; [done|]. unfold Eots.even.
  destruct (YIsOdd (ScalarBaseMult sk)) eqn:Ho; [|done].
  assert (sc_neg sk = order - sk)%Z as ->.
  { unfold sc_neg. rewrite <- (Z_mod_plus_full _ 1), Z.mod_small; lia. }
  assert (ScalarBaseMult (order - sk) = ScalarBaseMult (- sk)) as ->.
  { apply base_eq. rewrite <- (Z_mod_plus_full (- sk) 1). f_equal. lia. }
  split_and!; [lia|lia|done|]. unfold SerializePubKey. by rewrite <- base_neg, X_neg.
Qed.

Lemma parsed_key {pk key} : ParsePubKey pk = Some key →
  key ≠ Infinity ∧ SerializePubKey key = pk ∧ AdaptorSig.NewEncryptionKeyFromBTCPK key = Ok key.
Proof.
  intros (Hk & Ho & ->)%ParsePubKey_Some. split_and!; [done..|].
  unfold AdaptorSig.NewEncryptionKeyFromBTCPK, AdaptorSig.NewEncryptionKeyFromJacobianPoint.
  by rewrite bool_decide_false, Ho by done.
Qed.

Lemma NewBTCPKs_Ok {E} (e : E) pks keys :
  NewBTCPKsFromBIP340PKs e pks = Ok keys ↔ Forall2 (λ pk key, ParsePubKey pk = Some key) pks keys.
Proof.
  revert keys. induction pks as [|pk pks IH]; intros keys; cbn [NewBTCPKsFromBIP340PKs].
  - split; [intros [= <-]; constructor|by inversion 1].
  - rewrite bind_Ok. setoid_rewrite of_option_Ok. setoid_rewrite bind_Ok. setoid_rewrite IH. split.
    + intros (key & Hk & keys' & Hks & [= <-]). by constructor.
    + inversion 1; subst. eauto.
Qed.

Lemma parsed_keys pks keys : Forall2 (λ pk key, ParsePubKey pk = Some key) pks keys →
  SerializePubKey <$> keys = pks.
Proof.
  induction 1 as [|pk key pks keys Hk]; [done|]. rewrite fmap_cons.
  by rewrite (proj1 (proj2 (parsed_key Hk))), IHForall2.
Qed.

#[global] Instance pk_ge_antisymm : AntiSymm (=) pk_ge.
Proof. intros a b Hab Hba. by apply (anti_symm bytes_le). Qed.
#[global] Instance pk_ge_trans : Transitive pk_ge.
Proof. intros a b c Hab Hbc. unfold pk_ge in *. by etrans. Qed.
#[global] Instance pk_ge_total : Total pk_ge.
Proof. intros a b. apply (total bytes_le). Qed.
#[global] Instance key_le_trans : Transitive key_le.
Proof. intros a b c. unfold key_le. apply transitivity. Qed.
#[global] Instance key_le_total : Total key_le.
Proof. intros a b. apply (total bytes_le). Qed.

Lemma StronglySorted_descending l : StronglySorted bytes_le l → StronglySorted pk_ge (reverse l).
Proof.
  induction 1 as [|x l Hl IH Hx]; [constructor|]. rewrite reverse_cons.
  apply StronglySorted_app_2; [|done|repeat constructor].
  intros y z Hy ->%list_elem_of_singleton. rewrite elem_of_reverse in Hy.
  by rewrite Forall_forall in Hx; apply Hx.
Qed.

(** The two orders of the keys: scripts list keys in ascending order, signatures are
    given in descending order, since they are consumed from the top of the stack. *)
Lemma sorted_keys pks keys : Forall2 (λ pk key, ParsePubKey pk = Some key) pks keys →
  SerializePubKey <$> reverse (SortKeys keys) = SortBIP340PKs pks.
Proof.
  intros Hk%parsed_keys. apply (StronglySorted_unique pk_ge).
  - rewrite fmap_reverse. apply StronglySorted_descending.
    unfold SortKeys. apply (StronglySorted_fmap SerializePubKey key_le bytes_le _ (λ _ _ H, H)).
    apply (StronglySorted_merge_sort key_le).
  - apply (StronglySorted_merge_sort pk_ge).
  - unfold SortBIP340PKs, SortKeys. rewrite fmap_reverse, reverse_Permutation, !merge_sort_Permutation.
    by rewrite Hk.
Qed.

Lemma parsed_key_in pks keys key : Forall2 (λ pk key, ParsePubKey pk = Some key) pks keys →
  key ∈ keys → key ≠ Infinity ∧ ParsePubKey (SerializePubKey key) = Some key.
Proof.
  intros Hk (i & Hi)%list_elem_of_lookup. destruct (Forall2_lookup_r _ _ _ _ _ Hk Hi) as (pk & _ & Hpk).
  destruct (parsed_key Hpk) as (? & -> & _). done.
Qed.

(** *** Decryption *)

(** The challenge of the signature that an adaptor signature decrypts to is below the
    order of the group. *)
Definition no_overflow (tx : MsgTx) (out : TxOut) (script : bytes) (pk : point)
    (a : AdaptorSignature) : Prop :=
  ∀ h, CalcTapscriptSignaturehash SigHashDefault tx 0 (canned out) script = Some h →
    (challenge (field_bytes (X (AdaptorSig.R0 a))) (SerializePubKey pk) h).2 = false.

Lemma Decrypt_checksig tx out script pk dk a :
  EncVerifyTransactionSigWithOutput tx out script pk (ScalarBaseMult dk) a = Ok tt →
  pk ≠ Infinity → (0 < dk < order)%Z → AdaptorSig.wf a → no_overflow tx out script pk a →
  ∃ sig, AdaptorSig.Decrypt a dk = Ok sig ∧
    tapscript_checksig tx out script (SerializePubKey pk) (sig_Serialize sig) = true.
Proof.
  unfold EncVerifyTransactionSigWithOutput. intros Hv Hpk Hdk Ha Ho.
  destruct (txIn tx) as [|in0 [|]] eqn:Htx; try done. inv_ok.
  match goal with H : CalcTapscriptSignaturehash _ _ _ _ _ = Some ?h |- _ => rename H into Hh end.
  match goal with H : AdaptorSig.EncVerify _ _ _ _ = Ok _ |- _ => rename H into Hv' end.
  destruct (AdaptorSig.adaptor_decrypts a pk dk _ Hpk Hdk (proj2 Ha) Hv' (Ho _ Hh)) as (s & Hd & Hs & _).
  assert (0 ≤ s < order)%Z as Hr.
  { unfold AdaptorSig.Decrypt, AdaptorSig.decrypt in Hd. destruct (_ || _); [done|].
    rewrite AdaptorSig.sc_sgn_add in Hd. injection Hd as <-. apply mod_range. }
  exists (X (AdaptorSig.R0 a), s). split; [done|]. unfold tapscript_checksig.
  assert (∃ Q, ParsePubKey (SerializePubKey pk) = Some Q) as [Q HQ].
  { destruct (base_gen pk) as [k ->]. eexists. by apply Eots.parse_serialized. }
  assert (ParseSignature (sig_Serialize (X (AdaptorSig.R0 a), s)) = Some (X (AdaptorSig.R0 a), s)) as ->.
  { apply ParseSignature_Some. split_and!; [done|apply X_lt|lia..]. }
  rewrite HQ, Hh, (sig_Verify_x _ _ pk Q), sig_Verify_spec by done. by apply bool_decide_eq_true.
Qed.

Lemma FromBytes_wf raw a : AdaptorSig.NewAdaptorSignatureFromBytes raw = Ok a → AdaptorSig.wf a.
Proof.
  unfold AdaptorSig.NewAdaptorSignatureFromBytes. intros Hraw. inv_ok.
  match goal with Hx : context [SetBytes ?b] |- _ => destruct (SetBytes b) as [s []] eqn:Hs; [done|];
    unfold AdaptorSig.newAdaptorSignature in Hx; case_bool_decide; [done|]; injection Hx as <- end.
  split; [done|]. cbn [AdaptorSig.as_s]. unfold SetBytes in Hs. injection Hs as <- _. apply mod_range.
Qed.

(** Signatures that are there decrypt to valid ones. *)
Definition decryptable (checksig : bytes → bytes → bytes → bool) (script : bytes) (dk : Z)
    (key : point) (o : option AdaptorSignature) : Prop :=
  ∀ a, o = Some a → ∃ sig, AdaptorSig.Decrypt a dk = Ok sig ∧
    sig_ok checksig script key (Some sig).

Lemma present_cons o sigs :
  present (o :: sigs) = (match o with Some _ => 1 | None => 0 end) + present sigs.
Proof.
  unfold present. rewrite filter_cons. destruct o.
  - by rewrite decide_True by eauto.
  - rewrite decide_False; [done|]. by intros [].
Qed.

Lemma present_None n : present (replicate n None) = 0.
Proof. induction n; [done|]. simpl. by rewrite present_cons, IHn. Qed.

Lemma decrypt_sigs_Ok checksig script dk quorum keys sigs n :
  Forall2 (decryptable checksig script dk) keys sigs → (n < quorum < 2 ^ 32)%N →
  (quorum ≤ n + N.of_nat (length (filter is_Some sigs)))%N →
  ∃ covSigs, decrypt_sigs dk quorum n sigs = Ok (covSigs, quorum) ∧
    Forall2 (sig_ok checksig script) keys covSigs ∧ (n + N.of_nat (present covSigs) = quorum)%N.
Proof.
  intros Hf. revert n. induction Hf as [|key o keys sigs Ho Hf IH]; intros n Hn Hq; [simpl in Hq; lia|].
  cbn [decrypt_sigs]. rewrite filter_cons in Hq. destruct o as [a|].
  - rewrite decide_True in Hq by eauto. cbn [length] in Hq.
    destruct (Ho a) as (sig & -> & Hsig); [done|]. cbn [map_err mbind res_bind mret res_ret].
    rewrite u32_add_small by lia. destruct (N.eqb_spec (n + 1) quorum) as [<-|Hne].
    + exists (Some sig :: replicate (length sigs) None). split_and!; [done| |].
      * constructor; [done|]. rewrite <- (Forall2_length _ _ _ Hf). clear.
        induction keys; by constructor.
      * rewrite present_cons, present_None. lia.
    + destruct (IH (n + 1)%N) as (covSigs & -> & Hc & Hp); [lia..|].
      exists (Some sig :: covSigs). split_and!; [done|by constructor|]. rewrite present_cons. lia.
  - rewrite decide_False in Hq by (by intros []). cbn [map_err mbind res_bind mret res_ret].
    rewrite (proj2 (N.eqb_neq n quorum)) by lia.
    destruct (IH n) as (covSigs & -> & Hc & Hp); [lia..|].
    exists (None :: covSigs). split_and!; [done|by constructor|]. rewrite present_cons. lia.
Qed.

(** *** Signatures of the finality provider and the staker *)

Lemma checksig_parses tx out script pk sig : tapscript_checksig tx out script pk sig = true →
  ∃ s, ParseSignature sig = Some s ∧ sig = sig_Serialize s ∧
    is_Some (CalcTapscriptSignaturehash SigHashDefault tx 0 (canned out) script).
Proof.
  unfold tapscript_checksig. destruct (ParsePubKey pk); [|done].
  destruct (ParseSignature sig) as [[r s]|] eqn:Hs; [|done]. intros Hv.
  exists (r, s). apply ParseSignature_Some in Hs as (-> & _). by destruct (CalcTapscriptSignaturehash _ _ _ _ _).
Qed.

(** The signature of a key that spends the output is valid for that key. *)
Lemma slashing_Sign_checksig tx msgTx funding idx out script sk :
  ToMsgTx tx = Ok msgTx → checkTxBeforeSigning msgTx funding idx = Ok tt →
  txOut funding !! N.to_nat idx = Some out → (0 < sk < order)%Z →
  is_Some (CalcTapscriptSignaturehash SigHashDefault msgTx 0 (canned out) script) →
  ∃ sig, slashing_Sign tx funding idx script sk = Ok (sig_Serialize sig) ∧
    ParseSignature (sig_Serialize sig) = Some sig ∧
    tapscript_checksig msgTx out script (SerializePubKey (ScalarBaseMult sk)) (sig_Serialize sig) = true.
Proof.
  intros Htx Hc Hout Hsk Hh. pose proof (base_not_Infinity sk Hsk) as Hinf.
  unfold slashing_Sign, SignTxWithOneScriptSpendInputStrict, SignTxWithOneScriptSpendInputFromScript,
    SignTxWithOneScriptSpendInputFromTapLeaf, signTaprootScriptSpendInput.
  rewrite Htx. cbn [mbind res_bind]. rewrite Hc, Hout. cbn [mbind res_bind].
  unfold checkTxBeforeSigning in Hc. destruct (txIn msgTx) as [|in0 [|]] eqn:Hin; try done.
  change ([in0] !! 0) with (Some in0). cbn beta iota. rewrite prev_outs_single.
  rewrite <- (sighash_single msgTx in0) in Hh by done.
  destruct (RawTxInTapscriptSignature_Some _ _ _ _ _ Hh Hsk) as [raw Hraw]. rewrite Hraw.
  destruct (RawTxInTapscriptSignature_valid _ _ _ _ _ _ Hraw) as (h & P & s & Hs & Hr & -> & Hv).
  assert (ParseSignature (field_bytes (X P) ++ sc_bytes s) = Some (X P, s)) as Hp.
  { apply ParseSignature_Some. split_and!; [done|apply X_lt|lia..]. }
  cbn [of_option mbind res_bind]. rewrite Hp. exists (X P, s). split_and!; [done..|].
  unfold tapscript_checksig. rewrite Eots.parse_serialized by done. unfold sig_Serialize, fst, snd.
  rewrite Hp. rewrite (sighash_single msgTx in0) in Hs by done. rewrite Hs.
  by rewrite (sig_Verify_x _ _ (ScalarBaseMult sk)) by (done || by apply Eots.parse_serialized).
Qed.

Lemma present_insert n i (sig : N * Z) : i < n → present (<[i := Some sig]> (replicate n None)) = 1.
Proof.
  revert i. induction n as [|n IH]; intros [|i] Hi; try lia; cbn [replicate]; simpl.
  - by rewrite present_cons, present_None.
  - rewrite present_cons, IH; lia.
Qed.

Lemma one_signature checksig script keys i key sig :
  keys !! i = Some key → sig_ok checksig script key (Some sig) →
  Forall2 (sig_ok checksig script) keys (<[i := Some sig]> (replicate (length keys) None)).
Proof.
  intros Hi Hs. apply Forall2_same_length_lookup. split; [by rewrite length_insert, length_replicate|].
  intros j k o Hk Ho. destruct (decide (j = i)) as [->|Hne].
  - rewrite list_lookup_insert_eq in Ho by (rewrite length_replicate; by eapply lookup_lt_Some).
    by simplify_eq.
  - rewrite list_lookup_insert_ne in Ho by done. by apply lookup_replicate in Ho as [-> _].
Qed.

Lemma findFPIdxInWitness_Ok sk pks keys :
  Forall2 (λ pk key, ParsePubKey pk = Some key) pks keys →
  SerializePubKey (ScalarBaseMult sk) ∈ pks →
  ∃ i key, findFPIdxInWitness sk pks = Ok i ∧ reverse (SortKeys keys) !! i = Some key ∧
    SerializePubKey key = SerializePubKey (ScalarBaseMult sk).
Proof.
  intros Hk Hin. unfold findFPIdxInWitness, NewBIP340PubKeyFromBTCPK.
  destruct (list_find_elem_of (λ pk, pk = SerializePubKey (ScalarBaseMult sk)) (SortBIP340PKs pks)
    (SerializePubKey (ScalarBaseMult sk))) as [[i pk] Hf]; [|done|].
  { unfold SortBIP340PKs. by rewrite merge_sort_Permutation. }
  rewrite Hf. apply list_find_Some in Hf as (Hi & -> & _).
  rewrite <- (sorted_keys _ _ Hk), list_lookup_fmap in Hi.
  apply fmap_Some in Hi as (key & Hkey & Heq). by exists i, key.
Qed.

(** *** Completing a slashing transaction *)

(** The output can be spent by the slashing path with [si]: the witness made from
    signatures is accepted if and only if they are those of the staker, of one
    provider and of a quorum of the committee. *)
Definition slashing_path (si : SpendInfo) (pkScript : bytes) (stakerKey : point)
    (fpKeys covenantKeys : list point) (quorum : N) : Prop :=
  ∀ checksig csv covSigs fpSigs sig, covSigs ≠ [] → fpSigs ≠ [] → length fpSigs = length fpKeys →
  ∃ w, CreateSlashingPathWitness si covSigs fpSigs (Some sig) = Ok w ∧
    (output_accepts checksig csv pkScript w = true ↔
     sig_ok checksig (RevealedLeaf si) stakerKey (Some sig) ∧
     Forall2 (sig_ok checksig (RevealedLeaf si)) (reverse (SortKeys fpKeys)) fpSigs ∧
     present fpSigs = 1 ∧
     Forall2 (sig_ok checksig (RevealedLeaf si)) (reverse (SortKeys covenantKeys)) covSigs ∧
     N.of_nat (present covSigs) = quorum).

(** The adaptor signatures that are there verify under the provider's key. *)
Definition adaptor_sigs_verified (tx : bytes) (msgTx : MsgTx) (out : TxOut) (script fpPK : bytes)
    (key : point) (o : option AdaptorSignature) : Prop :=
  ∀ a encKey, o = Some a → ParsePubKey fpPK = Some encKey →
    key ≠ Infinity ∧ AdaptorSig.wf a ∧ no_overflow msgTx out script key a ∧
    EncVerifyAdaptorSignature tx out script key encKey a = Ok tt.

Lemma sig_ok_witness tx w out script key sig :
  sig_ok (tapscript_checksig tx out) script key sig →
  sig_ok (tapscript_checksig (set_witness tx 0 w) out) script key sig.
Proof. destruct sig; [|done]. simpl. by rewrite sighash_checksig. Qed.

Lemma length_SortKeys keys : length (SortKeys keys) = length keys.
Proof. apply Permutation_length, merge_sort_Permutation. Qed.

Lemma verified_decryptable tx msgTx out script sk dk key o :
  ToMsgTx tx = Ok msgTx → (0 < dk < order)%Z →
  ParsePubKey (SerializePubKey (ScalarBaseMult sk)) = Some (ScalarBaseMult dk) →
  adaptor_sigs_verified tx msgTx out script (SerializePubKey (ScalarBaseMult sk)) key o →
  decryptable (tapscript_checksig msgTx out) script dk key o.
Proof.
  intros Htx Hdk Hp Hv a Ha. destruct (Hv a _ Ha Hp) as (Hkey & Hwf & Ho & He).
  unfold EncVerifyAdaptorSignature in He. rewrite Htx in He. cbn [mbind res_bind] in He.
  apply map_err_Ok in He. by apply (Decrypt_checksig _ _ _ _ _ _ He).
Qed.

Lemma fp_signature tx msgTx funding idx out script sk pks keys :
  ToMsgTx tx = Ok msgTx → checkTxBeforeSigning msgTx funding idx = Ok tt →
  txOut funding !! N.to_nat idx = Some out →
  Forall2 (λ pk key, ParsePubKey pk = Some key) pks keys →
  (0 < sk < order)%Z → SerializePubKey (ScalarBaseMult sk) ∈ pks →
  is_Some (CalcTapscriptSignaturehash SigHashDefault msgTx 0 (canned out) script) →
  ∃ i sig, findFPIdxInWitness sk pks = Ok i ∧
    slashing_Sign tx funding idx script sk = Ok (sig_Serialize sig) ∧
    ParseSignature (sig_Serialize sig) = Some sig ∧
    let fpSigs := <[i := Some sig]> (replicate (length pks) None) in
    Forall2 (sig_ok (tapscript_checksig msgTx out) script) (reverse (SortKeys keys)) fpSigs ∧
    present fpSigs = 1 ∧ length fpSigs = length keys.
Proof.
  intros Htx Hc Hout Hfp Hsk Hin Hh.
  destruct (slashing_Sign_checksig _ _ _ _ _ _ _ Htx Hc Hout Hsk Hh) as (sig & Hsign & Hsig & Hv).
  destruct (findFPIdxInWitness_Ok sk pks keys Hfp Hin) as (i & key & Hi & Hkey & Hser).
  assert (length pks = length (reverse (SortKeys keys))) as Hlen.
  { by rewrite length_reverse, length_SortKeys, (Forall2_length _ _ _ Hfp). }
  exists i, sig. cbv zeta. split_and!; [done..| | |].
  - rewrite Hlen. apply (one_signature _ _ _ _ key); [done|]. simpl. by rewrite Hser.
  - apply present_insert. rewrite Hlen. by eapply lookup_lt_Some.
  - by rewrite length_insert, length_replicate, (Forall2_length _ _ _ Hfp).
Qed.

Lemma complete_slashing b tx msgTx funding idx out fpSK fpPKs fpKeys covKeys delSig covSigs
    quorum si stakerKey csv :
  ToMsgTx tx = Ok msgTx → checkTxBeforeSigning msgTx funding idx = Ok tt →
  txOut funding !! N.to_nat idx = Some out →
  slashing_path si (PkScript out) stakerKey fpKeys covKeys quorum →
  Forall2 (λ pk key, ParsePubKey pk = Some key) fpPKs fpKeys →
  (0 < fpSK < order)%Z → SerializePubKey (ScalarBaseMult fpSK) ∈ fpPKs → stakerKey ≠ Infinity →
  slashing_VerifySignature tx out (GetPkScriptPath si) stakerKey delSig = Ok tt →
  Forall2 (adaptor_sigs_verified tx msgTx out (GetPkScriptPath si)
    (SerializePubKey (ScalarBaseMult fpSK))) (reverse (SortKeys covKeys)) covSigs →
  (1 ≤ quorum < 2 ^ 32)%N → (quorum ≤ N.of_nat (length (filter is_Some covSigs)))%N →
  ∃ w, BuildSlashingTxWithWitness (Some b) tx fpSK fpPKs funding idx delSig covSigs quorum si
      = Ok (set_witness msgTx 0 w) ∧
    output_accepts (tapscript_checksig (set_witness msgTx 0 w) out) csv (PkScript out) w = true.
Proof.
  intros Htx Hc Hout Hpath Hfp Hsk Hin Hstaker Hdel Hcov Hq Hn.
  destruct (decryption_key b fpSK Hsk) as (dk & Hdec & Hdk & Hparse & Hser).
  unfold slashing_VerifySignature in Hdel. rewrite Htx in Hdel. cbn [mbind res_bind] in Hdel.
  apply map_err_Ok, VerifyTransactionSig_checksig in Hdel as [Hone Hdel]; [|done].
  destruct (checksig_parses _ _ _ _ _ Hdel) as (dsig & Hdsig & -> & Hh).
  destruct (fp_signature _ _ _ _ _ (GetPkScriptPath si) dk fpPKs fpKeys Htx Hc Hout Hfp Hdk)
    as (i & fsig & Hi & Hsign & Hfsig & Hfpsigs & Hfp1 & Hfl); [by rewrite Hser|done|].
  destruct (decrypt_sigs_Ok (tapscript_checksig msgTx out) (GetPkScriptPath si) dk quorum
    (reverse (SortKeys covKeys)) covSigs 0) as (sigs & Hdecs & Hsigs & Hpresent); [|lia..|].
  { eapply Forall2_impl; [exact Hcov|]. intros. by eapply verified_decryptable. }
  set (fpSigs := <[i := Some fsig]> (replicate (length fpPKs) None)) in *.
  assert (sigs ≠ []) as Hsne by (intros ->; unfold present in Hpresent; cbn in Hpresent; lia).
  assert (fpSigs ≠ []) as Hfne by (intros Heq; by rewrite Heq in Hfp1).
  destruct (Hpath (tapscript_checksig msgTx out) csv sigs fpSigs dsig Hsne Hfne Hfl) as (w & Hw & _).
  exists w. split.
  - unfold BuildSlashingTxWithWitness. rewrite Hdec. cbn [map_err mbind res_bind]. rewrite Hdecs.
    cbn [mbind res_bind]. rewrite N.ltb_irrefl. cbn [negb require mbind res_bind].
    rewrite Hi. cbn [mbind res_bind]. rewrite Hsign. cbn [mbind res_bind]. unfold MustToBTCSig.
    rewrite Hfsig, Hdsig. cbn [mbind res_bind]. fold fpSigs. rewrite Hw, Htx. cbn [map_err mbind res_bind].
    by destruct (txIn msgTx).
  - destruct (Hpath (tapscript_checksig (set_witness msgTx 0 w) out) csv sigs fpSigs dsig Hsne Hfne Hfl)
      as (w' & Hw' & Hacc). rewrite Hw in Hw'. injection Hw' as <-. apply Hacc.
    split_and!; [apply sig_ok_witness, Hdel| |done| |lia];
      (eapply Forall2_impl; [done|]); intros; by apply sig_ok_witness.
Qed.

(** *** The signatures of the committee *)

(** What the message handlers check of a member's signatures: one for each provider,
    verified under the provider's key. *)
Definition cov_sigs_verified (tx : bytes) (out : TxOut) (si : SpendInfo) (fpPKs covPKs : list bytes)
    (c : CovenantAdaptorSignatures) : Prop :=
  CovPk c ∈ covPKs ∧ length (AdaptorSigs c) = length fpPKs ∧
  EncVerifyAdaptorSignatures tx out si (CovPk c) fpPKs (AdaptorSigs c) = Ok tt.

Lemma EncVerifyAdaptorSignatures_lookup tx out si pk fpPKs sigs i sig fpPK :
  EncVerifyAdaptorSignatures tx out si pk fpPKs sigs = Ok tt →
  sigs !! i = Some sig → fpPKs !! i = Some fpPK →
  ∃ a encKey key, AdaptorSig.NewAdaptorSignatureFromBytes sig = Ok a ∧
    ParsePubKey fpPK = Some encKey ∧ ParsePubKey pk = Some key ∧
    EncVerifyAdaptorSignature tx out (GetPkScriptPath si) key encKey a = Ok tt.
Proof.
  unfold EncVerifyAdaptorSignatures. intros Hv Hs Hf. apply bind_Ok in Hv as (l & Hv & _).
  revert i fpPKs l Hv Hs Hf. induction sigs as [|s sigs IH]; intros i fpPKs l Hv Hs Hf; [done|].
  destruct fpPKs as [|fp fpPKs]; [done|]. cbn [ParseEncVerifyAdaptorSignatures] in Hv.
  apply bind_Ok in Hv as (a & Ha & Hv). apply map_err_Ok in Ha. unfold MustToBTCPK in Hv.
  destruct (ParsePubKey fp) as [encKey|] eqn:He; [|done]. cbn [mbind res_bind] in Hv.
  rewrite (proj2 (proj2 (parsed_key He))) in Hv. cbn [map_err mbind res_bind] in Hv.
  destruct (ParsePubKey pk) as [key|] eqn:Hk; [|done]. cbn [mbind res_bind] in Hv.
  apply bind_Ok in Hv as ([] & Hver & Hv). apply map_err_Ok in Hver.
  apply bind_Ok in Hv as (l' & Hl & _).
  destruct i as [|i]; simplify_eq/=; [by exists a, encKey, key|by eapply IH].
Qed.

(** The signature of a member for the provider at an index. *)
Definition cov_sig_at (fpIdx : nat) (c : CovenantAdaptorSignatures) (a : AdaptorSignature) : Prop :=
  ∃ sig, AdaptorSigs c !! fpIdx = Some sig ∧ AdaptorSig.NewAdaptorSignatureFromBytes sig = Ok a.

Lemma cov_sigs_map_Ok fpIdx l m0 :
  Forall (λ c, ∃ a, cov_sig_at fpIdx c a) l →
  ∃ m, cov_sigs_map fpIdx l m0 = Ok m ∧ (∀ c, c ∈ l → is_Some (m !! CovPk c)) ∧
    (∀ k, is_Some (m0 !! k) → is_Some (m !! k)) ∧
    (∀ k a, m !! k = Some a → m0 !! k = Some a ∨ ∃ c, c ∈ l ∧ CovPk c = k ∧ cov_sig_at fpIdx c a).
Proof.
  intros Hl. revert m0. induction Hl as [|c l (a & sig & Hi & Ha) Hl IH]; intros m0; cbn [cov_sigs_map].
  { exists m0. split_and!; [done|by intros ? ?%elem_of_nil|done|by left]. }
  rewrite Hi, Ha. cbn [map_err mbind res_bind].
  destruct (IH (<[CovPk c := a]> m0)) as (m & -> & Hin & Hkeep & Hfrom). exists m. split_and!; [done|..].
  - intros c' [->|Hc]%elem_of_cons; [|by apply Hin]. apply Hkeep. by rewrite lookup_insert_eq.
  - intros k Hk. apply Hkeep, lookup_insert_is_Some'. by right.
  - intros k a' [Hk|(c' & ? & ? & ?)]%Hfrom; [|right; exists c'; by rewrite elem_of_cons; auto].
    apply lookup_insert_Some in Hk as [[<- <-]|[_ Hk]]; [|by left].
    right. exists c. split_and!; [by left|done|by exists sig].
Qed.

Lemma filter_is_Some_fmap {A B} (f : A → option B) l :
  length (filter is_Some (f <$> l)) = length (filter (λ x, is_Some (f x)) l).
Proof.
  induction l as [|x l IH]; [done|]. rewrite fmap_cons, !filter_cons.
  destruct (decide (is_Some (f x))); simpl; congruence.
Qed.

(** The challenges of the given signatures of the committee for [msgTx] do not overflow. *)
Definition challenges_ok (covSigs : list CovenantAdaptorSignatures) (msgTx : MsgTx) (out : TxOut)
    (script : bytes) : Prop :=
  ∀ c sig key a, c ∈ covSigs → sig ∈ AdaptorSigs c → ParsePubKey (CovPk c) = Some key →
    AdaptorSig.NewAdaptorSignatureFromBytes sig = Ok a → no_overflow msgTx out script key a.

Lemma ordered_signatures tx msgTx out si fpPKs params covKeys covSigs fpIdx fpPK :
  Forall2 (λ pk key, ParsePubKey pk = Some key) (CovenantPks params) covKeys →
  fpPKs !! fpIdx = Some fpPK → NoDup (CovPk <$> covSigs) →
  Forall (cov_sigs_verified tx out si fpPKs (CovenantPks params)) covSigs →
  challenges_ok covSigs msgTx out (GetPkScriptPath si) →
  ∃ sigs, GetOrderedCovenantSignatures fpIdx covSigs params = Ok sigs ∧
    Forall2 (adaptor_sigs_verified tx msgTx out (GetPkScriptPath si) fpPK)
      (reverse (SortKeys covKeys)) sigs ∧
    length covSigs ≤ length (filter is_Some sigs).
Proof.
  intros Hkeys Hfp Hnd Hv Ho.
  assert (∀ c, c ∈ covSigs → ∃ a encKey key, cov_sig_at fpIdx c a ∧ ParsePubKey fpPK = Some encKey ∧
    ParsePubKey (CovPk c) = Some key ∧
    EncVerifyAdaptorSignature tx out (GetPkScriptPath si) key encKey a = Ok tt) as Hlook.
  { intros c Hc. rewrite Forall_forall in Hv. destruct (Hv c Hc) as (_ & Hlen & Henc).
    destruct (lookup_lt_is_Some_2 (AdaptorSigs c) fpIdx) as [sig Hsig].
    { rewrite Hlen. by eapply lookup_lt_Some. }
    destruct (EncVerifyAdaptorSignatures_lookup _ _ _ _ _ _ _ _ _ Henc Hsig Hfp)
      as (a & encKey & key & Ha & ?). exists a, encKey, key. split; [by exists sig|done]. }
  destruct (cov_sigs_map_Ok fpIdx covSigs ∅) as (m & Hm & Hin & _ & Hfrom).
  { apply Forall_forall. intros c Hc. destruct (Hlook c Hc) as (a & _ & _ & ? & _). by exists a. }
  unfold GetOrderedCovenantSignatures. rewrite Hm. eexists. split; [done|]. split.
  - rewrite <- (sorted_keys _ _ Hkeys), <- list_fmap_compose, Forall2_fmap_r.
    apply Forall_Forall2_diag, Forall_forall. intros key Hkey a encKey Hmk Henc.
    rewrite elem_of_reverse in Hkey. unfold SortKeys in Hkey. rewrite merge_sort_Permutation in Hkey.
    destruct (parsed_key_in _ _ _ Hkeys Hkey) as (Hinf & Hpk).
    destruct (Hfrom _ _ Hmk) as [Hnone|(c & Hc & Hck & sig & Hsig & Ha)]; [by rewrite lookup_empty in Hnone|].
    destruct (Hlook c Hc) as (a' & encKey' & key' & (sig' & Hsig' & Ha') & He & Hk & Hver).
    change (CovPk c = SerializePubKey key) in Hck. rewrite Hck in Hk. simplify_eq.
    rewrite Ha in Ha'. injection Ha' as <-. split_and!; [done|by eapply FromBytes_wf| |done].
    eapply (Ho c sig); [done|by eapply list_elem_of_lookup_2|by rewrite Hck|done].
  - rewrite filter_is_Some_fmap, <- (length_fmap CovPk). apply submseteq_length, NoDup_submseteq; [done|].
    intros pk (c & -> & Hc)%list_elem_of_fmap. apply list_elem_of_filter. split; [by apply Hin|].
    unfold SortBIP340PKs. rewrite merge_sort_Permutation. rewrite Forall_forall in Hv. by apply Hv.
Qed.

(** *** Delegations *)

(** A pre-signed slashing transaction [tx] of output [idx] of [funding], as the
    message handlers leave it: it spends an output that has the slashing path [si],
    the staker has signed it and members of the committee have signed it for every
    provider. *)
Definition presigned (tx funding : bytes) (idx : N) (pkScript : bytes) (si : SpendInfo)
    (stakerPK : bytes) (fpPKs : list bytes) (delSig : bytes) (params : Params)
    (covSigs : list CovenantAdaptorSignatures) (msgTx fundingTx : MsgTx) (out : TxOut) : Prop :=
  ToMsgTx tx = Ok msgTx ∧ ToMsgTx funding = Ok fundingTx ∧
  txOut fundingTx !! N.to_nat idx = Some out ∧ PkScript out = pkScript ∧
  checkTxBeforeSigning msgTx fundingTx idx = Ok tt ∧
  (∃ stakerKey, ParsePubKey stakerPK = Some stakerKey ∧
    slashing_VerifySignature tx out (GetPkScriptPath si) stakerKey delSig = Ok tt) ∧
  NoDup (CovPk <$> covSigs) ∧
  Forall (cov_sigs_verified tx out si fpPKs (CovenantPks params)) covSigs.

(** What the parameters and the number of providers have to satisfy. *)
Definition sane_sizes (d : BTCDelegation) (params : Params) : Prop :=
  (1 ≤ CovenantQuorum params < 2 ^ 32)%N ∧ (Z.of_nat (length (CovenantPks params)) < 2 ^ 31)%Z ∧
  (Z.of_nat (length (FpBtcPkList d)) < 2 ^ 31)%Z.

Lemma presigned_slashable b tx funding idx pkScript si stakerPK stakerKey fpPKs fpKeys covKeys delSig
    params covSigs msgTx fundingTx out fpSK fpIdx csv :
  presigned tx funding idx pkScript si stakerPK fpPKs delSig params covSigs msgTx fundingTx out →
  ParsePubKey stakerPK = Some stakerKey →
  Forall2 (λ pk key, ParsePubKey pk = Some key) fpPKs fpKeys →
  Forall2 (λ pk key, ParsePubKey pk = Some key) (CovenantPks params) covKeys →
  slashing_path si pkScript stakerKey fpKeys covKeys (CovenantQuorum params) →
  challenges_ok covSigs msgTx out (GetPkScriptPath si) →
  (1 ≤ CovenantQuorum params < 2 ^ 32)%N → ge_quorum covSigs (CovenantQuorum params) = true →
  (0 < fpSK < order)%Z → fpPKs !! fpIdx = Some (SerializePubKey (ScalarBaseMult fpSK)) →
  ∃ sigs w, GetOrderedCovenantSignatures fpIdx covSigs params = Ok sigs ∧
    BuildSlashingTxWithWitness (Some b) tx fpSK fpPKs fundingTx idx delSig sigs
      (CovenantQuorum params) si = Ok (set_witness msgTx 0 w) ∧
    output_accepts (tapscript_checksig (set_witness msgTx 0 w) out) csv (PkScript out) w = true.
Proof.
  intros (Htx & Hfund & Hout & <- & Hc & (k & Hk & Hdel) & Hnd & Hcov) Hstaker Hfp Hck Hpath Hch Hq Hge
    Hsk Hidx. rewrite Hstaker in Hk. injection Hk as <-.
  destruct (ordered_signatures tx msgTx out si fpPKs params covKeys covSigs fpIdx _ Hck Hidx Hnd Hcov Hch)
    as (sigs & Hsigs & Hver & Hlen).
  unfold ge_quorum in Hge. apply N.leb_le in Hge.
  destruct (complete_slashing b tx msgTx fundingTx idx out fpSK fpPKs fpKeys covKeys delSig sigs
    (CovenantQuorum params) si stakerKey csv) as (w & Hw); try done; [| |lia|].
  - by eapply list_elem_of_lookup_2.
  - by destruct (parsed_key Hstaker).
  - by exists sigs, w.
Qed.

Lemma findFPIdx_Ok d pk : pk ∈ FpBtcPkList d →
  ∃ i, findFPIdx d pk = Ok i ∧ FpBtcPkList d !! i = Some pk.
Proof.
  intros Hin. unfold findFPIdx.
  destruct (list_find_elem_of (λ k, k = pk) (FpBtcPkList d) pk) as [[i k] Hf]; [done..|].
  rewrite Hf. apply list_find_Some in Hf as (Hi & -> & _). by exists i.
Qed.

Lemma holder_slashing_path stakerKey fpKeys covenantKeys covenantQuorum lockTime p scripts sh pkScript :
  newAnonScriptPaths stakerKey fpKeys covenantKeys covenantQuorum lockTime = Ok p →
  (1 ≤ covenantQuorum)%N → (lockTime < 2 ^ 16)%N →
  (Z.of_nat (length covenantKeys) < 2 ^ 31)%Z → (Z.of_nat (length fpKeys) < 2 ^ 31)%Z →
  newTaprootScriptHolder unspendableKeyPathKey scripts = Ok sh →
  taprootPkScript sh = Ok pkScript → slashingPathScript p ∈ scripts →
  ∃ si, scriptSpendInfoByName sh (TapHash (slashingPathScript p)) = Ok si ∧
    slashing_path si pkScript stakerKey fpKeys covenantKeys covenantQuorum.
Proof.
  intros Hp Hq Hl Hcl Hfl Hsh Hpk Hin.
  destruct (slashing_witness (λ _ _ _, true) (λ _, true) _ _ _ _ _ _ _ _ _ Hp Hq Hl Hcl Hfl Hsh Hpk Hin)
    as (si & Hsi & _). exists si. split; [done|]. intros checksig csv.
  destruct (slashing_witness checksig csv _ _ _ _ _ _ _ _ _ Hp Hq Hl Hcl Hfl Hsh Hpk Hin)
    as (si' & Hsi' & Hw). rewrite Hsi in Hsi'. by injection Hsi' as <-.
Qed.

(** The keys that the outputs of a delegation are made of. *)
Definition delegation_keys (d : BTCDelegation) (params : Params) (stakerKey : point)
    (fpKeys covKeys : list point) : Prop :=
  ParsePubKey (del_BtcPk d) = Some stakerKey ∧
  Forall2 (λ pk key, ParsePubKey pk = Some key) (FpBtcPkList d) fpKeys ∧
  Forall2 (λ pk key, ParsePubKey pk = Some key) (CovenantPks params) covKeys.

Lemma staking_slashing_path d params info :
  GetStakingInfo d params = Ok info → sane_sizes d params →
  ∃ si stakerKey fpKeys covKeys, sti_SlashingPathSpendInfo info = Ok si ∧
    delegation_keys d params stakerKey fpKeys covKeys ∧
    slashing_path si (GetPkScript info) stakerKey fpKeys covKeys (CovenantQuorum params).
Proof.
  unfold GetStakingInfo. intros Hinfo (Hq & Hcl & Hfl).
  apply bind_Ok in Hinfo as (fpKeys & Hfp%NewBTCPKs_Ok & Hinfo).
  apply bind_Ok in Hinfo as (covKeys & Hck%NewBTCPKs_Ok & Hinfo). unfold MustToBTCPK in Hinfo.
  destruct (ParsePubKey (del_BtcPk d)) as [stakerKey|] eqn:Hkey; [|done]. cbn [mbind res_bind] in Hinfo.
  unfold MustGetValidStakingTime in Hinfo. destruct (N.ltb_spec max_u16 (StakingTime d)) as [|Ht]; [done|].
  cbn [mbind res_bind] in Hinfo. apply map_err_Ok in Hinfo. unfold BuildStakingInfo in Hinfo.
  cbv zeta in Hinfo. rewrite (Forall2_length _ _ _ Hfp) in Hfl. rewrite (Forall2_length _ _ _ Hck) in Hcl.
  inv_ok. unfold max_u16 in Ht.
  edestruct holder_slashing_path as (si & Hsi & Hpath); [done|..|done|done| |]; [lia..|set_solver|].
  by exists si, stakerKey, fpKeys, covKeys.
Qed.

Lemma unbonding_slashing_path d params info :
  GetUnbondingInfo d params = Ok info → sane_sizes d params →
  ∃ si stakerKey fpKeys covKeys, ubi_SlashingPathSpendInfo info = Ok si ∧
    delegation_keys d params stakerKey fpKeys covKeys ∧
    slashing_path si (PkScript (UnbondingOutput info)) stakerKey fpKeys covKeys (CovenantQuorum params).
Proof.
  unfold GetUnbondingInfo. intros Hinfo (Hq & Hcl & Hfl).
  apply bind_Ok in Hinfo as (fpKeys & Hfp%NewBTCPKs_Ok & Hinfo).
  apply bind_Ok in Hinfo as (covKeys & Hck%NewBTCPKs_Ok & Hinfo).
  apply bind_Ok in Hinfo as (utx & Hutx & Hinfo). unfold MustToBTCPK in Hinfo.
  destruct (ParsePubKey (del_BtcPk d)) as [stakerKey|] eqn:Hkey; [|done]. cbn [mbind res_bind] in Hinfo.
  destruct (txOut utx) as [|out0 outs]; [done|]. apply map_err_Ok in Hinfo.
  unfold BuildUnbondingInfo in Hinfo. cbv zeta in Hinfo.
  rewrite (Forall2_length _ _ _ Hfp) in Hfl. rewrite (Forall2_length _ _ _ Hck) in Hcl.
  assert (u16 (UnbondingTime d) < 2 ^ 16)%N as Ht by by apply N.mod_lt.
  inv_ok. edestruct holder_slashing_path as (si & Hsi & Hpath); [done|..|done|done| |]; [lia..|set_solver|].
  by exists si, stakerKey, fpKeys, covKeys.
Qed.

(** Whoever has the private key of one of the finality providers of a delegation
    takes the slashing share of it: once the slashing transaction of its staking
    output is pre-signed by the staker and a quorum of the committee, the code turns
    the stored signatures and the key into a witness that Bitcoin accepts for
    exactly that transaction; and the same holds for the slashing transaction of its
    unbonding output. *)
Theorem delegation_slashable b d params fpSK csv :
  sane_sizes d params → (0 < fpSK < order)%Z →
  SerializePubKey (ScalarBaseMult fpSK) ∈ FpBtcPkList d →
  (∀ info si msgTx stakingTx out,
    GetStakingInfo d params = Ok info → sti_SlashingPathSpendInfo info = Ok si →
    presigned (SlashingTx d) (StakingTx d) (StakingOutputIdx d) (GetPkScript info) si (del_BtcPk d)
      (FpBtcPkList d) (DelegatorSig d) params (CovenantSigs d) msgTx stakingTx out →
    challenges_ok (CovenantSigs d) msgTx out (GetPkScriptPath si) →
    ge_quorum (CovenantSigs d) (CovenantQuorum params) = true →
    ∃ w, del_BuildSlashingTxWithWitness (Some b) d params fpSK = Ok (set_witness msgTx 0 w) ∧
      output_accepts (tapscript_checksig (set_witness msgTx 0 w) out) csv (PkScript out) w = true) ∧
  (∀ info si msgTx unbondingTx out,
    let ud := BtcUndelegation d in
    GetUnbondingInfo d params = Ok info → ubi_SlashingPathSpendInfo info = Ok si →
    presigned (ud_SlashingTx ud) (UnbondingTx ud) 0 (PkScript (UnbondingOutput info)) si (del_BtcPk d)
      (FpBtcPkList d) (DelegatorSlashingSig ud) params (CovenantSlashingSigs ud) msgTx unbondingTx out →
    challenges_ok (CovenantSlashingSigs ud) msgTx out (GetPkScriptPath si) →
    HasCovenantQuorumOnSlashing ud (CovenantQuorum params) = true →
    ∃ w, BuildUnbondingSlashingTxWithWitness (Some b) d params fpSK = Ok (set_witness msgTx 0 w) ∧
      output_accepts (tapscript_checksig (set_witness msgTx 0 w) out) csv (PkScript out) w = true).
Proof.
  intros Hsizes Hsk Hin. destruct (findFPIdx_Ok d _ Hin) as (i & Hi & Hidx). split.
  - intros info si msgTx stakingTx out Hinfo Hsi Hpre Hch Hq.
    destruct (staking_slashing_path _ _ _ Hinfo Hsizes) as (si' & stakerKey & fpKeys & covKeys & Hsi' & Hk & Hpath).
    rewrite Hsi in Hsi'. injection Hsi' as <-. destruct Hk as (Hs & Hf & Hc).
    destruct (presigned_slashable b _ _ _ _ _ _ _ _ _ _ _ _ _ _ _ _ fpSK i csv Hpre Hs Hf Hc Hpath Hch
      (proj1 Hsizes) Hq Hsk Hidx) as (sigs & w & Hsigs & Hw & Hacc).
    exists w. split; [|done]. unfold del_BuildSlashingTxWithWitness, NewBIP340PubKeyFromBTCPK.
    destruct Hpre as (_ & -> & _). cbn [mbind res_bind]. rewrite Hinfo. cbn [mbind res_bind].
    rewrite Hsi. cbn [map_err mbind res_bind]. rewrite Hi. cbn [mbind res_bind]. by rewrite Hsigs.
  - intros info si msgTx stakingTx out ud Hinfo Hsi Hpre Hch Hq.
    destruct (unbonding_slashing_path _ _ _ Hinfo Hsizes) as (si' & stakerKey & fpKeys & covKeys & Hsi' & Hk & Hpath).
    rewrite Hsi in Hsi'. injection Hsi' as <-. destruct Hk as (Hs & Hf & Hc).
    destruct (presigned_slashable b _ _ _ _ _ _ _ _ _ _ _ _ _ _ _ _ fpSK i csv Hpre Hs Hf Hc Hpath Hch
      (proj1 Hsizes) Hq Hsk Hidx) as (sigs & w & Hsigs & Hw & Hacc).
    exists w. split; [|done]. unfold BuildUnbondingSlashingTxWithWitness, NewBIP340PubKeyFromBTCPK.
    fold ud. destruct Hpre as (_ & -> & _). cbn [mbind res_bind]. rewrite Hinfo. cbn [mbind res_bind].
    rewrite Hsi. cbn [map_err mbind res_bind]. rewrite Hi. cbn [mbind res_bind]. by rewrite Hsigs.
Qed.
End correct.
End StakingSlash.
