(* ===== verification/StakingPop.v ===== *)
(** Proofs of possession of a Bitcoin key.
    [src/anon/x/btcstaking/types/pop.go], [src/anon/crypto/bip322] and
    [src/anon/crypto/ecdsa].

    Whoever registers a Bitcoin key shows that it is theirs by a signature of their
    account address: a Schnorr signature, a BIP-322 signature by an address that
    belongs to the key, or an ECDSA signature of a Bitcoin message.  Hash functions,
    the script engine and the encodings of btcd are fields of [PopLib]. *)
From Stdlib Require Import Strings.Byte.
From stdpp Require Import base numbers list gmap strings.
From S2P Require Import Prelude KVStore Bytes Secp256k1 Eots AdaptorSig Btcd BtcTx StakingScripts BtcStaking StakingTx.

Module StakingPop.
Import BtcStaking.

Definition string_bytes (s : string) : bytes := String.list_byte_of_string s.

Class PopLib `{TxScript} := {
  tmhash_Sum : bytes → bytes;
  AccAddress_String : list N → string;
  (** [wire.ReadVarInt]: the number and what is left of the buffer *)
  ReadVarInt : bytes → option (N * bytes);
  WriteVarInt : N → bytes;
  BIP322Sig_Unmarshal : bytes → option (string * bytes);   (** address and signature *)
  DecodeAddress : string → option Address;
  ScriptAddress : Address → bytes;
  IsPayToWitnessPubKeyHash : bytes → bool;
  ComputeTaprootKeyNoScript : point → point;
  btcec_ParsePubKey : bytes → option point;
  RecoverCompact : bytes → bytes → option (point * bool);  (** signature, hash *)
  (** [txscript.NewEngine] with the standard flags for input 0 of a transaction that
      spends an output of the given script and value, and [Execute] *)
  vm_Execute : bytes → Z → MsgTx → bool;
}.

(** A variable-length integer is read back from what was written. *)
Class PopLibLaws `{PopLib} : Prop := {
  ReadVarInt_WriteVarInt n rest : (n < 2 ^ 64)%N → ReadVarInt (WriteVarInt n ++ rest) = Some (n, rest);
}.

Inductive PopErr :=
  | ErrSigType | ErrBIP340Sig | ErrParsePk | ErrVerify | ErrEmptySig | ErrVarInt | ErrTooLarge
  | ErrEOF | ErrSigHashType | ErrAddressScript | ErrUnsupportedAddress | ErrEngine | ErrEmptyParam
  | ErrDecodeAddress | ErrAddressKey | ErrUnmarshal | ErrRecover | ErrHighS | ErrRecoveredKey
  | ErrSigSize | ErrTooFewFields.

Section pop.
Context `{Bt : Btcd} `{C : Curve} {BT : BtcTx} {TS : TxScript} {PL : PopLib}.

(** ** Witness stacks: [crypto/bip322/witness.go] *)

Definition maxWitnessItemsPerInput : N := 4000000.
Definition maxWitnessItemSize : N := 4000000.

Definition readScript (r : bytes) (maxAllowed : N) : res PopErr (bytes * bytes) :=
  '(count, r) ← of_option ErrVarInt (ReadVarInt r);
  require (negb (maxAllowed <? count)%N) ErrTooLarge;;
  require (N.to_nat count <=? length r) ErrEOF;;
  mret (take (N.to_nat count) r, drop (N.to_nat count) r).

Fixpoint read_items (n : nat) (buf : bytes) : res PopErr (list bytes) :=
  match n with
  | O => mret []
  | S n =>
      '(item, buf) ← readScript buf maxWitnessItemSize;
      items ← read_items n buf;
      mret (item :: items)
  end.

Definition SimpleSigToWitness (sig : bytes) : res PopErr (list bytes) :=
  '(witCount, buf) ← of_option ErrVarInt (ReadVarInt sig);
  require (negb (maxWitnessItemsPerInput <? witCount)%N) ErrTooLarge;;
  read_items (N.to_nat witCount) buf.

(** Writing to a buffer does not fail. *)
Definition writeTxWitness (wit : list bytes) : bytes :=
  WriteVarInt (N.of_nat (length wit)) ++
  mjoin ((λ item, WriteVarInt (N.of_nat (length item)) ++ item) <$> wit).

Definition SerializeWitness (w : list bytes) : res PopErr bytes := mret (writeTxWitness w).

(** ** BIP-322: [crypto/bip322/bip322.go] *)

Definition bip322Tag : string := "BIP0322-signed-message".

Definition GetBIP340TaggedHash (msg : bytes) : bytes :=
  let tagHash := Sum256 (string_bytes bip322Tag) in
  Sum256 (tagHash ++ tagHash ++ msg).

Definition OP_0 : N := 0.

Definition toSpendSignatureScript (msg : bytes) : res PopErr bytes :=
  of_option ErrEngine (builder_Script [AddOp OP_0; AddData (GetBIP340TaggedHash msg)]).

Definition toSignPkScript : res PopErr bytes :=
  match builder_Script [AddOp 0x6a] with Some s => Ok s | None => Panic end.

Definition GetToSpendTx (msg : bytes) (address : Address) : res PopErr MsgTx :=
  let outPoint := mkOutPoint (replicate 32 x00) 0xffffffff in
  script ← toSpendSignatureScript msg;
  let input := mkTxIn outPoint script [] 0 in
  pkScript ← of_option ErrAddressScript (PayToAddrScript address);
  mret (mkMsgTx 0 [input] [mkTxOut 0 pkScript] 0).

Definition GetToSignTx (toSpend : MsgTx) : res PopErr MsgTx :=
  let outPoint := mkOutPoint (TxHash toSpend) 0 in
  pkScript ← toSignPkScript;
  mret (mkMsgTx 0 [mkTxIn outPoint [] [] 0] [mkTxOut 0 pkScript] 0).

Definition SigHashAll : N := 1.

Definition validateSigHashType (witness : list bytes) (address : Address) : res PopErr unit :=
  match witness with
  | [] => Err ErrEmptySig
  | sig :: _ =>
      require (negb (length sig =? 0)) ErrEmptySig;;
      script ← of_option ErrAddressScript (PayToAddrScript address);
      if IsPayToTaproot script then
        if length sig =? 64 then mret tt
        else if length sig =? 65 then
          sighash ← index_go 64 sig;
          require (N_of_byte sighash =? SigHashAll)%N ErrSigHashType
        else Err ErrSigHashType
      else if IsPayToWitnessPubKeyHash script then
        require (negb (length sig <? 9)) ErrSigHashType;;
        sighash ← index_go (length sig - 1) sig;
        require (N_of_byte sighash =? SigHashAll)%N ErrSigHashType
      else Err ErrUnsupportedAddress
  end.

Definition VerifyP2WPKHAndP2TR (msg : bytes) (witness : list bytes) (address : Address)
  : res PopErr unit :=
  validateSigHashType witness address;;
  toSpend ← GetToSpendTx msg address;
  toSign ← GetToSignTx toSpend;
  let toSign := set_witness toSign 0 witness in
  match txOut toSpend with
  | [] => Panic
  | out :: _ => require (vm_Execute (PkScript out) (Value out) toSign) ErrEngine
  end.

Definition PubKeyToP2TrSpendAddress (p : point) : res PopErr Address :=
  of_option ErrAddressScript (NewAddressTaproot (SerializePubKey (ComputeTaprootKeyNoScript p))).

(** ** ECDSA: [crypto/ecdsa/ecdsa.go] *)

Definition MAGIC_MESSAGE_PREFIX : bytes := string_bytes "Bitcoin Signed Message:" ++ [x0a].

Definition WriteVarString (s : bytes) : bytes := WriteVarInt (N.of_nat (length s)) ++ s.

Definition magicHash (msg : bytes) : bytes :=
  DoubleHashH (WriteVarString MAGIC_MESSAGE_PREFIX ++ WriteVarString msg).

(** [IsOverHalfOrder]. *)
Definition over_half_order (s : Z) : bool := (order / 2 <? s)%Z.

Definition RecoverPublicKey (msg sigBytes : bytes) : res PopErr (point * bool) :=
  '(recoveredPK, wasCompressed) ← of_option ErrRecover (RecoverCompact sigBytes (magicHash msg));
  sBytes ← slice_to 65 sigBytes;
  sBytes ← slice_from 33 sBytes;
  let '(s, overflow) := SetBytes sBytes in
  require (negb overflow) ErrHighS;;
  require (negb (over_half_order s)) ErrHighS;;
  mret (recoveredPK, wasCompressed).

(** ** Proofs of possession: [types/pop.go] *)

Definition BTCSigType_BIP340 : N := 0.
Definition BTCSigType_BIP322 : N := 1.
Definition BTCSigType_ECDSA : N := 2.

Definition NewBIP340Signature (data : bytes) : res PopErr bytes :=
  require (bool_decide (is_Some (ParseSignature data))) ErrBIP340Sig;; mret data.

Definition VerifyBIP340 (sigType : N) (btcSigRaw bip340PK msg : bytes) : res PopErr unit :=
  require (sigType =? BTCSigType_BIP340)%N ErrSigType;;
  bip340Sig ← NewBIP340Signature btcSigRaw;
  btcSig ← of_option ErrBIP340Sig (ParseSignature bip340Sig);
  btcPK ← of_option ErrParsePk (ParsePubKey bip340PK);
  require (sig_Verify btcSig (tmhash_Sum msg) btcPK) ErrVerify.

Definition addr_bytes (addr : list N) : bytes := byte_of_N <$> addr.

Definition pop_VerifyBIP340 (pop : ProofOfPossessionBTC) (stakerAddr : list N) (bip340PK : bytes)
  : res PopErr unit :=
  VerifyBIP340 (BtcSigType pop) (BtcSig pop) bip340PK (addr_bytes stakerAddr).

(** The check of the staker's key that goes with an address, or an error. *)
Definition isSupportedAddressAndWitness (address : Address) (witness : list bytes)
  : res PopErr (bytes → res PopErr unit) :=
  script ← of_option ErrAddressScript (PayToAddrScript address);
  if IsPayToTaproot script && (length witness =? 1) then
    mret (λ stakerKey,
      btcKey ← of_option ErrParsePk (ParsePubKey stakerKey);
      keyAddress ← PubKeyToP2TrSpendAddress btcKey;
      require (bool_decide (ScriptAddress keyAddress = ScriptAddress address)) ErrAddressKey)
  else if IsPayToWitnessPubKeyHash script && (length witness =? 2) then
    mret (λ stakerKey,
      match witness !! 1 with
      | None => Panic
      | Some w1 =>
          keyFromWitness ← of_option ErrParsePk (btcec_ParsePubKey w1);
          require (bool_decide (SerializePubKey keyFromWitness = stakerKey)) ErrAddressKey
      end)
  else Err ErrUnsupportedAddress.

Definition VerifyBIP322SigPop (msg : bytes) (address : string) (signature pubKeyNoCoord : bytes)
  : res PopErr unit :=
  require (negb ((length msg =? 0) || (String.length address =? 0) || (length signature =? 0) ||
                 (length pubKeyNoCoord =? 0))) ErrEmptyParam;;
  witness ← SimpleSigToWitness signature;
  btcAddress ← of_option ErrDecodeAddress (DecodeAddress address);
  stakerKeyMatchesBtcAddressFn ← isSupportedAddressAndWitness btcAddress witness;
  VerifyP2WPKHAndP2TR msg witness btcAddress;;
  require (length pubKeyNoCoord =? 32) ErrParsePk;;
  stakerKeyMatchesBtcAddressFn pubKeyNoCoord.

Definition VerifyBIP322 (sigType : N) (btcSigRaw bip340PK signedMsg : bytes) : res PopErr unit :=
  require (sigType =? BTCSigType_BIP322)%N ErrSigType;;
  '(address, sig) ← of_option ErrUnmarshal (BIP322Sig_Unmarshal btcSigRaw);
  VerifyBIP322SigPop signedMsg address sig bip340PK.

Definition MsgToSignBIP322 (addr : list N) : bytes := string_bytes (AccAddress_String addr).

Definition pop_VerifyBIP322 (pop : ProofOfPossessionBTC) (addr : list N) (bip340PK : bytes)
  : res PopErr unit :=
  VerifyBIP322 (BtcSigType pop) (BtcSig pop) bip340PK (MsgToSignBIP322 addr).

Definition VerifyECDSA (sigType : N) (btcSigRaw bip340PK msg : bytes) : res PopErr unit :=
  require (sigType =? BTCSigType_ECDSA)%N ErrSigType;;
  btcPK ← of_option ErrParsePk (ParsePubKey bip340PK);
  '(recoveredPK, _) ← RecoverPublicKey msg btcSigRaw;
  require (bool_decide (SerializePubKey btcPK = SerializePubKey recoveredPK)) ErrRecoveredKey.

Definition pop_VerifyECDSA (pop : ProofOfPossessionBTC) (addr : list N) (bip340PK : bytes)
  : res PopErr unit :=
  VerifyECDSA (BtcSigType pop) (BtcSig pop) bip340PK (string_bytes (AccAddress_String addr)).

Definition pop_Verify (pop : ProofOfPossessionBTC) (staker : list N) (bip340PK : bytes)
  : res PopErr unit :=
  if (BtcSigType pop =? BTCSigType_BIP340)%N then pop_VerifyBIP340 pop staker bip340PK
  else if (BtcSigType pop =? BTCSigType_BIP322)%N then pop_VerifyBIP322 pop staker bip340PK
  else if (BtcSigType pop =? BTCSigType_ECDSA)%N then pop_VerifyECDSA pop staker bip340PK
  else Err ErrSigType.

(** An empty signature stands for nil: encoders omit empty fields. *)
Definition pop_ValidateBasic (pop : ProofOfPossessionBTC) : res PopErr unit :=
  require (negb (length (BtcSig pop) =? 0)) ErrEmptySig;;
  if (BtcSigType pop =? BTCSigType_BIP340)%N then NewBIP340Signature (BtcSig pop);; mret tt
  else if (BtcSigType pop =? BTCSigType_BIP322)%N then
    of_option ErrUnmarshal (BIP322Sig_Unmarshal (BtcSig pop));; mret tt
  else if (BtcSigType pop =? BTCSigType_ECDSA)%N then require (length (BtcSig pop) =? 65) ErrSigSize
  else Err ErrSigType.
End pop.

(** ** Correctness *)
Section correct.
Context `{PLL : PopLibLaws}.

Lemma readScript_write item rest :
  (N.of_nat (length item) ≤ maxWitnessItemSize)%N →
  readScript (WriteVarInt (N.of_nat (length item)) ++ item ++ rest) maxWitnessItemSize = Ok (item, rest).
Proof.
  intros Hi. unfold readScript.
  rewrite ReadVarInt_WriteVarInt by (unfold maxWitnessItemSize in Hi; lia).
  cbn [of_option mbind res_bind]. rewrite (proj2 (N.ltb_ge _ _)) by done.
  cbn [negb require mbind res_bind]. rewrite Nat2N.id.
  rewrite (proj2 (Nat.leb_le _ _)) by (rewrite length_app; lia). cbn [require mbind res_bind].
  by rewrite take_app_length, drop_app_length.
Qed.

Lemma read_items_write items rest :
  Forall (λ item, N.of_nat (length item) ≤ maxWitnessItemSize)%N items →
  read_items (length items)
    (mjoin ((λ item, WriteVarInt (N.of_nat (length item)) ++ item) <$> items) ++ rest) = Ok items.
Proof.
  induction 1 as [|item items Hi Hf IH]; [done|]. cbn [length read_items]. rewrite fmap_cons.
  change (mjoin (?x :: ?l)) with (x ++ mjoin l). rewrite <- !(assoc_L app).
  rewrite readScript_write by done. cbn [mbind res_bind]. by rewrite IH.
Qed.

(** A witness stack that fits the limits is read back from what [SerializeWitness]
    writes. *)
Theorem witness_roundtrip w :
  (N.of_nat (length w) ≤ maxWitnessItemsPerInput)%N →
  Forall (λ item, N.of_nat (length item) ≤ maxWitnessItemSize)%N w →
  (b ← SerializeWitness w; SimpleSigToWitness b) = Ok w.
Proof.
  intros Hl Hw. unfold SerializeWitness, SimpleSigToWitness, writeTxWitness. cbn [mbind res_bind mret res_ret].
  unfold maxWitnessItemsPerInput in Hl. rewrite ReadVarInt_WriteVarInt by lia.
  cbn [of_option mbind res_bind]. rewrite (proj2 (N.ltb_ge _ _)) by done.
  cbn [negb require mbind res_bind]. rewrite Nat2N.id, <- (app_nil_r (mjoin _)). by apply read_items_write.
Qed.
End correct.

(** *** An example: lengths in two bytes *)
Module PopToy.
#[local] Existing Instance Toy.curve.
#[global] Instance poplib `{TxScript} : PopLib := {|
  tmhash_Sum m := m;
  AccAddress_String _ := "";
  ReadVarInt b := if decide (length b < 8) then None else Some (be_decode (take 8 b), drop 8 b);
  WriteVarInt n := be_encode 8 n;
  BIP322Sig_Unmarshal _ := None;
  DecodeAddress _ := None;
  ScriptAddress _ := [];
  IsPayToWitnessPubKeyHash _ := false;
  ComputeTaprootKeyNoScript p := p;
  btcec_ParsePubKey _ := None;
  RecoverCompact _ _ := None;
  vm_Execute _ _ _ := false;
|}.

#[global] Instance poplib_laws `{TxScript} : PopLibLaws.
Proof.
  split. intros n rest Hn. cbn [ReadVarInt WriteVarInt poplib].
  rewrite decide_False by (rewrite length_app, length_be_encode; lia).
  rewrite take_app_length', drop_app_length' by (by rewrite length_be_encode).
  rewrite be_decode_encode, N.mod_small by done. done.
Qed.
End PopToy.
End StakingPop.
