(* ===== verification/StakingKeeper.v ===== *)
(** x/btcstaking: the message server.
    [src/anon/x/btcstaking/keeper/msg_server.go], [keeper/btc_delegations.go],
    [keeper/btc_delegators.go], [keeper/inclusion_proof.go],
    [keeper/unbonding_transaction_sig_validation.go],
    [keeper/allowed_transaction_index.go], [keeper/finality_providers.go]
    (registration and commissions) and [keeper/params.go].

    A handler takes the state of the module, the Bitcoin light client and the block,
    and returns the new state or an error; a transaction that fails leaves no trace.
    The state of x/incentive, where refundable messages are indexed, is a second
    component.  Events for subscribers, logging, metrics and gas are not modelled. *)
From Stdlib Require Import Strings.Byte.
From stdpp Require Import base numbers list sorting gmap strings.
From S2P Require Import Prelude KVStore Bytes Secp256k1 Eots AdaptorSig Btcd BtcUtils BtcTx StakingScripts.
From S2P Require Import BtcLightClient Epoching BtcCheckpoint BtcStaking StakingTx StakingSlash StakingPop StakingMsg.

(** [CalcTapscriptSignaturehash] with the option [WithAnnex]. *)
Class TapAnnex := SignaturehashWithAnnex : N → MsgTx → nat → PrevOuts → bytes → bytes → option bytes.

Module StakingKeeper.
Import StakingScripts StakingTx BtcStaking StakingSlash StakingPop StakingMsg.
Import AdaptorSig (AdaptorSignature).
Import BtcLightClient (BTCHeaderInfo, Header, Height).

(** Equality of strings up to the case of ASCII letters. *)
Definition ascii_lower (c : Ascii.ascii) : Ascii.ascii :=
  let n := Ascii.nat_of_ascii c in
  if (65 <=? n) && (n <=? 90) then Ascii.ascii_of_nat (n + 32) else c.
Fixpoint lower (s : string) : string :=
  match s with EmptyString => EmptyString | String c s => String (ascii_lower c) (lower s) end.
Definition EqualFold (a b : string) : bool := bool_decide (lower a = lower b).

Section keeper.
Context `{Bt : Btcd} `{C : Curve} {BT : BtcTx} {TS : TxScript} {PL : PopLib} {CH : ChainHash}
  {A : Bech32} {ST : StkTypes} {TA : TapAnnex} `{LC : BTCLightClientKeeper}.
Implicit Types (lc : LightClient) (s : BSState) (ctx : Epoching.HeaderInfo).

(** ** The staker's signature on a spending transaction:
    [unbonding_transaction_sig_validation.go] *)

Definition TaprootAnnexTag : byte := x50.

Definition isAnnexedWitness (witness : list bytes) : bool :=
  if length witness <? 2 then false
  else match last witness with
       | Some (b :: _) => bool_decide (b = TaprootAnnexTag)
       | _ => false
       end.

Definition extractAnnex {E} (witness : list bytes) : res E bytes := must_deref (last witness).

Definition parseSchnorrSigFromWitness (rawSig : bytes) : res MsgErr ((N * Z) * N) :=
  if length rawSig =? 64 then
    sig ← of_option ErrNilSig (ParseSignature rawSig); mret (sig, SigHashDefault)
  else
    match length rawSig =? 65, rawSig !! 64 with
    | true, Some b =>
        if bool_decide (b = x00) then Err ErrNilSig
        else
          sig ← of_option ErrNilSig (ParseSignature (take 64 rawSig));
          mret (sig, N_of_byte b)
    | _, _ => Err ErrNilSig
    end.

(** The transaction of a hash: the last one in the list. *)
Definition funding_tx (txs : list MsgTx) (hash : bytes) : option MsgTx :=
  last (filter (λ tx, TxHash tx = hash) txs).

(** The outputs that the inputs spend. *)
Definition buildOutputFetcher (fundingTransactions : list MsgTx) (spendStakeTx : MsgTx)
  : res MsgErr PrevOuts :=
  prevOuts ← fold_res (λ prevOuts i,
      tx ← of_option ErrSpendTx (funding_tx fundingTransactions (op_Hash (PreviousOutPoint i)));
      out ← of_option ErrSpendTx (txOut tx !! N.to_nat (op_Index (PreviousOutPoint i)));
      mret (prevOuts ++ [(PreviousOutPoint i, out)])) [] (txIn spendStakeTx);
  mret (prev_outs prevOuts).

Definition VerifySpendStakeTxStakerSig (stakerPubKey : point) (stakingOutput : TxOut)
    (stakingInputIdx : nat) (fundingTransactions : list MsgTx) (spendStakeTx : MsgTx)
  : res MsgErr unit :=
  require (IsPayToTaproot (PkScript stakingOutput)) ErrSpendTx;;
  stakingInput ← of_option ErrSpendTx (txIn spendStakeTx !! stakingInputIdx);
  let stakeSpendWitness := Witness stakingInput in
  '(annex, stakeSpendWitness) ←
    (if isAnnexedWitness stakeSpendWitness then
       annex ← extractAnnex stakeSpendWitness;
       mret (annex, take (length stakeSpendWitness - 1) stakeSpendWitness)
     else mret ([], stakeSpendWitness));
  match rev stakeSpendWitness with
  | controlBlock :: witnessScript :: stakerRawSig :: _ =>
      let stakingWitnessProgram := drop 2 (PkScript stakingOutput) in
      require (VerifyLeafCommitment controlBlock stakingWitnessProgram witnessScript) ErrSpendTx;;
      '(stakerSig, sigHashType) ← parseSchnorrSigFromWitness stakerRawSig;
      prevOuts ← buildOutputFetcher fundingTransactions spendStakeTx;
      sigHash ← of_option ErrSpendTx
        (if length annex =? 0
         then CalcTapscriptSignaturehash sigHashType spendStakeTx stakingInputIdx prevOuts witnessScript
         else SignaturehashWithAnnex sigHashType spendStakeTx stakingInputIdx prevOuts witnessScript annex);
      require (sig_Verify stakerSig sigHash stakerPubKey) ErrSpendTx
  | _ => Err ErrSpendTx
  end.

(** ** Parameters: [keeper/params.go] *)

Definition AddNewPair (m : list HeightVersionPair) (startHeight version : N) :=
  AddPair m (mkHeightVersionPair startHeight version).

Definition SetHeightToVersionMap s (p : list HeightVersionPair) : res MsgErr BSState :=
  require (HeightToVersionMap_Validate p) (EBs ErrVersionMap);;
  mret (set_params s (bs_params s) (Some p)).

Definition SetParams s (p : Params) : res MsgErr BSState :=
  Params_Validate p;;
  let heightToVersionMap := default [] (heightToVersionMap s) in
  let nextVersion := nextParamsVersion s in
  heightToVersionMap ← map_err EBs (AddNewPair heightToVersionMap (BtcActivationHeight p) nextVersion);
  SetHeightToVersionMap (set_params s (<[nextVersion := p]> (bs_params s)) (BtcStaking.heightToVersionMap s))
    heightToVersionMap.

(** ** Finality providers *)

Definition NewCommissionInfoWithTime (maxRate maxChangeRate : Dec) (updatedAt : Z) : CommissionInfo :=
  mkCommissionInfo maxRate maxChangeRate updatedAt.

Definition CheckDuplicatedFpAncAddr s (fpAddr : list N) : res MsgErr unit :=
  require (negb (HasFpRegistered s fpAddr)) (EBs ErrFpRegistered).

(** A message that passed [ValidateBasic] has a commission, a key and a proof; a
    missing one is a nil dereference. *)
Definition AddFinalityProvider s ctx (msg : MsgCreateFinalityProvider) : res MsgErr BSState :=
  params ← GetParams s;
  fpAddr ← of_option ErrAddr (AccAddressFromBech32 (cfp_Addr msg));
  CheckDuplicatedFpAncAddr s fpAddr;;
  commission ← must_deref (cfp_Commission msg);
  require (negb (cr_Rate commission <? MinCommissionRate params)%Z) (EBs ErrCommissionLTMinRate);;
  let commissionInfo := NewCommissionInfoWithTime (cr_MaxRate commission) (cr_MaxChangeRate commission)
                          (Epoching.hi_Time ctx) in
  CommissionInfo_Validate commissionInfo;;
  require (negb (cr_MaxRate commission <? cr_Rate commission)%Z) (EBs ErrCommissionGTMaxRate);;
  pk ← must_deref (cfp_BtcPk msg);
  require (negb (HasFinalityProvider s pk)) (EBs ErrFpRegistered);;
  let fp := mkFinalityProvider (cfp_Addr msg) (cfp_Description msg) (Some (cr_Rate commission)) pk
              (cfp_Pop msg) 0 0 false 0 (Some commissionInfo) in
  let s := set_addrs s ({[fpAddr]} ∪ fpAncAddr s) in
  mret (SetFinalityProvider s fp).

Definition setCommission (fp : FinalityProvider) (rate : Dec) (info : CommissionInfo)
  : FinalityProvider :=
  mkFinalityProvider (fp_Addr fp) (fp_Description fp) (Some rate) (fp_BtcPk fp) (fp_Pop fp)
    (SlashedAnonHeight fp) (SlashedBtcHeight fp) (Jailed fp) (HighestVotedHeight fp) (Some info).

Definition setDescription (fp : FinalityProvider) (d : option Description) : FinalityProvider :=
  mkFinalityProvider (fp_Addr fp) d (fp_Commission fp) (fp_BtcPk fp) (fp_Pop fp)
    (SlashedAnonHeight fp) (SlashedBtcHeight fp) (Jailed fp) (HighestVotedHeight fp)
    (fp_CommissionInfo fp).

(** A day, in nanoseconds. *)
Definition day : Z := (24 * 3600 * 10 ^ 9)%Z.

Definition UpdateFinalityProviderCommission s ctx (newCommission : option Dec) (fp : FinalityProvider)
  : res MsgErr FinalityProvider :=
  match newCommission with
  | None => mret fp
  | Some newCommission =>
      info ← of_option (EBs ErrNoCommissionInfo) (fp_CommissionInfo fp);
      require (negb (newCommission <? 0)%Z) (EBs ErrCommissionNegative);;
      let blockTime := Epoching.hi_Time ctx in
      require (negb (blockTime - UpdateTime info <? day)%Z) (EBs ErrCommissionUpdateTime);;
      params ← GetParams s;
      require (negb (newCommission <? MinCommissionRate params)%Z) (EBs ErrCommissionLTMinRate);;
      require (negb (MaxRate info <? newCommission)%Z) (EBs ErrCommissionGTMaxRate);;
      rate ← must_deref (fp_Commission fp);
      require (negb (MaxChangeRate info <? Z.abs (newCommission - rate))%Z)
        (EBs ErrCommissionGTMaxChangeRate);;
      mret (setCommission fp newCommission
              (mkCommissionInfo (MaxRate info) (MaxChangeRate info) blockTime))
  end.

(** ** Delegations: [keeper/btc_delegations.go], [keeper/btc_delegators.go] *)

Definition GetStakingTxHash (d : BTCDelegation) : res MsgErr bytes :=
  tx ← map_err ETx (NewBTCTxFromBytes (StakingTx d)); mret (TxHash tx).
Definition MustGetStakingTxHash {E} (d : BTCDelegation) : res E bytes := or_panic (GetStakingTxHash d).
Definition MustGetStakingTx {E} (d : BTCDelegation) : res E MsgTx :=
  or_panic (NewBTCTxFromBytes (StakingTx d)).
Definition MustGetUnbondingTx {E} (d : BTCDelegation) : res E MsgTx :=
  or_panic (NewBTCTxFromBytes (UnbondingTx (BtcUndelegation d))).

Definition setBTCDelegation {E} s (btcDel : BTCDelegation) : res E BSState :=
  stakingTxHash ← MustGetStakingTxHash btcDel;
  mret (set_dels s (<[stakingTxHash := btcDel]> (btcDelegations s))).

Definition getBTCDelegatorDelegationIndex s (fpBTCPK delBTCPK : bytes) : option (list bytes) :=
  if negb (HasFinalityProvider s fpBTCPK) then None else btcDelegators s !! (fpBTCPK, delBTCPK).

Definition setBTCDelegatorDelegationIndex s (fpBTCPK delBTCPK : bytes) (idx : list bytes) : BSState :=
  set_delegators s (<[(fpBTCPK, delBTCPK) := idx]> (btcDelegators s)).

(** A delegation that the index names and the store lacks is nil. *)
Definition getBTCDelegatorDelegations s (fpBTCPK delBTCPK : bytes)
  : option (list (option BTCDelegation)) :=
  (λ hashes : list bytes, getBTCDelegation s <$> hashes) <$> getBTCDelegatorDelegationIndex s fpBTCPK delBTCPK.

(** The indexes of a finality provider in the order of the delegators' keys. *)
Definition fp_indexes s (fpBTCPK : bytes) : list (list bytes) :=
  (bkv_asc (kmap snd (filter (λ p, p.1.1 = fpBTCPK) (btcDelegators s)) : gmap bytes (list bytes))).*2.

Definition HandleFPBTCDelegations {T} s (fpBTCPK : bytes) (handler : T → BTCDelegation → res MsgErr T)
    (t : T) : res MsgErr T :=
  require (HasFinalityProvider s fpBTCPK) (EBs ErrFpNotFound);;
  fold_res (λ t hash, match getBTCDelegation s hash with Some d => handler t d | None => mret t end)
    t (mjoin (fp_indexes s fpBTCPK)).

Definition FpTotalSatsStaked s (fpBTCPK : bytes) : res MsgErr N :=
  total ← HandleFPBTCDelegations s fpBTCPK (λ t d, mret (int64 (t + int64 (Z.of_N (TotalSat d))))) 0%Z;
  mret (u64_of_Z total).

(** [validateStakedFPs]. *)
Definition validateStakedFPs s (fpBTCPKs : list bytes) : res MsgErr unit :=
  fold_res (λ _ fpBTCPK,
    fp ← map_err EBs (GetFinalityProvider s fpBTCPK);
    require (negb (IsSlashed fp)) (EBs ErrFpAlreadySlashed);;
    require (negb (IsFinalityProviderDeleted s fpBTCPK)) (EBs ErrFinalityProviderIsDeleted)) tt fpBTCPKs.

Definition buildStakeExpansion (stkExp : option ParsedCreateDelStkExp) : res MsgErr (option StakeExpansion) :=
  match stkExp with
  | None => mret None
  | Some e =>
      fundingOut ← SerializeOtherFundingOutput e;
      mret (Some (mkStakeExpansion (PreviousActiveStkTxHash e) fundingOut []))
  end.

Definition isAllowListEnabled ctx (p : Params) : bool :=
  (0 <? AllowListExpirationHeight p)%N && (ctx_height ctx <? AllowListExpirationHeight p)%N.

Definition IndexAllowedStakingTransaction s (txHash : bytes) : BSState :=
  mkBSState (finalityProviders s) (fpAncAddr s) (finalityProvidersDeleted s) (btcDelegations s)
    (btcDelegators s) (powerDistUpdateEvents s) (btcHeights s) (largestBtcReorg s) (bs_params s)
    (BtcStaking.heightToVersionMap s) ({[txHash]} ∪ allowedStakingTxHashes s).
Definition IsStakingTransactionAllowed s (txHash : bytes) : bool :=
  bool_decide (txHash ∈ allowedStakingTxHashes s).

(** *** Inclusion proofs: [keeper/inclusion_proof.go] *)

Record DelegationTimeRangeInfo := mkTimeRange { ti_StartHeight : N; ti_EndHeight : N; ti_TipHeight : N }.

(** The header of a hash; a nil hash panics. *)
Definition header_of lc (hash : option bytes) : res MsgErr BTCHeaderInfo :=
  hash ← must_deref hash; of_option (EBs ErrInclusionProof) (lc_GetHeaderByHash lc hash).

Definition tip_info {E} lc : res E BTCHeaderInfo := must_deref (lc_GetTipInfo lc).

Definition VerifyInclusionProofAndGetHeight lc (stakingTx : Tx)
    (confirmationDepth stakingTime unbondingTime : N) (inclusionProof : ParsedProofOfInclusion)
  : res MsgErr DelegationTimeRangeInfo :=
  stakingTxHeader ← header_of lc (HeaderHash inclusionProof);
  btcHeader ← BtcUtils.ToBlockHeader (Header stakingTxHeader);
  require (BtcUtils.VerifyInclusionProof stakingTx (hdr_MerkleRoot btcHeader) (pi_Proof inclusionProof)
             (pi_Index inclusionProof)) (EBs ErrInvalidStakingTx);;
  require (negb (pi_Index inclusionProof =? 0)%N) (EBs ErrInvalidStakingTx);;
  let startHeight := Height stakingTxHeader in
  let endHeight := u32_add (Height stakingTxHeader) stakingTime in
  btcTip ← tip_info lc;
  let stakingTxDepth := u32_sub (Height btcTip) (Height stakingTxHeader) in
  require (negb (stakingTxDepth <? confirmationDepth)%N) (EBs ErrInvalidStakingTx);;
  require (negb (endHeight <=? u32_add (Height btcTip) unbondingTime)%N) (EBs ErrInvalidStakingTx);;
  mret (mkTimeRange startHeight endHeight (Height btcTip)).

Definition AddBTCDelegationInclusionProof s lc (btccParams : BtcCheckpoint.Params)
    (btcDel : BTCDelegation) (stakingTxInclusionProof : option InclusionProof) : res MsgErr BSState :=
  ip ← of_option ErrNoProof stakingTxInclusionProof;
  stakingTxHash ← GetStakingTxHash btcDel;
  require (negb (HasInclusionProof btcDel)) (EBs ErrAlreadyIncluded);;
  params ← must_deref (GetParamsByVersion s (ParamsVersion btcDel));
  hasQuorum ← map_err EBs (BtcDelHasCovenantQuorums s btcDel (CovenantQuorum params));
  require hasQuorum (EBs ErrNoQuorum);;
  require (negb (IsUnbondedEarly btcDel)) (EBs ErrAlreadyUnbonded);;
  parsedInclusionProof ← NewParsedProofOfInclusion (Some ip);
  parsedInclusionProof ← must_deref parsedInclusionProof;
  stakingTx ← map_err ETx (NewBTCTxFromBytes (StakingTx btcDel));
  timeInfo ← VerifyInclusionProofAndGetHeight lc (NewTx stakingTx)
    (BtcCheckpoint.BtcConfirmationDepth btccParams) (StakingTime btcDel) (UnbondingTimeBlocks params)
    parsedInclusionProof;
  require (negb (ti_StartHeight timeInfo <? BtcTipHeight btcDel)%N) (EBs ErrStakingTxIncludedTooEarly);;
  let btcDel := setHeights btcDel (ti_StartHeight timeInfo) (ti_EndHeight timeInfo) in
  s ← setBTCDelegation s btcDel;
  let s := addPowerDistUpdateEvent s (ti_TipHeight timeInfo) (BtcDelStateUpdate stakingTxHash ACTIVE) in
  mret (addPowerDistUpdateEvent s (u32_sub (EndHeight btcDel) (UnbondingTimeBlocks params))
          (BtcDelStateUpdate stakingTxHash EXPIRED)).

(** *** Creating delegations *)

Definition getTimeInfoAndParams s lc (btccParams : BtcCheckpoint.Params)
    (parsedMsg : ParsedCreateDelegationMessage)
  : res MsgErr (DelegationTimeRangeInfo * option Params * N) :=
  match pm_StakingTxProofOfInclusion parsedMsg with
  | Some proof =>
      timeInfo ← VerifyInclusionProofAndGetHeight lc (NewTx (Transaction (pm_StakingTx parsedMsg)))
        (BtcCheckpoint.BtcConfirmationDepth btccParams) (pm_StakingTime parsedMsg)
        (pm_UnbondingTime parsedMsg) proof;
      '(paramsByHeight, version) ← map_err EBs (GetParamsForBtcHeight s (ti_StartHeight timeInfo));
      mret (timeInfo, paramsByHeight, version)
  | None =>
      btcTip ← tip_info lc;
      '(paramsByHeight, version) ← map_err EBs (GetParamsForBtcHeight s (Height btcTip));
      mret (mkTimeRange 0 0 (Height btcTip), paramsByHeight, version)
  end.

(** The loop over the finality providers. *)
Definition index_delegation (stakingTxHash delBTCPK : bytes) s (fpBTCPK : bytes) : res MsgErr BSState :=
  let btcDelIndex := default [] (getBTCDelegatorDelegationIndex s fpBTCPK delBTCPK) in
  btcDelIndex ← idx_Add btcDelIndex stakingTxHash;
  mret (setBTCDelegatorDelegationIndex s fpBTCPK delBTCPK btcDelIndex).

Definition AddBTCDelegation s (btcDel : BTCDelegation) : res MsgErr BSState :=
  stakingTxHash ← GetStakingTxHash btcDel;
  s ← fold_res (index_delegation stakingTxHash (del_BtcPk btcDel)) s (FpBtcPkList btcDel);
  s ← setBTCDelegation s btcDel;
  mret (if HasInclusionProof btcDel
        then addPowerDistUpdateEvent s (u32_sub (EndHeight btcDel) (UnbondingTime btcDel))
               (BtcDelStateUpdate stakingTxHash EXPIRED)
        else s).

Definition new_delegation (pm : ParsedCreateDelegationMessage) (timeInfo : DelegationTimeRangeInfo)
    (stakingOutputIdx paramsVersion : N) (stkExp : option StakeExpansion) : BTCDelegation :=
  mkBTCDelegation (AccAddress_String (pm_StakerAddress pm)) (BIP340PubKey (pm_StakerPK pm))
    (Some (pm_ParsedPop pm)) (PublicKeysAncFormat (pm_FinalityProviderKeys pm)) (pm_StakingTime pm)
    (ti_StartHeight timeInfo) (ti_EndHeight timeInfo) (u64_of_Z (pm_StakingValue pm))
    (TransactionBytes (pm_StakingTx pm)) stakingOutputIdx (TransactionBytes (pm_StakingSlashingTx pm))
    (BIP340Signature (pm_StakerStakingSlashingTxSig pm)) [] (pm_UnbondingTime pm)
    (mkBTCUndelegation (TransactionBytes (pm_UnbondingTx pm)) (TransactionBytes (pm_UnbondingSlashingTx pm))
       (BIP340Signature (pm_StakerUnbondingSlashingSig pm)) [] [] None)
    paramsVersion (ti_TipHeight timeInfo) stkExp.

Definition keeper_CreateBTCDelegation s lc ctx (btccParams : BtcCheckpoint.Params)
    (parsedMsg : ParsedCreateDelegationMessage) : res MsgErr BSState :=
  map_err (λ _, EBs ErrInvalidProofOfPossession)
    (pop_Verify (pm_ParsedPop parsedMsg) (pm_StakerAddress parsedMsg)
       (BIP340PubKey (pm_StakerPK parsedMsg)));;
  let stakingTxHash := TxHash (Transaction (pm_StakingTx parsedMsg)) in
  require (bool_decide (getBTCDelegation s stakingTxHash = None)) (EBs ErrReusedStakingTx);;
  validateStakedFPs s (PublicKeysAncFormat (pm_FinalityProviderKeys parsedMsg));;
  '(timeInfo, params, paramsVersion) ← getTimeInfoAndParams s lc btccParams parsedMsg;
  params ← must_deref params;
  stakingOutputIdx ← ValidateParsedMessageAgainstTheParams parsedMsg params;
  require (negb (isAllowListEnabled ctx params) || IsStakingTransactionAllowed s stakingTxHash)
    (EBs ErrInvalidStakingTx);;
  stkExp ← buildStakeExpansion (pm_StkExp parsedMsg);
  AddBTCDelegation s (new_delegation parsedMsg timeInfo stakingOutputIdx paramsVersion stkExp).

(** *** Status *)

Definition prev_quorum {E} (delInfo : btcDelegationWithParams) : res E N :=
  if IsStakeExpansion (wp_Delegation delInfo)
  then p ← must_deref (wp_PrevParams delInfo); mret (CovenantQuorum p)
  else mret 0%N.

Definition BtcDelStatusWithTip lc (delInfo : btcDelegationWithParams)
  : res MsgErr (BTCDelegationStatus * BTCHeaderInfo) :=
  btcTip ← tip_info lc;
  prevStkCovenantQuorum ← prev_quorum delInfo;
  mret (GetStatus (wp_Delegation delInfo) (Height btcTip) (CovenantQuorum (wp_Params delInfo))
          prevStkCovenantQuorum, btcTip).

(** By the hash in a message. *)
Definition del_by_str s (stakingTxHashStr : string) : res MsgErr BTCDelegation :=
  hash ← of_option ErrHashStr (NewHashFromStr stakingTxHashStr); map_err EBs (GetBTCDelegation s hash).
Definition info_by_str s (stakingTxHashStr : string) : res MsgErr btcDelegationWithParams :=
  hash ← of_option ErrHashStr (NewHashFromStr stakingTxHashStr); map_err EBs (getBTCDelWithParams s hash).

(** The error when the delegation is not active makes the boolean redundant. *)
Definition IsBtcDelegationActive s lc (stakingTxHash : string) : res MsgErr btcDelegationWithParams :=
  delWithParams ← info_by_str s stakingTxHash;
  '(status, _) ← BtcDelStatusWithTip lc delWithParams;
  require (bool_decide (status = ACTIVE)) (EBs ErrInvalidArgument);;
  mret delWithParams.

(** *** Changing delegations *)

Definition addCovenantSigsToBTCDelegation s (delInfo : btcDelegationWithParams) (covPK : bytes)
    (slashingSigs : list AdaptorSignature) (unbondingTxSig : option bytes)
    (unbondingSlashingSigs : list AdaptorSignature) (stakeExpansionTxSig : option bytes)
    (btcTipHeight : N) : res MsgErr BSState :=
  let btcDel := wp_Delegation delInfo in
  let quorum := CovenantQuorum (wp_Params delInfo) in
  quorumPreviousStk ← prev_quorum delInfo;
  let hadQuorum := HasCovenantQuorums btcDel quorum quorumPreviousStk in
  let btcDel := AddCovenantSigs btcDel covPK (AdaptorSig.Marshal <$> slashingSigs) unbondingTxSig
                  (AdaptorSig.Marshal <$> unbondingSlashingSigs) stakeExpansionTxSig in
  s ← setBTCDelegation s btcDel;
  if negb hadQuorum && HasCovenantQuorums btcDel quorum quorumPreviousStk && HasInclusionProof btcDel then
    stakingTxHash ← MustGetStakingTxHash btcDel;
    mret (addPowerDistUpdateEvent s btcTipHeight (BtcDelStateUpdate stakingTxHash ACTIVE))
  else mret s.

Definition btcUndelegate s lc (btcDel : BTCDelegation) (u : DelegatorUnbondingInfo) : res MsgErr BSState :=
  let btcDel := setUnbondingInfo btcDel u in
  s ← setBTCDelegation s btcDel;
  if negb (HasInclusionProof btcDel) then mret s
  else
    stakingTxHash ← MustGetStakingTxHash btcDel;
    btcTip ← tip_info lc;
    mret (addPowerDistUpdateEvent s (Height btcTip) (BtcDelStateUpdate stakingTxHash UNBONDED)).

(** ** The message server: [keeper/msg_server.go] *)

(** The messages whose fee is given back. *)
Inductive RefundableMsg :=
  | RefundInclusionProof (m : MsgAddBTCDelegationInclusionProof)
  | RefundCovenantSigs (m : MsgAddCovenantSigs)
  | RefundUndelegate (m : MsgBTCUndelegate)
  | RefundSelectiveSlashing (m : MsgSelectiveSlashingEvidence).

Context {X : Type} (IndexRefundableMsg : RefundableMsg → X → X) (authority : string).

Definition UpdateParams s (btccParams : BtcCheckpoint.Params) (req : MsgUpdateParams)
  : res MsgErr BSState :=
  require (bool_decide (authority = up_Authority req)) (EBs ErrInvalidSigner);;
  require (negb (UnbondingTimeBlocks (up_Params req) <=?
                 BtcCheckpoint.CheckpointFinalizationTimeout btccParams)%N) (EBs ErrInvalidProposalMsg);;
  SetParams s (up_Params req).

Definition CreateFinalityProvider s ctx (req : MsgCreateFinalityProvider) : res MsgErr BSState :=
  fpAddr ← of_option ErrAddr (AccAddressFromBech32 (cfp_Addr req));
  pop ← must_deref (cfp_Pop req);
  pk ← must_deref (cfp_BtcPk req);
  map_err EPop (pop_Verify pop fpAddr pk);;
  AddFinalityProvider s ctx req.

Definition EditFinalityProvider s ctx (req : MsgEditFinalityProvider) : res MsgErr BSState :=
  fpAddr ← of_option ErrAddr (AccAddressFromBech32 (efp_Addr req));
  fp ← map_err EBs (GetFinalityProvider s (efp_BtcPk req));
  require (EqualFold (AccAddress_String fpAddr) (fp_Addr fp)) (EBs ErrPermissionDenied);;
  fp ← UpdateFinalityProviderCommission s ctx (efp_Commission req) fp;
  let fp := setDescription fp (efp_Description req) in
  mret (SetFinalityProvider s fp).

Definition CreateBTCDelegation s lc ctx (btccParams : BtcCheckpoint.Params)
    (req : MsgCreateBTCDelegation) : res MsgErr BSState :=
  parsedMsg ← create_ToParsed req;
  keeper_CreateBTCDelegation s lc ctx btccParams parsedMsg.

Definition hasSufficientCovenantOverlap (covCommittee1 covCommittee2 : list bytes)
    (requiredOverlap : N) : bool :=
  if (requiredOverlap =? 0)%N || (length covCommittee1 =? 0) || (length covCommittee2 =? 0) then false
  else (requiredOverlap <=? N.of_nat (length (filter (λ pk, pk ∈ covCommittee2) covCommittee1)))%N.

Definition validateStakeExpansionAmt (parsedMsg : ParsedCreateDelegationMessage)
    (newStakingAmt oldStakingAmt : Z) : res MsgErr unit :=
  e ← of_option ErrInvalidStakeExpansion (pm_StkExp parsedMsg);
  require (negb (newStakingAmt <? oldStakingAmt)%Z) ErrInvalidStakeExpansion;;
  let fundingInputValue := Value (OtherFundingOutput e) in
  require (negb (fundingInputValue <=? 0)%Z) ErrInvalidStakeExpansion;;
  let totalInputValue := int64 (oldStakingAmt + fundingInputValue) in
  let totalOutputValue := foldl (λ sum out, int64 (sum + Value out)) 0%Z
                            (txOut (Transaction (pm_StakingTx parsedMsg))) in
  let impliedFee := int64 (totalInputValue - totalOutputValue) in
  require (negb (impliedFee <=? 0)%Z) ErrInvalidStakeExpansion.

Definition validateStakerBtcPk (parsedMsg : ParsedCreateDelegationMessage) (prevBtcDel : BTCDelegation)
  : res MsgErr unit :=
  require (bool_decide (del_BtcPk prevBtcDel = BIP340PubKey (pm_StakerPK parsedMsg)))
    ErrInvalidStakeExpansion.

Definition BtcStakeExpand s lc ctx (btccParams : BtcCheckpoint.Params) (req : MsgBtcStakeExpand)
  : res MsgErr BSState :=
  delInfo ← IsBtcDelegationActive s lc (se_PreviousStakingTxHash req);
  let prevBtcDel := wp_Delegation delInfo in
  require (EqualFold (StakerAddr prevBtcDel) (mc_StakerAddr (se_create req))) (EBs ErrInvalidArgument);;
  parsedMsg ← expand_ToParsed req;
  fp0 ← must_deref (mc_FpBtcPkList (se_create req) !! 0);
  prevFp0 ← must_deref (FpBtcPkList prevBtcDel !! 0);
  require (bool_decide (fp0 = prevFp0)) (EBs ErrInvalidArgument);;
  validateStakerBtcPk parsedMsg prevBtcDel;;
  require (negb (IsFinalityProviderDeleted s fp0)) (EBs ErrFinalityProviderIsDeleted);;
  let stkExpandTx := Transaction (pm_StakingTx parsedMsg) in
  e ← must_deref (pm_StkExp parsedMsg);
  require (match getBTCDelegation s (FundingTxHash e) with
           | Some fundingTxDel => negb (StakingOutputIdx fundingTxDel =? FundingOutputIndex e)%N
           | None => true
           end) (EBs ErrInvalidArgument);;
  in0 ← must_deref (txIn stkExpandTx !! 0);
  require (StakingOutputIdx prevBtcDel =? op_Index (PreviousOutPoint in0))%N (EBs ErrInvalidArgument);;
  let newStakingAmt := pm_StakingValue parsedMsg in
  let oldStakingAmt := int64 (Z.of_N (TotalSat prevBtcDel)) in
  validateStakeExpansionAmt parsedMsg newStakingAmt oldStakingAmt;;
  let oldParams := wp_Params delInfo in
  btcTip ← tip_info lc;
  '(currentParams, _) ← map_err EBs (GetParamsForBtcHeight s (Height btcTip));
  currentParams ← must_deref currentParams;
  require (hasSufficientCovenantOverlap (CovenantPks oldParams) (CovenantPks currentParams)
             (CovenantQuorum oldParams)) (EBs ErrInvalidArgument);;
  keeper_CreateBTCDelegation s lc ctx btccParams parsedMsg.

Definition ms_AddBTCDelegationInclusionProof (sx : BSState * X) lc (btccParams : BtcCheckpoint.Params)
    (req : MsgAddBTCDelegationInclusionProof) : res MsgErr (BSState * X) :=
  let '(s, x) := sx in
  btcDel ← del_by_str s (ai_StakingTxHash req);
  require (negb (IsStakeExpansion btcDel)) ErrInvalidStakeExpansion;;
  s ← AddBTCDelegationInclusionProof s lc btccParams btcDel (ai_StakingTxInclusionProof req);
  mret (s, IndexRefundableMsg (RefundInclusionProof req) x).

Definition validateStakeExpansionSig (delInfo : btcDelegationWithParams) (pk : bytes)
    (stakeExpansionTxSig : option bytes) : res MsgErr unit :=
  let btcDel := wp_Delegation delInfo in
  match StkExp btcDel, stakeExpansionTxSig with
  | None, Some _ => Err (EBs ErrInvalidCovenantSig)
  | None, None => mret tt
  | Some _, None => Err (EBs ErrInvalidCovenantSig)
  | Some e, Some sig =>
      require (negb (stkexp_IsSignedByCovMember e pk)) (EBs ErrDuplicatedCovenantSig);;
      prevBtcDel ← must_deref (wp_PrevDel delInfo);
      prevParams ← must_deref (wp_PrevParams delInfo);
      require (HasCovenantPK prevParams pk) (EBs ErrInvalidCovenantSig);;
      require (hasSufficientCovenantOverlap (CovenantPks prevParams) (CovenantPks (wp_Params delInfo))
                 (CovenantQuorum prevParams)) (EBs ErrInvalidCovenantSig);;
      otherFundingTxOut ← FundingTxOut e;
      prevDelStakingInfo ← map_err ESlash (GetStakingInfo prevBtcDel prevParams);
      prevDelUnbondingPathSpendInfo ← map_err ESc (sti_UnbondingPathSpendInfo prevDelStakingInfo);
      stakingTx ← MustGetStakingTx btcDel;
      prevStakingTx ← MustGetStakingTx prevBtcDel;
      prevOut ← must_deref (txOut prevStakingTx !! N.to_nat (StakingOutputIdx prevBtcDel));
      key ← MustToBTCPK pk;
      map_err (λ _, EBs ErrInvalidCovenantSig)
        (VerifyTransactionSigStkExp stakingTx prevOut otherFundingTxOut
           (GetPkScriptPath prevDelUnbondingPathSpendInfo) key sig)
  end.

(** The signatures of a member of the committee, verified and decoded: on the
    slashing transaction, on the unbonding transaction and on its slashing
    transaction. *)
Definition verify_covenant_sigs (btcDel : BTCDelegation) (params : Params) (pk : bytes)
    (req : MsgAddCovenantSigs) : res MsgErr (list AdaptorSignature * list AdaptorSignature) :=
  require (length (ac_SlashingTxSigs req) =? length (FpBtcPkList btcDel)) (EBs ErrInvalidCovenantSig);;
  stakingInfo ← or_panic (GetStakingInfo btcDel params);
  slashingSpendInfo ← or_panic (sti_SlashingPathSpendInfo stakingInfo);
  slashingSigs ← map_err (λ _, EBs ErrInvalidCovenantSig)
    (ParseEncVerifyAdaptorSignatures (SlashingTx btcDel) (StakingOutput stakingInfo) slashingSpendInfo
       pk (FpBtcPkList btcDel) (ac_SlashingTxSigs req));
  require (length (ac_SlashingUnbondingTxSigs req) =? length (FpBtcPkList btcDel))
    (EBs ErrInvalidCovenantSig);;
  unbondingMsgTx ← or_panic (NewBTCTxFromBytes (UnbondingTx (BtcUndelegation btcDel)));
  unbondingSpendInfo ← or_panic (sti_UnbondingPathSpendInfo stakingInfo);
  key ← MustToBTCPK pk;
  unbondingTxSig ← must_deref (ac_UnbondingTxSig req);
  map_err (λ _, EBs ErrInvalidCovenantSig)
    (VerifyTransactionSigWithOutput unbondingMsgTx (StakingOutput stakingInfo)
       (GetPkScriptPath unbondingSpendInfo) key unbondingTxSig);;
  unbondingOutput ← must_deref (txOut unbondingMsgTx !! 0);
  unbondingInfo ← or_panic (GetUnbondingInfo btcDel params);
  unbondingSlashingSpendInfo ← or_panic (ubi_SlashingPathSpendInfo unbondingInfo);
  unbondingSlashingSigs ← map_err (λ _, EBs ErrInvalidCovenantSig)
    (ParseEncVerifyAdaptorSignatures (ud_SlashingTx (BtcUndelegation btcDel)) unbondingOutput
       unbondingSlashingSpendInfo pk (FpBtcPkList btcDel) (ac_SlashingUnbondingTxSigs req));
  mret (slashingSigs, unbondingSlashingSigs).

Definition ms_AddCovenantSigs (sx : BSState * X) lc (req : MsgAddCovenantSigs)
  : res MsgErr (BSState * X) :=
  let '(s, x) := sx in
  delInfo ← info_by_str s (ac_StakingTxHash req);
  let btcDel := wp_Delegation delInfo in
  let params := wp_Params delInfo in
  pk ← must_deref (ac_Pk req);
  require (HasCovenantPK params pk) (EBs ErrInvalidCovenantPK);;
  require (negb (IsSignedByCovMember btcDel pk && ud_IsSignedByCovMember (BtcUndelegation btcDel) pk))
    (EBs ErrDuplicatedCovenantSig);;
  '(status, btcTip) ← BtcDelStatusWithTip lc delInfo;
  require (negb (bool_decide (status = UNBONDED) || bool_decide (status = EXPIRED)))
    (EBs ErrInvalidCovenantSig);;
  '(slashingSigs, unbondingSlashingSigs) ← verify_covenant_sigs btcDel params pk req;
  map_err (λ _, EBs ErrInvalidCovenantSig)
    (validateStakeExpansionSig delInfo pk (ac_StakeExpansionTxSig req));;
  s ← addCovenantSigsToBTCDelegation s delInfo pk slashingSigs (ac_UnbondingTxSig req)
        unbondingSlashingSigs (ac_StakeExpansionTxSig req) (Height btcTip);
  mret (s, IndexRefundableMsg (RefundCovenantSigs req) x).

(** The first input that spends the output. *)
Definition findInputIdx (tx : MsgTx) (fundingTxHash : bytes) (fundingOutputIdx : N) : res MsgErr nat :=
  match list_find (λ i, op_Hash (PreviousOutPoint i) = fundingTxHash ∧
                        op_Index (PreviousOutPoint i) = fundingOutputIdx) (txIn tx) with
  | Some (i, _) => mret i
  | None => Err ErrSpendTx
  end.

Definition getFundingTxTransactions (txs : list bytes) : res MsgErr (list MsgTx) :=
  require (negb (length txs =? 0)) ErrSpendTx;;
  fold_res (λ fundingTxs tx, fundingTx ← map_err ETx (NewBTCTxFromBytes tx);
                             mret (fundingTxs ++ [fundingTx])) [] txs.

Definition BTCUndelegate (sx : BSState * X) lc (btccParams : BtcCheckpoint.Params)
    (req : MsgBTCUndelegate) : res MsgErr (BSState * X) :=
  let '(s, x) := sx in
  delInfo ← info_by_str s (un_StakingTxHash req);
  '(btcDelStatus, _) ← BtcDelStatusWithTip lc delInfo;
  require (negb (bool_decide (btcDelStatus = UNBONDED) || bool_decide (btcDelStatus = EXPIRED)))
    (EBs ErrInvalidBTCUndelegateReq);;
  stakeSpendingTx ← map_err (λ _, EBs ErrInvalidBTCUndelegateReq) (NewBTCTxFromBytes (un_StakeSpendingTx req));
  proof ← must_deref (un_StakeSpendingTxInclusionProof req);
  key ← must_deref (ip_Key proof);
  stakerSpendigTxHeader ← map_err (λ _, EBs ErrInvalidBTCUndelegateReq)
    (header_of lc (BtcCheckpoint.tk_Hash key));
  btcHeader ← BtcUtils.ToBlockHeader (Header stakerSpendigTxHeader);
  let spendStakeTxHash := TxHash stakeSpendingTx in
  let stakeExpansionDel := getBTCDelegation s spendStakeTxHash in
  s ← match stakeExpansionDel with
      | Some e =>
          if IsStakeExpansion e then
            map_err (λ _, EBs ErrInvalidBTCUndelegateReq)
              (AddBTCDelegationInclusionProof s lc btccParams e (Some proof))
          else
            require (BtcUtils.VerifyInclusionProof (NewTx stakeSpendingTx) (hdr_MerkleRoot btcHeader)
                       (default [] (ip_Proof proof)) (BtcCheckpoint.tk_Index key))
              (EBs ErrInvalidBTCUndelegateReq);; mret s
      | None =>
          require (BtcUtils.VerifyInclusionProof (NewTx stakeSpendingTx) (hdr_MerkleRoot btcHeader)
                     (default [] (ip_Proof proof)) (BtcCheckpoint.tk_Index key))
            (EBs ErrInvalidBTCUndelegateReq);; mret s
      end;
  let btcDel := wp_Delegation delInfo in
  stakingTx ← MustGetStakingTx btcDel;
  let stakingTxHash := TxHash stakingTx in
  stakingTxInputIdx ← map_err (λ _, EBs ErrInvalidBTCUndelegateReq)
    (findInputIdx stakeSpendingTx stakingTxHash (StakingOutputIdx btcDel));
  fundingTxs ← map_err (λ _, EBs ErrInvalidBTCUndelegateReq)
    (getFundingTxTransactions (un_FundingTransactions req));
  stakerKey ← MustToBTCPK (del_BtcPk btcDel);
  stakingOutput ← must_deref (txOut stakingTx !! N.to_nat (StakingOutputIdx btcDel));
  map_err (λ _, EBs ErrInvalidBTCUndelegateReq)
    (VerifySpendStakeTxStakerSig stakerKey stakingOutput stakingTxInputIdx fundingTxs stakeSpendingTx);;
  registeredUnbondingTx ← MustGetUnbondingTx btcDel;
  let delegatorUnbondingInfo :=
    if bool_decide (spendStakeTxHash = TxHash registeredUnbondingTx)
    then mkDelegatorUnbondingInfo []
    else mkDelegatorUnbondingInfo (un_StakeSpendingTx req) in
  s ← btcUndelegate s lc btcDel delegatorUnbondingInfo;
  mret (s, IndexRefundableMsg (RefundUndelegate req) x).

(** [btcec.PrivKeyFromBytes]. *)
Definition SelectiveSlashingEvidence (sx : BSState * X) lc ctx (req : MsgSelectiveSlashingEvidence)
  : res MsgErr (BSState * X) :=
  let '(s, x) := sx in
  let fpSK := (SetBytes (ss_RecoveredFpBtcSk req)).1 in
  let fpBTCPK := NewBIP340PubKeyFromBTCPK (ScalarBaseMult fpSK) in
  s ← map_err EBs (SlashFinalityProvider s lc ctx fpBTCPK);
  mret (s, IndexRefundableMsg (RefundSelectiveSlashing req) x).
End keeper.
End StakingKeeper.
