(* ===== verification/StakingVersions.v ===== *)
(** x/btcstaking: the versions of the parameters.

    The versions that are stored are numbered from 0 without gaps, each starts at a
    larger Bitcoin height than the one before, and the map from heights to versions
    agrees with them.  Hence a version is never overwritten, whatever the wrap-around
    of 32-bit numbers, and the binary search of [GetVersionForHeight] finds the last
    version that has started. *)
From Stdlib Require Import Strings.Byte.
From stdpp Require Import base numbers list sorting gmap strings.
From S2P Require Import Prelude KVStore Bytes Secp256k1 Eots AdaptorSig Btcd BtcUtils BtcTx StakingScripts.
From S2P Require Import BtcLightClient Epoching BtcCheckpoint BtcStaking StakingTx StakingSlash StakingPop StakingMsg StakingKeeper.

Module StakingVersions.
Import StakingScripts StakingTx BtcStaking StakingSlash StakingPop StakingMsg StakingKeeper.

(** ** Searching for a version *)

Definition starts_before (p q : HeightVersionPair) : Prop := (hv_StartHeight p < hv_StartHeight q)%N.

(** The reference: the last pair that has started. *)
Definition version_at (m : list HeightVersionPair) (height : N) : option N :=
  hv_Version <$> last (filter (λ p, hv_StartHeight p ≤ height)%N m).

Lemma pairs_ordered_cons p q m :
  pairs_ordered (p :: q :: m) =
  negb (hv_StartHeight q <=? hv_StartHeight p)%N && (hv_Version q =? u32_add (hv_Version p) 1)%N &&
  pairs_ordered (q :: m).
Proof. done. Qed.

Lemma pairs_ordered_sorted m : pairs_ordered m = true → StronglySorted starts_before m.
Proof.
  intros Hm. apply Sorted_StronglySorted; [intros p q r; unfold starts_before; lia|].
  induction m as [|p m IH]; [constructor|]. constructor.
  - apply IH. destruct m as [|q m]; [done|]. cbn in Hm. by apply andb_prop in Hm as [_ Hm].
  - destruct m as [|q m]; constructor. cbn in Hm. apply andb_prop in Hm as [[Hm _]%andb_prop _].
    apply negb_true_iff, N.leb_gt in Hm. done.
Qed.

Lemma Validate_sorted m : HeightToVersionMap_Validate m = true → StronglySorted starts_before m.
Proof.
  destruct m as [|p [|q m]]; [done| |apply pairs_ordered_sorted].
  intros _. repeat constructor.
Qed.

(** For a validated map, the binary search returns the version of the last pair
    whose start height is not above the height, and an error when none is. *)
Theorem GetVersionForHeight_last m height :
  HeightToVersionMap_Validate m = true →
  GetVersionForHeight m height = of_option ErrVersionMap (version_at m height).
Proof.
  intros Hm. pose proof (Validate_sorted _ Hm) as Hs. unfold GetVersionForHeight, version_at.
  destruct m as [|p m']; [done|]. set (m := p :: m') in *. clearbody m. clear p m' Hm.
  set (f := λ i, match m !! i with Some p => (height <? hv_StartHeight p)%N | None => false end).
  assert (monotone f (length m)) as Hmono.
  { intros i j Hij Hj Hf. unfold f in *. destruct (m !! j) as [q|] eqn:Hq.
    2: { apply lookup_ge_None in Hq. lia. }
    destruct (m !! i) as [p|] eqn:Hp; [|done]. apply N.ltb_lt in Hf. apply N.ltb_lt.
    destruct (decide (i = j)) as [->|]; [simplify_eq; lia|].
    pose proof (StronglySorted_lookup _ _ i j p q Hs Hp Hq ltac:(lia)) as Hlt. unfold starts_before in Hlt. lia. }
  destruct (sort_Search_spec (length m) f Hmono) as (Hle & Hlo & Hhi).
  set (n := sort_Search (length m) f) in *. clearbody n.
  rewrite (filter_prefix _ n).
  2: { apply Forall_lookup. intros i p [Hp Hi]%lookup_take_Some. specialize (Hlo i Hi).
       unfold f in Hlo. rewrite Hp in Hlo. by apply N.ltb_ge. }
  2: { apply Forall_lookup. intros i p Hp. rewrite lookup_drop in Hp.
       assert (f (n + i) = true) as Hf by (apply Hhi; [lia|by eapply lookup_lt_Some]).
       unfold f in Hf. rewrite Hp in Hf. apply N.ltb_lt in Hf. lia. }
  destruct n as [|n]; [by rewrite take_0|].
  destruct (lookup_lt_is_Some_2 m n ltac:(lia)) as [p Hp]. rewrite Hp.
  by rewrite (take_S_r _ _ _ Hp), last_snoc.
Qed.

(** ** The stored versions *)

Section versions.
Context `{Bt : Btcd} `{C : Curve} {BT : BtcTx} {TS : TxScript} {PL : PopLib} {CH : ChainHash}
  {A : Bech32} {ST : StkTypes}.

Definition activates_before (p q : Params) : Prop := (BtcActivationHeight p < BtcActivationHeight q)%N.

(** The pairs of a list of versions. *)
Definition version_pairs (ps : list Params) : list HeightVersionPair :=
  imap (λ i p, mkHeightVersionPair (BtcActivationHeight p) (N.of_nat i)) ps.

Record versions_ok (s : BSState) (ps : list Params) : Prop := {
  vs_params v : bs_params s !! v = ps !! N.to_nat v;
  vs_map : default [] (heightToVersionMap s) = version_pairs ps;
  vs_sorted : StronglySorted activates_before ps;
  vs_heights : Forall (λ p, BtcActivationHeight p ≤ max_u32)%N ps;
  vs_valid : Forall (λ p, Params_Validate p = Ok tt) ps;
}.

(** A version cannot start below its number, so there are at most [2^32] of them. *)
Lemma activation_bound ps i p :
  StronglySorted activates_before ps → ps !! i = Some p → (N.of_nat i ≤ BtcActivationHeight p)%N.
Proof.
  intros Hs. revert p. induction i as [|i IH]; intros p Hp; [lia|].
  destruct (lookup_lt_is_Some_2 ps i) as [q Hq]; [apply lookup_lt_Some in Hp; lia|].
  specialize (IH _ Hq).
  pose proof (StronglySorted_lookup _ _ i (S i) q p Hs Hq Hp ltac:(lia)) as Hlt.
  unfold activates_before in Hlt. lia.
Qed.

Lemma version_pairs_last ps p :
  version_pairs (ps ++ [p]) = version_pairs ps ++ [mkHeightVersionPair (BtcActivationHeight p) (N.of_nat (length ps))].
Proof. unfold version_pairs. rewrite imap_app. simpl. by rewrite Nat.add_0_r. Qed.

(** The number of the next version, before wrap-around. *)
Lemma next_version s ps :
  versions_ok s ps → nextParamsVersion s = u32 (N.of_nat (length ps)).
Proof.
  intros [Hp _ _ _ _]. unfold nextParamsVersion.
  destruct ps as [|p ps _] using rev_ind.
  - assert (bs_params s = ∅) as ->; [|done]. apply map_empty. intros v. by rewrite Hp.
  - destruct (kv_desc_head (bs_params s) (N.of_nat (length ps)) p) as [l ->].
    + by rewrite Hp, Nat2N.id, list_lookup_middle.
    + intros v q Hq. rewrite Hp in Hq. apply lookup_lt_Some in Hq. rewrite length_app in Hq. simpl in Hq. lia.
    + unfold u32_add. rewrite length_app. simpl. f_equal. lia.
Qed.

Lemma activates_snoc ps q p :
  StronglySorted activates_before (ps ++ [q]) → activates_before q p →
  StronglySorted activates_before ((ps ++ [q]) ++ [p]).
Proof.
  intros Hs Hq. apply StronglySorted_app_2; [|done|repeat constructor].
  intros r x Hr ->%list_elem_of_singleton. apply elem_of_app in Hr as [Hr| ->%list_elem_of_singleton]; [|done].
  assert (activates_before r q) as Hrq by (eapply StronglySorted_app_1_elem_of; [done|done|by left]).
  unfold activates_before in *. lia.
Qed.

(** A pair that can be added starts the version of the next number, which fits 32
    bits. *)
Lemma add_version ps p m :
  StronglySorted activates_before ps → (BtcActivationHeight p ≤ max_u32)%N →
  AddNewPair (version_pairs ps) (BtcActivationHeight p) (u32 (N.of_nat (length ps))) = Ok m →
  (N.of_nat (length ps) < 2 ^ 32)%N ∧ m = version_pairs (ps ++ [p]) ∧
  StronglySorted activates_before (ps ++ [p]).
Proof.
  intros Hs Hact. unfold AddNewPair, AddPair. destruct ps as [|q ps _] using rev_ind; intros Hadd.
  { cbn in Hadd. injection Hadd as <-. split_and!; [done|done|repeat constructor]. }
  rewrite version_pairs_last, last_snoc in Hadd. cbn [hv_StartHeight hv_Version] in Hadd.
  destruct (N.leb_spec (BtcActivationHeight p) (BtcActivationHeight q)) as [|Hlt]; [done|].
  assert ((N.of_nat (length ps) ≤ BtcActivationHeight q)%N) as Hq.
  { apply (activation_bound (ps ++ [q])); [done|by rewrite list_lookup_middle]. }
  assert (N.of_nat (length (ps ++ [q])) = N.of_nat (length ps) + 1)%N as Hlen
    by (rewrite length_app; simpl; lia).
  unfold max_u32 in Hact. rewrite Hlen, u32_small, u32_add_small, N.eqb_refl in Hadd by lia.
  injection Hadd as <-. split_and!; [lia| |by apply activates_snoc].
  by rewrite (version_pairs_last (ps ++ [q]) p), (version_pairs_last ps q), Hlen.
Qed.

Lemma lookup_snoc_N {T} (ps : list T) p v :
  (ps ++ [p]) !! N.to_nat v = if decide (v = N.of_nat (length ps)) then Some p else ps !! N.to_nat v.
Proof.
  destruct (decide _) as [->|Hne]; [by rewrite Nat2N.id, list_lookup_middle|].
  destruct (ps !! N.to_nat v) as [q|] eqn:Hq; [by rewrite (lookup_app_l_Some _ _ _ _ Hq)|].
  apply lookup_ge_None in Hq. apply lookup_ge_None. rewrite length_app. simpl. lia.
Qed.

(** [SetParams] appends a version, under a number that is new. *)
Lemma SetParams_ok s ps p s' :
  versions_ok s ps → (BtcActivationHeight p ≤ max_u32)%N → SetParams s p = Ok s' →
  s' = set_params s (<[N.of_nat (length ps) := p]> (bs_params s)) (Some (version_pairs (ps ++ [p]))) ∧
  versions_ok s' (ps ++ [p]).
Proof.
  intros Hok Hact Hset. pose proof (next_version _ _ Hok) as Hnext. destruct Hok as [Hp Hm Hs Hh Hv].
  unfold SetParams in Hset. cbv zeta in Hset. apply bind_Ok in Hset as ([] & Hvalid & Hset).
  apply bind_Ok in Hset as (m & Hadd & Hset). apply map_err_Ok in Hadd. rewrite Hm, Hnext in Hadd.
  destruct (add_version _ _ _ Hs Hact Hadd) as (Hlen & -> & Hs').
  unfold SetHeightToVersionMap in Hset. inv_ok. rewrite Hnext, u32_small by done.
  split; [done|]. split; cbn.
  - intros v. rewrite lookup_snoc_N. case_decide as Hv'; [by rewrite Hv', lookup_insert_eq|].
    by rewrite lookup_insert_ne.
  - done.
  - done.
  - by apply Forall_app_2, Forall_singleton.
  - by apply Forall_app_2, Forall_singleton.
Qed.

(** [SetParams] succeeds on valid parameters that start later than the others. *)
Lemma pairs_from_ordered k ps :
  StronglySorted activates_before ps → (N.of_nat (k + length ps) ≤ 2 ^ 32)%N →
  pairs_ordered (imap (λ i p, mkHeightVersionPair (BtcActivationHeight p) (N.of_nat (k + i))) ps) = true.
Proof.
  revert k. induction ps as [|p ps IH]; intros k Hs Hk; [done|].
  apply StronglySorted_cons in Hs as [Hp Hs]. rewrite imap_cons. simpl in Hk.
  specialize (IH (S k) Hs ltac:(lia)).
  rewrite (imap_ext (_ ∘ S) (λ i q, mkHeightVersionPair (BtcActivationHeight q) (N.of_nat (S k + i))));
    [|by intros; simpl; do 2 f_equal; lia].
  destruct ps as [|q ps]; [done|]. rewrite imap_cons in IH |- *.
  rewrite pairs_ordered_cons, IH, andb_true_r. cbn [hv_StartHeight hv_Version].
  apply Forall_cons in Hp as [Hp _]. unfold activates_before in Hp.
  rewrite (proj2 (N.leb_gt _ _)) by done. simpl in Hk. rewrite u32_add_small by lia.
  cbn [negb andb]. apply N.eqb_eq. lia.
Qed.

Lemma version_pairs_valid ps :
  StronglySorted activates_before ps → ps ≠ [] → (N.of_nat (length ps) ≤ 2 ^ 32)%N →
  HeightToVersionMap_Validate (version_pairs ps) = true.
Proof.
  intros Hs Hne Hl. pose proof (pairs_from_ordered 0 ps Hs Hl) as Ho.
  destruct ps as [|p [|q ps]]; [done|done|]. exact Ho.
Qed.

Lemma versions_length s ps : versions_ok s ps → (N.of_nat (length ps) ≤ 2 ^ 32)%N.
Proof.
  intros [_ _ Hs Hh _]. destruct ps as [|p ps _] using rev_ind; [done|].
  assert ((ps ++ [p]) !! length ps = Some p) as Hp by by rewrite list_lookup_middle.
  pose proof (activation_bound _ _ _ Hs Hp). rewrite Forall_lookup in Hh. specialize (Hh _ _ Hp).
  unfold max_u32 in Hh. rewrite length_app. simpl. lia.
Qed.

Lemma SetParams_total s ps p :
  versions_ok s ps → (BtcActivationHeight p ≤ max_u32)%N → Params_Validate p = Ok tt →
  StronglySorted activates_before (ps ++ [p]) → is_ok (SetParams s p) = true.
Proof.
  intros Hok Hact Hv Hs. pose proof (next_version _ _ Hok) as Hnext.
  destruct Hok as [Hp Hm _ Hh Hvs].
  assert (N.of_nat (length ps) < 2 ^ 32)%N as Hlen.
  { pose proof (activation_bound _ (length ps) p Hs ltac:(by rewrite list_lookup_middle)).
    unfold max_u32 in Hact. lia. }
  assert (AddNewPair (version_pairs ps) (BtcActivationHeight p) (N.of_nat (length ps)) =
          Ok (version_pairs (ps ++ [p]))) as Hadd.
  { unfold AddNewPair, AddPair. destruct ps as [|q ps _] using rev_ind; [done|].
    rewrite (version_pairs_last (ps ++ [q]) p), (version_pairs_last ps q), last_snoc, length_app.
    cbn [hv_StartHeight hv_Version]. rewrite length_app in Hlen. simpl in Hlen |- *.
    assert (activates_before q p) as Hqp by (eapply StronglySorted_app_1_elem_of; [done|set_solver|by left]).
    unfold activates_before in Hqp. rewrite (proj2 (N.leb_gt _ _)), u32_add_small by lia.
    by rewrite (proj2 (N.eqb_eq _ _)) by lia. }
  unfold SetParams. rewrite Hv. cbn [mbind res_bind]. cbv zeta. rewrite Hm, Hnext, u32_small, Hadd by done.
  cbn [mbind res_bind map_err]. unfold SetHeightToVersionMap.
  rewrite version_pairs_valid; [done|done| |rewrite length_app; simpl; lia]. by destruct ps.
Qed.
End versions.
End StakingVersions.
