(* ===== verification/StakingKeeperSpec.v ===== *)
(** x/btcstaking: what the message server guarantees.

    The invariant of the stored delegations: each is stored under the hash of its
    staking transaction, its parameters are those it was validated against, and the
    slashing transactions of its staking and unbonding outputs are signed by the
    staker and by every member of the committee that is recorded, with distinct
    members.  Every handler preserves it.  Hence a delegation with a quorum of
    signatures can be slashed by whoever has the key of its finality provider. *)
From Stdlib Require Import Strings.Byte.
From stdpp Require Import base numbers list sorting gmap strings.
From S2P Require Import Prelude KVStore Bytes Secp256k1 Eots AdaptorSig Btcd BtcUtils BtcTx StakingScripts.
From S2P Require Import BtcLightClient Epoching BtcCheckpoint BtcStaking StakingTx StakingSlash StakingPop StakingMsg StakingKeeper.

Module StakingKeeperSpec.
Import StakingScripts StakingTx BtcStaking StakingSlash StakingPop StakingMsg StakingKeeper.

Section spec.
Context `{Bt : Btcd} `{CL : CurveLaws} {BT : BtcTx} {TS : TxScript} {BTL : BtcTxLaws}
  {TSL : TxScriptLaws} {PL : PopLib} {CH : ChainHash} {A : Bech32} {ST : StkTypes} {TA : TapAnnex}
  {LC : BTCLightClientKeeper}.

(** ** Parsed messages *)

Lemma match_outputs_Ok output i m outs j :
  match_outputs output i m outs = Ok (Some j) →
  m = Some j ∨ (i ≤ j ∧ outs !! (j - i) = Some output).
Proof.
  revert i m. induction outs as [|out outs IH]; intros i m Hm; cbn [match_outputs] in Hm.
  { injection Hm as ->. by left. }
  destruct (Z.eqb_spec (Value out) (Value output)) as [Hv|]; cbn [negb] in Hm.
  2: { destruct (IH _ _ Hm) as [|[? Hj]]; [by left|right]. split; [lia|].
       by replace (j - i) with (S (j - S i)) by lia. }
  case_bool_decide as Hs; cbn [negb] in Hm.
  2: { destruct (IH _ _ Hm) as [|[? Hj]]; [by left|right]. split; [lia|].
       by replace (j - i) with (S (j - S i)) by lia. }
  destruct m as [|]; [done|]. destruct (IH _ _ Hm) as [[= ->]|[? Hj]]; right.
  - split; [done|]. rewrite Nat.sub_diag. simpl. f_equal. by destruct out, output; simplify_eq/=.
  - split; [lia|]. by replace (j - i) with (S (j - S i)) by lia.
Qed.

Lemma GetOutputIdxInBTCTx_Ok tx output idx :
  GetOutputIdxInBTCTx tx output = Ok idx → txOut tx !! N.to_nat idx = Some output.
Proof.
  unfold GetOutputIdxInBTCTx. intros Hi. apply bind_Ok in Hi as ([j|] & Hm & Hi); [|done].
  destruct (max_u32 <? N.of_nat j)%N; [done|]. injection Hi as <-.
  apply match_outputs_Ok in Hm as [[=]|[_ Hj]]. by rewrite Nat.sub_0_r in Hj; rewrite Nat2N.id.
Qed.

(** A slashing transaction that matches its funding output may be signed. *)
Lemma CheckSlashing_signable tx funding idx fee rate script pk lockTime :
  CheckSlashingTxMatchFundingTx tx funding idx fee rate script pk lockTime = Ok tt →
  checkTxBeforeSigning tx funding idx = Ok tt ∧ CheckTransactionSanity (NewTx funding) = true.
Proof.
  unfold CheckSlashingTxMatchFundingTx. intros Hc. inv_ok.
  destruct (txOut funding !! N.to_nat idx) as [out|] eqn:Hout; [|done]. inv_ok.
  match goal with H : validateSlashingTx _ _ _ _ _ _ _ = Ok _ |- _ =>
    unfold validateSlashingTx in H; apply bind_Ok in H as ([] & Hs%CheckPreSignedTxSanity_Ok & _) end.
  destruct Hs as (_ & Hlen & _). unfold checkTxBeforeSigning.
  destruct (txIn tx) as [|in0 [|]] eqn:Htx; try (cbn in Hlen; lia). inv_ok.
  rewrite (proj2 (N.ltb_lt _ _)) by (apply lookup_lt_Some in Hout; lia). cbn [require mbind res_bind].
  split; [|done].
  repeat match goal with H : _ = true |- _ => rewrite H; cbn [require mbind res_bind]; clear H end. done.
Qed.

(** What parsing guarantees. *)
Definition parsed_wf (pm : ParsedCreateDelegationMessage) : Prop :=
  NewBTCTxFromBytes (TransactionBytes (pm_StakingTx pm)) = Ok (Transaction (pm_StakingTx pm)) ∧
  NewBTCTxFromBytes (TransactionBytes (pm_StakingSlashingTx pm)) = Ok (Transaction (pm_StakingSlashingTx pm)) ∧
  NewBTCTxFromBytes (TransactionBytes (pm_UnbondingTx pm)) = Ok (Transaction (pm_UnbondingTx pm)) ∧
  NewBTCTxFromBytes (TransactionBytes (pm_UnbondingSlashingTx pm))
    = Ok (Transaction (pm_UnbondingSlashingTx pm)) ∧
  ParsePubKey (BIP340PubKey (pm_StakerPK pm)) = Some (PublicKey (pm_StakerPK pm)) ∧
  Forall2 (λ pk key, ParsePubKey pk = Some key) (PublicKeysAncFormat (pm_FinalityProviderKeys pm))
    (PublicKeys (pm_FinalityProviderKeys pm)) ∧
  length (PublicKeysAncFormat (pm_FinalityProviderKeys pm)) = 1 ∧
  (pm_StakingTime pm ≤ max_u16)%N ∧ (pm_UnbondingTime pm ≤ max_u16)%N ∧
  (0 ≤ pm_StakingValue pm)%Z ∧ (0 ≤ pm_UnbondingValue pm)%Z.

Lemma NewBtcTransaction_Ok b t :
  NewBtcTransaction b = Ok t → NewBTCTxFromBytes (TransactionBytes t) = Ok (Transaction t).
Proof. unfold NewBtcTransaction. intros Ht. by inv_ok. Qed.

Lemma u16_small n : (n ≤ max_u16)%N → u16 n = n.
Proof. unfold max_u16, u16. intros. apply N.mod_small. lia. Qed.

Lemma parse_create_wf msg pm : parseCreateDelegationMessage msg = Ok pm → parsed_wf pm ∧ pm_StkExp pm = None.
Proof.
  unfold parseCreateDelegationMessage. intros Hp. inv_ok.
  repeat match goal with
  | H : NewBtcTransaction _ = Ok _ |- _ => apply NewBtcTransaction_Ok in H
  | H : NewParsedPublicKeyList _ = Ok _ |- _ => unfold NewParsedPublicKeyList in H; inv_ok
  | H : NewParsedPublicKey _ = Ok _ |- _ => unfold NewParsedPublicKey in H; inv_ok
  | H : NewBTCPKsFromBIP340PKs _ _ = Ok _ |- _ => apply NewBTCPKs_Ok in H
  end.
  repeat match goal with
  | H : negb (_ <? _)%N = true |- _ => apply negb_true_iff, N.ltb_ge in H
  | H : negb (_ <? _)%Z = true |- _ => apply negb_true_iff, Z.ltb_ge in H
  | H : (_ =? _) = true |- _ => apply Nat.eqb_eq in H
  end.
  split; [|done]. unfold parsed_wf. cbn. rewrite !u16_small by done. done.
Qed.

Lemma parse_expand_wf msg pm : parseBtcExpandMessage msg = Ok pm → parsed_wf pm.
Proof.
  unfold parseBtcExpandMessage. intros Hp. inv_ok.
  match goal with H : parseCreateDelegationMessage _ = Ok _ |- _ => by apply parse_create_wf in H as [? _] end.
Qed.

(** ** Well-formed delegations *)

Definition staking_presigned (params : Params) (d : BTCDelegation) : Prop :=
  ∃ info si msgTx stakingTx, GetStakingInfo d params = Ok info ∧
    sti_SlashingPathSpendInfo info = Ok si ∧
    presigned (SlashingTx d) (StakingTx d) (StakingOutputIdx d) (GetPkScript info) si (del_BtcPk d)
      (FpBtcPkList d) (DelegatorSig d) params (CovenantSigs d) msgTx stakingTx (StakingOutput info).

Definition unbonding_presigned (params : Params) (d : BTCDelegation) : Prop :=
  let ud := BtcUndelegation d in
  ∃ info si msgTx unbondingTx out, GetUnbondingInfo d params = Ok info ∧
    ubi_SlashingPathSpendInfo info = Ok si ∧
    presigned (ud_SlashingTx ud) (UnbondingTx ud) 0 (PkScript (UnbondingOutput info)) si (del_BtcPk d)
      (FpBtcPkList d) (DelegatorSlashingSig ud) params (CovenantSlashingSigs ud) msgTx unbondingTx out.

(** The members whose signatures are recorded are the same everywhere. *)
Definition same_signers (d : BTCDelegation) : Prop :=
  CovPk <$> CovenantSlashingSigs (BtcUndelegation d) = CovPk <$> CovenantSigs d ∧
  si_Pk <$> CovenantUnbondingSigList (BtcUndelegation d) = CovPk <$> CovenantSigs d.

Definition delegation_wf (params : Params) (d : BTCDelegation) : Prop :=
  staking_presigned params d ∧ unbonding_presigned params d ∧ same_signers d.

Lemma MustGetCovenantPks_Ok {E} (params : Params) keys :
  MustGetCovenantPks (E := E) params = Ok keys →
  Forall2 (λ pk key, ParsePubKey pk = Some key) (CovenantPks params) keys.
Proof.
  unfold MustGetCovenantPks. destruct (NewBTCPKsFromBIP340PKs tt _) as [ks| |] eqn:Hk; [|done..].
  intros [= <-]. by apply NewBTCPKs_Ok in Hk.
Qed.

Lemma MustToBTCPK_Some {E} pk key : ParsePubKey pk = Some key → MustToBTCPK (E := E) pk = Ok key.
Proof. unfold MustToBTCPK. by intros ->. Qed.

Lemma ToMsgTx_Ok b tx : NewBTCTxFromBytes b = Ok tx → ToMsgTx b = Ok tx.
Proof. unfold ToMsgTx. by intros ->. Qed.

Lemma or_panic_Ok {E E' B} (r : res E B) x : or_panic (E' := E') r = Ok x ↔ r = Ok x.
Proof. destruct r; naive_solver. Qed.

Lemma must_deref_Ok {E B} (o : option B) x : must_deref (E := E) o = Ok x ↔ o = Some x.
Proof. destruct o; naive_solver. Qed.

Lemma slashing_VerifySignature_Ok tx msgTx out script key sig :
  NewBTCTxFromBytes tx = Ok msgTx →
  VerifyTransactionSigWithOutput msgTx out script key sig = Ok tt →
  slashing_VerifySignature tx out script key sig = Ok tt.
Proof. intros Htx Hv. unfold slashing_VerifySignature. rewrite (ToMsgTx_Ok _ _ Htx). cbn. by rewrite Hv. Qed.

(** Facts about a checked output, as [presigned] states them. *)
Lemma checked_presigned tx funding idx pkScript si stakerPK key fpPKs sig params msgTx fundingTx out
    fee rate script lockTime :
  NewBTCTxFromBytes tx = Ok msgTx → NewBTCTxFromBytes funding = Ok fundingTx →
  txOut fundingTx !! N.to_nat idx = Some out → PkScript out = pkScript →
  CheckSlashingTxMatchFundingTx msgTx fundingTx idx fee rate script key lockTime = Ok tt →
  ParsePubKey stakerPK = Some key →
  VerifyTransactionSigWithOutput msgTx out (RevealedLeaf si) key sig = Ok tt →
  presigned tx funding idx pkScript si stakerPK fpPKs sig params [] msgTx fundingTx out.
Proof.
  intros Htx Hf Hout Hpk [Hc _]%CheckSlashing_signable Hkey Hv.
  split_and!; [by apply ToMsgTx_Ok|by apply ToMsgTx_Ok|done|done|done| |constructor|constructor].
  exists key. split; [done|]. by apply (slashing_VerifySignature_Ok _ msgTx).
Qed.

Lemma check_staking_presigned pm params keys idx ti v e :
  parsed_wf pm → Forall2 (λ pk key, ParsePubKey pk = Some key) (CovenantPks params) keys →
  check_staking pm params keys = Ok idx →
  staking_presigned params (new_delegation pm ti idx v e).
Proof.
  intros (Hst & Hsl & _ & _ & Hpk & Hfp & _ & Htime & _ & Hval & _) Hck Hc.
  unfold check_staking in Hc. cbv zeta in Hc. inv_ok.
  repeat match goal with
  | H : must_deref _ = Ok _ |- _ => apply (proj1 (must_deref_Ok _ _)) in H
  | H : or_panic _ = Ok _ |- _ => apply (proj1 (or_panic_Ok _ _)) in H
  | x : unit |- _ => destruct x
  end.
  match goal with H : BuildStakingInfo _ _ _ _ _ _ = Ok ?i |- _ => rename H into Hinfo, i into info end.
  match goal with H : GetOutputIdxInBTCTx _ _ = Ok _ |- _ => apply GetOutputIdxInBTCTx_Ok in H as Hidx end.
  match goal with H : sti_SlashingPathSpendInfo _ = Ok ?i |- _ => rename H into Hsi, i into si end.
  match goal with H : CheckSlashingTxMatchFundingTx _ _ _ _ _ _ _ _ = Ok _ |- _ => rename H into Hcheck end.
  simplify_eq.
  match goal with H : txOut _ !! N.to_nat _ = Some _ |- _ => rename H into Hout end.
  exists info, si. eexists _, _. split_and!; [|done|by eapply checked_presigned].
  assert (Value (StakingOutput info) = pm_StakingValue pm) as Hvalue.
  { unfold BuildStakingInfo in Hinfo. cbv zeta in Hinfo. by inv_ok. }
  destruct (funding_amount _ _ _ (proj2 (CheckSlashing_signable _ _ _ _ _ _ _ _ Hcheck)) Hout) as [_ Hmax].
  unfold MaxSatoshi in Hmax. unfold GetStakingInfo, new_delegation. cbn.
  rewrite (proj2 (NewBTCPKs_Ok _ _ _) Hfp). cbn [mbind res_bind].
  rewrite (proj2 (NewBTCPKs_Ok _ _ _) Hck). cbn [mbind res_bind].
  rewrite (MustToBTCPK_Some _ _ Hpk). cbn [mbind res_bind].
  unfold MustGetValidStakingTime. cbn. rewrite (proj2 (N.ltb_ge _ _)) by done. cbn [mbind res_bind].
  assert (int64 (Z.of_N (u64_of_Z (pm_StakingValue pm))) = pm_StakingValue pm) as ->.
  { unfold u64_of_Z. rewrite Z2N.id by (apply Z.mod_pos_bound; lia).
    rewrite Z.mod_small by lia. apply int64_small. lia. }
  by rewrite Hinfo.
Qed.

Lemma check_unbonding_presigned pm params keys out ti idx v e :
  parsed_wf pm → Forall2 (λ pk key, ParsePubKey pk = Some key) (CovenantPks params) keys →
  check_unbonding pm params keys = Ok out →
  unbonding_presigned params (new_delegation pm ti idx v e).
Proof.
  intros (_ & _ & Hut & Hus & Hpk & Hfp & _ & _ & Htime & _) Hck Hc.
  unfold check_unbonding in Hc. cbv zeta in Hc. inv_ok.
  repeat match goal with
  | H : must_deref _ = Ok _ |- _ => apply (proj1 (must_deref_Ok _ _)) in H
  | H : or_panic _ = Ok _ |- _ => apply (proj1 (or_panic_Ok _ _)) in H
  | H : bool_decide _ = true |- _ => apply bool_decide_eq_true in H
  | H : (_ =? _)%Z = true |- _ => apply Z.eqb_eq in H
  | x : unit |- _ => destruct x
  end.
  match goal with H : BuildUnbondingInfo _ _ _ _ _ _ = Ok ?i |- _ => rename H into Hinfo, i into info end.
  match goal with H : ubi_SlashingPathSpendInfo _ = Ok ?i |- _ => rename H into Hsi, i into si end.
  match goal with H : txOut _ !! 0 = Some out |- _ => rename H into Hout end.
  assert (Value (UnbondingOutput info) = pm_UnbondingValue pm) as Hvalue.
  { clear -Hinfo. unfold BuildUnbondingInfo in Hinfo. cbv zeta in Hinfo. by inv_ok. }
  exists info, si. eexists _, _, out. split_and!; [|done|by eapply checked_presigned].
  unfold GetUnbondingInfo, new_delegation. cbn.
  rewrite (proj2 (NewBTCPKs_Ok _ _ _) Hfp). cbn [mbind res_bind].
  rewrite (proj2 (NewBTCPKs_Ok _ _ _) Hck). cbn [mbind res_bind].
  rewrite (ToMsgTx_Ok _ _ Hut). cbn [mbind res_bind].
  rewrite (MustToBTCPK_Some _ _ Hpk). cbn [mbind res_bind].
  destruct (txOut (Transaction (pm_UnbondingTx pm))) as [|out0 outs]; [done|]. injection Hout as ->.
  rewrite u16_small by done.
  match goal with H : Value out = _ |- _ => rewrite H, Hvalue end. by rewrite Hinfo.
Qed.

Lemma new_delegation_wf pm params idx ti v e :
  parsed_wf pm → ValidateParsedMessageAgainstTheParams pm params = Ok idx →
  delegation_wf params (new_delegation pm ti idx v e).
Proof.
  intros Hpm Hv. unfold ValidateParsedMessageAgainstTheParams in Hv. cbv zeta in Hv. inv_ok.
  match goal with H : MustGetCovenantPks _ = Ok _ |- _ => apply MustGetCovenantPks_Ok in H end.
  split_and!; [by eapply check_staking_presigned|by eapply check_unbonding_presigned|done..].
Qed.

(** *** Adding the signatures of a member *)

(** Signatures that are stored as they were decoded verify again. *)
Lemma ParseEncVerify_Marshal tx out si pk fpPKs sigs l :
  ParseEncVerifyAdaptorSignatures tx out si pk fpPKs sigs = Ok l →
  ParseEncVerifyAdaptorSignatures tx out si pk fpPKs (AdaptorSig.Marshal <$> l) = Ok l ∧
  length l = length sigs.
Proof.
  revert fpPKs l. induction sigs as [|sig sigs IH]; intros fpPKs l Hp.
  { by destruct fpPKs; injection Hp as <-. }
  destruct fpPKs as [|fpPK fpPKs]; cbn [ParseEncVerifyAdaptorSignatures] in Hp;
    apply bind_Ok in Hp as (a & Ha & Hp); apply map_err_Ok in Ha; [done|].
  apply bind_Ok in Hp as (valKey & Hval & Hp). apply bind_Ok in Hp as (encKey & Henc & Hp).
  apply bind_Ok in Hp as (key & Hkey & Hp). apply bind_Ok in Hp as ([] & Hv & Hp).
  apply bind_Ok in Hp as (l' & Hl & Hp). injection Hp as <-. destruct (IH _ _ Hl) as [IHl Hlen].
  rewrite fmap_cons. split; [|simpl; by rewrite Hlen]. cbn [ParseEncVerifyAdaptorSignatures].
  rewrite AdaptorSig.FromBytes_new by apply AdaptorSig.length_Marshal.
  rewrite AdaptorSig.decode_Marshal by by eapply FromBytes_wf.
  cbn [map_err mbind res_bind]. rewrite Hval. cbn [mbind res_bind]. rewrite Henc. cbn [mbind res_bind].
  rewrite Hkey. cbn [mbind res_bind]. rewrite Hv. cbn [mbind res_bind]. by rewrite IHl.
Qed.

Lemma presigned_add tx funding idx pkScript si stakerPK fpPKs sig params covSigs msgTx fundingTx out
    pk sigs l :
  presigned tx funding idx pkScript si stakerPK fpPKs sig params covSigs msgTx fundingTx out →
  pk ∈ CovenantPks params → pk ∉ CovPk <$> covSigs →
  ParseEncVerifyAdaptorSignatures tx out si pk fpPKs sigs = Ok l → length sigs = length fpPKs →
  presigned tx funding idx pkScript si stakerPK fpPKs sig params
    (covSigs ++ [mkCovenantAdaptorSignatures pk (AdaptorSig.Marshal <$> l)]) msgTx fundingTx out.
Proof.
  intros (? & ? & ? & ? & ? & ? & Hnd & Hf) Hin Hnew [Hp Hl]%ParseEncVerify_Marshal Hlen.
  split_and!; [done..| |].
  - rewrite fmap_app. apply NoDup_app. split_and!; [done| |repeat constructor; by intros ?%elem_of_nil].
    intros k Hk ->%list_elem_of_singleton. done.
  - apply Forall_app. split; [done|]. apply Forall_singleton. split_and!; [done| |].
    + cbn [AdaptorSigs]. rewrite length_fmap. congruence.
    + unfold EncVerifyAdaptorSignatures. cbn [CovPk AdaptorSigs]. by rewrite Hp.
Qed.

Lemma existsb_elem_of {T} (f : T → bytes) l k :
  existsb (λ x, bool_decide (f x = k)) l = bool_decide (k ∈ f <$> l).
Proof.
  apply eq_bool_prop_intro. rewrite bool_decide_spec, Is_true_true, existsb_exists.
  rewrite list_elem_of_fmap. setoid_rewrite bool_decide_eq_true. setoid_rewrite list_elem_of_In.
  naive_solver.
Qed.

Lemma existsb_elem_of' {T} (f : T → bytes) l k :
  existsb (λ x, bool_decide (k = f x)) l = bool_decide (k ∈ f <$> l).
Proof.
  rewrite <- existsb_elem_of. induction l as [|x l IH]; [done|]. cbn [existsb]. rewrite IH.
  f_equal. by apply bool_decide_ext.
Qed.

Lemma not_signed d pk :
  same_signers d →
  negb (IsSignedByCovMember d pk && ud_IsSignedByCovMember (BtcUndelegation d) pk) = true →
  pk ∉ CovPk <$> CovenantSigs d.
Proof.
  intros [Hs Hu]. unfold IsSignedByCovMember, ud_IsSignedByCovMember, IsSignedByCovMemberOnUnbonding,
    IsSignedByCovMemberOnSlashing. rewrite !existsb_elem_of, Hs, Hu.
  rewrite existsb_elem_of'. by case_bool_decide.
Qed.

Lemma HasCovenantPK_elem params pk : HasCovenantPK params pk = true → pk ∈ CovenantPks params.
Proof.
  unfold HasCovenantPK. intros (k & Hk & Hb)%existsb_exists. apply bool_decide_eq_true in Hb as ->.
  by apply list_elem_of_In.
Qed.

Lemma AddCovenantSigs_wf params d pk req sl us usig esig :
  delegation_wf params d → HasCovenantPK params pk = true →
  negb (IsSignedByCovMember d pk && ud_IsSignedByCovMember (BtcUndelegation d) pk) = true →
  verify_covenant_sigs d params pk req = Ok (sl, us) →
  delegation_wf params
    (AddCovenantSigs d pk (AdaptorSig.Marshal <$> sl) usig (AdaptorSig.Marshal <$> us) esig).
Proof.
  intros (Hst & Hub & Hsame) Hpk%HasCovenantPK_elem Hnew Hv. pose proof (not_signed _ _ Hsame Hnew) as Hn.
  unfold verify_covenant_sigs in Hv. inv_ok.
  repeat match goal with
  | H : must_deref _ = Ok _ |- _ => apply (proj1 (must_deref_Ok _ _)) in H
  | H : or_panic _ = Ok _ |- _ => apply (proj1 (or_panic_Ok _ _)) in H
  | H : (_ =? _) = true |- _ => apply Nat.eqb_eq in H
  end.
  split_and!.
  - destruct Hst as (info & si & msgTx & stakingTx & Hinfo & Hsi & Hp). same_ok.
    eexists _, _, _, _. split_and!; [done..|]. by eapply presigned_add.
  - destruct Hub as (info & si & msgTx & utx & out & Hinfo & Hsi & Hp).
    pose proof Hp as (_ & Hutx & Hout & _). unfold ToMsgTx in Hutx. apply map_err_Ok in Hutx.
    change (N.to_nat 0) with 0 in Hout. same_ok. simplify_eq.
    eexists _, _, _, _, _. split_and!; [done..|]. eapply presigned_add; [done..| |done|done].
    by rewrite (proj1 Hsame).
  - destruct Hsame as [Hs Hu]. unfold same_signers. cbn. rewrite !fmap_app, Hs, Hu. done.
Qed.
End spec.
End StakingKeeperSpec.
