(* ===== verification/StakingState.v ===== *)
(** x/btcstaking: the invariant of the module's state.

    The steps are the messages, the blocks and the calls of the other modules.  In
    every state that they reach from an empty store:
    - the versions of the parameters are as [StakingVersions] says;
    - a delegation is stored under the hash of its staking transaction, the
      parameters it was validated against are there, and both of its slashing
      transactions are signed ([delegation_wf]);
    - a delegation that expands another follows it, so that the chains of expansions
      end;
    - the index of delegators lists exactly the delegations that are stored;
    - the finality providers of a delegation are registered; a finality provider
      respects its bounds on commissions and has an account of its own. *)
From Stdlib Require Import Strings.Byte.
From stdpp Require Import base numbers list sorting gmap strings.
From S2P Require Import Prelude KVStore Bytes Secp256k1 Eots AdaptorSig Btcd BtcUtils BtcTx StakingScripts.
From S2P Require Import BtcLightClient Epoching BtcCheckpoint BtcStaking StakingTx StakingSlash StakingPop StakingMsg StakingKeeper.
From S2P Require Import StakingVersions StakingKeeperSpec.

Module StakingState.
Import StakingScripts StakingTx BtcStaking StakingSlash StakingPop StakingMsg StakingKeeper.
Import StakingVersions StakingKeeperSpec.

Section state.
Context `{Bt : Btcd} `{CL : CurveLaws} {BT : BtcTx} {TS : TxScript} {BTL : BtcTxLaws}
  {TSL : TxScriptLaws} {PL : PopLib} {CH : ChainHash} {A : Bech32} {ST : StkTypes} {TA : TapAnnex}
  {LC : BTCLightClientKeeper}.
Context {X : Type} (IndexRefundableMsg : RefundableMsg → X → X) (authority : string).

(** ** The invariant *)

(** A delegation under its key. *)
Definition del_ok (params : gmap N Params) (h : bytes) (d : BTCDelegation) : Prop :=
  (∃ tx, NewBTCTxFromBytes (StakingTx d) = Ok tx ∧ TxHash tx = h) ∧
  (∃ p, params !! ParamsVersion d = Some p ∧ delegation_wf p d).

(** Expansions follow what they expand. *)
Definition chain_ok (dels : gmap bytes BTCDelegation) (rank : bytes → nat) : Prop :=
  ∀ h d, dels !! h = Some d → rank h < size dels ∧
    ∀ e, StkExp d = Some e →
      is_Some (dels !! PreviousStakingTxHash e) ∧ rank (PreviousStakingTxHash e) < rank h.

Definition index_ok (dels : gmap bytes BTCDelegation) (idx : gmap (bytes * bytes) (list bytes)) : Prop :=
  ∀ fp delPK h, (∃ l, idx !! (fp, delPK) = Some l ∧ h ∈ l) ↔
    (∃ d, dels !! h = Some d ∧ fp ∈ FpBtcPkList d ∧ del_BtcPk d = delPK).

Definition commission_ok (fp : FinalityProvider) : Prop :=
  ∃ rate info, fp_Commission fp = Some rate ∧ fp_CommissionInfo fp = Some info ∧
    (0 ≤ rate ≤ MaxRate info)%Z ∧ (MaxRate info ≤ LegacyOneDec)%Z ∧
    (0 ≤ MaxChangeRate info ≤ MaxRate info)%Z.

Definition fp_ok (addrs : gset (list N)) (pk : bytes) (fp : FinalityProvider) : Prop :=
  fp_BtcPk fp = pk ∧ commission_ok fp ∧
  ∃ a, AccAddressFromBech32 (fp_Addr fp) = Some a ∧ a ∈ addrs.

(** No account has two finality providers. *)
Definition addrs_ok (fps : gmap bytes FinalityProvider) : Prop :=
  ∀ pk1 fp1 pk2 fp2, fps !! pk1 = Some fp1 → fps !! pk2 = Some fp2 →
    AccAddressFromBech32 (fp_Addr fp1) = AccAddressFromBech32 (fp_Addr fp2) → pk1 = pk2.

Record bs_inv (s : BSState) : Prop := {
  inv_versions : ∃ ps, versions_ok s ps;
  inv_dels h d : btcDelegations s !! h = Some d → del_ok (bs_params s) h d;
  inv_chain : ∃ rank, chain_ok (btcDelegations s) rank;
  inv_index : index_ok (btcDelegations s) (btcDelegators s);
  inv_staked h d fp : btcDelegations s !! h = Some d → fp ∈ FpBtcPkList d →
    is_Some (finalityProviders s !! fp);
  inv_fps pk fp : finalityProviders s !! pk = Some fp → fp_ok (fpAncAddr s) pk fp;
  inv_addrs : addrs_ok (finalityProviders s);
}.

Definition empty_state : BSState := mkBSState ∅ ∅ ∅ ∅ ∅ ∅ ∅ None ∅ None ∅.

Lemma empty_inv : bs_inv empty_state.
Proof.
  split; cbn [empty_state btcDelegations btcDelegators finalityProviders bs_params].
  - exists []. split; [done|done|constructor|constructor|constructor].
  - by intros ?? ?%lookup_empty_Some.
  - exists (λ _, 0). by intros ?? ?%lookup_empty_Some.
  - intros ???. split; by intros (? & ?%lookup_empty_Some & _).
  - by intros ??? ?%lookup_empty_Some.
  - by intros ?? ?%lookup_empty_Some.
  - by intros ???? ?%lookup_empty_Some.
Qed.

(** ** Frames *)

(** The parts of the state that the invariant is about. *)
Definition same_core (s s' : BSState) : Prop :=
  bs_params s' = bs_params s ∧ heightToVersionMap s' = heightToVersionMap s ∧
  btcDelegations s' = btcDelegations s ∧ btcDelegators s' = btcDelegators s ∧
  finalityProviders s' = finalityProviders s ∧ fpAncAddr s' = fpAncAddr s.

Lemma versions_frame s s' ps :
  bs_params s' = bs_params s → heightToVersionMap s' = heightToVersionMap s →
  versions_ok s ps → versions_ok s' ps.
Proof. intros Hp Hm [? ? ? ? ?]. split; [by rewrite Hp|by rewrite Hm|done..]. Qed.

Lemma inv_frame s s' : same_core s s' → bs_inv s → bs_inv s'.
Proof.
  intros (Hp & Hm & Hd & Hi & Hf & Ha) [[ps Hv] ? ? ? ? ? ?].
  split; [|rewrite ?Hp, ?Hd, ?Hi, ?Hf, ?Ha; done..].
  exists ps. by apply (versions_frame s).
Qed.

(** The record of a finality provider may change, within its bounds. *)
Lemma inv_set_fp s fp fp' :
  bs_inv s → finalityProviders s !! fp_BtcPk fp' = Some fp →
  fp_Addr fp' = fp_Addr fp → commission_ok fp' → bs_inv (SetFinalityProvider s fp').
Proof.
  intros [Hv ? ? ? Hst Hfps Hadd] Hfp Haddr Hc. destruct (Hfps _ _ Hfp) as (Hpk & _ & Ha).
  split; [destruct Hv as [ps Hv]; exists ps; by apply (versions_frame s)|done|done|done|..].
  - intros h d k Hh Hk. cbn. destruct (decide (k = fp_BtcPk fp')) as [->|].
    + rewrite lookup_insert_eq. by eexists.
    + rewrite lookup_insert_ne by done. by eapply Hst.
  - intros k q. cbn. intros [[<- <-]|[? Hq]]%lookup_insert_Some; [|by apply Hfps].
    split_and!; [done|done|by rewrite Haddr].
  - intros k1 q1 k2 q2. cbn. intros [[<- <-]|[? Hq1]]%lookup_insert_Some [[<- <-]|[? Hq2]]%lookup_insert_Some;
      rewrite ?Haddr; intros Heq; [done|by eapply Hadd..].
Qed.

(** ** Delegations *)

(** What a change of a stored delegation leaves alone. *)
Definition same_stake (d d' : BTCDelegation) : Prop :=
  StakingTx d' = StakingTx d ∧ ParamsVersion d' = ParamsVersion d ∧ del_BtcPk d' = del_BtcPk d ∧
  FpBtcPkList d' = FpBtcPkList d ∧
  PreviousStakingTxHash <$> StkExp d' = PreviousStakingTxHash <$> StkExp d.

Lemma setBTCDelegation_Ok {E} s d tx s' :
  NewBTCTxFromBytes (StakingTx d) = Ok tx → setBTCDelegation (E := E) s d = Ok s' →
  s' = set_dels s (<[TxHash tx := d]> (btcDelegations s)).
Proof.
  intros Htx. unfold setBTCDelegation, MustGetStakingTxHash, GetStakingTxHash. rewrite Htx. cbn.
  by intros [= <-].
Qed.

Lemma chain_update dels rank h d d' :
  chain_ok dels rank → dels !! h = Some d → same_stake d d' → chain_ok (<[h := d']> dels) rank.
Proof.
  intros Hc Hd (_ & _ & _ & _ & Hprev). unfold chain_ok.
  rewrite (map_size_insert_Some h d') by by eexists.
  assert (∀ k, is_Some (dels !! k) → is_Some (<[h := d']> dels !! k)) as Hsome.
  { intros k Hk. by apply lookup_insert_is_Some'; right. }
  intros k q [[<- <-]|[? Hq]]%lookup_insert_Some.
  - destruct (Hc _ _ Hd) as [? He]. split; [done|]. intros e' He'. rewrite He' in Hprev.
    destruct (StkExp d) as [e|]; [|done]. injection Hprev as Hprev. rewrite Hprev.
    destruct (He e eq_refl). split; [by apply Hsome|done].
  - destruct (Hc _ _ Hq) as [? He]. split; [done|]. intros e' He'.
    destruct (He _ He'). split; [by apply Hsome|done].
Qed.

Lemma index_update dels idx h d d' :
  index_ok dels idx → dels !! h = Some d → same_stake d d' → index_ok (<[h := d']> dels) idx.
Proof.
  intros Hi Hd (_ & _ & Hpk & Hfps & _) fp delPK k. rewrite (Hi fp delPK k).
  destruct (decide (k = h)) as [->|]; [|by rewrite lookup_insert_ne].
  rewrite lookup_insert_eq. split; intros (q & Hq & ? & ?); simplify_eq.
  - exists d'. by rewrite Hfps, Hpk.
  - exists d. by rewrite <- Hfps, <- Hpk.
Qed.

Lemma inv_update s h d d' :
  bs_inv s → btcDelegations s !! h = Some d → same_stake d d' →
  (∀ p, bs_params s !! ParamsVersion d = Some p → delegation_wf p d → delegation_wf p d') →
  bs_inv (set_dels s (<[h := d']> (btcDelegations s))).
Proof.
  intros [[ps Hv] Hds [rank Hc] Hi Hst ? ?] Hd Hsame Hwf. split; cbn; [..|done|done].
  - exists ps. by apply (versions_frame s).
  - intros k q [[<- <-]|[? Hq]]%lookup_insert_Some; [|by apply Hds].
    destruct (Hds _ _ Hd) as [Htx (p & Hp & Hw)]. destruct Hsame as (Hs1 & Hs2 & _).
    split; [by rewrite Hs1|]. exists p. rewrite Hs2. auto.
  - exists rank. by eapply chain_update.
  - by eapply index_update.
  - destruct Hsame as (_ & _ & _ & Hf & _).
    intros k q fp [[<- <-]|[? Hq]]%lookup_insert_Some; [rewrite Hf|]; by eapply Hst.
Qed.

Lemma chain_add dels rank h d :
  chain_ok dels rank → dels !! h = None →
  (∀ e, StkExp d = Some e → is_Some (dels !! PreviousStakingTxHash e)) →
  chain_ok (<[h := d]> dels) (λ k, if decide (k = h) then size dels else rank k).
Proof.
  intros Hc Hh He k q. rewrite map_size_insert_None by done.
  intros [[<- <-]|[? Hq]]%lookup_insert_Some.
  - rewrite decide_True by done. split; [lia|]. intros e [q Hq]%He.
    assert (PreviousStakingTxHash e ≠ h) by congruence.
    rewrite lookup_insert_ne, decide_False by done. split; [by eexists|]. by apply (Hc _ _ Hq).
  - rewrite decide_False by done. destruct (Hc _ _ Hq) as [? Hprev]. split; [lia|].
    intros e [[q' Hq'] ?]%Hprev. assert (PreviousStakingTxHash e ≠ h) by congruence.
    rewrite lookup_insert_ne, decide_False by done. split; [by eexists|done].
Qed.

Lemma index_add dels idx h d fp :
  index_ok dels idx → dels !! h = None → FpBtcPkList d = [fp] →
  index_ok (<[h := d]> dels)
    (<[(fp, del_BtcPk d) := default [] (idx !! (fp, del_BtcPk d)) ++ [h]]> idx).
Proof.
  intros Hi Hh Hfp fp' delPK k.
  transitivity ((∃ l, idx !! (fp', delPK) = Some l ∧ k ∈ l) ∨ (k = h ∧ fp' = fp ∧ delPK = del_BtcPk d)).
  - destruct (decide ((fp', delPK) = (fp, del_BtcPk d))) as [Heq|Hne].
    + rewrite Heq, lookup_insert_eq. injection Heq as -> ->. split.
      * intros (l & [= <-] & [Hk| ->%list_elem_of_singleton]%elem_of_app); [left|by right].
        destruct (idx !! _) as [l|]; [by exists l|by apply elem_of_nil in Hk].
      * intros [(l & -> & Hk)|[-> _]]; eexists; (split; [done|]); set_solver.
    + rewrite lookup_insert_ne by done. split; [by left|]. intros [|(_ & -> & ->)]; [done|by destruct Hne].
  - rewrite (Hi fp' delPK k). destruct (decide (k = h)) as [->|].
    + rewrite lookup_insert_eq, Hh. split.
      * intros [(? & [=] & _)|(_ & -> & ->)]. exists d. rewrite Hfp. split_and!; [done|by left|done].
      * intros (q & [= <-] & Hq & <-). rewrite Hfp in Hq. apply list_elem_of_singleton in Hq. by right.
    + rewrite lookup_insert_ne by done. naive_solver.
Qed.

Lemma inv_add s h d fp :
  bs_inv s → btcDelegations s !! h = None → FpBtcPkList d = [fp] →
  is_Some (finalityProviders s !! fp) → del_ok (bs_params s) h d →
  (∀ e, StkExp d = Some e → is_Some (btcDelegations s !! PreviousStakingTxHash e)) →
  bs_inv (set_dels
    (set_delegators s (<[(fp, del_BtcPk d) :=
       default [] (btcDelegators s !! (fp, del_BtcPk d)) ++ [h]]> (btcDelegators s)))
    (<[h := d]> (btcDelegations s))).
Proof.
  intros [[ps Hv] Hds [rank Hc] Hi Hst ? ?] Hh Hfp Hreg Hd He. split; cbn; [..|done|done].
  - exists ps. by apply (versions_frame s).
  - by intros k q [[<- <-]|[? Hq]]%lookup_insert_Some; [|by apply Hds].
  - eexists. by eapply chain_add.
  - by eapply index_add.
  - intros k q fp' [[<- <-]|[? Hq]]%lookup_insert_Some; [|by eapply Hst].
    rewrite Hfp. by intros ->%list_elem_of_singleton.
Qed.

(** ** The handlers *)

Lemma GetParamsForBtcHeight_Ok s height p v :
  GetParamsForBtcHeight s height = Ok (p, v) → bs_params s !! v = p.
Proof. unfold GetParamsForBtcHeight. destruct (heightToVersionMap s); [|done]. intros Hg. by inv_ok. Qed.

Lemma getTimeInfo_params s lc bp pm ti p v :
  getTimeInfoAndParams s lc bp pm = Ok (ti, p, v) → bs_params s !! v = p.
Proof.
  unfold getTimeInfoAndParams. destruct (pm_StakingTxProofOfInclusion pm); intros Hg; inv_ok;
    match goal with H : (let '(_, _) := ?x in _) = _ |- _ => destruct x; inv_ok end;
    by eapply GetParamsForBtcHeight_Ok.
Qed.

Lemma validateStakedFPs_Ok s fps :
  validateStakedFPs s fps = Ok tt → Forall (λ fp, is_Some (finalityProviders s !! fp)) fps.
Proof.
  unfold validateStakedFPs. induction fps as [|fp fps IH]; intros Hv; [done|]. cbn [fold_res] in Hv.
  apply bind_Ok in Hv as ([] & Hfp & Hv). constructor; [|by apply IH]. inv_ok.
  match goal with H : GetFinalityProvider _ _ = Ok _ |- _ => unfold GetFinalityProvider in H; inv_ok end.
  by eexists.
Qed.

Lemma addEvent_core s height ev : same_core s (addPowerDistUpdateEvent s height ev).
Proof. done. Qed.

Lemma AddBTCDelegation_Ok s d tx fp s' :
  NewBTCTxFromBytes (StakingTx d) = Ok tx → FpBtcPkList d = [fp] →
  is_Some (finalityProviders s !! fp) → AddBTCDelegation s d = Ok s' →
  same_core (set_dels
    (set_delegators s (<[(fp, del_BtcPk d) :=
       default [] (btcDelegators s !! (fp, del_BtcPk d)) ++ [TxHash tx]]> (btcDelegators s)))
    (<[TxHash tx := d]> (btcDelegations s))) s'.
Proof.
  intros Htx Hfp Hreg Hadd. unfold AddBTCDelegation in Hadd.
  unfold GetStakingTxHash in Hadd. rewrite Htx in Hadd. cbn [map_err mbind res_bind mret res_ret] in Hadd.
  rewrite Hfp in Hadd. cbn [fold_res] in Hadd. inv_ok.
  match goal with H : index_delegation _ _ _ _ = Ok _ |- _ => rename H into Hi end.
  unfold index_delegation, getBTCDelegatorDelegationIndex, HasFinalityProvider in Hi.
  rewrite bool_decide_true in Hi by done. cbn [negb] in Hi. cbv zeta in Hi. inv_ok.
  match goal with H : idx_Add _ _ = Ok _ |- _ => unfold idx_Add in H; inv_ok end.
  match goal with H : setBTCDelegation _ _ = Ok _ |- _ => apply (setBTCDelegation_Ok _ _ tx) in H; [|done] end.
  subst. by destruct (HasInclusionProof d).
Qed.

Lemma create_inv s lc ctx bp pm s' :
  bs_inv s → parsed_wf pm →
  (∀ e, pm_StkExp pm = Some e → is_Some (btcDelegations s !! PreviousActiveStkTxHash e)) →
  keeper_CreateBTCDelegation s lc ctx bp pm = Ok s' → bs_inv s'.
Proof.
  intros Hinv Hpm He Hc. unfold keeper_CreateBTCDelegation in Hc. cbv zeta in Hc. inv_ok.
  repeat match goal with x : unit |- _ => destruct x end.
  match goal with H : (let '(_, _) := ?x in _) = _ |- _ => destruct x as [[ti op] v] end. inv_ok.
  repeat match goal with H : must_deref _ = Ok _ |- _ => apply (proj1 (must_deref_Ok _ _)) in H end.
  simplify_eq.
  match goal with H : ValidateParsedMessageAgainstTheParams _ ?p = Ok ?i |- _ =>
    rename H into Hval, p into params, i into idx end.
  match goal with H : getTimeInfoAndParams _ _ _ _ = Ok _ |- _ => apply getTimeInfo_params in H as Hp end.
  match goal with H : validateStakedFPs _ _ = Ok _ |- _ => apply validateStakedFPs_Ok in H as Hfps end.
  match goal with H : bool_decide _ = true |- _ => apply bool_decide_eq_true in H as Hnew end.
  match goal with H : buildStakeExpansion _ = Ok ?e |- _ => rename H into Hbe, e into stkExp end.
  match goal with H : AddBTCDelegation _ _ = Ok _ |- _ => rename H into Hadd end.
  pose proof (new_delegation_wf _ _ _ ti v stkExp Hpm Hval) as Hwf.
  destruct Hpm as (Hst & _ & _ & _ & _ & _ & Hlen & _).
  set (d := new_delegation pm ti idx v stkExp) in *.
  destruct (PublicKeysAncFormat (pm_FinalityProviderKeys pm)) as [|fp [|]] eqn:Hkeys; try done.
  apply Forall_cons in Hfps as [Hfps _].
  eapply inv_frame; [exact (AddBTCDelegation_Ok s d _ fp s' Hst Hkeys Hfps Hadd)|].
  apply inv_add; [done|done|exact Hkeys|done| |].
  - split; [by eexists|]. by exists params.
  - intros e' He'. unfold d in He'. cbn in He'. subst stkExp. unfold buildStakeExpansion in Hbe.
    destruct (pm_StkExp pm) as [e|]; [|done]. inv_ok. by apply He.
Qed.

(** *** Lookups *)

Lemma loop_stored fuel s h info :
  getBTCDelWithParams_loop fuel s h = Ok info →
  btcDelegations s !! h = Some (wp_Delegation info) ∧
  bs_params s !! ParamsVersion (wp_Delegation info) = Some (wp_Params info).
Proof.
  destruct fuel as [|fuel]; [done|]. cbn [getBTCDelWithParams_loop]. intros Hg. inv_ok.
  match goal with H : GetBTCDelegation _ _ = Ok _ |- _ => unfold GetBTCDelegation in H; inv_ok end.
  destruct (StkExp _) as [e|]; by inv_ok.
Qed.

Lemma info_by_str_Ok s str info :
  info_by_str s str = Ok info →
  ∃ h, NewHashFromStr str = Some h ∧ btcDelegations s !! h = Some (wp_Delegation info) ∧
       bs_params s !! ParamsVersion (wp_Delegation info) = Some (wp_Params info).
Proof.
  unfold info_by_str. intros Hi. inv_ok.
  match goal with H : getBTCDelWithParams _ _ = Ok _ |- _ => apply loop_stored in H end. by eexists.
Qed.

Lemma del_by_str_Ok s str d :
  del_by_str s str = Ok d → ∃ h, btcDelegations s !! h = Some d.
Proof.
  unfold del_by_str. intros Hd. inv_ok.
  match goal with H : GetBTCDelegation _ _ = Ok _ |- _ => unfold GetBTCDelegation in H; inv_ok end.
  by eexists.
Qed.

(** *** Changes of stored delegations *)

(** A stored delegation is written back under its own key. *)
Lemma inv_set {E} s h d d' s' :
  bs_inv s → btcDelegations s !! h = Some d → same_stake d d' →
  (∀ p, bs_params s !! ParamsVersion d = Some p → delegation_wf p d → delegation_wf p d') →
  setBTCDelegation (E := E) s d' = Ok s' → bs_inv s' ∧ btcDelegations s' !! h = Some d'.
Proof.
  intros Hinv Hd Hsame Hwf Hset. destruct (inv_dels _ Hinv _ _ Hd) as [(tx & Htx & Hh) _].
  rewrite <- (proj1 Hsame) in Htx. rewrite (setBTCDelegation_Ok _ _ _ _ Htx Hset), Hh.
  split; [by eapply inv_update|]. cbn. apply lookup_insert_eq.
Qed.

(** The delegation, up to the heights of its inclusion. *)
Definition included_as (d d' : BTCDelegation) : Prop := d' = d ∨ ∃ a b, d' = setHeights d a b.

Lemma proof_inv s lc bp h d ip s' :
  bs_inv s → btcDelegations s !! h = Some d →
  AddBTCDelegationInclusionProof s lc bp d ip = Ok s' →
  bs_inv s' ∧ ∀ k q, btcDelegations s !! k = Some q →
    ∃ q', btcDelegations s' !! k = Some q' ∧ included_as q q'.
Proof.
  intros Hinv Hd Ha. unfold AddBTCDelegationInclusionProof in Ha. cbv zeta in Ha. inv_ok.
  match goal with H : setBTCDelegation _ _ = Ok ?t |- _ => rename H into Hset, t into s1 end.
  apply (inv_set _ _ _ _ _ Hinv Hd) in Hset as Hs1; [|done|by intros ?? (?&?&?)]. destruct Hs1 as [Hs1 Hd1].
  split; [by repeat (eapply inv_frame; [apply addEvent_core|])|].
  intros k q Hq. cbn. destruct (inv_dels _ Hinv _ _ Hd) as [(tx & Htx & Hh) _].
  apply (setBTCDelegation_Ok _ _ tx) in Hset as ->; [|done]. rewrite Hh. cbn.
  destruct (decide (k = h)) as [->|]; [rewrite lookup_insert_eq|rewrite lookup_insert_ne by done].
  - eexists. split; [done|]. simplify_eq. right. by eexists _, _.
  - eexists. split; [done|]. by left.
Qed.

Lemma undelegate_inv s lc h d d0 u s' :
  bs_inv s → btcDelegations s !! h = Some d0 → included_as d d0 →
  btcUndelegate s lc d u = Ok s' → bs_inv s'.
Proof.
  intros Hinv Hd Hi Hu. unfold btcUndelegate in Hu. cbv zeta in Hu. apply bind_Ok in Hu as (s1 & Hset & Hu).
  apply (inv_set _ _ _ _ _ Hinv Hd) in Hset as [Hs1 _].
  2: { by destruct Hi as [->|(a & b & ->)]. }
  2: { destruct Hi as [->|(a & b & ->)]; by intros ?? (?&?&?). }
  destruct (negb _); inv_ok; [done|]. by eapply inv_frame; [apply addEvent_core|].
Qed.

Lemma covenant_inv s x lc req s' x' :
  bs_inv s → ms_AddCovenantSigs IndexRefundableMsg (s, x) lc req = Ok (s', x') → bs_inv s'.
Proof.
  intros Hinv Ha. unfold ms_AddCovenantSigs in Ha. cbv zeta in Ha. inv_ok.
  match goal with H : info_by_str _ _ = Ok ?i |- _ =>
    apply info_by_str_Ok in H as (h & _ & Hd & Hp); rename i into info end.
  repeat match goal with H : (let '(_, _) := ?x in _) = _ |- _ => destruct x; inv_ok end.
  match goal with H : addCovenantSigsToBTCDelegation _ _ _ _ _ _ _ _ = Ok _ |- _ =>
    unfold addCovenantSigsToBTCDelegation in H; cbv zeta in H; inv_ok end.
  match goal with H : setBTCDelegation _ _ = Ok _ |- _ =>
    apply (inv_set _ _ _ _ _ Hinv Hd) in H as [Hs' _] end.
  - match goal with H : (if ?b then _ else _) = Ok _ |- _ => destruct b end; inv_ok; [|done].
    by eapply inv_frame; [apply addEvent_core|].
  - split_and!; try done. cbn. by destruct (StkExp _).
  - intros p Hp' Hwf. rewrite Hp in Hp'. injection Hp' as <-. by eapply AddCovenantSigs_wf.
Qed.

Lemma btc_undelegate_inv s x lc bp req s' x' :
  bs_inv s → BTCUndelegate IndexRefundableMsg (s, x) lc bp req = Ok (s', x') → bs_inv s'.
Proof.
  intros Hinv Hu. unfold BTCUndelegate in Hu. cbv zeta in Hu. inv_ok.
  match goal with H : info_by_str _ _ = Ok ?i |- _ =>
    apply info_by_str_Ok in H as (h & _ & Hd & Hp); rename i into info end.
  repeat match goal with H : (let '(_, _) := ?x in _) = _ |- _ => destruct x; inv_ok end.
  match goal with H : btcUndelegate ?t _ _ _ = Ok _ |- _ => rename H into Hbu, t into s1 end.
  assert (bs_inv s1 ∧ ∃ q', btcDelegations s1 !! h = Some q' ∧ included_as (wp_Delegation info) q')
    as (Hs1 & q' & Hq' & Hi).
  2: { by eapply undelegate_inv. }
  match goal with H : match ?o with _ => _ end = Ok s1 |- _ => destruct o as [e|] eqn:He end.
  2: { inv_ok. split; [done|]. eexists. split; [done|by left]. }
  destruct (IsStakeExpansion e); inv_ok.
  2: { split; [done|]. eexists. split; [done|by left]. }
  match goal with H : AddBTCDelegationInclusionProof _ _ _ _ _ = Ok _ |- _ =>
    destruct (proof_inv _ _ _ _ _ _ _ Hinv He H) as [? Hk] end.
  split; [done|]. by apply Hk.
Qed.

(** *** Finality providers *)

Lemma params_valid s p :
  bs_inv s → GetParams (E := MsgErr) s = Ok p → Params_Validate p = Ok tt.
Proof.
  intros Hinv. destruct (inv_versions _ Hinv) as [ps [Hp _ _ _ Hv]]. unfold GetParams, getLastParams.
  destruct (kv_desc (bs_params s)) as [|[v q] l] eqn:Hk; [done|]. intros [= <-].
  apply kv_desc_cons in Hk as [Hk _]. rewrite Hp in Hk. rewrite Forall_lookup in Hv. by eapply Hv.
Qed.

Lemma valid_min_commission p : Params_Validate p = Ok tt → (0 ≤ MinCommissionRate p)%Z.
Proof.
  intros Hv. unfold Params_Validate in Hv. inv_ok.
  match goal with H : validateMinCommissionRate _ = true |- _ =>
    unfold validateMinCommissionRate in H; apply andb_prop in H as [H _] end.
  by apply Z.ltb_ge, negb_true_iff.
Qed.

Lemma inv_new_fp s fp a :
  bs_inv s → finalityProviders s !! fp_BtcPk fp = None →
  AccAddressFromBech32 (fp_Addr fp) = Some a → a ∉ fpAncAddr s → commission_ok fp →
  bs_inv (SetFinalityProvider (set_addrs s ({[a]} ∪ fpAncAddr s)) fp).
Proof.
  intros [[ps Hv] ? ? ? Hst Hfps Hadd] Hnone Haddr Ha Hc.
  assert (∀ k q, finalityProviders s !! k = Some q →
            AccAddressFromBech32 (fp_Addr q) ≠ AccAddressFromBech32 (fp_Addr fp)) as Hfresh.
  { intros k q Hq. destruct (Hfps _ _ Hq) as (_ & _ & b & Hb & Hin). rewrite Haddr, Hb. by intros [= ->]. }
  split; [exists ps; by apply (versions_frame s)|done|done|done|..]; cbn.
  - intros h d k Hh Hk. apply lookup_insert_is_Some'. right. by eapply Hst.
  - intros k q [[<- <-]|[? Hq]]%lookup_insert_Some.
    + split_and!; [done|done|]. exists a. split; [done|set_solver].
    + destruct (Hfps _ _ Hq) as (? & ? & b & Hb & Hin). split_and!; [done|done|].
      exists b. split; [done|set_solver].
  - intros k1 q1 k2 q2 [[<- <-]|[? Hq1]]%lookup_insert_Some [[<- <-]|[? Hq2]]%lookup_insert_Some Heq;
      [done|by eapply Hfresh in Hq2|by eapply Hfresh in Hq1|by eapply Hadd].
Qed.

Lemma add_fp_inv s ctx msg s' : bs_inv s → AddFinalityProvider s ctx msg = Ok s' → bs_inv s'.
Proof.
  intros Hinv Ha. unfold AddFinalityProvider in Ha. cbv zeta in Ha.
  apply bind_Ok in Ha as (params & Hp & Ha). apply (params_valid _ _ Hinv) in Hp as Hmin%valid_min_commission.
  inv_ok.
  match goal with H : CheckDuplicatedFpAncAddr _ _ = Ok _ |- _ => unfold CheckDuplicatedFpAncAddr in H end.
  match goal with H : CommissionInfo_Validate _ = Ok _ |- _ => unfold CommissionInfo_Validate in H; cbn in H end.
  inv_ok. unfold HasFpRegistered, HasFinalityProvider in *. bool_to_Prop.
  apply inv_new_fp; [done|by apply eq_None_not_Some|done|done|].
  eexists _, _. split; [done|]. split; [done|].
  cbn [NewCommissionInfoWithTime MaxRate MaxChangeRate]. lia.
Qed.

Lemma update_commission_ok s ctx c fp fp' :
  commission_ok fp → UpdateFinalityProviderCommission s ctx c fp = Ok fp' →
  commission_ok fp' ∧ fp_BtcPk fp' = fp_BtcPk fp ∧ fp_Addr fp' = fp_Addr fp.
Proof.
  intros (rate & info & Hr & Hi & ? & ? & ?) Hu. unfold UpdateFinalityProviderCommission in Hu.
  destruct c as [c|]; [|injection Hu as <-; by split; [exists rate, info|]].
  rewrite Hr, Hi in Hu. cbn in Hu. inv_ok. bool_to_Prop. split; [|done].
  eexists _, _. split; [done|]. split; [done|].
  cbn [NewCommissionInfoWithTime MaxRate MaxChangeRate]. lia.
Qed.

Lemma stored_fp s pk fp :
  bs_inv s → GetFinalityProvider s pk = Ok fp →
  finalityProviders s !! pk = Some fp ∧ fp_BtcPk fp = pk ∧ commission_ok fp.
Proof.
  intros Hinv Hg. unfold GetFinalityProvider in Hg. inv_ok.
  match goal with H : _ = Some fp |- _ => destruct (inv_fps _ Hinv _ _ H) as (? & ? & _) end. done.
Qed.

Lemma edit_fp_inv s ctx req s' : bs_inv s → EditFinalityProvider s ctx req = Ok s' → bs_inv s'.
Proof.
  intros Hinv He. unfold EditFinalityProvider in He. cbv zeta in He. inv_ok.
  match goal with H : GetFinalityProvider _ _ = Ok _ |- _ =>
    apply (stored_fp _ _ _ Hinv) in H as (Hfp & Hpk & Hc) end.
  match goal with H : UpdateFinalityProviderCommission _ _ _ _ = Ok _ |- _ =>
    destruct (update_commission_ok _ _ _ _ _ Hc H) as (Hc' & Hpk' & Ha) end.
  eapply inv_set_fp; [done| |exact Ha|exact Hc']. cbn. by rewrite Hpk', Hpk.
Qed.

Lemma slash_fp_inv s lc ctx pk s' : bs_inv s → SlashFinalityProvider s lc ctx pk = Ok s' → bs_inv s'.
Proof.
  intros Hinv Hs. unfold SlashFinalityProvider in Hs. cbv zeta in Hs. inv_ok.
  match goal with H : GetFinalityProvider _ _ = Ok _ |- _ =>
    apply (stored_fp _ _ _ Hinv) in H as (Hfp & Hpk & Hc) end.
  eapply inv_frame; [apply addEvent_core|]. eapply inv_set_fp; [done|cbn; by rewrite Hpk|done|exact Hc].
Qed.

Lemma jail_fp_inv s lc pk s' : bs_inv s → JailFinalityProvider s lc pk = Ok s' → bs_inv s'.
Proof.
  intros Hinv Hs. unfold JailFinalityProvider in Hs. cbv zeta in Hs. inv_ok.
  match goal with H : GetFinalityProvider _ _ = Ok _ |- _ =>
    apply (stored_fp _ _ _ Hinv) in H as (Hfp & Hpk & Hc) end.
  eapply inv_frame; [apply addEvent_core|]. eapply inv_set_fp; [done|cbn; by rewrite Hpk|done|exact Hc].
Qed.

Lemma unjail_fp_inv s lc pk s' : bs_inv s → UnjailFinalityProvider s lc pk = Ok s' → bs_inv s'.
Proof.
  intros Hinv Hs. unfold UnjailFinalityProvider in Hs. cbv zeta in Hs. inv_ok.
  match goal with H : GetFinalityProvider _ _ = Ok _ |- _ =>
    apply (stored_fp _ _ _ Hinv) in H as (Hfp & Hpk & Hc) end.
  eapply inv_frame; [apply addEvent_core|]. eapply inv_set_fp; [done|cbn; by rewrite Hpk|done|exact Hc].
Qed.

Lemma voted_fp_inv s pk fp height s' :
  bs_inv s → GetFinalityProvider s pk = Ok fp →
  UpdateFinalityProvider s (setHighestVotedHeight fp height) = Ok s' → bs_inv s'.
Proof.
  intros Hinv (Hfp & Hpk & Hc)%(stored_fp _ _ _ Hinv) Hu. unfold UpdateFinalityProvider in Hu.
  apply bind_Ok in Hu as (? & _ & [= <-]). eapply inv_set_fp; [done|cbn; by rewrite Hpk|done|exact Hc].
Qed.

(** *** Parameters *)

Lemma set_params_inv s p s' :
  bs_inv s → (BtcActivationHeight p ≤ max_u32)%N → SetParams s p = Ok s' → bs_inv s'.
Proof.
  intros [[ps Hv] Hds ? ? ? ? ?] Hact Hset. destruct (SetParams_ok _ _ _ _ Hv Hact Hset) as [-> Hv'].
  split; cbn; [by eexists| |done..].
  intros h d Hd. destruct (Hds _ _ Hd) as [Htx (q & Hq & Hwf)]. split; [done|].
  exists q. split; [|done]. rewrite lookup_insert_ne; [done|]. intros Heq.
  rewrite <- Heq, (vs_params _ _ Hv), Nat2N.id in Hq. apply lookup_lt_Some in Hq. lia.
Qed.

(** ** Steps *)

Inductive bs_step : BSState → BSState → Prop :=
  | step_UpdateParams s bp req s' :
      (BtcActivationHeight (up_Params req) ≤ max_u32)%N →
      UpdateParams authority s bp req = Ok s' → bs_step s s'
  | step_CreateFinalityProvider s ctx req s' :
      CreateFinalityProvider s ctx req = Ok s' → bs_step s s'
  | step_EditFinalityProvider s ctx req s' :
      EditFinalityProvider s ctx req = Ok s' → bs_step s s'
  | step_CreateBTCDelegation s lc ctx bp req s' :
      CreateBTCDelegation s lc ctx bp req = Ok s' → bs_step s s'
  | step_BtcStakeExpand s lc ctx bp req s' :
      BtcStakeExpand s lc ctx bp req = Ok s' → bs_step s s'
  | step_AddBTCDelegationInclusionProof s x lc bp req s' x' :
      ms_AddBTCDelegationInclusionProof IndexRefundableMsg (s, x) lc bp req = Ok (s', x') → bs_step s s'
  | step_AddCovenantSigs s x lc req s' x' :
      ms_AddCovenantSigs IndexRefundableMsg (s, x) lc req = Ok (s', x') → bs_step s s'
  | step_BTCUndelegate s x lc bp req s' x' :
      BTCUndelegate IndexRefundableMsg (s, x) lc bp req = Ok (s', x') → bs_step s s'
  | step_SelectiveSlashingEvidence s x lc ctx req s' x' :
      SelectiveSlashingEvidence IndexRefundableMsg (s, x) lc ctx req = Ok (s', x') → bs_step s s'
  | step_BeginBlocker s lc ctx : bs_step s (BeginBlocker s lc ctx)
  | step_AfterBTCRollBack s from to : bs_step s (AfterBTCRollBack s from to)
  (* calls of x/finality and of upgrades *)
  | step_Slash s lc ctx pk s' : SlashFinalityProvider s lc ctx pk = Ok s' → bs_step s s'
  | step_Jail s lc pk s' : JailFinalityProvider s lc pk = Ok s' → bs_step s s'
  | step_Unjail s lc pk s' : UnjailFinalityProvider s lc pk = Ok s' → bs_step s s'
  | step_Voted s pk fp height s' :
      GetFinalityProvider s pk = Ok fp →
      UpdateFinalityProvider s (setHighestVotedHeight fp height) = Ok s' → bs_step s s'
  | step_ClearEvents s height : bs_step s (ClearPowerDistUpdateEvents s height)
  | step_SoftDelete s pk : bs_step s (SoftDeleteFinalityProvider s pk)
  | step_AllowStakingTx s h : bs_step s (IndexAllowedStakingTransaction s h).

Lemma GetStakeExpansion_previous m e :
  GetStakeExpansion m = Ok e → NewHashFromStr (se_PreviousStakingTxHash m) = Some (PreviousActiveStkTxHash e).
Proof.
  intros He. unfold GetStakeExpansion in He. inv_ok.
  destruct (txIn _) as [|in0 [|in1 [|]]]; try done. inv_ok. destruct (txOut _ !! _); [|done]. by inv_ok.
Qed.

Lemma expand_previous s lc ctx bp req s' :
  BtcStakeExpand s lc ctx bp req = Ok s' →
  ∃ pm, parseBtcExpandMessage req = Ok pm ∧ keeper_CreateBTCDelegation s lc ctx bp pm = Ok s' ∧
    ∀ e, pm_StkExp pm = Some e → is_Some (btcDelegations s !! PreviousActiveStkTxHash e).
Proof.
  intros He. unfold BtcStakeExpand in He. cbv zeta in He. inv_ok.
  match goal with H : expand_ToParsed _ = Ok ?p |- _ => unfold expand_ToParsed in H; exists p end.
  repeat match goal with H : (let '(_, _) := ?x in _) = _ |- _ => destruct x; inv_ok end.
  split_and!; [done|done|]. intros e He'.
  match goal with H : IsBtcDelegationActive _ _ _ = Ok _ |- _ => unfold IsBtcDelegationActive in H; inv_ok end.
  match goal with H : info_by_str _ _ = Ok _ |- _ => apply info_by_str_Ok in H as (h & Hh & Hd & _) end.
  match goal with H : parseBtcExpandMessage _ = Ok _ |- _ => unfold parseBtcExpandMessage in H; inv_ok end.
  cbn in He'. simplify_eq.
  match goal with H : GetStakeExpansion _ = Ok _ |- _ => apply GetStakeExpansion_previous in H end.
  simplify_eq. by eexists.
Qed.

Lemma bs_step_inv s s' : bs_inv s → bs_step s s' → bs_inv s'.
Proof.
  intros Hinv Hstep. destruct Hstep as [s bp req s' Hact Hu|s ctx req s' Hc|s ctx req s' He
    |s lc ctx bp req s' Hc|s lc ctx bp req s' He|s x lc bp req s' x' Ha|s x lc req s' x' Ha
    |s x lc bp req s' x' Hu|s x lc ctx req s' x' Hs|s lc ctx|s from to|s lc ctx pk s' Hs
    |s lc pk s' Hs|s lc pk s' Hs|s pk fp height s' Hg Hu|s height|s pk|s h].
  - unfold UpdateParams in Hu. inv_ok. by eapply set_params_inv.
  - unfold CreateFinalityProvider in Hc. inv_ok. by eapply add_fp_inv.
  - by eapply edit_fp_inv.
  - unfold CreateBTCDelegation, create_ToParsed in Hc. apply bind_Ok in Hc as (pm & Hpm & Hc).
    destruct (parse_create_wf _ _ Hpm) as [Hwf Hnone].
    eapply create_inv; [done|done|by rewrite Hnone|done].
  - apply expand_previous in He as (pm & Hpm & Hc & Hprev).
    eapply create_inv; [done|by eapply parse_expand_wf|done|done].
  - unfold ms_AddBTCDelegationInclusionProof in Ha. inv_ok.
    match goal with H : del_by_str _ _ = Ok _ |- _ => apply del_by_str_Ok in H as [h Hd] end.
    by eapply proof_inv.
  - by eapply covenant_inv.
  - by eapply btc_undelegate_inv.
  - unfold SelectiveSlashingEvidence in Hs. cbv zeta in Hs. inv_ok. by eapply slash_fp_inv.
  - unfold BeginBlocker, IndexBTCHeight. destruct (lc_GetTipInfo lc); [by apply (inv_frame s)|done].
  - unfold AfterBTCRollBack, SetLargestBtcReorg. destruct (largestBtcReorg s); [case_match|];
      [done|by apply (inv_frame s)..].
  - by eapply slash_fp_inv.
  - by eapply jail_fp_inv.
  - by eapply unjail_fp_inv.
  - by eapply voted_fp_inv.
  - by apply (inv_frame s).
  - by apply (inv_frame s).
  - by apply (inv_frame s).
Qed.

Definition reachable (s : BSState) : Prop := rtc bs_step empty_state s.

Lemma reach_inv s : reachable s → bs_inv s.
Proof.
  unfold reachable. generalize empty_inv. generalize empty_state. intros s0 H0 Hr.
  induction Hr as [|s0 s1 s2 Hstep _ IH]; [done|]. by eapply IH, bs_step_inv.
Qed.

(** ** Theorems *)

(** C4: In every reachable state, a stored delegation is stored under the hash of its
    staking transaction, the version of the parameters it names exists, its finality
    providers are registered, and with those parameters both of its outputs, staking
    and unbonding, have slashing transactions that spend them, that the staker has
    signed, and that distinct members of the committee have signed, the same members
    for both and for unbonding. *)
Theorem stored_delegations_wf s h d :
  reachable s → btcDelegations s !! h = Some d →
  (∃ tx, NewBTCTxFromBytes (StakingTx d) = Ok tx ∧ TxHash tx = h) ∧
  (∃ params, bs_params s !! ParamsVersion d = Some params ∧ delegation_wf params d) ∧
  Forall (λ fp, is_Some (finalityProviders s !! fp)) (FpBtcPkList d).
Proof.
  intros Hr%reach_inv Hd. destruct (inv_dels _ Hr _ _ Hd) as [? ?]. split_and!; [done|done|].
  apply Forall_forall. intros fp Hfp. by eapply (inv_staked _ Hr).
Qed.

(** In every reachable state, the index of a finality provider and a delegator lists a
    hash exactly when a delegation of that delegator to that provider is stored under
    it. *)
Theorem delegator_index_exact s fp delPK h :
  reachable s →
  (∃ l, getBTCDelegatorDelegationIndex s fp delPK = Some l ∧ h ∈ l) ↔
  (∃ d, getBTCDelegation s h = Some d ∧ fp ∈ FpBtcPkList d ∧ del_BtcPk d = delPK).
Proof.
  intros Hr%reach_inv. unfold getBTCDelegation. rewrite <- (inv_index _ Hr fp delPK h).
  unfold getBTCDelegatorDelegationIndex, HasFinalityProvider. case_bool_decide as Hfp; [done|].
  cbn [negb]. split; [by intros (? & [=] & _)|]. intros (d & Hd & Hin & _)%(inv_index _ Hr).
  by destruct Hfp; eapply (inv_staked _ Hr).
Qed.

Lemma loop_total s rank h d fuel :
  bs_inv s → chain_ok (btcDelegations s) rank → btcDelegations s !! h = Some d → rank h < fuel →
  ∃ info, getBTCDelWithParams_loop fuel s h = Ok info.
Proof.
  intros Hinv Hc. revert h d. induction fuel as [|fuel IH]; intros h d Hd Hf; [lia|].
  cbn [getBTCDelWithParams_loop]. unfold GetBTCDelegation, getBTCDelegation, GetParamsByVersion.
  rewrite Hd. destruct (inv_dels _ Hinv _ _ Hd) as [_ (p & Hp & _)]. cbn. rewrite Hp. cbn.
  destruct (Hc _ _ Hd) as [_ Hprev]. destruct (StkExp d) as [e|]; [|by eexists].
  destruct (Hprev e eq_refl) as [[q Hq] Hlt]. destruct (IH _ _ Hq ltac:(lia)) as [info ->]. by eexists.
Qed.

(** C18: In every reachable state, the recursion over the chain of expanded stakes ends
    for every stored delegation, and finds all delegations and parameters on its way:
    the chains have no cycle, and the number of delegations bounds their length. *)
Theorem getBTCDelWithParams_total s h d :
  reachable s → btcDelegations s !! h = Some d →
  ∃ info, getBTCDelWithParams s h = Ok info ∧ wp_Delegation info = d.
Proof.
  intros Hr%reach_inv Hd. destruct (inv_chain _ Hr) as [rank Hc].
  destruct (loop_total s rank h d (S (size (btcDelegations s))) Hr Hc Hd) as [info Hi].
  { destruct (Hc _ _ Hd). lia. }
  exists info. split; [done|]. apply loop_stored in Hi as [Hi _]. congruence.
Qed.

Lemma params_at s v p :
  bs_inv s → bs_params s !! v = Some p → Params_Validate p = Ok tt.
Proof.
  intros Hinv Hp. destruct (inv_versions _ Hinv) as [ps [Hps _ _ _ Hv]]. rewrite Hps in Hp.
  rewrite Forall_lookup in Hv. by eapply Hv.
Qed.

Lemma valid_quorum p : Params_Validate p = Ok tt → (1 ≤ CovenantQuorum p)%N.
Proof. intros Hv. unfold Params_Validate in Hv. inv_ok. bool_to_Prop. apply N.eqb_neq in H. lia. Qed.

Lemma quorums_split d q q' :
  HasCovenantQuorums d q q' = true →
  ge_quorum (CovenantSigs d) q = true ∧ HasCovenantQuorumOnSlashing (BtcUndelegation d) q = true.
Proof.
  unfold HasCovenantQuorums, ud_HasCovenantQuorums. destruct (StkExp d); rewrite ?andb_true_iff; tauto.
Qed.

(** The challenges of the signatures stored with a delegation, for the slashing
    transactions that they sign, do not overflow. *)
Record stored_challenges_ok (d : BTCDelegation) (params : Params) : Prop := {
  sc_staking : ∀ info si msgTx,
    GetStakingInfo d params = Ok info → sti_SlashingPathSpendInfo info = Ok si →
    ToMsgTx (SlashingTx d) = Ok msgTx →
    challenges_ok (CovenantSigs d) msgTx (StakingOutput info) (GetPkScriptPath si);
  sc_unbonding : ∀ info si msgTx unbondingTx out,
    let ud := BtcUndelegation d in
    GetUnbondingInfo d params = Ok info → ubi_SlashingPathSpendInfo info = Ok si →
    ToMsgTx (ud_SlashingTx ud) = Ok msgTx → ToMsgTx (UnbondingTx ud) = Ok unbondingTx →
    txOut unbondingTx !! 0 = Some out →
    challenges_ok (CovenantSlashingSigs ud) msgTx out (GetPkScriptPath si);
}.

(** C3: In every reachable state, whoever has the private key of a finality provider of a
    delegation with a quorum of covenant signatures can have it slashed: from what is
    stored the code builds a witness for the slashing transaction of the staking
    output that Bitcoin accepts, and one for that of the unbonding output.  The
    hypothesis on challenges is that the hashes of the signatures stored with this
    delegation are below the order of the curve, as Bitcoin requires. *)
Theorem reachable_slashable s h d params q b fpSK csv :
  reachable s → btcDelegations s !! h = Some d → bs_params s !! ParamsVersion d = Some params →
  HasCovenantQuorums d (CovenantQuorum params) q = true →
  (CovenantQuorum params < 2 ^ 32)%N → (Z.of_nat (length (CovenantPks params)) < 2 ^ 31)%Z →
  (Z.of_nat (length (FpBtcPkList d)) < 2 ^ 31)%Z →
  stored_challenges_ok d params →
  (0 < fpSK < order)%Z → SerializePubKey (ScalarBaseMult fpSK) ∈ FpBtcPkList d →
  (∃ stakingTx out msgTx w, ToMsgTx (StakingTx d) = Ok stakingTx ∧
    txOut stakingTx !! N.to_nat (StakingOutputIdx d) = Some out ∧
    ToMsgTx (SlashingTx d) = Ok msgTx ∧
    del_BuildSlashingTxWithWitness (Some b) d params fpSK = Ok (set_witness msgTx 0 w) ∧
    output_accepts (tapscript_checksig (set_witness msgTx 0 w) out) csv (PkScript out) w = true) ∧
  (∃ unbondingTx out msgTx w, ToMsgTx (UnbondingTx (BtcUndelegation d)) = Ok unbondingTx ∧
    txOut unbondingTx !! 0 = Some out ∧
    ToMsgTx (ud_SlashingTx (BtcUndelegation d)) = Ok msgTx ∧
    BuildUnbondingSlashingTxWithWitness (Some b) d params fpSK = Ok (set_witness msgTx 0 w) ∧
    output_accepts (tapscript_checksig (set_witness msgTx 0 w) out) csv (PkScript out) w = true).
Proof.
  intros Hr%reach_inv Hd Hp [Hq1 Hq2]%quorums_split Hq Hcov Hfps Hch Hsk Hin.
  destruct (inv_dels _ Hr _ _ Hd) as [_ (p & Hp' & Hst & Hub & _)]. rewrite Hp in Hp'. injection Hp' as <-.
  assert (sane_sizes d params) as Hsane.
  { split; [split; [by eapply valid_quorum, params_at|done]|done]. }
  destruct (delegation_slashable b d params fpSK csv Hsane Hsk Hin) as [Hs Hu]. split.
  - destruct Hst as (info & si & msgTx & stakingTx & Hinfo & Hsi & Hpre).
    destruct (Hs _ _ _ _ _ Hinfo Hsi Hpre) as (w & Hw & Hacc);
      [by eapply (sc_staking _ _ Hch), Hpre|done|].
    destruct Hpre as (? & ? & ? & _). by exists stakingTx, (StakingOutput info), msgTx, w.
  - destruct Hub as (info & si & msgTx & utx & out & Hinfo & Hsi & Hpre).
    destruct (Hu _ _ _ _ _ Hinfo Hsi Hpre) as (w & Hw & Hacc); [|done|].
    { destruct Hpre as (? & ? & ? & _). by eapply (sc_unbonding _ _ Hch). }
    destruct Hpre as (? & ? & ? & _). by exists utx, out, msgTx, w.
Qed.

(** A finality provider that edits its record cannot leave its bounds: its maximal
    rate and maximal change stay, and its rate stays too or moves by at most the maximal
    change, within zero and the maximal rate, a day or more after the last change. *)
Theorem commission_change_bounded s ctx req s' pk fp fp' :
  reachable s → EditFinalityProvider s ctx req = Ok s' →
  finalityProviders s !! pk = Some fp → finalityProviders s' !! pk = Some fp' →
  ∃ rate info rate' info', fp_Commission fp = Some rate ∧ fp_CommissionInfo fp = Some info ∧
    fp_Commission fp' = Some rate' ∧ fp_CommissionInfo fp' = Some info' ∧
    MaxRate info' = MaxRate info ∧ MaxChangeRate info' = MaxChangeRate info ∧
    (rate' = rate ∧ UpdateTime info' = UpdateTime info ∨
     (Z.abs (rate' - rate) ≤ MaxChangeRate info)%Z ∧ (0 ≤ rate' ≤ MaxRate info)%Z ∧
     (UpdateTime info + day ≤ Epoching.hi_Time ctx)%Z ∧ UpdateTime info' = Epoching.hi_Time ctx).
Proof.
  intros Hr%reach_inv He Hfp Hfp'. destruct (inv_fps _ Hr _ _ Hfp) as (Hpk & (rate & info & Hrate & Hinfo & Hb) & _).
  unfold EditFinalityProvider in He. cbv zeta in He. inv_ok.
  match goal with H : GetFinalityProvider _ _ = Ok ?f |- _ =>
    apply (stored_fp _ _ _ Hr) in H as (Hold & Hkey & _); rename f into old end.
  match goal with H : UpdateFinalityProviderCommission _ _ _ _ = Ok ?f |- _ => rename H into Hu, f into new end.
  cbn in Hfp'. apply lookup_insert_Some in Hfp' as [[Hk <-]|[_ Hsame]].
  2: { rewrite Hfp in Hsame. injection Hsame as <-. exists rate, info, rate, info. split_and!; auto. }
  assert (fp_BtcPk new = fp_BtcPk old) as Hko.
  { unfold UpdateFinalityProviderCommission in Hu. destruct (efp_Commission req); by inv_ok. }
  assert (old = fp) as ->. { rewrite <- Hk, Hko, Hkey, Hold in Hfp. by injection Hfp. }
  unfold UpdateFinalityProviderCommission in Hu. destruct (efp_Commission req) as [c|].
  2: { injection Hu as <-. exists rate, info, rate, info. split_and!; auto. }
  rewrite Hinfo, Hrate in Hu. cbn [of_option must_deref mbind res_bind] in Hu. inv_ok. bool_to_Prop.
  eexists rate, info, _, _. split_and!; [done..|]. right. cbn [UpdateTime]. lia.
Qed.

(** The signature that completes the quorum of a delegation that is included in
    Bitcoin and whose timelock has run out is accepted, since the delegation counts as
    pending whatever its age, and records that it becomes active, although its status
    from then on is expired. *)
Theorem late_quorum_activates s delInfo covPK sl usig us esig btcTipHeight q h :
  let d := wp_Delegation delInfo in
  let d' := AddCovenantSigs d covPK (AdaptorSig.Marshal <$> sl) usig (AdaptorSig.Marshal <$> us) esig in
  let quorum := CovenantQuorum (wp_Params delInfo) in
  prev_quorum (E := MsgErr) delInfo = Ok q → GetStakingTxHash d = Ok h →
  IsUnbondedEarly d = false → HasInclusionProof d = true → (StartHeight d ≤ btcTipHeight)%N →
  (EndHeight d ≤ u32_add btcTipHeight (UnbondingTime d))%N →
  HasCovenantQuorums d quorum q = false → HasCovenantQuorums d' quorum q = true →
  GetStatus d btcTipHeight quorum q = PENDING ∧ GetStatus d' btcTipHeight quorum q = EXPIRED ∧
  addCovenantSigsToBTCDelegation s delInfo covPK sl usig us esig btcTipHeight =
    Ok (addPowerDistUpdateEvent (set_dels s (<[h := d']> (btcDelegations s))) btcTipHeight
          (BtcDelStateUpdate h ACTIVE)).
Proof.
  cbv zeta. intros Hpq Hh Hu Hi Hstart Hend Hno Hyes. split_and!.
  - unfold GetStatus. by rewrite Hu, Hno.
  - unfold GetStatus. rewrite Hyes. unfold IsUnbondedEarly, HasInclusionProof in *. cbn in *.
    rewrite Hu, Hi. cbn [negb]. by rewrite (proj2 (N.ltb_ge _ _) Hstart), (proj2 (N.leb_le _ _) Hend).
  - unfold addCovenantSigsToBTCDelegation. cbv zeta. rewrite Hpq. cbn [mbind res_bind]. rewrite Hno, Hyes.
    unfold setBTCDelegation, MustGetStakingTxHash, GetStakingTxHash, HasInclusionProof in *.
    cbn [AddCovenantSigs StakingTx StartHeight EndHeight]. rewrite Hh, Hi. done.
Qed.
End state.
End StakingState.
