(* ===== verification/StakingGenesis.v ===== *)
(** x/btcstaking: export and import of the state.
    [src/anon/x/btcstaking/keeper/genesis.go].

    [ExportGenesis] writes the stores in the order of their keys; [InitGenesis] fills
    them again.  The theorems: a state that is exported is read back the same, unless
    a delegation has a slashed finality provider, in which case the import fails. *)
From Stdlib Require Import Strings.Byte.
From stdpp Require Import base numbers list sorting gmap strings.
From S2P Require Import Prelude KVStore Bytes Hex Secp256k1 Eots AdaptorSig Btcd BtcUtils BtcTx StakingScripts.
From S2P Require Import BtcLightClient Epoching BtcCheckpoint BtcStaking StakingTx StakingSlash StakingPop StakingMsg StakingKeeper.
From S2P Require Import StakingVersions StakingKeeperSpec StakingState.

Module StakingGenesis.
Import StakingScripts StakingTx BtcStaking StakingSlash StakingPop StakingMsg StakingKeeper.
Import StakingVersions StakingKeeperSpec StakingState.

(** ** Data *)

Record BlockHeightAncToBtc := mkBlockHeight { BlockHeightAnc : N; BlockHeightBtc : N }.

Record BTCDelegator := mkBTCDelegator {
  bd_Idx : option (list bytes);
  bd_FpBtcPk : option bytes;
  bd_DelBtcPk : option bytes;
}.

Record EventIndex := mkEventIndex {
  ei_Idx : N;
  ei_BlockHeightBtc : N;
  ei_Event : option EventPowerDistUpdate;
}.

Record GenesisState := mkGenesisState {
  gs_Params : list Params;
  gs_FinalityProviders : list FinalityProvider;
  gs_BtcDelegations : list BTCDelegation;
  gs_BlockHeightChains : list BlockHeightAncToBtc;
  gs_BtcDelegators : list BTCDelegator;
  gs_Events : list EventIndex;
  gs_AllowedStakingTxHashes : list string;
  gs_LargestBtcReorg : option LargestBtcReOrg;
  gs_FpAncAddr : list string;
  gs_DeletedFpsBtcPkHex : list string;
}.

Section genesis.
Context `{Bt : Btcd} `{C : Curve} {BT : BtcTx} {TS : TxScript} {PL : PopLib} {CH : ChainHash}
  {A : Bech32} {ST : StkTypes}.
Implicit Types (s : BSState).

(** ** Import *)

Definition setBlockHeightChains s (blocks : BlockHeightAncToBtc) : BSState :=
  set_heights s (<[BlockHeightAnc blocks := BlockHeightBtc blocks]> (btcHeights s)).

Definition setEventIdx s (evt : EventIndex) : res MsgErr BSState :=
  ev ← must_deref (ei_Event evt);
  let store := events_at s (ei_BlockHeightBtc evt) in
  mret (set_events s (<[ei_BlockHeightBtc evt := <[ei_Idx evt := ev]> store]> (powerDistUpdateEvents s))).

(** The delegation of a genesis state: its finality providers are there and none is
    slashed. *)
Definition init_delegation s (btcDel : BTCDelegation) : res MsgErr BSState :=
  fold_res (λ _ fpBtcPk,
    fp ← map_err EBs (GetFinalityProvider s fpBtcPk);
    require (negb (IsSlashed fp)) (EBs ErrFpAlreadySlashed)) tt (FpBtcPkList btcDel);;
  setBTCDelegation s btcDel.

Definition init_delegator s (del : BTCDelegator) : res MsgErr BSState :=
  fp ← must_deref (bd_FpBtcPk del);
  delPK ← must_deref (bd_DelBtcPk del);
  idx ← must_deref (bd_Idx del);
  mret (setBTCDelegatorDelegationIndex s fp delPK idx).

Definition init_allowed s (hStr : string) : res MsgErr BSState :=
  bz ← of_option ErrHashStr (hex_DecodeString hStr); mret (IndexAllowedStakingTransaction s bz).

Definition SetFpAncAddr s (fpAddr : list N) : BSState := set_addrs s ({[fpAddr]} ∪ fpAncAddr s).

Definition init_addr s (fpAddrStr : string) : res MsgErr BSState :=
  fpAddr ← of_option ErrAddr (AccAddressFromBech32 fpAddrStr); mret (SetFpAncAddr s fpAddr).

Definition NewBIP340PubKey (data : bytes) : res MsgErr bytes :=
  require (length data =? 32) ErrNilKey;; mret data.
Definition NewBIP340PubKeyFromHex (hexStr : string) : res MsgErr bytes :=
  data ← of_option ErrNilKey (hex_DecodeString hexStr); NewBIP340PubKey data.

Definition init_deleted s (deletedFpBtcPkHex : string) : res MsgErr BSState :=
  pk ← NewBIP340PubKeyFromHex deletedFpBtcPkHex; mret (SoftDeleteFinalityProvider s pk).

Definition init_reorg s (r : option LargestBtcReOrg) : BSState :=
  match r with Some r => SetLargestBtcReorg s r | None => s end.

(** The largest reorganisation is set twice. *)
Definition InitGenesis s (gs : GenesisState) : res MsgErr BSState :=
  s ← fold_res SetParams s (gs_Params gs);
  let s := foldl SetFinalityProvider s (gs_FinalityProviders gs) in
  s ← fold_res init_delegation s (gs_BtcDelegations gs);
  let s := foldl setBlockHeightChains s (gs_BlockHeightChains gs) in
  s ← fold_res init_delegator s (gs_BtcDelegators gs);
  s ← fold_res setEventIdx s (gs_Events gs);
  s ← fold_res init_allowed s (gs_AllowedStakingTxHashes gs);
  s ← fold_res init_addr s (gs_FpAncAddr gs);
  s ← fold_res init_deleted s (gs_DeletedFpsBtcPkHex gs);
  let s := init_reorg s (gs_LargestBtcReorg gs) in
  mret (init_reorg s (gs_LargestBtcReorg gs)).

(** ** Export *)

Definition GetAllParams s : list Params := (kv_asc (bs_params s)).*2.

(** Appending to a list in a loop that may fail. *)
Definition collect {E T U} (f : T → res E U) (l : list T) : res E (list U) :=
  fold_res (λ acc x, y ← f x; mret (acc ++ [y])) [] l.

Definition export_height (b : N * N) : res MsgErr BlockHeightAncToBtc :=
  if (max_u32 <? b.2)%N then Panic else mret (mkBlockHeight b.1 b.2).
Definition blockHeightChains s : res MsgErr (list BlockHeightAncToBtc) :=
  collect export_height (kv_asc (btcHeights s)).

(** The entries of the index by their keys, which are two public keys in a row. *)
Definition delegator_entries s : list (bytes * list bytes) :=
  merge_sort bkv_le ((λ e : bytes * bytes * list bytes, (e.1.1 ++ e.1.2, e.2)) <$> map_to_list (btcDelegators s)).

Definition parseBIP340PubKeysFromStoreKey (key : bytes) : res MsgErr (bytes * bytes) :=
  require (64 <=? length key) ErrNilKey;;
  fp ← NewBIP340PubKey (take 32 key);
  delPK ← NewBIP340PubKey (drop 32 key);
  mret (fp, delPK).

Definition export_delegator (e : bytes * list bytes) : res MsgErr BTCDelegator :=
  '(fp, delPK) ← parseBIP340PubKeysFromStoreKey e.1;
  mret (mkBTCDelegator (Some e.2) (Some fp) (Some delPK)).
Definition export_delegators s : res MsgErr (list BTCDelegator) :=
  collect export_delegator (delegator_entries s).

(** The events by Bitcoin height, then by index. *)
Definition event_entries s : list (N * N * EventPowerDistUpdate) :=
  mjoin ((λ e, (λ f, (e.1, f.1, f.2)) <$> kv_asc e.2) <$> kv_asc (powerDistUpdateEvents s)).
Definition export_event (e : N * N * EventPowerDistUpdate) : res MsgErr EventIndex :=
  require (negb (max_u32 <? e.1.1)%N) (EBs ErrInvalidArgument);;
  mret (mkEventIndex e.1.2 e.1.1 (Some e.2)).
Definition eventIdxs s : res MsgErr (list EventIndex) := collect export_event (event_entries s).

Definition set_asc (x : gset bytes) : list bytes := merge_sort bytes_le (elements x).

Definition deletedFps s : res MsgErr (list string) :=
  collect (λ key, pk ← NewBIP340PubKey key; mret (hex_EncodeToString pk))
    (set_asc (finalityProvidersDeleted s)).

Definition addr_le (a b : list N) : Prop := bytes_le (addr_bytes a) (addr_bytes b).
#[global] Instance addr_le_dec a b : Decision (addr_le a b).
Proof. unfold addr_le. apply _. Defined.

(** An empty address is skipped. *)
Definition fpAncAddrs s : list string :=
  AccAddress_String <$> filter (λ a, a ≠ []) (merge_sort addr_le (elements (fpAncAddr s))).

Definition ExportGenesis s : res MsgErr GenesisState :=
  let fps := (bkv_asc (finalityProviders s)).*2 in
  let dels := (bkv_asc (btcDelegations s)).*2 in
  btcDels ← export_delegators s;
  evts ← eventIdxs s;
  deleted ← deletedFps s;
  heights ← blockHeightChains s;
  mret (mkGenesisState (GetAllParams s) fps dels heights btcDels evts
          (hex_EncodeToString <$> set_asc (allowedStakingTxHashes s)) (largestBtcReorg s)
          (fpAncAddrs s) deleted).
End genesis.

(** ** Filling stores *)

Lemma collect_pure {E T U} (f : T → res E U) g l :
  (∀ x, x ∈ l → f x = Ok (g x)) → collect f l = Ok (g <$> l).
Proof.
  intros Hf. unfold collect.
  rewrite (fold_res_pure (λ _, True) _ (λ acc x, acc ++ [g x])); [|by intros acc x _ Hx; rewrite Hf|done].
  f_equal. apply (foldl_snoc_map g l []).
Qed.

Section roundtrip.
Context `{Bt : Btcd} `{CL : CurveLaws} {BT : BtcTx} {TS : TxScript} {BTL : BtcTxLaws}
  {TSL : TxScriptLaws} {PL : PopLib} {CH : ChainHash} {A : Bech32} {ST : StkTypes} {TA : TapAnnex}
  {LC : BTCLightClientKeeper}.

(** ** The phases of the import *)

Lemma init_params ps qs s :
  versions_ok s ps → StronglySorted activates_before (ps ++ qs) →
  Forall (λ p, BtcActivationHeight p ≤ max_u32)%N qs → Forall (λ p, Params_Validate p = Ok tt) qs →
  ∃ s', fold_res SetParams s qs = Ok s' ∧ versions_ok s' (ps ++ qs) ∧
        s' = set_params s (bs_params s') (heightToVersionMap s').
Proof.
  revert ps s. induction qs as [|q qs IH]; intros ps s Hok Hs Hh Hv.
  { exists s. rewrite app_nil_r. split; [done|]. split; [done|]. by destruct s. }
  apply Forall_cons in Hh as [Hq Hh]. apply Forall_cons in Hv as [Hvq Hv].
  rewrite cons_middle, (assoc_L app) in Hs.
  pose proof (SetParams_total s ps q Hok Hq Hvq (StronglySorted_app_1_l _ _ _ Hs)) as Ht.
  destruct (SetParams s q) as [s1| |] eqn:Hset; try done.
  destruct (SetParams_ok _ _ _ _ Hok Hq Hset) as [Hs1 Hok1].
  destruct (IH _ _ Hok1 Hs Hh Hv) as (s' & Hf & Hok' & Hs').
  exists s'. cbn [fold_res]. rewrite Hset. cbn [mbind res_bind].
  rewrite cons_middle, (assoc_L app). split; [done|]. split; [done|]. by rewrite Hs', Hs1.
Qed.

Lemma init_fps s l :
  foldl SetFinalityProvider s l =
  set_fps s (foldl (λ m e, <[e.1 := e.2]> m) (finalityProviders s) ((λ fp, (fp_BtcPk fp, fp)) <$> l)).
Proof.
  revert s. induction l as [|fp l IH]; intros s; [by destruct s|]. cbn [foldl]. by rewrite IH.
Qed.

Lemma init_heights s l :
  foldl setBlockHeightChains s l =
  set_heights s (foldl (λ m e, <[e.1 := e.2]> m) (btcHeights s)
    ((λ b, (BlockHeightAnc b, BlockHeightBtc b)) <$> l)).
Proof.
  revert s. induction l as [|b l IH]; intros s; [by destruct s|]. cbn [foldl]. by rewrite IH.
Qed.

Lemma init_dels s (l : list (bytes * BTCDelegation)) :
  (∀ h d, (h, d) ∈ l → (∃ tx, NewBTCTxFromBytes (StakingTx d) = Ok tx ∧ TxHash tx = h) ∧
    ∀ fp, fp ∈ FpBtcPkList d → ∃ q, finalityProviders s !! fp = Some q ∧ IsSlashed q = false) →
  fold_res init_delegation s l.*2 =
  Ok (set_dels s (foldl (λ m e, <[e.1 := e.2]> m) (btcDelegations s) l)).
Proof.
  revert s. induction l as [|[h d] l IH]; intros s Hl; [by destruct s|]. cbn [fmap list_fmap snd fold_res].
  destruct (Hl h d ltac:(by left)) as [(tx & Htx & Hh) Hfps].
  assert (init_delegation s d = Ok (set_dels s (<[h := d]> (btcDelegations s)))) as ->.
  { unfold init_delegation.
    rewrite (fold_res_pure (λ _, True) _ (λ _ _, tt)); [|intros [] fp _ Hfp|done].
    - cbn [mbind res_bind]. unfold setBTCDelegation, MustGetStakingTxHash, GetStakingTxHash.
      rewrite Htx. cbn. by rewrite Hh.
    - destruct (Hfps fp Hfp) as (q & Hq & Hsl). unfold GetFinalityProvider. rewrite Hq. cbn. by rewrite Hsl. }
  cbn [mbind res_bind foldl fst snd]. change (list_fmap _ _ snd l) with l.*2. rewrite IH; [done|].
  intros h' d' Hin. apply Hl. by right.
Qed.

Lemma init_delegators s (l : list (bytes * bytes * list bytes)) :
  fold_res init_delegator s ((λ e, mkBTCDelegator (Some e.2) (Some e.1.1) (Some e.1.2)) <$> l) =
  Ok (set_delegators s (foldl (λ m e, <[e.1 := e.2]> m) (btcDelegators s) l)).
Proof.
  revert s. induction l as [|[[fp del] idx] l IH]; intros s; [by destruct s|].
  cbn [fmap list_fmap fold_res foldl]. cbn. apply (IH (setBTCDelegatorDelegationIndex s fp del idx)).
Qed.

Definition add_event (m : gmap N (gmap N EventPowerDistUpdate)) (e : N * N * EventPowerDistUpdate) :=
  <[e.1.1 := <[e.1.2 := e.2]> (default ∅ (m !! e.1.1))]> m.

Lemma init_events s l :
  fold_res setEventIdx s ((λ e, mkEventIndex e.1.2 e.1.1 (Some e.2)) <$> l) =
  Ok (set_events s (foldl add_event (powerDistUpdateEvents s) l)).
Proof.
  revert s. induction l as [|[[h i] ev] l IH]; intros s; [by destruct s|].
  cbn [fmap list_fmap fold_res foldl]. cbn. apply IH.
Qed.

Definition set_allowed s x : BSState :=
  mkBSState (finalityProviders s) (fpAncAddr s) (finalityProvidersDeleted s) (btcDelegations s)
    (btcDelegators s) (powerDistUpdateEvents s) (btcHeights s) (largestBtcReorg s) (bs_params s)
    (heightToVersionMap s) x.

Lemma init_alloweds s l :
  fold_res init_allowed s (hex_EncodeToString <$> l) =
  Ok (set_allowed s (foldl (λ x k, {[k]} ∪ x) (allowedStakingTxHashes s) l)).
Proof.
  revert s. induction l as [|h l IH]; intros s; [by destruct s|].
  rewrite fmap_cons. cbn [fold_res foldl]. assert (init_allowed s (hex_EncodeToString h) = Ok (IndexAllowedStakingTransaction s h)) as ->
    by (unfold init_allowed; by rewrite hex_decode_encode).
  apply (IH (IndexAllowedStakingTransaction s h)).
Qed.

Lemma init_addrs s l :
  Forall (λ a, AccAddressFromBech32 (AccAddress_String a) = Some a) l →
  fold_res init_addr s (AccAddress_String <$> l) =
  Ok (set_addrs s (foldl (λ x k, {[k]} ∪ x) (fpAncAddr s) l)).
Proof.
  intros Hl. revert s. induction Hl as [|a l Ha Hl IH]; intros s; [by destruct s|].
  rewrite fmap_cons. cbn [fold_res foldl]. assert (init_addr s (AccAddress_String a) = Ok (SetFpAncAddr s a)) as ->
    by (unfold init_addr; by rewrite Ha).
  apply (IH (SetFpAncAddr s a)).
Qed.

Lemma init_deleteds s l :
  Forall (λ k, length k = 32) l →
  fold_res init_deleted s (hex_EncodeToString <$> l) =
  Ok (set_deleted s (foldl (λ x k, {[k]} ∪ x) (finalityProvidersDeleted s) l)).
Proof.
  intros Hl. revert s. induction Hl as [|k l Hk Hl IH]; intros s; [by destruct s|].
  rewrite fmap_cons. cbn [fold_res foldl]. assert (init_deleted s (hex_EncodeToString k) = Ok (SoftDeleteFinalityProvider s k)) as ->.
  { unfold init_deleted, NewBIP340PubKeyFromHex, NewBIP340PubKey. rewrite hex_decode_encode. cbn.
    by rewrite Hk. }
  apply (IH (SoftDeleteFinalityProvider s k)).
Qed.

Lemma init_reorgs s r :
  largestBtcReorg s = None → init_reorg (init_reorg s r) r = set_reorg s r.
Proof.
  intros Hs. destruct r as [r|]; [|by destruct s; simplify_eq/=].
  unfold init_reorg, SetLargestBtcReorg at 2. rewrite Hs. unfold SetLargestBtcReorg. cbn.
  by rewrite N.leb_refl.
Qed.

(** *** Events *)

Lemma add_events_lookup (l : list (N * N * EventPowerDistUpdate)) m h i :
  default ∅ (foldl add_event m l !! h) !! i =
  foldl (λ f e, <[e.1 := e.2]> f) (default ∅ (m !! h))
    ((λ e, (e.1.2, e.2)) <$> filter (λ e, e.1.1 = h) l) !! i.
Proof.
  revert m. induction l as [|[[h' i'] ev] l IH]; intros m; [done|]. cbn [foldl].
  rewrite IH, filter_cons. unfold add_event. cbn [fst snd]. case_decide as Hh.
  - subst h'. by rewrite lookup_insert_eq.
  - by rewrite lookup_insert_ne.
Qed.

Lemma elem_of_event_entries s h i ev :
  (h, i, ev) ∈ event_entries s ↔ events_at s h !! i = Some ev.
Proof.
  unfold event_entries, events_at. rewrite list_elem_of_join. split.
  - intros (l & Hin & ((h' & m) & -> & Hm)%list_elem_of_fmap). apply elem_of_kv_asc in Hm.
    apply list_elem_of_fmap in Hin as ((i' & ev') & [= -> -> ->] & Hin%elem_of_kv_asc). by rewrite Hm.
  - destruct (powerDistUpdateEvents s !! h) as [m|] eqn:Hm; [|cbn [default]; by intros ?%lookup_empty_Some].
    intros Hi. exists ((λ f, (h, f.1, f.2)) <$> kv_asc m). split.
    + apply list_elem_of_fmap. exists (i, ev). by rewrite elem_of_kv_asc.
    + apply list_elem_of_fmap. exists (h, m). by rewrite elem_of_kv_asc.
Qed.

Lemma refill_events s h :
  default ∅ (foldl add_event ∅ (event_entries s) !! h) = events_at s h.
Proof.
  apply map_eq. intros i. rewrite add_events_lookup, lookup_empty. cbn [default]. f_equal.
  apply refill. intros k ev. rewrite list_elem_of_fmap, <- elem_of_event_entries. split.
  - intros ([[h' i'] ev'] & [= -> ->] & [Hh Hin]%list_elem_of_filter). cbn in Hh. by subst.
  - intros Hin. exists (h, k, ev). split; [done|]. by apply list_elem_of_filter.
Qed.

(** ** The round trip *)

Context {X : Type} (IndexRefundableMsg : RefundableMsg → X → X) (authority : string).

(** Heights fit 32 bits, keys have 32 bytes and addresses are read back. *)
Record exportable (s : BSState) : Prop := {
  ex_heights k v : btcHeights s !! k = Some v → (v ≤ max_u32)%N;
  ex_events h i ev : events_at s h !! i = Some ev → (h ≤ max_u32)%N;
  ex_delegators fp delPK idx :
    btcDelegators s !! (fp, delPK) = Some idx → length fp = 32 ∧ length delPK = 32;
  ex_deleted k : k ∈ finalityProvidersDeleted s → length k = 32;
  ex_addrs a : a ∈ fpAncAddr s → a ≠ [] ∧ AccAddressFromBech32 (AccAddress_String a) = Some a;
}.

(** Equality of states, up to heights without events. *)
Record state_equiv (s s' : BSState) : Prop := {
  eq_fps : finalityProviders s' = finalityProviders s;
  eq_addrs : fpAncAddr s' = fpAncAddr s;
  eq_deleted : finalityProvidersDeleted s' = finalityProvidersDeleted s;
  eq_dels : btcDelegations s' = btcDelegations s;
  eq_delegators : btcDelegators s' = btcDelegators s;
  eq_events h : events_at s' h = events_at s h;
  eq_heights : btcHeights s' = btcHeights s;
  eq_reorg : largestBtcReorg s' = largestBtcReorg s;
  eq_params : bs_params s' = bs_params s;
  eq_versions : default [] (heightToVersionMap s') = default [] (heightToVersionMap s);
  eq_allowed : allowedStakingTxHashes s' = allowedStakingTxHashes s;
}.

(** The entries that an export of [s] lists. *)
Record exported (s : BSState) (ps : list Params) (ds : list (bytes * bytes * list bytes))
    (gs : GenesisState) : Prop := {
  xp_params : gs_Params gs = ps;
  xp_fps : gs_FinalityProviders gs = (bkv_asc (finalityProviders s)).*2;
  xp_dels : gs_BtcDelegations gs = (bkv_asc (btcDelegations s)).*2;
  xp_heights : gs_BlockHeightChains gs = (λ b, mkBlockHeight b.1 b.2) <$> kv_asc (btcHeights s);
  xp_delegators :
    gs_BtcDelegators gs = (λ e, mkBTCDelegator (Some e.2) (Some e.1.1) (Some e.1.2)) <$> ds;
  xp_entries : ds ≡ₚ map_to_list (btcDelegators s);
  xp_events : gs_Events gs = (λ e, mkEventIndex e.1.2 e.1.1 (Some e.2)) <$> event_entries s;
  xp_allowed :
    gs_AllowedStakingTxHashes gs = hex_EncodeToString <$> set_asc (allowedStakingTxHashes s);
  xp_reorg : gs_LargestBtcReorg gs = largestBtcReorg s;
  xp_addrs : gs_FpAncAddr gs = AccAddress_String <$> merge_sort addr_le (elements (fpAncAddr s));
  xp_deleted :
    gs_DeletedFpsBtcPkHex gs = hex_EncodeToString <$> set_asc (finalityProvidersDeleted s);
}.

Lemma imap_sorted {T} (l : list T) k :
  StronglySorted kv_lt (imap (λ i x, (N.of_nat (k + i), x)) l).
Proof.
  revert k. induction l as [|x l IH]; intros k; [constructor|]. rewrite imap_cons. constructor.
  - rewrite (imap_ext _ (λ i x, (N.of_nat (S k + i), x))); [apply IH|]. intros i y _. cbn. do 2 f_equal. lia.
  - apply Forall_lookup. intros i [j y] Hj. rewrite list_lookup_imap in Hj.
    apply fmap_Some in Hj as (z & _ & [= -> ->]). unfold kv_lt. cbn. lia.
Qed.

Lemma kv_asc_versions s ps : versions_ok s ps → GetAllParams s = ps.
Proof.
  intros Hv. unfold GetAllParams. rewrite (kv_lt_sorted_unique _ (imap (λ i p, (N.of_nat i, p)) ps)).
  - apply list_eq. intros i. rewrite list_lookup_fmap, list_lookup_imap. by destruct (ps !! i).
  - apply kv_asc_lt_sorted.
  - apply (imap_sorted ps 0).
  - intros [v p]. rewrite elem_of_kv_asc, (vs_params _ _ Hv), list_elem_of_lookup. split.
    + intros Hp. exists (N.to_nat v). rewrite list_lookup_imap, Hp. cbn. by rewrite N2Nat.id.
    + intros (i & Hi). rewrite list_lookup_imap in Hi. apply fmap_Some in Hi as (q & Hq & [= -> ->]).
      by rewrite Nat2N.id.
Qed.

Lemma export_delegators_Ok s :
  exportable s → ∃ ds, ds ≡ₚ map_to_list (btcDelegators s) ∧
    export_delegators s = Ok ((λ e, mkBTCDelegator (Some e.2) (Some e.1.1) (Some e.1.2)) <$> ds).
Proof.
  intros Hex. unfold export_delegators.
  assert (∃ ds, ds ≡ₚ map_to_list (btcDelegators s) ∧ delegator_entries s =
    (λ e : bytes * bytes * list bytes, (e.1.1 ++ e.1.2, e.2)) <$> ds) as (ds & Hds & ->).
  { unfold delegator_entries. set (l := _ <$> map_to_list _).
    destruct (Permutation_map_inv _ _ (merge_sort_Permutation bkv_le l)) as (ds & Hds & Hp). by exists ds. }
  exists ds. split; [done|].
  rewrite (collect_pure _ (λ e, mkBTCDelegator (Some e.2) (Some (take 32 e.1)) (Some (drop 32 e.1)))).
  - rewrite <- list_fmap_compose. f_equal. apply list_fmap_ext. intros i [[fp del] idx] Hi. cbn.
    destruct (ex_delegators _ Hex fp del idx) as [Hl _].
    { apply elem_of_map_to_list. rewrite <- Hds. by eapply list_elem_of_lookup_2. }
    by rewrite take_app_length', drop_app_length' by done.
  - intros e ([[fp del] idx] & -> & Hin)%list_elem_of_fmap. cbn [fst snd].
    rewrite Hds in Hin. apply elem_of_map_to_list in Hin. destruct (ex_delegators _ Hex _ _ _ Hin) as [Hl1 Hl2].
    unfold export_delegator, parseBIP340PubKeysFromStoreKey, NewBIP340PubKey. cbn [fst snd].
    rewrite take_app_length', drop_app_length', length_app, Hl1, Hl2 by done. done.
Qed.

Lemma set_asc_elem x k : k ∈ set_asc x ↔ k ∈ x.
Proof. unfold set_asc. by rewrite merge_sort_Permutation, elem_of_elements. Qed.

Lemma export_Ok s ps :
  versions_ok s ps → exportable s → ∃ ds gs, ExportGenesis s = Ok gs ∧ exported s ps ds gs.
Proof.
  intros Hv Hex. destruct (export_delegators_Ok s Hex) as (ds & Hds & Hexp). exists ds.
  unfold ExportGenesis. cbv zeta. rewrite Hexp. cbn [mbind res_bind].
  unfold eventIdxs. rewrite (collect_pure _ (λ e, mkEventIndex e.1.2 e.1.1 (Some e.2))).
  2: { intros [[h i] ev] Hin%elem_of_event_entries. apply (ex_events _ Hex) in Hin. unfold export_event. cbn [fst snd].
       by rewrite (proj2 (N.ltb_ge _ _) Hin). }
  cbn [mbind res_bind]. unfold deletedFps. rewrite (collect_pure _ hex_EncodeToString).
  2: { intros k Hk%set_asc_elem. apply (ex_deleted _ Hex) in Hk. unfold NewBIP340PubKey. by rewrite Hk. }
  cbn [mbind res_bind]. unfold blockHeightChains. rewrite (collect_pure _ (λ b, mkBlockHeight b.1 b.2)).
  2: { intros [k v] Hin%elem_of_kv_asc. apply (ex_heights _ Hex) in Hin. unfold export_height. cbn [fst snd].
       by rewrite (proj2 (N.ltb_ge _ _) Hin). }
  cbn [mbind res_bind]. eexists. split; [done|]. split; try done; cbn.
  - by apply kv_asc_versions.
  - unfold fpAncAddrs. f_equal. set (l := merge_sort _ _).
    rewrite (filter_prefix _ (length l)), firstn_all; [done| |by rewrite drop_all].
    rewrite firstn_all. apply Forall_forall. intros a Ha. subst l.
    rewrite merge_sort_Permutation, elem_of_elements in Ha. by apply (ex_addrs _ Hex).
Qed.

Lemma refill_fps s :
  bs_inv s → foldl (λ m e, <[e.1 := e.2]> m) ∅
    ((λ fp, (fp_BtcPk fp, fp)) <$> (bkv_asc (finalityProviders s)).*2) = finalityProviders s.
Proof.
  intros Hinv. apply refill. intros k fp.
  rewrite <- elem_of_bkv_asc, list_elem_of_fmap. setoid_rewrite list_elem_of_fmap. split.
  - intros (q & [= -> ->] & ([k' q'] & -> & He)). apply elem_of_bkv_asc in He as Hq.
    by destruct (inv_fps _ Hinv _ _ Hq) as [<- _].
  - intros He. exists fp. apply elem_of_bkv_asc in He as Hq. destruct (inv_fps _ Hinv _ _ Hq) as [-> _].
    split; [done|]. by exists (k, fp).
Qed.

Lemma refill_heights (m : gmap N N) :
  foldl (λ m e, <[e.1 := e.2]> m) ∅
    ((λ b, (BlockHeightAnc b, BlockHeightBtc b)) <$> ((λ b, mkBlockHeight b.1 b.2) <$> kv_asc m)) = m.
Proof.
  rewrite <- list_fmap_compose. apply refill. intros k v.
  rewrite <- elem_of_kv_asc, list_elem_of_fmap. split; [by intros ([] & [= -> ->] & ?)|].
  intros He. by exists (k, v).
Qed.

Lemma init_params_empty s ps :
  versions_ok s ps → ∃ s1, fold_res SetParams empty_state ps = Ok s1 ∧ versions_ok s1 ps ∧
    s1 = set_params empty_state (bs_params s1) (heightToVersionMap s1).
Proof.
  intros Hv. apply (init_params []).
  - split; [done|done|constructor|constructor|constructor].
  - apply (vs_sorted _ _ Hv).
  - apply (vs_heights _ _ Hv).
  - apply (vs_valid _ _ Hv).
Qed.

(** Filling an empty store from what was exported. *)
Lemma import_Ok s ps ds gs :
  bs_inv s → versions_ok s ps → exportable s → exported s ps ds gs →
  (∀ h d fp q, btcDelegations s !! h = Some d → fp ∈ FpBtcPkList d →
     finalityProviders s !! fp = Some q → IsSlashed q = false) →
  ∃ s', InitGenesis empty_state gs = Ok s' ∧ state_equiv s s'.
Proof.
  intros Hinv Hv Hex Hg Hsl. unfold InitGenesis. rewrite (xp_params _ _ _ _ Hg).
  destruct (init_params_empty s ps Hv) as (s1 & -> & Hv1 & Hs1).
  cbn [mbind res_bind]. rewrite init_fps, (xp_fps _ _ _ _ Hg).
  assert (finalityProviders s1 = ∅ ∧ btcDelegations s1 = ∅ ∧ btcHeights s1 = ∅ ∧ btcDelegators s1 = ∅ ∧
    powerDistUpdateEvents s1 = ∅ ∧ allowedStakingTxHashes s1 = ∅ ∧ fpAncAddr s1 = ∅ ∧
    finalityProvidersDeleted s1 = ∅ ∧ largestBtcReorg s1 = None) as
    (E1 & E2 & E3 & E4 & E5 & E6 & E7 & E8 & E9) by by rewrite Hs1.
  rewrite E1, refill_fps by done.
  rewrite (xp_dels _ _ _ _ Hg), init_dels.
  2: { intros h d Hd%elem_of_bkv_asc. destruct (inv_dels _ Hinv _ _ Hd) as [Htx _]. split; [done|].
       intros fp Hfp. destruct (inv_staked _ Hinv _ _ _ Hd Hfp) as [q Hq]. exists q. split; [done|]. by eapply Hsl. }
  cbn [btcDelegations set_fps]. rewrite E2, (refill _ (btcDelegations s)) by apply elem_of_bkv_asc.
  cbn [mbind res_bind]. rewrite init_heights, (xp_heights _ _ _ _ Hg).
  cbn [btcHeights set_fps set_dels]. rewrite E3, refill_heights.
  rewrite (xp_delegators _ _ _ _ Hg), init_delegators. cbn [btcDelegators set_fps set_dels set_heights].
  rewrite E4, (refill ds (btcDelegators s)).
  2: { intros k v. by rewrite (xp_entries _ _ _ _ Hg), elem_of_map_to_list. }
  cbn [mbind res_bind]. rewrite (xp_events _ _ _ _ Hg), init_events. cbn [mbind res_bind].
  rewrite (xp_allowed _ _ _ _ Hg), init_alloweds. cbn [mbind res_bind].
  rewrite (xp_addrs _ _ _ _ Hg), init_addrs.
  2: { apply Forall_forall. intros a Ha. rewrite merge_sort_Permutation, elem_of_elements in Ha.
       by apply (ex_addrs _ Hex). }
  cbn [mbind res_bind]. rewrite (xp_deleted _ _ _ _ Hg), init_deleteds.
  2: { apply Forall_forall. intros k Hk%set_asc_elem. by apply (ex_deleted _ Hex). }
  cbn [mbind res_bind]. rewrite init_reorgs by done. eexists. split; [done|].
  cbn in E5, E6, E7, E8. split; cbn; try done.
  - rewrite E7. apply refill_set. intros a. by rewrite merge_sort_Permutation, elem_of_elements.
  - rewrite E8. apply refill_set, set_asc_elem.
  - intros h. unfold events_at at 1. cbn. rewrite E5. apply refill_events.
  - apply (xp_reorg _ _ _ _ Hg).
  - apply map_eq. intros v. by rewrite (vs_params _ _ Hv1), (vs_params _ _ Hv).
  - by rewrite (vs_map _ _ Hv1), (vs_map _ _ Hv).
  - rewrite E6. apply refill_set, set_asc_elem.
Qed.

(** A check that stops at the first slashed finality provider. *)
Lemma check_fps s (fps : list bytes) :
  (∀ fp, fp ∈ fps → is_Some (finalityProviders s !! fp)) →
  fold_res (λ _ fpBtcPk,
    fp ← map_err EBs (GetFinalityProvider s fpBtcPk);
    require (negb (IsSlashed fp)) (EBs ErrFpAlreadySlashed)) tt fps =
  if bool_decide (Exists (λ fp, IsSlashed <$> finalityProviders s !! fp = Some true) fps)
  then Err (EBs ErrFpAlreadySlashed) else Ok tt.
Proof.
  induction fps as [|fp fps IH]; intros Hreg; [done|]. cbn [fold_res].
  destruct (Hreg fp ltac:(by left)) as [q Hq]. 
  assert (GetFinalityProvider s fp = Ok q) as -> by (unfold GetFinalityProvider; by rewrite Hq).
  cbn [map_err mbind res_bind].
  destruct (IsSlashed q) eqn:Hsl; cbn [negb require mbind res_bind].
  - rewrite bool_decide_true; [done|]. left. by rewrite Hq; cbn; rewrite Hsl.
  - rewrite IH by (intros; apply Hreg; by right). case_bool_decide as Hex; case_bool_decide as Hex'; try done.
    + destruct Hex'. by right.
    + apply Exists_cons in Hex' as [Hx|Hx]; [|done]. rewrite Hq in Hx. cbn in Hx. congruence.
Qed.

Lemma init_dels_slashed s (l : list (bytes * BTCDelegation)) :
  (∀ h d, (h, d) ∈ l → (∃ tx, NewBTCTxFromBytes (StakingTx d) = Ok tx ∧ TxHash tx = h) ∧
    ∀ fp, fp ∈ FpBtcPkList d → is_Some (finalityProviders s !! fp)) →
  (∃ h d fp q, (h, d) ∈ l ∧ fp ∈ FpBtcPkList d ∧ finalityProviders s !! fp = Some q ∧ IsSlashed q = true) →
  fold_res init_delegation s l.*2 = Err (EBs ErrFpAlreadySlashed).
Proof.
  revert s. induction l as [|[h d] l IH]; intros s Hl (h' & d' & fp & q & Hin & Hfp & Hq & Hsl).
  { by apply elem_of_nil in Hin. }
  cbn [fmap list_fmap snd fold_res]. change (list_fmap _ _ snd l) with l.*2.
  destruct (Hl h d ltac:(by left)) as [(tx & Htx & Hh) Hreg].
  assert (init_delegation s d =
    if bool_decide (Exists (λ fp, IsSlashed <$> finalityProviders s !! fp = Some true) (FpBtcPkList d))
    then Err (EBs ErrFpAlreadySlashed) else Ok (set_dels s (<[h := d]> (btcDelegations s)))) as ->.
  { unfold init_delegation. rewrite check_fps by done. case_bool_decide; [done|]. cbn [mbind res_bind].
    unfold setBTCDelegation, MustGetStakingTxHash, GetStakingTxHash. rewrite Htx. cbn. by rewrite Hh. }
  case_bool_decide as Hex; [done|]. cbn [mbind res_bind]. apply IH.
  - intros h0 d0 Hin0. apply Hl. by right.
  - exists h', d', fp, q. split; [|done]. apply elem_of_cons in Hin as [[= -> ->]|Hin]; [|done].
    destruct Hex. apply Exists_exists. exists fp. split; [done|]. rewrite Hq. cbn. by rewrite Hsl.
Qed.

(** The export of a reachable state in which a delegation has a slashed finality
    provider cannot be imported: [InitGenesis] fails. *)
Theorem slashed_state_not_importable s h d fp q :
  reachable IndexRefundableMsg authority s → exportable s →
  btcDelegations s !! h = Some d → fp ∈ FpBtcPkList d →
  finalityProviders s !! fp = Some q → IsSlashed q = true →
  (gs ← ExportGenesis s; InitGenesis empty_state gs) = Err (EBs ErrFpAlreadySlashed).
Proof.
  intros Hr%reach_inv Hex Hd Hfp Hq Hsl. destruct (inv_versions _ Hr) as [ps Hv].
  destruct (export_Ok s ps Hv Hex) as (ds & gs & -> & Hg). cbn [mbind res_bind].
  unfold InitGenesis. rewrite (xp_params _ _ _ _ Hg).
  destruct (init_params_empty s ps Hv) as (s1 & -> & Hv1 & Hs1). cbn [mbind res_bind].
  rewrite init_fps, (xp_fps _ _ _ _ Hg). assert (finalityProviders s1 = ∅) as -> by by rewrite Hs1.
  rewrite refill_fps by done. rewrite (xp_dels _ _ _ _ Hg), init_dels_slashed; [done| |].
  - intros h' d' Hd'%elem_of_bkv_asc. destruct (inv_dels _ Hr _ _ Hd') as [Htx _]. split; [done|].
    intros fp' Hfp'. by eapply (inv_staked _ Hr).
  - exists h, d, fp, q. by rewrite elem_of_bkv_asc.
Qed.

(** C19: A reachable state in which no delegation has a slashed finality provider is
    read back from its export: the import into empty stores succeeds and yields the same
    state, the map of heights to versions included.  Heights fit in 32 bits, keys of
    finality providers and delegators have 32 bytes, and addresses are read back from
    their text ([exportable]). *)
Theorem staking_genesis_roundtrip s :
  reachable IndexRefundableMsg authority s → exportable s →
  (∀ h d fp q, btcDelegations s !! h = Some d → fp ∈ FpBtcPkList d →
     finalityProviders s !! fp = Some q → IsSlashed q = false) →
  ∃ s', (gs ← ExportGenesis s; InitGenesis empty_state gs) = Ok s' ∧ state_equiv s s'.
Proof.
  intros Hr%reach_inv Hex Hsl. destruct (inv_versions _ Hr) as [ps Hv].
  destruct (export_Ok s ps Hv Hex) as (ds & gs & -> & Hg). cbn [mbind res_bind]. by eapply import_Ok.
Qed.
End roundtrip.
End StakingGenesis.
