(* ===== verification/StakingExamples.v ===== *)
(** Staking on the small Bitcoin: the theorems on scripts, transactions and slashing
    applied to a delegation to one finality provider under a committee of one.

    The staker's key is 1, the provider's 5, whose point has an odd y coordinate, and
    the committee's 3. *)
From Stdlib Require Import Strings.Byte.
From stdpp Require Import base numbers list sorting gmap strings.
From S2P Require Import Prelude Bytes Secp256k1 Eots AdaptorSig Btcd BtcTx BtcTxToy StakingScripts BtcStaking StakingTx StakingSlash.

Module StakingExamples.
Import StakingScripts StakingTx BtcStaking StakingSlash.
#[local] Existing Instance Toy.curve.
#[local] Existing Instance Toy.laws.

Definition get {E A} (d : A) (r : res E A) : A := match r with Ok a => a | _ => d end.

Lemma get_ok {E A} (d : A) (r : res E A) : is_ok r = true → r = Ok (get d r).
Proof. by destruct r. Qed.

Definition staker_sk : Z := 1.
Definition fp_sk : Z := 5.
Definition cov_sk : Z := 3.
Definition no_out : TxOut := mkTxOut 0 [].
Definition no_tx : MsgTx := mkMsgTx 0 [] [] 0.
Definition pk (sk : Z) : bytes := SerializePubKey (ScalarBaseMult sk).
Definition slashing_script : bytes := [x6b; x01].

Definition params : Params :=
  mkParams [pk cov_sk] 1 100 5000 10 1000 slashing_script 5 (10 ^ 17)%Z 20 10 0%Z 0 1.

(** *** The staking output *)

Definition no_holder : taprootScriptHolder := mkTaprootScriptHolder None NewIndexedTapScriptTree.
Definition no_spend : SpendInfo := mkSpendInfo ([] : bytes) [].

Definition staking_info : StakingInfo :=
  get (mkStakingInfo no_out no_holder [] [] [])
    (BuildStakingInfo Toy.P1 [Toy.P2] [Toy.P3] 1 100 1000).
Definition staking_path : SpendInfo := get no_spend (sti_SlashingPathSpendInfo staking_info).

Definition staking_tx : MsgTx :=
  mkMsgTx 2 [mkTxIn (mkOutPoint (pk 2) 0) [] [] MaxTxInSequenceNum]
    [StakingOutput staking_info] 0.

Definition slashing_tx : MsgTx :=
  get no_tx (BuildSlashingTxFromStakingTxStrict staking_tx 0 slashing_script Toy.P1 20 10 (10 ^ 17)%Z).

Definition unbonding_info : UnbondingInfo :=
  get (mkUnbondingInfo no_out no_holder [] [])
    (BuildUnbondingInfo Toy.P1 [Toy.P2] [Toy.P3] 1 20 990).
Definition unbonding_path : SpendInfo := get no_spend (ubi_SlashingPathSpendInfo unbonding_info).

Definition unbonding_tx : MsgTx :=
  mkMsgTx 2 [mkTxIn (mkOutPoint (TxHash staking_tx) 0) [] [] MaxTxInSequenceNum]
    [UnbondingOutput unbonding_info] 0.

Definition unbonding_slashing_tx : MsgTx :=
  get no_tx (BuildSlashingTxFromStakingTxStrict unbonding_tx 0 slashing_script Toy.P1 20 10 (10 ^ 17)%Z).

(** *** Signatures *)

Definition aux (b : byte) : bytes := replicate 31 x02 ++ [b].
Definition covenant_sigs (b : byte) (tx funding : MsgTx) (script : bytes)
  : list CovenantAdaptorSignatures :=
  [mkCovenantAdaptorSignatures (pk cov_sk)
     [match slashing_EncSign (Some []) (Some []) (aux b) (ToyTx.enc_tx tx) funding 0 script cov_sk
              Toy.P2 with
      | Ok a => AdaptorSig.Marshal a
      | _ => []
      end]].
Definition delegator_sig (tx funding : MsgTx) (script : bytes) : bytes :=
  get [] (slashing_Sign (ToyTx.enc_tx tx) funding 0 script staker_sk).

Definition delegation : BTCDelegation :=
  mkBTCDelegation "" (pk staker_sk) None [pk fp_sk] 100 0 0 1000 (ToyTx.enc_tx staking_tx) 0
    (ToyTx.enc_tx slashing_tx)
    (delegator_sig slashing_tx staking_tx (GetPkScriptPath staking_path))
    (covenant_sigs x03 slashing_tx staking_tx (GetPkScriptPath staking_path)) 20
    (mkBTCUndelegation (ToyTx.enc_tx unbonding_tx) (ToyTx.enc_tx unbonding_slashing_tx)
       (delegator_sig unbonding_slashing_tx unbonding_tx (GetPkScriptPath unbonding_path))
       (covenant_sigs x02 unbonding_slashing_tx unbonding_tx (GetPkScriptPath unbonding_path)) [] None)
    0 1 None.

Definition del_info : StakingInfo := get staking_info (GetStakingInfo delegation params).
Definition del_path : SpendInfo := get no_spend (sti_SlashingPathSpendInfo del_info).
Definition ud_info : UnbondingInfo := get unbonding_info (GetUnbondingInfo delegation params).
Definition ud_path : SpendInfo := get no_spend (ubi_SlashingPathSpendInfo ud_info).

Ltac run := vm_compute; reflexivity.

Lemma del_info_eq : GetStakingInfo delegation params = Ok del_info.
Proof. unfold del_info. apply get_ok. run. Qed.
Lemma del_path_eq : sti_SlashingPathSpendInfo del_info = Ok del_path.
Proof. unfold del_path. apply get_ok. run. Qed.
Lemma ud_info_eq : GetUnbondingInfo delegation params = Ok ud_info.
Proof. unfold ud_info. apply get_ok. run. Qed.
Lemma ud_path_eq : ubi_SlashingPathSpendInfo ud_info = Ok ud_path.
Proof. unfold ud_path. apply get_ok. run. Qed.

(** *** Witnesses *)

Lemma staking_output_spends_witness :
  Value (StakingOutput staking_info) = 1000%Z ∧
  ∃ tl, sti_TimeLockPathSpendInfo staking_info = Ok tl ∧
    ∀ sig, ∃ w, CreateTimeLockPathWitness tl (Some sig) = Ok w.
Proof.
  destruct (staking_output_spends (H := Toy.curve) (TSL := ToyTx.txscript_laws) (λ _ _ _, true)
    (λ _, true) Toy.P1 [Toy.P2] [Toy.P3] 1 100 1000 staking_info)
    as (Hv & tl & _ & _ & Htl & _ & _ & Hw & _);
    [apply get_ok; vm_compute; reflexivity|vm_compute; congruence|vm_compute; reflexivity..|].
  split; [done|]. exists tl. split; [done|]. intros sig. destruct (Hw sig) as (w & Hw' & _). by exists w.
Defined.

Lemma slashing_tx_sound_witness :
  ∃ slashed change, txOut slashing_tx = [slashed; change] ∧ Value slashed = 100%Z ∧
    Value change = 890%Z.
Proof.
  destruct (slashing_tx_sound (C := Toy.curve) (BTL := ToyTx.btctx_laws) (TSL := ToyTx.txscript_laws)
    slashing_tx staking_tx 0 5 (10 ^ 17)%Z slashing_script Toy.P1 20 (λ _ _ _, true) (λ _, true))
    as (in0 & slashed & change & funding & si & _ & Hout & _);
    [vm_compute; reflexivity..|].
  exists slashed, change. split; [exact Hout|]. vm_compute in Hout. injection Hout as <- <-. done.
Defined.

Lemma built_slashing_tx_accepted_witness :
  CheckSlashingTxMatchFundingTx slashing_tx staking_tx 0 5 (10 ^ 17)%Z slashing_script Toy.P1 20 = Ok tt.
Proof.
  apply (built_slashing_tx_accepted (C := Toy.curve) (BTL := ToyTx.btctx_laws)
    staking_tx 0 slashing_script Toy.P1 20 10);
    [vm_compute; reflexivity|vm_compute; reflexivity|lia|unfold MaxSatoshi; lia
    |vm_compute; reflexivity|vm_compute; congruence].
Defined.

(** A witness holds three signatures, the script and the control block. *)
Lemma delegation_slashable_witness :
  (∃ w, del_BuildSlashingTxWithWitness (Some []) delegation params fp_sk =
      Ok (set_witness slashing_tx 0 w)) ∧
  (∃ w, BuildUnbondingSlashingTxWithWitness (Some []) delegation params fp_sk =
      Ok (set_witness unbonding_slashing_tx 0 w)).
Proof.
  destruct (delegation_slashable (CL := Toy.laws) (BTL := ToyTx.btctx_laws)
    (TSL := ToyTx.txscript_laws) [] delegation params fp_sk (λ _, true)) as [Hs Hu].
  - unfold sane_sizes. split_and!; vm_compute; congruence || reflexivity.
  - vm_compute. split; reflexivity.
  - vm_compute. by left.
  - split.
    + destruct (Hs del_info del_path slashing_tx staking_tx (StakingOutput staking_info))
        as (w & Hw & _); [exact del_info_eq|exact del_path_eq| | |run|by exists w].
      * unfold presigned. split_and!; [run..| | |].
        -- exists Toy.P1. split; run.
        -- vm_compute. repeat constructor; by intros ?%elem_of_nil.
        -- unfold delegation, covenant_sigs. cbn [CovenantSigs].
           apply Forall_singleton. split_and!; [by left|run..].
      * intros c sig key a _ _ _ _ h _. apply ToyTx.no_overflow.
    + destruct (Hu ud_info ud_path unbonding_slashing_tx unbonding_tx (UnbondingOutput unbonding_info))
        as (w & Hw & _); [exact ud_info_eq|exact ud_path_eq| | |run|by exists w].
      * unfold presigned. split_and!; [run..| | |].
        -- exists Toy.P1. split; run.
        -- vm_compute. repeat constructor; by intros ?%elem_of_nil.
        -- unfold delegation, covenant_sigs. cbn [BtcUndelegation CovenantSlashingSigs].
           apply Forall_singleton. split_and!; [by left|run..].
      * intros c sig key a _ _ _ _ h _. apply ToyTx.no_overflow.
Defined.
End StakingExamples.
