(* ===== verification/StakingRun.v ===== *)
(** The staking module on the small Bitcoin: a run from the empty store.

    Governance sets the parameters, a finality provider registers and changes its
    commission, a staker delegates to it and the committee signs.  The states of the
    run witness the theorems on reachable states. *)
From Stdlib Require Import Strings.Byte.
From stdpp Require Import base numbers list sorting gmap strings.
From S2P Require Import Prelude KVStore Bytes Hex Secp256k1 Eots AdaptorSig Btcd BtcUtils BtcTx BtcTxToy StakingScripts.
From S2P Require Import BtcLightClient Epoching BtcCheckpoint BtcStaking StakingTx StakingSlash StakingPop StakingMsg StakingKeeper.
From S2P Require Import StakingVersions StakingKeeperSpec StakingState StakingGenesis StakingExamples.

Module StakingRun.
Import StakingScripts StakingTx BtcStaking StakingSlash StakingPop StakingMsg StakingKeeper.
Import StakingVersions StakingKeeperSpec StakingState StakingGenesis StakingExamples.
#[local] Existing Instance Toy.curve.
#[local] Existing Instance Toy.laws.

(** An address is its characters, a hash in a message is in hexadecimal, and the
    light client is the height of its tip. *)
Definition addr_string (a : list N) : string :=
  String.string_of_list_ascii (Ascii.ascii_of_N <$> a).
#[local] Instance bech32 : Bech32 := λ s,
  if bool_decide (s = "") then None else Some (Ascii.N_of_ascii <$> String.list_ascii_of_string s).
#[local] Instance chain_hash : ChainHash := hex_DecodeString.
#[local] Instance stk_types : StkTypes := λ _, true.
#[local] Instance tap_annex : TapAnnex := λ _ _ _ _ _ _, None.
#[local] Instance poplib : PopLib := {|
  tmhash_Sum m := m;
  AccAddress_String := addr_string;
  ReadVarInt := @ReadVarInt _ _ PopToy.poplib;
  WriteVarInt := be_encode 8;
  BIP322Sig_Unmarshal _ := None;
  DecodeAddress _ := None;
  ScriptAddress _ := [];
  IsPayToWitnessPubKeyHash _ := false;
  ComputeTaprootKeyNoScript p := p;
  btcec_ParsePubKey _ := None;
  RecoverCompact _ _ := None;
  vm_Execute _ _ _ := false;
|}.
#[local] Instance light_client : BTCLightClientKeeper := {|
  LightClient := N;
  lc_GetBaseBTCHeader _ := None;
  lc_GetTipInfo h := Some (BtcLightClient.mkBTCHeaderInfo [] [] h 0);
  lc_GetHeaderByHash _ _ := None;
|}.

Definition tip (h : N) : LightClient := h.
Definition refund (_ : RefundableMsg) (n : nat) : nat := S n.
Definition gov : string := "gov".
Definition btcc : BtcCheckpoint.Params := BtcCheckpoint.mkParams 2 10 "".
Definition at_time (t : Z) : Epoching.HeaderInfo := Epoching.mkHeaderInfo 5 t [] [].

Definition pop (sk : Z) (addr : string) : ProofOfPossessionBTC :=
  mkProofOfPossessionBTC BTCSigType_BIP340 (ToyTx.sign sk (addr_bytes (default [] (bech32 addr)))).

Definition create_fp : MsgCreateFinalityProvider :=
  mkMsgCreateFinalityProvider "fp" None
    (Some (mkCommissionRates (10 ^ 16)%Z (10 ^ 17)%Z (10 ^ 16)%Z)) (Some (pk fp_sk)) (Some (pop fp_sk "fp")).
Definition edit_fp : MsgEditFinalityProvider :=
  mkMsgEditFinalityProvider "fp" (pk fp_sk) None (Some (15 * 10 ^ 15)%Z).

Definition create_del : MsgCreateBTCDelegation :=
  mkMsgCreateBTCDelegation "staker" (Some (pop staker_sk "staker")) (Some (pk staker_sk)) [pk fp_sk]
    100 1000 (ToyTx.enc_tx staking_tx) None (Some (ToyTx.enc_tx slashing_tx))
    (Some (delegator_sig slashing_tx staking_tx (GetPkScriptPath staking_path)))
    20 (ToyTx.enc_tx unbonding_tx) 990 (Some (ToyTx.enc_tx unbonding_slashing_tx))
    (Some (delegator_sig unbonding_slashing_tx unbonding_tx (GetPkScriptPath unbonding_path))).

Definition unbond_path : SpendInfo := get no_spend (sti_UnbondingPathSpendInfo staking_info).
Definition covenant_msg : MsgAddCovenantSigs :=
  mkMsgAddCovenantSigs (Some (pk cov_sk)) (hex_EncodeToString (TxHash staking_tx))
    (mjoin (AdaptorSigs <$> covenant_sigs x03 slashing_tx staking_tx (GetPkScriptPath staking_path)))
    (Some (get [] (sig ← SignTxWithOneScriptSpendInputStrict unbonding_tx staking_tx 0
                     (GetPkScriptPath unbond_path) cov_sk;
                   mret (AdaptorSig.sig_Serialize sig))))
    (mjoin (AdaptorSigs <$> covenant_sigs x02 unbonding_slashing_tx unbonding_tx (GetPkScriptPath unbonding_path)))
    None.

Definition s1 : BSState := get empty_state (UpdateParams gov empty_state btcc (mkMsgUpdateParams gov params)).
Definition s2 : BSState := get empty_state (CreateFinalityProvider s1 (at_time 0) create_fp).
Definition s3 : BSState := get empty_state (EditFinalityProvider s2 (at_time day) edit_fp).
Definition s4 : BSState := get empty_state (CreateBTCDelegation s3 (tip 10) (at_time day) btcc create_del).
Definition s5 : BSState := (get (empty_state, 0) (ms_AddCovenantSigs refund (s4, 0) (tip 11) covenant_msg)).1.


(** *** The run *)

Lemma get_pair {E T U} (d : T * U) (r : res E (T * U)) y :
  is_ok r = true → (get d r).2 = y → r = Ok ((get d r).1, y).
Proof. destruct r as [[]| |]; naive_solver. Qed.

Lemma run_reach1 : reachable refund gov s1.
Proof.
  apply rtc_once, (step_UpdateParams _ _ _ btcc (mkMsgUpdateParams gov params)); [by vm_compute|].
  apply get_ok. run.
Qed.
Lemma run_reach2 : reachable refund gov s2.
Proof.
  eapply rtc_r; [exact run_reach1|]. apply (step_CreateFinalityProvider _ _ _ (at_time 0) create_fp).
  apply get_ok. run.
Qed.
Lemma run_reach3 : reachable refund gov s3.
Proof.
  eapply rtc_r; [exact run_reach2|]. apply (step_EditFinalityProvider _ _ _ (at_time day) edit_fp).
  apply get_ok. run.
Qed.
Lemma run_reach4 : reachable refund gov s4.
Proof.
  eapply rtc_r; [exact run_reach3|].
  apply (step_CreateBTCDelegation _ _ _ (tip 10) (at_time day) btcc create_del). apply get_ok. run.
Qed.
Lemma run_reach5 : reachable refund gov s5.
Proof.
  eapply rtc_r; [exact run_reach4|].
  apply (step_AddCovenantSigs _ _ _ 0 (tip 11) covenant_msg _ 1). apply get_pair; run.
Qed.

Definition hash : bytes := TxHash staking_tx.
Definition no_del : BTCDelegation := delegation.
Definition stored (s : BSState) : BTCDelegation := default no_del (btcDelegations s !! hash).
Definition provider (s : BSState) : FinalityProvider :=
  default (mkFinalityProvider "" None None [] None 0 0 false 0 None) (finalityProviders s !! pk fp_sk).

Lemma default_Some {T} (d : T) (o : option T) : bool_decide (is_Some o) = true → o = Some (default d o).
Proof. intros [x ->]%bool_decide_eq_true. done. Qed.

Lemma stored4 : btcDelegations s4 !! hash = Some (stored s4).
Proof. apply default_Some. run. Qed.
Lemma stored5 : btcDelegations s5 !! hash = Some (stored s5).
Proof. apply default_Some. run. Qed.
Lemma provider2 : finalityProviders s2 !! pk fp_sk = Some (provider s2).
Proof. apply default_Some. run. Qed.
Lemma provider3 : finalityProviders s3 !! pk fp_sk = Some (provider s3).
Proof. apply default_Some. run. Qed.
Lemma params5 : bs_params s5 !! ParamsVersion (stored s5) = Some params.
Proof. run. Qed.

(** *** Witnesses *)

Lemma stored_delegations_wf_witness :
  ∃ p, bs_params s5 !! ParamsVersion (stored s5) = Some p ∧ delegation_wf p (stored s5) ∧
    length (CovenantSigs (stored s5)) = 1.
Proof.
  destruct (stored_delegations_wf refund gov s5 hash (stored s5) run_reach5 stored5) as (_ & (p & Hp & Hwf) & _).
  exists p. split; [exact Hp|]. split; [exact Hwf|]. run.
Defined.

Lemma delegator_index_exact_witness :
  ∃ l, getBTCDelegatorDelegationIndex s4 (pk fp_sk) (pk staker_sk) = Some l ∧ hash ∈ l.
Proof.
  apply (proj2 (delegator_index_exact refund gov s4 (pk fp_sk) (pk staker_sk) hash run_reach4)).
  exists (stored s4). split; [exact stored4|]. split; [|run].
  assert (FpBtcPkList (stored s4) = [pk fp_sk]) as -> by run. by left.
Defined.

Lemma getBTCDelWithParams_total_witness :
  ∃ info, getBTCDelWithParams s5 hash = Ok info ∧ wp_Delegation info = stored s5.
Proof. exact (getBTCDelWithParams_total refund gov s5 hash (stored s5) run_reach5 stored5). Defined.

Lemma commission_change_bounded_witness :
  ∃ rate rate', fp_Commission (provider s2) = Some rate ∧ fp_Commission (provider s3) = Some rate' ∧
    rate = (10 ^ 16)%Z ∧ rate' = (15 * 10 ^ 15)%Z.
Proof.
  destruct (commission_change_bounded refund gov s2 (at_time day) edit_fp s3 (pk fp_sk) (provider s2)
    (provider s3) run_reach2) as (rate & info & rate' & info' & Hr & _ & Hr' & _);
    [apply get_ok; run|exact provider2|exact provider3|].
  exists rate, rate'. split; [exact Hr|]. split; [exact Hr'|].
  vm_compute in Hr, Hr'. injection Hr as <-. injection Hr' as <-. done.
Defined.

Lemma reachable_slashable_witness :
  ∃ msgTx w, del_BuildSlashingTxWithWitness (Some []) (stored s5) params fp_sk =
    Ok (set_witness msgTx 0 w).
Proof.
  destruct (reachable_slashable (CL := Toy.laws) (BTL := ToyTx.btctx_laws) (TSL := ToyTx.txscript_laws)
    refund gov s5 hash (stored s5) params 0 [] fp_sk (λ _, true) run_reach5 stored5 params5)
    as [(stx & out & msgTx & w & _ & _ & _ & Hw & _) _]; [run|by vm_compute|by vm_compute|by vm_compute| | | |].
  - split; intros; intros c sig key a _ _ _ _ h _; apply ToyTx.no_overflow.
  - by vm_compute.
  - assert (FpBtcPkList (stored s5) = [pk fp_sk]) as -> by run. by left.
  - exists msgTx, w. exact Hw.
Defined.

(** The delegation as if it had been included at height 20 with timelock 100, signed
    when the tip is at 150. *)
Definition late : btcDelegationWithParams :=
  mkDelWithParams (setHeights (stored s4) 20 120) params None None.

Lemma late_quorum_activates_witness :
  GetStatus (wp_Delegation late) 150 1 0 = PENDING ∧
  events_at (get empty_state (addCovenantSigsToBTCDelegation s4 late (pk cov_sk) [] None [] None 150)) 150
    !! 0%N = Some (BtcDelStateUpdate hash ACTIVE).
Proof.
  destruct (late_quorum_activates s4 late (pk cov_sk) [] None [] None 150 0 hash) as (Hp & _ & Hs);
    [run|run|run|run|by vm_compute|by vm_compute|run|run|].
  split; [exact Hp|]. rewrite Hs. run.
Defined.

(** *** Genesis *)

Definition exportableb (s : BSState) : bool :=
  bool_decide (map_Forall (λ _ v, v ≤ max_u32)%N (btcHeights s)) &&
  bool_decide (map_Forall (λ h _, h ≤ max_u32)%N (powerDistUpdateEvents s)) &&
  bool_decide (map_Forall (λ (k : bytes * bytes) _, length k.1 = 32 ∧ length k.2 = 32) (btcDelegators s)) &&
  bool_decide (set_Forall (λ k, length k = 32) (finalityProvidersDeleted s)) &&
  bool_decide (set_Forall (λ a, a ≠ [] ∧ AccAddressFromBech32 (AccAddress_String a) = Some a) (fpAncAddr s)).

Lemma exportableb_ok s : exportableb s = true → exportable s.
Proof.
  unfold exportableb. rewrite !andb_true_iff, !bool_decide_eq_true. intros [[[[H1 H2] H3] H4] H5].
  split; [exact H1| | |exact H4|exact H5].
  - intros h i ev Hev. unfold events_at in Hev. destruct (powerDistUpdateEvents s !! h) eqn:Hh.
    + by apply (H2 _ _ Hh).
    + cbn [default] in Hev. by apply lookup_empty_Some in Hev.
  - intros fp del idx Hd. by apply (H3 _ _ Hd).
Qed.

Definition not_slashed (s : BSState) : bool :=
  bool_decide (map_Forall (λ _ fp, IsSlashed fp = false) (finalityProviders s)).

Lemma staking_genesis_roundtrip_witness :
  ∃ s', (gs ← ExportGenesis s5; InitGenesis empty_state gs) = Ok s' ∧ state_equiv s5 s'.
Proof.
  apply (staking_genesis_roundtrip refund gov s5 run_reach5); [apply exportableb_ok; run|].
  assert (not_slashed s5 = true) as Hn by run. unfold not_slashed in Hn. rewrite bool_decide_eq_true in Hn.
  intros h d fp q _ _ Hq. by apply (Hn _ _ Hq).
Defined.

(** The provider's key is published. *)
Definition slash_msg : MsgSelectiveSlashingEvidence :=
  mkMsgSelectiveSlashing "fp" (be_encode 32 5).
Definition s6 : BSState :=
  (get (empty_state, 0) (SelectiveSlashingEvidence refund (s5, 0) (tip 12) (at_time day) slash_msg)).1.
Lemma run_reach6 : reachable refund gov s6.
Proof.
  eapply rtc_r; [exact run_reach5|].
  apply (step_SelectiveSlashingEvidence _ _ _ 0 (tip 12) (at_time day) slash_msg _ 1). apply get_pair; run.
Qed.

Lemma slashed_state_not_importable_witness :
  (gs ← ExportGenesis s6; InitGenesis empty_state gs) = Err (EBs ErrFpAlreadySlashed).
Proof.
  apply (slashed_state_not_importable refund gov s6 hash (stored s6) (pk fp_sk) (provider s6) run_reach6).
  - apply exportableb_ok. run.
  - apply default_Some. run.
  - assert (FpBtcPkList (stored s6) = [pk fp_sk]) as -> by run. by left.
  - apply default_Some. run.
  - run.
Defined.

Definition pairs : list HeightVersionPair := [mkHeightVersionPair 3 0; mkHeightVersionPair 8 1].
Lemma GetVersionForHeight_last_witness :
  GetVersionForHeight pairs 7 = Ok 0%N ∧ GetVersionForHeight pairs 8 = Ok 1%N ∧
  GetVersionForHeight pairs 2 = Err ErrVersionMap.
Proof. rewrite !(GetVersionForHeight_last pairs) by reflexivity. split_and!; reflexivity. Defined.

Lemma witness_roundtrip_witness :
  (b ← SerializeWitness [[x01]; [x02; x03]]; SimpleSigToWitness b) = Ok [[x01]; [x02; x03]].
Proof.
  apply (witness_roundtrip (PLL := PopToy.poplib_laws)); [by vm_compute|].
  repeat (constructor; [by vm_compute|]). constructor.
Defined.
End StakingRun.
