(* ===== verification/Finality.v ===== *)
(** x/finality: the data, the stores and the queries on them.
    [src/anon/x/finality/types/finality.go], [types/power_table.go],
    [types/params.go], [types/signing_info.go], [types/msg.go],
    [keeper/indexed_blocks.go], [keeper/votes.go], [keeper/evidence.go],
    [keeper/public_randomness.go], [keeper/power_table.go],
    [keeper/signing_info.go], [keeper/params.go] and [keeper/keeper.go].

    Finality providers vote for blocks with extractable one-time signatures.  A
    provider first commits to the public randomness of a range of heights; a vote
    for a height reveals the randomness of that height with a proof that it was
    committed to.  A block with votes of more than two thirds of the voting power
    of its height is final. *)
From stdpp Require Import base numbers list sorting gmap strings.
From S2P Require Import Prelude KVStore Bytes Secp256k1 Eots Epoching BtcStaking.

(** [cometbft/crypto/merkle]: proofs of inclusion in a list of byte strings. *)
Class Merkle := {
  MerkleProof : Type;
  mp_Index : MerkleProof → Z;
  mp_Total : MerkleProof → Z;
  mp_WellFormed : MerkleProof → bool;            (** [ProofFromProto] succeeds *)
  mp_Verify : MerkleProof → bytes → bytes → bool; (** root, leaf *)
}.

(** The two fields are [int64]. *)
Class MerkleLaws `(M : Merkle) := {
  mp_Index_int64 : ∀ p, (- 2 ^ 63 ≤ mp_Index p < 2 ^ 63)%Z;
  mp_Total_int64 : ∀ p, (- 2 ^ 63 ≤ mp_Total p < 2 ^ 63)%Z;
}.

Module Finality.
Import BtcStaking.

(** ** Data *)

Inductive FinErr :=
  | ErrBlockNotFound | ErrVoteNotFound | ErrHeightTooHigh | ErrPubRandNotFound | ErrNoPubRandYet
  | ErrTooFewPubRand | ErrInvalidPubRand | ErrEvidenceNotFound | ErrInvalidFinalitySig
  | ErrDuplicatedFinalitySig | ErrPubRandCommitNotBTCTimestamped | ErrJailingPeriodNotPassed
  | ErrBTCStakingNotActivated | ErrFinalityNotActivated | ErrSigHeightOutdated
  | ErrOverflowInBlockHeight | ErrInvalidResumeFinality | ErrFpDeleted | ErrInvalidSats
  | ErrSigner | ErrProposal | ErrParams | ErrIndexNotIncreasing | ErrNoSigningInfo | ErrBadKey
  | ErrHook | ErrAddress | ErrBs (e : BsErr) | ErrEots (e : Eots.EotsErr).

#[global] Instance FinErr_eq_dec : EqDecision FinErr.
Proof. solve_decision. Defined.

Record IndexedBlock := mkIndexedBlock {
  ib_Height : N;
  ib_AppHash : bytes;
  ib_Finalized : bool;
}.

Record PubRandCommit := mkPubRandCommit {
  pr_StartHeight : N;
  pr_NumPubRand : N;
  pr_Commitment : bytes;
  pr_EpochNum : N;
}.

#[global] Instance PubRandCommit_eq_dec : EqDecision PubRandCommit.
Proof. solve_decision. Defined.

Definition EndHeight (c : PubRandCommit) : N :=
  u64_sub (u64_add (pr_StartHeight c) (pr_NumPubRand c)) 1.
Definition IsInRange (c : PubRandCommit) (height : N) : bool :=
  (pr_StartHeight c <=? height)%N && (height <=? EndHeight c)%N.

Record Evidence := mkEvidence {
  ev_FpBtcPk : bytes;
  ev_BlockHeight : N;
  ev_PubRand : bytes;
  ev_CanonicalAppHash : bytes;
  ev_ForkAppHash : bytes;
  ev_CanonicalFinalitySig : option bytes;
  ev_ForkFinalitySig : bytes;
}.

Record SigningInfo := mkSigningInfo {
  sg_StartHeight : Z;
  sg_MissedBlocksCounter : Z;
  sg_JailedUntil : Z;   (** nanoseconds since the epoch *)
}.

Record FinalityProviderDistInfo := mkDistInfo {
  di_BtcPk : bytes;
  di_Addr : list N;
  di_Commission : option Dec;
  TotalBondedSat : N;
  IsTimestamped : bool;
  di_IsJailed : bool;
  di_IsSlashed : bool;
}.

Record VotingPowerDistCache := mkDistCache {
  TotalVotingPower : N;
  FinalityProviders : list FinalityProviderDistInfo;
  NumActiveFps : N;
}.

Definition NewVotingPowerDistCache : VotingPowerDistCache := mkDistCache 0 [] 0.

(** ** Parameters *)

Record Params := mkParams {
  MaxActiveFinalityProviders : N;
  SignedBlocksWindow : Z;
  FinalitySigTimeout : Z;
  MinSignedPerWindow : Dec;
  MinPubRand : N;
  JailDuration : Z;
  FinalityActivationHeight : N;
}.

Definition Params_Validate (p : Params) : bool :=
  negb (MaxActiveFinalityProviders p =? 0)%N &&
  negb (SignedBlocksWindow p <=? 0)%Z &&
  negb (FinalitySigTimeout p <=? 0)%Z &&
  negb (MinSignedPerWindow p <? 0)%Z && negb (LegacyOneDec <? MinSignedPerWindow p)%Z &&
  negb (MinPubRand p =? 0)%N.

(** [LegacyDec.RoundInt64]: to the nearest integer, halves to the even one. *)
Definition RoundInt64 (d : Dec) : Z :=
  let q := (d / LegacyOneDec)%Z in
  let r := (d mod LegacyOneDec)%Z in
  if (2 * r <? LegacyOneDec)%Z then q
  else if (LegacyOneDec <? 2 * r)%Z then (q + 1)%Z
  else if Z.even q then q else (q + 1)%Z.

Definition MinSignedPerWindowInt (p : Params) : Z :=
  RoundInt64 (MinSignedPerWindow p * SignedBlocksWindow p)%Z.

(** ** State

    The stores by key prefix.  A chunk of the bitmap of missed blocks is the set
    of its bits. *)
Record FinState := mkFinState {
  blocks : gmap N IndexedBlock;
  votes : gmap N (gmap bytes bytes);
  pubRands : gmap bytes (gmap N bytes);
  pubRandCommits : gmap bytes (gmap N PubRandCommit);
  f_params : option Params;
  evidences : gmap bytes (gmap N Evidence);
  nextHeightToFinalize : option N;
  signingTracker : gmap bytes SigningInfo;
  missedBlockBitmap : gmap bytes (gmap N (gset N));
  votingPower : gmap N (gmap bytes N);
  votingPowerDistCache : gmap N VotingPowerDistCache;
  nextHeightToReward : option N;
  pubRandCommitIndex : gmap bytes (list N);
}.

Definition set_blocks (s : FinState) x : FinState :=
  mkFinState x (votes s) (pubRands s) (pubRandCommits s) (f_params s) (evidences s)
    (nextHeightToFinalize s) (signingTracker s) (missedBlockBitmap s) (votingPower s)
    (votingPowerDistCache s) (nextHeightToReward s) (pubRandCommitIndex s).
Definition set_votes (s : FinState) x : FinState :=
  mkFinState (blocks s) x (pubRands s) (pubRandCommits s) (f_params s) (evidences s)
    (nextHeightToFinalize s) (signingTracker s) (missedBlockBitmap s) (votingPower s)
    (votingPowerDistCache s) (nextHeightToReward s) (pubRandCommitIndex s).
Definition set_pubRands (s : FinState) x : FinState :=
  mkFinState (blocks s) (votes s) x (pubRandCommits s) (f_params s) (evidences s)
    (nextHeightToFinalize s) (signingTracker s) (missedBlockBitmap s) (votingPower s)
    (votingPowerDistCache s) (nextHeightToReward s) (pubRandCommitIndex s).
Definition set_commits (s : FinState) x idx : FinState :=
  mkFinState (blocks s) (votes s) (pubRands s) x (f_params s) (evidences s)
    (nextHeightToFinalize s) (signingTracker s) (missedBlockBitmap s) (votingPower s)
    (votingPowerDistCache s) (nextHeightToReward s) idx.
Definition set_params (s : FinState) x : FinState :=
  mkFinState (blocks s) (votes s) (pubRands s) (pubRandCommits s) x (evidences s)
    (nextHeightToFinalize s) (signingTracker s) (missedBlockBitmap s) (votingPower s)
    (votingPowerDistCache s) (nextHeightToReward s) (pubRandCommitIndex s).
Definition set_evidences (s : FinState) x : FinState :=
  mkFinState (blocks s) (votes s) (pubRands s) (pubRandCommits s) (f_params s) x
    (nextHeightToFinalize s) (signingTracker s) (missedBlockBitmap s) (votingPower s)
    (votingPowerDistCache s) (nextHeightToReward s) (pubRandCommitIndex s).
Definition set_next (s : FinState) x : FinState :=
  mkFinState (blocks s) (votes s) (pubRands s) (pubRandCommits s) (f_params s) (evidences s)
    x (signingTracker s) (missedBlockBitmap s) (votingPower s)
    (votingPowerDistCache s) (nextHeightToReward s) (pubRandCommitIndex s).
Definition set_tracker (s : FinState) x : FinState :=
  mkFinState (blocks s) (votes s) (pubRands s) (pubRandCommits s) (f_params s) (evidences s)
    (nextHeightToFinalize s) x (missedBlockBitmap s) (votingPower s)
    (votingPowerDistCache s) (nextHeightToReward s) (pubRandCommitIndex s).
Definition set_bitmap (s : FinState) x : FinState :=
  mkFinState (blocks s) (votes s) (pubRands s) (pubRandCommits s) (f_params s) (evidences s)
    (nextHeightToFinalize s) (signingTracker s) x (votingPower s)
    (votingPowerDistCache s) (nextHeightToReward s) (pubRandCommitIndex s).
Definition set_power (s : FinState) x : FinState :=
  mkFinState (blocks s) (votes s) (pubRands s) (pubRandCommits s) (f_params s) (evidences s)
    (nextHeightToFinalize s) (signingTracker s) (missedBlockBitmap s) x
    (votingPowerDistCache s) (nextHeightToReward s) (pubRandCommitIndex s).
Definition set_cache (s : FinState) x : FinState :=
  mkFinState (blocks s) (votes s) (pubRands s) (pubRandCommits s) (f_params s) (evidences s)
    (nextHeightToFinalize s) (signingTracker s) (missedBlockBitmap s) (votingPower s)
    x (nextHeightToReward s) (pubRandCommitIndex s).
Definition set_reward (s : FinState) x : FinState :=
  mkFinState (blocks s) (votes s) (pubRands s) (pubRandCommits s) (f_params s) (evidences s)
    (nextHeightToFinalize s) (signingTracker s) (missedBlockBitmap s) (votingPower s)
    (votingPowerDistCache s) x (pubRandCommitIndex s).

Implicit Types (s : FinState) (ctx : Epoching.HeaderInfo).

Definition zero_params : Params := mkParams 0 0 0 0%Z 0 0 0.
Definition GetParams s : Params := default zero_params (f_params s).
Definition SetParams s (p : Params) : res FinErr FinState :=
  require (Params_Validate p) ErrParams;; mret (set_params s (Some p)).

(** ** Blocks: [keeper/indexed_blocks.go] *)

Definition SetBlock s (block : IndexedBlock) : FinState :=
  set_blocks s (<[ib_Height block := block]> (blocks s)).
Definition HasBlock s (height : N) : bool := bool_decide (is_Some (blocks s !! height)).
Definition GetBlock s (height : N) : res FinErr IndexedBlock :=
  of_option ErrBlockNotFound (blocks s !! height).
Definition IndexBlock s ctx : FinState :=
  SetBlock s (mkIndexedBlock (ctx_height ctx) (Epoching.hi_AppHash ctx) false).

Definition setNextHeightToFinalize s (height : N) : FinState := set_next s (Some height).
Definition getNextHeightToFinalize s : N := default 0%N (nextHeightToFinalize s).
Definition SetNextHeightToReward s (height : N) : FinState := set_reward s (Some height).
Definition GetNextHeightToReward s : N := default 0%N (nextHeightToReward s).

(** ** Votes: [keeper/votes.go] *)

Definition votes_at s (height : N) : gmap bytes bytes := default ∅ (votes s !! height).

Definition SetSig s (height : N) (fpBtcPK sig : bytes) : FinState :=
  set_votes s (<[height := <[fpBtcPK := sig]> (votes_at s height)]> (votes s)).
Definition HasSig s (height : N) (fpBtcPK : bytes) : bool :=
  bool_decide (is_Some (votes_at s height !! fpBtcPK)).
Definition GetSig s ctx (height : N) (fpBtcPK : bytes) : res FinErr bytes :=
  if (ctx_height ctx <? height)%N then Err ErrHeightTooHigh
  else of_option ErrVoteNotFound (votes_at s height !! fpBtcPK).
Definition GetVoters s (height : N) : gset bytes := dom (votes_at s height).

(** ** Evidence: [keeper/evidence.go] *)

Definition evidences_of s (fpBtcPK : bytes) : gmap N Evidence := default ∅ (evidences s !! fpBtcPK).

Definition SetEvidence s (evidence : Evidence) : FinState :=
  set_evidences s (<[ev_FpBtcPk evidence :=
    <[ev_BlockHeight evidence := evidence]> (evidences_of s (ev_FpBtcPk evidence))]> (evidences s)).
Definition HasEvidence s (fpBtcPK : bytes) (height : N) : bool :=
  bool_decide (is_Some (evidences_of s fpBtcPK !! height)).
Definition GetEvidence s ctx (fpBtcPK : bytes) (height : N) : res FinErr Evidence :=
  if (ctx_height ctx <? height)%N then Err ErrHeightTooHigh
  else of_option ErrEvidenceNotFound (evidences_of s fpBtcPK !! height).

(** ** Voting power: [keeper/power_table.go] *)

Definition power_at s (height : N) : gmap bytes N := default ∅ (votingPower s !! height).

Definition SetVotingPower s (fpBTCPK : bytes) (height power : N) : FinState :=
  set_power s (<[height := <[fpBTCPK := power]> (power_at s height)]> (votingPower s)).
Definition GetVotingPower s (fpBTCPK : bytes) (height : N) : N :=
  default 0%N (power_at s height !! fpBTCPK).
Definition HasVotingPowerTable s (height : N) : bool := bool_decide (power_at s height ≠ ∅).
(** The result is nil when there is no entry. *)
Definition GetVotingPowerTable s (height : N) : option (gmap bytes N) :=
  if HasVotingPowerTable s height then Some (power_at s height) else None.
(** The entries in the order of the keys. *)
Definition GetVotingPowerTableOrdered s (height : N) : list (bytes * N) :=
  bkv_asc (power_at s height).
(** The first height at which some finality provider has an entry. *)
Definition GetBTCStakingActivatedHeight s : res FinErr N :=
  match filter (λ x, x.2 ≠ ∅) (kv_asc (votingPower s)) with
  | [] => Err ErrBTCStakingNotActivated
  | (h, _) :: _ => Ok h
  end.
Definition IsBTCStakingActivated s : bool := is_ok (GetBTCStakingActivatedHeight s).

Definition IsFinalityActive s ctx : bool :=
  if (ctx_height ctx <? FinalityActivationHeight (GetParams s))%N then false
  else is_ok (GetBTCStakingActivatedHeight s).

Definition SetVotingPowerDistCache s (height : N) (dc : VotingPowerDistCache) : FinState :=
  set_cache s (<[height := dc]> (votingPowerDistCache s)).
(** A cache without providers and power is stored as no bytes, and is read back as nil. *)
Definition cache_bytes_empty (dc : VotingPowerDistCache) : bool :=
  match FinalityProviders dc with
  | [] => (TotalVotingPower dc =? 0)%N && (NumActiveFps dc =? 0)%N
  | _ :: _ => false
  end.
Definition GetVotingPowerDistCache s (height : N) : option VotingPowerDistCache :=
  dc ← votingPowerDistCache s !! height;
  if cache_bytes_empty dc then None else Some dc.
Definition RemoveVotingPowerDistCache s (height : N) : FinState :=
  set_cache s (delete height (votingPowerDistCache s)).

(** ** Public randomness: [keeper/public_randomness.go] *)

(** What x/finality reads of x/checkpointing: the epoch of a height, the current
    epoch and the last one finalised in Bitcoin. *)
Record EpochView := mkEpochView {
  GetEpochByHeight : N → N;
  GetCurrentEpoch : N;
  GetLastFinalizedEpoch : N;
}.

Definition commits_of s (fpBtcPK : bytes) : gmap N PubRandCommit :=
  default ∅ (pubRandCommits s !! fpBtcPK).

Definition GetPubRandCommitForHeight s (fpBtcPK : bytes) (height : N) : res FinErr PubRandCommit :=
  heights ← of_option ErrPubRandNotFound (pubRandCommitIndex s !! fpBtcPK);
  let heightsCount := length heights in
  if heightsCount =? 0 then Err ErrPubRandNotFound
  else
    let i := sort_Search heightsCount
      (λ i, match heights !! i with Some h => (height <? h)%N | None => false end) in
    match i with
    | O => Err ErrPubRandNotFound
    | S i =>
        match heights !! i with
        | None => Panic
        | Some startHeight =>
            prCommit ← of_option ErrPubRandNotFound (commits_of s fpBtcPK !! startHeight);
            if negb (IsInRange prCommit height) then Err ErrPubRandNotFound else mret prCommit
        end
    end.

Definition GetTimestampedPubRandCommitForHeight s (ev : EpochView) (fpBtcPK : bytes) (height : N)
  : res FinErr PubRandCommit :=
  prCommit ← GetPubRandCommitForHeight s fpBtcPK height;
  let finalizedEpoch := GetLastFinalizedEpoch ev in
  if (finalizedEpoch =? 0)%N then Err ErrPubRandCommitNotBTCTimestamped
  else if (finalizedEpoch <? pr_EpochNum prCommit)%N then Err ErrPubRandCommitNotBTCTimestamped
  else mret prCommit.

Definition HasTimestampedPubRand s ev (fpBtcPK : bytes) (height : N) : bool :=
  is_ok (GetTimestampedPubRandCommitForHeight s ev fpBtcPK height).

(** The index after [upsertPubRandCommitIdx]. *)
Definition upsertPubRandCommitIdx s (fpBtcPK : bytes) (startHeight : N)
  : res FinErr (gmap bytes (list N)) :=
  let heights := default [] (pubRandCommitIndex s !! fpBtcPK) in
  match last heights with
  | Some l => require (negb (startHeight <=? l)%N) ErrIndexNotIncreasing
  | None => Ok tt
  end;;
  mret (<[fpBtcPK := heights ++ [startHeight]]> (pubRandCommitIndex s)).

Definition SetPubRandCommit s (fpBtcPK : bytes) (prCommit : PubRandCommit) : res FinErr FinState :=
  idx ← upsertPubRandCommitIdx s fpBtcPK (pr_StartHeight prCommit);
  mret (set_commits s
    (<[fpBtcPK := <[pr_StartHeight prCommit := prCommit]> (commits_of s fpBtcPK)]>
       (pubRandCommits s)) idx).

Definition GetLastPubRandCommit s (fpBtcPK : bytes) : option PubRandCommit :=
  match kv_desc (commits_of s fpBtcPK) with [] => None | (_, c) :: _ => Some c end.

Definition SetPubRand s (fpBtcPK : bytes) (height : N) (pubRand : bytes) : FinState :=
  set_pubRands s (<[fpBtcPK := <[height := pubRand]> (default ∅ (pubRands s !! fpBtcPK))]>
    (pubRands s)).

(** ** Missed blocks: [keeper/signing_info.go] *)

Definition MissedBlockBitmapChunkSize : Z := 1024.

Definition chunks_of s (fpPk : bytes) : gmap N (gset N) := default ∅ (missedBlockBitmap s !! fpPk).
Definition chunk_index (index : Z) : N := u64_of_Z (Z.quot index MissedBlockBitmapChunkSize).
Definition bit_index (index : Z) : N := u64_of_Z (Z.rem index MissedBlockBitmapChunkSize).

Definition GetMissedBlockBitmapValue s (fpPk : bytes) (index : Z) : bool :=
  bool_decide (bit_index index ∈ (default ∅ (chunks_of s fpPk !! chunk_index index) : gset N)).

Definition SetMissedBlockBitmapValue s (fpPk : bytes) (index : Z) (missed : bool) : FinState :=
  let chunk : gset N := default ∅ (chunks_of s fpPk !! chunk_index index) in
  let chunk := if missed then {[bit_index index]} ∪ chunk else chunk ∖ {[bit_index index]} in
  set_bitmap s (<[fpPk := <[chunk_index index := chunk]> (chunks_of s fpPk)]> (missedBlockBitmap s)).

Definition DeleteMissedBlockBitmap s (fpPk : bytes) : FinState :=
  set_bitmap s (delete fpPk (missedBlockBitmap s)).

(** ** Evidence and messages: [types/finality.go], [types/msg.go] *)

Definition BIP340PubKeyLen : nat := 32.
Definition SchnorrPubRandLen : nat := 32.
Definition SchnorrEOTSSigLen : nat := 32.

Definition msgToSignForVote (blockHeight : N) (blockHash : bytes) : bytes :=
  Uint64ToBigEndian blockHeight ++ blockHash.

Section evidence.
Context `{C : Curve}.

Definition Evidence_ValidateBasic (e : Evidence) : bool :=
  bool_decide (is_Some (ParsePubKey (ev_FpBtcPk e))) &&
  (length (ev_CanonicalAppHash e) =? 32) && (length (ev_ForkAppHash e) =? 32) &&
  (length (ev_ForkFinalitySig e) =? SchnorrEOTSSigLen).

Definition IsSlashable (e : Evidence) : bool :=
  Evidence_ValidateBasic e && bool_decide (is_Some (ev_CanonicalFinalitySig e)).

(** [SchnorrEOTSSig.ToModNScalar] and [SchnorrPubRand.ToFieldValNormalized]. *)
Definition ToModNScalar (sig : bytes) : Z := (SetBytes sig).1.
Definition ToFieldValNormalized (pr : bytes) : N := field_of_bytes pr.

Definition ExtractBTCSK (e : Evidence) : res FinErr Z :=
  require (IsSlashable e) ErrInvalidFinalitySig;;
  btcPK ← of_option ErrBadKey (ParsePubKey (ev_FpBtcPk e));
  map_err ErrEots
    (Eots.Extract btcPK (ToFieldValNormalized (ev_PubRand e))
       (msgToSignForVote (ev_BlockHeight e) (ev_CanonicalAppHash e))
       (ToModNScalar (default [] (ev_CanonicalFinalitySig e)))
       (msgToSignForVote (ev_BlockHeight e) (ev_ForkAppHash e))
       (ToModNScalar (ev_ForkFinalitySig e))).1.

(** [MsgAddFinalitySig] with its pointers; [Signer] as bytes when it decodes. *)
Context `{M : Merkle}.

Record MsgAddFinalitySig := mkMsgAddFinalitySig {
  fs_Signer : option (list N);
  fs_FpBtcPk : option bytes;
  fs_BlockHeight : N;
  fs_PubRand : option bytes;
  fs_Proof : option MerkleProof;
  fs_BlockAppHash : bytes;
  fs_FinalitySig : option bytes;
}.

(** A message that passed [ValidateBasic], its pointers dereferenced. *)
Record ValidFinalitySig := mkValidFinalitySig {
  v_FpBtcPk : bytes;
  v_BlockHeight : N;
  v_PubRand : bytes;
  v_Proof : MerkleProof;
  v_BlockAppHash : bytes;
  v_FinalitySig : bytes;
}.

Definition MsgAddFinalitySig_ValidateBasic (m : MsgAddFinalitySig) : res FinErr ValidFinalitySig :=
  _ ← of_option ErrAddress (fs_Signer m);
  pk ← of_option ErrInvalidFinalitySig (fs_FpBtcPk m);
  require (length pk =? BIP340PubKeyLen) ErrInvalidFinalitySig;;
  pr ← of_option ErrInvalidFinalitySig (fs_PubRand m);
  require (length pr =? SchnorrPubRandLen) ErrInvalidFinalitySig;;
  proof ← of_option ErrInvalidFinalitySig (fs_Proof m);
  sig ← of_option ErrInvalidFinalitySig (fs_FinalitySig m);
  require (length sig =? SchnorrEOTSSigLen) ErrInvalidFinalitySig;;
  require (length (fs_BlockAppHash m) =? 32) ErrInvalidFinalitySig;;
  mret (mkValidFinalitySig pk (fs_BlockHeight m) pr proof (fs_BlockAppHash m) sig).

Definition VerifyFinalitySig (m : ValidFinalitySig) (prCommit : PubRandCommit) : res FinErr unit :=
  let heightOfProof := u64_add (pr_StartHeight prCommit) (u64_of_Z (mp_Index (v_Proof m))) in
  require (v_BlockHeight m =? heightOfProof)%N ErrInvalidFinalitySig;;
  require (u64_of_Z (mp_Total (v_Proof m)) =? pr_NumPubRand prCommit)%N ErrInvalidFinalitySig;;
  require (mp_WellFormed (v_Proof m)) ErrInvalidFinalitySig;;
  require (mp_Verify (v_Proof m) (pr_Commitment prCommit) (v_PubRand m)) ErrInvalidFinalitySig;;
  pk ← of_option ErrBadKey (ParsePubKey (v_FpBtcPk m));
  map_err ErrEots
    (Eots.Verify pk (ToFieldValNormalized (v_PubRand m))
       (msgToSignForVote (v_BlockHeight m) (v_BlockAppHash m)) (ToModNScalar (v_FinalitySig m))).
End evidence.
End Finality.
