(* ===== verification/FinalityPower.v ===== *)
(** x/finality: the voting power distribution.
    [src/anon/x/finality/types/power_table.go], [types/finality.go] (processing
    state), [types/hooks.go] and [keeper/power_dist_change.go].

    At the beginning of a block the keeper reads the events that x/btcstaking
    recorded since the last block, computes how much bitcoin each finality
    provider now has behind it, ranks the providers, gives voting power to the
    first ones and tells the reward modules what changed. *)
From stdpp Require Import base numbers list sorting gmap strings.
From S2P Require Import Prelude KVStore Bytes Epoching BtcStaking Finality.

Module FinalityPower.
Import BtcStaking Finality.

(** ** Ranking: [types/power_table.go] *)

Definition zeroed (fp : FinalityProviderDistInfo) : bool :=
  di_IsJailed fp || negb (IsTimestamped fp) || di_IsSlashed fp.

(** The comparison of [SortFinalityProvidersWithZeroedVotingPower]; hexadecimal
    strings compare as the bytes they encode. *)
Definition fp_less (a b : FinalityProviderDistInfo) : bool :=
  if zeroed a && negb (zeroed b) then false
  else if negb (zeroed a) && zeroed b then true
  else if zeroed a && zeroed b then bool_decide (bytes_lt (di_BtcPk a) (di_BtcPk b))
  else if (TotalBondedSat a =? TotalBondedSat b)%N
       then bool_decide (bytes_lt (di_BtcPk a) (di_BtcPk b))
  else (TotalBondedSat b <? TotalBondedSat a)%N.

(** Not after, in the order of the sort. *)
Definition fp_le (a b : FinalityProviderDistInfo) : Prop := fp_less b a = false.
#[global] Instance fp_le_dec a b : Decision (fp_le a b).
Proof. unfold fp_le. apply _. Defined.

Definition SortFinalityProvidersWithZeroedVotingPower (fps : list FinalityProviderDistInfo)
  : list FinalityProviderDistInfo := merge_sort fp_le fps.

(** The loop of [ApplyActiveFinalityProviders]: how many providers are active and
    their power. *)
Fixpoint count_active (maxActiveFPs : N) (fps : list FinalityProviderDistInfo)
    (numActiveFPs totalVotingPower : N) : N * N :=
  match fps with
  | [] => (numActiveFPs, totalVotingPower)
  | fp :: fps =>
      if (numActiveFPs =? maxActiveFPs)%N then (numActiveFPs, totalVotingPower)
      else if (TotalBondedSat fp =? 0)%N then (numActiveFPs, totalVotingPower)
      else if negb (IsTimestamped fp) then (numActiveFPs, totalVotingPower)
      else if di_IsJailed fp then (numActiveFPs, totalVotingPower)
      else if di_IsSlashed fp then (numActiveFPs, totalVotingPower)
      else count_active maxActiveFPs fps (u32_add numActiveFPs 1)
             (u64_add totalVotingPower (TotalBondedSat fp))
  end.

Definition ApplyActiveFinalityProviders (dc : VotingPowerDistCache) (maxActiveFPs : N)
  : VotingPowerDistCache :=
  let fps := SortFinalityProvidersWithZeroedVotingPower (FinalityProviders dc) in
  let '(numActiveFPs, totalVotingPower) := count_active maxActiveFPs fps 0 0 in
  mkDistCache totalVotingPower fps numActiveFPs.

(** [fps[:n]]. *)
Definition slice_n {E A} (n : N) (l : list A) : res E (list A) :=
  if (n <=? N.of_nat (length l))%N then Ok (take (N.to_nat n) l) else Panic.

(** A map filled in the order of the slice: later entries overwrite. *)
Definition by_pk (fps : list FinalityProviderDistInfo) : gmap bytes FinalityProviderDistInfo :=
  foldl (λ m fp, <[di_BtcPk fp := fp]> m) ∅ fps.

Definition GetActiveFinalityProviderSet {E} (dc : VotingPowerDistCache)
  : res E (gmap bytes FinalityProviderDistInfo) :=
  by_pk <$> slice_n (NumActiveFps dc) (FinalityProviders dc).

Definition GetInactiveFinalityProviderSet (dc : VotingPowerDistCache)
  : gmap bytes FinalityProviderDistInfo :=
  if (N.of_nat (length (FinalityProviders dc)) <=? NumActiveFps dc)%N then ∅
  else by_pk (drop (N.to_nat (NumActiveFps dc)) (FinalityProviders dc)).

Definition ActiveFpsByBtcPk {E} (dc : VotingPowerDistCache) : res E (gset bytes) :=
  (λ fps, list_to_set (di_BtcPk <$> fps)) <$> slice_n (NumActiveFps dc) (FinalityProviders dc).

(** The entries of a map sorted by key. *)
Definition sorted_values (m : gmap bytes FinalityProviderDistInfo) : list FinalityProviderDistInfo :=
  (bkv_asc m).*2.

Definition FindNewActiveFinalityProviders {E} (dc prevDc : VotingPowerDistCache)
  : res E (list FinalityProviderDistInfo) :=
  activeFps ← GetActiveFinalityProviderSet dc;
  prevActiveFps ← GetActiveFinalityProviderSet prevDc;
  mret (sorted_values (filter (λ kv, prevActiveFps !! kv.1 = None) activeFps)).

Definition FindNewInactiveFinalityProviders {E} (dc prevDc : VotingPowerDistCache)
  : res E (list FinalityProviderDistInfo) :=
  let inactiveFps := GetInactiveFinalityProviderSet dc in
  let prevInactiveFps := GetInactiveFinalityProviderSet prevDc in
  let currFps : gset bytes := list_to_set (di_BtcPk <$> FinalityProviders dc) in
  prevActiveFps ← GetActiveFinalityProviderSet prevDc;
  mret (sorted_values
    (filter (λ kv, prevInactiveFps !! kv.1 = None) inactiveFps ∪
     filter (λ kv, kv.1 ∉ currFps) prevActiveFps)).

(** ** Satoshis *)

Definition setTotalBondedSat (v : FinalityProviderDistInfo) (sats : N) : FinalityProviderDistInfo :=
  mkDistInfo (di_BtcPk v) (di_Addr v) (di_Commission v) sats (IsTimestamped v) (di_IsJailed v)
    (di_IsSlashed v).
Definition setIsTimestamped (v : FinalityProviderDistInfo) (b : bool) : FinalityProviderDistInfo :=
  mkDistInfo (di_BtcPk v) (di_Addr v) (di_Commission v) (TotalBondedSat v) b (di_IsJailed v)
    (di_IsSlashed v).
Definition setIsJailed (v : FinalityProviderDistInfo) (b : bool) : FinalityProviderDistInfo :=
  mkDistInfo (di_BtcPk v) (di_Addr v) (di_Commission v) (TotalBondedSat v) (IsTimestamped v) b
    (di_IsSlashed v).

Definition AddBondedSats (v : FinalityProviderDistInfo) (sats : N) : FinalityProviderDistInfo :=
  setTotalBondedSat v (u64_add (TotalBondedSat v) sats).

Definition RemoveBondedSats (v : FinalityProviderDistInfo) (sats : N)
  : res FinErr FinalityProviderDistInfo :=
  if (TotalBondedSat v <? sats)%N then Err ErrInvalidSats
  else Ok (setTotalBondedSat v (TotalBondedSat v - sats)).

Definition abs (val : Z) : Z := if (val <? 0)%Z then int64 (- val) else val.

Definition ChangeDeltaSats (v : FinalityProviderDistInfo) (fpDeltaSats : Z)
  : res FinErr FinalityProviderDistInfo :=
  if (0 <? fpDeltaSats)%Z then Ok (AddBondedSats v (u64_of_Z fpDeltaSats))
  else if (fpDeltaSats <? 0)%Z then RemoveBondedSats v (u64_of_Z (abs fpDeltaSats))
  else Ok v.

(** ** Processing state: [types/finality.go] *)

Inductive FinalityProviderState := SLASHED | JAILED | UNJAILED.
#[global] Instance FinalityProviderState_eq_dec : EqDecision FinalityProviderState.
Proof. solve_decision. Defined.

Record DelegationInfo := mkDelegationInfo {
  Delegator : list N;
  dl_FpBtcPk : bytes;
  dl_TotalSat : N;
}.

Record ProcessingState := mkProcessingState {
  PrevActiveFpByBtcPk : gset bytes;
  FPStatesByBtcPk : gmap bytes FinalityProviderState;
  FpByBtcPk : gmap bytes FinalityProvider;
  DeltaSatsByFpBtcPk : gmap bytes Z;
  ExpiredEvents : list bytes;
  SlashedEvents : list bytes;
  ActiveDelegations : list DelegationInfo;
  UnbondingDelegations : list DelegationInfo;
}.

Definition NewProcessingState : ProcessingState := mkProcessingState ∅ ∅ ∅ ∅ [] [] [] [].

Definition setPrevActive (ps : ProcessingState) x : ProcessingState :=
  mkProcessingState x (FPStatesByBtcPk ps) (FpByBtcPk ps) (DeltaSatsByFpBtcPk ps)
    (ExpiredEvents ps) (SlashedEvents ps) (ActiveDelegations ps) (UnbondingDelegations ps).
Definition setFPState (ps : ProcessingState) (pk : bytes) (st : FinalityProviderState) : ProcessingState :=
  mkProcessingState (PrevActiveFpByBtcPk ps) (<[pk := st]> (FPStatesByBtcPk ps)) (FpByBtcPk ps)
    (DeltaSatsByFpBtcPk ps) (ExpiredEvents ps) (SlashedEvents ps) (ActiveDelegations ps)
    (UnbondingDelegations ps).
Definition setFpCache (ps : ProcessingState) x : ProcessingState :=
  mkProcessingState (PrevActiveFpByBtcPk ps) (FPStatesByBtcPk ps) x (DeltaSatsByFpBtcPk ps)
    (ExpiredEvents ps) (SlashedEvents ps) (ActiveDelegations ps) (UnbondingDelegations ps).
Definition setDeltas (ps : ProcessingState) x : ProcessingState :=
  mkProcessingState (PrevActiveFpByBtcPk ps) (FPStatesByBtcPk ps) (FpByBtcPk ps) x
    (ExpiredEvents ps) (SlashedEvents ps) (ActiveDelegations ps) (UnbondingDelegations ps).
Definition deferExpired (ps : ProcessingState) (txHash : bytes) : ProcessingState :=
  mkProcessingState (PrevActiveFpByBtcPk ps) (FPStatesByBtcPk ps) (FpByBtcPk ps)
    (DeltaSatsByFpBtcPk ps) (ExpiredEvents ps ++ [txHash]) (SlashedEvents ps)
    (ActiveDelegations ps) (UnbondingDelegations ps).
Definition deferSlashed (ps : ProcessingState) (pk : bytes) : ProcessingState :=
  mkProcessingState (PrevActiveFpByBtcPk ps) (FPStatesByBtcPk ps) (FpByBtcPk ps)
    (DeltaSatsByFpBtcPk ps) (ExpiredEvents ps) (SlashedEvents ps ++ [pk])
    (ActiveDelegations ps) (UnbondingDelegations ps).
Definition addDelegations (ps : ProcessingState) (a u : list DelegationInfo) : ProcessingState :=
  mkProcessingState (PrevActiveFpByBtcPk ps) (FPStatesByBtcPk ps) (FpByBtcPk ps)
    (DeltaSatsByFpBtcPk ps) (ExpiredEvents ps) (SlashedEvents ps)
    (ActiveDelegations ps ++ a) (UnbondingDelegations ps ++ u).

Definition delta_of (ps : ProcessingState) (pk : bytes) : Z :=
  default 0%Z (DeltaSatsByFpBtcPk ps !! pk).

Definition AddStateForFp (ps : ProcessingState) (fp : FinalityProviderDistInfo) : ProcessingState :=
  let ps := if di_IsSlashed fp then setFPState ps (di_BtcPk fp) SLASHED else ps in
  if di_IsJailed fp then setFPState ps (di_BtcPk fp) JAILED else ps.

Definition FillByPrevVpDstCache (ps : ProcessingState) (dc : VotingPowerDistCache) : ProcessingState :=
  foldl (λ ps ifp,
    let ps := if (N.of_nat ifp.1 <? NumActiveFps dc)%N
              then setPrevActive ps ({[di_BtcPk ifp.2]} ∪ PrevActiveFpByBtcPk ps) else ps in
    AddStateForFp ps ifp.2) ps (imap pair (FinalityProviders dc)).

Definition IsFpInPrevActiveSet (ps : ProcessingState) (fpBtcPk : bytes) : bool :=
  bool_decide (fpBtcPk ∈ PrevActiveFpByBtcPk ps).

(** ** Hooks: [types/hooks.go]

    The reward modules keep their state in [Env]; a hook returns it or an error. *)
Class FinalityHooks := {
  Env : Type;
  AfterBtcDelegationUnbonded :
    Env → list N → list N → bool → bool → N → res FinErr Env;
  AfterBtcDelegationActivated :
    Env → list N → list N → bool → bool → N → res FinErr Env;
  AfterAncFpEntersActiveSet : Env → list N → res FinErr Env;
  AfterAncFpRemovedFromActiveSet : Env → list N → res FinErr Env;
}.

(** [panic(err)] on any error. *)
Definition must {E A} (r : res E A) : res E A :=
  match r with Ok a => Ok a | _ => Panic end.

Lemma must_Ok {E A} (r : res E A) a : must r = Ok a ↔ r = Ok a.
Proof. destruct r; naive_solver. Qed.

Section power.
Context {B : Bech32}.
Implicit Types (s : FinState) (bs : BSState) (ps : ProcessingState).

(** [sdk.MustAccAddressFromBech32]. *)
Definition MustAccAddress (addr : string) : res FinErr (list N) :=
  match AccAddressFromBech32 addr with Some a => Ok a | None => Panic end.

Definition NewFinalityProviderDistInfo (fp : FinalityProvider) : res FinErr FinalityProviderDistInfo :=
  addr ← MustAccAddress (fp_Addr fp);
  mret (mkDistInfo (fp_BtcPk fp) addr (fp_Commission fp) 0 false (Jailed fp) (IsSlashed fp)).

(** ** Events: [keeper/power_dist_change.go] *)

(** The bodies of the loops of [processPowerDistUpdateEventActive] and
    [processPowerDistUpdateEventUnbond]. *)
Definition processPowerDistUpdateEventActive ps (btcDel : BTCDelegation) : res FinErr ProcessingState :=
  fold_res (λ ps fpBTCPK,
    delegator ← MustAccAddress (StakerAddr btcDel);
    let ps := addDelegations ps [mkDelegationInfo delegator fpBTCPK (TotalSat btcDel)] [] in
    mret (setDeltas ps (<[fpBTCPK :=
      int64 (delta_of ps fpBTCPK + int64 (Z.of_N (TotalSat btcDel)))]> (DeltaSatsByFpBtcPk ps))))
    ps (FpBtcPkList btcDel).

Definition processPowerDistUpdateEventUnbond ps (btcDel : BTCDelegation) : res FinErr ProcessingState :=
  fold_res (λ ps fpBTCPK,
    delegator ← MustAccAddress (StakerAddr btcDel);
    let ps := addDelegations ps [] [mkDelegationInfo delegator fpBTCPK (TotalSat btcDel)] in
    mret (setDeltas ps (<[fpBTCPK :=
      int64 (delta_of ps fpBTCPK - int64 (Z.of_N (TotalSat btcDel)))]> (DeltaSatsByFpBtcPk ps))))
    ps (FpBtcPkList btcDel).

(** Whether the delegation has its covenant signatures; [delParams] is
    dereferenced, and errors panic. *)
Definition delHasQuorum bs (btcDel : BTCDelegation) : res FinErr bool :=
  match GetParamsByVersion bs (ParamsVersion btcDel) with
  | None => Panic
  | Some delParams =>
      must (map_err ErrBs (BtcDelHasCovenantQuorums bs btcDel (CovenantQuorum delParams)))
  end.

Definition processBtcDelUpdate bs ps (delStkTxHash : bytes) (newState : BTCDelegationStatus)
  : res FinErr ProcessingState :=
  btcDel ← must (map_err ErrBs (GetBTCDelegation bs delStkTxHash));
  match newState with
  | ACTIVE => processPowerDistUpdateEventActive ps btcDel
  | UNBONDED =>
      hasQuorum ← delHasQuorum bs btcDel;
      if (hasQuorum : bool) then processPowerDistUpdateEventUnbond ps btcDel else mret ps
  | _ => mret ps
  end.

Definition processFPEventImmediate ps (event : EventPowerDistUpdate) : ProcessingState :=
  match event with
  | JailedFp pk => setFPState ps pk JAILED
  | UnjailedFp pk => setFPState ps pk UNJAILED
  | _ => ps
  end.

Definition processEvent bs ps (event : EventPowerDistUpdate) : res FinErr ProcessingState :=
  match event with
  | BtcDelStateUpdate txHash EXPIRED => mret (deferExpired ps txHash)
  | BtcDelStateUpdate txHash newState => processBtcDelUpdate bs ps txHash newState
  | SlashedFp pk => mret (deferSlashed ps pk)
  | event => mret (processFPEventImmediate ps event)
  end.

Definition processEventsAtHeight bs ps (btcHeight : N) : res FinErr ProcessingState :=
  fold_res (processEvent bs) ps (PowerDistUpdateEvents bs btcHeight).

Definition processExpiredEvents bs ps : res FinErr ProcessingState :=
  fold_res (λ ps delStkTxHash,
    btcDel ← must (map_err ErrBs (GetBTCDelegation bs delStkTxHash));
    if IsUnbondedEarly btcDel then mret ps
    else
      hasQuorum ← delHasQuorum bs btcDel;
      if (hasQuorum : bool) then processPowerDistUpdateEventUnbond ps btcDel else mret ps)
    ps (ExpiredEvents ps).

Definition processSlashedEvents ps : ProcessingState :=
  foldl (λ ps pk, setFPState ps pk SLASHED) ps (SlashedEvents ps).

Definition loadFP bs (cache : gmap bytes FinalityProvider) (fpBTCPK : bytes)
  : res FinErr (FinalityProvider * gmap bytes FinalityProvider) :=
  match cache !! fpBTCPK with
  | Some fp => Ok (fp, cache)
  | None =>
      require (length fpBTCPK =? BIP340PubKeyLen) ErrBadKey;;
      fp ← map_err ErrBs (GetFinalityProvider bs fpBTCPK);
      mret (fp, <[fpBTCPK := fp]> cache)
  end.

(** The heights from [lo] to [hi]. *)
Definition heights_between (lo hi : N) : list N :=
  N.of_nat <$> seq (N.to_nat lo) (S (N.to_nat hi) - N.to_nat lo).

(** The loop over the providers of the last cache: the new cache and the deltas
    that are left. *)
Definition reconcileFp (acc : list FinalityProviderDistInfo * ProcessingState)
    (fp : FinalityProviderDistInfo) : res FinErr (list FinalityProviderDistInfo * ProcessingState) :=
  let '(newFps, ps) := acc in
  let pk := di_BtcPk fp in
  match FPStatesByBtcPk ps !! pk with
  | Some SLASHED => mret (newFps, ps)
  | st =>
      let fp := match st with
                | Some JAILED => setIsJailed fp true
                | Some UNJAILED => setIsJailed fp false
                | _ => fp
                end in
      fp ← must (ChangeDeltaSats fp (delta_of ps pk));
      let ps := setDeltas ps (delete pk (DeltaSatsByFpBtcPk ps)) in
      mret (if (0 <? TotalBondedSat fp)%N then newFps ++ [fp] else newFps, ps)
  end.

(** The loop over the providers that were not in the last cache. *)
Definition addNewFp bs (acc : list FinalityProviderDistInfo * ProcessingState) (pk : bytes)
  : res FinErr (list FinalityProviderDistInfo * ProcessingState) :=
  let '(newFps, ps) := acc in
  '(newFP, cache) ← must (loadFP bs (FpByBtcPk ps) pk);
  let ps := setFpCache ps cache in
  if IsSlashed newFP then mret (newFps, ps)
  else
    fpDistInfo ← NewFinalityProviderDistInfo newFP;
    let fpDistInfo := match FPStatesByBtcPk ps !! pk with
                      | Some JAILED => setIsJailed fpDistInfo true
                      | Some UNJAILED => setIsJailed fpDistInfo false
                      | _ => fpDistInfo
                      end in
    fpDistInfo ← must (ChangeDeltaSats fpDistInfo (delta_of ps pk));
    mret (if (0 <? TotalBondedSat fpDistInfo)%N then newFps ++ [fpDistInfo] else newFps, ps).

Definition ProcessAllPowerDistUpdateEvents bs (dc : VotingPowerDistCache) (lastBTCTip curBTCTip : N)
  : res FinErr (VotingPowerDistCache * ProcessingState) :=
  let ps := FillByPrevVpDstCache NewProcessingState dc in
  ps ← fold_res (processEventsAtHeight bs) ps (heights_between lastBTCTip curBTCTip);
  ps ← processExpiredEvents bs ps;
  let ps := processSlashedEvents ps in
  '(fps, ps) ← fold_res reconcileFp ([], ps) (FinalityProviders dc);
  let fpActiveBtcPkList :=
    filter (λ pk, FPStatesByBtcPk ps !! pk ≠ Some SLASHED) (bkv_asc (DeltaSatsByFpBtcPk ps)).*1 in
  '(fps, ps) ← fold_res (addNewFp bs) (fps, ps) fpActiveBtcPkList;
  mret (mkDistCache 0 fps 0, ps).

(** ** The voting power of the block *)

Definition RecordVotingPowerAndCache s (ev : EpochView) (height : N) (newDc : VotingPowerDistCache)
  : res FinErr (FinState * VotingPowerDistCache) :=
  let fps := (λ fp, setIsTimestamped fp (HasTimestampedPubRand s ev (di_BtcPk fp) height))
               <$> FinalityProviders newDc in
  let newDc := mkDistCache (TotalVotingPower newDc) fps (NumActiveFps newDc) in
  let newDc := ApplyActiveFinalityProviders newDc (MaxActiveFinalityProviders (GetParams s)) in
  active ← slice_n (NumActiveFps newDc) (FinalityProviders newDc);
  let s := foldl (λ s fp, SetVotingPower s (di_BtcPk fp) height (TotalBondedSat fp)) s active in
  mret (SetVotingPowerDistCache s height newDc, newDc).

Definition HandleActivatedFinalityProvider s (height : Z) (fpPk : bytes) : FinState :=
  let info := match signingTracker s !! fpPk with
              | Some si => mkSigningInfo height (sg_MissedBlocksCounter si) 0
              | None => mkSigningInfo height 0 0
              end in
  set_tracker s (<[fpPk := info]> (signingTracker s)).

Context {H : FinalityHooks}.

(** [processBtcDelHook] with one of the two hooks. *)
Definition processBtcDelHook bs (hookFn : Env → list N → list N → bool → bool → N → res FinErr Env)
    (activeFps : gset bytes) (fpDels : list DelegationInfo) (acc : ProcessingState * Env)
  : res FinErr (ProcessingState * Env) :=
  fold_res (λ acc del,
    let '(ps, env) := acc in
    '(fp, cache) ← loadFP bs (FpByBtcPk ps) (dl_FpBtcPk del);
    let ps := setFpCache ps cache in
    fpAddr ← MustAccAddress (fp_Addr fp);
    env ← hookFn env fpAddr (Delegator del) (IsFpInPrevActiveSet ps (fp_BtcPk fp))
            (bool_decide (fp_BtcPk fp ∈ activeFps)) (dl_TotalSat del);
    mret (ps, env)) acc fpDels.

Definition processHooksBTCDelegation bs ps (env : Env) (newDc : VotingPowerDistCache)
  : res FinErr (ProcessingState * Env) :=
  activeFps ← ActiveFpsByBtcPk newDc;
  acc ← processBtcDelHook bs AfterBtcDelegationActivated activeFps (ActiveDelegations ps) (ps, env);
  processBtcDelHook bs AfterBtcDelegationUnbonded activeFps (UnbondingDelegations ps) acc.

Definition processActiveFp (height : Z) (shouldCallHooks : bool) (acc : FinState * Env)
    (fp : FinalityProviderDistInfo) : res FinErr (FinState * Env) :=
  let '(s, env) := acc in
  let s := HandleActivatedFinalityProvider s height (di_BtcPk fp) in
  if negb shouldCallHooks then mret (s, env)
  else env ← must (AfterAncFpEntersActiveSet env (di_Addr fp)); mret (s, env).

(** The processing state is nil when it is not used ([ps] is [None]). *)
Definition processInactiveFp (ps : option ProcessingState) (shouldCallHooks : bool) (env : Env)
    (fp : FinalityProviderDistInfo) : res FinErr Env :=
  env ← (if shouldCallHooks then
           match ps with
           | None => Panic
           | Some ps =>
               if IsFpInPrevActiveSet ps (di_BtcPk fp)
               then must (AfterAncFpRemovedFromActiveSet env (di_Addr fp)) else mret env
           end
         else mret env);
  (** [isFpSlashedOrJailed] reads the state unless the provider's flags decide. *)
  if di_IsJailed fp || di_IsSlashed fp then mret env
  else match ps with None => Panic | Some _ => mret env end.

Definition HandleFPStateUpdates s (env : Env) (height : Z) (ps : option ProcessingState)
    (prevDc newDc : VotingPowerDistCache) (shouldCallHooks : bool) : res FinErr (FinState * Env) :=
  newlyActiveFPs ← FindNewActiveFinalityProviders newDc prevDc;
  '(s, env) ← fold_res (processActiveFp height shouldCallHooks) (s, env) newlyActiveFPs;
  newlyInactiveFPs ← FindNewInactiveFinalityProviders newDc prevDc;
  env ← fold_res (processInactiveFp ps shouldCallHooks) env newlyInactiveFPs;
  mret (s, env).

(** ** [UpdatePowerDist], at the beginning of a block *)

Context {LC : BTCLightClientKeeper}.

Definition UpdatePowerDist s bs (env : Env) (lc : LightClient) (ev : EpochView)
    (ctx : Epoching.HeaderInfo) : res FinErr (FinState * BSState * Env) :=
  let height := ctx_height ctx in
  btcTipHeight ← GetCurrentBTCHeight bs lc ctx;
  let dc := default NewVotingPowerDistCache (GetVotingPowerDistCache s (u64_sub height 1)) in
  lastBTCTipHeight ← GetBTCHeightAtAnonHeight bs lc (u64_sub height 1);
  '(newDc, ps) ← ProcessAllPowerDistUpdateEvents bs dc lastBTCTipHeight btcTipHeight;
  '(s, newDc) ← RecordVotingPowerAndCache s ev height newDc;
  '(ps, env) ← must (processHooksBTCDelegation bs ps env newDc);
  '(s, env) ← HandleFPStateUpdates s env (Epoching.hi_Height ctx) (Some ps) dc newDc true;
  let bs := foldl ClearPowerDistUpdateEvents bs (heights_between lastBTCTipHeight btcTipHeight) in
  mret (s, bs, env).
End power.
End FinalityPower.
