(* ===== verification/FinalityVotes.v ===== *)
(** x/finality: votes, finalisation, liveness, rewards and the messages.
    [src/anon/x/finality/keeper/tallying.go], [keeper/liveness.go],
    [keeper/rewarding.go], [keeper/gov.go], [keeper/msg_server.go], [types/msg.go]
    and [abci.go].

    Votes come in as messages.  At the end of a block the keeper finalises blocks
    in order of height as far as the votes allow, marks the providers that did not
    vote for a block whose time is over, and hands finalised blocks to the reward
    module. *)
From stdpp Require Import base numbers list sorting gmap strings.
From S2P Require Import Prelude KVStore Bytes Hex Secp256k1 Eots Epoching.
From S2P Require Import BtcStaking Finality FinalityPower.

Module FinalityVotes.
Import BtcStaking Finality FinalityPower.

Implicit Types (s : FinState) (bs : BSState) (ctx : Epoching.HeaderInfo).

(** ** Tallying: [keeper/tallying.go] *)

(** The sums do not depend on the iteration order of the map. *)
Definition tally (fpSet : gmap bytes N) (voterBTCPKs : gset bytes) : bool :=
  let '(totalPower, votedPower) :=
    map_fold (λ pk power acc,
      (u64_add acc.1 power,
       if bool_decide (pk ∈ voterBTCPKs) then u64_add acc.2 power else acc.2))
      (0%N, 0%N) fpSet in
  (u64_mul totalPower 2 <? u64_mul votedPower 3)%N.

Definition finalizeBlock s (block : IndexedBlock) : FinState :=
  let s := SetBlock s (mkIndexedBlock (ib_Height block) (ib_AppHash block) true) in
  setNextHeightToFinalize s (u64_add (ib_Height block) 1).

(** The loop over the heights still to be finalised. *)
Fixpoint tally_loop s (heights : list N) : res FinErr FinState :=
  match heights with
  | [] => mret s
  | i :: rest =>
      ib ← must (GetBlock s i);
      match GetVotingPowerTable s (ib_Height ib), ib_Finalized ib with
      | Some fpSet, false =>
          if tally fpSet (GetVoters s (ib_Height ib)) then tally_loop (finalizeBlock s ib) rest
          else mret s
      | None, false => tally_loop (setNextHeightToFinalize s (u64_add (ib_Height ib) 1)) rest
      | _, true => Panic
      end
  end.

Definition TallyBlocks s ctx (maxFinalizedBlocks : N) : res FinErr FinState :=
  activatedHeight ← must (GetBTCStakingActivatedHeight s);
  let startHeight := getNextHeightToFinalize s in
  let startHeight := if (startHeight <? activatedHeight)%N then activatedHeight else startHeight in
  let currentLastBlockHeight := ctx_height ctx in
  let s := if HasBlock s currentLastBlockHeight then s else IndexBlock s ctx in
  let maxHeightToFinalize :=
    N.min (u64_sub (u64_add startHeight maxFinalizedBlocks) 1) currentLastBlockHeight in
  tally_loop s (heights_between startHeight maxHeightToFinalize).

(** ** Liveness: [keeper/liveness.go] *)

(** Whether the signing info changed, and the new one. *)
Definition UpdateSigningInfo s (fpPk : bytes) (missed : bool) (height : Z)
  : res FinErr (bool * SigningInfo * FinState) :=
  signInfo ← of_option ErrNoSigningInfo (signingTracker s !! fpPk);
  let signedBlocksWindow := SignedBlocksWindow (GetParams s) in
  if (height <? sg_StartHeight signInfo)%Z then mret (false, signInfo, s)
  else if (signedBlocksWindow =? 0)%Z then Panic
  else
    let index := Z.rem (int64 (height - sg_StartHeight signInfo)) signedBlocksWindow in
    let previous := GetMissedBlockBitmapValue s fpPk index in
    let counter := sg_MissedBlocksCounter signInfo in
    match previous, missed with
    | false, true =>
        mret (true, mkSigningInfo (sg_StartHeight signInfo) (int64 (counter + 1))
                      (sg_JailedUntil signInfo), SetMissedBlockBitmapValue s fpPk index true)
    | true, false =>
        mret (true, mkSigningInfo (sg_StartHeight signInfo) (int64 (counter - 1))
                      (sg_JailedUntil signInfo), SetMissedBlockBitmapValue s fpPk index false)
    | _, _ => mret (false, signInfo, s)
    end.

Section keeper.
Context {LC : BTCLightClientKeeper} {B : Bech32} {H : FinalityHooks}.
Implicit Types (lc : LightClient) (env : Env).

Definition jailSluggishFinalityProvider bs lc (fpBtcPk : bytes) : res FinErr BSState :=
  map_err ErrBs (JailFinalityProvider bs lc fpBtcPk).

Definition HandleFinalityProviderLiveness s bs lc ctx (fpPk : bytes) (missed : bool) (height : Z)
  : res FinErr (FinState * BSState) :=
  let params := GetParams s in
  fp ← map_err ErrBs (GetFinalityProvider bs fpPk);
  if IsSlashed fp || IsJailed fp then mret (s, bs)
  else
    '(updated, signInfo, s) ← UpdateSigningInfo s fpPk missed height;
    let signedBlocksWindow := SignedBlocksWindow params in
    let minHeight := int64 (sg_StartHeight signInfo + signedBlocksWindow) in
    let maxMissed := int64 (signedBlocksWindow - MinSignedPerWindowInt params) in
    if (minHeight <? height)%Z && (maxMissed <? sg_MissedBlocksCounter signInfo)%Z then
      bs ← jailSluggishFinalityProvider bs lc fpPk;
      let signInfo := mkSigningInfo (sg_StartHeight signInfo) 0
                        (Epoching.hi_Time ctx + JailDuration params) in
      let s := DeleteMissedBlockBitmap s fpPk in
      mret (set_tracker s (<[fpPk := signInfo]> (signingTracker s)), bs)
    else if (updated : bool) then
      mret (set_tracker s (<[fpPk := signInfo]> (signingTracker s)), bs)
    else mret (s, bs).

Definition HandleLiveness s bs lc ctx (height : Z) : res FinErr (FinState * BSState) :=
  let voterBTCPKs := GetVoters s (u64_of_Z height) in
  fold_res (λ sb fpWithVp,
    let missed := negb (bool_decide (fpWithVp.1 ∈ voterBTCPKs)) in
    must (HandleFinalityProviderLiveness sb.1 sb.2 lc ctx fpWithVp.1 missed height))
    (s, bs) (GetVotingPowerTableOrdered s (u64_of_Z height)).

(** ** The reward module: [types/expected_keepers.go] *)

Context {M : Merkle}.

Class IncentiveKeeper := {
  RewardBTCStaking : Env → N → VotingPowerDistCache → gset bytes → res FinErr Env;
  IndexRefundableMsg : Env → MsgAddFinalitySig → Env;
}.
Context {I : IncentiveKeeper}.

(** ** Rewards: [keeper/rewarding.go] *)

Definition rewardBTCStaking s env (height : N) : res FinErr (FinState * Env) :=
  match GetVotingPowerDistCache s height with
  | None => Panic
  | Some dc =>
      env ← RewardBTCStaking env height dc (GetVoters s height);
      mret (RemoveVotingPowerDistCache s height, env)
  end.

(** The loop; [next] is the variable [nextHeightToReward]. *)
Definition reward_step (acc : FinState * Env * N) (height : N) : res FinErr (FinState * Env * N) :=
  let '(s, env, next) := acc in
  block ← must (GetBlock s height);
  if negb (ib_Finalized block) then mret (s, env, next)
  else
    '(s, env) ← rewardBTCStaking s env height;
    mret (s, env, u64_add height 1).

Definition HandleRewarding s env (targetHeight : Z) (maxRewardedBlocks : N)
  : res FinErr (FinState * Env) :=
  let next := GetNextHeightToReward s in
  next ← (if (next =? 0)%N then must (GetBTCStakingActivatedHeight s) else mret next);
  let maxHeightToReward :=
    N.min (u64_sub (u64_add next maxRewardedBlocks) 1) (u64_of_Z targetHeight) in
  '(s, env, next') ← fold_res reward_step (s, env, next) (heights_between next maxHeightToReward);
  mret (if negb (next' =? next)%N then SetNextHeightToReward s next' else s, env).

(** ** The block: [abci.go], [keeper/keeper.go] *)

Definition MaxFinalizedRewardedBlocksPerEndBlock : N := 10000.

Definition EndBlocker s bs env lc ctx : res FinErr (FinState * BSState * Env) :=
  if negb (IsFinalityActive s ctx) then mret (s, bs, env)
  else
    s ← TallyBlocks s ctx MaxFinalizedRewardedBlocksPerEndBlock;
    let heightToExamine := int64 (Epoching.hi_Height ctx - FinalitySigTimeout (GetParams s)) in
    if (1 <=? heightToExamine)%Z then
      '(s, bs) ← HandleLiveness s bs lc ctx heightToExamine;
      '(s, env) ← HandleRewarding s env heightToExamine MaxFinalizedRewardedBlocksPerEndBlock;
      mret (s, bs, env)
    else mret (s, bs, env).

Definition BeginBlocker s bs env lc (ev : EpochView) ctx : res FinErr (FinState * BSState * Env) :=
  UpdatePowerDist s bs env lc ev ctx.

(** ** Resuming finality: [keeper/gov.go] *)

(** Jails one provider of the proposal. *)
Definition resume_jail (voters : gset bytes) lc ctx (params : Params)
    (acc : FinState * BSState * gset string) (fpPkHex : string)
  : res FinErr (FinState * BSState * gset string) :=
  let '(s, bs, fpPksToJail) := acc in
  fpPk ← of_option ErrBadKey (hex_DecodeString fpPkHex);
  require (length fpPk =? BIP340PubKeyLen) ErrBadKey;;
  let fpPksToJail := {[fpPkHex]} ∪ fpPksToJail in
  require (bool_decide (fpPkHex ∉ (set_map hex_EncodeToString voters : gset string)))
    ErrInvalidResumeFinality;;
  fp ← map_err ErrBs (GetFinalityProvider bs fpPk);
  if IsSlashed fp || IsJailed fp then mret (s, bs, fpPksToJail)
  else
    bs ← jailSluggishFinalityProvider bs lc fpPk;
    signInfo ← of_option ErrNoSigningInfo (signingTracker s !! fpPk);
    let s := DeleteMissedBlockBitmap s fpPk in
    let signInfo := mkSigningInfo (sg_StartHeight signInfo) 0
                      (Epoching.hi_Time ctx + JailDuration params) in
    mret (set_tracker s (<[fpPk := signInfo]> (signingTracker s)), bs, fpPksToJail).

(** The providers of a cache after the proposal: the state of the tables, the
    processing state and the new list. *)
Definition resume_fp (fpPksToJail : gset string) (blkHeight : N)
    (acc : FinState * option ProcessingState * list FinalityProviderDistInfo)
    (fp : FinalityProviderDistInfo)
  : FinState * option ProcessingState * list FinalityProviderDistInfo :=
  let '(s, ps, fps) := acc in
  if bool_decide (hex_EncodeToString (di_BtcPk fp) ∈ fpPksToJail) then
    let '(fp, ps) :=
      if di_IsSlashed fp then (fp, ps)
      else (setIsJailed fp true, (λ p, setFPState p (di_BtcPk fp) JAILED) <$> ps) in
    (SetVotingPower s (di_BtcPk fp) blkHeight 0, ps, fps ++ [fp])
  else (s, ps, fps ++ [fp]).

(** One height of the second loop; the processing state exists at the current
    height only. *)
Definition resume_height (fpPksToJail : gset string) ctx (acc : FinState * Env) (blkHeight : N)
  : res FinErr (FinState * Env) :=
  let '(s, env) := acc in
  match GetVotingPowerDistCache s blkHeight with
  | None => Panic
  | Some dc =>
      let isCurrHeight := (blkHeight =? ctx_height ctx)%N in
      let ps := if isCurrHeight then Some (FillByPrevVpDstCache NewProcessingState dc) else None in
      let '(s, ps, fps) := foldl (resume_fp fpPksToJail blkHeight) (s, ps, []) (FinalityProviders dc) in
      let newDc := ApplyActiveFinalityProviders (mkDistCache 0 fps 0) (NumActiveFps dc) in
      let s := SetVotingPowerDistCache s blkHeight newDc in
      HandleFPStateUpdates s env (Epoching.hi_Height ctx) ps dc newDc isCurrHeight
  end.

Definition HandleResumeFinalityProposal s bs env lc ctx (fpPksHex : list string) (haltingHeight : N)
  : res FinErr (FinState * BSState * Env) :=
  let params := GetParams s in
  require (negb (haltingHeight <? FinalityActivationHeight params)%N) ErrInvalidResumeFinality;;
  require (negb (Epoching.hi_Height ctx <? Z.of_N haltingHeight)%Z) ErrInvalidResumeFinality;;
  let voters := GetVoters s haltingHeight in
  '(s, bs, fpPksToJail) ← fold_res (resume_jail voters lc ctx params) (s, bs, ∅) fpPksHex;
  '(s, env) ← fold_res (resume_height fpPksToJail ctx) (s, env)
                (heights_between haltingHeight (ctx_height ctx));
  mret (s, bs, env).

(** ** Messages: [keeper/msg_server.go], [types/msg.go] *)

Record MsgResumeFinalityProposal := mkMsgResumeFinalityProposal {
  rf_Authority : string;
  rf_FpPksHex : list string;
  rf_HaltingHeight : N;
}.

(** The loop over the keys of the proposal. *)
Fixpoint resume_keys_valid (seen : gset string) (fpPksHex : list string) : res FinErr unit :=
  match fpPksHex with
  | [] => Ok tt
  | fpPkHex :: rest =>
      match hex_DecodeString fpPkHex with
      | Some pk =>
          require (length pk =? BIP340PubKeyLen) ErrInvalidResumeFinality;;
          require (bool_decide (fpPkHex ∉ seen)) ErrInvalidResumeFinality;;
          resume_keys_valid ({[fpPkHex]} ∪ seen) rest
      | None => Err ErrInvalidResumeFinality
      end
  end.

Definition MsgResumeFinalityProposal_ValidateBasic (m : MsgResumeFinalityProposal) : res FinErr unit :=
  _ ← of_option ErrAddress (AccAddressFromBech32 (rf_Authority m));
  require (negb (rf_HaltingHeight m =? 0)%N) ErrInvalidResumeFinality;;
  require (negb (length (rf_FpPksHex m) =? 0)) ErrInvalidResumeFinality;;
  resume_keys_valid ∅ (rf_FpPksHex m).

Definition ResumeFinalityProposal (authority : string) s bs env lc ctx
    (req : MsgResumeFinalityProposal) : res FinErr (FinState * BSState * Env) :=
  require (bool_decide (authority = rf_Authority req)) ErrSigner;;
  map_err (λ _, ErrProposal)
    (HandleResumeFinalityProposal s bs env lc ctx (rf_FpPksHex req) (rf_HaltingHeight req)).

Definition UpdateParams (authority reqAuthority : string) s (params : Params) : res FinErr FinState :=
  require (bool_decide (authority = reqAuthority)) ErrSigner;;
  require (Params_Validate params) ErrProposal;;
  SetParams s params.

Definition validateActivationHeight s (height : N) : bool :=
  negb (height <? FinalityActivationHeight (GetParams s))%N.

Definition ShouldAcceptSigForHeight (ev : EpochView) (block : IndexedBlock) : bool :=
  let epochNum := GetEpochByHeight ev (ib_Height block) in
  let timestamped := (epochNum <=? GetLastFinalizedEpoch ev)%N in
  negb (ib_Finalized block && timestamped).

Definition slashFinalityProvider bs lc ctx (fpBtcPk : bytes) : res FinErr BSState :=
  must (map_err ErrBs (SlashFinalityProvider bs lc ctx fpBtcPk)).

Context {C : Curve}.

Definition AddFinalitySig s bs env lc (ev : EpochView) ctx (req : MsgAddFinalitySig)
  : res FinErr (FinState * BSState * Env) :=
  v ← MsgAddFinalitySig_ValidateBasic req;
  let fpPK := v_FpBtcPk v in
  let height := v_BlockHeight v in
  require (validateActivationHeight s height) ErrFinalityNotActivated;;
  indexedBlock ← GetBlock s height;
  require (ShouldAcceptSigForHeight ev indexedBlock) ErrSigHeightOutdated;;
  require (negb (IsFinalityProviderDeleted bs fpPK)) ErrFpDeleted;;
  fp ← map_err ErrBs (GetFinalityProvider bs fpPK);
  require (negb (IsSlashed fp)) (ErrBs ErrFpAlreadySlashed);;
  require (negb (IsJailed fp)) (ErrBs ErrFpAlreadyJailed);;
  require (negb (GetVotingPower s fpPK height =? 0)%N) ErrInvalidFinalitySig;;
  require (match GetSig s ctx height fpPK with
           | Ok existingSig => negb (bool_decide (existingSig = v_FinalitySig v))
           | _ => true
           end) ErrDuplicatedFinalitySig;;
  prCommit ← GetTimestampedPubRandCommitForHeight s ev fpPK height;
  VerifyFinalitySig v prCommit;;
  let s := SetPubRand s fpPK height (v_PubRand v) in
  if negb (bool_decide (ib_AppHash indexedBlock = v_BlockAppHash v)) then
    let evidence sig := mkEvidence fpPK height (v_PubRand v) (ib_AppHash indexedBlock)
                          (v_BlockAppHash v) sig (v_FinalitySig v) in
    match GetSig s ctx height fpPK with
    | Ok canonicalSig =>
        bs ← slashFinalityProvider bs lc ctx fpPK;
        mret (SetEvidence s (evidence (Some canonicalSig)), bs, env)
    | _ => mret (SetEvidence s (evidence None), bs, env)
    end
  else
    let s := SetSig s height fpPK (v_FinalitySig v) in
    bs ← (if (HighestVotedHeight fp <? u32 height)%N
          then map_err ErrBs (UpdateFinalityProvider bs (setHighestVotedHeight fp (u32 height)))
          else mret bs);
    if HasEvidence s fpPK height then
      evidence ← must (GetEvidence s ctx fpPK height);
      let evidence := mkEvidence (ev_FpBtcPk evidence) (ev_BlockHeight evidence)
        (ev_PubRand evidence) (ev_CanonicalAppHash evidence) (ev_ForkAppHash evidence)
        (Some (v_FinalitySig v)) (ev_ForkFinalitySig evidence) in
      let s := SetEvidence s evidence in
      bs ← slashFinalityProvider bs lc ctx fpPK;
      mret (s, bs, env)
    else mret (s, bs, IndexRefundableMsg env req).

Record MsgCommitPubRandList := mkMsgCommitPubRandList {
  cp_Signer : option (list N);
  cp_FpBtcPk : option bytes;
  cp_StartHeight : N;
  cp_NumPubRand : N;
  cp_Commitment : bytes;
  cp_Sig : option bytes;
}.

Definition MaxPubRandCommitOffset : N := 160000.
Definition ExpectedCommitmentLengthBytes : nat := 32.

Definition MsgCommitPubRandList_ValidateBasic (m : MsgCommitPubRandList) : res FinErr unit :=
  _ ← of_option ErrAddress (cp_Signer m);
  require (length (cp_Commitment m) =? ExpectedCommitmentLengthBytes) ErrInvalidPubRand;;
  require (negb (u64_add (cp_StartHeight m) (cp_NumPubRand m) <=? cp_StartHeight m)%N)
    ErrOverflowInBlockHeight.

Definition HashToSign (m : MsgCommitPubRandList) : bytes :=
  Sum256 (Uint64ToBigEndian (cp_StartHeight m) ++ Uint64ToBigEndian (cp_NumPubRand m)
            ++ cp_Commitment m).

(** [schnorr.ParseSignature] and [Signature.Verify] of btcec: the signature, the
    hash, the key. *)
Context (schnorr_Verify : bytes → bytes → point → bool).

Definition VerifySig (m : MsgCommitPubRandList) (fpBtcPk : bytes) : bool :=
  match ParsePubKey fpBtcPk, cp_Sig m with
  | Some pk, Some sig => schnorr_Verify sig (HashToSign m) pk
  | _, _ => false
  end.

Definition CommitPubRandList s bs (ev : EpochView) ctx (req : MsgCommitPubRandList)
  : res FinErr FinState :=
  MsgCommitPubRandList_ValidateBasic req;;
  require (negb (u64_add (ctx_height ctx) MaxPubRandCommitOffset <=? cp_StartHeight req)%N)
    ErrInvalidPubRand;;
  require (validateActivationHeight s (cp_StartHeight req)) ErrFinalityNotActivated;;
  require (negb (cp_NumPubRand req <? MinPubRand (GetParams s))%N) ErrTooFewPubRand;;
  fpBtcPk ← of_option ErrInvalidPubRand (cp_FpBtcPk req);
  require (HasFinalityProvider bs fpBtcPk) (ErrBs ErrFpNotFound);;
  require (negb (IsFinalityProviderDeleted bs fpBtcPk)) ErrFpDeleted;;
  require (VerifySig req fpBtcPk) ErrInvalidPubRand;;
  let prCommit := mkPubRandCommit (cp_StartHeight req) (cp_NumPubRand req) (cp_Commitment req)
                    (GetCurrentEpoch ev) in
  match GetLastPubRandCommit s fpBtcPk with
  | None => SetPubRandCommit s fpBtcPk prCommit
  | Some lastPrCommit =>
      require (negb (cp_StartHeight req <=? EndHeight lastPrCommit)%N) ErrInvalidPubRand;;
      SetPubRandCommit s fpBtcPk prCommit
  end.

(** [time.Time{}], the first of January of the year 1. *)
Definition zero_time : Z := (- 62135596800 * 10 ^ 9)%Z.

Definition IsJailingPeriodPassed (si : SigningInfo) (curBlockTime : Z) : res FinErr bool :=
  if (sg_JailedUntil si =? zero_time)%Z then Err (ErrBs ErrFpNotJailed)
  else mret (sg_JailedUntil si <? curBlockTime)%Z.

Definition UnjailFinalityProvider s bs lc ctx (signer : string) (fpBtcPk : option bytes)
  : res FinErr BSState :=
  match fpBtcPk with
  | None => Panic
  | Some fpPk =>
      fp ← map_err ErrBs (GetFinalityProvider bs fpPk);
      require (bool_decide (fp_Addr fp = signer)) ErrSigner;;
      require (IsJailed fp) (ErrBs ErrFpNotJailed);;
      info ← of_option ErrNoSigningInfo (signingTracker s !! fpPk);
      passed ← IsJailingPeriodPassed info (Epoching.hi_Time ctx);
      require passed ErrJailingPeriodNotPassed;;
      map_err ErrBs (BtcStaking.UnjailFinalityProvider bs lc fpPk)
  end.
End keeper.
End FinalityVotes.
