(* ===== verification/FinalityPowerSpec.v ===== *)
(** Theorems about the voting power distribution of x/finality
    ([FinalityPower.ApplyActiveFinalityProviders],
    [FinalityPower.ProcessAllPowerDistUpdateEvents]).

    The active providers are the best of the eligible ones and no more than the
    parameters allow ([active_are_the_top]); the bitcoin behind a provider changes
    by exactly the delegations that the events activate and end
    ([power_follows_events]). *)
From stdpp Require Import base numbers list sorting gmap strings.
From S2P Require Import Prelude KVStore Bytes Hex BtcLightClient Epoching.
From S2P Require Import BtcStaking Finality FinalityPower.

Module FinalityPowerSpec.
Import BtcStaking Finality FinalityPower.
Local Open Scope N_scope.
Implicit Types (fp a b : FinalityProviderDistInfo) (dc : VotingPowerDistCache).

(** Providers are stored under their keys. *)
Definition keyed (bs : BSState) : Prop :=
  ∀ pk (fp : FinalityProvider), finalityProviders bs !! pk = Some fp → fp_BtcPk fp = pk.

(** ** The order of the providers *)

Lemma not_bytes_lt (x y : bytes) : ¬ bytes_lt y x ↔ bytes_le x y.
Proof.
  split.
  - intros Hn. destruct (total bytes_le x y) as [|Hyx]; [done|].
    apply bytes_le_lt_eq in Hyx as [|<-]; [done|]. apply bytes_le_lt_eq. by right.
  - intros Hxy Hlt. apply bytes_le_lt_eq in Hxy as [Hxy| ->].
    + apply (bytes_lt_irrefl x). by etrans.
    + by apply (bytes_lt_irrefl y).
Qed.

Lemma fp_le_alt a b :
  fp_le a b ↔
  (zeroed a = false ∧ zeroed b = true) ∨
  (zeroed a = true ∧ zeroed b = true ∧ bytes_le (di_BtcPk a) (di_BtcPk b)) ∨
  (zeroed a = false ∧ zeroed b = false ∧
   (TotalBondedSat b < TotalBondedSat a ∨
    TotalBondedSat a = TotalBondedSat b ∧ bytes_le (di_BtcPk a) (di_BtcPk b))).
Proof.
  unfold fp_le, fp_less. destruct (zeroed a), (zeroed b); cbn [andb negb].
  - rewrite bool_decide_eq_false, not_bytes_lt. split; [by auto|].
    by intros [[]|[(_ & _ & ?)|[]]].
  - split; [done|]. by intros [[]|[(_ & ? & _)|[]]].
  - split; [by left|done].
  - transitivity (TotalBondedSat b < TotalBondedSat a ∨
      TotalBondedSat a = TotalBondedSat b ∧ bytes_le (di_BtcPk a) (di_BtcPk b)).
    2:{ split; [by auto|]. by intros [[]|[[]|(_ & _ & ?)]]. }
    destruct (N.eqb_spec (TotalBondedSat b) (TotalBondedSat a)) as [->|].
    + rewrite bool_decide_eq_false, not_bytes_lt. split; [by auto|]. by intros [?%N.lt_irrefl|[]].
    + rewrite N.ltb_ge. split; [|intros [|[]]]; [left|..]; lia.
Qed.

#[global] Instance fp_le_total : Total fp_le.
Proof.
  intros a b. rewrite !fp_le_alt. pose proof (total bytes_le (di_BtcPk a) (di_BtcPk b)).
  destruct (zeroed a), (zeroed b); [destruct H; auto 6|by auto|by auto|].
  destruct (N.lt_trichotomy (TotalBondedSat a) (TotalBondedSat b)) as [|[]].
  - right; right; right; auto.
  - destruct H; [left|right]; right; right; auto.
  - left; right; right; auto.
Qed.

#[global] Instance fp_le_trans : Transitive fp_le.
Proof.
  intros a b c. rewrite !fp_le_alt.
  assert (bytes_le (di_BtcPk a) (di_BtcPk b) → bytes_le (di_BtcPk b) (di_BtcPk c) →
    bytes_le (di_BtcPk a) (di_BtcPk c)) by (intros; by etrans).
  intros [[Ha Hb]|[(Ha & Hb & Hab)|(Ha & Hb & Hab)]] [[Hb' Hc]|[(Hb' & Hc & Hbc)|(Hb' & Hc & Hbc)]];
    try congruence.
  - by left.
  - right; left. by auto.
  - by left.
  - right; right. split_and!; [done|done|].
    destruct Hab as [|[]], Hbc as [|[]]; [left; lia..|right; split; [lia|auto]].
Qed.

(** ** The active providers *)

Definition eligible fp : bool := negb (zeroed fp) && (0 <? TotalBondedSat fp).

Definition sats (fps : list FinalityProviderDistInfo) : N := foldr (λ fp acc, TotalBondedSat fp + acc) 0 fps.

Lemma sats_app l k : sats (l ++ k) = sats l + sats k.
Proof. induction l as [|fp l IH]; simpl; [done|]. rewrite IH. lia. Qed.

(** The test of the loop. *)
Lemma count_active_cons maxN fp fps n t :
  count_active maxN (fp :: fps) n t =
    if (n =? maxN) || negb (eligible fp) then (n, t)
    else count_active maxN fps (u32_add n 1) (u64_add t (TotalBondedSat fp)).
Proof.
  cbn [count_active]. unfold eligible, zeroed. destruct (n =? maxN); [done|].
  destruct (N.eqb_spec (TotalBondedSat fp) 0) as [->|]; [by rewrite andb_false_r|].
  destruct (N.ltb_spec 0 (TotalBondedSat fp)); [|lia].
  destruct (IsTimestamped fp), (di_IsJailed fp), (di_IsSlashed fp); done.
Qed.

(** The longest prefix of eligible providers, cut at the maximum. *)
Lemma count_active_spec maxN fps n t :
  n ≤ maxN → maxN < 2 ^ 32 → t + sats fps < 2 ^ 64 →
  ∃ k, count_active maxN fps n t = (n + N.of_nat k, t + sats (take k fps)) ∧
    (k ≤ length fps)%nat ∧ n + N.of_nat k ≤ maxN ∧
    Forall (λ fp, eligible fp = true) (take k fps) ∧
    (n + N.of_nat k = maxN ∨ ∀ fp, head (drop k fps) = Some fp → eligible fp = false).
Proof.
  revert n t. induction fps as [|fp fps IH]; intros n t Hn Hm Ht.
  - exists 0%nat. simpl. rewrite !N.add_0_r. split_and!; [done|lia|done|done|]. by right.
  - rewrite count_active_cons. destruct (N.eqb_spec n maxN) as [->|Hne]; simpl orb.
    + exists 0%nat. simpl. rewrite !N.add_0_r. split_and!; [done|lia|lia|done|]. by left.
    + destruct (eligible fp) eqn:He; simpl negb; cbv iota.
      * simpl in Ht. destruct (IH (n + 1) (t + TotalBondedSat fp)) as (k & Hk & ? & ? & ? & Hstop);
          [lia|lia|lia|].
        rewrite u32_add_small, u64_add_small, Hk by lia. exists (S k). simpl.
        split_and!; [f_equal; lia|lia|lia|by constructor|].
        destruct Hstop; [left; lia|by right].
      * exists 0%nat. simpl. rewrite !N.add_0_r. split_and!; [done|lia|lia|done|]. right.
        by intros fp' [= <-].
Qed.

(** A provider that ranks below an ineligible one is not eligible. *)
Lemma eligible_fp_le a b : fp_le a b → eligible b = true → eligible a = true.
Proof.
  rewrite fp_le_alt. unfold eligible. rewrite !andb_true_iff, !negb_true_iff, !N.ltb_lt.
  intros [[]|[(?&?&?)|(?&?&?)]] [? ?]; try congruence. split; [done|]. lia.
Qed.

(** C25: The active finality providers of a block are exactly the best ones: as many
    of the eligible providers (timestamped randomness, neither jailed nor slashed,
    some bitcoin behind them) as the maximum allows; an eligible provider left out
    ranks after every active one and has no more bitcoin; the total voting power is
    the bitcoin of the active ones; and no provider is lost or invented. *)
Theorem active_are_the_top dc maxN :
  maxN < 2 ^ 32 → sats (FinalityProviders dc) < 2 ^ 64 →
  let dc' := ApplyActiveFinalityProviders dc maxN in
  let active := take (N.to_nat (NumActiveFps dc')) (FinalityProviders dc') in
  let rest := drop (N.to_nat (NumActiveFps dc')) (FinalityProviders dc') in
  FinalityProviders dc' ≡ₚ FinalityProviders dc ∧
  N.of_nat (length active) = NumActiveFps dc' ∧ NumActiveFps dc' ≤ maxN ∧
  Forall (λ fp, eligible fp = true) active ∧
  (∀ b, b ∈ rest → eligible b = true → NumActiveFps dc' = maxN ∧
     ∀ a, a ∈ active → fp_le a b ∧ TotalBondedSat b ≤ TotalBondedSat a) ∧
  TotalVotingPower dc' = sats active.
Proof.
  intros Hm Ht. unfold ApplyActiveFinalityProviders.
  set (fps := SortFinalityProvidersWithZeroedVotingPower (FinalityProviders dc)).
  assert (fps ≡ₚ FinalityProviders dc) as Hperm by apply merge_sort_Permutation.
  assert (StronglySorted fp_le fps) as Hsort by (apply StronglySorted_merge_sort; apply _).
  assert (sats fps = sats (FinalityProviders dc)) as Hs.
  { clear -Hperm. induction Hperm; simpl; lia. }
  destruct (count_active_spec maxN fps 0 0) as (k & Hk & Hl & Hmax & Hel & Hstop); [lia|done|lia|].
  rewrite Hk, !N.add_0_l. cbn [FinalityProviders NumActiveFps TotalVotingPower]. rewrite Nat2N.id.
  split_and!; [done|rewrite length_take; lia|lia|done| |done].
  intros b Hb Heb.
  assert (∀ a, a ∈ take k fps → fp_le a b) as Hab.
  { intros a Ha. rewrite <- (take_drop k fps) in Hsort.
    by eapply StronglySorted_app_1_elem_of. }
  split.
  - destruct Hstop as [|Hstop]; [lia|]. exfalso.
    destruct (drop k fps) as [|x l] eqn:Hd; [by apply not_elem_of_nil in Hb|].
    specialize (Hstop x eq_refl).
    assert (x = b ∨ fp_le x b) as [->|Hxb]; [|congruence|].
    { apply elem_of_cons in Hb as [|Hb]; [by left|right].
      rewrite <- (take_drop k fps), Hd in Hsort. apply StronglySorted_app_1_r in Hsort.
      apply StronglySorted_cons in Hsort as [Hx _]. rewrite Forall_forall in Hx. by apply Hx. }
    rewrite (eligible_fp_le x b) in Hstop by done. done.
  - intros a Ha. pose proof (Hab a Ha) as Hle. split; [done|].
    rewrite Forall_forall in Hel. specialize (Hel a Ha). simpl in Hel.
    apply fp_le_alt in Hle. unfold eligible in *.
    rewrite !andb_true_iff, !negb_true_iff in *. destruct Hel as [Ha0 _], Heb as [Hb0 _].
    destruct Hle as [[]|[(?&?&?)|(_ & _ & [|[]])]]; [congruence|congruence|lia|lia].
Qed.

(** ** What events mean for the bitcoin behind a provider *)

Lemma int64_add_l x y : int64 (int64 x + y) = int64 (x + y).
Proof.
  unfold int64. f_equal.
  replace ((x + 2 ^ 63) mod 2 ^ 64 - 2 ^ 63 + y + 2 ^ 63)%Z with ((x + 2 ^ 63) mod 2 ^ 64 + y)%Z by lia.
  rewrite Zplus_mod_idemp_l. f_equal. lia.
Qed.
Lemma int64_idemp x : int64 (int64 x) = int64 x.
Proof. pose proof (int64_add_l x 0) as Hx. by rewrite !Z.add_0_r in Hx. Qed.
Lemma int64_add_r x y : int64 (x + int64 y) = int64 (x + y).
Proof. rewrite (Z.add_comm x), int64_add_l. by rewrite Z.add_comm. Qed.
Lemma int64_sub_r x y : int64 (x - int64 y) = int64 (x - y).
Proof.
  unfold int64. f_equal.
  replace (x - ((y + 2 ^ 63) mod 2 ^ 64 - 2 ^ 63) + 2 ^ 63)%Z
    with (x + 2 ^ 63 + 2 ^ 63 - (y + 2 ^ 63) mod 2 ^ 64)%Z by lia.
  rewrite Zminus_mod_idemp_r. f_equal. lia.
Qed.

Section events.
Context {B : Bech32} (bs : BSState).
Implicit Types (ps : ProcessingState) (pk : bytes) (e : EventPowerDistUpdate).

Definition occurrences pk (l : list bytes) : Z := Z.of_nat (length (filter (λ x, x = pk) l)).

(** The satoshis of a delegation that count for a provider. *)
Definition stake_for pk (d : BTCDelegation) : Z :=
  (occurrences pk (FpBtcPkList d) * Z.of_N (TotalSat d))%Z.

Definition quorate (d : BTCDelegation) : bool :=
  match delHasQuorum bs d with Ok q => q | _ => false end.

(** The change that an event makes at once, and the one of an expired delegation. *)
Definition now_change pk e : Z :=
  match e with
  | BtcDelStateUpdate tx st =>
      match getBTCDelegation bs tx, st with
      | Some d, ACTIVE => stake_for pk d
      | Some d, UNBONDED => if quorate d then - stake_for pk d else 0
      | _, _ => 0
      end
  | _ => 0
  end%Z.
Definition expiry_change pk (tx : bytes) : Z :=
  match getBTCDelegation bs tx with
  | Some d => if IsUnbondedEarly d then 0 else if quorate d then - stake_for pk d else 0
  | None => 0
  end%Z.
Definition expired_tx e : option bytes :=
  match e with BtcDelStateUpdate tx EXPIRED => Some tx | _ => None end.
Definition slashed_pk e : option bytes := match e with SlashedFp pk => Some pk | _ => None end.

Definition Zsum (l : list Z) : Z := foldr Z.add 0%Z l.

Lemma Zsum_app l k : Zsum (l ++ k) = (Zsum l + Zsum k)%Z.
Proof. induction l as [|x l IH]; simpl; [done|]. rewrite IH. lia. Qed.

Lemma Zsum_cons x l : Zsum (x :: l) = (x + Zsum l)%Z.
Proof. done. Qed.

(** The change of a provider's satoshis by a list of events. *)
Definition net_change pk (events : list EventPowerDistUpdate) : Z :=
  (Zsum (now_change pk <$> events) + Zsum (expiry_change pk <$> omap expired_tx events))%Z.

(** *** Loops over the providers of a delegation *)

Definition same_frame ps ps' : Prop :=
  FPStatesByBtcPk ps' = FPStatesByBtcPk ps ∧ FpByBtcPk ps' = FpByBtcPk ps ∧
  ExpiredEvents ps' = ExpiredEvents ps ∧ SlashedEvents ps' = SlashedEvents ps ∧
  PrevActiveFpByBtcPk ps' = PrevActiveFpByBtcPk ps.

Lemma credit_loop (step : ProcessingState → bytes → res FinErr ProcessingState) (c : Z) l ps ps' :
  (∀ ps x ps', step ps x = Ok ps' → same_frame ps ps' ∧
     ∀ pk, delta_of ps' pk = if bool_decide (x = pk) then int64 (delta_of ps pk + c) else delta_of ps pk) →
  fold_res step ps l = Ok ps' →
  same_frame ps ps' ∧ ∀ pk z, delta_of ps pk = int64 z → delta_of ps' pk = int64 (z + occurrences pk l * c).
Proof.
  intros Hstep. revert ps. induction l as [|x l IH]; intros ps Hf; simpl in Hf.
  - inv_ok. split; [done|]. intros pk z ->. f_equal. unfold occurrences. simpl. lia.
  - apply bind_Ok in Hf as (ps1 & H1 & Hf). destruct (Hstep _ _ _ H1) as [Hs1 Hd1].
    destruct (IH _ Hf) as [Hs Hd]. split.
    + destruct Hs as (?&?&?&?&?), Hs1 as (?&?&?&?&?). split_and!; congruence.
    + intros pk z Hz. specialize (Hd1 pk). unfold occurrences in *. rewrite filter_cons.
      case_bool_decide as Hx.
      * rewrite decide_True by done. rewrite Hz, int64_add_l in Hd1. rewrite (Hd pk _ Hd1).
        f_equal. simpl. lia.
      * rewrite decide_False by done. apply Hd. by rewrite Hd1.
Qed.

Lemma delta_of_insert ps m x z pk :
  delta_of (setDeltas ps (<[x := z]> m)) pk =
    if bool_decide (x = pk) then z else default 0%Z (m !! pk).
Proof.
  unfold delta_of. simpl. rewrite lookup_insert. case_decide; case_bool_decide; done.
Qed.

Lemma process_active_spec ps d ps' :
  processPowerDistUpdateEventActive ps d = Ok ps' →
  same_frame ps ps' ∧
  ∀ pk z, delta_of ps pk = int64 z → delta_of ps' pk = int64 (z + stake_for pk d).
Proof.
  apply credit_loop. intros ps1 x ps2 Hs. apply bind_Ok in Hs as (a & _ & Hs). cbv zeta in Hs. inv_ok.
  split; [by repeat split|]. intros pk. rewrite delta_of_insert. case_bool_decide as Hx; [subst|done].
  apply int64_add_r.
Qed.

Lemma process_unbond_spec ps d ps' :
  processPowerDistUpdateEventUnbond ps d = Ok ps' →
  same_frame ps ps' ∧
  ∀ pk z, delta_of ps pk = int64 z → delta_of ps' pk = int64 (z - stake_for pk d).
Proof.
  intros Hp. apply (credit_loop _ (- Z.of_N (TotalSat d))) in Hp as [Hf Hd].
  - split; [done|]. intros pk z Hz. rewrite (Hd pk z Hz). f_equal. unfold stake_for. lia.
  - intros ps1 x ps2 Hs. apply bind_Ok in Hs as (a & _ & Hs). cbv zeta in Hs. inv_ok.
    split; [by repeat split|]. intros pk. rewrite delta_of_insert. case_bool_decide as Hx; [subst|done].
    rewrite int64_sub_r. done.
Qed.

(** *** One event *)

Definition deltas_are ps (f : bytes → Z) : Prop := ∀ pk, delta_of ps pk = int64 (f pk).

Lemma delHasQuorum_quorate d q : delHasQuorum bs d = Ok q → quorate d = q.
Proof. unfold quorate. by intros ->. Qed.

(** The states of providers that the immediate events leave. *)
Definition fp_event (st : gmap bytes FinalityProviderState) e : gmap bytes FinalityProviderState :=
  match e with JailedFp pk => <[pk := JAILED]> st | UnjailedFp pk => <[pk := UNJAILED]> st | _ => st end.

Lemma processEvent_spec ps e ps' f :
  deltas_are ps f → processEvent bs ps e = Ok ps' →
  deltas_are ps' (λ pk, (f pk + now_change pk e)%Z) ∧
  FPStatesByBtcPk ps' = fp_event (FPStatesByBtcPk ps) e ∧ FpByBtcPk ps' = FpByBtcPk ps ∧
  ExpiredEvents ps' = ExpiredEvents ps ++ option_list (expired_tx e) ∧
  SlashedEvents ps' = SlashedEvents ps ++ option_list (slashed_pk e).
Proof.
  intros Hd He.
  assert (∀ ps' (c : bytes → Z), same_frame ps ps' →
    (∀ pk z, delta_of ps pk = int64 z → delta_of ps' pk = int64 (z + c pk)) →
    deltas_are ps' (λ pk, (f pk + c pk)%Z) ∧ FPStatesByBtcPk ps' = FPStatesByBtcPk ps ∧
    FpByBtcPk ps' = FpByBtcPk ps ∧ ExpiredEvents ps' = ExpiredEvents ps ++ [] ∧
    SlashedEvents ps' = SlashedEvents ps ++ []) as Hdel.
  { intros ps1 c (?&?&?&?&?) Hc. rewrite !app_nil_r. split_and!; try done.
    intros pk. by apply Hc. }
  assert (∀ (c : bytes → Z), (∀ pk, c pk = 0%Z) → deltas_are ps (λ pk, (f pk + c pk)%Z)) as H0.
  { intros c Hc pk. rewrite Hc, Z.add_0_r. apply Hd. }
  destruct e as [tx st|pk|pk|pk]; simpl in He.
  2-4: inv_ok; simpl; rewrite ?app_nil_r; split_and!; try done; apply (H0 (λ _, 0%Z)); done.
  destruct (decide (st = EXPIRED)) as [->|Hne].
  { inv_ok. simpl. rewrite !app_nil_r. split_and!; try done.
    apply (H0 (λ _, _)). intros pk. by destruct (getBTCDelegation bs tx). }
  assert (processBtcDelUpdate bs ps tx st = Ok ps') as Hp by by destruct st.
  unfold processBtcDelUpdate in Hp. apply bind_Ok in Hp as (d & Hg & Hp).
  apply must_Ok, map_err_Ok, of_option_Ok in Hg. clear He.
  simpl. rewrite Hg. destruct st; try done; simpl option_list.
  - inv_ok. rewrite !app_nil_r. split_and!; try done. by apply (H0 (λ _, 0%Z)).
  - inv_ok. rewrite !app_nil_r. split_and!; try done. by apply (H0 (λ _, 0%Z)).
  - apply process_active_spec in Hp as [Hf Hc]. by apply (Hdel ps' (λ pk, stake_for pk d)).
  - apply bind_Ok in Hp as (q & Hq & Hp). apply delHasQuorum_quorate in Hq. rewrite Hq.
    destruct q.
    + apply process_unbond_spec in Hp as [Hf Hc]. apply (Hdel ps' (λ pk, - stake_for pk d)%Z); [done|].
      intros pk z Hz. by rewrite (Hc pk z Hz).
    + inv_ok. rewrite !app_nil_r. split_and!; try done. by apply (H0 (λ _, 0%Z)).
Qed.

(** *** All events *)

Lemma processEvents_spec events ps ps' f :
  deltas_are ps f → fold_res (processEvent bs) ps events = Ok ps' →
  deltas_are ps' (λ pk, (f pk + Zsum (now_change pk <$> events))%Z) ∧
  FPStatesByBtcPk ps' = foldl fp_event (FPStatesByBtcPk ps) events ∧ FpByBtcPk ps' = FpByBtcPk ps ∧
  ExpiredEvents ps' = ExpiredEvents ps ++ omap expired_tx events ∧
  SlashedEvents ps' = SlashedEvents ps ++ omap slashed_pk events.
Proof.
  revert ps f. induction events as [|e events IH]; intros ps f Hd Hf; simpl in Hf.
  - inv_ok. simpl. rewrite !app_nil_r. split_and!; try done. intros pk. rewrite Z.add_0_r. apply Hd.
  - apply bind_Ok in Hf as (ps1 & H1 & Hf).
    destruct (processEvent_spec ps e ps1 f Hd H1) as (Hd1 & Hst1 & Hc1 & He1 & Hs1).
    destruct (IH _ _ Hd1 Hf) as (Hd2 & Hst2 & Hc2 & He2 & Hs2). split_and!.
    + intros pk. rewrite (Hd2 pk). rewrite fmap_cons, Zsum_cons. f_equal. lia.
    + by rewrite Hst2, Hst1.
    + by rewrite Hc2.
    + rewrite He2, He1, <- app_assoc. f_equal. simpl. by destruct (expired_tx e).
    + rewrite Hs2, Hs1, <- app_assoc. f_equal. simpl. by destruct (slashed_pk e).
Qed.

Lemma processExpired_spec ps ps' f :
  deltas_are ps f → processExpiredEvents bs ps = Ok ps' →
  deltas_are ps' (λ pk, (f pk + Zsum (expiry_change pk <$> ExpiredEvents ps))%Z) ∧ same_frame ps ps'.
Proof.
  unfold processExpiredEvents. set (txs := ExpiredEvents ps).
  enough (∀ l ps f, deltas_are ps f → fold_res (λ ps tx,
      btcDel ← must (map_err ErrBs (GetBTCDelegation bs tx));
      if IsUnbondedEarly btcDel then mret ps
      else hasQuorum ← delHasQuorum bs btcDel;
        if (hasQuorum : bool) then processPowerDistUpdateEventUnbond ps btcDel else mret ps) ps l = Ok ps' →
    deltas_are ps' (λ pk, (f pk + Zsum (expiry_change pk <$> l))%Z) ∧ same_frame ps ps') as Hall
    by (intros; by apply Hall).
  clear txs ps f. induction l as [|tx l IH]; intros ps f Hd Hf; simpl in Hf.
  - inv_ok. split; [|done]. intros pk. simpl. rewrite Z.add_0_r. apply Hd.
  - apply bind_Ok in Hf as (ps1 & H1 & Hf).
    apply bind_Ok in H1 as (d & Hg & H1). apply must_Ok, map_err_Ok, of_option_Ok in Hg.
    assert (deltas_are ps1 (λ pk, (f pk + expiry_change pk tx)%Z) ∧ same_frame ps ps1) as [Hd1 Hf1].
    { unfold expiry_change. rewrite Hg. destruct (IsUnbondedEarly d).
      { inv_ok. split; [|done]. intros pk. rewrite Z.add_0_r. apply Hd. }
      apply bind_Ok in H1 as (q & Hq & H1). apply delHasQuorum_quorate in Hq. rewrite Hq. destruct q.
      - apply process_unbond_spec in H1 as [Hfr Hc]. split; [|done]. intros pk. by apply Hc.
      - inv_ok. split; [|done]. intros pk. rewrite Z.add_0_r. apply Hd. }
    destruct (IH _ _ Hd1 Hf) as [Hd2 Hf2]. split.
    + intros pk. rewrite (Hd2 pk). rewrite fmap_cons, Zsum_cons. f_equal. lia.
    + destruct Hf1 as (?&?&?&?&?), Hf2 as (?&?&?&?&?). split_and!; congruence.
Qed.

(** *** The new cache *)

Lemma u64_of_Z_int64 z : u64_of_Z (int64 z) = u64_of_Z z.
Proof.
  unfold u64_of_Z, int64. f_equal. rewrite Zminus_mod_idemp_l. f_equal. lia.
Qed.

Lemma u64_of_Z_pos z : (0 ≤ z < 2 ^ 64)%Z → u64_of_Z z = Z.to_N z.
Proof. intros. unfold u64_of_Z. by rewrite Z.mod_small. Qed.

(** Adding a signed number of satoshis. *)
Lemma ChangeDeltaSats_spec fp fp' z :
  (- 2 ^ 63 ≤ z < 2 ^ 63)%Z → (Z.of_N (TotalBondedSat fp) + z < 2 ^ 64)%Z →
  ChangeDeltaSats fp (int64 z) = Ok fp' →
  di_BtcPk fp' = di_BtcPk fp ∧ di_IsSlashed fp' = di_IsSlashed fp ∧
  Z.of_N (TotalBondedSat fp') = (Z.of_N (TotalBondedSat fp) + z)%Z.
Proof.
  intros Hz Hw. rewrite int64_small by done. unfold ChangeDeltaSats.
  destruct (Z.ltb_spec 0 z); [|destruct (Z.ltb_spec z 0)]; intros Hc.
  - inv_ok. simpl. rewrite u64_of_Z_pos by lia. rewrite u64_add_small by lia. split_and!; [done|done|lia].
  - unfold RemoveBondedSats, abs in Hc. destruct (Z.ltb_spec z 0); [|lia].
    rewrite u64_of_Z_int64, u64_of_Z_pos in Hc by lia. destruct (N.ltb_spec (TotalBondedSat fp) (Z.to_N (- z)));
      [done|]. inv_ok. simpl. split_and!; [done|done|lia].
  - inv_ok. split_and!; [done|done|lia].
Qed.

Definition sats_of (fps : list FinalityProviderDistInfo) pk : N :=
  sats (filter (λ fp, di_BtcPk fp = pk) fps).

Lemma sats_of_app l k pk : sats_of (l ++ k) pk = sats_of l pk + sats_of k pk.
Proof. unfold sats_of. rewrite filter_app. apply sats_app. Qed.

Lemma sats_of_cons fp l pk :
  sats_of (fp :: l) pk = (if bool_decide (di_BtcPk fp = pk) then TotalBondedSat fp else 0) + sats_of l pk.
Proof.
  unfold sats_of. rewrite filter_cons. case_decide; case_bool_decide; done.
Qed.

Lemma sats_of_nil pk : sats_of [] pk = 0.
Proof. done. Qed.

Lemma sats_of_none l pk : pk ∉ di_BtcPk <$> l → sats_of l pk = 0.
Proof.
  induction l as [|fp l IH]; intros Hn; [done|]. rewrite fmap_cons in Hn.
  apply not_elem_of_cons in Hn as [Hne Hn]. rewrite sats_of_cons, bool_decide_false by done. by apply IH.
Qed.

(** Adding a provider, or leaving it out when nothing is behind it. *)
Lemma sats_of_add (l : list FinalityProviderDistInfo) fp pk :
  sats_of (if 0 <? TotalBondedSat fp then l ++ [fp] else l) pk =
    sats_of l pk + (if bool_decide (di_BtcPk fp = pk) then TotalBondedSat fp else 0).
Proof.
  destruct (N.ltb_spec 0 (TotalBondedSat fp)).
  - rewrite sats_of_app, sats_of_cons, sats_of_nil. lia.
  - case_bool_decide; lia.
Qed.

Definition is_slashed (st : gmap bytes FinalityProviderState) pk : bool :=
  bool_decide (st !! pk = Some SLASHED).

(** One provider of the last cache. *)
Lemma reconcile_one (f : bytes → Z) fp newFps ps newFps1 ps1 :
  delta_of ps (di_BtcPk fp) = int64 (f (di_BtcPk fp)) →
  (- 2 ^ 63 ≤ f (di_BtcPk fp) < 2 ^ 63)%Z →
  (Z.of_N (TotalBondedSat fp) + f (di_BtcPk fp) < 2 ^ 64)%Z →
  reconcileFp (newFps, ps) fp = Ok (newFps1, ps1) →
  FPStatesByBtcPk ps1 = FPStatesByBtcPk ps ∧ FpByBtcPk ps1 = FpByBtcPk ps ∧
  (∀ pk, DeltaSatsByFpBtcPk ps1 !! pk =
     if bool_decide (pk = di_BtcPk fp) && negb (is_slashed (FPStatesByBtcPk ps) pk)
     then None else DeltaSatsByFpBtcPk ps !! pk) ∧
  (∀ pk, Z.of_N (sats_of newFps1 pk) = Z.of_N (sats_of newFps pk) +
     (if bool_decide (pk = di_BtcPk fp) && negb (is_slashed (FPStatesByBtcPk ps) pk)
      then Z.of_N (TotalBondedSat fp) + f pk else 0))%Z.
Proof.
  intros Hd Hz Hw H1.
  unfold reconcileFp in H1. cbv zeta in H1.
  destruct (decide (FPStatesByBtcPk ps !! di_BtcPk fp = Some SLASHED)) as [Hs|Hs].
  - rewrite Hs in H1. inv_ok. split_and!; try done; intros pk.
    + case_bool_decide as Heq; [|done]. rewrite Heq. unfold is_slashed. by rewrite bool_decide_true.
    + case_bool_decide as Heq; simpl; [|lia]. rewrite Heq. unfold is_slashed.
      rewrite bool_decide_true by done. simpl. lia.
  - set (fp1 := match FPStatesByBtcPk ps !! di_BtcPk fp with
                | Some JAILED => setIsJailed fp true | Some UNJAILED => setIsJailed fp false
                | _ => fp end) in *.
    assert (must (ChangeDeltaSats fp1 (delta_of ps (di_BtcPk fp))) ≫= (λ fp,
        mret (if 0 <? TotalBondedSat fp then newFps ++ [fp] else newFps,
              setDeltas ps (delete (di_BtcPk fp1) (DeltaSatsByFpBtcPk ps)))) = Ok (newFps1, ps1)) as H2.
    { revert H1. unfold fp1. destruct (FPStatesByBtcPk ps !! di_BtcPk fp) as [[]|]; done. }
    assert (di_BtcPk fp1 = di_BtcPk fp ∧ TotalBondedSat fp1 = TotalBondedSat fp) as [Hp1 Ht1].
    { unfold fp1. by destruct (FPStatesByBtcPk ps !! di_BtcPk fp) as [[]|]. }
    apply bind_Ok in H2 as (fp2 & H2 & H3). apply (proj1 (must_Ok _ _)) in H2.
    rewrite Hd in H2.
    apply ChangeDeltaSats_spec in H2 as (Hp2 & _ & Ht2); [|done|by rewrite Ht1].
    inv_ok. split_and!; try done; intros pk; simpl.
    + rewrite Hp1, lookup_delete. case_decide as Heq; [subst pk|].
      * rewrite bool_decide_true by done. unfold is_slashed. by rewrite bool_decide_false.
      * by rewrite bool_decide_false by done.
    + rewrite sats_of_add, N2Z.inj_add. f_equal. rewrite Hp2, Hp1.
      case_bool_decide as Heq; [subst pk|by rewrite bool_decide_false by done].
      rewrite bool_decide_true by done. unfold is_slashed. rewrite bool_decide_false by done. simpl.
      by rewrite Ht2, Ht1.
Qed.

(** The loop over the providers of the last cache. *)
Lemma reconcile_spec (f : bytes → Z) fps newFps ps newFps' ps' :
  NoDup (di_BtcPk <$> fps) →
  (∀ pk, pk ∈ di_BtcPk <$> fps → delta_of ps pk = int64 (f pk)) →
  (∀ fp, fp ∈ fps → (- 2 ^ 63 ≤ f (di_BtcPk fp) < 2 ^ 63)%Z ∧
     (Z.of_N (TotalBondedSat fp) + f (di_BtcPk fp) < 2 ^ 64)%Z) →
  fold_res reconcileFp (newFps, ps) fps = Ok (newFps', ps') →
  FPStatesByBtcPk ps' = FPStatesByBtcPk ps ∧ FpByBtcPk ps' = FpByBtcPk ps ∧
  (∀ pk, DeltaSatsByFpBtcPk ps' !! pk =
     if bool_decide (pk ∈ di_BtcPk <$> fps) && negb (is_slashed (FPStatesByBtcPk ps) pk)
     then None else DeltaSatsByFpBtcPk ps !! pk) ∧
  (∀ pk, Z.of_N (sats_of newFps' pk) = Z.of_N (sats_of newFps pk) +
     (if bool_decide (pk ∈ di_BtcPk <$> fps) && negb (is_slashed (FPStatesByBtcPk ps) pk)
      then Z.of_N (sats_of fps pk) + f pk else 0))%Z.
Proof.
  revert newFps ps. induction fps as [|fp fps IH]; intros newFps ps Hnd Hd Hb Hf; simpl in Hf.
  { inv_ok. split_and!; try done. intros pk. simpl. lia. }
  rewrite fmap_cons in Hnd. apply NoDup_cons in Hnd as [Hfp Hnd].
  apply bind_Ok in Hf as ([newFps1 ps1] & H1 & Hf).
  assert (∀ pk, pk ∈ di_BtcPk <$> fps → pk ∈ di_BtcPk <$> (fp :: fps)) as Hsub
    by (intros; by right).
  destruct (reconcile_one f fp newFps ps newFps1 ps1) as (Hst & Hch & Hdl & Hst1);
    [apply Hd; by left|apply Hb; by left|apply Hb; by left|done|].
  destruct (IH newFps1 ps1) as (Hst' & Hch' & Hdl' & Hs'); [done| | |done|].
  { intros pk Hpk. unfold delta_of. rewrite Hdl. rewrite bool_decide_false; [apply Hd; by apply Hsub|].
    by intros ->. }
  { intros fp' Hfp'. apply Hb. by right. }
  rewrite Hst in Hst', Hdl', Hs'. split_and!; [congruence|congruence| |]; intros pk.
  - rewrite Hdl', Hdl, fmap_cons. destruct (is_slashed (FPStatesByBtcPk ps) pk);
      rewrite ?andb_false_r, ?andb_true_r; [done|].
    rewrite (bool_decide_ext (pk ∈ di_BtcPk fp :: _) (pk = di_BtcPk fp ∨ pk ∈ di_BtcPk <$> fps))
      by apply elem_of_cons. rewrite bool_decide_or. by destruct (bool_decide (_ = _)), (bool_decide (_ ∈ _)).
  - rewrite Hs', Hst1, fmap_cons, sats_of_cons. destruct (is_slashed (FPStatesByBtcPk ps) pk);
      rewrite ?andb_false_r, ?andb_true_r; simpl; [lia|].
    destruct (decide (pk = di_BtcPk fp)) as [->|Hne].
    + rewrite (bool_decide_true (di_BtcPk fp = _)) by done. rewrite (bool_decide_false (_ ∈ _ <$> fps)) by done.
      rewrite (bool_decide_true (_ ∈ _ :: _)) by by left. rewrite (sats_of_none fps) by done.
      lia.
    + rewrite (bool_decide_false (pk = _)) by done. rewrite (bool_decide_false (_ = pk)) by done.
      rewrite (bool_decide_ext (pk ∈ di_BtcPk fp :: _) (pk ∈ di_BtcPk <$> fps)) by set_solver.
      case_bool_decide; lia.
Qed.

(** *** Providers that were not in the last cache *)

Definition cache_sound (cache : gmap bytes FinalityProvider) : Prop :=
  ∀ pk (fp : FinalityProvider), cache !! pk = Some fp → finalityProviders bs !! pk = Some fp.

Lemma loadFP_spec cache pk (fp : FinalityProvider) cache' :
  cache_sound cache → loadFP bs cache pk = Ok (fp, cache') →
  finalityProviders bs !! pk = Some fp ∧ cache_sound cache'.
Proof.
  intros Hc Hl. unfold loadFP in Hl. destruct (cache !! pk) as [fp'|] eqn:Hpk.
  - inv_ok. split; [by apply Hc|done].
  - apply require_bind_Ok in Hl as [_ Hl]. apply bind_Ok in Hl as (fp' & Hg & Hl).
    apply map_err_Ok, of_option_Ok in Hg. inv_ok. split; [done|].
    intros pk' fp''. rewrite lookup_insert_Some. intros [[<- <-]|[_ ?]]; [done|by apply Hc].
Qed.

(** Whether a registered provider is slashed. *)
Definition slashed_fp pk : bool :=
  match finalityProviders bs !! pk with Some fp => IsSlashed fp | None => false end.

Context (Hkeyed : keyed bs).

Lemma add_new_one (f : bytes → Z) pk newFps ps newFps1 ps1 :
  delta_of ps pk = int64 (f pk) → (- 2 ^ 63 ≤ f pk < 2 ^ 63)%Z → cache_sound (FpByBtcPk ps) →
  addNewFp bs (newFps, ps) pk = Ok (newFps1, ps1) →
  FPStatesByBtcPk ps1 = FPStatesByBtcPk ps ∧ cache_sound (FpByBtcPk ps1) ∧
  DeltaSatsByFpBtcPk ps1 = DeltaSatsByFpBtcPk ps ∧
  (∀ pk', Z.of_N (sats_of newFps1 pk') = Z.of_N (sats_of newFps pk') +
     (if bool_decide (pk' = pk) && negb (slashed_fp pk) then f pk else 0))%Z.
Proof.
  intros Hd Hz Hc Ha. unfold addNewFp in Ha. apply bind_Ok in Ha as ([fp cache'] & Hl & Ha).
  apply (proj1 (must_Ok _ _)) in Hl. apply loadFP_spec in Hl as [Hfp Hc']; [|done]. cbv zeta in Ha.
  unfold slashed_fp. rewrite Hfp. destruct (IsSlashed fp).
  { inv_ok. split_and!; try done. intros pk'. rewrite andb_false_r. lia. }
  apply bind_Ok in Ha as (di & Hdi & Ha). unfold NewFinalityProviderDistInfo in Hdi.
  apply bind_Ok in Hdi as (addr & _ & Hdi). inv_ok.
  set (di := match _ with Some SLASHED => _ | _ => _ end) in *.
  assert (di_BtcPk di = pk ∧ TotalBondedSat di = 0) as [Hp Ht].
  { rewrite <- (Hkeyed pk fp Hfp). unfold di. by repeat case_match. }
  match goal with Hx : must _ = Ok ?y |- _ => rename y into di2; apply (proj1 (must_Ok _ _)) in Hx;
    rename Hx into H2 end.
  change (delta_of (setFpCache ps cache') pk) with (delta_of ps pk) in H2. rewrite Hd in H2.
  apply ChangeDeltaSats_spec in H2 as (Hp2 & _ & Ht2); [|done|rewrite Ht; lia].
  split_and!; try done. intros pk'. rewrite sats_of_add, N2Z.inj_add, Hp2, Hp. f_equal.
  rewrite andb_true_r. rewrite Ht in Ht2. repeat case_bool_decide; congruence || lia.
Qed.

Lemma add_new_spec (f : bytes → Z) l newFps ps newFps' ps' :
  NoDup l → (∀ pk, pk ∈ l → delta_of ps pk = int64 (f pk) ∧ (- 2 ^ 63 ≤ f pk < 2 ^ 63)%Z) →
  cache_sound (FpByBtcPk ps) →
  fold_res (addNewFp bs) (newFps, ps) l = Ok (newFps', ps') →
  FPStatesByBtcPk ps' = FPStatesByBtcPk ps ∧ cache_sound (FpByBtcPk ps') ∧
  (∀ pk, Z.of_N (sats_of newFps' pk) = Z.of_N (sats_of newFps pk) +
     (if bool_decide (pk ∈ l) && negb (slashed_fp pk) then f pk else 0))%Z.
Proof.
  revert newFps ps. induction l as [|x l IH]; intros newFps ps Hnd Hd Hc Hf; simpl in Hf.
  { inv_ok. split_and!; try done. intros pk. simpl. lia. }
  apply NoDup_cons in Hnd as [Hx Hnd]. apply bind_Ok in Hf as ([newFps1 ps1] & H1 & Hf).
  destruct (Hd x ltac:(by left)) as [Hdx Hzx].
  destruct (add_new_one f x newFps ps newFps1 ps1 Hdx Hzx Hc H1) as (Hst & Hc1 & Hdl & Hs1).
  destruct (IH newFps1 ps1) as (Hst' & Hc' & Hs'); [done| |done|done|].
  { intros pk Hpk. unfold delta_of. rewrite Hdl. apply Hd. by right. }
  split_and!; [congruence|done|]. intros pk. rewrite Hs', Hs1.
  rewrite (bool_decide_ext (pk ∈ x :: l) (pk = x ∨ pk ∈ l)) by apply elem_of_cons.
  rewrite bool_decide_or. destruct (decide (pk = x)) as [->|Hne].
  - rewrite (bool_decide_true (x = x)), (bool_decide_false (x ∈ l)) by done. simpl. lia.
  - rewrite (bool_decide_false (pk = x)) by done. simpl. lia.
Qed.
End events.

(** ** The power distribution follows the events *)

Lemma fold_res_mjoin {E S A} (f : S → A → res E S) s (ll : list (list A)) :
  fold_res (fold_res f) s ll = fold_res f s (mjoin ll).
Proof.
  revert s. induction ll as [|l ll IH]; intros s; [done|]. cbn [fold_res mjoin list_join].
  change (mjoin (l :: ll)) with (l ++ mjoin ll). rewrite fold_res_app. by apply bind_ext.
Qed.

Lemma events_between bs lo hi :
  mjoin (PowerDistUpdateEvents bs <$> heights_between lo hi) = GetAllPowerDistUpdateEvents bs lo hi.
Proof. unfold GetAllPowerDistUpdateEvents, heights_between. by rewrite list_fmap_compose. Qed.

Lemma fold_res_fmap {E S A A'} (f : S → A' → res E S) (g : A → A') s l :
  fold_res (λ s x, f s (g x)) s l = fold_res f s (g <$> l).
Proof. revert s. induction l as [|x l IH]; intros s; [done|]. simpl. by apply bind_ext. Qed.

Lemma fill_frame ps dc :
  let ps' := FillByPrevVpDstCache ps dc in
  DeltaSatsByFpBtcPk ps' = DeltaSatsByFpBtcPk ps ∧ FpByBtcPk ps' = FpByBtcPk ps ∧
  ExpiredEvents ps' = ExpiredEvents ps ∧ SlashedEvents ps' = SlashedEvents ps ∧
  (Forall (λ fp, di_IsSlashed fp = false) (FinalityProviders dc) →
   (∀ pk, FPStatesByBtcPk ps !! pk ≠ Some SLASHED) → ∀ pk, FPStatesByBtcPk ps' !! pk ≠ Some SLASHED).
Proof.
  simpl. unfold FillByPrevVpDstCache.
  assert (∀ l ps, (∀ x, x ∈ l → x.2 ∈ FinalityProviders dc) →
    let ps' := foldl (λ ps ifp,
      let ps := if N.of_nat ifp.1 <? NumActiveFps dc
                then setPrevActive ps ({[di_BtcPk ifp.2]} ∪ PrevActiveFpByBtcPk ps) else ps in
      AddStateForFp ps ifp.2) ps l in
    DeltaSatsByFpBtcPk ps' = DeltaSatsByFpBtcPk ps ∧ FpByBtcPk ps' = FpByBtcPk ps ∧
    ExpiredEvents ps' = ExpiredEvents ps ∧ SlashedEvents ps' = SlashedEvents ps ∧
    (Forall (λ fp, di_IsSlashed fp = false) (FinalityProviders dc) →
     (∀ pk, FPStatesByBtcPk ps !! pk ≠ Some SLASHED) → ∀ pk, FPStatesByBtcPk ps' !! pk ≠ Some SLASHED))
    as Hl.
  { induction l as [|[i fp] l IH]; intros ps0 Hin; [done|]. cbn [foldl].
    set (ps1 := if _ <? _ then _ else ps0).
    destruct (IH (AddStateForFp ps1 fp)) as (H1 & H2 & H3 & H4 & H5); [intros; apply Hin; by right|].
    cbv zeta in *. simpl in H1, H2, H3, H4, H5 |- *. fold ps1.
    assert (DeltaSatsByFpBtcPk ps1 = DeltaSatsByFpBtcPk ps0 ∧ FpByBtcPk ps1 = FpByBtcPk ps0 ∧
      ExpiredEvents ps1 = ExpiredEvents ps0 ∧ SlashedEvents ps1 = SlashedEvents ps0 ∧
      FPStatesByBtcPk ps1 = FPStatesByBtcPk ps0) as (?&?&?&?&Hst) by (unfold ps1; by case_match).
    unfold AddStateForFp in *.
    rewrite H1, H2, H3, H4. split_and!; try (repeat case_match; done).
    intros Hsl Hns. apply H5; [done|]. rewrite Forall_forall in Hsl.
    rewrite (Hsl fp) by (apply (Hin (i, fp)); by left). intros pk. case_match; simpl; rewrite Hst; [|done].
    rewrite lookup_insert_Some. intros [[_ [=]]|[_ ?]]. by eapply Hns. }
  apply Hl. intros x Hx. apply elem_of_lookup_imap in Hx as (i & y & -> & Hy). simpl.
  by eapply list_elem_of_lookup_2.
Qed.

Lemma fp_event_not_slashed st e pk :
  st !! pk ≠ Some SLASHED → fp_event st e !! pk ≠ Some SLASHED.
Proof. destruct e; simpl; try done; rewrite lookup_insert_Some; naive_solver. Qed.

Lemma slashed_states l ps pk :
  (∀ pk, FPStatesByBtcPk ps !! pk ≠ Some SLASHED) →
  FPStatesByBtcPk (foldl (λ ps pk, setFPState ps pk SLASHED) ps l) !! pk = Some SLASHED ↔ pk ∈ l.
Proof.
  intros Hns. assert (∀ ps, FPStatesByBtcPk (foldl (λ ps pk, setFPState ps pk SLASHED) ps l) !! pk = Some SLASHED
    ↔ pk ∈ l ∨ FPStatesByBtcPk ps !! pk = Some SLASHED) as Hl.
  { clear. induction l as [|x l IH]; intros ps; simpl; [set_solver|].
    rewrite IH. simpl. rewrite lookup_insert_Some, elem_of_cons. split.
    - intros [?|[[<- _]|[_ ?]]]; auto.
    - intros [[->|?]|?]; [by auto..|]. destruct (decide (x = pk)) as [->|]; auto 6. }
  rewrite Hl. split; [|by left]. intros [|Hs]; [done|]. by apply Hns in Hs.
Qed.

Lemma slashed_frame l ps :
  let ps' := foldl (λ ps pk, setFPState ps pk SLASHED) ps l in
  DeltaSatsByFpBtcPk ps' = DeltaSatsByFpBtcPk ps ∧ FpByBtcPk ps' = FpByBtcPk ps.
Proof. revert ps. induction l as [|x l IH]; intros ps; [done|]. simpl. by destruct (IH (setFPState ps x SLASHED)) as [-> ->]. Qed.

Lemma sats_of_elem fp l : fp ∈ l → TotalBondedSat fp ≤ sats_of l (di_BtcPk fp).
Proof.
  induction l as [|x l IH]; intros Hin; [by apply not_elem_of_nil in Hin|].
  rewrite sats_of_cons. apply elem_of_cons in Hin as [->|Hin].
  - rewrite bool_decide_true by done. lia.
  - specialize (IH Hin). lia.
Qed.

Lemma slashed_pk_elem pk (events : list EventPowerDistUpdate) : pk ∈ omap slashed_pk events ↔ SlashedFp pk ∈ events.
Proof.
  rewrite list_elem_of_omap. split.
  - intros (e & He & Hs). destruct e; simplify_eq/=. done.
  - intros He. by exists (SlashedFp pk).
Qed.

Section follow.
Context {B : Bech32} (bs : BSState) (Hkeyed : keyed bs).

(** The state of the processing when all events have been read. *)
Lemma events_processed dc lastTip curTip ps ps1 :
  let events := GetAllPowerDistUpdateEvents bs lastTip curTip in
  fold_res (processEventsAtHeight bs) (FillByPrevVpDstCache NewProcessingState dc)
    (heights_between lastTip curTip) = Ok ps →
  processExpiredEvents bs ps = Ok ps1 →
  let ps2 := processSlashedEvents ps1 in
  deltas_are ps2 (λ pk, net_change bs pk events) ∧ cache_sound bs (FpByBtcPk ps2) ∧
  (Forall (λ fp, di_IsSlashed fp = false) (FinalityProviders dc) →
   ∀ pk, FPStatesByBtcPk ps2 !! pk = Some SLASHED ↔ SlashedFp pk ∈ events).
Proof.
  intros events Hf He ps2.
  destruct (fill_frame NewProcessingState dc) as (Hd0 & Hc0 & He0 & Hs0 & Hst0).
  set (ps0 := FillByPrevVpDstCache NewProcessingState dc) in *.
  unfold processEventsAtHeight in Hf. rewrite fold_res_fmap, fold_res_mjoin, events_between in Hf.
  fold events in Hf.
  destruct (processEvents_spec bs events ps0 ps (λ _, 0%Z)) as (Hd & Hst & Hc & Hex & Hsx); [|done|].
  { intros pk. unfold delta_of. by rewrite Hd0. }
  destruct (processExpired_spec bs ps ps1 _ Hd He) as (Hd1 & Hst1 & Hc1 & _ & Hsx1 & _).
  destruct (slashed_frame (SlashedEvents ps1) ps1) as [Hd2 Hc2].
  fold (processSlashedEvents ps1) in Hd2, Hc2. fold ps2 in Hd2, Hc2.
  split_and!.
  - intros pk. unfold delta_of. rewrite Hd2. fold (delta_of ps1 pk). rewrite (Hd1 pk), Hex, He0. done.
  - rewrite Hc2, Hc1, Hc, Hc0. intros pk fp Hx. simpl in Hx. by rewrite lookup_empty in Hx.
  - intros Hsl pk. unfold ps2, processSlashedEvents. rewrite slashed_states.
    + rewrite Hsx1, Hsx, Hs0. apply slashed_pk_elem.
    + intros pk'. rewrite Hst1, Hst. specialize (Hst0 Hsl ltac:(done) pk').
      revert Hst0. generalize (FPStatesByBtcPk ps0). clear. induction events as [|e l IH]; intros st; [done|].
      simpl. intros Hn. apply IH. by apply fp_event_not_slashed.
Qed.

(** C22: Processing the events of a block changes the satoshis behind every finality
    provider by exactly what the events say: plus the stake of each delegation that
    became active, minus the stake of each one with covenant signatures that was
    unbonded or that expired without being unbonded before; a provider slashed by an
    event, or new and slashed, ends with nothing. *)
Theorem power_follows_events dc lastTip curTip dc' ps :
  let events := GetAllPowerDistUpdateEvents bs lastTip curTip in
  let old := sats_of (FinalityProviders dc) in
  NoDup (di_BtcPk <$> FinalityProviders dc) →
  Forall (λ fp, di_IsSlashed fp = false) (FinalityProviders dc) →
  (∀ pk, (- 2 ^ 63 ≤ net_change bs pk events < 2 ^ 63)%Z ∧
     (Z.of_N (old pk) + net_change bs pk events < 2 ^ 64)%Z) →
  ProcessAllPowerDistUpdateEvents bs dc lastTip curTip = Ok (dc', ps) →
  ∀ pk, Z.of_N (sats_of (FinalityProviders dc') pk) =
    (if bool_decide (SlashedFp pk ∈ events)
        || (bool_decide (pk ∉ di_BtcPk <$> FinalityProviders dc) && slashed_fp bs pk)
     then 0 else Z.of_N (old pk) + net_change bs pk events)%Z.
Proof.
  intros events old Hnd Hsl Hb Hp pk. unfold ProcessAllPowerDistUpdateEvents in Hp. cbv zeta in Hp.
  apply bind_Ok in Hp as (ps0 & Hf & Hp). apply bind_Ok in Hp as (ps1 & He & Hp).
  destruct (events_processed dc lastTip curTip ps0 ps1 Hf He) as (Hd & Hc & Hst).
  specialize (Hst Hsl).
  fold events in Hd, Hst. set (ps2 := processSlashedEvents ps1) in *.
  apply bind_Ok in Hp as ([fps3 ps3] & Hr & Hp).
  apply reconcile_spec with (f := λ pk, net_change bs pk events) in Hr as (Hst3 & Hc3 & Hd3 & Hs3);
    [|done|by intros; apply Hd|].
  2:{ intros fp Hfp. destruct (Hb (di_BtcPk fp)) as [? ?]. split; [done|].
      pose proof (sats_of_elem fp _ Hfp). unfold old in *. lia. }
  apply bind_Ok in Hp as ([fps4 ps4] & Hn & Hp). inv_ok. cbn [FinalityProviders].
  apply (add_new_spec bs Hkeyed (λ pk, net_change bs pk events)) in Hn as (_ & _ & Hs4).
  - rewrite Hs4, Hs3, sats_of_nil. clear Hs4 Hs3. fold old.
    set (l := filter _ _).
    assert (pk ∈ l ↔ FPStatesByBtcPk ps2 !! pk ≠ Some SLASHED ∧
      (pk ∉ di_BtcPk <$> FinalityProviders dc) ∧ is_Some (DeltaSatsByFpBtcPk ps2 !! pk)) as Hl.
    { unfold l. rewrite list_elem_of_filter, Hst3. rewrite list_elem_of_fmap.
      transitivity (FPStatesByBtcPk ps2 !! pk ≠ Some SLASHED ∧ is_Some (DeltaSatsByFpBtcPk ps3 !! pk)).
      { f_equiv. split.
        - intros ([k v] & -> & Hk). apply elem_of_bkv_asc in Hk. by exists v.
        - intros [v Hv]. exists (pk, v). split; [done|]. by apply elem_of_bkv_asc. }
      rewrite Hd3. unfold is_slashed. split.
      - intros [Hns Hd']. rewrite (bool_decide_false (_ = Some SLASHED)) in Hd' by done. rewrite andb_true_r in Hd'.
        case_bool_decide; [by destruct Hd'|by auto].
      - intros (Hns & Hni & Hd'). rewrite (bool_decide_false (pk ∈ _)) by done. done. }
    unfold is_slashed. rewrite (bool_decide_ext (_ = Some SLASHED) (SlashedFp pk ∈ events)) by apply Hst.
    destruct (decide (SlashedFp pk ∈ events)) as [Hev|Hev].
    { rewrite (bool_decide_true (SlashedFp pk ∈ _)) by done.
      rewrite (bool_decide_false (pk ∈ l)) by (rewrite Hl, Hst; tauto).
      rewrite andb_false_r. done. }
    rewrite (bool_decide_false (SlashedFp pk ∈ _)) by done. simpl orb. rewrite andb_true_r.
    destruct (decide (pk ∈ di_BtcPk <$> FinalityProviders dc)) as [Hin|Hin].
    { rewrite (bool_decide_false (pk ∈ l)) by (rewrite Hl; tauto).
      rewrite bool_decide_true, bool_decide_false by tauto. simpl. lia. }
    rewrite (bool_decide_false (pk ∈ _ <$> _)) by done.
    rewrite (bool_decide_true (pk ∉ _)) by done.
    assert (old pk = 0) as -> by by apply sats_of_none.
    destruct (slashed_fp bs pk); simpl; [by rewrite andb_false_r|]. rewrite andb_true_r.
    case_bool_decide as Hpl; [lia|].
    assert (DeltaSatsByFpBtcPk ps2 !! pk = None) as Hnone.
    { apply eq_None_not_Some. intros Hs. apply Hpl, Hl. split_and!; [by rewrite Hst|done|done]. }
    specialize (Hd pk). unfold delta_of in Hd. rewrite Hnone in Hd. simpl in Hd.
    rewrite int64_small in Hd by apply Hb. lia.
  - apply NoDup_filter. rewrite bkv_asc_perm. apply NoDup_fst_map_to_list.
  - intros pk' Hpk'. apply list_elem_of_filter in Hpk' as [Hns Hpk'].
    split; [|apply Hb]. rewrite list_elem_of_fmap in Hpk'. destruct Hpk' as ([k v] & -> & Hk).
    apply elem_of_bkv_asc in Hk. simpl. rewrite <- (Hd k). unfold delta_of.
    revert Hk. rewrite Hd3. case_match; [done|]. by intros ->.
  - by rewrite Hc3.
Qed.
End follow.
End FinalityPowerSpec.
