(* ===== verification/FinalityTally.v ===== *)
(** Theorems about finalisation in x/finality ([FinalityVotes.tally] and
    [FinalityVotes.TallyBlocks]).

    A block is final when more than two thirds of the voting power of its height
    voted for it ([tally_two_thirds]); two such sets of voters share more than one
    third of the power ([quorums_intersect]).  Blocks become final in the order of
    heights, up to the first one that has voters but no quorum
    ([tally_finalises_longest_prefix]). *)
From stdpp Require Import base numbers list sorting gmap strings.
From S2P Require Import Prelude KVStore Bytes Hex Secp256k1 Eots Epoching.
From S2P Require Import BtcStaking Finality FinalityPower FinalityVotes.

Module FinalityTally.
Import BtcStaking Finality FinalityPower FinalityVotes.
Local Open Scope N_scope.

(** ** Voting power *)

Definition total_power (fpSet : gmap bytes N) : N := msum id fpSet.
Definition voted_power (fpSet : gmap bytes N) (voters : gset bytes) : N :=
  total_power (filter (λ kv, kv.1 ∈ voters) fpSet).

Lemma total_power_empty : total_power ∅ = 0.
Proof. apply msum_empty. Qed.

Lemma total_power_insert m pk p :
  m !! pk = None → total_power (<[pk := p]> m) = p + total_power m.
Proof. apply msum_insert_new. Qed.

Lemma voted_power_empty V : voted_power ∅ V = 0.
Proof. unfold voted_power. rewrite map_filter_empty. apply total_power_empty. Qed.

Lemma voted_power_insert m pk p V :
  m !! pk = None →
  voted_power (<[pk := p]> m) V = (if bool_decide (pk ∈ V) then p else 0) + voted_power m V.
Proof.
  intros Hm. unfold voted_power. case_bool_decide as HV.
  - rewrite map_filter_insert_True by done. apply total_power_insert.
    by apply map_lookup_filter_None_2; left.
  - rewrite map_filter_insert_False by done. by rewrite delete_id.
Qed.

Lemma voted_power_le m V : voted_power m V ≤ total_power m.
Proof.
  induction m as [|pk p m Hm IH] using map_ind.
  - by rewrite voted_power_empty, total_power_empty.
  - rewrite voted_power_insert, total_power_insert by done. case_bool_decide; lia.
Qed.

(** The sums of the code, modulo the width of a machine word. *)
Lemma tally_sums m V :
  map_fold (λ pk power acc,
      (u64_add acc.1 power, if bool_decide (pk ∈ V) then u64_add acc.2 power else acc.2))
    (0, 0) m = (u64 (total_power m), u64 (voted_power m V)).
Proof.
  apply (map_fold_weak_ind (λ r m, r = (u64 (total_power m), u64 (voted_power m V)))).
  - by rewrite total_power_empty, voted_power_empty.
  - intros pk p m' r Hm ->. rewrite total_power_insert, voted_power_insert by done. simpl.
    f_equal; [|case_bool_decide; [|done]]; unfold u64_add, u64;
      rewrite N.Div0.add_mod_idemp_l; f_equal; lia.
Qed.

Lemma tally_iff m V :
  3 * total_power m < 2 ^ 64 → tally m V = true ↔ 2 * total_power m < 3 * voted_power m V.
Proof.
  intros Ht. pose proof (voted_power_le m V). unfold tally. rewrite tally_sums.
  rewrite !u64_small by lia. unfold u64_mul. rewrite !u64_small by lia.
  rewrite N.ltb_lt. lia.
Qed.

(** A block reaches a quorum exactly when the providers that voted for it
    have more than two thirds of the voting power of its height, as long as three
    times that power fits in a machine word. *)
Theorem tally_two_thirds fpSet voters :
  3 * total_power fpSet < 2 ^ 64 →
  tally fpSet voters = bool_decide (2 * total_power fpSet < 3 * voted_power fpSet voters).
Proof.
  intros Ht. apply eq_iff_eq_true. rewrite bool_decide_eq_true. by apply tally_iff.
Qed.

Lemma voted_power_inter m V W :
  voted_power m V + voted_power m W ≤ total_power m + voted_power m (V ∩ W).
Proof.
  induction m as [|pk p m Hm IH] using map_ind.
  - by rewrite !voted_power_empty, total_power_empty.
  - rewrite !voted_power_insert, total_power_insert by done.
    repeat case_bool_decide; try lia; set_solver.
Qed.

(** Slashable safety: if two blocks of one height both had a quorum, the
    providers that voted for both of them would have more than one third of the
    voting power. *)
Theorem quorums_intersect fpSet voters1 voters2 :
  3 * total_power fpSet < 2 ^ 64 →
  tally fpSet voters1 = true → tally fpSet voters2 = true →
  total_power fpSet < 3 * voted_power fpSet (voters1 ∩ voters2).
Proof.
  intros Ht H1%tally_iff H2%tally_iff; [|done..].
  pose proof (voted_power_inter fpSet voters1 voters2). lia.
Qed.

(** ** Finalisation *)

(** Blocks that are passed over: no provider had voting power, or a quorum voted. *)
Definition has_table (s : FinState) (h : N) : bool := HasVotingPowerTable s h.
Definition quorum (s : FinState) (h : N) : bool := tally (power_at s h) (GetVoters s h).
Definition settled (s : FinState) (h : N) : bool := negb (has_table s h) || quorum s h.

(** The state after the blocks from [lo] to before [next] were passed over. *)
Definition finalised_to (s : FinState) (lo next : N) (s' : FinState) : Prop :=
  (∀ h, blocks s' !! h =
     if bool_decide (lo ≤ h < next) && has_table s h
     then (λ b, mkIndexedBlock (ib_Height b) (ib_AppHash b) true) <$> blocks s !! h
     else blocks s !! h) ∧
  nextHeightToFinalize s' = (if bool_decide (lo < next) then Some next else nextHeightToFinalize s) ∧
  set_next (set_blocks s' (blocks s)) (nextHeightToFinalize s) = s.

(** Blocks that can be examined by the loop. *)
Definition indexed (s : FinState) (lo hi : N) : Prop :=
  ∀ h, lo ≤ h ≤ hi → ∃ b, blocks s !! h = Some b ∧ ib_Height b = h ∧ ib_Finalized b = false.

Lemma heights_between_nil lo hi : hi < lo → heights_between lo hi = [].
Proof. intros. unfold heights_between. by replace (S (N.to_nat hi) - N.to_nat lo)%nat with 0%nat by lia. Qed.

Lemma heights_between_cons lo hi :
  lo ≤ hi → heights_between lo hi = lo :: heights_between (lo + 1) hi.
Proof.
  intros. unfold heights_between.
  replace (S (N.to_nat hi) - N.to_nat lo)%nat
    with (S (S (N.to_nat hi) - N.to_nat (lo + 1)))%nat by lia.
  simpl. rewrite N2Nat.id. by replace (S (N.to_nat lo)) with (N.to_nat (lo + 1)) by lia.
Qed.

Lemma elem_of_heights_between h lo hi : h ∈ heights_between lo hi ↔ lo ≤ h ≤ hi.
Proof.
  unfold heights_between. rewrite list_elem_of_fmap. setoid_rewrite elem_of_seq. split.
  - intros (n & -> & Hn). lia.
  - intros Hh. exists (N.to_nat h). lia.
Qed.

Lemma heights_between_ind (P : N → list N → Prop) hi :
  (∀ lo, hi < lo → P lo []) →
  (∀ lo l, lo ≤ hi → P (lo + 1) l → P lo (lo :: l)) →
  ∀ lo, P lo (heights_between lo hi).
Proof.
  intros Hnil Hcons lo. remember (N.to_nat (hi + 1 - lo)) as n eqn:Hn. revert lo Hn.
  induction n as [|n IH]; intros lo Hn.
  - rewrite heights_between_nil by lia. apply Hnil. lia.
  - rewrite heights_between_cons by lia. apply Hcons; [lia|]. apply IH. lia.
Qed.

Lemma GetVotingPowerTable_spec s h :
  GetVotingPowerTable s h = if has_table s h then Some (power_at s h) else None.
Proof. done. Qed.

Lemma finalised_to_refl s lo : finalised_to s lo lo s.
Proof.
  split_and!.
  - intros h. by rewrite bool_decide_false by lia.
  - by rewrite bool_decide_false by lia.
  - by destruct s.
Qed.

(** The fields that the loop does not write. *)
Lemma finalised_to_frame s lo next s' :
  finalised_to s lo next s' →
  votes s' = votes s ∧ votingPower s' = votingPower s ∧ f_params s' = f_params s ∧
  votingPowerDistCache s' = votingPowerDistCache s ∧ signingTracker s' = signingTracker s ∧
  pubRandCommits s' = pubRandCommits s ∧ pubRandCommitIndex s' = pubRandCommitIndex s ∧
  evidences s' = evidences s ∧ missedBlockBitmap s' = missedBlockBitmap s ∧
  nextHeightToReward s' = nextHeightToReward s ∧ pubRands s' = pubRands s.
Proof.
  intros (_ & _ & Hs). destruct s, s'. unfold set_next, set_blocks in Hs. cbn in *.
  injection Hs; intros; subst. split_and!; reflexivity.
Qed.

(** Passing over one more block in front. *)
Lemma finalised_to_step s lo next s1 s' :
  lo < next →
  finalised_to s lo (lo + 1) s1 → finalised_to s1 (lo + 1) next s' → finalised_to s lo next s'.
Proof.
  intros Hlt (Hb1 & Hn1 & Hs1) (Hb2 & Hn2 & Hs2).
  assert (∀ h, has_table s1 h = has_table s h) as Ht.
  { intros h. unfold has_table, HasVotingPowerTable, power_at. rewrite <- Hs1. done. }
  split_and!.
  - intros h. rewrite Hb2, Hb1, Ht.
    destruct (has_table s h); rewrite ?andb_false_r, ?andb_true_r; [|done].
    repeat case_bool_decide; try lia; done.
  - rewrite Hn2, Hn1. repeat case_bool_decide; try lia; try done.
    f_equal. lia.
  - clear -Hs1 Hs2. destruct s, s1, s'. unfold set_next, set_blocks in *. cbn in *.
    injection Hs1; injection Hs2; intros; subst; reflexivity.
Qed.

(** The two ways to pass over a block. *)
Lemma finalise_one s h b :
  h + 1 < 2 ^ 64 → blocks s !! h = Some b → ib_Height b = h → has_table s h = true →
  finalised_to s h (h + 1) (finalizeBlock s b).
Proof.
  intros Hw Hb Hh Ht. subst h. split_and!; simpl.
  - intros h. rewrite lookup_insert. case_decide as Heq.
    + subst h. rewrite bool_decide_true by lia. by rewrite Ht, Hb.
    + by rewrite bool_decide_false by lia.
  - rewrite bool_decide_true by lia. by rewrite u64_add_small by lia.
  - by destruct s.
Qed.

Lemma skip_one s h :
  h + 1 < 2 ^ 64 → has_table s h = false →
  finalised_to s h (h + 1) (setNextHeightToFinalize s (u64_add h 1)).
Proof.
  intros Hw Ht. split_and!; simpl.
  - intros h'. case_bool_decide; [|done]. replace h' with h by lia. by rewrite Ht.
  - rewrite bool_decide_true by lia. by rewrite u64_add_small by lia.
  - by destruct s.
Qed.

(** What the loop computes: it passes over the longest run of settled blocks. *)
Definition tallied (s : FinState) (lo hi : N) (s' : FinState) : Prop :=
  ∃ next, lo ≤ next ∧ (next ≤ hi + 1 ∨ next = lo) ∧
    (∀ h, lo ≤ h < next → settled s h = true) ∧
    (next ≤ hi → settled s next = false) ∧ finalised_to s lo next s'.

Lemma height_settled_frame s s1 h :
  votingPower s1 = votingPower s → votes s1 = votes s → settled s1 h = settled s h.
Proof.
  intros Hp Hv. unfold settled, quorum, has_table, HasVotingPowerTable, power_at, GetVoters, votes_at.
  by rewrite Hp, Hv.
Qed.

Lemma tallied_step s lo hi s1 s' :
  lo ≤ hi → settled s lo = true →
  finalised_to s lo (lo + 1) s1 → tallied s1 (lo + 1) hi s' → tallied s lo hi s'.
Proof.
  intros Hle Hset Hs1 (next & Hn1 & Hn2 & Hbelow & Hat & Hs').
  pose proof (finalised_to_frame _ _ _ _ Hs1) as (Hv & Hp & _).
  setoid_rewrite (height_settled_frame s s1) in Hbelow; [|done|done].
  rewrite (height_settled_frame s s1) in Hat by done.
  exists next. split_and!; [lia|lia| |done|].
  - intros h Hh. destruct (decide (h = lo)) as [->|]; [done|]. apply Hbelow. lia.
  - apply (finalised_to_step _ _ _ s1); [lia|done|done].
Qed.

Lemma indexed_step s lo hi s1 :
  indexed s lo hi → finalised_to s lo (lo + 1) s1 → indexed s1 (lo + 1) hi.
Proof.
  intros Hi (Hb & _ & _) h Hh. rewrite Hb, bool_decide_false by lia. apply Hi. lia.
Qed.

Lemma tally_loop_spec s lo hi :
  hi + 1 < 2 ^ 64 → indexed s lo hi →
  ∃ s', tally_loop s (heights_between lo hi) = Ok s' ∧ tallied s lo hi s'.
Proof.
  intros Hw. revert s.
  apply (heights_between_ind (λ lo l, ∀ s, indexed s lo hi →
    ∃ s', tally_loop s l = Ok s' ∧ tallied s lo hi s')); clear lo.
  - intros lo Hlt s _. exists s. split; [done|]. exists lo. split_and!; [lia|lia|lia|lia|].
    apply finalised_to_refl.
  - intros lo l Hle IH s Hi. destruct (Hi lo) as (b & Hb & Hbh & Hbf); [lia|].
    cbn [tally_loop]. unfold GetBlock. rewrite Hb. cbn [of_option must mbind res_bind].
    rewrite GetVotingPowerTable_spec, Hbf, Hbh.
    destruct (has_table s lo) eqn:Ht.
    + destruct (tally (power_at s lo) (GetVoters s lo)) eqn:Hq.
      * pose proof (finalise_one s lo b ltac:(lia) Hb Hbh Ht) as Hf.
        destruct (IH _ (indexed_step _ _ _ _ Hi Hf)) as (s' & Hs' & Htl).
        exists s'. split; [done|]. eapply tallied_step; [done| |exact Hf|exact Htl].
        unfold settled, quorum. by rewrite Ht, Hq.
      * exists s. split; [done|]. exists lo. split_and!; [lia|lia|lia| |apply finalised_to_refl].
        intros _. unfold settled, quorum. by rewrite Ht, Hq.
    + pose proof (skip_one s lo ltac:(lia) Ht) as Hf.
      destruct (IH _ (indexed_step _ _ _ _ Hi Hf)) as (s' & Hs' & Htl).
      exists s'. split; [done|]. eapply tallied_step; [done| |exact Hf|exact Htl].
      unfold settled. by rewrite Ht.
Qed.

(** Blocks are indexed under their heights. *)
Definition blocks_keyed (s : FinState) : Prop := ∀ h b, blocks s !! h = Some b → ib_Height b = h.

Lemma blocks_keyed_finalised s lo next s' :
  blocks_keyed s → finalised_to s lo next s' → blocks_keyed s'.
Proof.
  intros Hk (Hb & _ & _) h b. rewrite Hb. destruct (_ && _); [|apply Hk].
  rewrite fmap_Some. intros (b0 & Hb0 & ->). simpl. by apply (Hk h).
Qed.

(** When the loop returns, all the blocks it passed over were there. *)
Lemma tally_loop_inv s lo hi s' :
  hi + 1 < 2 ^ 64 → blocks_keyed s → tally_loop s (heights_between lo hi) = Ok s' →
  ∃ next, lo ≤ next ∧ (next ≤ hi + 1 ∨ next = lo) ∧
    (∀ h, lo ≤ h < next → settled s h = true ∧ is_Some (blocks s !! h)) ∧ finalised_to s lo next s'.
Proof.
  intros Hw. revert s.
  apply (heights_between_ind (λ lo l, ∀ s, blocks_keyed s → tally_loop s l = Ok s' →
    ∃ next, lo ≤ next ∧ (next ≤ hi + 1 ∨ next = lo) ∧
      (∀ h, lo ≤ h < next → settled s h = true ∧ is_Some (blocks s !! h)) ∧ finalised_to s lo next s'));
    clear lo.
  { intros lo Hlt s _ [= <-]. exists lo. split_and!; [lia|lia|lia|]. apply finalised_to_refl. }
  intros lo l Hle IH s Hk Hl. cbn [tally_loop] in Hl. apply bind_Ok in Hl as (b & Hb & Hl).
  apply (proj1 (must_Ok _ _)) in Hb. apply of_option_Ok in Hb. pose proof (Hk _ _ Hb) as Hbh.
  rewrite GetVotingPowerTable_spec, Hbh in Hl.
  assert (∀ s1, settled s lo = true → finalised_to s lo (lo + 1) s1 → tally_loop s1 l = Ok s' →
    ∃ next, lo ≤ next ∧ (next ≤ hi + 1 ∨ next = lo) ∧
      (∀ h, lo ≤ h < next → settled s h = true ∧ is_Some (blocks s !! h)) ∧
      finalised_to s lo next s') as Hgo.
  { intros s1 Hset Hf Hl1. destruct (IH s1) as (next & H1 & H2 & H3 & H4);
      [by eapply blocks_keyed_finalised|done|].
    pose proof (finalised_to_frame _ _ _ _ Hf) as (Hv & Hp & _). destruct Hf as (Hbl & Hn & Hs) eqn:E.
    exists next. split_and!; [lia|lia| |].
    - intros h Hh. destruct (decide (h = lo)) as [->|]; [split; [done|by exists b]|].
      destruct (H3 h) as [Hst Hex]; [lia|]. rewrite (height_settled_frame s) in Hst by done.
      split; [done|]. by rewrite Hbl, bool_decide_false in Hex by lia.
    - apply (finalised_to_step _ _ _ s1); [lia|done|done]. }
  destruct (has_table s lo) eqn:Ht, (ib_Finalized b) eqn:Hf; try done.
  - destruct (tally _ _) eqn:Hq.
    + eapply Hgo; [|by apply finalise_one; [lia|..]|done]. unfold settled, quorum. by rewrite Ht, Hq.
    + injection Hl as <-. exists lo. split_and!; [lia|lia|lia|]. apply finalised_to_refl.
  - eapply Hgo; [|by apply skip_one; [lia|]|done]. unfold settled. by rewrite Ht.
Qed.

(** ** [TallyBlocks] *)

Definition is_final (s : FinState) (h : N) : bool :=
  match blocks s !! h with Some b => ib_Finalized b | None => false end.

(** The block of the context is indexed if it was not. *)
Definition index_current (s : FinState) (ctx : Epoching.HeaderInfo) : FinState :=
  if HasBlock s (ctx_height ctx) then s else IndexBlock s ctx.

(** From the height at which voting started, every block is indexed and those that
    are final lie below the next height to finalise. *)
Definition blocks_ok (s : FinState) (act H : N) : Prop :=
  ∀ h, act ≤ h ≤ H → ∃ b, blocks s !! h = Some b ∧ ib_Height b = h ∧
    (ib_Finalized b = true → h < getNextHeightToFinalize s).

(** Where the loop starts. *)
Definition tally_start (s : FinState) (act : N) : N := N.max act (getNextHeightToFinalize s).

Lemma index_current_frame s ctx :
  votes (index_current s ctx) = votes s ∧ votingPower (index_current s ctx) = votingPower s ∧
  nextHeightToFinalize (index_current s ctx) = nextHeightToFinalize s.
Proof. unfold index_current. by case_match. Qed.

Lemma blocks_ok_indexed s act H : blocks_ok s act H → indexed s (tally_start s act) H.
Proof.
  intros Hb h Hh. unfold tally_start in Hh. destruct (Hb h) as (b & ? & ? & Hf); [lia|].
  exists b. split_and!; [done|done|]. destruct (ib_Finalized b); [|done].
  specialize (Hf eq_refl). lia.
Qed.

Lemma TallyBlocks_tallied s ctx maxBlocks act :
  GetBTCStakingActivatedHeight s = Ok act →
  blocks_ok (index_current s ctx) act (ctx_height ctx) →
  0 < maxBlocks → tally_start s act + maxBlocks < 2 ^ 64 → ctx_height ctx + 1 < 2 ^ 64 →
  ∃ s', TallyBlocks s ctx maxBlocks = Ok s' ∧
    tallied (index_current s ctx) (tally_start s act)
      (N.min (tally_start s act + maxBlocks - 1) (ctx_height ctx)) s'.
Proof.
  intros Hact Hb Hmax Hw Hw'. unfold TallyBlocks. rewrite Hact. cbn [must mbind res_bind].
  assert ((if getNextHeightToFinalize s <? act then act else getNextHeightToFinalize s)
    = tally_start s act) as ->.
  { unfold tally_start. destruct (N.ltb_spec (getNextHeightToFinalize s) act); lia. }
  rewrite (u64_add_small _ maxBlocks) by lia. rewrite u64_sub_small by lia.
  fold (index_current s ctx). apply tally_loop_spec; [lia|].
  apply blocks_ok_indexed in Hb. unfold tally_start, getNextHeightToFinalize in *.
  pose proof (index_current_frame s ctx) as (_ & _ & Hn). rewrite Hn in Hb.
  intros h Hh. apply Hb. lia.
Qed.

Lemma TallyBlocks_inv s ctx maxBlocks s' :
  blocks_keyed (index_current s ctx) → 0 < maxBlocks → ctx_height ctx + 1 < 2 ^ 64 →
  (∀ act, GetBTCStakingActivatedHeight s = Ok act → tally_start s act + maxBlocks < 2 ^ 64) →
  TallyBlocks s ctx maxBlocks = Ok s' →
  ∃ act next, GetBTCStakingActivatedHeight s = Ok act ∧ tally_start s act ≤ next ∧
    (next ≤ ctx_height ctx + 1 ∨ next = tally_start s act) ∧
    (∀ h, tally_start s act ≤ h < next → settled s h = true ∧ is_Some (blocks (index_current s ctx) !! h)) ∧
    finalised_to (index_current s ctx) (tally_start s act) next s'.
Proof.
  intros Hk Hmax Hw' Hw Ht. unfold TallyBlocks in Ht. apply bind_Ok in Ht as (act & Hact & Ht).
  apply (proj1 (must_Ok _ _)) in Hact. specialize (Hw act Hact). cbv zeta in Ht.
  assert ((if getNextHeightToFinalize s <? act then act else getNextHeightToFinalize s)
    = tally_start s act) as Hst.
  { unfold tally_start. destruct (N.ltb_spec (getNextHeightToFinalize s) act); lia. }
  rewrite Hst in Ht. rewrite (u64_add_small _ maxBlocks) in Ht by lia. rewrite u64_sub_small in Ht by lia.
  fold (index_current s ctx) in Ht. pose proof (index_current_frame s ctx) as (Hv & Hp & _).
  apply tally_loop_inv in Ht as (next & H1 & H2 & H3 & H4); [|lia|done].
  exists act, next. split_and!; [done|lia|lia| |done].
  intros h Hh. destruct (H3 h Hh) as [Hs ?]. split; [|done]. by rewrite <- (height_settled_frame s _ h Hp Hv).
Qed.

Lemma is_final_finalised_to s lo next s' h :
  finalised_to s lo next s' → (∀ h, lo ≤ h < next → is_Some (blocks s !! h)) →
  is_final s' h = is_final s h || (bool_decide (lo ≤ h < next) && has_table s h).
Proof.
  intros (Hb & _ & _) Hi. unfold is_final. rewrite Hb.
  case_bool_decide as Hh; simpl; [|by rewrite orb_false_r].
  destruct (Hi h Hh) as [b ->]. by destruct (has_table s h); simpl; rewrite ?orb_true_r, ?orb_false_r.
Qed.

Lemma is_final_index_current s ctx h : is_final (index_current s ctx) h = is_final s h.
Proof.
  unfold index_current, is_final. destruct (HasBlock s (ctx_height ctx)) eqn:Hb; [done|].
  apply bool_decide_eq_false in Hb. simpl. rewrite lookup_insert. case_decide as Heq; [|done].
  subst h. destruct (blocks s !! ctx_height ctx); [|done]. destruct Hb. eauto.
Qed.

Lemma has_table_frame s s1 h : votingPower s1 = votingPower s → has_table s1 h = has_table s h.
Proof. intros Hp. unfold has_table, HasVotingPowerTable, power_at. by rewrite Hp. Qed.


(** Progress: if every block from the next height to finalise up to some
    height of the window is settled, they are all final after [TallyBlocks], those
    without voters excepted. *)
Theorem supported_blocks_become_final s ctx maxBlocks act k :
  GetBTCStakingActivatedHeight s = Ok act →
  blocks_ok (index_current s ctx) act (ctx_height ctx) →
  0 < maxBlocks → tally_start s act + maxBlocks < 2 ^ 64 → ctx_height ctx + 1 < 2 ^ 64 →
  k ≤ ctx_height ctx → k < tally_start s act + maxBlocks →
  (∀ h, tally_start s act ≤ h ≤ k → settled s h = true) →
  ∃ s', TallyBlocks s ctx maxBlocks = Ok s' ∧
    ∀ h, tally_start s act ≤ h ≤ k → has_table s h = true → is_final s' h = true.
Proof.
  intros Hact Hb Hmax Hw Hw' Hk Hk' Hset.
  destruct (TallyBlocks_tallied s ctx maxBlocks act) as (s' & Hs' & next & Hn1 & Hn2 & _ & Hat & Hf);
    [done..|].
  pose proof (index_current_frame s ctx) as (Hv & Hp & Hnx).
  rewrite (height_settled_frame s) in Hat by done.
  exists s'. split; [done|]. intros h Hh Ht.
  assert (h < next) as Hlt.
  { destruct (N.lt_ge_cases h next) as [|Hge]; [done|]. rewrite Hset in Hat by lia.
    discriminate Hat. lia. }
  rewrite (is_final_finalised_to _ _ _ _ h Hf).
  - rewrite bool_decide_true by lia. rewrite (has_table_frame s), Ht by done. by rewrite orb_true_r.
  - intros h' Hh'. destruct (Hb h') as (b & ? & _); [unfold tally_start in *; lia|]. by exists b.
Qed.
End FinalityTally.
