(* ===== verification/FinalityLiveness.v ===== *)
(** Theorems about rewards and liveness in x/finality
    ([FinalityVotes.HandleRewarding], [FinalityVotes.UpdateSigningInfo],
    [FinalityVotes.HandleFinalityProviderLiveness]).

    Every final block in the window of a call is handed to the reward module once,
    in order ([rewards_final_blocks_once]), but a window without final blocks is
    never left ([rewarding_stalls]).  The counter of missed blocks is the number of
    bits set in the bitmap ([missed_counter_counts_bits]) and decides jailing
    ([jailed_iff_missed_too_many]). *)
From stdpp Require Import base numbers list sorting gmap strings.
From S2P Require Import Prelude KVStore Bytes Hex Secp256k1 Eots BtcLightClient Epoching.
From S2P Require Import BtcStaking Finality FinalityPower FinalityVotes FinalityTally.

Module FinalityLiveness.
Import BtcStaking Finality FinalityPower FinalityVotes FinalityTally.
Local Open Scope N_scope.

(** ** Rewards *)
Section rewards.
Context {H : FinalityHooks} {M : Merkle} {I : IncentiveKeeper}.
Implicit Types (s : FinState) (env : Env).

(** The reward module is called on each of the heights, with the cache and the
    voters of the height. *)
Definition reward_all s env (hs : list N) : res FinErr Env :=
  fold_res (λ env h,
    match GetVotingPowerDistCache s h with
    | None => Panic
    | Some dc => RewardBTCStaking env h dc (GetVoters s h)
    end) env hs.

Definition remove_caches s (hs : list N) : FinState := foldl RemoveVotingPowerDistCache s hs.

Definition final_heights s (lo hi : N) : list N :=
  filter (λ h, is_final s h = true) (heights_between lo hi).

Lemma remove_caches_frame s hs :
  votes (remove_caches s hs) = votes s ∧ blocks (remove_caches s hs) = blocks s ∧
  (∀ h, h ∉ hs → votingPowerDistCache (remove_caches s hs) !! h = votingPowerDistCache s !! h).
Proof.
  revert s. induction hs as [|h hs IH]; intros s; simpl; [done|].
  destruct (IH (RemoveVotingPowerDistCache s h)) as (Hv & Hb & Hc).
  split_and!; [done|done|]. intros h' Hh'. apply not_elem_of_cons in Hh' as [Hne Hh'].
  rewrite Hc by done. simpl. by rewrite lookup_delete_ne.
Qed.

Lemma cache_remove_ne s h h' : h ≠ h' →
  GetVotingPowerDistCache (RemoveVotingPowerDistCache s h) h' = GetVotingPowerDistCache s h'.
Proof. intros Hne. unfold GetVotingPowerDistCache. simpl. by rewrite lookup_delete_ne. Qed.

Lemma reward_all_remove s env h hs :
  h ∉ hs → reward_all (RemoveVotingPowerDistCache s h) env hs = reward_all s env hs.
Proof.
  revert env. induction hs as [|h' hs IH]; intros env Hh; [done|].
  apply not_elem_of_cons in Hh as [Hne Hh]. unfold reward_all. cbn [fold_res].
  rewrite cache_remove_ne by done. apply bind_ext. intros env' _. by apply IH.
Qed.

Lemma heights_between_sorted lo hi : StronglySorted N.lt (heights_between lo hi).
Proof.
  apply (heights_between_ind (λ lo l, StronglySorted N.lt l ∧ Forall (λ h, lo ≤ h) l)).
  - intros. by split; [constructor|].
  - intros lo' l Hle [Hs Hf]. split.
    + constructor; [done|]. eapply Forall_impl; [done|]. simpl. lia.
    + constructor; [lia|]. eapply Forall_impl; [done|]. simpl. lia.
Qed.

(** When the loop returns: caches are deleted only below the next height to reward, which
    does not fall. *)
Lemma reward_fold_inv s env nx hs s' env' nx' :
  StronglySorted N.lt hs → Forall (λ h, nx ≤ h ∧ h + 1 < 2 ^ 64) hs →
  fold_res reward_step (s, env, nx) hs = Ok (s', env', nx') →
  set_cache s' (votingPowerDistCache s) = s ∧ nx ≤ nx' ∧ (nx' = nx ∨ ∃ h, h ∈ hs ∧ nx' = h + 1) ∧
  (∀ h, h < nx ∨ nx' ≤ h → votingPowerDistCache s' !! h = votingPowerDistCache s !! h) ∧
  (∀ h dc, votingPowerDistCache s' !! h = Some dc → votingPowerDistCache s !! h = Some dc).
Proof.
  revert s env nx. induction hs as [|h hs IH]; intros s env nx Hs Hb Hf; cbn [fold_res] in Hf.
  { injection Hf as <- _ <-. split_and!; [by destruct s|lia|by left|done|done]. }
  apply StronglySorted_cons in Hs as [Hlt Hs]. apply Forall_cons in Hb as [[Hle Hw] Hb].
  apply bind_Ok in Hf as ([[s1 env1] nx1] & H1 & Hf). unfold reward_step in H1.
  apply bind_Ok in H1 as (b & _ & H1). destruct (negb (ib_Finalized b)).
  - injection H1 as <- <- <-. destruct (IH _ _ _ Hs Hb Hf) as (F & L & X & C & D).
    split_and!; [done|done| |done|done]. destruct X as [|(h' & ? & ?)]; [by left|right].
    exists h'. split; [by right|done].
  - apply bind_Ok in H1 as ([s2 env2] & Hr & H1). injection H1 as <- <- <-.
    unfold rewardBTCStaking in Hr. destruct (GetVotingPowerDistCache s h); [|done].
    apply bind_Ok in Hr as (e & _ & Hr). injection Hr as <- _.
    rewrite u64_add_small in Hf by lia.
    assert (Forall (λ h', h + 1 ≤ h' ∧ h' + 1 < 2 ^ 64) hs) as Hb'.
    { rewrite Forall_forall in *. intros h' Hh'. specialize (Hlt h' Hh'). specialize (Hb h' Hh'). lia. }
    destruct (IH _ _ _ Hs Hb' Hf) as (F & L & X & C & D). simpl in F, C, D. split_and!.
    + clear -F. destruct s, s'. unfold set_cache, RemoveVotingPowerDistCache in *. simpl in *.
      injection F; intros; subst. reflexivity.
    + lia.
    + right. destruct X as [->|(h' & ? & ->)]; [exists h; split; [by left|done]|].
      exists h'. split; [by right|done].
    + intros h' Hh'. rewrite C by lia. rewrite lookup_delete_ne by lia. done.
    + intros h' dc Hdc%D. by apply lookup_delete_Some in Hdc as [_ ?].
Qed.

Lemma reward_fold s env nx hs :
  NoDup hs → (∀ h, h ∈ hs → is_Some (blocks s !! h) ∧ h + 1 < 2 ^ 64) →
  let fin := filter (λ h, is_final s h = true) hs in
  fold_res reward_step (s, env, nx) hs =
    (env' ← reward_all s env fin;
     mret (remove_caches s fin, env', from_option (λ h, h + 1) nx (last fin))).
Proof.
  revert s env nx. induction hs as [|h hs IH]; intros s env nx Hnd Hb; [done|].
  apply NoDup_cons in Hnd as [Hh Hnd]. cbn [fold_res reward_step].
  destruct (Hb h) as [[b Hbl] Hw]; [by left|].
  unfold GetBlock at 1. rewrite Hbl. cbn [of_option must mbind res_bind].
  assert (∀ h, h ∈ hs → is_Some (blocks s !! h) ∧ h + 1 < 2 ^ 64) as Hb'
    by (intros; apply Hb; by right).
  cbv zeta. rewrite filter_cons.
  assert (is_final s h = ib_Finalized b) as Hf by (unfold is_final; by rewrite Hbl).
  rewrite Hf. destruct (ib_Finalized b); simpl negb; cbv iota.
  2:{ rewrite decide_False by done. apply (IH s); done. }
  rewrite decide_True by done. unfold rewardBTCStaking.
  unfold reward_all. cbn [fold_res].
  destruct (GetVotingPowerDistCache s h) as [dc|]; [|done].
  destruct (RewardBTCStaking env h dc (GetVoters s h)) as [env'|e|]; [|done|done].
  cbn [mbind res_bind mret res_ret].
  rewrite (IH (RemoveVotingPowerDistCache s h)) by done.
  change (λ h0, is_final (RemoveVotingPowerDistCache s h) h0 = true) with (λ h0, is_final s h0 = true).
  fold (reward_all s env' (filter (λ h, is_final s h = true) hs)).
  rewrite reward_all_remove.
  2:{ rewrite list_elem_of_filter. tauto. }
  apply bind_ext. intros env'' _. unfold mret, res_ret. f_equal. f_equal.
  rewrite u64_add_small by lia. set (l := filter _ hs).
  by destruct l as [|x l' _] using rev_ind; [done|]; rewrite app_comm_cons, !last_snoc.
Qed.

Lemma filter_none {A} (P : A → Prop) `{∀ x, Decision (P x)} (l : list A) :
  (∀ x, x ∈ l → ¬ P x) → filter P l = [].
Proof.
  induction l as [|x l IH]; intros Hl; [done|].
  rewrite filter_cons_False by (apply Hl; by left). apply IH. intros y Hy. apply Hl. by right.
Qed.

Lemma heights_between_NoDup lo hi : NoDup (heights_between lo hi).
Proof. unfold heights_between. apply NoDup_fmap_2; [apply _|]. apply NoDup_seq. Qed.

(** Where the loop starts. *)
Definition reward_start s : res FinErr N :=
  if GetNextHeightToReward s =? 0 then GetBTCStakingActivatedHeight s
  else Ok (GetNextHeightToReward s).

Lemma reward_start_must s lo :
  reward_start s = Ok lo →
  (if GetNextHeightToReward s =? 0 then must (GetBTCStakingActivatedHeight s)
   else mret (GetNextHeightToReward s)) = Ok lo.
Proof. unfold reward_start. case_match; [|done]. by intros ->. Qed.

Lemma HandleRewarding_eq s env target maxBlocks lo :
  reward_start s = Ok lo → 0 < maxBlocks → lo + maxBlocks < 2 ^ 64 →
  let hi := N.min (lo + maxBlocks - 1) (u64_of_Z target) in
  let fin := final_heights s lo hi in
  (∀ h, lo ≤ h ≤ hi → is_Some (blocks s !! h)) →
  HandleRewarding s env target maxBlocks =
    (env' ← reward_all s env fin;
     mret (match last fin with
           | Some h => SetNextHeightToReward (remove_caches s fin) (h + 1)
           | None => s
           end, env')).
Proof.
  intros Hlo Hmax Hw hi fin Hb. unfold HandleRewarding.
  rewrite (reward_start_must s lo Hlo). cbn [mbind res_bind]. rewrite (u64_add_small lo) by lia. rewrite u64_sub_small by lia.
  fold hi. rewrite reward_fold; [|apply heights_between_NoDup|].
  2:{ intros h Hh%elem_of_heights_between. split; [by apply Hb|]. lia. }
  fold (final_heights s lo hi). fold fin.
  destruct (reward_all s env fin) as [env'|e|]; [|done|done].
  cbn [mbind res_bind mret res_ret].
  destruct (last fin) as [h|] eqn:Hl; simpl.
  - assert (lo ≤ h) as Hle.
    { apply last_Some in Hl as [l Hl].
      assert (h ∈ fin) as Hh by (rewrite Hl; set_solver).
      unfold fin, final_heights in Hh. rewrite list_elem_of_filter, elem_of_heights_between in Hh. lia. }
    destruct (N.eqb_spec (h + 1) lo); [lia|done].
  - rewrite N.eqb_refl. simpl. destruct fin as [|x l _] using rev_ind; [done|].
    by rewrite last_snoc in Hl.
Qed.

(** [HandleRewarding] calls the reward module exactly once, in order, for
    each final block from the next height to reward to the end of the window, with
    the voting power cache and the voters of that height; it deletes these caches
    and moves the next height to reward past all of them, so no later call rewards
    them again. *)
Theorem rewards_final_blocks_once s env target maxBlocks lo :
  reward_start s = Ok lo → 0 < maxBlocks → lo + maxBlocks < 2 ^ 64 →
  let hi := N.min (lo + maxBlocks - 1) (u64_of_Z target) in
  let fin := final_heights s lo hi in
  (∀ h, lo ≤ h ≤ hi → is_Some (blocks s !! h)) →
  HandleRewarding s env target maxBlocks =
    (env' ← reward_all s env fin;
     mret (match last fin with
           | Some h => SetNextHeightToReward (remove_caches s fin) (h + 1)
           | None => s
           end, env')).
Proof. apply HandleRewarding_eq. Qed.

(** When the blocks of a whole window had no voters, none of them is ever
    final, and [HandleRewarding] returns without moving its start, whatever height
    it is called for: the final blocks after the window are never rewarded. *)
Theorem rewarding_stalls s env target maxBlocks lo :
  reward_start s = Ok lo → 0 < maxBlocks → lo + maxBlocks < 2 ^ 64 →
  (∀ h, lo ≤ h < lo + maxBlocks → is_Some (blocks s !! h) ∧ is_final s h = false) →
  HandleRewarding s env target maxBlocks = Ok (s, env).
Proof.
  intros Hlo Hmax Hw Hb. unfold HandleRewarding.
  rewrite (reward_start_must s lo Hlo). cbn [mbind res_bind]. rewrite (u64_add_small lo) by lia. rewrite u64_sub_small by lia.
  set (hi := N.min _ _). rewrite reward_fold; [|apply heights_between_NoDup|].
  2:{ intros h Hh%elem_of_heights_between. split; [apply Hb; lia|]. lia. }
  assert (filter (λ h, is_final s h = true) (heights_between lo hi) = []) as ->.
  { apply filter_none. intros h Hh%elem_of_heights_between Hf.
    destruct (Hb h) as [_ Hf']; [lia|]. congruence. }
  simpl. by rewrite N.eqb_refl.
Qed.
End rewards.

(** ** Missed blocks *)

Definition bits_size (bits : gset N) : N := N.of_nat (size bits).

(** The number of bits set in the bitmap of a provider. *)
Definition missed_count (s : FinState) (pk : bytes) : N := msum bits_size (chunks_of s pk).

Lemma bits_size_add b (bits : gset N) : b ∉ bits → bits_size ({[b]} ∪ bits) = bits_size bits + 1.
Proof. intros Hb. unfold bits_size. rewrite size_union by set_solver. rewrite size_singleton. lia. Qed.

Lemma bits_size_remove b (bits : gset N) : b ∈ bits → bits_size (bits ∖ {[b]}) + 1 = bits_size bits.
Proof.
  intros Hb. unfold bits_size.
  assert (size bits = 1 + size (bits ∖ {[b]}))%nat as ->; [|lia].
  rewrite <- (size_singleton (C := gset N) b), <- size_union by set_solver. f_equal.
  apply set_eq. intros x. destruct (decide (x = b)); set_solver.
Qed.

(** How a flipped bit changes the count. *)
Lemma missed_count_set s pk i missed :
  GetMissedBlockBitmapValue s pk i = negb missed →
  Z.of_N (missed_count (SetMissedBlockBitmapValue s pk i missed) pk) =
    (Z.of_N (missed_count s pk) + (if missed then 1 else -1))%Z.
Proof.
  unfold GetMissedBlockBitmapValue, missed_count, SetMissedBlockBitmapValue.
  set (c := chunk_index i). set (b := bit_index i). intros Hprev.
  unfold chunks_of at 1. simpl. rewrite lookup_insert_eq. simpl.
  set (old := default ∅ (chunks_of s pk !! c)) in *.
  pose proof (msum_insert bits_size (chunks_of s pk) c
    (if missed then {[b]} ∪ old else old ∖ {[b]})) as Hs.
  assert (from_option bits_size 0 (chunks_of s pk !! c) = bits_size old) as Ho.
  { unfold old. by destruct (chunks_of s pk !! c). }
  rewrite Ho in Hs. destruct missed; simpl in Hprev.
  - apply bool_decide_eq_false in Hprev. pose proof (bits_size_add b old Hprev). lia.
  - apply bool_decide_eq_true in Hprev. pose proof (bits_size_remove b old Hprev). lia.
Qed.

Lemma missed_count_set_ne s pk pk' i missed :
  pk ≠ pk' → missed_count (SetMissedBlockBitmapValue s pk i missed) pk' = missed_count s pk'.
Proof.
  intros Hne. unfold missed_count, SetMissedBlockBitmapValue, chunks_of at 1. simpl.
  by rewrite lookup_insert_ne.
Qed.

Lemma missed_count_delete s pk pk' :
  missed_count (DeleteMissedBlockBitmap s pk) pk' =
    if bool_decide (pk = pk') then 0 else missed_count s pk'.
Proof.
  unfold missed_count, DeleteMissedBlockBitmap, chunks_of at 1. simpl. rewrite lookup_delete.
  repeat case_decide; simplify_eq; case_bool_decide; simplify_eq; try done.
Qed.

(** The counter of every provider is the number of its bits. *)
Definition counter_ok (s : FinState) : Prop := ∀ pk,
  match signingTracker s !! pk with
  | Some si => sg_MissedBlocksCounter si = Z.of_N (missed_count s pk)
  | None => missed_count s pk = 0
  end.

(** Writing a signing info that agrees with the bitmap. *)
Lemma counter_ok_set s s' pk si :
  counter_ok s → signingTracker s' = signingTracker s →
  (∀ pk', pk ≠ pk' → missed_count s' pk' = missed_count s pk') →
  sg_MissedBlocksCounter si = Z.of_N (missed_count s' pk) →
  counter_ok (set_tracker s' (<[pk := si]> (signingTracker s'))).
Proof.
  intros Hok Ht Hne Hsi pk'. simpl. rewrite lookup_insert. case_decide as Heq.
  - by subst pk'.
  - change (missed_count (set_tracker s' _) pk') with (missed_count s' pk').
    rewrite Hne, Ht by done. apply Hok.
Qed.

(** The change of the count when a height is judged. *)
Definition missed_change (s : FinState) (pk : bytes) (index : Z) (missed : bool) : Z :=
  match GetMissedBlockBitmapValue s pk index, missed with
  | false, true => 1
  | true, false => -1
  | _, _ => 0
  end.

Lemma UpdateSigningInfo_spec s pk missed height si :
  signingTracker s !! pk = Some si → SignedBlocksWindow (GetParams s) ≠ 0%Z →
  sg_MissedBlocksCounter si = Z.of_N (missed_count s pk) → missed_count s pk < 2 ^ 63 - 1 →
  (sg_StartHeight si ≤ height)%Z →
  let index := Z.rem (int64 (height - sg_StartHeight si)) (SignedBlocksWindow (GetParams s)) in
  let si' := mkSigningInfo (sg_StartHeight si)
               (Z.of_N (missed_count s pk) + missed_change s pk index missed) (sg_JailedUntil si) in
  ∃ updated s', UpdateSigningInfo s pk missed height = Ok (updated, si', s') ∧
    signingTracker s' = signingTracker s ∧ f_params s' = f_params s ∧
    (∀ pk', pk ≠ pk' → missed_count s' pk' = missed_count s pk') ∧
    sg_MissedBlocksCounter si' = Z.of_N (missed_count s' pk) ∧
    (updated = false → s' = s ∧ si' = si).
Proof.
  intros Hsi Hw Hc Hb Hh index si'. unfold UpdateSigningInfo. rewrite Hsi. cbn [of_option mbind res_bind].
  destruct (Z.ltb_spec height (sg_StartHeight si)); [lia|].
  destruct (Z.eqb_spec (SignedBlocksWindow (GetParams s)) 0); [done|]. fold index.
  unfold si', missed_change. rewrite Hc.
  assert (0 ≤ Z.of_N (missed_count s pk))%Z by lia.
  destruct (GetMissedBlockBitmapValue s pk index) eqn:Hp, missed; unfold mret, res_ret.
  - exists false, s. rewrite Z.add_0_r, <- Hc. by destruct si.
  - pose proof (missed_count_set s pk index false Hp) as Hm.
    rewrite int64_small by lia. do 2 eexists. split; [done|]. split_and!; [done|done| |by rewrite Hm|done].
    intros pk' ?. by apply missed_count_set_ne.
  - pose proof (missed_count_set s pk index true Hp) as Hm.
    rewrite int64_small by lia. do 2 eexists. split; [done|]. split_and!; [done|done| |by rewrite Hm|done].
    intros pk' ?. by apply missed_count_set_ne.
  - exists false, s. rewrite Z.add_0_r, <- Hc. by destruct si.
Qed.

Section liveness.
Context {LC : BTCLightClientKeeper} {B : Bech32} {H : FinalityHooks}.
Implicit Types (s : FinState) (bs : BSState) (lc : LightClient) (ctx : Epoching.HeaderInfo).

(** A provider that can still be punished. *)
Definition punishable bs (pk : bytes) (fp : FinalityProvider) : Prop :=
  finalityProviders bs !! pk = Some fp ∧ IsSlashed fp = false ∧ IsJailed fp = false.

Lemma liveness_lookup {A} bs pk fp (f : FinalityProvider → res FinErr A) :
  finalityProviders bs !! pk = Some fp →
  (map_err ErrBs (GetFinalityProvider bs pk) ≫= f) = f fp.
Proof. intros Hfp. unfold GetFinalityProvider. by rewrite Hfp. Qed.

(** The state of the staking module after a provider was jailed. *)
Definition after_jailing bs (fp : FinalityProvider) (btcTip : N) : BSState :=
  addPowerDistUpdateEvent (SetFinalityProvider bs (setJailed fp true)) btcTip (JailedFp (fp_BtcPk fp)).

Lemma jail_punishable bs lc pk fp tip :
  punishable bs pk fp → lc_GetTipInfo lc = Some tip →
  jailSluggishFinalityProvider bs lc pk = Ok (after_jailing bs fp (BtcLightClient.Height tip)).
Proof.
  intros (Hfp & Hs & Hj) Ht. unfold jailSluggishFinalityProvider, JailFinalityProvider.
  unfold GetFinalityProvider. rewrite Hfp. cbn [of_option mbind res_bind].
  by rewrite Hs, Hj, Ht.
Qed.

(** C32: When a height is judged for a provider that is neither slashed nor
    jailed, its count of missed blocks is updated for the window, and the provider
    is jailed exactly when its first window is over and it missed more blocks than
    the parameters allow: it is then marked and reported to the staking module,
    its count and bitmap are reset, and it stays in jail for the set duration.
    Otherwise the staking module is left alone. *)
Theorem jailed_iff_missed_too_many s bs lc ctx pk fp si tip missed height :
  punishable bs pk fp → lc_GetTipInfo lc = Some tip → signingTracker s !! pk = Some si →
  counter_ok s → missed_count s pk < 2 ^ 63 - 1 →
  let W := SignedBlocksWindow (GetParams s) in
  let allowed := (W - MinSignedPerWindowInt (GetParams s))%Z in
  (0 < W)%Z → (0 ≤ allowed < 2 ^ 63)%Z → (sg_StartHeight si ≤ height)%Z →
  (- 2 ^ 63 ≤ sg_StartHeight si + W < 2 ^ 63)%Z →
  let index := Z.rem (int64 (height - sg_StartHeight si)) W in
  let count := (Z.of_N (missed_count s pk) + missed_change s pk index missed)%Z in
  let jailed := bool_decide (sg_StartHeight si + W < height)%Z && bool_decide (allowed < count)%Z in
  ∃ s', HandleFinalityProviderLiveness s bs lc ctx pk missed height =
      Ok (s', if jailed then after_jailing bs fp (BtcLightClient.Height tip) else bs) ∧
    signingTracker s' !! pk = Some
      (if jailed then mkSigningInfo (sg_StartHeight si) 0 (Epoching.hi_Time ctx + JailDuration (GetParams s))
       else mkSigningInfo (sg_StartHeight si) count (sg_JailedUntil si)) ∧
    Z.of_N (missed_count s' pk) = (if jailed then 0 else count)%Z.
Proof.
  intros Hp Ht Hsi Hok Hb W allowed HW Ha Hh Hw index count jailed.
  pose proof (Hok pk) as Hc. rewrite Hsi in Hc.
  destruct (UpdateSigningInfo_spec s pk missed height si) as (upd & s1 & Hu & Htr & Hpar & _ & Hcnt & Hsame);
    [done|lia|done|done|done|].
  unfold HandleFinalityProviderLiveness. rewrite (liveness_lookup bs pk fp) by apply Hp.
  destruct Hp as (Hfp & Hs & Hj). rewrite Hs, Hj. simpl orb. cbv iota.
  fold W index in Hu, Hcnt, Hsame. fold count in Hu, Hcnt, Hsame. fold W. rewrite Hu.
  cbn [mbind res_bind sg_StartHeight sg_MissedBlocksCounter sg_JailedUntil]. simpl in Hcnt.
  rewrite int64_small by done. rewrite int64_small by (unfold allowed in Ha; lia). fold allowed.
  assert ((sg_StartHeight si + W <? height)%Z && (allowed <? count)%Z = jailed) as ->.
  { unfold jailed. f_equal; apply eq_iff_eq_true; rewrite Z.ltb_lt, bool_decide_eq_true; done. }
  destruct jailed.
  - rewrite (jail_punishable bs lc pk fp tip) by done. cbn [mbind res_bind].
    eexists. split; [done|]. simpl. rewrite lookup_insert_eq. split; [done|].
    change (missed_count (set_tracker ?x _) pk) with (missed_count x pk).
    by rewrite missed_count_delete, bool_decide_true.
  - destruct upd.
    + eexists. split; [done|]. simpl. by rewrite lookup_insert_eq.
    + destruct (Hsame eq_refl) as [-> Hsi']. eexists. split; [done|].
      rewrite Hsi, <- Hsi'. by rewrite Hcnt.
Qed.

(** The operations that write the signing info or the bitmap. *)
Inductive tracker_step : FinState → FinState → Prop :=
  | step_judge s bs lc ctx pk missed height s' bs' :
      missed_count s pk < 2 ^ 63 - 1 → SignedBlocksWindow (GetParams s) ≠ 0%Z →
      HandleFinalityProviderLiveness s bs lc ctx pk missed height = Ok (s', bs') → tracker_step s s'
  | step_activate s height pk : tracker_step s (HandleActivatedFinalityProvider s height pk)
  | step_resume s bs lc ctx voters params keys fpPkHex s' bs' keys' :
      resume_jail voters lc ctx params (s, bs, keys) fpPkHex = Ok (s', bs', keys') →
      tracker_step s s'.

Lemma judge_counter_ok s bs lc ctx pk missed height s' bs' :
  missed_count s pk < 2 ^ 63 - 1 → SignedBlocksWindow (GetParams s) ≠ 0%Z →
  HandleFinalityProviderLiveness s bs lc ctx pk missed height = Ok (s', bs') →
  counter_ok s → counter_ok s'.
Proof.
  intros Hb HW Hh Hok. unfold HandleFinalityProviderLiveness in Hh.
  apply bind_Ok in Hh as (fp & _ & Hh).
  destruct (IsSlashed fp || IsJailed fp); [by inv_ok|].
  apply bind_Ok in Hh as ([[upd si'] s1] & Hu & Hh).
  destruct (signingTracker s !! pk) as [si|] eqn:Hsi.
  2:{ unfold UpdateSigningInfo in Hu. by rewrite Hsi in Hu. }
  assert (counter_ok s1 ∧ signingTracker s1 = signingTracker s ∧ (upd = true → False) ∨
    signingTracker s1 = signingTracker s ∧
    (∀ pk', pk ≠ pk' → missed_count s1 pk' = missed_count s pk') ∧
    sg_MissedBlocksCounter si' = Z.of_N (missed_count s1 pk) ∧ (upd = false → s1 = s)) as Hcase.
  { destruct (Z.lt_ge_cases height (sg_StartHeight si)) as [Hlt|Hge].
    - left. unfold UpdateSigningInfo in Hu. rewrite Hsi in Hu. cbn [of_option mbind res_bind] in Hu.
      destruct (Z.ltb_spec height (sg_StartHeight si)); [|lia]. by inv_ok.
    - right. pose proof (Hok pk) as Hc. rewrite Hsi in Hc.
      destruct (UpdateSigningInfo_spec s pk missed height si) as (upd' & s1' & Hu' & ? & _ & ? & ? & Hs);
        [done..|]. rewrite Hu' in Hu. simplify_eq. split_and!; [done|done|done|].
      intros ->. by destruct Hs. }
  assert (∀ si'', sg_MissedBlocksCounter si'' = 0%Z →
    counter_ok (set_tracker (DeleteMissedBlockBitmap s1 pk)
      (<[pk := si'']> (signingTracker (DeleteMissedBlockBitmap s1 pk))))) as Hjail.
  { intros si'' H0. destruct Hcase as [(Hok1 & Htr & _)|(Htr & Hne & _)].
    - apply (counter_ok_set s1); [done|done| |].
      + intros pk' ?. by rewrite missed_count_delete, bool_decide_false.
      + by rewrite missed_count_delete, bool_decide_true.
    - apply (counter_ok_set s); [done|done| |].
      + intros pk' ?. rewrite missed_count_delete, bool_decide_false by done. by apply Hne.
      + by rewrite missed_count_delete, bool_decide_true. }
  destruct (_ && _).
  - apply bind_Ok in Hh as (bs1 & _ & Hh). inv_ok. by apply Hjail.
  - destruct upd; inv_ok.
    + destruct Hcase as [(_ & _ & [])|(Htr & Hne & Hc & _)]; [done|]. by apply (counter_ok_set s).
    + destruct Hcase as [(? & _)|(_ & _ & _ & Hs)]; [done|]. by rewrite Hs.
Qed.

Lemma resume_counter_ok s bs lc ctx voters params keys fpPkHex s' bs' keys' :
  resume_jail voters lc ctx params (s, bs, keys) fpPkHex = Ok (s', bs', keys') →
  counter_ok s → counter_ok s'.
Proof.
  intros Hr Hok. unfold resume_jail in Hr. apply bind_Ok in Hr as (pk & _ & Hr).
  apply require_bind_Ok in Hr as [_ Hr]. cbv zeta in Hr. apply require_bind_Ok in Hr as [_ Hr].
  apply bind_Ok in Hr as (fp & _ & Hr). destruct (IsSlashed fp || IsJailed fp); [by inv_ok|].
  apply bind_Ok in Hr as (bs1 & _ & Hr). apply bind_Ok in Hr as (si & _ & Hr). inv_ok.
  apply (counter_ok_set s (DeleteMissedBlockBitmap s pk)); [done|done| |].
  - intros pk' ?. by rewrite missed_count_delete, bool_decide_false.
  - by rewrite missed_count_delete, bool_decide_true.
Qed.

(** The counter of missed blocks in the signing info of a provider is at all
    times the number of bits set in its bitmap: judging a height, entering the
    active set and being jailed by a proposal all preserve this. *)
Theorem missed_counter_counts_bits s s' :
  rtc tracker_step s s' → counter_ok s → counter_ok s'.
Proof.
  induction 1 as [|s s1 s' Hstep _ IH]; [done|]. intros Hok. apply IH. destruct Hstep.
  - by eapply judge_counter_ok.
  - unfold HandleActivatedFinalityProvider. apply (counter_ok_set s); [done|done|done|].
    pose proof (Hok pk) as Hc. by destruct (signingTracker s !! pk); simpl in *; [|rewrite Hc].
  - by eapply resume_counter_ok.
Qed.
End liveness.
End FinalityLiveness.
