(* ===== verification/FinalityVotesSpec.v ===== *)
(** What the votes and the evidence stored by x/finality are worth
    ([FinalityVotes.AddFinalitySig], [Finality.ExtractBTCSK]).

    [vote_accepted] describes the outcome of an accepted vote.  Stored votes are
    verified votes for the canonical block, stored evidence holds a verified vote
    for another block of the same height; a provider with both is slashed, and the
    evidence gives away its key ([evidence_gives_key]). *)
From stdpp Require Import base numbers list sorting gmap strings.
From S2P Require Import Prelude KVStore Bytes Hex Secp256k1 Eots BtcLightClient Epoching.
From S2P Require Import BtcStaking Finality FinalityPower FinalityVotes.
From S2P Require Import FinalityPowerSpec FinalityTally FinalityRand.

Module FinalityVotesSpec.
Import BtcStaking Finality FinalityPower FinalityVotes FinalityPowerSpec FinalityTally FinalityRand.
Local Open Scope N_scope.
Implicit Types (s : FinState) (bs : BSState) (pk : bytes) (ctx : Epoching.HeaderInfo).

Section spec.
Context {LC : BTCLightClientKeeper} {B : Bech32} {H : FinalityHooks} {M : Merkle}
  {I : IncentiveKeeper} {C : Curve}.
Implicit Types (lc : LightClient) (env : Env).

(** ** The outcome of an accepted vote *)

(** What all accepted votes have passed. *)
Record vote_checked s bs (v : ValidFinalitySig) (b : IndexedBlock) (fp : FinalityProvider) : Prop := {
  vc_block : blocks s !! v_BlockHeight v = Some b;
  vc_fp : finalityProviders bs !! v_FpBtcPk v = Some fp;
  vc_slashed : IsSlashed fp = false;
  vc_jailed : IsJailed fp = false;
  vc_power : GetVotingPower s (v_FpBtcPk v) (v_BlockHeight v) ≠ 0;
  vc_commit : ∃ c, GetPubRandCommitForHeight s (v_FpBtcPk v) (v_BlockHeight v) = Ok c ∧
    VerifyFinalitySig v c = Ok tt;
  vc_hash : length (v_BlockAppHash v) = 32%nat;
  vc_sig : length (v_FinalitySig v) = 32%nat;
  vc_rand : length (v_PubRand v) = SchnorrPubRandLen;
}.

Definition fork_evidence (v : ValidFinalitySig) (b : IndexedBlock) (sig : option bytes) : Evidence :=
  mkEvidence (v_FpBtcPk v) (v_BlockHeight v) (v_PubRand v) (ib_AppHash b) (v_BlockAppHash v) sig
    (v_FinalitySig v).
Definition with_canonical (e : Evidence) (sig : bytes) : Evidence :=
  mkEvidence (ev_FpBtcPk e) (ev_BlockHeight e) (ev_PubRand e) (ev_CanonicalAppHash e)
    (ev_ForkAppHash e) (Some sig) (ev_ForkFinalitySig e).

(** The staking module after the highest voted height was noted. *)
Definition note_vote bs (fp : FinalityProvider) (height : N) : BSState :=
  if HighestVotedHeight fp <? u32 height
  then SetFinalityProvider bs (setHighestVotedHeight fp (u32 height)) else bs.

Inductive vote_accepted s bs lc ctx (v : ValidFinalitySig) : FinState → BSState → Prop :=
  | accepted_fork b fp :
      vote_checked s bs v b fp → ib_AppHash b ≠ v_BlockAppHash v →
      (∀ sig, GetSig s ctx (v_BlockHeight v) (v_FpBtcPk v) ≠ Ok sig) →
      vote_accepted s bs lc ctx v
        (SetEvidence (SetPubRand s (v_FpBtcPk v) (v_BlockHeight v) (v_PubRand v))
           (fork_evidence v b None)) bs
  | accepted_double_fork b fp sig bs' :
      vote_checked s bs v b fp → ib_AppHash b ≠ v_BlockAppHash v →
      GetSig s ctx (v_BlockHeight v) (v_FpBtcPk v) = Ok sig →
      slashFinalityProvider bs lc ctx (v_FpBtcPk v) = Ok bs' →
      vote_accepted s bs lc ctx v
        (SetEvidence (SetPubRand s (v_FpBtcPk v) (v_BlockHeight v) (v_PubRand v))
           (fork_evidence v b (Some sig))) bs'
  | accepted_canonical b fp :
      vote_checked s bs v b fp → ib_AppHash b = v_BlockAppHash v →
      evidences_of s (v_FpBtcPk v) !! v_BlockHeight v = None →
      vote_accepted s bs lc ctx v
        (SetSig (SetPubRand s (v_FpBtcPk v) (v_BlockHeight v) (v_PubRand v))
           (v_BlockHeight v) (v_FpBtcPk v) (v_FinalitySig v)) (note_vote bs fp (v_BlockHeight v))
  | accepted_double_canonical b fp e bs' :
      vote_checked s bs v b fp → ib_AppHash b = v_BlockAppHash v →
      evidences_of s (v_FpBtcPk v) !! v_BlockHeight v = Some e →
      slashFinalityProvider (note_vote bs fp (v_BlockHeight v)) lc ctx (v_FpBtcPk v) = Ok bs' →
      vote_accepted s bs lc ctx v
        (SetEvidence (SetSig (SetPubRand s (v_FpBtcPk v) (v_BlockHeight v) (v_PubRand v))
           (v_BlockHeight v) (v_FpBtcPk v) (v_FinalitySig v)) (with_canonical e (v_FinalitySig v))) bs'.

Lemma ValidateBasic_lengths (req : MsgAddFinalitySig) v :
  MsgAddFinalitySig_ValidateBasic req = Ok v →
  length (v_BlockAppHash v) = 32%nat ∧ length (v_FinalitySig v) = 32%nat ∧
  length (v_PubRand v) = SchnorrPubRandLen.
Proof.
  intros Hv. unfold MsgAddFinalitySig_ValidateBasic in Hv.
  apply bind_Ok in Hv as (_ & _ & Hv). apply bind_Ok in Hv as (pk & _ & Hv).
  apply require_bind_Ok in Hv as [_ Hv]. apply bind_Ok in Hv as (pr & _ & Hv).
  apply require_bind_Ok in Hv as [Hr Hv]. apply bind_Ok in Hv as (p & _ & Hv).
  apply bind_Ok in Hv as (sig & _ & Hv). apply require_bind_Ok in Hv as [Hs Hv].
  apply require_bind_Ok in Hv as [Hh Hv]. inv_ok. cbn [v_BlockAppHash v_FinalitySig v_PubRand].
  by apply Nat.eqb_eq in Hr, Hs, Hh.
Qed.

Lemma note_vote_ok bs fp pk height :
  keyed bs → finalityProviders bs !! pk = Some fp →
  (if HighestVotedHeight fp <? u32 height
   then map_err ErrBs (UpdateFinalityProvider bs (setHighestVotedHeight fp (u32 height)))
   else mret bs) = Ok (note_vote bs fp height).
Proof.
  intros Hk Hfp. unfold note_vote. case_match; [|done]. unfold UpdateFinalityProvider, HasFinalityProvider.
  simpl. by rewrite bool_decide_true by (rewrite (Hk pk fp Hfp); by exists fp).
Qed.

Lemma AddFinalitySig_accepted s bs env lc ev ctx req s' bs' env' :
  keyed bs → AddFinalitySig s bs env lc ev ctx req = Ok (s', bs', env') →
  ∃ v, MsgAddFinalitySig_ValidateBasic req = Ok v ∧ vote_accepted s bs lc ctx v s' bs'.
Proof.
  intros Hk Ha. unfold AddFinalitySig in Ha. apply bind_Ok in Ha as (v & Hv & Ha).
  exists v. split; [done|]. cbv zeta in Ha.
  apply require_bind_Ok in Ha as [_ Ha]. apply bind_Ok in Ha as (b & Hb & Ha).
  apply of_option_Ok in Hb. apply require_bind_Ok in Ha as [_ Ha].
  apply require_bind_Ok in Ha as [_ Ha]. apply bind_Ok in Ha as (fp & Hfp & Ha).
  apply map_err_Ok, of_option_Ok in Hfp.
  apply require_bind_Ok in Ha as [Hsl Ha]. apply negb_true_iff in Hsl.
  apply require_bind_Ok in Ha as [Hj Ha]. apply negb_true_iff in Hj.
  apply require_bind_Ok in Ha as [Hp Ha]. apply negb_true_iff, N.eqb_neq in Hp.
  apply require_bind_Ok in Ha as [_ Ha]. apply bind_Ok in Ha as (c & Hc & Ha).
  unfold GetTimestampedPubRandCommitForHeight in Hc. apply bind_Ok in Hc as (c' & Hc & Hc').
  assert (c' = c) as ->. { revert Hc'. cbv zeta. unfold mret, res_ret. destruct (_ =? 0); [done|].
    destruct (GetLastFinalizedEpoch ev <? pr_EpochNum c'); [by intros [=]|]. by intros [= ->]. }
  apply bind_Ok in Ha as ([] & Hver & Ha).
  apply ValidateBasic_lengths in Hv as (Hh & Hs & Hrl).
  assert (vote_checked s bs v b fp) as Hchk by (split; eauto).
  change (GetSig (SetPubRand s _ _ _) ctx (v_BlockHeight v) (v_FpBtcPk v))
    with (GetSig s ctx (v_BlockHeight v) (v_FpBtcPk v)) in Ha.
  case_bool_decide as Heq; simpl negb in Ha; cbv iota in Ha.
  - rewrite (note_vote_ok bs fp (v_FpBtcPk v)) in Ha by done. cbn [mbind res_bind] in Ha.
    unfold HasEvidence in Ha. cbn [evidences_of evidences SetSig SetPubRand set_votes set_pubRands] in Ha.
    change (evidences_of (SetSig _ _ _ _) (v_FpBtcPk v)) with (evidences_of s (v_FpBtcPk v)) in Ha.
    case_bool_decide as He.
    + apply bind_Ok in Ha as (e & Hge & Ha). apply bind_Ok in Ha as (bs1 & Hsl' & Ha). inv_ok.
      assert (evidences_of s (v_FpBtcPk v) !! v_BlockHeight v = Some e) as Hev.
      { revert Hge. unfold must, GetEvidence. destruct (ctx_height ctx <? v_BlockHeight v); [by intros [=]|].
        change (evidences_of (SetSig _ _ _ _) (v_FpBtcPk v)) with (evidences_of s (v_FpBtcPk v)).
        destruct (evidences_of s (v_FpBtcPk v) !! v_BlockHeight v); simpl; by intros [= ->]. }
      by eapply accepted_double_canonical.
    + inv_ok. eapply accepted_canonical; [done|done|]. by apply eq_None_not_Some.
  - destruct (GetSig s ctx (v_BlockHeight v) (v_FpBtcPk v)) as [sig|e|] eqn:Hg.
    + apply bind_Ok in Ha as (bs1 & Hsl' & Ha). inv_ok. by eapply accepted_double_fork.
    + inv_ok. eapply accepted_fork; [done|done|]. by rewrite Hg.
    + inv_ok. eapply accepted_fork; [done|done|]. by rewrite Hg.
Qed.

(** ** The finality providers of the staking module *)

Definition slashed bs pk : Prop :=
  ∃ fp, finalityProviders bs !! pk = Some fp ∧ IsSlashed fp = true.

(** Providers stay registered under their keys, and slashed once they are. *)
Definition bs_evolves bs bs' : Prop :=
  keyed bs → keyed bs' ∧ ∀ pk fp, finalityProviders bs !! pk = Some fp →
    ∃ fp', finalityProviders bs' !! pk = Some fp' ∧ (IsSlashed fp = true → IsSlashed fp' = true).

#[global] Instance bs_evolves_preorder : PreOrder bs_evolves.
Proof.
  split.
  - intros bs Hk. split; [done|]. eauto.
  - intros b1 b2 b3 H12 H23 Hk. destruct (H12 Hk) as [Hk2 Hf2]. destruct (H23 Hk2) as [Hk3 Hf3].
    split; [done|]. intros pk fp Hfp. destruct (Hf2 pk fp Hfp) as (fp2 & Hfp2 & ?).
    destruct (Hf3 pk fp2 Hfp2) as (fp3 & ? & ?). eauto.
Qed.

Lemma set_fp_evolves bs pk fp fp' :
  finalityProviders bs !! pk = Some fp → fp_BtcPk fp' = fp_BtcPk fp →
  (IsSlashed fp = true → IsSlashed fp' = true) → bs_evolves bs (SetFinalityProvider bs fp').
Proof.
  intros Hfp Hpk Hsl Hk. rewrite (Hk pk fp Hfp) in Hpk. split.
  - intros pk' fp''. simpl. rewrite Hpk, lookup_insert_Some.
    intros [[<- <-]|[_ Hf]]; [done|by apply Hk].
  - intros pk' fp'' Hfp'. simpl. rewrite Hpk, lookup_insert. case_decide as Heq; [|eauto].
    subst pk'. rewrite Hfp in Hfp'. injection Hfp' as <-. eauto.
Qed.

Lemma add_event_evolves bs h e : bs_evolves bs (addPowerDistUpdateEvent bs h e).
Proof. intros Hk. split; [done|]. eauto. Qed.

Lemma note_vote_evolves bs pk fp h :
  finalityProviders bs !! pk = Some fp → bs_evolves bs (note_vote bs fp h).
Proof. intros Hfp. unfold note_vote. case_match; [|reflexivity]. by eapply set_fp_evolves. Qed.

Lemma slash_evolves bs lc ctx pk bs' :
  keyed bs → 0 < ctx_height ctx → slashFinalityProvider bs lc ctx pk = Ok bs' →
  bs_evolves bs bs' ∧ slashed bs' pk.
Proof.
  intros Hk Hc Hs. unfold slashFinalityProvider, SlashFinalityProvider in Hs.
  apply must_Ok, map_err_Ok in Hs. apply bind_Ok in Hs as (fp & Hfp & Hs).
  apply of_option_Ok in Hfp. apply require_bind_Ok in Hs as [Hsl Hs].
  apply bind_Ok in Hs as (tip & _ & Hs). inv_ok.
  pose proof (Hk pk fp Hfp) as Hpk. split.
  - etrans; [|apply add_event_evolves]. eapply set_fp_evolves; [done|done|].
    intros _. by apply N.ltb_lt.
  - eexists. simpl. rewrite Hpk, lookup_insert_eq. split; [done|]. by apply N.ltb_lt.
Qed.

(** ** Stored votes and evidence *)

Definition vote_ok s (h : N) pk (sig : bytes) : Prop :=
  ∃ b r, blocks s !! h = Some b ∧ length (ib_AppHash b) = 32%nat ∧
    valid_vote s pk h (ib_AppHash b) r sig.

Record evidence_ok s pk (h : N) (e : Evidence) : Prop := {
  eo_pk : ev_FpBtcPk e = pk;
  eo_height : ev_BlockHeight e = h;
  eo_fork_length : length (ev_ForkAppHash e) = 32%nat;
  eo_sig_length : length (ev_ForkFinalitySig e) = 32%nat;
  eo_block : ∃ b, blocks s !! h = Some b ∧ ev_CanonicalAppHash e = ib_AppHash b ∧
    ev_ForkAppHash e ≠ ib_AppHash b;
  eo_fork : valid_vote s pk h (ev_ForkAppHash e) (ev_PubRand e) (ev_ForkFinalitySig e);
  eo_canonical : ∀ sig, ev_CanonicalFinalitySig e = Some sig → vote_ok s h pk sig;
}.

Record votes_ok s bs : Prop := {
  vo_vote : ∀ h pk sig, votes_at s h !! pk = Some sig → vote_ok s h pk sig;
  vo_evidence : ∀ pk h e, evidences_of s pk !! h = Some e → evidence_ok s pk h e;
  vo_double : ∀ pk h e, evidences_of s pk !! h = Some e →
    is_Some (votes_at s h !! pk) ∨ is_Some (ev_CanonicalFinalitySig e) → slashed bs pk;
}.

(** Blocks keep their hash, commitments stay. *)
Definition fin_extends s s' : Prop :=
  (∀ h b, blocks s !! h = Some b → ∃ b', blocks s' !! h = Some b' ∧ ib_AppHash b' = ib_AppHash b) ∧
  (∀ pk h c, covers s pk h c → covers s' pk h c).

Lemma valid_vote_extends s s' pk h a r sig :
  fin_extends s s' → valid_vote s pk h a r sig → valid_vote s' pk h a r sig.
Proof.
  intros [_ Hc] (Hl & c & P & p & Hcov & Hrest). split; [done|]. exists c, P, p. split; [by apply Hc|done].
Qed.

Lemma vote_ok_extends s s' h pk sig : fin_extends s s' → vote_ok s h pk sig → vote_ok s' h pk sig.
Proof.
  intros He (b & r & Hb & Hl & Hv). destruct (proj1 He h b Hb) as (b' & Hb' & Ha).
  exists b', r. rewrite Ha. split_and!; [done|done|]. by eapply valid_vote_extends.
Qed.

Lemma evidence_ok_extends s s' pk h e :
  fin_extends s s' → evidence_ok s pk h e → evidence_ok s' pk h e.
Proof.
  intros He [H1 H2 H3 H4 (b & Hb & Hc & Hf) H6 H7]. split; try done.
  - destruct (proj1 He h b Hb) as (b' & Hb' & Ha). exists b'. by rewrite Ha.
  - by eapply valid_vote_extends.
  - intros sig Hsig. by eapply vote_ok_extends, H7.
Qed.

Lemma slashed_evolves bs bs' pk : keyed bs → bs_evolves bs bs' → slashed bs pk → slashed bs' pk.
Proof.
  intros Hk He (fp & Hfp & Hs). destruct (He Hk) as [_ Hf].
  destruct (Hf pk fp Hfp) as (fp' & ? & Hs'). exists fp'. auto.
Qed.

(** Steps that write neither votes nor evidence. *)
Lemma votes_ok_extends s s' bs bs' :
  keyed bs → fin_extends s s' → bs_evolves bs bs' → votes s' = votes s → evidences s' = evidences s →
  votes_ok s bs → votes_ok s' bs'.
Proof.
  intros Hk Hx He Hv Hev [H1 H2 H3].
  split; unfold votes_at, evidences_of in *; rewrite ?Hv, ?Hev.
  - intros h pk sig Hs. by eapply vote_ok_extends, H1.
  - intros pk h e Hs. by eapply evidence_ok_extends, H2.
  - intros pk h e Hs Hd. by eapply slashed_evolves, H3.
Qed.

Lemma fin_extends_same s s' :
  blocks s' = blocks s → pubRandCommits s' = pubRandCommits s → fin_extends s s'.
Proof.
  intros Hb Hc. split.
  - intros h b ?. rewrite Hb. eauto.
  - intros pk h c. unfold covers, commits_of. by rewrite Hc.
Qed.

Lemma votes_at_SetSig s h pk sig h' pk' :
  votes_at (SetSig s h pk sig) h' !! pk' =
    if bool_decide (h = h' ∧ pk = pk') then Some sig else votes_at s h' !! pk'.
Proof.
  unfold SetSig, votes_at at 1. simpl. rewrite lookup_insert. case_decide as Hh.
  - subst h'. simpl. rewrite lookup_insert. case_decide; case_bool_decide; naive_solver.
  - by rewrite bool_decide_false by tauto.
Qed.

Lemma evidences_of_SetEvidence s e pk h :
  evidences_of (SetEvidence s e) pk !! h =
    if bool_decide (ev_FpBtcPk e = pk ∧ ev_BlockHeight e = h) then Some e else evidences_of s pk !! h.
Proof.
  unfold SetEvidence, evidences_of at 1. simpl. rewrite lookup_insert. case_decide as Hh.
  - subst pk. simpl. rewrite lookup_insert. case_decide; case_bool_decide; naive_solver.
  - by rewrite bool_decide_false by tauto.
Qed.

(** Writing a vote or an evidence of a provider that is slashed if it has both. *)
Lemma votes_ok_SetSig s bs h pk sig :
  votes_ok s bs → vote_ok s h pk sig →
  (is_Some (evidences_of s pk !! h) → slashed bs pk) → votes_ok (SetSig s h pk sig) bs.
Proof.
  intros [H1 H2 H3] Hv Hd.
  assert (fin_extends s (SetSig s h pk sig)) as Hx by by apply fin_extends_same.
  split.
  - intros h' pk' sig'. rewrite votes_at_SetSig. case_bool_decide as Heq.
    + destruct Heq as [<- <-]. intros [= <-]. by eapply vote_ok_extends.
    + intros Hs. by eapply vote_ok_extends, H1.
  - intros pk' h' e Hs. by eapply evidence_ok_extends, H2.
  - intros pk' h' e Hs. rewrite votes_at_SetSig. case_bool_decide as Heq.
    + destruct Heq as [<- <-]. intros _. apply Hd. by exists e.
    + by apply H3.
Qed.

Lemma votes_ok_SetEvidence s bs e :
  votes_ok s bs → evidence_ok s (ev_FpBtcPk e) (ev_BlockHeight e) e →
  (is_Some (votes_at s (ev_BlockHeight e) !! ev_FpBtcPk e) ∨ is_Some (ev_CanonicalFinalitySig e) →
   slashed bs (ev_FpBtcPk e)) →
  votes_ok (SetEvidence s e) bs.
Proof.
  intros [H1 H2 H3] Hv Hd.
  assert (fin_extends s (SetEvidence s e)) as Hx by by apply fin_extends_same.
  split.
  - intros h' pk' sig' Hs. by eapply vote_ok_extends, H1.
  - intros pk' h' e'. rewrite evidences_of_SetEvidence. case_bool_decide as Heq.
    + destruct Heq as [<- <-]. intros [= <-]. by eapply evidence_ok_extends.
    + intros Hs. by eapply evidence_ok_extends, H2.
  - intros pk' h' e'. rewrite evidences_of_SetEvidence. case_bool_decide as Heq.
    + destruct Heq as [<- <-]. by intros [= <-].
    + intros Hs. by eapply H3.
Qed.

Lemma checked_valid s bs v b fp :
  commits_ok s → vote_checked s bs v b fp →
  valid_vote s (v_FpBtcPk v) (v_BlockHeight v) (v_BlockAppHash v) (v_PubRand v) (v_FinalitySig v).
Proof.
  intros Hok Hchk. destruct (vc_commit _ _ _ _ _ Hchk) as (c & Hc & Hv).
  eapply VerifyFinalitySig_valid; [|apply Hchk|done].
  pose proof (lookup_correct s Hok (v_FpBtcPk v) (v_BlockHeight v)) as Hl. rewrite Hc in Hl. apply Hl.
Qed.

Lemma GetSig_votes s ctx h pk :
  h ≤ ctx_height ctx → GetSig s ctx h pk = of_option ErrVoteNotFound (votes_at s h !! pk).
Proof. intros Hh. unfold GetSig. destruct (N.ltb_spec (ctx_height ctx) h); [lia|done]. Qed.

Lemma vote_accepted_evolves s bs lc ctx v s' bs' :
  keyed bs → 0 < ctx_height ctx → vote_accepted s bs lc ctx v s' bs' → bs_evolves bs bs'.
Proof.
  intros Hk Hc [b fp Hchk ? ?|b fp sig bs1 Hchk ? ? Hs|b fp Hchk ? ?|b fp e bs1 Hchk ? ? Hs].
  - reflexivity.
  - by apply slash_evolves in Hs as [? _].
  - eapply note_vote_evolves, vc_fp, Hchk.
  - pose proof (note_vote_evolves bs (v_FpBtcPk v) fp (v_BlockHeight v) (vc_fp _ _ _ _ _ Hchk)) as He.
    etrans; [exact He|]. apply slash_evolves in Hs as [? _]; [done| |done]. by apply He.
Qed.

Lemma fork_evidence_ok s bs v b fp sig :
  commits_ok s → votes_ok s bs → vote_checked s bs v b fp → ib_AppHash b ≠ v_BlockAppHash v →
  (∀ x, sig = Some x → votes_at s (v_BlockHeight v) !! v_FpBtcPk v = Some x) →
  evidence_ok s (v_FpBtcPk v) (v_BlockHeight v) (fork_evidence v b sig).
Proof.
  intros Hok Hvo Hchk Hne Hsig. split; simpl.
  - done.
  - done.
  - by apply Hchk.
  - by apply Hchk.
  - exists b. split_and!; [by apply Hchk|done|done].
  - by eapply checked_valid.
  - intros x Hx. by eapply vo_vote, Hsig.
Qed.

(** An accepted vote keeps the stored votes and evidence good. *)
Lemma vote_accepted_ok s bs lc ctx v s' bs' :
  keyed bs → 0 < ctx_height ctx → (∀ h, is_Some (blocks s !! h) → h ≤ ctx_height ctx) →
  commits_ok s → votes_ok s bs → vote_accepted s bs lc ctx v s' bs' → votes_ok s' bs'.
Proof.
  intros Hk Hc Hcur Hok Hvo Hacc.
  pose proof (vote_accepted_evolves _ _ _ _ _ _ _ Hk Hc Hacc) as Hev.
  set (s1 := SetPubRand s (v_FpBtcPk v) (v_BlockHeight v) (v_PubRand v)).
  assert (fin_extends s s1) as Hx by by apply fin_extends_same.
  assert (votes_ok s1 bs') as Hvo1 by by apply (votes_ok_extends s s1 bs bs').
  assert (∀ b fp, vote_checked s bs v b fp → ∀ sig,
    GetSig s ctx (v_BlockHeight v) (v_FpBtcPk v) = Ok sig ↔
    votes_at s (v_BlockHeight v) !! v_FpBtcPk v = Some sig) as Hget.
  { intros b fp Hchk sig. rewrite GetSig_votes, of_option_Ok; [done|].
    apply Hcur. exists b. apply Hchk. }
  assert (∀ b fp, vote_checked s bs v b fp → ib_AppHash b = v_BlockAppHash v →
    vote_ok s1 (v_BlockHeight v) (v_FpBtcPk v) (v_FinalitySig v)) as Hcan.
  { intros b fp Hchk Ha. exists b, (v_PubRand v).
    split_and!; [by apply Hchk|rewrite Ha; by apply Hchk|].
    rewrite Ha. by eapply (valid_vote_extends s), checked_valid. }
  destruct Hacc as [b fp Hchk Hne Hno|b fp sig bs1 Hchk Hne Hg Hs|b fp Hchk Ha Hno|b fp e bs1 Hchk Ha He Hs].
  - apply votes_ok_SetEvidence; [done| |].
    + eapply evidence_ok_extends; [exact Hx|]. by eapply fork_evidence_ok.
    + intros [[sig Hsig]|[? [=]]]. exfalso. apply (Hno sig). by eapply Hget.
  - apply votes_ok_SetEvidence; [done| |].
    + eapply evidence_ok_extends; [exact Hx|]. eapply fork_evidence_ok; [done..|].
      intros x [= <-]. by eapply Hget.
    + intros _. by apply slash_evolves in Hs as [_ ?].
  - apply votes_ok_SetSig; [done|by eapply Hcan|].
    intros [e He]. change (evidences_of s (v_FpBtcPk v) !! v_BlockHeight v = Some e) in He.
    congruence.
  - assert (slashed bs1 (v_FpBtcPk v)) as Hsl.
    { apply slash_evolves in Hs as [_ ?]; [done| |done].
      by apply (note_vote_evolves bs (v_FpBtcPk v) fp (v_BlockHeight v)); [apply Hchk|]. }
    assert (evidence_ok s (v_FpBtcPk v) (v_BlockHeight v) e) as Heok by by eapply vo_evidence.
    assert (votes_ok (SetSig s1 (v_BlockHeight v) (v_FpBtcPk v) (v_FinalitySig v)) bs1) as Hvo2.
    { apply votes_ok_SetSig; [done|by eapply Hcan|done]. }
    destruct Heok as [Hp Hh ? ? ? ? ?]. simpl.
    apply votes_ok_SetEvidence; [done| |by rewrite <- Hp in Hsl].
    simpl. rewrite Hp, Hh. eapply (evidence_ok_extends s); [by apply fin_extends_same|].
    split; simpl; try done. intros sig [= <-]. eapply (vote_ok_extends s1 s); [by apply fin_extends_same|].
    by eapply Hcan.
Qed.

(** ** The key of a double voter *)

(** The two ways in which the key of a double voter can be missed, both about the two
    votes of the evidence: their messages have the same challenge, or the first vote was
    made under another randomness than the second and both open the commitment at the
    height of the block. *)
Definition same_challenge (e : Evidence) : Prop :=
  ev_CanonicalAppHash e ≠ ev_ForkAppHash e ∧
  ∃ P, ParsePubKey (ev_FpBtcPk e) = Some P ∧
    let c hash := Eots.msg_challenge P (ToFieldValNormalized (ev_PubRand e))
                    (msgToSignForVote (ev_BlockHeight e) hash) in
    (c (ev_CanonicalAppHash e)).1 = (c (ev_ForkAppHash e)).1.
Definition two_openings s (e : Evidence) (sig : bytes) : Prop :=
  ∃ r, opened_twice s (ev_FpBtcPk e) (ev_BlockHeight e) (ev_CanonicalAppHash e) r sig (ev_PubRand e).

Context {CL : CurveLaws C} {ML : MerkleLaws M}.

Lemma SetBytes_range b : (0 ≤ (SetBytes b).1 < order)%Z.
Proof. unfold SetBytes. simpl. apply mod_range. Qed.

(** The evidence of a double vote yields the private key. *)
Lemma evidence_gives_key s pk h e sig :
  commits_ok s → evidence_ok s pk h e → ev_CanonicalFinalitySig e = Some sig →
  (∃ P sk, ParsePubKey pk = Some P ∧ ExtractBTCSK e = Ok sk ∧ Eots.PubGen sk = P) ∨
  same_challenge e ∨ two_openings s e sig.
Proof.
  intros Hok [Hp Hh Hfl Hsl (b & Hb & Hca & Hne) Hfork Hcan] Hsig.
  destruct (Hcan sig Hsig) as (b' & r & Hb' & Hl & Hv). rewrite Hb in Hb'. injection Hb' as <-.
  destruct (valid_votes_same_rand s pk h _ _ _ _ _ _ Hok Hv Hfork) as [Hrr|Hopen].
  2:{ right; right. exists r. by rewrite Hp, Hh, Hca. }
  destruct Hv as (_ & c1 & P & p1 & _ & HP & _ & _ & _ & Hv1).
  destruct Hfork as (_ & c2 & P' & p2 & _ & HP' & _ & _ & _ & Hv2). rewrite Hrr in Hv1.
  rewrite HP in HP'. injection HP' as <-.
  set (rr := ToFieldValNormalized (ev_PubRand e)) in *.
  set (m1 := msgToSignForVote h (ib_AppHash b)) in *. set (m2 := msgToSignForVote h (ev_ForkAppHash e)) in *.
  destruct (decide ((Eots.msg_challenge P rr m1).1 = (Eots.msg_challenge P rr m2).1)) as [Heq|Hd].
  { right; left. split; [by rewrite Hca|]. exists P. rewrite Hp, Hh, Hca. by split. }
  left. assert (P ≠ Infinity) as HPi by apply (proj1 (ParsePubKey_Some _ _) HP).
  destruct (Eots.Extract_two_signatures P rr m1 (ToModNScalar sig) m2 (ToModNScalar (ev_ForkFinalitySig e)))
    as (sk & Hx & Hsk & _); [done|apply SetBytes_range|apply SetBytes_range|done|done|done|].
  exists P, sk. split_and!; [done| |done].
  unfold ExtractBTCSK, IsSlashable, Evidence_ValidateBasic.
  rewrite Hp, Hca, Hsig, HP, Hl, Hfl, Hsl, Hh. cbn [of_option mbind res_bind].
  rewrite !bool_decide_true by eauto. cbn [andb Nat.eqb SchnorrEOTSSigLen].
  cbn [require mbind res_bind default]. unfold id. fold rr m1 m2. by rewrite Hx.
Qed.
End spec.
End FinalityVotesSpec.
