(* ===== verification/FinalityBegin.v ===== *)
(** The beginning of a block of x/finality ([FinalityPower.BeginBlocker]), as far as the
    invariant of the module cares: which tables, caches and signing infos it writes
    ([began]), and when voting started. *)
From stdpp Require Import base numbers list sorting gmap strings.
From S2P Require Import Prelude KVStore Bytes Hex Secp256k1 Eots BtcLightClient Epoching.
From S2P Require Import BtcStaking Finality FinalityPower FinalityVotes.
From S2P Require Import FinalityPowerSpec FinalityTally.

Module FinalityBegin.
Import BtcStaking Finality FinalityPower FinalityVotes FinalityPowerSpec FinalityTally.
Local Open Scope N_scope.
Implicit Types (s : FinState) (bs : BSState) (pk : bytes) (ctx : Epoching.HeaderInfo).

(** ** The beginning of a block *)

Lemma reconcile_members fps newFps ps newFps' ps' fp :
  fold_res reconcileFp (newFps, ps) fps = Ok (newFps', ps') → fp ∈ newFps' →
  di_BtcPk fp ∈ di_BtcPk <$> newFps ++ fps.
Proof.
  revert newFps ps. induction fps as [|x fps IH]; intros newFps ps Hf Hin; simpl in Hf.
  - inv_ok. rewrite app_nil_r. by apply list_elem_of_fmap_2.
  - apply bind_Ok in Hf as ([newFps1 ps1] & H1 & Hf). specialize (IH _ _ Hf Hin).
    rewrite fmap_app, elem_of_app in IH. rewrite fmap_app, fmap_cons, elem_of_app, elem_of_cons.
    enough (∀ y, y ∈ di_BtcPk <$> newFps1 → y ∈ di_BtcPk <$> newFps ∨ y = di_BtcPk x) as Hsub
      by (destruct IH as [IH%Hsub|]; tauto).
    unfold reconcileFp in H1. cbv zeta in H1. intros y Hy.
    destruct (FPStatesByBtcPk ps !! di_BtcPk x) as [[]|]; [inv_ok; by left|..];
      apply bind_Ok in H1 as (fp2 & H2 & H1); apply (proj1 (must_Ok _ _)) in H2;
      (assert (di_BtcPk fp2 = di_BtcPk x) as Hp by
        (unfold ChangeDeltaSats, RemoveBondedSats in H2; repeat case_match; by inv_ok));
      inv_ok; revert Hy; (case_match; [|tauto]);
      rewrite fmap_app, elem_of_app; cbn [fmap list_fmap]; rewrite list_elem_of_singleton, Hp; tauto.
Qed.

Lemma reconcile_cache fps newFps ps newFps' ps' :
  fold_res reconcileFp (newFps, ps) fps = Ok (newFps', ps') → FpByBtcPk ps' = FpByBtcPk ps.
Proof.
  revert newFps ps. induction fps as [|x fps IH]; intros newFps ps Hf; simpl in Hf; [by inv_ok|].
  apply bind_Ok in Hf as ([newFps1 ps1] & H1 & Hf). rewrite (IH _ _ Hf).
  unfold reconcileFp in H1. cbv zeta in H1.
  destruct (FPStatesByBtcPk ps !! di_BtcPk x) as [[]|]; [by inv_ok|..];
    apply bind_Ok in H1 as (fp2 & H2 & H1); by inv_ok.
Qed.

Lemma add_new_members `{B : Bech32} bs l newFps ps newFps' ps' fp :
  keyed bs → cache_sound bs (FpByBtcPk ps) →
  fold_res (addNewFp bs) (newFps, ps) l = Ok (newFps', ps') → fp ∈ newFps' →
  fp ∈ newFps ∨ is_Some (finalityProviders bs !! di_BtcPk fp).
Proof.
  intros Hk. revert newFps ps. induction l as [|pk l IH]; intros newFps ps Hc Hf Hin; simpl in Hf.
  { inv_ok. by left. }
  apply bind_Ok in Hf as ([newFps1 ps1] & H1 & Hf).
  unfold addNewFp in H1. apply bind_Ok in H1 as ([nfp cache'] & Hl & H1).
  apply (proj1 (must_Ok _ _)) in Hl. apply loadFP_spec in Hl as [Hfp Hc']; [|done]. cbv zeta in H1.
  destruct (IsSlashed nfp); [inv_ok; exact (IH _ (setFpCache ps cache') Hc' Hf Hin)|].
  apply bind_Ok in H1 as (di & Hdi & H1). apply bind_Ok in H1 as (di2 & H2 & H1).
  apply (proj1 (must_Ok _ _)) in H2. unfold NewFinalityProviderDistInfo in Hdi.
  apply bind_Ok in Hdi as (addr & _ & Hdi). inv_ok.
  destruct (IH _ (setFpCache ps cache') Hc' Hf Hin) as [Hin'|]; [|by right].
  assert (di_BtcPk di2 = pk) as Hp.
  { rewrite <- (Hk pk nfp Hfp). unfold ChangeDeltaSats, RemoveBondedSats in H2.
    repeat case_match; by inv_ok. }
  case_match; [|by left]. apply elem_of_app in Hin' as [|Hin']; [by left|right].
  apply list_elem_of_singleton in Hin' as ->. rewrite Hp. by exists nfp.
Qed.

(** Every provider of a new cache was in the last one or is registered. *)
Lemma ProcessAll_members `{B : Bech32} bs dc lastTip curTip dc' ps fp :
  keyed bs → ProcessAllPowerDistUpdateEvents bs dc lastTip curTip = Ok (dc', ps) →
  fp ∈ FinalityProviders dc' →
  di_BtcPk fp ∈ di_BtcPk <$> FinalityProviders dc ∨ is_Some (finalityProviders bs !! di_BtcPk fp).
Proof.
  intros Hk Hp Hin. unfold ProcessAllPowerDistUpdateEvents in Hp. cbv zeta in Hp.
  apply bind_Ok in Hp as (ps0 & Hf & Hp). apply bind_Ok in Hp as (ps1 & He & Hp).
  apply bind_Ok in Hp as ([fps3 ps3] & Hr & Hp). apply bind_Ok in Hp as ([fps4 ps4] & Hn & Hp). inv_ok.
  cbn [FinalityProviders] in Hin.
  destruct (events_processed bs dc lastTip curTip ps0 ps1 Hf He) as (_ & Hc & _).
  apply (add_new_members bs _ _ _ _ _ fp Hk) in Hn as [Hin'|]; [|by right|..].
  - apply (reconcile_members _ _ _ _ _ fp) in Hr; [by left|done].
  - by rewrite (reconcile_cache _ _ _ _ _ Hr).
  - done.
Qed.

(** Caches that are read, and caches that hold a provider. *)
Lemma cache_stored s h dc :
  GetVotingPowerDistCache s h = Some dc → votingPowerDistCache s !! h = Some dc.
Proof.
  unfold GetVotingPowerDistCache. intros (dc' & Hdc & Hx)%bind_Some.
  destruct (cache_bytes_empty dc'); [done|]. by injection Hx as ->.
Qed.

Lemma cache_read s h dc pk :
  votingPowerDistCache s !! h = Some dc → pk ∈ di_BtcPk <$> FinalityProviders dc →
  GetVotingPowerDistCache s h = Some dc.
Proof.
  intros Hdc Hpk. unfold GetVotingPowerDistCache. rewrite Hdc. simpl. unfold cache_bytes_empty.
  destruct (FinalityProviders dc); [by apply not_elem_of_nil in Hpk|done].
Qed.

(** Which providers a cache calls active. *)
Definition active_fps (dc : VotingPowerDistCache) : list FinalityProviderDistInfo :=
  take (N.to_nat (NumActiveFps dc)) (FinalityProviders dc).

(** The number of active providers is at most the number of eligible ones in front. *)
Lemma count_active_prefix maxN fps n t :
  ∃ k, (count_active maxN fps n t).1 ≤ n + N.of_nat k ∧ (k ≤ length fps)%nat ∧
    Forall (λ fp, eligible fp = true) (take k fps).
Proof.
  revert n t. induction fps as [|fp fps IH]; intros n t.
  - exists 0%nat. simpl. split_and!; [lia|lia|done].
  - rewrite count_active_cons. destruct (_ || _) eqn:Hs.
    + exists 0%nat. simpl. split_and!; [lia|lia|done].
    + apply orb_false_iff in Hs as [_ Hs]. apply negb_false_iff in Hs.
      destruct (IH (u32_add n 1) (u64_add t (TotalBondedSat fp))) as (k & Hk & Hl & He).
      exists (S k). simpl. split_and!; [|lia|by constructor].
      assert (u32_add n 1 ≤ n + 1) by (unfold u32_add, u32; apply N.Div0.mod_le). lia.
Qed.

Lemma ApplyActive_spec dc maxN :
  let dc' := ApplyActiveFinalityProviders dc maxN in
  FinalityProviders dc' ≡ₚ FinalityProviders dc ∧
  (N.to_nat (NumActiveFps dc') ≤ length (FinalityProviders dc'))%nat ∧
  Forall (λ fp, eligible fp = true) (active_fps dc').
Proof.
  unfold ApplyActiveFinalityProviders, active_fps.
  set (fps := SortFinalityProvidersWithZeroedVotingPower (FinalityProviders dc)).
  assert (fps ≡ₚ FinalityProviders dc) as Hp by apply merge_sort_Permutation.
  destruct (count_active_prefix maxN fps 0 0) as (k & Hk & Hl & He).
  destruct (count_active maxN fps 0 0) as [n t]. simpl in *. split_and!; [done|lia|].
  replace (take (N.to_nat n) fps) with (take (N.to_nat n) (take k fps)); [by apply Forall_take|].
  rewrite take_take. f_equal. lia.
Qed.

Lemma eligible_timestamped fp : eligible fp = true → IsTimestamped fp = true.
Proof.
  unfold eligible, zeroed. destruct (IsTimestamped fp); [done|].
  by rewrite orb_true_r, orb_true_l.
Qed.

Lemma foldl_SetVotingPower l s height h pk :
  let s' := foldl (λ s fp, SetVotingPower s (di_BtcPk fp) height (TotalBondedSat fp)) s l in
  is_Some (power_at s' h !! pk) →
  is_Some (power_at s h !! pk) ∨ h = height ∧ pk ∈ di_BtcPk <$> l.
Proof.
  revert s. induction l as [|fp l IH]; intros s; simpl; [by left|]. intros Hs.
  apply IH in Hs as [Hs|[-> Hs]]; [|right; split; [done|by right]].
  revert Hs. unfold power_at at 1. simpl. rewrite lookup_insert. case_decide as Hh; [|by left].
  subst h. simpl. rewrite lookup_insert. case_decide as Hp; [|by left].
  intros _. right. split; [done|]. subst pk. by left.
Qed.

Lemma foldl_SetVotingPower_ne l s height h :
  h ≠ height →
  power_at (foldl (λ s fp, SetVotingPower s (di_BtcPk fp) height (TotalBondedSat fp)) s l) h = power_at s h.
Proof.
  intros Hh. revert s. induction l as [|fp l IH]; intros s; simpl; [done|]. rewrite IH.
  unfold power_at at 1. simpl. by rewrite lookup_insert_ne.
Qed.

Lemma foldl_SetVotingPower_frame l s height :
  let s' := foldl (λ s fp, SetVotingPower s (di_BtcPk fp) height (TotalBondedSat fp)) s l in
  set_power s' (votingPower s) = s.
Proof.
  revert s. induction l as [|fp l IH]; intros s; simpl; [by destruct s|].
  pose proof (IH (SetVotingPower s (di_BtcPk fp) height (TotalBondedSat fp))) as Hs. simpl in Hs.
  revert Hs. generalize (foldl (λ s fp, SetVotingPower s (di_BtcPk fp) height (TotalBondedSat fp))
    (SetVotingPower s (di_BtcPk fp) height (TotalBondedSat fp)) l). intros s'.
  destruct s, s'. unfold set_power, SetVotingPower. simpl. intros Hs. injection Hs; intros; subst. reflexivity.
Qed.

(** The table and the cache that a block writes. *)
Lemma RecordVotingPower_spec s ev height newDc s' dc' :
  RecordVotingPowerAndCache s ev height newDc = Ok (s', dc') →
  di_BtcPk <$> FinalityProviders dc' ≡ₚ di_BtcPk <$> FinalityProviders newDc ∧
  Forall (λ fp, HasTimestampedPubRand s ev (di_BtcPk fp) height = true) (active_fps dc') ∧
  votingPowerDistCache s' = <[height := dc']> (votingPowerDistCache s) ∧
  (∀ h pk, is_Some (power_at s' h !! pk) →
     is_Some (power_at s h !! pk) ∨ h = height ∧ pk ∈ di_BtcPk <$> active_fps dc') ∧
  (∀ h, h ≠ height → power_at s' h = power_at s h) ∧
  set_cache (set_power s' (votingPower s)) (votingPowerDistCache s) = s.
Proof.
  intros Hr. unfold RecordVotingPowerAndCache in Hr. cbv zeta in Hr.
  set (mark := λ fp, setIsTimestamped fp (HasTimestampedPubRand s ev (di_BtcPk fp) height)) in Hr.
  set (dc1 := mkDistCache _ (mark <$> FinalityProviders newDc) _) in Hr.
  destruct (ApplyActive_spec dc1 (MaxActiveFinalityProviders (GetParams s))) as (Hp & Hl & He).
  set (dc2 := ApplyActiveFinalityProviders dc1 (MaxActiveFinalityProviders (GetParams s))) in *.
  apply bind_Ok in Hr as (act & Ha & Hr). unfold mret, res_ret in Hr. injection Hr as <- <-.
  assert (act = active_fps dc2) as ->.
  { revert Ha. unfold slice_n. case_match; [|done]. by intros [= <-]. }
  split_and!.
  - rewrite Hp. simpl. rewrite <- list_fmap_compose. done.
  - rewrite Forall_forall in *. intros fp Hfp. specialize (He fp Hfp). simpl in He.
    apply eligible_timestamped in He.
    assert (fp ∈ FinalityProviders dc1) as Hin.
    { rewrite <- Hp. unfold active_fps in Hfp. by eapply elem_of_take in Hfp as (? & ? & _); eapply list_elem_of_lookup_2. }
    simpl in Hin. apply list_elem_of_fmap in Hin as (fp0 & -> & _). exact He.
  - simpl. pose proof (foldl_SetVotingPower_frame (active_fps dc2) s height) as Hs.
    f_equal. rewrite <- Hs at 2. done.
  - intros h pk Hs. by apply (foldl_SetVotingPower (active_fps dc2)).
  - intros h Hh. exact (foldl_SetVotingPower_ne (active_fps dc2) s height h Hh).
  - pose proof (foldl_SetVotingPower_frame (active_fps dc2) s height) as Hs. simpl in Hs.
    revert Hs. generalize (foldl (λ s fp, SetVotingPower s (di_BtcPk fp) height (TotalBondedSat fp)) s (active_fps dc2)).
    intros s'. destruct s, s'. unfold set_cache, set_power, SetVotingPowerDistCache. simpl.
    intros Hs. injection Hs; intros; subst. reflexivity.
Qed.

Lemma by_pk_spec l k fp : by_pk l !! k = Some fp → di_BtcPk fp = k ∧ fp ∈ l.
Proof.
  unfold by_pk. induction l as [|x l IH] using rev_ind; simpl; [by rewrite lookup_empty|].
  rewrite foldl_snoc, lookup_insert_Some. intros [[<- <-]|[_ Hl]]; [set_solver|].
  apply IH in Hl as [? ?]. set_solver.
Qed.

Lemma by_pk_elem l fp : fp ∈ l → is_Some (by_pk l !! di_BtcPk fp).
Proof.
  unfold by_pk. induction l as [|x l IH] using rev_ind; [set_solver|].
  rewrite foldl_snoc, lookup_insert_is_Some, elem_of_app, list_elem_of_singleton.
  intros [Hin| ->]; [|by left]. destruct (decide (di_BtcPk x = di_BtcPk fp)); [by left|right]. auto.
Qed.

(** The providers that were not active before are among the newly active ones. *)
Lemma FindNewActive_spec {E} (dc prevDc : VotingPowerDistCache) l pk :
  @FindNewActiveFinalityProviders E dc prevDc = Ok l → pk ∈ di_BtcPk <$> active_fps dc →
  pk ∈ di_BtcPk <$> active_fps prevDc ∨ pk ∈ di_BtcPk <$> l.
Proof.
  intros Hf Hpk. unfold FindNewActiveFinalityProviders, GetActiveFinalityProviderSet in Hf.
  apply bind_Ok in Hf as (a & Ha & Hf). apply fmap_Ok in Ha as (la & Hla & ->).
  apply bind_Ok in Hf as (p & Hp & Hf). apply fmap_Ok in Hp as (lp & Hlp & ->). inv_ok.
  assert (la = active_fps dc) as ->. { revert Hla. unfold slice_n. case_match; [|done]. by intros [= <-]. }
  assert (lp = active_fps prevDc) as ->. { revert Hlp. unfold slice_n. case_match; [|done]. by intros [= <-]. }
  apply list_elem_of_fmap in Hpk as (fp & -> & Hfp).
  destruct (by_pk (active_fps prevDc) !! di_BtcPk fp) as [fp'|] eqn:Hprev.
  - left. apply by_pk_spec in Hprev as [<- Hin]. by apply list_elem_of_fmap_2.
  - right. destruct (by_pk_elem _ _ Hfp) as [fp' Hfp']. rewrite list_elem_of_fmap.
    exists fp'. split; [by apply by_pk_spec in Hfp' as [-> _]|].
    unfold sorted_values. rewrite list_elem_of_fmap. exists (di_BtcPk fp, fp'). split; [done|].
    apply elem_of_bkv_asc, map_lookup_filter_Some. done.
Qed.

Section chain.
Context {LC : BTCLightClientKeeper} {B : Bech32} {H : FinalityHooks}.
Implicit Types (lc : LightClient) (env : Env).

(** Signing infos are never deleted. *)
Definition tracker_grows s s' : Prop :=
  ∀ pk, is_Some (signingTracker s !! pk) → is_Some (signingTracker s' !! pk).

#[global] Instance tracker_grows_preorder : PreOrder tracker_grows.
Proof. split; [by intros s pk|]. intros a b c Hab Hbc pk ?. by apply Hbc, Hab. Qed.

Lemma processActive_fold height hooks l s env s' env' :
  fold_res (processActiveFp height hooks) (s, env) l = Ok (s', env') →
  tracker_grows s s' ∧ (∀ pk, pk ∈ di_BtcPk <$> l → is_Some (signingTracker s' !! pk)) ∧
  set_tracker s' (signingTracker s) = s.
Proof.
  revert s env. induction l as [|fp l IH]; intros s env Hf; simpl in Hf.
  { inv_ok. split_and!; [reflexivity|set_solver|by destruct s']. }
  apply bind_Ok in Hf as ([s1 env1] & H1 & Hf).
  assert (s1 = HandleActivatedFinalityProvider s height (di_BtcPk fp)) as ->.
  { unfold processActiveFp in H1. case_match; [by inv_ok|].
    apply bind_Ok in H1 as (e & _ & H1). by inv_ok. }
  destruct (IH _ _ Hf) as (Hg & Hin & Hs).
  assert (tracker_grows s (HandleActivatedFinalityProvider s height (di_BtcPk fp))) as Hg0.
  { intros pk Hpk. simpl. rewrite lookup_insert_is_Some.
    destruct (decide (di_BtcPk fp = pk)); [by left|by right]. }
  split_and!; [by etrans| |].
  - intros pk. rewrite fmap_cons, elem_of_cons. intros [->|Hpk]; [|by apply Hin].
    apply Hg. simpl. rewrite lookup_insert_is_Some. by left.
  - clear -Hs. destruct s, s'. unfold set_tracker, HandleActivatedFinalityProvider in *. simpl in *.
    injection Hs; intros; subst. reflexivity.
Qed.

Lemma HandleFPStateUpdates_spec s env height ps prevDc newDc hooks s' env' :
  HandleFPStateUpdates s env height ps prevDc newDc hooks = Ok (s', env') →
  tracker_grows s s' ∧
  (∀ pk, pk ∈ di_BtcPk <$> active_fps newDc →
     pk ∈ di_BtcPk <$> active_fps prevDc ∨ is_Some (signingTracker s' !! pk)) ∧
  set_tracker s' (signingTracker s) = s.
Proof.
  intros Hh. unfold HandleFPStateUpdates in Hh. apply bind_Ok in Hh as (l & Hl & Hh).
  apply bind_Ok in Hh as ([s1 env1] & H1 & Hh). apply bind_Ok in Hh as (l2 & _ & Hh).
  apply bind_Ok in Hh as (env2 & _ & Hh). inv_ok.
  apply processActive_fold in H1 as (Hg & Hin & Hs). split_and!; [done| |done].
  intros pk Hpk. destruct (FindNewActive_spec _ _ _ pk Hl Hpk) as [|Hn]; [by left|right]. by apply Hin.
Qed.

Lemma Clear_frame l bs : finalityProviders (foldl ClearPowerDistUpdateEvents bs l) = finalityProviders bs.
Proof. revert bs. induction l as [|h l IH]; intros bs; simpl; [done|]. by rewrite IH. Qed.

(** What the beginning of a block does, as far as the other parts care. *)
Record began s bs (ev : EpochView) (height : N) s' bs' (dc : VotingPowerDistCache) : Prop := {
  bg_fps : finalityProviders bs' = finalityProviders bs;
  bg_cache : votingPowerDistCache s' = <[height := dc]> (votingPowerDistCache s);
  bg_power : ∀ h pk, is_Some (power_at s' h !! pk) →
    is_Some (power_at s h !! pk) ∨ h = height ∧ pk ∈ di_BtcPk <$> active_fps dc;
  bg_power_ne : ∀ h, h ≠ height → power_at s' h = power_at s h;
  bg_active : Forall (λ fp, HasTimestampedPubRand s ev (di_BtcPk fp) height = true) (active_fps dc);
  bg_members : ∀ fp, fp ∈ FinalityProviders dc →
    (∃ dc0, votingPowerDistCache s !! u64_sub height 1 = Some dc0 ∧
       di_BtcPk fp ∈ di_BtcPk <$> FinalityProviders dc0) ∨
    is_Some (finalityProviders bs !! di_BtcPk fp);
  bg_tracker : tracker_grows s s';
  bg_tracked : ∀ pk, pk ∈ di_BtcPk <$> active_fps dc →
    (∃ dc0, votingPowerDistCache s !! u64_sub height 1 = Some dc0 ∧ pk ∈ di_BtcPk <$> active_fps dc0) ∨
    is_Some (signingTracker s' !! pk);
  bg_frame : set_tracker (set_cache (set_power s' (votingPower s)) (votingPowerDistCache s))
    (signingTracker s) = s;
}.

Lemma BeginBlocker_began s bs env lc ev ctx s' bs' env' :
  keyed bs → BeginBlocker s bs env lc ev ctx = Ok (s', bs', env') →
  ∃ dc, began s bs ev (ctx_height ctx) s' bs' dc.
Proof.
  intros Hk Hb. unfold BeginBlocker, UpdatePowerDist in Hb. cbv zeta in Hb.
  apply bind_Ok in Hb as (tip & _ & Hb). apply bind_Ok in Hb as (lastTip & _ & Hb).
  set (dc0 := default NewVotingPowerDistCache _) in Hb.
  apply bind_Ok in Hb as ([dc1 ps] & Hp & Hb). apply bind_Ok in Hb as ([s1 dc2] & Hr & Hb).
  apply bind_Ok in Hb as ([ps1 env1] & _ & Hb). apply bind_Ok in Hb as ([s2 env2] & Hh & Hb). inv_ok.
  apply RecordVotingPower_spec in Hr as (Hpk & Hact & Hcache & Hpow & Hpne & Hfr).
  apply HandleFPStateUpdates_spec in Hh as (Hg & Htr & Hfr2).
  assert (signingTracker s1 = signingTracker s) as Ht1 by (by rewrite <- Hfr).
  assert (∀ pk (f : VotingPowerDistCache → list FinalityProviderDistInfo),
    f NewVotingPowerDistCache = [] → pk ∈ di_BtcPk <$> f dc0 →
    ∃ dc0, votingPowerDistCache s !! u64_sub (ctx_height ctx) 1 = Some dc0 ∧ pk ∈ di_BtcPk <$> f dc0) as Hdc0.
  { intros pk f Hf Hin. unfold dc0 in Hin.
    destruct (GetVotingPowerDistCache s (u64_sub (ctx_height ctx) 1)) as [d|] eqn:Hd.
    - exists d. split; [|done]. by apply cache_stored in Hd.
    - simpl in Hin. rewrite Hf in Hin. by apply not_elem_of_nil in Hin. }
  exists dc2. split.
  - apply Clear_frame.
  - rewrite <- Hcache. by rewrite <- Hfr2.
  - intros h pk Hs. apply Hpow. revert Hs. unfold power_at.
    by replace (votingPower s') with (votingPower s1) by (by rewrite <- Hfr2).
  - intros h Hh. rewrite <- Hpne by done. unfold power_at. by rewrite <- Hfr2.
  - done.
  - intros fp Hfp. assert (di_BtcPk fp ∈ di_BtcPk <$> FinalityProviders dc1) as Hin.
    { rewrite <- Hpk. by apply list_elem_of_fmap_2. }
    apply list_elem_of_fmap in Hin as (fp1 & Heq & Hin). rewrite Heq.
    destruct (ProcessAll_members bs _ _ _ _ _ fp1 Hk Hp Hin) as [Hm|]; [left|by right].
    by apply (Hdc0 _ FinalityProviders).
  - intros pk Hpk'. apply Hg. by rewrite Ht1.
  - intros pk Hpk'. destruct (Htr pk Hpk') as [Hm|]; [left|by right].
    by apply (Hdc0 _ active_fps).
  - clear -Hfr Hfr2. destruct s, s1, s'. unfold set_tracker, set_cache, set_power in *. simpl in *.
    injection Hfr; injection Hfr2; intros; subst. reflexivity.
Qed.

(** ** When voting started *)

Lemma activated_Ok s act :
  GetBTCStakingActivatedHeight s = Ok act →
  has_table s act = true ∧ ∀ h, has_table s h = true → act ≤ h.
Proof.
  unfold GetBTCStakingActivatedHeight. set (l := filter _ _).
  assert (∀ h, has_table s h = true → ∃ t, (h, t) ∈ l) as Hin.
  { intros h Ht%bool_decide_eq_true. unfold power_at in Ht.
    destruct (votingPower s !! h) as [t|] eqn:Hh; simpl in Ht; [|done].
    exists t. apply list_elem_of_filter. split; [done|]. by apply elem_of_kv_asc. }
  assert (∀ h t, (h, t) ∈ l → has_table s h = true) as Hout.
  { intros h t Hl. apply list_elem_of_filter in Hl as [Ht Hl]. apply elem_of_kv_asc in Hl.
    apply bool_decide_eq_true. unfold power_at. by rewrite Hl. }
  assert (StronglySorted kv_lt l) as Hs.
  { apply StronglySorted_filter. apply kv_asc_lt_sorted. }
  destruct l as [|[h t] l]; [done|]. intros [= ->]. split; [by eapply Hout; left|].
  intros h Hh. destruct (Hin h Hh) as [t' Ht']. apply elem_of_cons in Ht' as [Heq|Ht'].
  - by injection Heq as -> _.
  - apply StronglySorted_cons in Hs as [Hs _]. rewrite Forall_forall in Hs.
    specialize (Hs _ Ht'). unfold kv_lt in Hs. simpl in Hs. lia.
Qed.

Lemma activated_Err s : is_ok (GetBTCStakingActivatedHeight s) = false → ∀ h, has_table s h = false.
Proof.
  unfold GetBTCStakingActivatedHeight. set (l := filter _ _). intros Hn h.
  destruct (has_table s h) eqn:Ht; [|done]. apply bool_decide_eq_true in Ht. unfold power_at in Ht.
  destruct (votingPower s !! h) as [t|] eqn:Hh; simpl in Ht; [|done].
  assert ((h, t) ∈ l) as Hl.
  { apply list_elem_of_filter. split; [done|]. by apply elem_of_kv_asc. }
  destruct l as [|[]]; [by apply not_elem_of_nil in Hl|]. discriminate Hn.
Qed.

(** The height does not change when tables are only added later. *)
Lemma activated_stable s s' act H0 :
  (∀ h, has_table s' h = true → has_table s h = true ∨ H0 ≤ h) →
  (∀ h, has_table s h = true → has_table s' h = true ∧ h < H0) →
  GetBTCStakingActivatedHeight s' = Ok act →
  GetBTCStakingActivatedHeight s = Ok act ∨ (H0 ≤ act ∧ ∀ h, has_table s h = false).
Proof.
  intros Hnew Hold Ha. apply activated_Ok in Ha as [Hact Hmin].
  destruct (GetBTCStakingActivatedHeight s) as [act0|e|] eqn:H0'.
  - left. apply activated_Ok in H0' as [Hact0 Hmin0].
    pose proof (Hmin act0 (proj1 (Hold _ Hact0))). destruct (Hold _ Hact0) as [_ Hlt].
    destruct (Hnew _ Hact) as [Ht|]; [|lia]. specialize (Hmin0 _ Ht). f_equal. lia.
  - assert (∀ h, has_table s h = false) as Hno by (apply activated_Err; by rewrite H0').
    right. split; [|done]. destruct (Hnew _ Hact) as [Ht|]; [|done]. by rewrite Hno in Ht.
  - assert (∀ h, has_table s h = false) as Hno by (apply activated_Err; by rewrite H0').
    right. split; [|done]. destruct (Hnew _ Hact) as [Ht|]; [|done]. by rewrite Hno in Ht.
Qed.

Lemma activated_same s s' :
  votingPower s' = votingPower s → GetBTCStakingActivatedHeight s' = GetBTCStakingActivatedHeight s.
Proof. unfold GetBTCStakingActivatedHeight. by intros ->. Qed.

Lemma has_table_power s h : has_table s h = true ↔ ∃ pk, is_Some (power_at s h !! pk).
Proof.
  unfold has_table, HasVotingPowerTable. rewrite bool_decide_eq_true. split.
  - intros (pk & p & Hp)%map_choose. exists pk. by exists p.
  - intros (pk & p & Hp) He. rewrite He in Hp. by rewrite lookup_empty in Hp.
Qed.

End chain.
End FinalityBegin.
