(* ===== verification/FinalityResume.v ===== *)
(** Resuming finality ([FinalityVotes.HandleResumeFinalityProposal]), as far as the
    invariant of the module cares.

    The proposal jails providers and takes their power away at all heights from the
    halting one on, final heights included.  [resumed] says what it may write: entries of
    voting power for providers of the cache of a height, caches with the same providers,
    and signing infos. *)
From stdpp Require Import base numbers list sorting gmap strings.
From S2P Require Import Prelude KVStore Bytes Hex Secp256k1 Eots BtcLightClient Epoching.
From S2P Require Import BtcStaking Finality FinalityPower FinalityVotes.
From S2P Require Import FinalityPowerSpec FinalityTally FinalityRand FinalityVotesSpec FinalityBegin.

Module FinalityResume.
Import BtcStaking Finality FinalityPower FinalityVotes.
Import FinalityPowerSpec FinalityTally FinalityRand FinalityVotesSpec FinalityBegin.
Local Open Scope N_scope.
Implicit Types (s : FinState) (bs : BSState) (pk : bytes) (ctx : Epoching.HeaderInfo).

Definition tracked s pk : Prop := is_Some (signingTracker s !! pk).
Definition registered bs pk : Prop := is_Some (finalityProviders bs !! pk).

(** Jailed providers have been active. *)
Definition jailed_tracked s bs : Prop :=
  ∀ pk fp, finalityProviders bs !! pk = Some fp → IsJailed fp = true → tracked s pk.

(** No provider is jailed that was not. *)
Definition no_new_jail bs bs' : Prop :=
  ∀ pk fp', finalityProviders bs' !! pk = Some fp' → IsJailed fp' = true →
    ∃ fp, finalityProviders bs !! pk = Some fp ∧ IsJailed fp = true.

#[global] Instance no_new_jail_preorder : PreOrder no_new_jail.
Proof.
  split; [intros bs pk fp; eauto|]. intros b1 b2 b3 H12 H23 pk fp3 H3 Hj.
  destruct (H23 pk fp3 H3 Hj) as (fp2 & H2 & Hj2). eauto.
Qed.

(** Writing signing infos and bitmaps only. *)
Definition judged s s' : Prop :=
  tracker_grows s s' ∧ set_tracker (set_bitmap s' (missedBlockBitmap s)) (signingTracker s) = s.

Lemma judged_trans s1 s2 s3 : judged s1 s2 → judged s2 s3 → judged s1 s3.
Proof.
  intros [G1 F1] [G2 F2]. split; [by etrans|]. clear -F1 F2. destruct s1, s2, s3.
  unfold set_tracker, set_bitmap in *. simpl in *. injection F1; injection F2; intros; subst. reflexivity.
Qed.

Lemma judged_insert s pk si bm : judged s (set_tracker (set_bitmap s bm) (<[pk := si]> (signingTracker s))).
Proof.
  split; [|by destruct s]. intros pk' Hpk'. simpl. rewrite lookup_insert_is_Some.
  destruct (decide (pk = pk')); [by left|by right].
Qed.


Section resume.
Context {LC : BTCLightClientKeeper} {B : Bech32} {H : FinalityHooks}.
Implicit Types (lc : LightClient) (env : Env).

Lemma jail_evolves bs lc pk bs' :
  jailSluggishFinalityProvider bs lc pk = Ok bs' → bs_evolves bs bs'.
Proof.
  intros Hj. apply map_err_Ok in Hj. unfold JailFinalityProvider in Hj.
  apply bind_Ok in Hj as (fp & Hfp & Hj). apply of_option_Ok in Hfp.
  apply require_bind_Ok in Hj as [_ Hj]. apply require_bind_Ok in Hj as [_ Hj].
  apply bind_Ok in Hj as (tip & _ & Hj). inv_ok.
  etrans; [|apply add_event_evolves]. by eapply set_fp_evolves.
Qed.


Lemma jail_sets_jailed bs lc pk bs' :
  keyed bs → jailSluggishFinalityProvider bs lc pk = Ok bs' →
  registered bs pk ∧ ∀ pk' fp', finalityProviders bs' !! pk' = Some fp' → IsJailed fp' = true →
    pk' = pk ∨ ∃ fp, finalityProviders bs !! pk' = Some fp ∧ IsJailed fp = true.
Proof.
  intros Hk Hj. apply map_err_Ok in Hj. unfold JailFinalityProvider in Hj.
  apply bind_Ok in Hj as (fp & Hfp & Hj). apply of_option_Ok in Hfp.
  apply require_bind_Ok in Hj as [_ Hj]. apply require_bind_Ok in Hj as [_ Hj].
  apply bind_Ok in Hj as (tip & _ & Hj). inv_ok. split; [by exists fp|].
  intros pk' fp'. simpl. rewrite (Hk pk fp Hfp), lookup_insert_Some.
  intros [[<- _]|[_ Hf]] Hj; [by left|right]. eauto.
Qed.

(** ** Jailing the providers of the proposal *)

Lemma resume_jail_spec voters lc ctx params s bs J x s' bs' J' :
  keyed bs → jailed_tracked s bs →
  resume_jail voters lc ctx params (s, bs, J) x = Ok (s', bs', J') →
  judged s s' ∧ bs_evolves bs bs' ∧ jailed_tracked s' bs' ∧ J' = {[x]} ∪ J ∧
  ∀ pk, x = hex_EncodeToString pk → registered bs' pk ∧ (tracked s' pk ∨ slashed bs' pk).
Proof.
  intros Hk Hjt Hr. unfold resume_jail in Hr. apply bind_Ok in Hr as (pk & Hpk%of_option_Ok & Hr).
  apply require_bind_Ok in Hr as [_ Hr]. apply require_bind_Ok in Hr as [_ Hr].
  apply bind_Ok in Hr as (fp & Hfp & Hr). apply map_err_Ok, of_option_Ok in Hfp.
  assert (∀ pk', x = hex_EncodeToString pk' → pk' = pk) as Heq.
  { intros pk' ->. rewrite hex_decode_encode in Hpk. by injection Hpk. }
  destruct (IsSlashed fp || IsJailed fp) eqn:Hsj.
  { inv_ok. split_and!; [split; [reflexivity|by destruct s']|reflexivity|done|done|].
    intros pk' ->%Heq. split; [by exists fp|]. apply orb_true_iff in Hsj as [Hs|Hj].
    - right. by exists fp.
    - left. by eapply Hjt. }
  apply bind_Ok in Hr as (bs1 & Hj & Hr). apply bind_Ok in Hr as (si & Hsi%of_option_Ok & Hr). inv_ok.
  pose proof (jail_evolves _ _ _ _ Hj) as He. apply jail_sets_jailed in Hj as [Hreg Hjail]; [|done].
  assert (judged s (set_tracker (DeleteMissedBlockBitmap s pk) (<[pk := mkSigningInfo
    (sg_StartHeight si) 0 (Epoching.hi_Time ctx + JailDuration params)]> (signingTracker s)))) as Hjd
    by exact (judged_insert s pk _ (delete pk (missedBlockBitmap s))).
  split_and!; [done|done| |done|].
  - intros pk' fp' Hf' Hj'. apply Hjd. destruct (Hjail pk' fp' Hf' Hj') as [->|(fp0 & ? & ?)]; [by exists si|].
    by eapply Hjt.
  - intros pk' ->%Heq. split.
    + destruct (He Hk) as [_ Hf]. destruct (Hf pk fp Hfp) as (fp' & ? & _). by exists fp'.
    + left. apply Hjd. by exists si.
Qed.

Lemma registered_evolves bs bs' pk : keyed bs → bs_evolves bs bs' → registered bs pk → registered bs' pk.
Proof.
  intros Hk He [fp Hfp]. destruct (He Hk) as [_ Hf]. destruct (Hf pk fp Hfp) as (fp' & ? & _). by exists fp'.
Qed.

Lemma resume_jails_spec voters lc ctx params l s bs J s' bs' J' :
  keyed bs → jailed_tracked s bs →
  (∀ pk, hex_EncodeToString pk ∈ J → registered bs pk ∧ (tracked s pk ∨ slashed bs pk)) →
  fold_res (resume_jail voters lc ctx params) (s, bs, J) l = Ok (s', bs', J') →
  judged s s' ∧ bs_evolves bs bs' ∧ jailed_tracked s' bs' ∧
  ∀ pk, hex_EncodeToString pk ∈ J' → registered bs' pk ∧ (tracked s' pk ∨ slashed bs' pk).
Proof.
  revert s bs J. induction l as [|x l IH]; intros s bs J Hk Hjt HJ Hf; simpl in Hf.
  { inv_ok. split_and!; [split; [reflexivity|by destruct s']|reflexivity|done|done]. }
  apply bind_Ok in Hf as ([[s1 bs1] J1] & H1 & Hf).
  apply resume_jail_spec in H1 as (Hj & He & Hjt1 & -> & Hx); [|done..].
  assert (keyed bs1) as Hk1 by by apply He.
  edestruct (IH s1 bs1 ({[x]} ∪ J) Hk1 Hjt1) as (Hj2 & He2 & Hjt2 & HJ2); [|exact Hf|].
  - intros pk [Hin|Hin]%elem_of_union.
    + apply elem_of_singleton in Hin. by apply Hx.
    + destruct (HJ pk Hin) as [Hr Ht]. split; [by apply (registered_evolves bs)|].
      destruct Ht as [Ht|Ht]; [left; by apply Hj|right; by apply (slashed_evolves bs)].
  - split_and!; [by eapply judged_trans|by etrans|done|done].
Qed.

(** ** Rewriting the heights *)

(** Entries of voting power that are added at one height for jailed providers. *)
Record zeroed_at (J : gset string) (blk : N) (ks : list bytes) s s' : Prop := {
  za_frame : set_power s' (votingPower s) = s;
  za_kept : ∀ h pk, is_Some (power_at s h !! pk) → is_Some (power_at s' h !! pk);
  za_new : ∀ h pk, is_Some (power_at s' h !! pk) → is_Some (power_at s h !! pk) ∨
    h = blk ∧ pk ∈ ks ∧ hex_EncodeToString pk ∈ J;
}.

Lemma zeroed_refl J blk ks s : zeroed_at J blk ks s s.
Proof. split; [by destruct s|done|by left]. Qed.

Lemma zeroed_trans J blk k ks s1 s2 s3 :
  zeroed_at J blk [k] s1 s2 → zeroed_at J blk ks s2 s3 → zeroed_at J blk (k :: ks) s1 s3.
Proof.
  intros [F1 K1 N1] [F2 K2 N2]. split; [|auto|].
  - clear -F1 F2. destruct s1, s2, s3. unfold set_power in *. simpl in *.
    injection F1; injection F2; intros; subst. reflexivity.
  - intros h pk [Hs|(-> & ? & ?)]%N2; [|right; split_and!; [done|by right|done]].
    apply N1 in Hs as [|(-> & ->%list_elem_of_singleton & ?)]; [by left|right].
    split_and!; [done|by left|done].
Qed.

Lemma zeroed_set (J : gset string) (blk : N) s pk :
  hex_EncodeToString pk ∈ J → zeroed_at J blk [pk] s (SetVotingPower s pk blk 0).
Proof.
  intros HJ. split; [by destruct s|..]; intros h k.
  - unfold power_at at 2. simpl. rewrite lookup_insert. case_decide as Hh; [|done]. subst h. simpl.
    rewrite lookup_insert_is_Some. destruct (decide (pk = k)); [by left|by right].
  - unfold power_at at 1. simpl. rewrite lookup_insert. case_decide as Hh; [|by left]. subst h. simpl.
    rewrite lookup_insert_is_Some. intros [<-|[_ ?]]; [right|by left]. split_and!; [done|by left|done].
Qed.

Lemma resume_fp_spec J blk s ps acc fp s' ps' acc' :
  resume_fp J blk (s, ps, acc) fp = (s', ps', acc') →
  di_BtcPk <$> acc' = (di_BtcPk <$> acc) ++ [di_BtcPk fp] ∧ zeroed_at J blk [di_BtcPk fp] s s'.
Proof.
  unfold resume_fp. case_bool_decide as HJ; [destruct (di_IsSlashed fp)|];
    intros [= <- _ <-]; rewrite fmap_app; (split; [done|]);
    [by apply zeroed_set|by apply zeroed_set|apply zeroed_refl].
Qed.

(** The keys of the providers stay. *)
Lemma resume_fps_spec J blk l s ps acc s' ps' acc' :
  foldl (resume_fp J blk) (s, ps, acc) l = (s', ps', acc') →
  di_BtcPk <$> acc' = (di_BtcPk <$> acc) ++ (di_BtcPk <$> l) ∧
  zeroed_at J blk (di_BtcPk <$> l) s s'.
Proof.
  revert s ps acc. induction l as [|fp l IH]; intros s ps acc Hf; cbn [foldl] in Hf.
  { injection Hf as <- _ <-. rewrite app_nil_r. split; [done|apply zeroed_refl]. }
  destruct (resume_fp J blk (s, ps, acc) fp) as [[s1 ps1] acc1] eqn:H1.
  apply resume_fp_spec in H1 as [Hk1 Hz1]. apply IH in Hf as [Hk Hz]. split.
  - rewrite Hk, Hk1. by rewrite <- app_assoc.
  - by eapply zeroed_trans.
Qed.

(** What the proposal may write. *)
Record resumed (J : gset string) s s' : Prop := {
  rs_frame : set_tracker (set_cache (set_power s' (votingPower s)) (votingPowerDistCache s))
    (signingTracker s) = s;
  rs_grows : tracker_grows s s';
  rs_kept : ∀ h pk, is_Some (power_at s h !! pk) → is_Some (power_at s' h !! pk);
  rs_power : ∀ h pk, is_Some (power_at s' h !! pk) → is_Some (power_at s h !! pk) ∨
    hex_EncodeToString pk ∈ J ∧
    ∃ dc, votingPowerDistCache s !! h = Some dc ∧ pk ∈ di_BtcPk <$> FinalityProviders dc;
  rs_cache : ∀ h, votingPowerDistCache s' !! h = votingPowerDistCache s !! h ∨
    ∃ dc dc', votingPowerDistCache s !! h = Some dc ∧ votingPowerDistCache s' !! h = Some dc' ∧
      di_BtcPk <$> FinalityProviders dc' ≡ₚ di_BtcPk <$> FinalityProviders dc ∧
      ∀ pk, pk ∈ di_BtcPk <$> active_fps dc' → pk ∈ di_BtcPk <$> active_fps dc ∨ tracked s' pk;
}.

Lemma resumed_refl J s : resumed J s s.
Proof. split; [by destruct s|reflexivity|done|by left|by left]. Qed.

Lemma resumed_trans J s1 s2 s3 : resumed J s1 s2 → resumed J s2 s3 → resumed J s1 s3.
Proof.
  intros [F1 G1 K1 P1 C1] [F2 G2 K2 P2 C2]. split.
  - clear -F1 F2. destruct s1, s2, s3. unfold set_tracker, set_cache, set_power in *. simpl in *.
    injection F1; injection F2; intros; subst. reflexivity.
  - by etrans.
  - auto.
  - intros h pk [Hp|(HJ & dc & Hdc & Hin)]%P2; [by apply P1|right]. split; [done|].
    destruct (C1 h) as [Heq|(dc1 & dc2 & H1 & H2 & Hperm & _)].
    + exists dc. by rewrite <- Heq.
    + exists dc1. split; [done|]. rewrite H2 in Hdc. injection Hdc as <-. by rewrite <- Hperm.
  - intros h. destruct (C1 h) as [E1|(a & b & Ha & Hb & Hab & Hact)], (C2 h) as [E2|(c & d & Hc & Hd & Hcd & Hact')].
    + left. congruence.
    + right. exists c, d. rewrite <- E1. split_and!; try done.
    + right. exists a, b. rewrite E2. split_and!; try done.
      intros pk Hpk. destruct (Hact pk Hpk); [by left|right; by apply G2].
    + rewrite Hb in Hc. injection Hc as <-. right. exists a, d. split_and!; [done|done|by rewrite Hcd|].
      intros pk Hpk. destruct (Hact' pk Hpk) as [Hb'|]; [|by right].
      destruct (Hact pk Hb'); [by left|right; by apply G2].
Qed.

Lemma resume_height_spec J ctx s env blk s' env' :
  resume_height J ctx (s, env) blk = Ok (s', env') → resumed J s s'.
Proof.
  intros Hr. unfold resume_height in Hr.
  destruct (GetVotingPowerDistCache s blk) as [dc|] eqn:Hdc; [|done]. apply cache_stored in Hdc.
  cbv zeta in Hr.
  destruct (foldl (resume_fp J blk) _ (FinalityProviders dc)) as [[s1 ps1] fps] eqn:Hf.
  apply resume_fps_spec in Hf as (Hkeys & [Hfr Hkept Hnew]). cbn [fmap list_fmap app] in Hkeys.
  set (dc' := ApplyActiveFinalityProviders _ _) in Hr.
  destruct (ApplyActive_spec (mkDistCache 0 fps 0) (NumActiveFps dc)) as (Hperm & _). fold dc' in Hperm.
  apply HandleFPStateUpdates_spec in Hr as (Hg & Htr & Hfr2).
  assert (signingTracker s1 = signingTracker s) as Ht1 by (by rewrite <- Hfr).
  assert (votingPowerDistCache s1 = votingPowerDistCache s) as Hc1 by (by rewrite <- Hfr).
  assert (votingPowerDistCache s' = <[blk := dc']> (votingPowerDistCache s)) as Hc'.
  { rewrite <- Hc1. by apply (f_equal votingPowerDistCache) in Hfr2. }
  assert (votingPower s' = votingPower s1) as Hp' by by apply (f_equal votingPower) in Hfr2.
  assert (∀ h, power_at s' h = power_at s1 h) as Hpow by (intros h; unfold power_at; by rewrite Hp').
  split.
  - clear -Hfr Hfr2. destruct s, s1, s'. unfold set_tracker, set_cache, set_power, SetVotingPowerDistCache in *.
    simpl in *. injection Hfr; injection Hfr2; intros; subst. reflexivity.
  - intros pk Hpk. apply Hg. simpl. by rewrite Ht1.
  - intros h pk. rewrite Hpow. apply Hkept.
  - intros h pk. rewrite Hpow. intros [|(-> & Hin & HJ)]%Hnew; [by left|right]. split; [done|]. by exists dc.
  - intros h. rewrite Hc', lookup_insert. case_decide as Hh; [|by left]. subst h. right.
    exists dc, dc'. split_and!; [done|done| |done]. rewrite Hperm. cbn [FinalityProviders].
    by rewrite Hkeys.
Qed.

Lemma HandleResume_spec s bs env lc ctx keys halting s' bs' env' :
  keyed bs → jailed_tracked s bs →
  HandleResumeFinalityProposal s bs env lc ctx keys halting = Ok (s', bs', env') →
  ∃ s1 J, judged s s1 ∧ resumed J s1 s' ∧ bs_evolves bs bs' ∧ jailed_tracked s1 bs' ∧
    (∀ pk, hex_EncodeToString pk ∈ J → registered bs' pk ∧ (tracked s1 pk ∨ slashed bs' pk)) ∧
    FinalityActivationHeight (GetParams s) ≤ halting ∧ (Z.of_N halting ≤ Epoching.hi_Height ctx)%Z.
Proof.
  intros Hk Hjt Hr. unfold HandleResumeFinalityProposal in Hr. cbv zeta in Hr.
  apply require_bind_Ok in Hr as [H1 Hr]. apply require_bind_Ok in Hr as [H2 Hr].
  apply negb_true_iff, N.ltb_ge in H1. apply negb_true_iff, Z.ltb_ge in H2.
  apply bind_Ok in Hr as ([[s1 bs1] J] & Hj & Hr). apply bind_Ok in Hr as ([s2 env2] & Hh & Hr). inv_ok.
  apply resume_jails_spec in Hj as (Hjd & He & Hjt1 & HJ); [|done|done|set_solver].
  exists s1, J. split_and!; try done.
  apply (fold_res_invariant (λ acc, resumed J s1 acc.1)) in Hh; [done| |apply resumed_refl].
  intros [sa ea] h [sb eb] _ Ha Hb. simpl in *. eapply resumed_trans; [done|]. by eapply resume_height_spec.
Qed.
End resume.
End FinalityResume.
