(* ===== verification/FinalityChain.v ===== *)
(** x/finality over the life of the chain.

    [step] is the step relation of the module: blocks begin and end, and in between
    votes, commitments, changes of parameters, proposals to resume finality and steps of
    the staking module happen in any order.  [fin_inv] holds in every reachable state;
    from it follow the promises of the module: double voters are slashed
    ([double_voters_are_slashed]) and their keys are public
    ([slashing_evidence_reveals_key]), a block becomes final only by the votes of more
    than two thirds of the power ([final_blocks_have_quorum]), and what is final stays
    final ([finality_is_irreversible]).  When the end of a block can panic is the subject
    of [FinalityHalts]. *)
From stdpp Require Import base numbers list sorting gmap strings.
From S2P Require Import Prelude KVStore Bytes Hex Secp256k1 Eots BtcLightClient Epoching.
From S2P Require Import BtcStaking Finality FinalityPower FinalityVotes.
From S2P Require Import FinalityPowerSpec FinalityTally FinalityLiveness FinalityRand FinalityVotesSpec.
From S2P Require Import FinalityBegin FinalityResume.

Module FinalityChain.
Import BtcStaking Finality FinalityPower FinalityVotes.
Import FinalityPowerSpec FinalityTally FinalityLiveness FinalityRand FinalityVotesSpec.
Import FinalityBegin FinalityResume.
Local Open Scope N_scope.
Implicit Types (s : FinState) (bs : BSState) (pk : bytes) (ctx : Epoching.HeaderInfo).

Section chain.
Context {LC : BTCLightClientKeeper} {B : Bech32} {H : FinalityHooks}.
Implicit Types (lc : LightClient) (env : Env).

(** ** The steps of the module *)
Context {M : Merkle} {I : IncentiveKeeper} {C : Curve}.
Context (schnorr_Verify : bytes → bytes → point → bool).

(** The height of the current block, whether it is in progress, and the states of
    x/finality and x/btcstaking. *)
Record config := mkConfig {
  cf_height : N;
  cf_open : bool;
  cf_fin : FinState;
  cf_bs : BSState;
}.

(** The width of an [int64] parameter. *)
Definition params_width (p : Params) : Prop :=
  (SignedBlocksWindow p < 2 ^ 63)%Z ∧ (FinalitySigTimeout p < 2 ^ 63)%Z.

Definition genesis_state (p : Params) : FinState :=
  mkFinState ∅ ∅ ∅ ∅ (Some p) ∅ None ∅ ∅ ∅ ∅ None ∅.

(** At genesis no provider is jailed. *)
Inductive initial : config → Prop :=
  | initial_genesis p bs :
      Params_Validate p = true → params_width p → keyed bs → jailed_tracked (genesis_state p) bs →
      initial (mkConfig 0 false (genesis_state p) bs).

(** The staking module keeps providers registered and slashed, and jails nobody by
    itself. *)
Inductive step : config → config → Prop :=
  | step_begin h s bs env lc ev ctx s' bs' env' :
      h + 1 < 2 ^ 62 → Epoching.hi_Height ctx = Z.of_N (h + 1) →
      BeginBlocker s bs env lc ev ctx = Ok (s', bs', env') →
      step (mkConfig h false s bs) (mkConfig (h + 1) true s' bs')
  | step_vote h s bs env lc ev ctx req s' bs' env' :
      Epoching.hi_Height ctx = Z.of_N h →
      AddFinalitySig s bs env lc ev ctx req = Ok (s', bs', env') →
      step (mkConfig h true s bs) (mkConfig h true s' bs')
  | step_commit h s bs ev ctx req s' :
      cp_StartHeight req < 2 ^ 64 → cp_NumPubRand req < 2 ^ 64 →
      CommitPubRandList schnorr_Verify s bs ev ctx req = Ok s' →
      step (mkConfig h true s bs) (mkConfig h true s' bs)
  | step_unjail h s bs lc ctx signer fpBtcPk bs' :
      UnjailFinalityProvider s bs lc ctx signer fpBtcPk = Ok bs' →
      step (mkConfig h true s bs) (mkConfig h true s bs')
  | step_params h s bs authority reqAuthority p s' :
      params_width p → UpdateParams authority reqAuthority s p = Ok s' →
      step (mkConfig h true s bs) (mkConfig h true s' bs)
  | step_resume h s bs env lc ctx authority req s' bs' env' :
      Epoching.hi_Height ctx = Z.of_N h →
      ResumeFinalityProposal authority s bs env lc ctx req = Ok (s', bs', env') →
      step (mkConfig h true s bs) (mkConfig h true s' bs')
  | step_staking h o s bs bs' :
      bs_evolves bs bs' → no_new_jail bs bs' → step (mkConfig h o s bs) (mkConfig h o s bs')
  | step_end h s bs env lc ctx s' bs' env' :
      Epoching.hi_Height ctx = Z.of_N h →
      EndBlocker s bs env lc ctx = Ok (s', bs', env') →
      step (mkConfig h true s bs) (mkConfig h false s' bs').

Definition reachable (c : config) : Prop := ∃ c0, initial c0 ∧ rtc step c0 c.

(** ** The invariant *)

(** Blocks are indexed below this height. *)
Definition top (c : config) : N := if cf_open c then cf_height c else cf_height c + 1.

(** A provider with an entry of voting power can be judged. *)
Definition can_judge s bs pk : Prop := registered bs pk ∧ (tracked s pk ∨ slashed bs pk).

Record fin_inv (c : config) : Prop := {
  fi_height : cf_height c < 2 ^ 62 ∧ (cf_open c = true → 0 < cf_height c);
  fi_keyed : keyed (cf_bs c);
  fi_jailed : jailed_tracked (cf_fin c) (cf_bs c);
  fi_params : Params_Validate (GetParams (cf_fin c)) = true ∧ params_width (GetParams (cf_fin c));
  fi_commits : commits_ok (cf_fin c);
  fi_tables : ∀ h, has_table (cf_fin c) h = true → 0 < h ≤ cf_height c;
  fi_below : ∀ h b, blocks (cf_fin c) !! h = Some b → h < top c ∧ ib_Height b = h;
  fi_next : getNextHeightToFinalize (cf_fin c) ≤ top c;
  fi_final : ∀ h, is_final (cf_fin c) h = true →
    h < getNextHeightToFinalize (cf_fin c) ∧ has_table (cf_fin c) h = true;
  fi_votes : votes_ok (cf_fin c) (cf_bs c);
  fi_power : ∀ h pk, is_Some (power_at (cf_fin c) h !! pk) → can_judge (cf_fin c) (cf_bs c) pk;
  fi_member : ∀ h pk, is_Some (power_at (cf_fin c) h !! pk) → GetNextHeightToReward (cf_fin c) ≤ h →
    ∃ dc, votingPowerDistCache (cf_fin c) !! h = Some dc ∧ pk ∈ di_BtcPk <$> FinalityProviders dc;
  fi_caches : ∀ h dc, votingPowerDistCache (cf_fin c) !! h = Some dc → 0 < h ≤ cf_height c ∧
    ∀ pk, pk ∈ di_BtcPk <$> FinalityProviders dc → registered (cf_bs c) pk;
  fi_cache : ∀ h, 0 < h ≤ cf_height c → GetNextHeightToReward (cf_fin c) ≤ h →
    is_Some (votingPowerDistCache (cf_fin c) !! h);
  fi_last : ∀ dc, votingPowerDistCache (cf_fin c) !! cf_height c = Some dc →
    ∀ pk, pk ∈ di_BtcPk <$> active_fps dc → tracked (cf_fin c) pk;
  fi_reward : GetNextHeightToReward (cf_fin c) = 0 ∨
    (GetNextHeightToReward (cf_fin c) ≤ top c ∧
     ∃ act, GetBTCStakingActivatedHeight (cf_fin c) = Ok act ∧ act ≤ GetNextHeightToReward (cf_fin c));
}.

Lemma ctx_height_small ctx h : Epoching.hi_Height ctx = Z.of_N h → h < 2 ^ 62 → ctx_height ctx = h.
Proof. intros Hh Hw. unfold ctx_height. rewrite Hh. apply u64_of_Z_small. lia. Qed.

Lemma initial_inv c : initial c → fin_inv c.
Proof.
  intros [p bs Hp Hw Hk Hj].
  assert (∀ h pk, power_at (genesis_state p) h !! pk = None) as Hpow.
  { intros h pk. unfold power_at. simpl. by rewrite !lookup_empty. }
  assert (∀ h, has_table (genesis_state p) h = false) as Ht.
  { intros h. apply bool_decide_eq_false. unfold power_at. simpl. rewrite lookup_empty. by intros []. }
  assert (∀ pk h, commits_of (genesis_state p) pk !! h = None) as Hc.
  { intros pk h. unfold commits_of. simpl. by rewrite !lookup_empty. }
  split; simpl.
  - split; [lia|done].
  - done.
  - done.
  - done.
  - split.
    + intros pk. unfold index_of. simpl. rewrite lookup_empty. constructor.
    + intros pk h. rewrite Hc. unfold index_of. simpl. rewrite lookup_empty. split; [set_solver|by intros []].
    + intros pk h c0. by rewrite Hc.
    + intros pk h1 c1 h2. by rewrite Hc.
  - intros h. by rewrite Ht.
  - intros h b. by rewrite lookup_empty.
  - unfold getNextHeightToFinalize. simpl. lia.
  - intros h. unfold is_final. simpl. by rewrite lookup_empty.
  - split.
    + intros h pk sig. unfold votes_at. simpl. by rewrite !lookup_empty.
    + intros pk h e. unfold evidences_of. simpl. by rewrite !lookup_empty.
    + intros pk h e. unfold evidences_of. simpl. by rewrite !lookup_empty.
  - intros h pk. rewrite Hpow. by intros [].
  - intros h pk. rewrite Hpow. by intros [].
  - intros h dc. by rewrite lookup_empty.
  - intros h Hh. lia.
  - intros dc. by rewrite lookup_empty.
  - by left.
Qed.

(** *** Messages and steps of the staking module *)

Lemma jailed_tracked_mono s bs s' bs' :
  tracker_grows s s' → no_new_jail bs bs' → jailed_tracked s bs → jailed_tracked s' bs'.
Proof. intros Hg Hn Hj pk fp' Hf Hjl. destruct (Hn pk fp' Hf Hjl) as (fp & ? & ?). eapply Hg, Hj; eauto. Qed.

Lemma can_judge_mono s bs s' bs' pk :
  keyed bs → tracker_grows s s' → bs_evolves bs bs' → can_judge s bs pk → can_judge s' bs' pk.
Proof.
  intros Hk Hg He [Hr Ht]. split; [by apply (registered_evolves bs)|].
  destruct Ht; [left; by apply Hg|right; by apply (slashed_evolves bs)].
Qed.

(** The fields that messages leave alone. *)
Definition same_tables s s' : Prop :=
  blocks s' = blocks s ∧ votingPower s' = votingPower s ∧
  votingPowerDistCache s' = votingPowerDistCache s ∧ tracker_grows s s' ∧
  nextHeightToFinalize s' = nextHeightToFinalize s ∧ nextHeightToReward s' = nextHeightToReward s.

Lemma inv_message h o s bs s' bs' :
  fin_inv (mkConfig h o s bs) → same_tables s s' →
  bs_evolves bs bs' → jailed_tracked s' bs' → votes_ok s' bs' →
  Params_Validate (GetParams s') = true → params_width (GetParams s') → commits_ok s' →
  fin_inv (mkConfig h o s' bs').
Proof.
  intros Hinv (Hb & Hp & Hc & Ht & Hn & Hr) He Hj Hv Hpar Hpw Hco.
  destruct Hinv as [I1 I2 I3 I4 I5 I6 I7 I8 I9 I10 I11 I12 I13 I14 I15 I16].
  cbn [cf_height cf_open cf_fin cf_bs] in *.
  assert (∀ h, power_at s' h = power_at s h) as Hpow by (intros; unfold power_at; by rewrite Hp).
  assert (∀ h, has_table s' h = has_table s h) as Htab by (intros; by apply has_table_frame).
  assert (getNextHeightToFinalize s' = getNextHeightToFinalize s) as Hnx
    by (unfold getNextHeightToFinalize; by rewrite Hn).
  assert (GetNextHeightToReward s' = GetNextHeightToReward s) as Hrw
    by (unfold GetNextHeightToReward; by rewrite Hr).
  split; cbn [cf_height cf_open cf_fin cf_bs].
  - done.
  - by apply He.
  - done.
  - done.
  - done.
  - intros h'. rewrite Htab. apply I6.
  - intros h' b. rewrite Hb. apply I7.
  - by rewrite Hnx.
  - intros h'. unfold is_final. rewrite Hb, Hnx, Htab. apply I9.
  - done.
  - intros h' pk. rewrite Hpow. intros Hs. by eapply can_judge_mono, I11.
  - intros h' pk. rewrite Hpow, Hrw, Hc. apply I12.
  - intros h' dc. rewrite Hc. intros Hdc. destruct (I13 h' dc Hdc) as [Hh Hreg]. split; [done|].
    intros pk Hpk. by apply (registered_evolves bs), Hreg.
  - intros h'. rewrite Hrw, Hc. apply I14.
  - intros dc. rewrite Hc. intros Hdc pk Hpk. by eapply Ht, I15.
  - rewrite Hrw, (activated_same s) by done. done.
Qed.

Lemma inv_staking h o s bs bs' :
  fin_inv (mkConfig h o s bs) → bs_evolves bs bs' → no_new_jail bs bs' → fin_inv (mkConfig h o s bs').
Proof.
  intros Hinv He Hn. pose proof Hinv as [_ ? Hj [? ?] ? _ _ _ _ ? _ _ _ _ _ _]. cbn in *.
  apply (inv_message h o s bs); try done.
  - by apply (jailed_tracked_mono s bs).
  - eapply (votes_ok_extends s); [done|by apply fin_extends_same|done..].
Qed.

Lemma vote_accepted_frame s bs lc ctx v s' bs' :
  vote_accepted s bs lc ctx v s' bs' →
  same_tables s s' ∧ f_params s' = f_params s ∧ pubRandCommits s' = pubRandCommits s ∧
  pubRandCommitIndex s' = pubRandCommitIndex s.
Proof. intros Ha. destruct Ha; (split; [unfold same_tables, tracker_grows; by split_and!|done]). Qed.

Lemma commits_ok_frame s s' :
  pubRandCommits s' = pubRandCommits s → pubRandCommitIndex s' = pubRandCommitIndex s →
  commits_ok s → commits_ok s'.
Proof.
  intros Hc Hi [H1 H2 H3 H4].
  split; unfold index_of, commits_of in *; rewrite ?Hc, ?Hi; [apply H1|apply H2|apply H3|].
  intros pk h1 c1 h2. apply H4.
Qed.

Lemma set_fp_no_new_jail bs pk fp fp' :
  keyed bs → finalityProviders bs !! pk = Some fp → fp_BtcPk fp' = fp_BtcPk fp →
  (IsJailed fp' = true → IsJailed fp = true) → no_new_jail bs (SetFinalityProvider bs fp').
Proof.
  intros Hk Hfp Hpk Hj pk' fp''. simpl. rewrite Hpk, (Hk pk fp Hfp), lookup_insert_Some.
  intros [[<- <-]|[_ Hf]] Hjl; eauto.
Qed.

Lemma vote_no_new_jail s bs lc ctx v s' bs' :
  keyed bs → vote_accepted s bs lc ctx v s' bs' → no_new_jail bs bs'.
Proof.
  intros Hk Ha.
  assert (∀ fp, finalityProviders bs !! v_FpBtcPk v = Some fp →
    no_new_jail bs (note_vote bs fp (v_BlockHeight v)) ∧ keyed (note_vote bs fp (v_BlockHeight v))) as Hnote.
  { intros fp Hfp. split; [|by apply (note_vote_evolves bs (v_FpBtcPk v))].
    unfold note_vote. case_match; [|reflexivity]. by eapply set_fp_no_new_jail. }
  assert (∀ bs1 bs2 pk, keyed bs1 → slashFinalityProvider bs1 lc ctx pk = Ok bs2 → no_new_jail bs1 bs2) as Hslash.
  { intros bs1 bs2 pk Hk1 Hs. unfold slashFinalityProvider, SlashFinalityProvider in Hs.
    apply must_Ok, map_err_Ok in Hs. apply bind_Ok in Hs as (fp & Hfp & Hs).
    apply of_option_Ok in Hfp. apply require_bind_Ok in Hs as [_ Hs].
    apply bind_Ok in Hs as (tip & _ & Hs). inv_ok.
    by apply (set_fp_no_new_jail bs1 pk fp (setSlashed fp (ctx_height ctx) (BtcLightClient.Height tip))). }
  destruct Ha as [b fp Hchk|b fp sig bs1 Hchk ? ? Hs|b fp Hchk|b fp e bs1 Hchk ? ? Hs].
  - reflexivity.
  - by eapply Hslash.
  - by apply Hnote, Hchk.
  - destruct (Hnote fp (vc_fp _ _ _ _ _ Hchk)) as [Hn Hk1]. etrans; [done|]. by eapply Hslash.
Qed.

Lemma inv_vote h s bs env lc ev ctx req s' bs' env' :
  fin_inv (mkConfig h true s bs) → Epoching.hi_Height ctx = Z.of_N h →
  AddFinalitySig s bs env lc ev ctx req = Ok (s', bs', env') →
  fin_inv (mkConfig h true s' bs').
Proof.
  intros Hinv Hh Ha. pose proof Hinv as [[Hw Hpos] Hk Hj [? ?] Hco _ Hbel _ _ Hvo _ _ _ _ _ _]. cbn in *.
  assert (ctx_height ctx = h) as Hctx by (by apply ctx_height_small).
  apply AddFinalitySig_accepted in Ha as (v & _ & Ha); [|done].
  destruct (vote_accepted_frame _ _ _ _ _ _ _ Ha) as (Hsame & Hp & Hc & Hi).
  assert (GetParams s' = GetParams s) as Hpar by (unfold GetParams; by rewrite Hp).
  specialize (Hpos eq_refl).
  apply (inv_message h true s bs); rewrite ?Hpar; try done.
  - eapply vote_accepted_evolves; [done| |done]. lia.
  - apply (jailed_tracked_mono s bs); [apply Hsame|by eapply vote_no_new_jail|done].
  - eapply vote_accepted_ok; try done; [lia|]. intros h' [b Hb]. destruct (Hbel h' b Hb) as [Hb' _].
    unfold top in Hb'. simpl in Hb'. lia.
  - by apply (commits_ok_frame s).
Qed.

Lemma inv_commit h s bs ev ctx req s' :
  fin_inv (mkConfig h true s bs) → cp_StartHeight req < 2 ^ 64 → cp_NumPubRand req < 2 ^ 64 →
  CommitPubRandList schnorr_Verify s bs ev ctx req = Ok s' → fin_inv (mkConfig h true s' bs).
Proof.
  intros Hinv Hw1 Hw2 Hc. pose proof Hinv as [_ Hk Hj [? ?] Hco _ _ _ _ Hvo _ _ _ _ _ _]. cbn in *.
  apply CommitPubRandList_spec in Hc as (pk & c & _ & Hs & _ & Hcok & Hact & Hnew); [|done..].
  pose proof (SetPubRandCommit_stores _ _ _ _ Hs) as (Hcs & _ & Hfr).
  assert (f_params s' = f_params s ∧ votes s' = votes s ∧ evidences s' = evidences s ∧ same_tables s s')
    as (Hp & Hv & Hev & Hsame).
  { clear -Hfr. destruct s, s'. unfold set_commits in Hfr. simpl in *. injection Hfr; intros; subst.
    unfold same_tables, tracker_grows. simpl. by split_and!. }
  assert (GetParams s' = GetParams s) as Hpar by (unfold GetParams; by rewrite Hp).
  apply (inv_message h true s bs); rewrite ?Hpar; try done.
  - by apply (jailed_tracked_mono s bs); [apply Hsame|reflexivity|].
  - eapply (votes_ok_extends s); try done. split.
    + intros h' b Hb. destruct Hsame as [-> _]. eauto.
    + intros pk' h' c'. by eapply covers_set.
  - by eapply commits_ok_set.
Qed.

Lemma UpdateParams_spec authority reqAuthority s p s' :
  UpdateParams authority reqAuthority s p = Ok s' →
  s' = set_params s (Some p) ∧ Params_Validate p = true.
Proof.
  intros Hu. unfold UpdateParams, SetParams in Hu. apply require_bind_Ok in Hu as [_ Hu].
  apply require_bind_Ok in Hu as [Hv Hu]. apply require_bind_Ok in Hu as [_ Hu]. by inv_ok.
Qed.

Lemma inv_params h s bs authority reqAuthority p s' :
  fin_inv (mkConfig h true s bs) → params_width p →
  UpdateParams authority reqAuthority s p = Ok s' → fin_inv (mkConfig h true s' bs).
Proof.
  intros Hinv Hw [-> Hv]%UpdateParams_spec. pose proof Hinv as [_ Hk Hj _ Hco _ _ _ _ Hvo _ _ _ _ _ _]. cbn in *.
  apply (inv_message h true s bs); try done.
  - unfold same_tables, tracker_grows. by split_and!.
  - by eapply (votes_ok_extends s); [|apply fin_extends_same|..].
  - by apply (commits_ok_frame s).
Qed.

Lemma unjail_evolves s bs lc ctx signer fpBtcPk bs' :
  keyed bs → UnjailFinalityProvider s bs lc ctx signer fpBtcPk = Ok bs' →
  bs_evolves bs bs' ∧ no_new_jail bs bs'.
Proof.
  intros Hk Hu. unfold UnjailFinalityProvider in Hu. destruct fpBtcPk as [pk|]; [|done].
  apply bind_Ok in Hu as (fp0 & _ & Hu). apply require_bind_Ok in Hu as [_ Hu].
  apply require_bind_Ok in Hu as [_ Hu]. apply bind_Ok in Hu as (info & _ & Hu).
  apply bind_Ok in Hu as (passed & _ & Hu). apply require_bind_Ok in Hu as [_ Hu].
  apply map_err_Ok in Hu. unfold BtcStaking.UnjailFinalityProvider in Hu.
  apply bind_Ok in Hu as (fp & Hfp & Hu). apply of_option_Ok in Hfp.
  apply require_bind_Ok in Hu as [_ Hu]. apply require_bind_Ok in Hu as [_ Hu].
  apply bind_Ok in Hu as (tip & _ & Hu). inv_ok. split.
  - etrans; [|apply add_event_evolves]. by eapply set_fp_evolves.
  - by apply (set_fp_no_new_jail bs pk fp (setJailed fp false)).
Qed.

(** *** The beginning of a block *)

Lemma began_frame s bs ev height s' bs' dc :
  began s bs ev height s' bs' dc →
  blocks s' = blocks s ∧ votes s' = votes s ∧ evidences s' = evidences s ∧
  f_params s' = f_params s ∧ pubRandCommits s' = pubRandCommits s ∧
  pubRandCommitIndex s' = pubRandCommitIndex s ∧
  nextHeightToFinalize s' = nextHeightToFinalize s ∧ nextHeightToReward s' = nextHeightToReward s.
Proof.
  intros [_ _ _ _ _ _ _ _ Hf]. destruct s, s'. unfold set_tracker, set_cache, set_power in Hf. simpl in *.
  injection Hf; intros; subst. split_and!; reflexivity.
Qed.

Lemma active_member dc pk : pk ∈ di_BtcPk <$> active_fps dc → pk ∈ di_BtcPk <$> FinalityProviders dc.
Proof.
  intros (fp & -> & Hfp)%list_elem_of_fmap. apply list_elem_of_fmap_2.
  unfold active_fps in Hfp. apply elem_of_take in Hfp as (i & Hfp & _). by eapply list_elem_of_lookup_2.
Qed.

Lemma power_has_table s h pk : is_Some (power_at s h !! pk) → has_table s h = true.
Proof. intros Hp. apply has_table_power. by exists pk. Qed.

(** Tables that are added keep the activated height, or lower it. *)
Lemma activated_le s s' act :
  (∀ h, has_table s h = true → has_table s' h = true) → GetBTCStakingActivatedHeight s = Ok act →
  ∃ act', GetBTCStakingActivatedHeight s' = Ok act' ∧ act' ≤ act.
Proof.
  intros Hk [Ht _]%activated_Ok. apply Hk in Ht.
  destruct (GetBTCStakingActivatedHeight s') as [act'|e|] eqn:Ha.
  - exists act'. split; [done|]. apply activated_Ok in Ha as [_ Hmin]. by apply Hmin.
  - rewrite activated_Err in Ht by (by rewrite Ha). done.
  - rewrite activated_Err in Ht by (by rewrite Ha). done.
Qed.

Lemma inv_begin h s bs ev s' bs' dc :
  h + 1 < 2 ^ 62 → fin_inv (mkConfig h false s bs) → began s bs ev (h + 1) s' bs' dc →
  fin_inv (mkConfig (h + 1) true s' bs').
Proof.
  intros Hw [I1 I2 I3 I4 I5 I6 I7 I8 I9 I10 I11 I12 I13 I14 I15 I16] Hbg.
  destruct (began_frame _ _ _ _ _ _ _ Hbg) as (Hb & Hv & Hev & Hp & Hc & Hi & Hn & Hr).
  destruct Hbg as [G1 G2 G3 G4 _ G6 G7 G8 _].
  cbn [cf_height cf_open cf_fin cf_bs top] in *.
  assert (u64_sub (h + 1) 1 = h) as Hprev by (rewrite u64_sub_small by lia; lia). rewrite Hprev in G6, G8.
  assert (GetParams s' = GetParams s) as Hpar by (unfold GetParams; by rewrite Hp).
  assert (∀ h' pk, is_Some (power_at s h' !! pk) → 0 < h' ≤ h) as Hlow.
  { intros h' pk Hpk. eapply I6, power_has_table, Hpk. }
  assert (∀ h', has_table s h' = true → has_table s' h' = true) as Hold.
  { intros h' Ht. destruct (I6 h' Ht) as [? ?]. unfold has_table, HasVotingPowerTable.
    by rewrite G4 by lia. }
  assert (∀ pk, pk ∈ di_BtcPk <$> FinalityProviders dc → registered bs pk) as Hreg.
  { intros pk (fp & -> & Hfp)%list_elem_of_fmap. destruct (G6 fp Hfp) as [(dc0 & Hdc0 & Hin)|]; [|done].
    by apply (I13 h dc0 Hdc0). }
  assert (∀ pk, pk ∈ di_BtcPk <$> active_fps dc → tracked s' pk) as Htrk.
  { intros pk Hpk. destruct (G8 pk Hpk) as [(dc0 & Hdc0 & Hin)|]; [|done]. by apply G7, (I15 dc0). }
  assert (bs_evolves bs bs') as He.
  { intros Hk. split; [intros pk fp; rewrite G1; apply Hk|]. intros pk fp Hfp. rewrite G1. eauto. }
  assert (getNextHeightToFinalize s' = getNextHeightToFinalize s) as Hnx
    by (unfold getNextHeightToFinalize; by rewrite Hn).
  assert (GetNextHeightToReward s' = GetNextHeightToReward s) as Hrw
    by (unfold GetNextHeightToReward; by rewrite Hr).
  split; cbn [cf_height cf_open cf_fin cf_bs top].
  - split; [done|lia].
  - by apply He.
  - apply (jailed_tracked_mono s bs); [done| |done]. intros pk fp. rewrite G1. eauto.
  - by rewrite Hpar.
  - by apply (commits_ok_frame s).
  - intros h' (pk & Hpk)%has_table_power. apply G3 in Hpk as [Hpk|[-> _]]; [|lia].
    specialize (Hlow h' pk Hpk). lia.
  - intros h' b. rewrite Hb. apply I7.
  - by rewrite Hnx.
  - intros h'. unfold is_final. rewrite Hb, Hnx. intros Hf. destruct (I9 h' Hf) as [? Ht]. auto.
  - by eapply (votes_ok_extends s); [done|apply fin_extends_same|..].
  - intros h' pk Hpk. destruct (G3 h' pk Hpk) as [Ho|[-> Ha]].
    + by apply (can_judge_mono s bs), (I11 h').
    + split; [|left; by apply Htrk]. by apply (registered_evolves bs), Hreg, active_member.
  - intros h' pk Hpk. rewrite Hrw, G2. intros Hle. destruct (G3 h' pk Hpk) as [Ho|[-> Ha]].
    + specialize (Hlow h' pk Ho). rewrite lookup_insert_ne by lia. by apply I12.
    + exists dc. rewrite lookup_insert_eq. split; [done|]. by apply active_member.
  - intros h' dc'. rewrite G2, lookup_insert_Some. intros [[<- <-]|[_ Hdc]].
    + split; [lia|]. intros pk Hpk. by apply (registered_evolves bs), Hreg.
    + destruct (I13 h' dc' Hdc) as [? Hr']. split; [lia|]. intros pk Hpk.
      by apply (registered_evolves bs), Hr'.
  - intros h'. rewrite Hrw, G2, lookup_insert_is_Some. intros Hh' Hrw'.
    destruct (decide (h + 1 = h')); [by left|right]. split; [done|]. apply I14; [lia|done].
  - intros dc'. rewrite G2, lookup_insert_eq. intros [= <-]. done.
  - rewrite Hrw. destruct I16 as [|(Hle & act & Ha & Hge)]; [by left|]. right. split; [done|].
    destruct (activated_le s s' act Hold Ha) as (act' & ? & ?). exists act'. split; [done|lia].
Qed.

(** *** Resuming finality *)

Lemma judged_same s s' : judged s s' →
  same_tables s s' ∧ votes s' = votes s ∧ evidences s' = evidences s ∧ f_params s' = f_params s ∧
  pubRandCommits s' = pubRandCommits s ∧ pubRandCommitIndex s' = pubRandCommitIndex s.
Proof.
  intros [Hg Hf]. unfold same_tables. clear -Hg Hf. destruct s, s'. unfold set_tracker, set_bitmap in Hf.
  simpl in *. injection Hf; intros; subst. split_and!; done.
Qed.

(** Writing signing infos keeps the invariant. *)
Lemma inv_judged h o s bs s' bs' :
  fin_inv (mkConfig h o s bs) → judged s s' → bs_evolves bs bs' → jailed_tracked s' bs' →
  fin_inv (mkConfig h o s' bs').
Proof.
  intros Hinv (Hs & Hv & Hev & Hp & Hc & Hi)%judged_same He Hj.
  pose proof Hinv as [_ ? _ [? ?] ? _ _ _ _ ? _ _ _ _ _ _]. cbn [cf_height cf_open cf_fin cf_bs] in *.
  assert (GetParams s' = GetParams s) as Hpar by (unfold GetParams; by rewrite Hp).
  apply (inv_message h o s bs); rewrite ?Hpar; try done.
  - eapply (votes_ok_extends s); try done. apply fin_extends_same; [apply Hs|done].
  - by apply (commits_ok_frame s).
Qed.

Lemma resumed_frame J s s' : resumed J s s' →
  blocks s' = blocks s ∧ votes s' = votes s ∧ evidences s' = evidences s ∧ f_params s' = f_params s ∧
  pubRandCommits s' = pubRandCommits s ∧ pubRandCommitIndex s' = pubRandCommitIndex s ∧
  nextHeightToFinalize s' = nextHeightToFinalize s ∧ nextHeightToReward s' = nextHeightToReward s.
Proof.
  intros [Hf _ _ _ _]. clear -Hf. destruct s, s'. unfold set_tracker, set_cache, set_power in Hf. simpl in *.
  injection Hf; intros; subst. split_and!; reflexivity.
Qed.

(** A cache after the proposal has the providers of the one before. *)
Lemma resumed_cache J s s' h : resumed J s s' →
  (∀ dc, votingPowerDistCache s !! h = Some dc → ∃ dc', votingPowerDistCache s' !! h = Some dc' ∧
     ∀ pk, pk ∈ di_BtcPk <$> FinalityProviders dc → pk ∈ di_BtcPk <$> FinalityProviders dc') ∧
  (∀ dc', votingPowerDistCache s' !! h = Some dc' → ∃ dc, votingPowerDistCache s !! h = Some dc ∧
     (∀ pk, pk ∈ di_BtcPk <$> FinalityProviders dc' → pk ∈ di_BtcPk <$> FinalityProviders dc) ∧
     ∀ pk, pk ∈ di_BtcPk <$> active_fps dc' → pk ∈ di_BtcPk <$> active_fps dc ∨ tracked s' pk).
Proof.
  intros [_ _ _ _ Hc]. destruct (Hc h) as [->|(d & d' & Hd & Hd' & Hperm & Hact)].
  - split; intros dc Hdc; exists dc; auto.
  - rewrite Hd, Hd'. split.
    + intros dc [= <-]. exists d'. split; [done|]. intros pk. by rewrite Hperm.
    + intros dc [= <-]. exists d. split; [done|]. split; [|done]. intros pk. by rewrite Hperm.
Qed.

Lemma inv_resumed h o s bs J s' :
  fin_inv (mkConfig h o s bs) → resumed J s s' →
  (∀ pk, hex_EncodeToString pk ∈ J → can_judge s bs pk) → fin_inv (mkConfig h o s' bs).
Proof.
  intros [I1 I2 I3 I4 I5 I6 I7 I8 I9 I10 I11 I12 I13 I14 I15 I16] Hres HJ.
  destruct (resumed_frame _ _ _ Hres) as (Hb & Hv & Hev & Hp & Hc & Hi & Hn & Hr).
  pose proof (λ h, resumed_cache J s s' h Hres) as Hcache. destruct Hres as [_ Hg Hkept Hnew _].
  cbn [cf_height cf_open cf_fin cf_bs] in *.
  assert (GetParams s' = GetParams s) as Hpar by (unfold GetParams; by rewrite Hp).
  assert (getNextHeightToFinalize s' = getNextHeightToFinalize s) as Hnx
    by (unfold getNextHeightToFinalize; by rewrite Hn).
  assert (GetNextHeightToReward s' = GetNextHeightToReward s) as Hrw
    by (unfold GetNextHeightToReward; by rewrite Hr).
  assert (∀ h', has_table s h' = true → has_table s' h' = true) as Hold.
  { intros h' (pk & Hpk)%has_table_power. by eapply power_has_table, Hkept. }
  assert (∀ pk, can_judge s bs pk → can_judge s' bs pk) as Hcj.
  { intros pk. by apply can_judge_mono. }
  split; cbn [cf_height cf_open cf_fin cf_bs].
  - done.
  - done.
  - by apply (jailed_tracked_mono s bs).
  - by rewrite Hpar.
  - by apply (commits_ok_frame s).
  - intros h' (pk & Hpk)%has_table_power. apply Hnew in Hpk as [Hpk|(_ & dc & Hdc & _)].
    + by eapply I6, power_has_table.
    + by apply (I13 h' dc).
  - intros h' b. rewrite Hb. apply I7.
  - by rewrite Hnx.
  - intros h'. unfold is_final. rewrite Hb, Hnx. intros Hf. destruct (I9 h' Hf) as [? ?]. auto.
  - by eapply (votes_ok_extends s); [done|apply fin_extends_same|..].
  - intros h' pk [Hpk|[HJp _]]%Hnew; [by eapply Hcj, I11|]. by apply Hcj, HJ.
  - intros h' pk Hpk. rewrite Hrw. intros Hle.
    assert (∃ dc, votingPowerDistCache s !! h' = Some dc ∧ pk ∈ di_BtcPk <$> FinalityProviders dc)
      as (dc & Hdc & Hin).
    { apply Hnew in Hpk as [Hpk|[_ ?]]; [by apply I12|done]. }
    destruct (proj1 (Hcache h') dc Hdc) as (dc' & Hdc' & Hin'). exists dc'. auto.
  - intros h' dc' Hdc'. destruct (proj2 (Hcache h') dc' Hdc') as (dc & Hdc & Hin & _).
    destruct (I13 h' dc Hdc) as [? Hreg]. split; [done|]. auto.
  - intros h' Hh'. rewrite Hrw. intros Hle. destruct (I14 h' Hh' Hle) as [dc Hdc].
    destruct (proj1 (Hcache h') dc Hdc) as (dc' & Hdc' & _). by exists dc'.
  - intros dc' Hdc' pk Hpk. destruct (proj2 (Hcache h) dc' Hdc') as (dc & Hdc & _ & Hact).
    destruct (Hact pk Hpk) as [Ha|]; [|done]. by apply Hg, (I15 dc).
  - rewrite Hrw. destruct I16 as [|(Hle & act & Ha & Hge)]; [by left|]. right. split; [done|].
    destruct (activated_le s s' act Hold Ha) as (act' & ? & ?). exists act'. split; [done|lia].
Qed.

Lemma inv_resume h s bs env lc ctx authority req s' bs' env' :
  fin_inv (mkConfig h true s bs) →
  ResumeFinalityProposal authority s bs env lc ctx req = Ok (s', bs', env') →
  fin_inv (mkConfig h true s' bs').
Proof.
  intros Hinv Hr. unfold ResumeFinalityProposal in Hr. apply require_bind_Ok in Hr as [_ Hr].
  apply map_err_Ok in Hr.
  apply HandleResume_spec in Hr as (s1 & J & Hjd & Hres & He & Hjt & HJ & _);
    [|apply (fi_keyed _ Hinv)|apply (fi_jailed _ Hinv)].
  eapply inv_resumed; [|exact Hres|exact HJ]. by eapply inv_judged.
Qed.

(** *** The end of a block: finalisation *)

Lemma index_current_blocks s ctx h :
  h ≠ ctx_height ctx → blocks (index_current s ctx) !! h = blocks s !! h.
Proof. intros Hne. unfold index_current. case_match; [done|]. simpl. by rewrite lookup_insert_ne. Qed.

Lemma index_current_keyed s ctx h b :
  blocks (index_current s ctx) !! h = Some b →
  blocks s !! h = Some b ∨ h = ctx_height ctx ∧ ib_Height b = h.
Proof.
  unfold index_current. case_match; [by left|]. simpl. rewrite lookup_insert_Some.
  intros [[<- <-]|[_ Hb]]; [by right|by left].
Qed.

(** The fields that finalisation leaves alone. *)
Lemma tally_frame s ctx lo next s' :
  finalised_to (index_current s ctx) lo next s' →
  votes s' = votes s ∧ votingPower s' = votingPower s ∧ f_params s' = f_params s ∧
  votingPowerDistCache s' = votingPowerDistCache s ∧ signingTracker s' = signingTracker s ∧
  pubRandCommits s' = pubRandCommits s ∧ pubRandCommitIndex s' = pubRandCommitIndex s ∧
  evidences s' = evidences s ∧ nextHeightToReward s' = nextHeightToReward s.
Proof.
  intros (F1 & F2 & F3 & F4 & F5 & F6 & F7 & F8 & _ & F10 & _)%finalised_to_frame.
  assert (∀ {A} (f : FinState → A), (∀ s b, f (set_blocks s b) = f s) → f (index_current s ctx) = f s) as Xf.
  { intros A f Hfs. unfold index_current. case_match; [done|]. apply Hfs. }
  rewrite F1, F2, F3, F4, F5, F6, F7, F8, F10.
  split_and!; [apply (Xf _ votes)|apply (Xf _ votingPower)|apply (Xf _ f_params)|apply (Xf _ votingPowerDistCache)
    |apply (Xf _ signingTracker)|apply (Xf _ pubRandCommits)|apply (Xf _ pubRandCommitIndex)
    |apply (Xf _ evidences)|apply (Xf _ nextHeightToReward)]; done.
Qed.

(** What finalisation did, when it returns. *)
Record tally_result (h : N) s ctx act next s' : Prop := {
  tr_act : GetBTCStakingActivatedHeight s = Ok act;
  tr_start : tally_start s act ≤ next;
  tr_end : next ≤ h + 1 ∨ next = tally_start s act;
  tr_settled : ∀ h', tally_start s act ≤ h' < next → settled s h' = true;
  tr_final : ∀ h', is_final s' h' =
    is_final s h' || (bool_decide (tally_start s act ≤ h' < next) && has_table s h');
  tr_next : getNextHeightToFinalize s' =
    if bool_decide (tally_start s act < next) then next else getNextHeightToFinalize s;
  tr_blocks : finalised_to (index_current s ctx) (tally_start s act) next s';
}.

Lemma tally_facts h s bs ctx s' :
  fin_inv (mkConfig h true s bs) → ctx_height ctx = h →
  TallyBlocks s ctx MaxFinalizedRewardedBlocksPerEndBlock = Ok s' →
  ∃ act next, tally_result h s ctx act next s'.
Proof.
  intros [[Hw _] _ _ _ _ I6 I7 I8 _ _ _ _ _ _ _ _] Hctx Ht. cbn [cf_height cf_open cf_fin cf_bs top] in *.
  pose proof (index_current_frame s ctx) as (_ & X2 & X3).
  apply TallyBlocks_inv in Ht as (act & next & Hact & H1 & H2 & H3 & Hf).
  - exists act, next. split; [done|done|by rewrite <- Hctx|intros h' Hh'; by apply H3| | |done].
    + intros h'. rewrite <- (is_final_index_current s ctx), <- (has_table_frame s (index_current s ctx)) by done.
      apply is_final_finalised_to; [done|]. intros h'' Hh''. by apply H3.
    + destruct Hf as (_ & Hf & _). unfold getNextHeightToFinalize. rewrite Hf, X3. by case_match.
  - intros h' b [Hb|[_ ?]]%index_current_keyed; [|done]. by apply (I7 h').
  - unfold MaxFinalizedRewardedBlocksPerEndBlock. lia.
  - lia.
  - intros act [Ha _]%activated_Ok. specialize (I6 act Ha).
    unfold tally_start, MaxFinalizedRewardedBlocksPerEndBlock. lia.
Qed.

Lemma finalised_kept s ctx lo next s' h b :
  h ≠ ctx_height ctx → finalised_to (index_current s ctx) lo next s' → blocks s !! h = Some b →
  ∃ b', blocks s' !! h = Some b' ∧ ib_AppHash b' = ib_AppHash b ∧ ib_Height b' = ib_Height b ∧
    (ib_Finalized b = true → ib_Finalized b' = true).
Proof.
  intros Hne (Hf & _ & _) Hb. rewrite Hf, index_current_blocks, Hb by done.
  destruct (bool_decide _ && _); [exists (mkIndexedBlock (ib_Height b) (ib_AppHash b) true)|exists b]; done.
Qed.

Lemma tally_inv h s bs ctx s' :
  fin_inv (mkConfig h true s bs) → ctx_height ctx = h →
  TallyBlocks s ctx MaxFinalizedRewardedBlocksPerEndBlock = Ok s' →
  fin_inv (mkConfig h false s' bs).
Proof.
  intros Hinv Hctx Hs.
  destruct (tally_facts _ _ _ _ _ Hinv Hctx Hs) as (act & nx & [Hact Hn1 Hn2 _ Hfin Hnx Hf]).
  destruct (tally_frame _ _ _ _ _ Hf) as (F1 & F2 & F3 & F4 & F5 & F6 & F7 & F8 & F9).
  assert (∀ h', has_table s' h' = has_table s h') as Htab by (intros; by apply has_table_frame).
  assert (GetParams s' = GetParams s) as Hpar by (unfold GetParams; by rewrite F3).
  assert (GetNextHeightToReward s' = GetNextHeightToReward s) as Hrw
    by (unfold GetNextHeightToReward; by rewrite F9).
  destruct Hinv as [I1 I2 I3 I4 I5 I6 I7 I8 I9 I10 I11 I12 I13 I14 I15 I16].
  cbn [cf_height cf_open cf_fin cf_bs top] in *.
  split; cbn [cf_height cf_open cf_fin cf_bs top].
  - by split; [apply I1|].
  - done.
  - apply (jailed_tracked_mono s bs); [|done..]. intros pk. by rewrite F5.
  - by rewrite Hpar.
  - by apply (commits_ok_frame s).
  - intros h'. rewrite Htab. apply I6.
  - intros h' b Hb.
    assert (∃ b0, blocks (index_current s ctx) !! h' = Some b0 ∧ ib_Height b = ib_Height b0) as (b0 & Hb0 & Hbh).
    { destruct Hf as (Hf & _ & _). rewrite Hf in Hb. destruct (_ && _); [|eauto].
      apply fmap_Some in Hb as (b0 & ? & ->). by exists b0. }
    rewrite Hbh. apply index_current_keyed in Hb0 as [Hb0|[-> ?]]; [|split; [lia|done]].
    destruct (I7 h' b0 Hb0). split; [lia|done].
  - rewrite Hnx. case_bool_decide; lia.
  - intros h'. rewrite Hfin, Hnx, Htab. intros [Ho|Ho]%orb_true_iff.
    + destruct (I9 h' Ho) as [Hlt Ht]. split; [|done]. case_bool_decide; [|done]. unfold tally_start in *. lia.
    + apply andb_true_iff in Ho as [Hr Ht]. apply bool_decide_eq_true in Hr.
      split; [|done]. rewrite bool_decide_true; lia.
  - eapply (votes_ok_extends s); [done| |reflexivity|done|done|done]. split.
    + intros h' b Hb. assert (h' ≠ ctx_height ctx) as Hne by (specialize (I7 h' b Hb); lia).
      destruct (finalised_kept _ _ _ _ _ _ _ Hne Hf Hb) as (b' & ? & ? & _). by exists b'.
    + intros pk h' c. unfold covers, commits_of. by rewrite F6.
  - intros h' pk. unfold power_at. rewrite F2. intros Hpk. apply (can_judge_mono s bs); [done| |done|].
    + intros pk'. by rewrite F5.
    + by apply (I11 h').
  - intros h' pk. unfold power_at. rewrite F2, Hrw, F4. apply I12.
  - intros h' dc. rewrite F4. apply I13.
  - intros h'. rewrite Hrw, F4. apply I14.
  - intros dc. unfold tracked. rewrite F4, F5. apply I15.
  - rewrite Hrw, (activated_same s) by done. destruct I16 as [|[Hle ?]]; [by left|right]. split; [lia|done].
Qed.

(** *** The end of a block: liveness *)

Lemma UpdateSigningInfo_frame s pk missed height upd si s' :
  UpdateSigningInfo s pk missed height = Ok (upd, si, s') → tracked s pk ∧ ∃ bm, s' = set_bitmap s bm.
Proof.
  intros Hu. unfold UpdateSigningInfo in Hu. apply bind_Ok in Hu as (si0 & Hsi%of_option_Ok & Hu).
  cbv zeta in Hu. split; [by exists si0|].
  assert (s = set_bitmap s (missedBlockBitmap s)) as Hs by by destruct s.
  destruct (height <? sg_StartHeight si0)%Z; [inv_ok; eauto|].
  destruct (SignedBlocksWindow (GetParams s) =? 0)%Z; [done|].
  destruct (GetMissedBlockBitmapValue _ _ _), missed; inv_ok; eauto; by eexists.
Qed.

Lemma judge_frame s bs lc ctx pk missed height s' bs' :
  keyed bs → HandleFinalityProviderLiveness s bs lc ctx pk missed height = Ok (s', bs') →
  judged s s' ∧ bs_evolves bs bs' ∧ (jailed_tracked s bs → jailed_tracked s' bs').
Proof.
  intros Hk Hh. unfold HandleFinalityProviderLiveness in Hh. cbv zeta in Hh.
  assert (judged s s) as Hrefl by (split; [reflexivity|by destruct s]).
  apply bind_Ok in Hh as (fp & _ & Hh). destruct (IsSlashed fp || IsJailed fp); [inv_ok; by split_and!|].
  apply bind_Ok in Hh as ([[upd si] s1] & Hu & Hh). apply UpdateSigningInfo_frame in Hu as [Htr [bm ->]].
  destruct (_ && _).
  - apply bind_Ok in Hh as (bs1 & Hj & Hh). inv_ok.
    pose proof (judged_insert s pk (mkSigningInfo (sg_StartHeight si) 0
      (Epoching.hi_Time ctx + JailDuration (GetParams s))) (delete pk bm)) as Hjd.
    split_and!; [exact Hjd|by eapply jail_evolves|]. intros Hjt pk' fp' Hf' Hj'. apply Hjd.
    apply jail_sets_jailed in Hj as [_ Hjail]; [|done].
    destruct (Hjail pk' fp' Hf' Hj') as [->|(fp0 & ? & ?)]; [done|by eapply Hjt].
  - destruct upd; inv_ok.
    + pose proof (judged_insert s pk si bm) as Hjd. split_and!; [exact Hjd|reflexivity|].
      intros Hjt. eapply jailed_tracked_mono; [apply Hjd|reflexivity|done].
    + split_and!; [|reflexivity|done]. split; [by intros pk' ?|by destruct s].
Qed.

Lemma liveness_frame s bs lc ctx height s' bs' :
  keyed bs → jailed_tracked s bs → HandleLiveness s bs lc ctx height = Ok (s', bs') →
  judged s s' ∧ bs_evolves bs bs' ∧ jailed_tracked s' bs'.
Proof.
  unfold HandleLiveness. intros Hk Hjt Hh.
  apply (fold_res_invariant (λ sb, judged s sb.1 ∧ bs_evolves bs sb.2 ∧ jailed_tracked sb.1 sb.2)) in Hh; [done| |].
  - intros [s1 bs1] x [s2 bs2] _ (Hj & He & Ht) Hx. apply (proj1 (must_Ok _ _)) in Hx. simpl in *.
    apply judge_frame in Hx as (Hj' & He' & Ht'); [|by apply He].
    split_and!; [by eapply judged_trans|by etrans|by apply Ht'].
  - split_and!; [split; [reflexivity|by destruct s]|reflexivity|done].
Qed.

Lemma liveness_inv h o s bs lc ctx height s' bs' :
  fin_inv (mkConfig h o s bs) → HandleLiveness s bs lc ctx height = Ok (s', bs') →
  fin_inv (mkConfig h o s' bs').
Proof.
  intros Hinv Hh. apply liveness_frame in Hh as (Hj & He & Ht);
    [|apply (fi_keyed _ Hinv)|apply (fi_jailed _ Hinv)]. by eapply inv_judged.
Qed.

(** *** The end of a block: rewards *)

(** The height to examine is below the current one. *)
Lemma height_to_examine h o s bs ctx :
  fin_inv (mkConfig h o s bs) → Epoching.hi_Height ctx = Z.of_N h →
  let e := int64 (Epoching.hi_Height ctx - FinalitySigTimeout (GetParams s)) in
  (1 ≤ e)%Z → u64_of_Z e < h.
Proof.
  intros Hinv Hh e He. pose proof (fi_height _ Hinv) as [Hw _].
  pose proof (fi_params _ Hinv) as [Hv [_ Hto]].
  cbn [cf_height cf_open cf_fin cf_bs] in *. unfold Params_Validate in Hv.
  rewrite !andb_true_iff, !negb_true_iff, !Z.leb_gt in Hv.
  unfold e in *. rewrite Hh in *. rewrite int64_small in * by lia.
  rewrite u64_of_Z_pos by lia. lia.
Qed.

(** Rewarding removes caches below the next height to reward and moves it up. *)
Lemma rewarding_facts h s bs env target s' env' :
  fin_inv (mkConfig h false s bs) → u64_of_Z target < h →
  HandleRewarding s env target MaxFinalizedRewardedBlocksPerEndBlock = Ok (s', env') →
  set_reward (set_cache s' (votingPowerDistCache s)) (nextHeightToReward s) = s ∧
  (∀ h', GetNextHeightToReward s' ≤ h' → votingPowerDistCache s' !! h' = votingPowerDistCache s !! h') ∧
  (∀ h' dc, votingPowerDistCache s' !! h' = Some dc → votingPowerDistCache s !! h' = Some dc) ∧
  (nextHeightToReward s' = nextHeightToReward s ∨
   GetNextHeightToReward s ≤ GetNextHeightToReward s' ≤ h + 1 ∧
   ∃ act, GetBTCStakingActivatedHeight s = Ok act ∧ act ≤ GetNextHeightToReward s').
Proof.
  intros Hinv Ht Hr. pose proof (fi_height _ Hinv) as [Hw _]. pose proof (fi_tables _ Hinv) as I6.
  pose proof (fi_reward _ Hinv) as I16. cbn [cf_height cf_open cf_fin cf_bs top] in *.
  unfold HandleRewarding in Hr. apply bind_Ok in Hr as (lo & Hlo & Hr). cbv zeta in Hr.
  assert (GetNextHeightToReward s ≤ lo ≤ h + 1 ∧ ∃ act, GetBTCStakingActivatedHeight s = Ok act ∧ act ≤ lo)
    as (Hb & act & Hact & Hle).
  { destruct (N.eqb_spec (GetNextHeightToReward s) 0) as [Hz|Hz].
    - apply (proj1 (must_Ok _ _)) in Hlo. apply activated_Ok in Hlo as Ha. destruct Ha as [Ha _].
      specialize (I6 lo Ha). split; [lia|]. by exists lo.
    - injection Hlo as <-. destruct I16 as [|(? & act & ? & ?)]; [done|]. split; [lia|]. by exists act. }
  rewrite (u64_add_small lo) in Hr by (unfold MaxFinalizedRewardedBlocksPerEndBlock; lia).
  rewrite u64_sub_small in Hr by (unfold MaxFinalizedRewardedBlocksPerEndBlock; lia).
  set (hi := N.min _ _) in Hr. assert (hi < h) as Hhi by lia.
  apply bind_Ok in Hr as ([[s1 env1] nx] & Hfold & Hr).
  apply reward_fold_inv in Hfold as (Hf & Hnx & Hwh & Hc & Hd); [|apply heights_between_sorted|].
  2:{ apply Forall_forall. intros x Hx%elem_of_heights_between. lia. }
  assert (nx ≤ h + 1) as Hnx'.
  { destruct Hwh as [->|(x & Hx%elem_of_heights_between & ->)]; lia. }
  destruct (N.eqb_spec nx lo) as [->|Hne]; cbn [negb] in Hr; injection Hr as <- _.
  - split_and!.
    + clear -Hf. destruct s, s1. unfold set_cache, set_reward in *. simpl in *. injection Hf; intros; subst. reflexivity.
    + intros h' _. apply Hc. lia.
    + done.
    + left. by rewrite <- Hf.
  - split_and!.
    + clear -Hf. destruct s, s1. unfold set_cache, set_reward, SetNextHeightToReward in *. simpl in *.
      injection Hf; intros; subst. reflexivity.
    + intros h'. change (GetNextHeightToReward (SetNextHeightToReward s1 nx)) with nx. intros Hh'.
      apply Hc. by right.
    + done.
    + right. change (GetNextHeightToReward (SetNextHeightToReward s1 nx)) with nx.
      split; [lia|]. exists act. split; [done|lia].
Qed.

Lemma inv_rewarding h s bs env target s' env' :
  fin_inv (mkConfig h false s bs) → u64_of_Z target < h →
  HandleRewarding s env target MaxFinalizedRewardedBlocksPerEndBlock = Ok (s', env') →
  fin_inv (mkConfig h false s' bs).
Proof.
  intros Hinv Ht Hr. destruct (rewarding_facts _ _ _ _ _ _ _ Hinv Ht Hr) as (Hf & Hc & Hd & Hn).
  assert (GetNextHeightToReward s ≤ GetNextHeightToReward s') as Hle.
  { destruct Hn as [Hn|[? _]]; [|lia]. unfold GetNextHeightToReward. by rewrite Hn. }
  assert (votingPower s' = votingPower s) as Hp by (by rewrite <- Hf).
  destruct Hinv as [I1 I2 I3 I4 I5 I6 I7 I8 I9 I10 I11 I12 I13 I14 I15 I16].
  cbn [cf_height cf_open cf_fin cf_bs top] in *.
  pose proof I3 as J3. pose proof I4 as J4. rewrite <- Hf in J3, J4, I6, I7, I8, I9, I11.
  split; cbn [cf_height cf_open cf_fin cf_bs top];
    [exact I1|exact I2|exact J3|exact J4| |exact I6|exact I7|exact I8|exact I9| |exact I11|..].
  - apply (commits_ok_frame s); [by rewrite <- Hf|by rewrite <- Hf|done].
  - apply (votes_ok_extends s _ bs bs); [done| |reflexivity|by rewrite <- Hf|by rewrite <- Hf|done].
    apply fin_extends_same; by rewrite <- Hf.
  - intros h' pk. unfold power_at. rewrite Hp. intros Hpk Hx. rewrite Hc by done. apply I12; [done|lia].
  - intros h' dc Hdc%Hd. by apply I13.
  - intros h' Hh' Hx. rewrite Hc by done. apply I14; [done|lia].
  - intros dc Hdc%Hd. unfold tracked. replace (signingTracker s') with (signingTracker s) by (by rewrite <- Hf).
    by apply I15.
  - rewrite (activated_same s) by done. destruct Hn as [Hn|(? & act & ? & ?)].
    + unfold GetNextHeightToReward in *. by rewrite Hn.
    + right. split; [lia|]. by exists act.
Qed.

(** A block that is over keeps the invariant. *)
Lemma close_inactive h s bs : fin_inv (mkConfig h true s bs) → fin_inv (mkConfig h false s bs).
Proof.
  intros [I1 I2 I3 I4 I5 I6 I7 I8 I9 I10 I11 I12 I13 I14 I15 I16].
  cbn [cf_height cf_open cf_fin cf_bs top] in *.
  split; cbn [cf_height cf_open cf_fin cf_bs top]; try done.
  - by split; [apply I1|].
  - intros h' b Hb. destruct (I7 h' b Hb). split; [lia|done].
  - lia.
  - destruct I16 as [|[? ?]]; [by left|right]. split; [lia|done].
Qed.

(** What the end of a block does: nothing, or finalisation and then steps that leave
    blocks, votes and voting power alone. *)
Definition same_history s s' : Prop :=
  blocks s' = blocks s ∧ votes s' = votes s ∧ votingPower s' = votingPower s ∧
  nextHeightToFinalize s' = nextHeightToFinalize s ∧ f_params s' = f_params s ∧
  pubRandCommits s' = pubRandCommits s.

Lemma end_cases h s bs env lc ctx s' bs' env' :
  fin_inv (mkConfig h true s bs) → Epoching.hi_Height ctx = Z.of_N h →
  EndBlocker s bs env lc ctx = Ok (s', bs', env') →
  fin_inv (mkConfig h false s' bs') ∧
  (IsFinalityActive s ctx = false ∧ same_history s s' ∨
   ∃ act next s1, tally_result h s ctx act next s1 ∧ same_history s1 s').
Proof.
  intros Hinv Hh He. pose proof (fi_height _ Hinv) as [Hw _]. cbn in Hw.
  pose proof (ctx_height_small ctx h Hh Hw) as Hctx.
  unfold EndBlocker in He. destruct (IsFinalityActive s ctx) eqn:Hact; simpl negb in He; cbv iota in He.
  2:{ inv_ok. split; [by apply close_inactive|by left]. }
  apply bind_Ok in He as (s1 & Ht & He). pose proof (tally_inv _ _ _ _ _ Hinv Hctx Ht) as Hinv1.
  destruct (tally_facts _ _ _ _ _ Hinv Hctx Ht) as (act & next & Htr).
  assert (∀ s2, same_history s1 s2 → true = false ∧ same_history s s2 ∨
    ∃ act next s1, tally_result h s ctx act next s1 ∧ same_history s1 s2) as Hgo.
  { intros s2 Hs2. right. by exists act, next, s1. }
  cbv zeta in He. destruct (Z.leb_spec 1 (int64 (Epoching.hi_Height ctx - FinalitySigTimeout (GetParams s1))))
    as [Hle|]; [|inv_ok; by split; [|apply Hgo]].
  pose proof (height_to_examine _ _ _ _ _ Hinv1 Hh Hle) as Hex.
  apply bind_Ok in He as ([s2 bs2] & Hl & He). pose proof (liveness_inv _ _ _ _ _ _ _ _ _ Hinv1 Hl) as Hinv2.
  apply liveness_frame in Hl as (Hj & _); [|apply (fi_keyed _ Hinv1)|apply (fi_jailed _ Hinv1)].
  apply judged_same in Hj as ((Hb & Hp & _ & _ & Hn & _) & Hv & _ & Hpar & Hco & _).
  apply bind_Ok in He as ([s3 env3] & Hr & He). inv_ok. split; [by eapply inv_rewarding|].
  destruct (rewarding_facts _ _ _ _ _ _ _ Hinv2 Hex Hr) as (Hf & _). apply Hgo. unfold same_history.
  rewrite <- Hb, <- Hp, <- Hn, <- Hv, <- Hpar, <- Hco, <- Hf. by split_and!.
Qed.

Lemma step_inv c c' : fin_inv c → step c c' → fin_inv c'.
Proof.
  intros Hinv Hs. destruct Hs.
  - assert (ctx_height ctx = h + 1) as Hc by (by apply ctx_height_small).
    destruct (BeginBlocker_began s bs env lc ev ctx s' bs' env') as [dc Hb]; [apply (fi_keyed _ Hinv)|done|].
    rewrite Hc in Hb. by eapply inv_begin.
  - by eapply inv_vote.
  - by eapply inv_commit.
  - destruct (unjail_evolves s bs lc ctx signer fpBtcPk bs'); [apply (fi_keyed _ Hinv)|done|]. by eapply inv_staking.
  - by eapply inv_params.
  - by eapply inv_resume.
  - by eapply inv_staking.
  - by eapply end_cases.
Qed.

Lemma reachable_inv c : reachable c → fin_inv c.
Proof.
  intros (c0 & Hi & Hr). apply initial_inv in Hi. revert Hi.
  induction Hr as [|c0 c1 c Hs _ IH]; [done|]. intros Hinv. apply IH. by eapply step_inv.
Qed.

Lemma reachable_step c c' : reachable c → step c c' → reachable c'.
Proof. intros (c0 & Hi & Hr) Hs. exists c0. split; [done|]. by eapply rtc_r. Qed.

(** ** The promises of the module *)

(** C13: Accountability: in every reachable state, a finality provider with a stored
    vote for a block and stored evidence of a vote for another block of the same
    height is slashed. *)
Theorem double_voters_are_slashed c pk h e sig :
  reachable c → votes_at (cf_fin c) h !! pk = Some sig → evidences_of (cf_fin c) pk !! h = Some e →
  slashed (cf_bs c) pk.
Proof.
  intros Hr%reachable_inv Hv He. apply (vo_double _ _ (fi_votes _ Hr) pk h e He). left. by exists sig.
Qed.

(** C9: In every reachable state, evidence that holds both votes of a provider gives
    away its private key by [ExtractBTCSK], unless these two votes themselves break a
    hash function: the signature challenges computed from their two messages agree, or
    the stored commitment of the provider opens at this height both to the randomness of
    the evidence and to another 32-byte one, under which the stored vote is valid. *)
Theorem slashing_evidence_reveals_key {CL : CurveLaws C} {ML : MerkleLaws M} c pk h e sig :
  reachable c → evidences_of (cf_fin c) pk !! h = Some e → ev_CanonicalFinalitySig e = Some sig →
  (∃ P sk, ParsePubKey pk = Some P ∧ ExtractBTCSK e = Ok sk ∧ Eots.PubGen sk = P) ∨
  same_challenge e ∨ two_openings (cf_fin c) e sig.
Proof.
  intros Hr%reachable_inv He Hs.
  eapply evidence_gives_key; [apply (fi_commits _ Hr)| |done].
  by eapply (vo_evidence _ _ (fi_votes _ Hr)).
Qed.

(** The steps leave the history alone, or are the end of a block. *)
Definition votes_kept s s' : Prop := ∀ h, GetVoters s h ⊆ GetVoters s' h.

Lemma GetVoters_SetSig s h pk sig h' : GetVoters s h' ⊆ GetVoters (SetSig s h pk sig) h'.
Proof.
  unfold GetVoters. intros x. rewrite !elem_of_dom, votes_at_SetSig. case_bool_decide; [done|tauto].
Qed.

Lemma votes_kept_same s s' : votes s' = votes s → votes_kept s s'.
Proof. intros Hv h. unfold GetVoters, votes_at. by rewrite Hv. Qed.

Lemma vote_accepted_votes s bs lc ctx v s' bs' : vote_accepted s bs lc ctx v s' bs' → votes_kept s s'.
Proof. intros Ha h'. destruct Ha; try done; exact (GetVoters_SetSig s _ _ _ h'). Qed.

Inductive history : config → config → Prop :=
  | history_kept c c' :
      blocks (cf_fin c') = blocks (cf_fin c) → votes_kept (cf_fin c) (cf_fin c') → history c c'
  | history_end h s bs ctx act next s1 s' bs' :
      Epoching.hi_Height ctx = Z.of_N h → tally_result h s ctx act next s1 → same_history s1 s' →
      history (mkConfig h true s bs) (mkConfig h false s' bs').

Lemma step_history c c' : fin_inv c → step c c' → history c c'.
Proof.
  intros Hinv Hs. destruct Hs.
  - destruct (BeginBlocker_began s bs env lc ev ctx s' bs' env') as [dc Hb]; [apply (fi_keyed _ Hinv)|done|].
    apply began_frame in Hb as (Hb & Hv & _). by apply history_kept; [|apply votes_kept_same].
  - apply AddFinalitySig_accepted in H1 as (v & _ & Ha); [|apply (fi_keyed _ Hinv)].
    apply history_kept; [|by eapply vote_accepted_votes]. by apply vote_accepted_frame in Ha as ((Hb & _) & _).
  - apply CommitPubRandList_spec in H2 as (pk & c & _ & Hs & _); [|apply (fi_commits _ Hinv)|done|done].
    apply SetPubRandCommit_stores in Hs as (_ & _ & Hs).
    apply history_kept; [|apply votes_kept_same]; cbn [cf_fin]; by rewrite <- Hs.
  - by apply history_kept; [|apply votes_kept_same].
  - apply UpdateParams_spec in H1 as [-> _]. by apply history_kept; [|apply votes_kept_same].
  - unfold ResumeFinalityProposal in H1. apply require_bind_Ok in H1 as [_ Hr]. apply map_err_Ok in Hr.
    apply HandleResume_spec in Hr as (s1 & J & Hjd & Hres & _);
      [|apply (fi_keyed _ Hinv)|apply (fi_jailed _ Hinv)].
    apply resumed_frame in Hres as (Hb & Hv & _). apply judged_same in Hjd as ((Hb1 & _) & Hv1 & _).
    apply history_kept; [|apply votes_kept_same]; cbn [cf_fin]; congruence.
  - by apply history_kept; [|apply votes_kept_same].
  - destruct (end_cases _ _ _ _ _ _ _ _ _ Hinv H0 H1) as [_ [(_ & Hb & Hv & _)|(act & nx & s1 & ? & ?)]].
    + by apply history_kept; [|apply votes_kept_same].
    + by eapply history_end.
Qed.

(** Blocks keep their hash and stay final. *)
Definition blocks_kept s s' : Prop :=
  ∀ h b, blocks s !! h = Some b → ∃ b', blocks s' !! h = Some b' ∧ ib_AppHash b' = ib_AppHash b ∧
    (ib_Finalized b = true → ib_Finalized b' = true).

Lemma blocks_kept_trans s1 s2 s3 : blocks_kept s1 s2 → blocks_kept s2 s3 → blocks_kept s1 s3.
Proof.
  intros H12 H23 h b Hb. destruct (H12 h b Hb) as (b2 & Hb2 & Ha2 & Hf2).
  destruct (H23 h b2 Hb2) as (b3 & Hb3 & Ha3 & Hf3). exists b3. split_and!; [done|congruence|auto].
Qed.

Lemma history_blocks c c' : fin_inv c → history c c' → blocks_kept (cf_fin c) (cf_fin c').
Proof.
  intros Hinv Hhist. revert Hinv.
  destruct Hhist as [? ? Hb _|h s bs ctx act next s1 s' bs' Hh Htr (Hb & _)]; intros Hinv h' b Hb';
    [rewrite Hb; eauto|].
  cbn [cf_fin] in *. destruct (fi_below _ Hinv h' b Hb') as [Hlt _]. pose proof (fi_height _ Hinv) as [Hw _].
  cbn [cf_height cf_open cf_fin cf_bs top] in *. pose proof (ctx_height_small ctx h Hh Hw) as Hctx.
  assert (h' ≠ ctx_height ctx) as Hne by lia.
  destruct (finalised_kept _ _ _ _ _ h' b Hne (tr_blocks _ _ _ _ _ _ Htr) Hb') as (b' & ? & ? & _ & ?).
  exists b'. by rewrite Hb.
Qed.

Lemma history_votes c c' : history c c' → votes_kept (cf_fin c) (cf_fin c').
Proof.
  intros [|h s bs ctx act next s1 s' bs' Hh Htr (_ & Hv & _)]; [done|]. apply votes_kept_same. cbn [cf_fin].
  rewrite Hv. by destruct (tally_frame _ _ _ _ _ (tr_blocks _ _ _ _ _ _ Htr)) as (? & _).
Qed.

(** C8: Finality is irreversible: after any sequence of steps from a reachable state
    (blocks, votes, commitments, changes of parameters, proposals to resume finality), a
    block that is final there stays final, with the same hash. *)
Theorem finality_is_irreversible c c' h b :
  reachable c → rtc step c c' → blocks (cf_fin c) !! h = Some b → ib_Finalized b = true →
  ∃ b', blocks (cf_fin c') !! h = Some b' ∧ ib_Finalized b' = true ∧ ib_AppHash b' = ib_AppHash b.
Proof.
  intros Hr%reachable_inv Hs Hb Hf.
  assert (blocks_kept (cf_fin c) (cf_fin c')) as Hk.
  { clear Hb. induction Hs as [|c c1 c' Hs _ IH]; [intros h' b'; eauto|].
    eapply blocks_kept_trans; [by apply history_blocks, step_history|]. apply IH. by eapply step_inv. }
  destruct (Hk h b Hb) as (b' & Hb' & Ha & Hf'). exists b'. auto.
Qed.

(** A block becomes final: more than two thirds of the power of its height voted for it,
    and the blocks before it are final too. *)
Record becomes_final c c' (h : N) : Prop := {
  bf_end : cf_open c = true ∧ cf_open c' = false;
  bf_new : is_final (cf_fin c) h = false ∧ is_final (cf_fin c') h = true;
  bf_quorum : 3 * total_power (power_at (cf_fin c') h) < 2 ^ 64 →
    2 * total_power (power_at (cf_fin c') h) <
      3 * voted_power (power_at (cf_fin c') h) (GetVoters (cf_fin c') h);
  bf_order : ∀ h', getNextHeightToFinalize (cf_fin c) ≤ h' < h → has_table (cf_fin c') h' = true →
    is_final (cf_fin c') h' = true;
}.

Lemma history_final c c' h :
  history c c' → is_final (cf_fin c) h = false → is_final (cf_fin c') h = true → becomes_final c c' h.
Proof.
  intros [? ? Hb _|hh s bs ctx act next s1 s' bs' Hh [Hact Hst Hend Hset Hfin Hnx Hbl] (Hb & Hv & Hp & Hn & _)] Hf Hf'.
  { unfold is_final in *. rewrite Hb, Hf in Hf'. done. }
  split; cbn [cf_fin cf_open] in *; [done|done|..].
  all: destruct (tally_frame _ _ _ _ _ Hbl) as (Hv1 & Hp1 & _).
  all: assert (∀ h, is_final s' h = is_final s1 h) as Hfs by (intros h'; unfold is_final; by rewrite Hb).
  all: rewrite Hfs, Hfin, Hf in Hf'; cbn [orb] in Hf'; apply andb_true_iff in Hf' as [Hr Ht].
  all: apply bool_decide_eq_true in Hr.
  - intros Hw. unfold power_at, GetVoters, votes_at in *. rewrite Hp, Hp1 in *. rewrite Hv, Hv1.
    specialize (Hset h Hr). unfold settled in Hset. rewrite Ht in Hset. simpl in Hset. by apply tally_iff.
  - intros h' Hh' Ht'. rewrite (has_table_frame s) in Ht' by congruence. rewrite Hfs, Hfin, Ht'.
    apply activated_Ok in Hact as [_ Hmin]. specialize (Hmin h' Ht').
    rewrite bool_decide_true by (unfold tally_start in *; lia). apply orb_true_r.
Qed.


End chain.
End FinalityChain.
