(* ===== verification/FinalityHalts.v ===== *)
(** When the end of a block can panic.

    Finalisation and rewards read every block from the activated height on, so that a
    block that was never indexed stops the chain.  Two things can leave such a gap: a
    change of parameters that raises the activation height while tables of voting power
    exist (blocks below the new height are no longer indexed), and a proposal to resume
    finality that writes a table below the activated height.  [gapless] says that there is
    no gap; the end of a block then succeeds ([end_block_succeeds]), and without these two
    steps there is never a gap ([end_block_never_panics]). *)
From stdpp Require Import base numbers list sorting gmap strings.
From S2P Require Import Prelude KVStore Bytes Hex Secp256k1 Eots BtcLightClient Epoching.
From S2P Require Import BtcStaking Finality FinalityPower FinalityVotes.
From S2P Require Import FinalityPowerSpec FinalityTally FinalityLiveness FinalityRand FinalityVotesSpec.
From S2P Require Import FinalityBegin FinalityResume FinalityChain.

Module FinalityHalts.
Import BtcStaking Finality FinalityPower FinalityVotes.
Import FinalityPowerSpec FinalityTally FinalityLiveness FinalityRand FinalityVotesSpec.
Import FinalityBegin FinalityResume FinalityChain.
Local Open Scope N_scope.
Implicit Types (s : FinState) (bs : BSState) (pk : bytes) (ctx : Epoching.HeaderInfo).

(** From the activated height on, every block is indexed. *)
Definition gapless (c : config) : Prop :=
  ∀ act, GetBTCStakingActivatedHeight (cf_fin c) = Ok act →
  ∀ h, act ≤ h < top c → is_Some (blocks (cf_fin c) !! h).

Section halts.
Context {LC : BTCLightClientKeeper} {B : Bech32} {H : FinalityHooks}.
Context {M : Merkle} {I : IncentiveKeeper} {C : Curve}.
Context (schnorr_Verify : bytes → bytes → point → bool).
Implicit Types (lc : LightClient) (env : Env).

(** ** Without gaps, the end of a block succeeds *)

Lemma index_current_new s ctx :
  blocks s !! ctx_height ctx = None →
  blocks (index_current s ctx) !! ctx_height ctx =
    Some (mkIndexedBlock (ctx_height ctx) (Epoching.hi_AppHash ctx) false).
Proof.
  intros Hn. unfold index_current, HasBlock. rewrite Hn, bool_decide_false by (by intros []).
  simpl. apply lookup_insert_eq.
Qed.

Lemma blocks_ok_inv h s bs ctx act :
  fin_inv (mkConfig h true s bs) → gapless (mkConfig h true s bs) → ctx_height ctx = h →
  GetBTCStakingActivatedHeight s = Ok act → blocks_ok (index_current s ctx) act h.
Proof.
  intros [_ _ _ _ _ _ I7 _ I9 _ _ _ _ _ _ _] Hg Hctx Hact h' Hh'.
  cbn [cf_height cf_open cf_fin cf_bs top] in *.
  assert (getNextHeightToFinalize (index_current s ctx) = getNextHeightToFinalize s) as ->.
  { unfold getNextHeightToFinalize. by destruct (index_current_frame s ctx) as (_ & _ & ->). }
  destruct (decide (h' = h)) as [->|Hne].
  - destruct (blocks s !! h) as [b|] eqn:Hb; [specialize (I7 h b Hb); lia|].
    rewrite <- Hctx in Hb |- *. rewrite index_current_new by done. eexists. split_and!; done.
  - destruct (Hg act Hact h') as [b Hb]; [cbn; lia|]. cbn [cf_fin] in Hb. exists b.
    rewrite index_current_blocks by congruence. destruct (I7 h' b Hb) as [_ Hbh]. split_and!; [done|done|].
    intros Hf. apply (I9 h'). unfold is_final. by rewrite Hb.
Qed.

Lemma tally_succeeds h s bs ctx act :
  fin_inv (mkConfig h true s bs) → gapless (mkConfig h true s bs) → ctx_height ctx = h →
  GetBTCStakingActivatedHeight s = Ok act →
  ∃ s', TallyBlocks s ctx MaxFinalizedRewardedBlocksPerEndBlock = Ok s'.
Proof.
  intros Hinv Hg Hctx Hact. pose proof (blocks_ok_inv _ _ _ _ _ Hinv Hg Hctx Hact) as Hb.
  pose proof Hinv as [[Hw _] _ _ _ _ I6 _ I8 _ _ _ _ _ _ _ _]. cbn [cf_height cf_open cf_fin cf_bs top] in *.
  apply activated_Ok in Hact as Ha. destruct Ha as [Ht _]. specialize (I6 act Ht).
  assert (tally_start s act ≤ h) by (unfold tally_start; lia).
  destruct (TallyBlocks_tallied s ctx MaxFinalizedRewardedBlocksPerEndBlock act) as (s' & Hs' & _);
    [done|by rewrite Hctx|unfold MaxFinalizedRewardedBlocksPerEndBlock; lia..|]. by exists s'.
Qed.

(** Finalisation indexes the block, so that there is still no gap. *)
Lemma tally_gapless h s bs ctx act next s' :
  fin_inv (mkConfig h true s bs) → gapless (mkConfig h true s bs) → ctx_height ctx = h →
  tally_result h s ctx act next s' → gapless (mkConfig h false s' bs).
Proof.
  intros Hinv Hg Hctx [Hact _ _ _ _ _ Hf] act' Hact' h' Hh'. cbn [cf_height cf_open cf_fin cf_bs top] in *.
  destruct (tally_frame _ _ _ _ _ Hf) as (_ & Hp & _). rewrite (activated_same s) in Hact' by done.
  rewrite Hact in Hact'. injection Hact' as <-.
  destruct (blocks_ok_inv _ _ _ _ _ Hinv Hg Hctx Hact h') as (b & Hb & _); [lia|].
  destruct Hf as (-> & _ & _). rewrite Hb. by destruct (_ && _); eexists.
Qed.

(** A provider that has signing info, or is slashed, can always be judged. *)
Lemma judge_succeeds s bs lc ctx pk missed height tip :
  can_judge s bs pk → SignedBlocksWindow (GetParams s) ≠ 0%Z → lc_GetTipInfo lc = Some tip →
  ∃ s' bs', HandleFinalityProviderLiveness s bs lc ctx pk missed height = Ok (s', bs').
Proof.
  intros [[fp Hfp] Htr] Hw Ht. unfold HandleFinalityProviderLiveness. cbv zeta.
  rewrite (liveness_lookup bs pk fp) by done.
  destruct (IsSlashed fp) eqn:Hs; [by eexists _, _|]. destruct (IsJailed fp) eqn:Hj; [by eexists _, _|].
  simpl orb. cbv iota.
  assert (tracked s pk) as [si Hsi].
  { destruct Htr as [|(fp' & Hfp' & Hs')]; [done|]. rewrite Hfp in Hfp'. congruence. }
  assert (∃ r, UpdateSigningInfo s pk missed height = Ok r) as [[[upd si'] s1] Hu].
  { unfold UpdateSigningInfo. rewrite Hsi. cbn [of_option mbind res_bind].
    destruct (height <? sg_StartHeight si)%Z; [by eexists|].
    destruct (Z.eqb_spec (SignedBlocksWindow (GetParams s)) 0); [done|].
    destruct (GetMissedBlockBitmapValue _ _ _), missed; by eexists. }
  rewrite Hu. cbn [mbind res_bind]. destruct (_ && _).
  - rewrite (jail_punishable bs lc pk fp tip) by done. by eexists _, _.
  - destruct upd; by eexists _, _.
Qed.

Lemma judge_all_succeed lc ctx (height : Z) (tip : BtcLightClient.BTCHeaderInfo) (V : gset bytes)
    (l : list (bytes * N)) s bs :
  lc_GetTipInfo lc = Some tip → keyed bs → SignedBlocksWindow (GetParams s) ≠ 0%Z →
  (∀ x, x ∈ l → can_judge s bs x.1) →
  ∃ r, fold_res (λ sb fpWithVp,
      let missed := negb (bool_decide (fpWithVp.1 ∈ V)) in
      must (HandleFinalityProviderLiveness sb.1 sb.2 lc ctx fpWithVp.1 missed height)) (s, bs) l = Ok r.
Proof.
  intros Ht. revert s bs. induction l as [|[pk p] l IH]; intros s bs Hk Hw Hin; [by eexists|].
  cbn [fold_res fst snd]. cbv zeta. pose proof (Hin (pk, p) ltac:(by left)) as Hj.
  destruct (judge_succeeds s bs lc ctx pk (negb (bool_decide (pk ∈ V))) height tip Hj Hw Ht)
    as (s1 & bs1 & H1).
  simpl in *. rewrite H1. cbn [must mbind res_bind].
  apply judge_frame in H1 as (Hjd & He & _); [|done]. pose proof (judged_same _ _ Hjd) as (_ & _ & _ & Hp & _).
  apply IH; [by apply He|unfold GetParams in *; by rewrite Hp|].
  intros x Hx. apply (can_judge_mono s bs); [done|apply Hjd|done|]. apply Hin. by right.
Qed.

Lemma liveness_succeeds h o s bs lc ctx height tip :
  fin_inv (mkConfig h o s bs) → lc_GetTipInfo lc = Some tip →
  ∃ r, HandleLiveness s bs lc ctx height = Ok r.
Proof.
  intros Hinv Ht. pose proof (fi_keyed _ Hinv). pose proof (fi_params _ Hinv) as [Hv _].
  pose proof (fi_power _ Hinv) as I11. cbn [cf_height cf_open cf_fin cf_bs] in *.
  apply (judge_all_succeed lc ctx height tip); [done|done| |].
  - unfold Params_Validate in Hv. rewrite !andb_true_iff, !negb_true_iff, !Z.leb_gt in Hv. lia.
  - intros [pk p] Hx. apply elem_of_bkv_asc in Hx. apply (I11 (u64_of_Z height)). by exists p.
Qed.

(** The reward module never refuses a final block. *)
Class IncentiveLaws := {
  reward_total : ∀ env h dc V, ∃ env', RewardBTCStaking env h dc V = Ok env';
}.

Lemma reward_all_total {IL : IncentiveLaws} s env hs :
  (∀ h, h ∈ hs → is_Some (GetVotingPowerDistCache s h)) → ∃ env', reward_all s env hs = Ok env'.
Proof.
  revert env. induction hs as [|h hs IH]; intros env Hc; [by eexists|].
  unfold reward_all. cbn [fold_res]. destruct (Hc h ltac:(by left)) as [dc ->].
  destruct (reward_total env h dc (GetVoters s h)) as [env1 ->]. cbn [mbind res_bind].
  apply IH. intros h' Hh'. apply Hc. by right.
Qed.

(** The cache of a final block that is still to be rewarded is there and not empty. *)
Lemma final_cached h o s bs h' :
  fin_inv (mkConfig h o s bs) → is_final s h' = true → GetNextHeightToReward s ≤ h' →
  is_Some (GetVotingPowerDistCache s h').
Proof.
  intros Hinv Hf Hle. destruct (fi_final _ Hinv h' Hf) as [_ (pk & Hpk)%has_table_power].
  destruct (fi_member _ Hinv h' pk Hpk Hle) as (dc & Hdc & Hin). exists dc. by eapply cache_read.
Qed.

Lemma rewarding_succeeds {IL : IncentiveLaws} h s bs env target act :
  fin_inv (mkConfig h false s bs) → gapless (mkConfig h false s bs) →
  GetBTCStakingActivatedHeight s = Ok act → u64_of_Z target < h →
  ∃ r, HandleRewarding s env target MaxFinalizedRewardedBlocksPerEndBlock = Ok r.
Proof.
  intros Hinv Hg Hact Ht. pose proof (fi_height _ Hinv) as [Hw _]. pose proof (fi_tables _ Hinv) as I6.
  pose proof (fi_reward _ Hinv) as I16. cbn [cf_height cf_open cf_fin cf_bs top] in *.
  apply activated_Ok in Hact as Ha. destruct Ha as [Ha _]. specialize (I6 act Ha).
  assert (∃ lo, reward_start s = Ok lo ∧ act ≤ lo ≤ h + 1 ∧ GetNextHeightToReward s ≤ lo) as (lo & Hlo & Hb & Hn).
  { unfold reward_start. destruct (N.eqb_spec (GetNextHeightToReward s) 0) as [Hz|Hz].
    - exists act. split; [done|]. lia.
    - destruct I16 as [|(Hle & act' & Ha' & Hge)]; [done|]. rewrite Hact in Ha'. injection Ha' as <-.
      eexists. split; [done|]. lia. }
  rewrite (HandleRewarding_eq s env target _ lo);
    [|done|unfold MaxFinalizedRewardedBlocksPerEndBlock; lia..|].
  - destruct (reward_all_total s env (final_heights s lo (N.min (lo + MaxFinalizedRewardedBlocksPerEndBlock - 1)
      (u64_of_Z target)))) as [env' ->]; [|by eexists].
    intros h'. unfold final_heights. rewrite list_elem_of_filter, elem_of_heights_between.
    intros [Hf Hr]. eapply final_cached; [done|done|lia].
  - intros h' Hh'. apply (Hg act Hact). cbn [top cf_open cf_height]. lia.
Qed.

Lemma IsFinalityActive_Ok s ctx :
  IsFinalityActive s ctx = true → ∃ act, GetBTCStakingActivatedHeight s = Ok act.
Proof.
  unfold IsFinalityActive. case_match; [done|].
  destruct (GetBTCStakingActivatedHeight s) as [act|e|]; [by exists act|done|done].
Qed.

Lemma end_block_succeeds {IL : IncentiveLaws} h s bs env lc ctx tip :
  fin_inv (mkConfig h true s bs) → gapless (mkConfig h true s bs) →
  Epoching.hi_Height ctx = Z.of_N h → lc_GetTipInfo lc = Some tip →
  ∃ s' bs' env', EndBlocker s bs env lc ctx = Ok (s', bs', env').
Proof.
  intros Hinv Hg Hh Htip. pose proof (fi_height _ Hinv) as [Hw _]. cbn in Hw.
  pose proof (ctx_height_small ctx h Hh Hw) as Hctx.
  unfold EndBlocker. destruct (IsFinalityActive s ctx) eqn:Hact; simpl negb; cbv iota; [|by eexists _, _, _].
  apply IsFinalityActive_Ok in Hact as [act Hact].
  destruct (tally_succeeds _ _ _ _ _ Hinv Hg Hctx Hact) as (s1 & Ht).
  pose proof (tally_inv _ _ _ _ _ Hinv Hctx Ht) as Hinv1.
  destruct (tally_facts _ _ _ _ _ Hinv Hctx Ht) as (act' & next & Htr).
  pose proof (tally_gapless _ _ _ _ _ _ _ Hinv Hg Hctx Htr) as Hg1.
  destruct (tally_frame _ _ _ _ _ (tr_blocks _ _ _ _ _ _ Htr)) as (_ & Hp1 & _).
  rewrite Ht. cbn [mbind res_bind]. cbv zeta.
  destruct (Z.leb_spec 1 (int64 (Epoching.hi_Height ctx - FinalitySigTimeout (GetParams s1))))
    as [Hle|]; [|by eexists _, _, _].
  pose proof (height_to_examine _ _ _ _ _ Hinv1 Hh Hle) as Hex.
  destruct (liveness_succeeds _ _ _ _ lc ctx (int64 (Epoching.hi_Height ctx - FinalitySigTimeout (GetParams s1)))
    tip Hinv1 Htip) as ([s2 bs2] & Hl).
  rewrite Hl. cbn [mbind res_bind]. pose proof (liveness_inv _ _ _ _ _ _ _ _ _ Hinv1 Hl) as Hinv2.
  apply liveness_frame in Hl as (Hj & _); [|apply (fi_keyed _ Hinv1)|apply (fi_jailed _ Hinv1)].
  apply judged_same in Hj as ((Hb & Hp & _) & _).
  assert (gapless (mkConfig h false s2 bs2)) as Hg2.
  { intros a. cbn [cf_fin]. rewrite (activated_same s1), Hb by done. apply Hg1. }
  assert (GetBTCStakingActivatedHeight s2 = Ok act) as Hact2 by (rewrite (activated_same s); congruence).
  destruct (rewarding_succeeds h s2 bs2 env _ act Hinv2 Hg2 Hact2 Hex) as [[s3 env3] Hr].
  rewrite Hr. by eexists _, _, _.
Qed.

(** ** Runs without gaps *)

Definition act_height c : N := FinalityActivationHeight (GetParams (cf_fin c)).

(** A step that neither raises the activation height nor writes a table of voting power
    below the activated height. *)
Definition calm_step c c' : Prop :=
  step schnorr_Verify c c' ∧ act_height c' ≤ act_height c ∧
  (∀ act', GetBTCStakingActivatedHeight (cf_fin c') = Ok act' →
     GetBTCStakingActivatedHeight (cf_fin c) = Ok act' ∨ top c ≤ act').

Definition calm_reachable c : Prop := ∃ c0, initial c0 ∧ rtc calm_step c0 c.

Record calm_inv c : Prop := {
  ca_starts : ∀ pk h, is_Some (commits_of (cf_fin c) pk !! h) → act_height c ≤ h;
  ca_tables : ∀ h, has_table (cf_fin c) h = true → act_height c ≤ h;
  ca_gapless : gapless c;
}.

(** A provider with timestamped randomness committed to it. *)
Lemma timestamped_covers s ev pk h :
  commits_ok s → HasTimestampedPubRand s ev pk h = true → ∃ c, covers s pk h c.
Proof.
  intros Hok Ht. unfold HasTimestampedPubRand, GetTimestampedPubRandCommitForHeight in Ht.
  pose proof (lookup_correct s Hok pk h) as Hl.
  destruct (GetPubRandCommitForHeight s pk h) as [c|e|]; [|done|done]. exists c. apply Hl.
Qed.

(** Steps that leave blocks, commitments and the heights of blocks alone. *)
Lemma calm_kept c c' :
  calm_inv c → blocks (cf_fin c') = blocks (cf_fin c) → top c' = top c →
  (∀ pk h, is_Some (commits_of (cf_fin c') pk !! h) →
     is_Some (commits_of (cf_fin c) pk !! h) ∨ act_height c' ≤ h) →
  (∀ h, has_table (cf_fin c') h = true → has_table (cf_fin c) h = true ∨ act_height c' ≤ h) →
  act_height c' ≤ act_height c →
  (∀ act', GetBTCStakingActivatedHeight (cf_fin c') = Ok act' →
     GetBTCStakingActivatedHeight (cf_fin c) = Ok act' ∨ top c ≤ act') → calm_inv c'.
Proof.
  intros [C1 C2 C3] Hb Ht Hc Htab Hle Hact. split.
  - intros pk h [Hx|?]%Hc; [|done]. specialize (C1 pk h Hx). lia.
  - intros h [Hx|?]%Htab; [|done]. specialize (C2 h Hx). lia.
  - intros act' Ha h Hh. rewrite Hb. rewrite Ht in Hh. destruct (Hact act' Ha) as [Ha'|?]; [|lia].
    by apply (C3 act').
Qed.

Lemma calm_begin h s bs ev s' bs' dc :
  fin_inv (mkConfig h false s bs) → calm_inv (mkConfig h false s bs) → began s bs ev (h + 1) s' bs' dc →
  (∀ act', GetBTCStakingActivatedHeight s' = Ok act' → GetBTCStakingActivatedHeight s = Ok act' ∨ h + 1 ≤ act') →
  calm_inv (mkConfig (h + 1) true s' bs').
Proof.
  intros Hinv Hca Hbg Hact. destruct (began_frame _ _ _ _ _ _ _ Hbg) as (Hb & _ & _ & Hp & Hc & _).
  assert (GetParams s' = GetParams s) as Hpar by (unfold GetParams; by rewrite Hp).
  apply (calm_kept _ _ Hca); unfold act_height, commits_of; cbn [cf_height cf_open cf_fin cf_bs top];
    rewrite ?Hpar, ?Hc; try done; [by left|].
  intros h' (pk & Hpk)%has_table_power. destruct (bg_power _ _ _ _ _ _ _ Hbg h' pk Hpk) as [Ho|[-> Ha]].
  { left. by eapply power_has_table. }
  right. apply list_elem_of_fmap in Ha as (fp & -> & Hfp).
  pose proof (bg_active _ _ _ _ _ _ _ Hbg) as Hts. rewrite Forall_forall in Hts.
  destruct (timestamped_covers s ev _ _ (fi_commits _ Hinv) (Hts fp Hfp)) as (c & Hcov & Hr').
  pose proof (ca_starts _ Hca _ _ ltac:(by exists c)) as Hst. unfold act_height in Hst. cbn [cf_fin] in Hst. lia.
Qed.

Lemma calm_end h s bs env lc ctx s' bs' env' :
  fin_inv (mkConfig h true s bs) → calm_inv (mkConfig h true s bs) → Epoching.hi_Height ctx = Z.of_N h →
  EndBlocker s bs env lc ctx = Ok (s', bs', env') → calm_inv (mkConfig h false s' bs').
Proof.
  intros Hinv Hca Hh He. pose proof (fi_height _ Hinv) as [Hw _]. cbn in Hw.
  pose proof (ctx_height_small ctx h Hh Hw) as Hctx. pose proof Hca as [C1 C2 C3].
  unfold act_height, commits_of in *. cbn [cf_fin cf_height cf_open] in *.
  destruct (end_cases _ _ _ _ _ _ _ _ _ Hinv Hh He) as [_ [(Hin & Hb & _ & Hp & _ & Hpar & Hc)|Hx]].
  - split; unfold act_height, commits_of, GetParams; cbn [cf_fin]; rewrite ?Hpar, ?Hc; [done| |].
    + intros h'. rewrite (has_table_frame s) by done. apply C2.
    + intros act. cbn [cf_fin]. rewrite (activated_same s) by done. intros Ha. exfalso.
      apply activated_Ok in Ha as Ha'. destruct Ha' as [Ht _]. specialize (C2 act Ht).
      pose proof (fi_tables _ Hinv act Ht) as Hle. cbn [cf_height] in Hle.
      unfold IsFinalityActive in Hin. rewrite Hctx, Ha in Hin.
      destruct (N.ltb_spec h (FinalityActivationHeight (GetParams s))); [lia|done].
  - destruct Hx as (act & next & s1 & Htr & Hb & _ & Hp & _ & Hpar & Hc).
    destruct (tally_frame _ _ _ _ _ (tr_blocks _ _ _ _ _ _ Htr)) as (_ & Hp1 & Hpar1 & _ & _ & Hc1 & _).
    split; unfold act_height, commits_of, GetParams; cbn [cf_fin]; rewrite ?Hpar, ?Hc, ?Hpar1, ?Hc1; [done| |].
    + intros h'. rewrite (has_table_frame s) by congruence. apply C2.
    + intros a. cbn [cf_fin]. rewrite (activated_same s1), Hb by done.
      exact (tally_gapless h s bs ctx act next s1 Hinv C3 Hctx Htr a).
Qed.

(** Resuming writes tables from the activation height on. *)
Lemma resume_frame h s bs env lc ctx authority req s' bs' env' :
  fin_inv (mkConfig h true s bs) → Epoching.hi_Height ctx = Z.of_N h →
  ResumeFinalityProposal authority s bs env lc ctx req = Ok (s', bs', env') →
  blocks s' = blocks s ∧ f_params s' = f_params s ∧ pubRandCommits s' = pubRandCommits s ∧
  FinalityActivationHeight (GetParams s) ≤ h.
Proof.
  intros Hinv Hh Hr. unfold ResumeFinalityProposal in Hr. apply require_bind_Ok in Hr as [_ Hr].
  apply map_err_Ok in Hr.
  apply HandleResume_spec in Hr as (s1 & J & Hjd & Hres & _ & _ & _ & Hfah & Hle);
    [|apply (fi_keyed _ Hinv)|apply (fi_jailed _ Hinv)].
  apply resumed_frame in Hres as (Hb & _ & _ & Hp & Hc & _).
  apply judged_same in Hjd as ((Hb1 & _) & _ & _ & Hp1 & Hc1 & _). split_and!; [congruence..|lia].
Qed.

Lemma calm_resume h s bs env lc ctx authority req s' bs' env' :
  fin_inv (mkConfig h true s bs) → calm_inv (mkConfig h true s bs) → Epoching.hi_Height ctx = Z.of_N h →
  ResumeFinalityProposal authority s bs env lc ctx req = Ok (s', bs', env') →
  (∀ act', GetBTCStakingActivatedHeight s' = Ok act' → GetBTCStakingActivatedHeight s = Ok act' ∨ h ≤ act') →
  calm_inv (mkConfig h true s' bs').
Proof.
  intros Hinv Hca Hh Hr Hact. destruct (resume_frame _ _ _ _ _ _ _ _ _ _ _ Hinv Hh Hr) as (Hb & Hp & Hc & Hfah).
  assert (GetParams s' = GetParams s) as Hpar by (unfold GetParams; by rewrite Hp).
  apply (calm_kept _ _ Hca); unfold act_height, commits_of; cbn [cf_height cf_open cf_fin cf_bs top];
    rewrite ?Hpar, ?Hc; try done; [by left|].
  intros h' Ht. right. destruct (GetBTCStakingActivatedHeight s') as [act'|e|] eqn:Ha.
  - apply activated_Ok in Ha as Ha'. destruct Ha' as [_ Hmin]. specialize (Hmin h' Ht).
    destruct (Hact act' eq_refl) as [Ha0|?]; [|lia]. apply activated_Ok in Ha0 as [Ht0 _].
    pose proof (ca_tables _ Hca act' Ht0) as Hx. unfold act_height in Hx. cbn [cf_fin] in Hx. lia.
  - rewrite activated_Err in Ht by (by rewrite Ha). done.
  - rewrite activated_Err in Ht by (by rewrite Ha). done.
Qed.

Lemma calm_step_inv c c' : fin_inv c → calm_inv c → calm_step c c' → calm_inv c'.
Proof.
  intros Hinv Hca (Hs & Hle & Hact). destruct Hs.
  - assert (ctx_height ctx = h + 1) as Hc by (by apply ctx_height_small).
    destruct (BeginBlocker_began s bs env lc ev ctx s' bs' env') as [dc Hb]; [apply (fi_keyed _ Hinv)|done|].
    rewrite Hc in Hb. by eapply calm_begin.
  - apply AddFinalitySig_accepted in H1 as (v & _ & Ha); [|apply (fi_keyed _ Hinv)].
    apply vote_accepted_frame in Ha as ((Hb & Hp & _) & Hpar & Hc & _).
    apply (calm_kept _ _ Hca); unfold commits_of; cbn [cf_fin cf_height cf_open]; rewrite ?Hc; try done; [by left|].
    intros h'. rewrite (has_table_frame s) by done. by left.
  - apply CommitPubRandList_spec in H2 as (pk & c & _ & Hs & _ & _ & Hst & _); [|apply (fi_commits _ Hinv)|done|done].
    apply SetPubRandCommit_stores in Hs as (Hcs & _ & Hfr).
    apply (calm_kept _ _ Hca); cbn [cf_fin cf_height cf_open]; try done.
    + by rewrite <- Hfr.
    + intros pk' h'. rewrite Hcs. case_bool_decide; [|by left]. subst pk'.
      rewrite lookup_insert_is_Some. intros [<-|[_ Hx]]; [right|by left].
      unfold act_height, GetParams in *. cbn [cf_fin] in *.
      replace (f_params s') with (f_params s) by (by rewrite <- Hfr). done.
    + intros h'. rewrite (has_table_frame s) by (by rewrite <- Hfr). by left.
  - apply (calm_kept _ _ Hca); cbn [cf_fin cf_height cf_open]; try done; by left.
  - apply UpdateParams_spec in H1 as [-> _].
    apply (calm_kept _ _ Hca); cbn [cf_fin cf_height cf_open]; try done; by left.
  - by eapply calm_resume.
  - apply (calm_kept _ _ Hca); cbn [cf_fin cf_height cf_open]; try done; by left.
  - by eapply calm_end.
Qed.

Lemma initial_calm c : initial c → calm_inv c.
Proof.
  intros [p bs Hp Hw Hk Hj].
  assert (∀ h, has_table (genesis_state p) h = false) as Ht.
  { intros h. apply bool_decide_eq_false. unfold power_at. simpl. rewrite lookup_empty. by intros []. }
  split; cbn [cf_fin].
  - intros pk h. unfold commits_of. simpl. rewrite !lookup_empty. by intros [].
  - intros h. by rewrite Ht.
  - intros act Ha. apply activated_Ok in Ha as [Ha _]. cbn [cf_fin] in Ha. by rewrite Ht in Ha.
Qed.

Lemma calm_reachable_inv c : calm_reachable c → fin_inv c ∧ calm_inv c.
Proof.
  intros (c0 & Hi & Hr). pose proof (initial_inv _ Hi) as Hinv. apply initial_calm in Hi. revert Hinv Hi.
  induction Hr as [|c0 c1 c Hs _ IH]; [done|]. intros Hinv Hca. apply IH.
  - eapply step_inv; [done|apply Hs].
  - by eapply calm_step_inv.
Qed.

(** C15: The end of a block does not panic: in every state with a block in progress that
    is reached by steps which neither raise the activation height of finality nor write
    a table of voting power below the height from which blocks are indexed (as a
    proposal to resume finality may), finalising, judging and rewarding all succeed, as
    long as the light client has a tip and the reward module accepts final blocks. *)
Theorem end_block_never_panics {IL : IncentiveLaws} h s bs env lc ctx tip :
  calm_reachable (mkConfig h true s bs) → Epoching.hi_Height ctx = Z.of_N h →
  lc_GetTipInfo lc = Some tip →
  ∃ s' bs' env', EndBlocker s bs env lc ctx = Ok (s', bs', env').
Proof.
  intros [Hinv Hca]%calm_reachable_inv Hh Htip.
  eapply end_block_succeeds; [done|apply (ca_gapless _ Hca)|done|done].
Qed.
End halts.
End FinalityHalts.
