(* ===== verification/FinalityExamples.v ===== *)
(** x/finality: a run of the module on a small instance.

    One finality provider with the key 2 of the curve with seven points commits to
    the randomness of height 2 in block 1, votes for block 2 in block 3 and, in a
    second run, votes for a fork of block 2 as well.  The theorems on the module
    are applied to these states. *)
From Stdlib Require Import Strings.Byte.
From stdpp Require Import base numbers list sorting gmap strings relations.
From S2P Require Import Prelude KVStore Bytes Secp256k1 Eots BtcLightClient Epoching.
From S2P Require Import BtcStaking Finality FinalityPower FinalityVotes FinalityPowerSpec.
From S2P Require Import FinalityTally FinalityLiveness FinalityRand FinalityVotesSpec.
From S2P Require Import FinalityBegin FinalityResume FinalityChain FinalityHalts.

Module FinalityExamples.
Import BtcLightClient BtcStaking Finality FinalityPower FinalityVotes.
Import FinalityPowerSpec FinalityTally FinalityLiveness FinalityRand FinalityVotesSpec.
Import FinalityBegin FinalityResume FinalityChain FinalityHalts.
Local Open Scope N_scope.

(** ** The instance *)

Definition tip : BTCHeaderInfo := mkBTCHeaderInfo [] [] 100 0.

(** A light client with one header. *)
#[local] Instance lc_one : BTCLightClientKeeper := {|
  LightClient := unit;
  lc_GetBaseBTCHeader _ := Some tip;
  lc_GetTipInfo _ := Some tip;
  lc_GetHeaderByHash _ _ := None;
|}.

#[local] Instance any_address : Bech32 := λ _, Some [1].

(** Hooks that count their calls. *)
#[local] Instance counting : FinalityHooks := {|
  Env := list N;
  AfterBtcDelegationUnbonded env _ _ _ _ n := Ok (env ++ [n]);
  AfterBtcDelegationActivated env _ _ _ _ n := Ok (env ++ [n]);
  AfterAncFpEntersActiveSet env _ := Ok env;
  AfterAncFpRemovedFromActiveSet env _ := Ok env;
|}.

(** Lists of one leaf, whose root is the leaf. *)
#[local] Instance one_leaf : Merkle := {|
  MerkleProof := unit;
  mp_Index _ := 0%Z;
  mp_Total _ := 1%Z;
  mp_WellFormed _ := true;
  mp_Verify _ root leaf := bool_decide (root = leaf);
|}.

#[local] Instance one_leaf_laws : MerkleLaws one_leaf.
Proof. split; intros []; simpl; lia. Qed.

(** Rewards record the height. *)
#[local] Instance rewards : IncentiveKeeper := {|
  RewardBTCStaking env h _ _ := Ok (env ++ [h]);
  IndexRefundableMsg env _ := env;
|}.

#[local] Instance rewards_laws : IncentiveLaws (I := rewards).
Proof. split. intros env h dc V. by eexists. Qed.

#[local] Existing Instances Toy.curve Toy.laws.

Definition any_sig (_ _ : bytes) (_ : point (Curve := Toy.curve)) : bool := true.

(** ** The run *)

Definition params : Params := mkParams 10 5 1 (LegacyOneDec / 2)%Z 1 60 1.
Definition pk : bytes := be_encode 32 2.
Definition tx : bytes := [x07].
Definition provider : FinalityProvider :=
  mkFinalityProvider "fp" None None pk None 0 0 false 0 None.
Definition delegation : BTCDelegation :=
  mkBTCDelegation "staker" [] None [pk] 1000 100 1100 50 [] 0 [] [] [] 10
    (mkBTCUndelegation [] [] [] [] [] None) 0 100 None.

(** One provider, with one delegation that has just become active. *)
Definition bs0 : BSState :=
  mkBSState {[pk := provider]} ∅ ∅ {[tx := delegation]} ∅
    {[100 := {[0 := BtcDelStateUpdate tx ACTIVE]}]} ∅ None ∅ None ∅.

Definition epochs : EpochView := mkEpochView (λ _, 2) 1 1.
Definition app_hash : bytes := repeat x01 32.
Definition fork_hash : bytes := x02 :: repeat x01 31.
Definition at_height (h : Z) : Epoching.HeaderInfo := Epoching.mkHeaderInfo h 1000 app_hash [].

(** The randomness of height 2 and the votes. *)
Definition rand : bytes := be_encode 32 3.
Definition commit : MsgCommitPubRandList :=
  mkMsgCommitPubRandList (Some [1]) (Some pk) 2 1 rand (Some []).
Definition signature (h : bytes) : bytes :=
  match Eots.Sign (C := Toy.curve) (Some [x09]) 2 3 (msgToSignForVote 2 h) with
  | Ok s => be_encode 32 (Z.to_N s)
  | _ => []
  end.
Definition vote (h : bytes) : MsgAddFinalitySig :=
  mkMsgAddFinalitySig (Some [1]) (Some pk) 2 (Some rand) (Some tt) h (Some (signature h)).

Definition ok {E A} (d : A) (r : res E A) : A := match r with Ok a => a | _ => d end.
Lemma ok_eq {E A} (d : A) (r : res E A) : is_ok r = true → r = Ok (ok d r).
Proof. by destruct r. Qed.

Definition st : Type := FinState * BSState * list N.
Definition s0 : st := (genesis_state params, bs0, []).
Definition begin_ (h : Z) (x : st) : st := ok x (BeginBlocker x.1.1 x.1.2 x.2 tt epochs (at_height h)).
Definition end_ (h : Z) (x : st) : st := ok x (EndBlocker x.1.1 x.1.2 x.2 tt (at_height h)).
Definition vote_ (v : bytes) (x : st) : st :=
  ok x (AddFinalitySig x.1.1 x.1.2 x.2 tt epochs (at_height 3) (vote v)).
Definition commit_ (x : st) : st :=
  (ok x.1.1 (CommitPubRandList any_sig x.1.1 x.1.2 epochs (at_height 1) commit), x.1.2, x.2).

(** Each block is opened, changed and closed. *)
Definition x1 := commit_ (begin_ 1 s0).
Definition x2 := begin_ 2 (end_ 1 x1).
Definition x3 := begin_ 3 (end_ 2 x2).
Definition x4 := vote_ app_hash x3.
Definition x5 := vote_ fork_hash x4.
Definition x6 := end_ 3 x4.

Definition cfg (h : N) (o : bool) (x : st) : config := mkConfig h o x.1.1 x.1.2.
(** The run neither raises the activation height nor writes tables of the past. *)
Definition reach (c : config) : Prop :=
  calm_reachable (LC := lc_one) (B := any_address) (H := counting) (M := one_leaf) (I := rewards)
    (C := Toy.curve) any_sig c.
Definition calm (c c' : config) : bool :=
  (act_height c' <=? act_height c) &&
  match GetBTCStakingActivatedHeight (cf_fin c'), GetBTCStakingActivatedHeight (cf_fin c) with
  | Ok a', Ok a => (a =? a') || (top c <=? a')
  | Ok a', _ => top c <=? a'
  | _, _ => true
  end.

Lemma reach_step c c' : reach c → calm c c' = true → step any_sig c c' → reach c'.
Proof.
  intros (c0 & H0 & Hs) [Hle Hact]%andb_true_iff Hc. exists c0. split; [done|]. eapply rtc_r; [done|].
  split_and!; [done|by apply N.leb_le|]. intros a' Ha'. rewrite Ha' in Hact.
  destruct (GetBTCStakingActivatedHeight (cf_fin c)) as [a|e|]; [|right; by apply N.leb_le..].
  apply orb_true_iff in Hact as [->%N.eqb_eq|?%N.leb_le]; [by left|by right].
Qed.

Lemma reach_reachable c :
  reach c → reachable (LC := lc_one) (B := any_address) (H := counting) (M := one_leaf) (I := rewards)
    (C := Toy.curve) any_sig c.
Proof.
  intros (c0 & H0 & Hs). exists c0. split; [done|]. eapply rtc_subrel; [|done]. by intros ? ? [].
Qed.

Lemma begin_reach h x :
  reach (cfg h false x) → (h + 1 <? 2 ^ 62) = true →
  is_ok (BeginBlocker x.1.1 x.1.2 x.2 tt epochs (at_height (Z.of_N (h + 1)))) = true →
  calm (cfg h false x) (cfg (h + 1) true (begin_ (Z.of_N (h + 1)) x)) = true →
  reach (cfg (h + 1) true (begin_ (Z.of_N (h + 1)) x)).
Proof.
  intros Hr Hh Hok Hc. apply (reach_step _ _ Hr Hc). apply (ok_eq x) in Hok.
  apply (step_begin (LC := lc_one) (H := counting) any_sig h x.1.1 x.1.2 x.2 tt epochs (at_height (Z.of_N (h + 1))) _ _
    (begin_ (Z.of_N (h + 1)) x).2); [by apply N.ltb_lt|done|].
  rewrite Hok. unfold begin_. by destruct (ok x _) as [[??]?].
Qed.

Lemma end_reach h x :
  reach (cfg h true x) → is_ok (EndBlocker x.1.1 x.1.2 x.2 tt (at_height (Z.of_N h))) = true →
  calm (cfg h true x) (cfg h false (end_ (Z.of_N h) x)) = true →
  reach (cfg h false (end_ (Z.of_N h) x)).
Proof.
  intros Hr Hok Hc. apply (reach_step _ _ Hr Hc). apply (ok_eq x) in Hok.
  apply (step_end (LC := lc_one) (H := counting) any_sig h x.1.1 x.1.2 x.2 tt (at_height (Z.of_N h)) _ _
    (end_ (Z.of_N h) x).2); [done|].
  rewrite Hok. unfold end_. by destruct (ok x _) as [[??]?].
Qed.

Lemma vote_reach v x :
  reach (cfg 3 true x) →
  is_ok (AddFinalitySig x.1.1 x.1.2 x.2 tt epochs (at_height 3) (vote v)) = true →
  calm (cfg 3 true x) (cfg 3 true (vote_ v x)) = true →
  reach (cfg 3 true (vote_ v x)).
Proof.
  intros Hr Hok Hc. apply (reach_step _ _ Hr Hc). apply (ok_eq x) in Hok.
  apply (step_vote (LC := lc_one) (H := counting) any_sig 3 x.1.1 x.1.2 x.2 tt epochs (at_height 3) (vote v) _ _
    (vote_ v x).2); [done|].
  rewrite Hok. unfold vote_. by destruct (ok x _) as [[??]?].
Qed.

Lemma commit_reach x :
  reach (cfg 1 true x) →
  is_ok (CommitPubRandList any_sig x.1.1 x.1.2 epochs (at_height 1) commit) = true →
  calm (cfg 1 true x) (cfg 1 true (commit_ x)) = true →
  reach (cfg 1 true (commit_ x)).
Proof.
  intros Hr Hok Hc. apply (reach_step _ _ Hr Hc). apply (ok_eq x.1.1) in Hok.
  by apply (step_commit (LC := lc_one) (H := counting) any_sig 1 x.1.1 x.1.2 epochs (at_height 1) commit).
Qed.

Lemma keyed_bs0 : keyed bs0.
Proof.
  intros k fp. change (({[pk := provider]} : gmap bytes FinalityProvider) !! k = Some fp → fp_BtcPk fp = k).
  rewrite lookup_singleton_Some. by intros [<- <-].
Qed.

Lemma reach0 : reach (cfg 0 false s0).
Proof.
  eexists. split; [|apply rtc_refl]. apply (initial_genesis params bs0);
    [by vm_compute|by split; vm_compute|exact keyed_bs0|].
  intros k fp. change (({[pk := provider]} : gmap bytes FinalityProvider) !! k = Some fp →
    IsJailed fp = true → tracked (genesis_state params) k).
  rewrite lookup_singleton_Some. intros [<- <-]. by intros [=].
Qed.

Ltac evaluate := vm_compute; reflexivity.

(** The two heights of the example. *)
Lemma two_or_three h : 2 ≤ h ≤ 3 → h = 2 ∨ h = 3.
Proof. lia. Qed.

Lemma reach1 : reach (cfg 1 true x1).
Proof. apply commit_reach; [apply (begin_reach 0); [exact reach0|evaluate..]|evaluate..]. Qed.
Lemma reach2 : reach (cfg 2 true x2).
Proof. apply (begin_reach 1); [apply (end_reach 1); [exact reach1|evaluate..]|evaluate..]. Qed.
Lemma reach3 : reach (cfg 3 true x3).
Proof. apply (begin_reach 2); [apply (end_reach 2); [exact reach2|evaluate..]|evaluate..]. Qed.
Lemma reach4 : reach (cfg 3 true x4).
Proof. apply vote_reach; [exact reach3|evaluate..]. Qed.
Lemma reach5 : reach (cfg 3 true x5).
Proof. apply vote_reach; [exact reach4|evaluate..]. Qed.
Lemma reach6 : reach (cfg 3 false x6).
Proof. apply (end_reach 3); [exact reach4|evaluate..]. Qed.

(** ** The theorems at these states *)

#[local] Opaque x1 x2 x3 x4 x5 x6.

Lemma double_voters_are_slashed_witness : slashed x5.1.2 pk.
Proof.
  destruct (evidences_of x5.1.1 pk !! 2) as [e|] eqn:He; [|by vm_compute in He].
  destruct (votes_at x5.1.1 2 !! pk) as [sig|] eqn:Hv; [|by vm_compute in Hv].
  exact (double_voters_are_slashed any_sig (cfg 3 true x5) pk 2 e sig (reach_reachable _ reach5) Hv He).
Defined.

Lemma slashing_evidence_reveals_key_witness :
  ∃ e, evidences_of x5.1.1 pk !! 2 = Some e ∧ ExtractBTCSK (C := Toy.curve) e = Ok 2%Z ∧
    ((∃ P sk, ParsePubKey (Curve := Toy.curve) pk = Some P ∧ ExtractBTCSK e = Ok sk ∧
        Eots.PubGen sk = P) ∨
     same_challenge (C := Toy.curve) e ∨
     two_openings (M := one_leaf) (C := Toy.curve) x5.1.1 e (signature app_hash)).
Proof.
  destruct (evidences_of x5.1.1 pk !! 2) as [e|] eqn:He; [|by vm_compute in He].
  exists e. split; [done|]. split.
  { assert (match evidences_of x5.1.1 pk !! 2 with
            | Some e => ExtractBTCSK (C := Toy.curve) e
            | None => Panic
            end = Ok 2%Z) as Hx by evaluate. by rewrite He in Hx. }
  apply (slashing_evidence_reveals_key (CL := Toy.laws) (ML := one_leaf_laws) any_sig
    (cfg 3 true x5) pk 2 e (signature app_hash) (reach_reachable _ reach5) He).
  assert (ev_CanonicalFinalitySig <$> evidences_of x5.1.1 pk !! 2 = Some (Some (signature app_hash)))
    as Hc by evaluate.
  rewrite He in Hc. by injection Hc.
Defined.


Lemma finality_is_irreversible_witness :
  ∃ b', blocks (begin_ 4 x6).1.1 !! 2 = Some b' ∧ ib_Finalized b' = true ∧ ib_AppHash b' = app_hash.
Proof.
  assert (is_ok (BeginBlocker x6.1.1 x6.1.2 x6.2 tt epochs (at_height 4)) = true) as Hok by evaluate.
  apply (ok_eq x6) in Hok.
  apply (finality_is_irreversible any_sig (cfg 3 false x6) (cfg 4 true (begin_ 4 x6)) 2
    (mkIndexedBlock 2 app_hash true) (reach_reachable _ reach6)); [|evaluate..].
  apply rtc_once.
  apply (step_begin (LC := lc_one) (H := counting) any_sig 3 x6.1.1 x6.1.2 x6.2 tt epochs (at_height 4)
    _ _ (begin_ 4 x6).2); [done..|].
  rewrite Hok. unfold begin_. by destruct (ok x6 _) as [[??]?].
Defined.

Lemma end_block_never_panics_witness :
  ∃ s' bs' env', EndBlocker x5.1.1 x5.1.2 x5.2 tt (at_height 3) = Ok (s', bs', env').
Proof.
  exact (end_block_never_panics (IL := rewards_laws) any_sig 3 x5.1.1 x5.1.2 x5.2 tt (at_height 3)
    tip reach5 eq_refl eq_refl).
Defined.

(** Three providers with 50, 30 and 20 satoshis. *)
Definition table : gmap bytes N := {[ [x01] := 50; [x02] := 30; [x03] := 20 ]}.

Lemma tally_two_thirds_witness :
  tally table {[ [x01]; [x03] ]} =
  bool_decide (2 * total_power table < 3 * voted_power table {[ [x01]; [x03] ]}).
Proof. apply (tally_two_thirds table {[ [x01]; [x03] ]}). evaluate. Defined.

Lemma quorums_intersect_witness :
  total_power table < 3 * voted_power table ({[ [x01]; [x02] ]} ∩ {[ [x01]; [x03] ]}).
Proof. apply (quorums_intersect table {[ [x01]; [x02] ]} {[ [x01]; [x03] ]}); evaluate. Defined.

(** The end of block 3, with a vote for block 2. *)
Lemma blocks_ok_x4 : blocks_ok (index_current x4.1.1 (at_height 3)) 2 3.
Proof.
  intros h [-> | ->]%two_or_three.
  - exists (mkIndexedBlock 2 app_hash false). split_and!; [evaluate..|done].
  - exists (mkIndexedBlock 3 app_hash false). split_and!; [evaluate..|done].
Qed.


Lemma supported_blocks_become_final_witness :
  ∃ s', TallyBlocks x4.1.1 (at_height 3) 10 = Ok s' ∧
    ∀ h, 2 ≤ h ≤ 3 → has_table x4.1.1 h = true → is_final s' h = true.
Proof.
  apply (supported_blocks_become_final x4.1.1 (at_height 3) 10 2 3);
    [evaluate|exact blocks_ok_x4|done|evaluate|evaluate|done|evaluate|].
  intros h Hh. replace (tally_start x4.1.1 2) with 2 in Hh by evaluate.
  apply two_or_three in Hh as [-> | ->]; evaluate.
Defined.

(** Rewards: block 2 is final and block 3 is not. *)
Definition tallied4 : FinState := ok x4.1.1 (TallyBlocks x4.1.1 (at_height 3) 10).

Lemma rewards_final_blocks_once_witness :
  HandleRewarding tallied4 [] 3 10 =
    (env' ← reward_all tallied4 [] [2];
     mret (SetNextHeightToReward (remove_caches tallied4 [2]) 3, env')).
Proof.
  assert (final_heights tallied4 2 (N.min (2 + 10 - 1) (u64_of_Z 3)) = [2]) as Hf by evaluate.
  pose proof (rewards_final_blocks_once (I := rewards) tallied4 [] 3 10 2) as Hr.
  cbv zeta in Hr. rewrite Hf in Hr. apply Hr; [evaluate|done|evaluate|].
  intros h Hh. replace (N.min (2 + 10 - 1) (u64_of_Z 3)) with 3 in Hh by evaluate.
  apply two_or_three in Hh as [-> | ->].
  - exists (mkIndexedBlock 2 app_hash true). evaluate.
  - exists (mkIndexedBlock 3 app_hash false). evaluate.
Defined.

Lemma rewarding_stalls_witness : HandleRewarding x6.1.1 [] 1000 1 = Ok (x6.1.1, []).
Proof.
  apply (rewarding_stalls (I := rewards) x6.1.1 [] 1000 1 3); [evaluate|done|evaluate|].
  intros h Hh. assert (h = 3) as -> by lia. split; [|evaluate].
  exists (mkIndexedBlock 3 app_hash false). evaluate.
Defined.

(** Liveness: a provider that missed the first three places of a window of five
    misses one more. *)
Definition sluggish : FinState :=
  mkFinState ∅ ∅ ∅ ∅ (Some params) ∅ None {[pk := mkSigningInfo 1 3 0]}
    {[pk := {[0 := {[0; 1; 2]}]}]} ∅ ∅ None ∅.

Lemma counter_ok_sluggish : counter_ok sluggish.
Proof.
  intros k. destruct (decide (k = pk)) as [-> |Hne]; [evaluate|].
  assert (signingTracker sluggish !! k = None) as ->.
  { unfold sluggish. cbn [signingTracker]. by rewrite lookup_singleton_ne. }
  unfold missed_count, chunks_of, sluggish. cbn [missedBlockBitmap].
  by rewrite lookup_singleton_ne.
Qed.

Lemma punishable_pk : punishable bs0 pk provider.
Proof. unfold punishable. split_and!; evaluate. Qed.

Lemma jailed_iff_missed_too_many_witness :
  ∃ s', HandleFinalityProviderLiveness sluggish bs0 tt (at_height 9) pk true 9 =
      Ok (s', after_jailing bs0 provider 100) ∧
    signingTracker s' !! pk = Some (mkSigningInfo 1 0 1060) ∧ missed_count s' pk = 0.
Proof.
  destruct (jailed_iff_missed_too_many (LC := lc_one) sluggish bs0 tt (at_height 9) pk provider
    (mkSigningInfo 1 3 0) tip true 9) as (s' & Hs & Ht & Hc);
    [exact punishable_pk|done|evaluate|exact counter_ok_sluggish|evaluate|evaluate|split; by vm_compute|
     done|split; by vm_compute|].
  exists s'. split_and!; [exact Hs|exact Ht|]. apply N2Z.inj. exact Hc.
Defined.

Lemma missed_counter_counts_bits_witness :
  counter_ok (ok sluggish (fst <$> HandleFinalityProviderLiveness sluggish bs0 tt (at_height 9) pk true 9)).
Proof.
  apply (missed_counter_counts_bits (LC := lc_one) sluggish);
    [|exact counter_ok_sluggish].
  apply rtc_once.
  destruct (HandleFinalityProviderLiveness (LC := lc_one) sluggish bs0 tt (at_height 9) pk true 9)
    as [[s' bs']| |] eqn:Hl;
    [|exfalso; apply (f_equal is_ok) in Hl; by vm_compute in Hl..].
  apply (step_judge (LC := lc_one) _ bs0 tt (at_height 9) pk true 9 _ bs'); [evaluate|done|exact Hl].
Defined.

(** Public randomness. *)
Lemma commits_ok_x1 : commits_ok x1.1.1.
Proof. exact (fi_commits _ (reachable_inv any_sig _ (reach_reachable _ reach1))). Qed.

Lemma commit_lookup_finds_cover_witness :
  covers x1.1.1 pk 2 (mkPubRandCommit 2 1 rand 1) ∧ ∀ c, ¬ covers x1.1.1 pk 3 c.
Proof.
  pose proof (commit_lookup_finds_cover x1.1.1 pk 2 commits_ok_x1) as H2.
  pose proof (commit_lookup_finds_cover x1.1.1 pk 3 commits_ok_x1) as H3.
  replace (GetPubRandCommitForHeight x1.1.1 pk 2) with (Ok (E := FinErr) (mkPubRandCommit 2 1 rand 1))
    in H2 by evaluate.
  replace (GetPubRandCommitForHeight x1.1.1 pk 3) with (Err (A := PubRandCommit) ErrPubRandNotFound)
    in H3 by evaluate.
  split; [apply H2|apply H3].
Defined.

(** The provider commits again, for the heights 5 to 8. *)
Definition commit' : MsgCommitPubRandList :=
  mkMsgCommitPubRandList (Some [1]) (Some pk) 5 4 rand (Some []).

Lemma commitments_are_immutable_witness :
  let s' := ok x1.1.1 (CommitPubRandList any_sig x1.1.1 x1.1.2 epochs (at_height 2) commit') in
  commits_ok s' ∧ ∀ pk h c, covers x1.1.1 pk h c → covers s' pk h c.
Proof.
  apply (commitments_are_immutable (C := Toy.curve) any_sig
    x1.1.1 x1.1.2 epochs (at_height 2) commit' _ commits_ok_x1); [done..|].
  apply ok_eq. evaluate.
Defined.

(** The distribution of power: one place for three providers, one of them jailed. *)
Definition dist_info (k : bytes) (n : N) (jailed : bool) : FinalityProviderDistInfo :=
  mkDistInfo k [] None n true jailed false.
Definition three : VotingPowerDistCache :=
  mkDistCache 0 [dist_info [x01] 10 false; dist_info [x02] 30 true; dist_info [x03] 20 false] 0.

Lemma active_are_the_top_witness :
  FinalityProviders (ApplyActiveFinalityProviders three 1) ≡ₚ FinalityProviders three ∧
  TotalVotingPower (ApplyActiveFinalityProviders three 1) = 20.
Proof.
  destruct (active_are_the_top three 1) as (Hp & _ & _ & _ & _ & Ht); [done..|].
  split; [exact Hp|]. rewrite Ht. evaluate.
Defined.

Lemma power_follows_events_witness :
  ∃ dc' ps, ProcessAllPowerDistUpdateEvents bs0 NewVotingPowerDistCache 100 100 = Ok (dc', ps) ∧
    sats_of (FinalityProviders dc') pk = 50.
Proof.
  assert (is_ok (ProcessAllPowerDistUpdateEvents bs0 NewVotingPowerDistCache 100 100) = true) as Hok
    by evaluate.
  destruct (ProcessAllPowerDistUpdateEvents bs0 NewVotingPowerDistCache 100 100) as [[dc' ps]| |] eqn:He;
    [|done..].
  exists dc', ps. split; [done|].
  pose proof (power_follows_events bs0 keyed_bs0 NewVotingPowerDistCache 100 100 dc' ps) as Hp.
  cbv zeta in Hp.
  replace (GetAllPowerDistUpdateEvents bs0 100 100) with [BtcDelStateUpdate tx ACTIVE] in Hp by evaluate.
  apply N2Z.inj. etrans; [apply Hp; [constructor|constructor| |exact He]|evaluate].
  clear He Hp. intros k.
  assert (net_change bs0 k [BtcDelStateUpdate tx ACTIVE] = if bool_decide (k = pk) then 50 else 0)%Z as ->.
  2:{ change (sats_of (FinalityProviders NewVotingPowerDistCache) k) with 0. case_bool_decide; lia. }
  case_bool_decide as Hk; [subst k; evaluate|].
  unfold net_change. cbn [fmap list_fmap omap list_omap expired_tx Zsum foldr now_change].
  replace (getBTCDelegation bs0 tx) with (Some delegation) by evaluate.
  unfold stake_for, occurrences. cbn [delegation FpBtcPkList]. by rewrite filter_cons_False by done.
Defined.

(** ** Where the code falls short *)

Definition is_panic {E A} (r : res E A) : bool := match r with Panic => true | _ => false end.

(** Governance moves the activation height from 1 to 5 during block 4. *)
Definition later : Params := mkParams 10 5 1 (LegacyOneDec / 2)%Z 1 60 5.
Definition x7 : st := begin_ 4 x6.
Definition x8 : st := (ok x7.1.1 (UpdateParams "gov" "gov" x7.1.1 later), x7.1.2, x7.2).
Definition x9 : st := begin_ 5 (end_ 4 x8).

(** Raising [FinalityActivationHeight] once voting has started halts the chain:
    the change is accepted, the end of block 4 succeeds without indexing the block
    since finality counts as inactive, and the end of block 5, where it counts as
    active again, panics on the missing block. *)
Theorem raising_activation_halts :
  UpdateParams "gov" "gov" x7.1.1 later = Ok x8.1.1 ∧
  is_ok (EndBlocker x8.1.1 x8.1.2 x8.2 tt (at_height 4)) = true ∧
  HasBlock (end_ 4 x8).1.1 4 = false ∧
  is_ok (BeginBlocker (end_ 4 x8).1.1 (end_ 4 x8).1.2 (end_ 4 x8).2 tt epochs (at_height 5)) = true ∧
  is_panic (EndBlocker x9.1.1 x9.1.2 x9.2 tt (at_height 5)) = true.
Proof. split; [apply ok_eq; evaluate|]. split_and!; evaluate. Qed.

(** A block at whose height one of two providers is active, by [MaxActiveFinalityProviders]. *)
Definition pkA : bytes := repeat xaa 32.
Definition pkB : bytes := repeat xbb 32.
Definition hexA : string := "aaaaaaaaaaaaaaaaaaaaaaaaaaaaaaaaaaaaaaaaaaaaaaaaaaaaaaaaaaaaaaaa".
Definition HEXA : string := "AAAAAAAAAAAAAAAAAAAAAAAAAAAAAAAAAAAAAAAAAAAAAAAAAAAAAAAAAAAAAAAA".
Definition halted (voters : gmap bytes bytes) : FinState :=
  mkFinState {[2 := mkIndexedBlock 2 app_hash false]} {[2 := voters]} ∅ ∅ (Some params) ∅ (Some 2)
    {[pkA := mkSigningInfo 1 0 0]} ∅ {[2 := {[pkA := 30]}]}
    {[2 := mkDistCache 30 [dist_info pkA 30 false; dist_info pkB 20 false] 1]} None ∅.
Definition named (k : bytes) : FinalityProvider :=
  mkFinalityProvider "fp" None None k None 0 0 false 0 None.
Definition bs2 : BSState :=
  mkBSState {[pkA := named pkA; pkB := named pkB]} ∅ ∅ ∅ ∅ ∅ ∅ None ∅ None ∅.
Definition resume (s : FinState) (keys : list string) : res FinErr (FinState * BSState * list N) :=
  HandleResumeFinalityProposal s bs2 [] tt (at_height 2) keys 2.

(** The proposal that resumes finality identifies providers by the text of their
    keys: a provider that voted for the halting height is protected from it when its
    key is given in lower case, but in upper case it is jailed, and its voting power
    at that height is left in place. *)
Theorem resume_depends_on_hex_case :
  let s := halted {[pkA := []]} in
  resume s [hexA] = Err ErrInvalidResumeFinality ∧
  match resume s [HEXA] with
  | Ok (s', bs', _) =>
      Jailed <$> finalityProviders bs' !! pkA = Some true ∧ GetVotingPower s' pkA 2 = 30
  | _ => False
  end.
Proof. split; [evaluate|vm_compute; split; reflexivity]. Qed.

(** When the proposal jails all the active providers of a height, the next one in
    rank becomes active in the cache of that height but gets no entry in its table
    of voting power: the table is left with no power, and no set of voters can ever
    finalise the block. *)
Theorem resume_leaves_no_power :
  match resume (halted ∅) [hexA] with
  | Ok (s', _, _) =>
      TotalVotingPower <$> GetVotingPowerDistCache s' 2 = Some 20 ∧
      GetVotingPower s' pkB 2 = 0 ∧ has_table s' 2 = true ∧
      ∀ voters, tally (power_at s' 2) voters = false
  | _ => False
  end.
Proof.
  assert (match resume (halted ∅) [hexA] with
          | Ok (s', _, _) => bool_decide (power_at s' 2 = {[pkA := 0]}) &&
              bool_decide (TotalVotingPower <$> GetVotingPowerDistCache s' 2 = Some 20)
          | _ => false end = true) as Hp by evaluate.
  destruct (resume (halted ∅) [hexA]) as [[[s' bs'] env']| |]; [|done..].
  apply andb_true_iff in Hp as [Hp%bool_decide_eq_true Hc%bool_decide_eq_true].
  split_and!; [done|unfold GetVotingPower; by rewrite Hp| |].
  - unfold has_table, HasVotingPowerTable. rewrite Hp. by apply bool_decide_eq_true.
  - intros voters. rewrite Hp. unfold tally. rewrite map_fold_singleton. simpl. by case_bool_decide.
Qed.
End FinalityExamples.
