(* ===== verification/SdkCoins.v ===== *)
(** Coins of the Cosmos SDK ([sdk.Coins], [sdk.DecCoins], [math.LegacyDec]) as
    the reward modules use them, and the bank module that holds them.

    The SDK is not part of the repository: its operations are the parameters
    [SdkCoins] and [BankKeeper], and what its documentation says of them the
    laws [SdkCoinsLaws] and [BankLaws].  An amount is an integer of at most 256
    bits; an operation that panics (an overflow, a negative result, a division by
    zero) returns [None].  The lemmas here are in terms of [amount_of], the
    amount of one denomination, and the module [ToyCoins] is a model of all
    the laws, with which concrete runs are evaluated. *)
From stdpp Require Import base numbers list sorting gmap strings.
From S2P Require Import Prelude BtcStaking.
Import BtcStaking.

(** [sdk.Coin]; in [sdk.DecCoins] the amount is a [LegacyDec], an integer scaled
    by [10^18]. *)
Record Coin := mkCoin { coin_Denom : string; coin_Amount : Z }.
#[global] Instance Coin_eq_dec : EqDecision Coin.
Proof. solve_decision. Defined.

Abbreviation Coins := (list Coin).
Abbreviation DecCoins := (list Coin).

Definition max_int : Z := (2 ^ 256)%Z.

(** The amount of a denomination, and an operation on every amount. *)
Definition amount_of (cs : Coins) (d : string) : Z :=
  foldr (λ c a, ((if decide (coin_Denom c = d) then coin_Amount c else 0) + a)%Z) 0%Z cs.
Definition map_amount (f : Z → Z) (cs : Coins) : Coins :=
  (λ c, mkCoin (coin_Denom c) (f (coin_Amount c))) <$> cs.

Class SdkCoins := {
  (** The denominations are well formed and strictly sorted. *)
  denoms_ok : list string → Prop;
  NewCoins : Coins → option Coins;
  CoinsAdd : Coins → Coins → option Coins;
  CoinsSub : Coins → Coins → option Coins;
  CoinsSafeSub : Coins → Coins → option (Coins * bool);
  CoinsMulInt : Coins → Z → option Coins;
  CoinsQuoInt : Coins → Z → option Coins;
  IsZero : Coins → bool;
  IsAllPositive : Coins → bool;
  IsAnyNegative : Coins → bool;
  IsValid : Coins → bool;
  NewDecCoinsFromCoins : Coins → option DecCoins;
  MulDecTruncate : DecCoins → Dec → option DecCoins;
  TruncateDecimal : DecCoins → option (Coins * DecCoins);
  LegacyNewDec : Z → Dec;
  QuoTruncate : Dec → Dec → option Dec;
  (** [Coin.Validate], and [Int.SafeMul], which fails instead of panicking. *)
  CoinValidate : Coin → bool;
  SafeMul : Z → Z → option Z;
}.

(** Coins that an operation accepts, and the ones [Validate] accepts. *)
Definition coins_nonneg {SC : SdkCoins} (cs : Coins) : Prop :=
  denoms_ok (coin_Denom <$> cs) ∧ Forall (λ c, 0 ≤ coin_Amount c)%Z cs.
Definition coins_pos {SC : SdkCoins} (cs : Coins) : Prop :=
  denoms_ok (coin_Denom <$> cs) ∧ Forall (λ c, 0 < coin_Amount c)%Z cs.

(** What the code relies on.  Additions and subtractions want their arguments
    sorted by denomination and drop the denominations whose amount is zero;
    [MulInt] and [QuoInt] keep every denomination ("{4A} / 8 = {0A}"). *)
Class SdkCoinsLaws {SC : SdkCoins} := {
  denoms_ok_nil : denoms_ok [];
  denoms_ok_NoDup : ∀ l, denoms_ok l → NoDup l;
  newcoins_spec : ∀ a, coins_pos a → NewCoins a = Some a;
  newcoins_zero : ∀ c, CoinValidate c = true → coin_Amount c = 0%Z → NewCoins [c] = Some [];
  add_total : ∀ a b, coins_nonneg a → coins_nonneg b →
    (∀ d, amount_of a d + amount_of b d < max_int)%Z → is_Some (CoinsAdd a b);
  add_spec : ∀ a b c, coins_nonneg a → coins_nonneg b → CoinsAdd a b = Some c →
    coins_pos c ∧ ∀ d, amount_of c d = (amount_of a d + amount_of b d)%Z;
  sub_total : ∀ a b, coins_nonneg a → coins_nonneg b →
    (∀ d, amount_of b d ≤ amount_of a d)%Z → is_Some (CoinsSub a b);
  sub_spec : ∀ a b c, coins_nonneg a → coins_nonneg b → CoinsSub a b = Some c →
    coins_pos c ∧ ∀ d, amount_of c d = (amount_of a d - amount_of b d)%Z;
  safesub_total : ∀ a b, coins_nonneg a → coins_nonneg b →
    (∀ d, amount_of b d ≤ amount_of a d)%Z → is_Some (CoinsSafeSub a b);
  safesub_spec : ∀ a b c neg, coins_nonneg a → coins_nonneg b → CoinsSafeSub a b = Some (c, neg) →
    neg = IsAnyNegative c ∧ (neg = false → coins_pos c) ∧
    ∀ d, amount_of c d = (amount_of a d - amount_of b d)%Z;
  mul_total : ∀ a x, coins_nonneg a → (0 < x)%Z →
    Forall (λ c, coin_Amount c * x < max_int)%Z a → is_Some (CoinsMulInt a x);
  mul_spec : ∀ a x c, CoinsMulInt a x = Some c →
    x ≠ 0%Z ∧ c = map_amount (λ n, n * x)%Z a;
  quo_total : ∀ a x, coins_nonneg a → (0 < x)%Z → is_Some (CoinsQuoInt a x);
  quo_spec : ∀ a x c, CoinsQuoInt a x = Some c →
    x ≠ 0%Z ∧ c = map_amount (λ n, Z.quot n x) a;
  IsZero_spec : ∀ a, IsZero a = forallb (λ c, coin_Amount c =? 0)%Z a;
  IsAllPositive_spec : ∀ a,
    IsAllPositive a = negb (bool_decide (a = [])) && forallb (λ c, 0 <? coin_Amount c)%Z a;
  IsAnyNegative_spec : ∀ a, IsAnyNegative a = existsb (λ c, coin_Amount c <? 0)%Z a;
  IsValid_spec : ∀ a, IsValid a = true ↔ coins_pos a;
  newdec_spec : ∀ a, coins_pos a →
    NewDecCoinsFromCoins a = Some (map_amount (λ n, n * LegacyOneDec)%Z a);
  muldec_total : ∀ a p, coins_pos a → (0 ≤ p ≤ LegacyOneDec)%Z →
    Forall (λ c, coin_Amount c < max_int * LegacyOneDec)%Z a → is_Some (MulDecTruncate a p);
  muldec_spec : ∀ a p c, coins_pos a → (0 ≤ p)%Z → MulDecTruncate a p = Some c →
    coins_pos c ∧ ∀ d, amount_of c d = (amount_of a d * p / LegacyOneDec)%Z;
  trunc_total : ∀ a, coins_pos a →
    Forall (λ c, coin_Amount c < max_int * LegacyOneDec)%Z a → is_Some (TruncateDecimal a);
  trunc_spec : ∀ a c change, coins_pos a → TruncateDecimal a = Some (c, change) →
    coins_pos c ∧ ∀ d, amount_of c d = (amount_of a d / LegacyOneDec)%Z;
  newdec_int : ∀ n, LegacyNewDec n = (n * LegacyOneDec)%Z;
  quotrunc_total : ∀ a b, (0 ≤ a < 2 ^ 63 * LegacyOneDec)%Z → (0 < b)%Z →
    is_Some (QuoTruncate a b);
  quotrunc_spec : ∀ a b q, (0 ≤ a)%Z → (0 ≤ b)%Z → QuoTruncate a b = Some q →
    (0 < b ∧ q = a * LegacyOneDec / b)%Z;
  coin_validate_spec : ∀ c, CoinValidate c = true → (0 ≤ coin_Amount c)%Z;
  coin_validate_denom : ∀ c, CoinValidate c = true → denoms_ok [coin_Denom c];
  coin_validate_total : ∀ a c, coins_nonneg a → c ∈ a → CoinValidate c = true;
  safemul_spec : ∀ x y z, SafeMul x y = Some z → z = (x * y)%Z;
  safemul_total : ∀ x y, (Z.abs (x * y) < max_int)%Z → is_Some (SafeMul x y);
}.

(** ** Amounts *)

Section amounts.
Implicit Types (cs : Coins) (d : string).

Lemma amount_of_nil d : amount_of [] d = 0%Z.
Proof. done. Qed.

Lemma amount_of_cons c cs d :
  amount_of (c :: cs) d =
  ((if decide (coin_Denom c = d) then coin_Amount c else 0) + amount_of cs d)%Z.
Proof. done. Qed.

Lemma amount_of_absent cs d : d ∉ coin_Denom <$> cs → amount_of cs d = 0%Z.
Proof.
  induction cs as [|c cs IH]; [done|].
  rewrite fmap_cons, not_elem_of_cons, amount_of_cons. intros [Hd Hn].
  rewrite decide_False by congruence. by rewrite IH.
Qed.

Lemma amount_of_nonneg cs d : Forall (λ c, 0 ≤ coin_Amount c)%Z cs → (0 ≤ amount_of cs d)%Z.
Proof.
  induction 1 as [|c cs Hc _ IH]; [done|]. rewrite amount_of_cons. case_decide; lia.
Qed.

Lemma amount_of_bound cs c :
  Forall (λ c, 0 ≤ coin_Amount c)%Z cs → c ∈ cs → (coin_Amount c ≤ amount_of cs (coin_Denom c))%Z.
Proof.
  induction 1 as [|c' cs Hc' Hcs IH]; [by intros ?%elem_of_nil|].
  rewrite amount_of_cons. intros [->|Hin]%elem_of_cons.
  - rewrite decide_True by done. pose proof (amount_of_nonneg cs (coin_Denom c') Hcs). lia.
  - specialize (IH Hin). case_decide; lia.
Qed.

Lemma map_amount_denoms f cs : coin_Denom <$> map_amount f cs = coin_Denom <$> cs.
Proof. unfold map_amount. rewrite <-list_fmap_compose. by apply list_fmap_ext. Qed.

Lemma amount_of_map f cs d :
  NoDup (coin_Denom <$> cs) → f 0%Z = 0%Z → amount_of (map_amount f cs) d = f (amount_of cs d).
Proof.
  intros Hnd Hf. induction cs as [|c cs IH]; [done|].
  apply NoDup_cons in Hnd as [Hc Hnd]. unfold map_amount in *. rewrite fmap_cons, !amount_of_cons.
  cbn [coin_Denom coin_Amount]. rewrite IH by done. case_decide as Hd; [|by rewrite !Z.add_0_l].
  subst d. rewrite amount_of_absent by done. by rewrite Hf, !Z.add_0_r.
Qed.

Lemma amount_of_zero cs :
  Forall (λ c, 0 ≤ coin_Amount c)%Z cs →
  forallb (λ c, coin_Amount c =? 0)%Z cs = true ↔ ∀ d, amount_of cs d = 0%Z.
Proof.
  intros Hn. rewrite forallb_forall. setoid_rewrite <-list_elem_of_In. split.
  - intros Hz d. clear Hn. induction cs as [|c cs IH]; [done|].
    rewrite amount_of_cons, IH by (intros c' Hc'; apply Hz; by right).
    specialize (Hz c ltac:(by left)). apply Z.eqb_eq in Hz. case_decide; lia.
  - intros Hz c Hc. apply Z.eqb_eq. pose proof (amount_of_bound _ _ Hn Hc) as Hb.
    rewrite Hz in Hb. rewrite Forall_forall in Hn. specialize (Hn c Hc). cbv beta in Hn. lia.
Qed.
End amounts.

(** ** Operations, one denomination at a time *)

Section coins.
Context {SC : SdkCoins} {SCL : SdkCoinsLaws}.
Implicit Types (a b : Coins) (d : string).

Lemma coins_pos_nonneg a : coins_pos a → coins_nonneg a.
Proof. intros [Hd Ha]. split; [done|]. eapply Forall_impl; [done|]. cbv beta. lia. Qed.

Lemma coins_pos_nil : coins_pos [].
Proof. split; [apply denoms_ok_nil|constructor]. Qed.

Lemma coins_nonneg_nil : coins_nonneg [].
Proof. apply coins_pos_nonneg, coins_pos_nil. Qed.

Lemma coins_amount_nonneg a d : coins_nonneg a → (0 ≤ amount_of a d)%Z.
Proof. intros [_ Ha]. by apply amount_of_nonneg. Qed.

Lemma coins_amount_bound a (n : Z) :
  coins_nonneg a → (∀ d, amount_of a d < n)%Z → Forall (λ c, coin_Amount c < n)%Z a.
Proof.
  intros [_ Ha] Hn. apply Forall_forall. intros c Hc.
  pose proof (amount_of_bound _ _ Ha Hc). specialize (Hn (coin_Denom c)). lia.
Qed.

Lemma map_amount_nonneg f a :
  (∀ n, 0 ≤ n → 0 ≤ f n)%Z → coins_nonneg a → coins_nonneg (map_amount f a).
Proof.
  intros Hf [Hd Ha]. split; [by rewrite map_amount_denoms|].
  unfold map_amount. apply Forall_fmap. eapply Forall_impl; [done|]. intros x Hx. by apply Hf.
Qed.

Lemma map_amount_pos f a :
  (∀ n, 0 < n → 0 < f n)%Z → coins_pos a → coins_pos (map_amount f a).
Proof.
  intros Hf [Hd Ha]. split; [by rewrite map_amount_denoms|].
  unfold map_amount. apply Forall_fmap. eapply Forall_impl; [done|]. intros x Hx. by apply Hf.
Qed.

Lemma coins_amount_map f a d :
  coins_nonneg a → f 0%Z = 0%Z → amount_of (map_amount f a) d = f (amount_of a d).
Proof. intros [Hd _]. apply amount_of_map. by apply denoms_ok_NoDup. Qed.

Lemma mul_amount a x c : coins_nonneg a → (0 ≤ x)%Z → CoinsMulInt a x = Some c →
  coins_nonneg c ∧ ∀ d, amount_of c d = (amount_of a d * x)%Z.
Proof.
  intros Ha Hx [_ ->]%mul_spec. split.
  - apply map_amount_nonneg; [nia|done].
  - intros d. by apply (coins_amount_map (λ n, n * x)%Z).
Qed.

Lemma quo_amount a x c : coins_nonneg a → (0 ≤ x)%Z → CoinsQuoInt a x = Some c →
  (0 < x)%Z ∧ coins_nonneg c ∧ ∀ d, amount_of c d = (amount_of a d / x)%Z.
Proof.
  intros Ha Hx [Hx0 ->]%quo_spec. split; [lia|]. split.
  - apply map_amount_nonneg; [|done]. intros n Hn. apply Z.quot_pos; lia.
  - intros d. rewrite coins_amount_map by (done || apply Z.quot_0_l; lia).
    apply Z.quot_div_nonneg; [by apply coins_amount_nonneg|lia].
Qed.

Lemma IsZero_iff a : coins_nonneg a → IsZero a = true ↔ ∀ d, amount_of a d = 0%Z.
Proof. intros [_ Ha]. rewrite IsZero_spec. by apply amount_of_zero. Qed.

Lemma IsAllPositive_pos a : coins_nonneg a → IsAllPositive a = true → coins_pos a.
Proof.
  intros [Hd _]. rewrite IsAllPositive_spec, andb_true_iff, forallb_forall.
  setoid_rewrite <-list_elem_of_In. intros [_ Hp]. split; [done|].
  apply Forall_forall. intros c Hc. by apply Z.ltb_lt, Hp.
Qed.

Lemma IsAllPositive_false a : coins_pos a → IsAllPositive a = false → a = [].
Proof.
  intros [_ Ha]. rewrite IsAllPositive_spec, andb_false_iff. intros [Hn|Hf].
  - apply negb_false_iff, bool_decide_eq_true in Hn. done.
  - exfalso. apply not_true_iff_false in Hf. apply Hf, forallb_forall. intros c Hc.
    apply list_elem_of_In in Hc. rewrite Forall_forall in Ha. by apply Z.ltb_lt, Ha.
Qed.

Lemma nonneg_not_negative a : coins_nonneg a → IsAnyNegative a = false.
Proof.
  intros [_ Ha]. rewrite IsAnyNegative_spec. apply not_true_iff_false.
  rewrite existsb_exists. intros (c & Hc & Hneg). apply list_elem_of_In in Hc.
  rewrite Forall_forall in Ha. specialize (Ha c Hc). cbv beta in *. lia.
Qed.
End coins.

(** ** The bank *)

Inductive BankErr := ErrUnauthorized | ErrInvalidCoins | ErrInsufficientFunds.
#[global] Instance BankErr_eq_dec : EqDecision BankErr.
Proof. solve_decision. Defined.

(** The bank module and the module accounts; [GetModuleAccount] is the address of
    a module's account, and panics on an unknown name. *)
Class BankKeeper := {
  Bank : Type;
  GetModuleAccount : string → option (list N);
  GetAllBalances : Bank → list N → Coins;
  SendCoinsFromModuleToModule : Bank → string → string → Coins → res BankErr Bank;
  SendCoinsFromModuleToAccount : Bank → string → list N → Coins → res BankErr Bank;
  BlockedAddr : list N → bool;
}.

Definition balance {BK : BankKeeper} (b : Bank) (addr : list N) (d : string) : Z :=
  amount_of (GetAllBalances b addr) d.

(** The balances after a transfer from [x] to [y]. *)
Definition moved {BK : BankKeeper} (b b' : Bank) (x y : list N) (amt : Coins) : Prop :=
  ∀ a d, balance b' a d =
    (balance b a d - (if decide (a = x) then amount_of amt d else 0)
                   + (if decide (a = y) then amount_of amt d else 0))%Z.

(** The total supply of a denomination is an integer of at most 256 bits, so that a
    transfer of coins that exist never overflows. *)
Class BankLaws {SC : SdkCoins} {BK : BankKeeper} := {
  balances_pos : ∀ b a, coins_pos (GetAllBalances b a);
  module_account_inj : ∀ m m' x,
    GetModuleAccount m = Some x → GetModuleAccount m' = Some x → m = m';
  m2m_spec : ∀ b m m' x y amt b',
    GetModuleAccount m = Some x → GetModuleAccount m' = Some y →
    SendCoinsFromModuleToModule b m m' amt = Ok b' → coins_pos amt ∧ moved b b' x y amt;
  m2m_total : ∀ b m m' x y amt,
    GetModuleAccount m = Some x → GetModuleAccount m' = Some y → coins_pos amt →
    (∀ d, amount_of amt d ≤ balance b x d)%Z →
    ∃ b', SendCoinsFromModuleToModule b m m' amt = Ok b';
  m2a_spec : ∀ b m x y amt b',
    GetModuleAccount m = Some x → SendCoinsFromModuleToAccount b m y amt = Ok b' →
    coins_pos amt ∧ BlockedAddr y = false ∧ moved b b' x y amt;
  m2a_total : ∀ b m x y amt,
    GetModuleAccount m = Some x → BlockedAddr y = false → coins_pos amt →
    (∀ d, amount_of amt d ≤ balance b x d)%Z →
    ∃ b', SendCoinsFromModuleToAccount b m y amt = Ok b';
}.

(** ** A model of the laws *)

Module ToyCoins.

Definition denom_le (x y : string) : Prop := (encode x ≤ encode y)%positive.
Definition denom_lt (x y : string) : Prop := (encode x < encode y)%positive.
#[local] Instance denom_le_dec x y : Decision (denom_le x y).
Proof. unfold denom_le. apply _. Defined.
#[local] Instance denom_lt_dec x y : Decision (denom_lt x y).
Proof. unfold denom_lt. apply _. Defined.
#[local] Instance denom_le_total : Total denom_le.
Proof. intros x y. unfold denom_le. lia. Qed.
#[local] Instance denom_le_trans : Transitive denom_le.
Proof. intros x y z. unfold denom_le. lia. Qed.

(** The denominations with a non-zero amount, sorted. *)
Definition denoms_of (cs : Coins) : list string :=
  filter (λ d, amount_of cs d ≠ 0%Z)
    (merge_sort denom_le (elements (list_to_set (coin_Denom <$> cs) : gset string))).
Definition canon (cs : Coins) : Coins := (λ d, mkCoin d (amount_of cs d)) <$> denoms_of cs.

Definition in_range (cs : Coins) : bool :=
  forallb (λ c, (0 <=? coin_Amount c) && (coin_Amount c <? max_int))%Z cs.
Definition guard_range (cs : Coins) : option Coins := if in_range cs then Some cs else None.

#[export] Instance coins : SdkCoins := {|
  denoms_ok := StronglySorted denom_lt;
  NewCoins a := Some (filter (λ c, coin_Amount c ≠ 0%Z) a);
  CoinsAdd a b := guard_range (canon (a ++ b));
  CoinsSub a b :=
    let c := canon (a ++ map_amount Z.opp b) in
    if forallb (λ c, 0 <=? coin_Amount c)%Z c then Some c else None;
  CoinsSafeSub a b :=
    let c := canon (a ++ map_amount Z.opp b) in
    Some (c, existsb (λ c, coin_Amount c <? 0)%Z c);
  CoinsMulInt a x := if (x =? 0)%Z then None else guard_range (map_amount (λ n, n * x)%Z a);
  CoinsQuoInt a x := if (x =? 0)%Z then None else Some (map_amount (λ n, Z.quot n x) a);
  IsZero a := forallb (λ c, coin_Amount c =? 0)%Z a;
  IsAllPositive a := negb (bool_decide (a = [])) && forallb (λ c, 0 <? coin_Amount c)%Z a;
  IsAnyNegative a := existsb (λ c, coin_Amount c <? 0)%Z a;
  IsValid a := bool_decide (StronglySorted denom_lt (coin_Denom <$> a)) &&
               forallb (λ c, 0 <? coin_Amount c)%Z a;
  NewDecCoinsFromCoins a := Some (map_amount (λ n, n * LegacyOneDec)%Z a);
  MulDecTruncate a p := Some (canon (map_amount (λ n, n * p / LegacyOneDec)%Z a));
  TruncateDecimal a := Some (canon (map_amount (λ n, n / LegacyOneDec)%Z a), []);
  LegacyNewDec n := (n * LegacyOneDec)%Z;
  QuoTruncate a b := if (b =? 0)%Z then None else Some (a * LegacyOneDec / b)%Z;
  CoinValidate c := (0 <=? coin_Amount c)%Z;
  SafeMul x y := if (Z.abs (x * y) <? max_int)%Z then Some (x * y)%Z else None;
|}.

Lemma denoms_of_sorted cs : StronglySorted denom_lt (denoms_of cs).
Proof.
  unfold denoms_of. apply StronglySorted_filter.
  set (l := merge_sort denom_le _).
  assert (StronglySorted denom_le l) as Hs by (apply StronglySorted_merge_sort; apply _).
  assert (NoDup l) as Hnd.
  { unfold l. rewrite merge_sort_Permutation. apply NoDup_elements. }
  clearbody l. induction Hs as [|x l Hs IH Hx]; [constructor|].
  apply NoDup_cons in Hnd as [Hnx Hnd]. constructor; [by apply IH|].
  rewrite Forall_forall in Hx |- *. intros y Hy. specialize (Hx y Hy).
  unfold denom_le, denom_lt in *.
  assert (encode x ≠ encode y) by (by intros ->%(inj encode)). lia.
Qed.

Lemma elem_of_denoms_of cs d : d ∈ denoms_of cs ↔ amount_of cs d ≠ 0%Z.
Proof.
  unfold denoms_of. rewrite list_elem_of_filter, merge_sort_Permutation, elem_of_elements,
    elem_of_list_to_set.
  split; [by intros [??]|]. intros Hd. split; [done|].
  destruct (decide (d ∈ coin_Denom <$> cs)) as [|Hn]; [done|].
  by apply amount_of_absent in Hn.
Qed.

Lemma amount_of_made (g : string → Z) (ds : list string) d :
  NoDup ds → amount_of ((λ d, mkCoin d (g d)) <$> ds) d = if decide (d ∈ ds) then g d else 0%Z.
Proof.
  induction 1 as [|x ds Hx Hnd IH]; [done|].
  rewrite fmap_cons, amount_of_cons, IH. cbn [coin_Denom coin_Amount].
  destruct (decide (x = d)) as [->|Hne].
  - rewrite decide_False by done. rewrite decide_True by (by left). lia.
  - rewrite Z.add_0_l. apply decide_ext. rewrite elem_of_cons. naive_solver.
Qed.

Lemma denom_lt_NoDup l : StronglySorted denom_lt l → NoDup l.
Proof.
  induction 1 as [|x l Hs IH Hx]; constructor; [|done].
  intros Hin. rewrite Forall_forall in Hx. specialize (Hx x Hin). unfold denom_lt in Hx. lia.
Qed.

Lemma canon_amount cs d : amount_of (canon cs) d = amount_of cs d.
Proof.
  unfold canon. rewrite amount_of_made by (apply denom_lt_NoDup, denoms_of_sorted).
  case_decide as Hd; [done|]. rewrite elem_of_denoms_of in Hd. lia.
Qed.

Lemma canon_denoms cs : coin_Denom <$> canon cs = denoms_of cs.
Proof.
  unfold canon. rewrite <-list_fmap_compose. apply list_fmap_id.
Qed.

Lemma canon_pos cs : (∀ d, 0 ≤ amount_of cs d)%Z → coins_pos (SC := coins) (canon cs).
Proof.
  intros Hn. split; [rewrite canon_denoms; apply denoms_of_sorted|].
  unfold canon. apply Forall_fmap, Forall_forall. intros d Hd%elem_of_denoms_of.
  specialize (Hn d). simpl. lia.
Qed.

Lemma amount_of_app a b d : amount_of (a ++ b) d = (amount_of a d + amount_of b d)%Z.
Proof.
  induction a as [|x a IH]; [done|]. cbn [app]. rewrite !amount_of_cons, IH. lia.
Qed.

Lemma in_range_canon cs :
  (∀ d, 0 ≤ amount_of cs d < max_int)%Z → guard_range (canon cs) = Some (canon cs).
Proof.
  intros Hr. unfold guard_range. replace (in_range (canon cs)) with true; [done|].
  symmetry. apply forallb_forall. intros c Hc. apply list_elem_of_In in Hc.
  unfold canon in Hc. apply list_elem_of_fmap in Hc as (d & -> & _).
  cbn [coin_Amount]. specialize (Hr d). lia.
Qed.

Lemma guard_range_Some cs c :
  guard_range cs = Some c → c = cs ∧ Forall (λ c, 0 ≤ coin_Amount c < max_int)%Z cs.
Proof.
  unfold guard_range. destruct (in_range cs) eqn:Hr; [|done]. intros [= ->]. split; [done|].
  apply Forall_forall. intros x Hx. unfold in_range in Hr. rewrite forallb_forall in Hr.
  specialize (Hr x (proj1 (list_elem_of_In _ _) Hx)). lia.
Qed.

Lemma toy_amount_map f a d : coins_nonneg (SC := coins) a → f 0%Z = 0%Z →
  amount_of (map_amount f a) d = f (amount_of a d).
Proof. intros [Hd _]. apply amount_of_map. by apply denom_lt_NoDup. Qed.

Lemma toy_pos_nonneg a : coins_pos (SC := coins) a → coins_nonneg (SC := coins) a.
Proof. intros [Hd Ha]. split; [done|]. eapply Forall_impl; [done|]. cbv beta. lia. Qed.

Lemma toy_amount_nonneg a d : coins_nonneg (SC := coins) a → (0 ≤ amount_of a d)%Z.
Proof. intros [_ Ha]. by apply amount_of_nonneg. Qed.

Lemma forallb_pos a :
  forallb (λ c, 0 <? coin_Amount c)%Z a = true ↔ Forall (λ c, 0 < coin_Amount c)%Z a.
Proof.
  rewrite forallb_forall, Forall_forall. setoid_rewrite <-list_elem_of_In.
  setoid_rewrite Z.ltb_lt. done.
Qed.

#[export] Instance coins_laws : SdkCoinsLaws (SC := coins).
Proof.
  split; cbn [denoms_ok coins NewCoins CoinsAdd CoinsSub CoinsSafeSub CoinsMulInt CoinsQuoInt IsZero IsAllPositive
    IsAnyNegative IsValid NewDecCoinsFromCoins MulDecTruncate TruncateDecimal LegacyNewDec QuoTruncate CoinValidate
    SafeMul];
    try done.
  - constructor.
  - apply denom_lt_NoDup.
  - intros a [_ Ha]. f_equal. induction Ha as [|c a Hc _ IH]; [done|].
    rewrite filter_cons_True by lia. by rewrite IH.
  - intros c _ Hc. by rewrite filter_cons_False by naive_solver.
  - intros a b Ha Hb Hs. rewrite in_range_canon; [by eexists|]. intros d.
    rewrite amount_of_app. pose proof (toy_amount_nonneg a d Ha).
    pose proof (toy_amount_nonneg b d Hb). specialize (Hs d). lia.
  - intros a b c Ha Hb [-> _]%guard_range_Some. split.
    + apply canon_pos. intros d. rewrite amount_of_app.
      pose proof (toy_amount_nonneg a d Ha). pose proof (toy_amount_nonneg b d Hb). lia.
    + intros d. by rewrite canon_amount, amount_of_app.
  - intros a b Ha Hb Hs. cbv zeta. rewrite (proj2 (forallb_forall _ _)); [by eexists|].
    intros c Hc. apply list_elem_of_In, list_elem_of_fmap in Hc as (d & -> & _). cbn [coin_Amount].
    rewrite amount_of_app, (toy_amount_map Z.opp) by done. specialize (Hs d). lia.
  - intros a b c Ha Hb. cbv zeta. destruct (forallb _ _) eqn:Hr; [|done]. intros [= <-]. split.
    + split; [rewrite canon_denoms; apply denoms_of_sorted|].
      rewrite forallb_forall in Hr. apply Forall_forall. intros x Hx.
      specialize (Hr x (proj1 (list_elem_of_In _ _) Hx)).
      unfold canon in Hx. apply list_elem_of_fmap in Hx as (d & -> & Hd).
      apply elem_of_denoms_of in Hd. cbn [coin_Amount] in *. lia.
    + intros d. rewrite canon_amount, amount_of_app, (toy_amount_map Z.opp) by done. lia.
  - intros a b c neg Ha Hb. cbv zeta. intros [= <- <-]. split; [done|].
    assert (∀ d, amount_of (canon (a ++ map_amount Z.opp b)) d = (amount_of a d - amount_of b d)%Z) as Hd.
    { intros d. rewrite canon_amount, amount_of_app, (toy_amount_map Z.opp) by done. lia. }
    split; [|done]. intros Hneg. split; [rewrite canon_denoms; apply denoms_of_sorted|].
    apply not_true_iff_false in Hneg. rewrite existsb_exists in Hneg.
    apply Forall_forall. intros x Hx.
    destruct (Z.ltb_spec (coin_Amount x) 0) as [Hlt|Hge].
    { exfalso. apply Hneg. exists x. split; [by apply list_elem_of_In|lia]. }
    unfold canon in Hx. apply list_elem_of_fmap in Hx as (d & -> & Hx).
    apply elem_of_denoms_of in Hx. cbn [coin_Amount] in *. lia.
  - intros a x [_ Ha] Hx Hs. destruct (Z.eqb_spec x 0); [lia|]. unfold guard_range.
    replace (in_range _) with true; [by eexists|]. symmetry. apply forallb_forall.
    intros c Hc. apply list_elem_of_In, list_elem_of_fmap in Hc as (y & -> & Hy).
    rewrite Forall_forall in Ha, Hs. specialize (Ha y Hy). specialize (Hs y Hy).
    cbn [coin_Amount]. cbv beta in *. apply andb_true_iff. split; [apply Z.leb_le|apply Z.ltb_lt]; nia.
  - intros a x c. destruct (Z.eqb_spec x 0); [done|]. by intros [-> _]%guard_range_Some.
  - intros a x _ Hx. destruct (Z.eqb_spec x 0); [lia|]. by eexists.
  - intros a x c. destruct (Z.eqb_spec x 0); [done|]. by intros [= <-].
  - intros a. rewrite andb_true_iff, bool_decide_eq_true, forallb_pos. done.
  - intros a p c Ha Hp [= <-]. split.
    + apply canon_pos. intros d. rewrite (toy_amount_map (λ n, n * p / LegacyOneDec)%Z);
        [|by apply toy_pos_nonneg|by rewrite Z.mul_0_l].
      pose proof (toy_amount_nonneg a d (toy_pos_nonneg _ Ha)).
      apply Z.div_pos; [nia|unfold LegacyOneDec; lia].
    + intros d. rewrite canon_amount. apply (toy_amount_map (λ n, n * p / LegacyOneDec)%Z);
        [by apply toy_pos_nonneg|by rewrite Z.mul_0_l].
  - intros a c ch Ha [= <- <-]. split.
    + apply canon_pos. intros d. rewrite (toy_amount_map (λ n, n / LegacyOneDec)%Z);
        [|by apply toy_pos_nonneg|done].
      apply Z.div_pos; [by apply toy_amount_nonneg, toy_pos_nonneg|unfold LegacyOneDec; lia].
    + intros d. rewrite canon_amount. apply (toy_amount_map (λ n, n / LegacyOneDec)%Z);
        [by apply toy_pos_nonneg|done].
  - intros a b _ Hb. destruct (Z.eqb_spec b 0); [lia|]. by eexists.
  - intros a b q Ha Hb. destruct (Z.eqb_spec b 0); [done|]. intros [= <-]. split; [lia|done].
  - intros c Hc. by apply Z.leb_le.
  - intros c _. repeat constructor.
  - intros a c [_ Ha] Hc. rewrite Forall_forall in Ha. by apply Z.leb_le, Ha.
  - intros x y z. destruct (Z.abs (x * y) <? max_int)%Z; [|done]. by intros [= <-].
  - intros x y Hxy. apply Z.ltb_lt in Hxy. rewrite Hxy. by eexists.
Qed.

(** A bank: a table of balances, and the module accounts it knows. *)
Definition accounts (m : string) : option (list N) :=
  if decide (m = "incentive"%string) then Some [1%N]
  else if decide (m = "fee_collector"%string) then Some [2%N]
  else if decide (m = "costaking"%string) then Some [3%N]
  else if decide (m = "distribution"%string) then Some [4%N]
  else if decide (m = "mint"%string) then Some [5%N]
  else None.

Definition balances (b : gmap (list N) Coins) (a : list N) : Coins :=
  canon (map_amount (Z.max 0) (default [] (b !! a))).

(** The transfer of [amt] from [x] to [y]. *)
Definition transfer (b : gmap (list N) Coins) (x y : list N) (amt : Coins)
  : res BankErr (gmap (list N) Coins) :=
  if negb (IsValid amt) then Err ErrInvalidCoins
  else match CoinsSub (balances b x) amt with
       | None => Err ErrInsufficientFunds
       | Some rest =>
           let b := <[x := rest]> b in Ok (<[y := canon (balances b y ++ amt)]> b)
       end.

(** Only the address [[9]] is blocked. *)
Definition blocked (a : list N) : bool := bool_decide (a = [9%N]).

#[export] Instance bank : BankKeeper := {|
  Bank := gmap (list N) Coins;
  GetModuleAccount := accounts;
  GetAllBalances := balances;
  SendCoinsFromModuleToModule b m m' amt :=
    match accounts m, accounts m' with
    | Some x, Some y => transfer b x y amt
    | _, _ => Panic
    end;
  SendCoinsFromModuleToAccount b m y amt :=
    if blocked y then Err ErrUnauthorized
    else match accounts m with Some x => transfer b x y amt | None => Panic end;
  BlockedAddr := blocked;
|}.

Lemma balances_all_pos b a : coins_pos (SC := coins) (balances b a).
Proof.
  apply canon_pos. intros d. apply amount_of_nonneg. unfold map_amount.
  apply Forall_fmap, Forall_forall. intros c _. cbn. lia.
Qed.

Lemma balances_insert b a a' cs d : coins_pos (SC := coins) cs →
  amount_of (balances (<[a := cs]> b) a') d =
  if decide (a' = a) then amount_of cs d else amount_of (balances b a') d.
Proof.
  intros Hcs. unfold balances. case_decide as Ha.
  - subst a'. rewrite lookup_insert_eq. cbn [default from_option].
    rewrite canon_amount, (toy_amount_map (Z.max 0)) by (done || by apply toy_pos_nonneg).
    apply Z.max_r. by apply toy_amount_nonneg, toy_pos_nonneg.
  - by rewrite lookup_insert_ne by done.
Qed.

Lemma received_pos b y amt : coins_pos (SC := coins) amt →
  coins_pos (SC := coins) (canon (balances b y ++ amt)).
Proof.
  intros Hpos. apply canon_pos. intros d. rewrite amount_of_app.
  pose proof (toy_amount_nonneg _ d (toy_pos_nonneg _ (balances_all_pos b y))).
  pose proof (toy_amount_nonneg _ d (toy_pos_nonneg _ Hpos)). lia.
Qed.

Lemma transfer_spec b x y amt b' :
  transfer b x y amt = Ok b' → coins_pos (SC := coins) amt ∧ moved (BK := bank) b b' x y amt.
Proof.
  unfold transfer. destruct (IsValid amt) eqn:Hv; [|done]. apply IsValid_spec in Hv as Hpos.
  cbn [negb]. destruct (CoinsSub (balances b x) amt) as [rest|] eqn:Hs; [|done].
  cbv zeta. intros [= <-]. split; [done|].
  apply sub_spec in Hs as [Hr Hsub]; [|apply toy_pos_nonneg; first [done|apply balances_all_pos]..].
  intros a d. unfold balance. cbn [GetAllBalances bank].
  rewrite balances_insert by (by apply received_pos).
  rewrite canon_amount, amount_of_app, !balances_insert, Hsub by done.
  repeat case_decide; subst; try done; lia.
Qed.

Lemma transfer_total b x y amt : coins_pos (SC := coins) amt →
  (∀ d, amount_of amt d ≤ amount_of (balances b x) d)%Z →
  ∃ b', transfer b x y amt = Ok b'.
Proof.
  intros Hpos Hle. unfold transfer. rewrite (proj2 (IsValid_spec amt) Hpos). cbn [negb].
  pose proof (toy_pos_nonneg _ Hpos) as Hnn.
  pose proof (toy_pos_nonneg _ (balances_all_pos b x)) as Hbx.
  destruct (sub_total (balances b x) amt) as [rest ->]; [done..|]. by eexists.
Qed.

Lemma accounts_inj m m' x : accounts m = Some x → accounts m' = Some x → m = m'.
Proof. unfold accounts. intros Hm Hm'. repeat case_decide; simplify_eq; congruence. Qed.

#[export] Instance bank_laws : BankLaws (SC := coins) (BK := bank).
Proof.
  split; cbn [GetModuleAccount GetAllBalances SendCoinsFromModuleToModule
    SendCoinsFromModuleToAccount BlockedAddr bank].
  - apply balances_all_pos.
  - apply accounts_inj.
  - intros b m m' x y amt b' -> ->. apply transfer_spec.
  - intros b m m' x y amt -> ->. apply transfer_total.
  - intros b m x y amt b' ->. destruct (blocked y); [done|]. intros [? ?]%transfer_spec. done.
  - intros b m x y amt -> ->. apply transfer_total.
Qed.
End ToyCoins.
