(* ===== verification/ZSum.v ===== *)
(** Sums of integers over the entries of a store. *)
From stdpp Require Import base numbers list gmap.
From S2P Require Import Prelude.

Section zsum.
Context {K A : Type} `{Countable K}.
Implicit Types (m : gmap K A) (f g : K → A → Z).
Local Open Scope Z_scope.

Definition zsum f m : Z := map_fold (λ k x acc, f k x + acc) 0 m.

Lemma zsum_empty f : zsum f ∅ = 0.
Proof. apply map_fold_empty. Qed.

Lemma zsum_insert_new f m k x : m !! k = None → zsum f (<[k := x]> m) = f k x + zsum f m.
Proof. intros Hm. unfold zsum. rewrite map_fold_insert_L; [done|lia|done]. Qed.

Lemma zsum_delete f m k :
  zsum f m = from_option (f k) 0 (m !! k) + zsum f (delete k m).
Proof.
  destruct (m !! k) as [x|] eqn:Hm; cbn [from_option].
  - rewrite <-(insert_delete_id m k x) at 1 by done. apply zsum_insert_new, lookup_delete_eq.
  - by rewrite delete_id.
Qed.

Lemma zsum_insert f m k x : zsum f (<[k := x]> m) = f k x + zsum f (delete k m).
Proof. rewrite (zsum_delete f _ k), lookup_insert_eq, delete_insert_eq. done. Qed.

Lemma zsum_ext f g m : (∀ k x, m !! k = Some x → f k x = g k x) → zsum f m = zsum g m.
Proof.
  induction m as [|k x m Hm IH] using map_ind; intros Hfg; [done|].
  rewrite !zsum_insert_new by done. rewrite (Hfg k x) by apply lookup_insert_eq. f_equal.
  apply IH. intros k' x' Hk'. apply Hfg. rewrite lookup_insert_ne; [done|congruence].
Qed.

Lemma zsum_le f g m : (∀ k x, m !! k = Some x → f k x ≤ g k x) → zsum f m ≤ zsum g m.
Proof.
  induction m as [|k x m Hm IH] using map_ind; intros Hfg; [done|].
  rewrite !zsum_insert_new by done. apply Z.add_le_mono.
  - apply Hfg, lookup_insert_eq.
  - apply IH. intros k' x' Hk'. apply Hfg. rewrite lookup_insert_ne; [done|congruence].
Qed.

Lemma zsum_nonneg f m : (∀ k x, m !! k = Some x → 0 ≤ f k x) → 0 ≤ zsum f m.
Proof.
  induction m as [|k x m Hm IH] using map_ind; intros Hf; [done|].
  rewrite zsum_insert_new by done. apply Z.add_nonneg_nonneg.
  - apply Hf, lookup_insert_eq.
  - apply IH. intros k' x' Hk'. apply Hf. rewrite lookup_insert_ne; [done|congruence].
Qed.

Lemma zsum_add f g m : zsum (λ k x, f k x + g k x) m = zsum f m + zsum g m.
Proof.
  induction m as [|k x m Hm IH] using map_ind; [done|].
  rewrite !zsum_insert_new, IH by done. lia.
Qed.

Lemma zsum_mul_r f (c : Z) m : zsum (λ k x, f k x * c) m = zsum f m * c.
Proof.
  induction m as [|k x m Hm IH] using map_ind; [done|].
  rewrite !zsum_insert_new, IH by done. lia.
Qed.

Lemma zsum_zero f m : (∀ k x, m !! k = Some x → f k x = 0) → zsum f m = 0.
Proof.
  intros Hf. rewrite (zsum_ext f (λ _ _, 0 * 0)) by done. rewrite zsum_mul_r. lia.
Qed.

Lemma zsum_member f m k x :
  (∀ k x, m !! k = Some x → 0 ≤ f k x) → m !! k = Some x → f k x ≤ zsum f m.
Proof.
  intros Hf Hk. rewrite (zsum_delete f m k), Hk. cbn [from_option].
  assert (0 ≤ zsum f (delete k m)); [|lia].
  apply zsum_nonneg. intros k' x' [_ Hk']%lookup_delete_Some. by apply Hf.
Qed.
End zsum.
