(* ===== verification/GenesisEntries.v ===== *)
(** Validation of the entries of a genesis state: [types/validate.go].

    A Go map of the keys seen so far is a list; the keys are compared by value.  The
    genesis of several modules is validated with it. *)
From stdpp Require Import base sets list.
From S2P Require Import Prelude.

Module GenesisEntries.

Section entries.
Context {E T K : Type} `{EqDecision K}.
Context (duplicate : E) (validate : T → res E unit) (keyFunc : T → K).

Fixpoint ValidateEntries_loop (keyMap : list K) (entries : list T) : res E unit :=
  match entries with
  | [] => mret ()
  | entry :: entries =>
      let key := keyFunc entry in
      require (negb (bool_decide (key ∈ keyMap))) duplicate;;
      validate entry;;
      ValidateEntries_loop (key :: keyMap) entries
  end.

(** [validate] is the [Validate] or [ValidateBasic] method of the entries. *)
Definition ValidateEntries (entries : list T) : res E unit := ValidateEntries_loop [] entries.

Lemma ValidateEntries_loop_Ok keyMap entries :
  ValidateEntries_loop keyMap entries = Ok () ↔
  NoDup (keyFunc <$> entries) ∧ (∀ e, e ∈ entries → keyFunc e ∉ keyMap) ∧
  Forall (λ e, validate e = Ok ()) entries.
Proof.
  revert keyMap. induction entries as [|e l IH]; intros keyMap; cbn [ValidateEntries_loop fmap list_fmap].
  { split; [|done]. intros _. split; [apply NoDup_nil_2|]. split; [|done].
    intros e He. by apply elem_of_nil in He. }
  rewrite require_bind_Ok, negb_true_iff, bool_decide_eq_false, NoDup_cons, Forall_cons. split.
  - intros [Hnew ([] & Hv & (Hnd & Hin & Hall)%IH)%bind_Ok]. repeat split; [|done| |done..].
    + intros (e' & Heq & He')%list_elem_of_fmap. apply (Hin e' He'). rewrite <-Heq. by left.
    + intros e' [->|He']%elem_of_cons; [done|]. specialize (Hin e' He'). set_solver.
  - intros ([Hni Hnd] & Hin & Hv & Hall). split; [apply Hin; by left|]. rewrite Hv. cbn.
    apply IH. repeat split; [done| |done]. intros e' He'. rewrite not_elem_of_cons. split.
    + intros Heq. apply Hni. rewrite <-Heq. by apply list_elem_of_fmap_2.
    + apply Hin. by right.
Qed.

(** A list of entries is valid when its keys are distinct and each entry is valid. *)
Lemma ValidateEntries_Ok entries :
  ValidateEntries entries = Ok () ↔
  NoDup (keyFunc <$> entries) ∧ Forall (λ e, validate e = Ok ()) entries.
Proof.
  unfold ValidateEntries. rewrite ValidateEntries_loop_Ok. split; [by intros (? & _ & ?)|].
  intros []. repeat split; [done| |done]. intros e _ He. by apply elem_of_nil in He.
Qed.

(** The loops of the exports: the entries of a store, each validated. *)
Fixpoint validate_all (entries : list T) : res E (list T) :=
  match entries with
  | [] => mret []
  | e :: entries => validate e;; rest ← validate_all entries; mret (e :: rest)
  end.

Lemma validate_all_Ok l : (∀ e, e ∈ l → validate e = Ok ()) → validate_all l = Ok l.
Proof.
  induction l as [|e l IH]; intros Hv; [done|]. cbn [validate_all].
  rewrite Hv by (by left). cbn. rewrite IH; [done|]. intros e' He. apply Hv. by right.
Qed.

Lemma validate_all_inv l l' : validate_all l = Ok l' → l' = l ∧ Forall (λ e, validate e = Ok ()) l.
Proof.
  revert l'. induction l as [|e l IH]; intros l'; cbn [validate_all].
  - by intros [= <-].
  - intros ([] & Hv & (rest & Hr & [= <-])%bind_Ok)%bind_Ok. apply IH in Hr as [-> Hr].
    split; [done|]. by constructor.
Qed.
End entries.
End GenesisEntries.
