(* ===== verification/Incentive.v ===== *)
(** The reward module: [x/incentive].

    The fees of a block are split between two gauges of that height, one shared by
    finality providers and their delegators and one for the providers alone
    ([intercept_fee_collector.go]).  When the finality module rewards a final
    block, [RewardBTCStaking] ([btc_staking_gauge.go]) divides the two gauges among
    the providers that voted; a provider's commission goes to its reward
    gauge and the rest to the pool of its delegators.  Every pool is
    divided lazily ([reward_tracker.go]): a pool keeps a period, at each change of
    its stake the rewards of the period per satoshi are added to a cumulative
    total, and a delegation is paid its satoshis times the growth of that total
    since its start period.  Stakeholders withdraw their gauges with
    [WithdrawReward] ([msg_server.go]), and the fees of transactions whose
    messages all did useful work are refunded ([refund_tx_decorator.go]).

    The state is the record [IncState].  The bank and the coins are the parameters of
    [SdkCoins]; the hook of a withdrawal, which x/costaking implements, is the argument
    [BeforeRewardWithdraw] of the message server. *)
From stdpp Require Import base numbers list sorting gmap strings.
From S2P Require Import Prelude KVStore Bytes BtcStaking Finality FinalityPower SdkCoins.
From Stdlib Require Ascii.

Module Incentive.
Import BtcStaking Finality FinalityPower.

(** ** Errors: [types/errors.go] and the ones of the message server *)

Inductive IncErr :=
  | ErrBTCStakingGaugeNotFound
  | ErrRewardGaugeNotFound
  | ErrNoWithdrawableCoins
  | ErrFPCurrentRewardsNotFound
  | ErrFPHistoricalRewardsNotFound
  | ErrBTCDelegationRewardsTrackerNotFound
  | ErrBTCDelegationRewardsTrackerNegativeAmount
  | ErrFPCurrentRewardsTrackerNegativeAmount
  | ErrInvalidSigner
  | ErrInvalidProposalMsg
  | ErrInvalidArgument
  | ErrInternal
  | ErrBlockedAddr
  | ErrInvalidParams
  | ErrInvalidGenesis
  | ErrTxDecode
  | ErrFeeGrant
  | ErrBankKeeper (e : BankErr)
  | ErrHook.

#[global] Instance IncErr_eq_dec : EqDecision IncErr.
Proof. solve_decision. Defined.

(** An operation of the SDK that panics. *)
Definition or_panic {E A} (o : option A) : res E A :=
  match o with Some a => Ok a | None => Panic end.

Lemma inc_or_panic_Ok {E A} (o : option A) a : @or_panic E A o = Ok a ↔ o = Some a.
Proof. destruct o; naive_solver. Qed.

(** ** Data: [rewards.pb.go], [incentive.pb.go], [params.pb.go], [genesis.pb.go] *)

Inductive StakeholderType := FINALITY_PROVIDER | BTC_STAKER | COSTAKER.

#[global] Instance StakeholderType_eq_dec : EqDecision StakeholderType.
Proof. solve_decision. Defined.

Definition stakeholder_code (t : StakeholderType) : N :=
  match t with FINALITY_PROVIDER => 0 | BTC_STAKER => 1 | COSTAKER => 2 end.

Definition NewStakeHolderType (stBytes : list N) : res IncErr StakeholderType :=
  match stBytes with
  | [b] =>
      if (b =? 0)%N then Ok FINALITY_PROVIDER
      else if (b =? 1)%N then Ok BTC_STAKER
      else if (b =? 2)%N then Ok COSTAKER
      else Err ErrInvalidArgument
  | _ => Err ErrInvalidArgument
  end.

#[global] Instance StakeholderType_countable : Countable StakeholderType.
Proof.
  refine (inj_countable' (λ t, stakeholder_code t) (λ n,
    if (n =? 0)%N then FINALITY_PROVIDER else if (n =? 1)%N then BTC_STAKER else COSTAKER) _).
  by intros [].
Defined.

(** [StakeholderType.Bytes] *)
Definition StakeholderType_Bytes (t : StakeholderType) : list N := [stakeholder_code t].

(** [strings.ToUpper], as far as comparing with the names of the types can see:
    the letters of ASCII, and the two other characters whose upper case is one of
    them, U+0131 and U+017F. *)
Fixpoint ToUpper (s : list N) : list N :=
  match s with
  | 196%N :: 177%N :: s => 73%N :: ToUpper s
  | 197%N :: 191%N :: s => 83%N :: ToUpper s
  | c :: s => (if (97 <=? c)%N && (c <=? 122)%N then (c - 32)%N else c) :: ToUpper s
  | [] => []
  end.

Definition ascii_codes (s : string) : list N := Ascii.N_of_ascii <$> String.list_ascii_of_string s.

Definition NewStakeHolderTypeFromString (stStr : string) : res IncErr StakeholderType :=
  let stStr := ToUpper (ascii_codes stStr) in
  if bool_decide (stStr = ascii_codes "FINALITY_PROVIDER") then Ok FINALITY_PROVIDER
  else if bool_decide (stStr = ascii_codes "BTC_STAKER") then Ok BTC_STAKER
  else if bool_decide (stStr = ascii_codes "COSTAKER") then Ok COSTAKER
  else Err ErrInvalidArgument.

Definition GetAllStakeholderTypes : list StakeholderType :=
  [FINALITY_PROVIDER; BTC_STAKER; COSTAKER].

(** The portions of the fees; [None] is a nil decimal. *)
Record Params := mkParams { BtcStakingPortion : option Dec; FpPortion : option Dec }.

Record Gauge := mkGauge { g_Coins : Coins }.
Record RewardGauge := mkRewardGauge { rg_Coins : Coins; WithdrawnCoins : Coins }.

Record BTCDelegationRewardsTracker := mkTracker {
  StartPeriodCumulativeReward : N;
  bt_TotalActiveSat : Z;
}.

Record FinalityProviderCurrentRewards := mkCurrent {
  CurrentRewards : Coins;
  Period : N;
  cr_TotalActiveSat : Z;
}.

Record FinalityProviderHistoricalRewards := mkHistorical { CumulativeRewardsPerSat : Coins }.

(** [EventPowerUpdate]; the addresses are bech32 strings. *)
Inductive EventPowerUpdate :=
  | BtcActivated (FpAddr BtcDelAddr : string) (TotalSat : Z)
  | BtcUnbonded (FpAddr BtcDelAddr : string) (TotalSat : Z).

Definition NewGauge (coins : Coins) : Gauge := mkGauge coins.
Definition NewRewardGauge (coins : Coins) : RewardGauge := mkRewardGauge coins [].
Definition NewBTCDelegationRewardsTracker (startPeriod : N) (totalSat : Z) :=
  mkTracker startPeriod totalSat.
Definition NewFinalityProviderCurrentRewards (rwd : Coins) (period : N) (sat : Z) :=
  mkCurrent rwd period sat.
Definition NewFinalityProviderHistoricalRewards (rwd : Coins) := mkHistorical rwd.
Definition NewEventBtcDelegationActivated (fpAddr delAddr : string) (sat : Z) :=
  BtcActivated fpAddr delAddr sat.
Definition NewEventBtcDelegationUnboned (fpAddr delAddr : string) (sat : Z) :=
  BtcUnbonded fpAddr delAddr sat.

Definition DecimalRewards : Z := (10 ^ 20)%Z.

(** ** The store: [keeper/keeper.go], [types/keys.go]

    The index of the providers of a delegator has the raw keys
    [delegator ++ provider]. *)
Record IncState := mkInc {
  inc_params : option Params;
  btcStakingGauges : gmap N Gauge;
  fpDirectGauges : gmap N Gauge;
  rewardGauges : gmap (StakeholderType * list N) RewardGauge;
  withdrawAddrs : gmap (list N) (list N);
  RefundableMsgKeySet : gset bytes;
  finalityProviderCurrentRewards : gmap (list N) FinalityProviderCurrentRewards;
  finalityProviderHistoricalRewards : gmap (list N * N) FinalityProviderHistoricalRewards;
  btcDelegationRewardsTracker : gmap (list N * list N) BTCDelegationRewardsTracker;
  btcDelegatorToFp : gset (list N);
  rewardTrackerEvents : gmap N (list EventPowerUpdate);
  rewardTrackerEventsLastProcessedHeight : option N;
}.

Definition inc_empty : IncState := mkInc None ∅ ∅ ∅ ∅ ∅ ∅ ∅ ∅ ∅ ∅ None.

Implicit Types (s : IncState) (fp del addr : list N).

Definition with_params s v := mkInc v (btcStakingGauges s) (fpDirectGauges s) (rewardGauges s)
  (withdrawAddrs s) (RefundableMsgKeySet s) (finalityProviderCurrentRewards s)
  (finalityProviderHistoricalRewards s) (btcDelegationRewardsTracker s) (btcDelegatorToFp s)
  (rewardTrackerEvents s) (rewardTrackerEventsLastProcessedHeight s).
Definition with_btcGauges s v := mkInc (inc_params s) v (fpDirectGauges s) (rewardGauges s)
  (withdrawAddrs s) (RefundableMsgKeySet s) (finalityProviderCurrentRewards s)
  (finalityProviderHistoricalRewards s) (btcDelegationRewardsTracker s) (btcDelegatorToFp s)
  (rewardTrackerEvents s) (rewardTrackerEventsLastProcessedHeight s).
Definition with_fpGauges s v := mkInc (inc_params s) (btcStakingGauges s) v (rewardGauges s)
  (withdrawAddrs s) (RefundableMsgKeySet s) (finalityProviderCurrentRewards s)
  (finalityProviderHistoricalRewards s) (btcDelegationRewardsTracker s) (btcDelegatorToFp s)
  (rewardTrackerEvents s) (rewardTrackerEventsLastProcessedHeight s).
Definition with_gauges s v := mkInc (inc_params s) (btcStakingGauges s) (fpDirectGauges s) v
  (withdrawAddrs s) (RefundableMsgKeySet s) (finalityProviderCurrentRewards s)
  (finalityProviderHistoricalRewards s) (btcDelegationRewardsTracker s) (btcDelegatorToFp s)
  (rewardTrackerEvents s) (rewardTrackerEventsLastProcessedHeight s).
Definition with_withdraw s v := mkInc (inc_params s) (btcStakingGauges s) (fpDirectGauges s)
  (rewardGauges s) v (RefundableMsgKeySet s) (finalityProviderCurrentRewards s)
  (finalityProviderHistoricalRewards s) (btcDelegationRewardsTracker s) (btcDelegatorToFp s)
  (rewardTrackerEvents s) (rewardTrackerEventsLastProcessedHeight s).
Definition with_refundable s v := mkInc (inc_params s) (btcStakingGauges s) (fpDirectGauges s)
  (rewardGauges s) (withdrawAddrs s) v (finalityProviderCurrentRewards s)
  (finalityProviderHistoricalRewards s) (btcDelegationRewardsTracker s) (btcDelegatorToFp s)
  (rewardTrackerEvents s) (rewardTrackerEventsLastProcessedHeight s).
Definition with_current s v := mkInc (inc_params s) (btcStakingGauges s) (fpDirectGauges s)
  (rewardGauges s) (withdrawAddrs s) (RefundableMsgKeySet s) v
  (finalityProviderHistoricalRewards s) (btcDelegationRewardsTracker s) (btcDelegatorToFp s)
  (rewardTrackerEvents s) (rewardTrackerEventsLastProcessedHeight s).
Definition with_historical s v := mkInc (inc_params s) (btcStakingGauges s) (fpDirectGauges s)
  (rewardGauges s) (withdrawAddrs s) (RefundableMsgKeySet s) (finalityProviderCurrentRewards s)
  v (btcDelegationRewardsTracker s) (btcDelegatorToFp s)
  (rewardTrackerEvents s) (rewardTrackerEventsLastProcessedHeight s).
Definition with_trackers s v ix := mkInc (inc_params s) (btcStakingGauges s) (fpDirectGauges s)
  (rewardGauges s) (withdrawAddrs s) (RefundableMsgKeySet s) (finalityProviderCurrentRewards s)
  (finalityProviderHistoricalRewards s) v ix
  (rewardTrackerEvents s) (rewardTrackerEventsLastProcessedHeight s).
Definition with_events s v := mkInc (inc_params s) (btcStakingGauges s) (fpDirectGauges s)
  (rewardGauges s) (withdrawAddrs s) (RefundableMsgKeySet s) (finalityProviderCurrentRewards s)
  (finalityProviderHistoricalRewards s) (btcDelegationRewardsTracker s) (btcDelegatorToFp s)
  v (rewardTrackerEventsLastProcessedHeight s).
Definition with_processed s v := mkInc (inc_params s) (btcStakingGauges s) (fpDirectGauges s)
  (rewardGauges s) (withdrawAddrs s) (RefundableMsgKeySet s) (finalityProviderCurrentRewards s)
  (finalityProviderHistoricalRewards s) (btcDelegationRewardsTracker s) (btcDelegatorToFp s)
  (rewardTrackerEvents s) v.

(** The order of the keys of the store. *)
Fixpoint key_leb (a b : list N) : bool :=
  match a, b with
  | [], _ => true
  | _ :: _, [] => false
  | x :: a, y :: b => if (x =? y)%N then key_leb a b else (x <? y)%N
  end.
Definition key_le (a b : list N) : Prop := key_leb a b = true.
#[global] Instance key_le_dec a b : Decision (key_le a b).
Proof. unfold key_le. apply _. Defined.

(** ** The keeper *)

Section keeper.
Context {SC : SdkCoins} {BK : BankKeeper} {B32 : Bech32}.
(** [sdk.AccAddress.String] *)
Context (AddrString : list N → string).

(** *** Portions and gauges: [types/incentive.go], [types/rewards.go], [types/params.go] *)

Definition GetCoinsPortion (coinsInt : Coins) (portion : Dec) : option Coins :=
  coins ← NewDecCoinsFromCoins coinsInt;
  portionCoins ← MulDecTruncate coins portion;
  '(portionCoinsInt, _) ← TruncateDecimal portionCoins;
  Some portionCoinsInt.

Definition Gauge_GetCoinsPortion (g : Gauge) (portion : Dec) : option Coins :=
  GetCoinsPortion (g_Coins g) portion.

Definition GetWithdrawableCoins (rg : RewardGauge) : option Coins :=
  CoinsSub (rg_Coins rg) (WithdrawnCoins rg).
Definition SetFullyWithdrawn (rg : RewardGauge) : option RewardGauge :=
  w ← NewCoins (rg_Coins rg);
  Some (mkRewardGauge (rg_Coins rg) w).
Definition RewardGauge_Add (rg : RewardGauge) (coins : Coins) : option RewardGauge :=
  c ← CoinsAdd (rg_Coins rg) coins;
  Some (mkRewardGauge c (WithdrawnCoins rg)).

Definition AddRewards (f : FinalityProviderCurrentRewards) (coinsToAdd : Coins) :=
  c ← CoinsAdd (CurrentRewards f) coinsToAdd;
  Some (mkCurrent c (Period f) (cr_TotalActiveSat f)).
Definition SubRewards (f : FinalityProviderCurrentRewards) (coinsToSub : Coins) :=
  c ← CoinsSub (CurrentRewards f) coinsToSub;
  Some (mkCurrent c (Period f) (cr_TotalActiveSat f)).
Definition cr_AddTotalActiveSat (f : FinalityProviderCurrentRewards) (amt : Z) :=
  mkCurrent (CurrentRewards f) (Period f) (cr_TotalActiveSat f + amt)%Z.
Definition cr_SubTotalActiveSat (f : FinalityProviderCurrentRewards) (amt : Z) :=
  mkCurrent (CurrentRewards f) (Period f) (cr_TotalActiveSat f - amt)%Z.
Definition bt_AddTotalActiveSat (f : BTCDelegationRewardsTracker) (amt : Z) :=
  mkTracker (StartPeriodCumulativeReward f) (bt_TotalActiveSat f + amt)%Z.
Definition bt_SubTotalActiveSat (f : BTCDelegationRewardsTracker) (amt : Z) :=
  mkTracker (StartPeriodCumulativeReward f) (bt_TotalActiveSat f - amt)%Z.

(** [Params.Validate]; [TotalPortion] is only reached with both portions set. *)
Definition TotalPortion (btc fpp : Dec) : Dec := (btc + fpp)%Z.
Definition Params_Validate (p : Params) : bool :=
  match BtcStakingPortion p, FpPortion p with
  | Some btc, Some fpp =>
      negb (btc <? 0)%Z && negb (fpp <? 0)%Z && negb (LegacyOneDec <=? TotalPortion btc fpp)%Z
  | _, _ => false
  end.
Definition DefaultParams : Params :=
  mkParams (Some 181818182000000000%Z) (Some 13636364000000000%Z).

(** *** Parameters and withdraw addresses: [keeper/params.go], [keeper/store.go] *)

Definition SetParams s (p : Params) : res IncErr IncState :=
  require (Params_Validate p) ErrInvalidParams;;
  mret (with_params s (Some p)).
Definition GetParams s : Params := default (mkParams None None) (inc_params s).

Definition GetWithdrawAddr s addr : list N := default addr (withdrawAddrs s !! addr).
Definition SetWithdrawAddr s addr (withdrawAddr : list N) : IncState :=
  with_withdraw s (<[addr := withdrawAddr]> (withdrawAddrs s)).

(** *** Reward gauges: [keeper/reward_gauge.go] *)

Definition GetRewardGauge s (t : StakeholderType) addr : option RewardGauge :=
  rewardGauges s !! (t, addr).
Definition SetRewardGauge s (t : StakeholderType) addr (rg : RewardGauge) : IncState :=
  with_gauges s (<[(t, addr) := rg]> (rewardGauges s)).

Definition accumulateRewardGauge s (t : StakeholderType) addr (reward : Coins)
  : res IncErr IncState :=
  if negb (IsAllPositive reward) then mret s
  else
    let rg := default (NewRewardGauge []) (GetRewardGauge s t addr) in
    rg ← or_panic (RewardGauge_Add rg reward);
    mret (SetRewardGauge s t addr rg).

Definition AccumulateRewardGaugeForFP s addr (reward : Coins) : res IncErr IncState :=
  accumulateRewardGauge s FINALITY_PROVIDER addr reward.
Definition AccumulateRewardGaugeForCostaker s addr (reward : Coins) : res IncErr IncState :=
  accumulateRewardGauge s COSTAKER addr reward.

(** [types.ModuleName]. *)
Definition ModuleName : string := "incentive".

Definition withdrawReward s (b : Bank) (t : StakeholderType) addr
  : res IncErr (Coins * IncState * Bank) :=
  match GetRewardGauge s t addr with
  | None => Err ErrRewardGaugeNotFound
  | Some rg =>
      withdrawableCoins ← or_panic (GetWithdrawableCoins rg);
      if negb (IsAllPositive withdrawableCoins) then Err ErrNoWithdrawableCoins
      else
        let withdrawAddr := GetWithdrawAddr s addr in
        b ← map_err ErrBankKeeper
              (SendCoinsFromModuleToAccount b ModuleName withdrawAddr withdrawableCoins);
        rg ← or_panic (SetFullyWithdrawn rg);
        mret (withdrawableCoins, SetRewardGauge s t addr rg, b)
  end.

(** *** The stores of the reward tracker: [keeper/reward_tracker_store.go] *)

Definition setBTCDelegatorToFP (ix : gset (list N)) del fp : gset (list N) := {[del ++ fp]} ∪ ix.
Definition deleteBTCDelegatorToFP (ix : gset (list N)) del fp : gset (list N) := ix ∖ {[del ++ fp]}.

(** The providers that the index has for a delegator, in key order: what follows the
    delegator's address in the keys it is a prefix of. *)
Definition fps_of_delegator (ix : gset (list N)) del : list (list N) :=
  merge_sort key_le
    (omap (λ k, if bool_decide (take (length del) k = del) then Some (drop (length del) k) else None)
      (elements ix)).

Definition iterBtcDelegationsByDelegator s del (it : IncState → list N → list N → res IncErr IncState)
  : res IncErr IncState :=
  fold_res (λ s fp, it s del fp) s (fps_of_delegator (btcDelegatorToFp s) del).

Definition GetFinalityProviderCurrentRewards s fp : res IncErr FinalityProviderCurrentRewards :=
  of_option ErrFPCurrentRewardsNotFound (finalityProviderCurrentRewards s !! fp).
Definition SetFinalityProviderCurrentRewards s fp (rwd : FinalityProviderCurrentRewards) : IncState :=
  with_current s (<[fp := rwd]> (finalityProviderCurrentRewards s)).

Definition GetFinalityProviderHistoricalRewards s fp (period : N)
  : res IncErr FinalityProviderHistoricalRewards :=
  of_option ErrFPHistoricalRewardsNotFound (finalityProviderHistoricalRewards s !! (fp, period)).
Definition setFinalityProviderHistoricalRewards s fp (period : N)
    (rwd : FinalityProviderHistoricalRewards) : IncState :=
  with_historical s (<[(fp, period) := rwd]> (finalityProviderHistoricalRewards s)).

Definition GetBTCDelegationRewardsTracker s fp del : res IncErr BTCDelegationRewardsTracker :=
  of_option ErrBTCDelegationRewardsTrackerNotFound (btcDelegationRewardsTracker s !! (fp, del)).
Definition setBTCDelegationRewardsTracker s fp del (rwd : BTCDelegationRewardsTracker) : IncState :=
  with_trackers s (<[(fp, del) := rwd]> (btcDelegationRewardsTracker s))
    (setBTCDelegatorToFP (btcDelegatorToFp s) del fp).

(** The delegations of a provider, in key order. *)
Definition trackers_of s fp : list (list N * BTCDelegationRewardsTracker) :=
  merge_sort (λ x y, key_le x.1 y.1)
    (omap (λ x, if bool_decide (x.1.1 = fp) then Some (x.1.2, x.2) else None)
      (map_to_list (btcDelegationRewardsTracker s))).

Definition IterateBTCDelegationRewardsTracker s fp
    (it : IncState → list N → BTCDelegationRewardsTracker → res IncErr IncState)
  : res IncErr IncState :=
  fold_res (λ s x, it s x.1 x.2) s (trackers_of s fp).

Definition deleteKeysFromBTCDelegationRewardsTracker s fp (delKeys : list (list N)) : IncState :=
  with_trackers s (filter (λ x, x.1.1 ≠ fp) (btcDelegationRewardsTracker s))
    (foldl (λ ix del, deleteBTCDelegatorToFP ix del fp) (btcDelegatorToFp s) delKeys).

Definition deleteFinalityProviderCurrentRewards s fp : IncState :=
  with_current s (delete fp (finalityProviderCurrentRewards s)).
Definition deleteAllFromFinalityProviderRwd s fp : IncState :=
  deleteFinalityProviderCurrentRewards
    (with_historical s (filter (λ x, x.1.1 ≠ fp) (finalityProviderHistoricalRewards s))) fp.

Definition initializeFinalityProvider s fp : FinalityProviderCurrentRewards * IncState :=
  let s := setFinalityProviderHistoricalRewards s fp 0 (NewFinalityProviderHistoricalRewards []) in
  let newFp := NewFinalityProviderCurrentRewards [] 1 0 in
  (newFp, SetFinalityProviderCurrentRewards s fp newFp).

Definition subFinalityProviderStaked s fp (amt : Z) : res IncErr IncState :=
  fpCurrentRwd ← GetFinalityProviderCurrentRewards s fp;
  let fpCurrentRwd := cr_SubTotalActiveSat fpCurrentRwd amt in
  require (negb (cr_TotalActiveSat fpCurrentRwd <? 0)%Z) ErrFPCurrentRewardsTrackerNegativeAmount;;
  mret (SetFinalityProviderCurrentRewards s fp fpCurrentRwd).

Definition subDelegationSat s fp del (amt : Z) : res IncErr IncState :=
  btcDelRwdTracker ← GetBTCDelegationRewardsTracker s fp del;
  let btcDelRwdTracker := bt_SubTotalActiveSat btcDelRwdTracker amt in
  require (negb (bt_TotalActiveSat btcDelRwdTracker <? 0)%Z)
    ErrBTCDelegationRewardsTrackerNegativeAmount;;
  subFinalityProviderStaked (setBTCDelegationRewardsTracker s fp del btcDelRwdTracker) fp amt.

Definition addFinalityProviderStaked s fp (amt : Z) : IncState :=
  let '(fpCurrentRwd, s) :=
    match finalityProviderCurrentRewards s !! fp with
    | Some fpCurrentRwd => (fpCurrentRwd, s)
    | None => initializeFinalityProvider s fp
    end in
  SetFinalityProviderCurrentRewards s fp (cr_AddTotalActiveSat fpCurrentRwd amt).

Definition addDelegationSat s fp del (amt : Z) : IncState :=
  let btcDelRwdTracker :=
    default (NewBTCDelegationRewardsTracker 0 0) (btcDelegationRewardsTracker s !! (fp, del)) in
  addFinalityProviderStaked
    (setBTCDelegationRewardsTracker s fp del (bt_AddTotalActiveSat btcDelRwdTracker amt)) fp amt.

(** *** The reward tracker: [keeper/reward_tracker.go] *)

Definition AddFinalityProviderRewardsForBtcDelegations s fp (rwd : Coins) : res IncErr IncState :=
  fpCurrentRwd ← GetFinalityProviderCurrentRewards s fp;
  fpCurrentRwd ← or_panic (AddRewards fpCurrentRwd rwd);
  mret (SetFinalityProviderCurrentRewards s fp fpCurrentRwd).

(** The rewards of the period per satoshi, scaled by [DecimalRewards]. *)
Definition rewards_per_sat (fpCurrentRwd : FinalityProviderCurrentRewards) : option Coins :=
  if (cr_TotalActiveSat fpCurrentRwd =? 0)%Z then Some []
  else
    withDecimals ← CoinsMulInt (CurrentRewards fpCurrentRwd) DecimalRewards;
    CoinsQuoInt withDecimals (cr_TotalActiveSat fpCurrentRwd).

Definition IncrementFinalityProviderPeriod s fp : res IncErr (N * IncState) :=
  match finalityProviderCurrentRewards s !! fp with
  | None => mret (1%N, (initializeFinalityProvider s fp).2)
  | Some fpCurrentRwd =>
      currentRewardsPerSat ← or_panic (rewards_per_sat fpCurrentRwd);
      fpHistoricalRwd ← GetFinalityProviderHistoricalRewards s fp (u64_sub (Period fpCurrentRwd) 1);
      newCumulative ← or_panic (CoinsAdd (CumulativeRewardsPerSat fpHistoricalRwd) currentRewardsPerSat);
      let s := setFinalityProviderHistoricalRewards s fp (Period fpCurrentRwd)
                 (NewFinalityProviderHistoricalRewards newCumulative) in
      let newCurrentRwd := NewFinalityProviderCurrentRewards [] (u64_add (Period fpCurrentRwd) 1)
                             (cr_TotalActiveSat fpCurrentRwd) in
      mret (Period fpCurrentRwd, SetFinalityProviderCurrentRewards s fp newCurrentRwd)
  end.

Definition calculateDelegationRewardsBetween s fp (t : BTCDelegationRewardsTracker)
    (endingPeriod : N) : res IncErr Coins :=
  assert_go (negb (endingPeriod <? StartPeriodCumulativeReward t)%N);;
  starting ← GetFinalityProviderHistoricalRewards s fp (StartPeriodCumulativeReward t);
  ending ← GetFinalityProviderHistoricalRewards s fp endingPeriod;
  differenceWithDecimals ←
    or_panic (CoinsSub (CumulativeRewardsPerSat ending) (CumulativeRewardsPerSat starting));
  assert_go (negb (IsAnyNegative differenceWithDecimals));;
  rewardsWithDecimals ← or_panic (CoinsMulInt differenceWithDecimals (bt_TotalActiveSat t));
  or_panic (CoinsQuoInt rewardsWithDecimals DecimalRewards).

Definition CalculateBTCDelegationRewards s fp del (endPeriod : N) : res IncErr Coins :=
  btcDelRwdTracker ← GetBTCDelegationRewardsTracker s fp del;
  if (bt_TotalActiveSat btcDelRwdTracker =? 0)%Z then mret []
  else calculateDelegationRewardsBetween s fp btcDelRwdTracker endPeriod.

Definition CalculateBTCDelegationRewardsAndSendToGauge s fp del (endPeriod : N)
  : res IncErr IncState :=
  rewards ← match CalculateBTCDelegationRewards s fp del endPeriod with
            | Err e => if decide (e = ErrBTCDelegationRewardsTrackerNotFound) then mret [] else Err e
            | r => r
            end;
  if IsZero rewards then mret s
  else accumulateRewardGauge s BTC_STAKER del rewards.

Definition initializeBTCDelegation s fp del : res IncErr IncState :=
  valCurrentRewards ← GetFinalityProviderCurrentRewards s fp;
  let previousPeriod := u64_sub (Period valCurrentRewards) 1 in
  btcDelRwdTracker ← GetBTCDelegationRewardsTracker s fp del;
  mret (setBTCDelegationRewardsTracker s fp del
          (NewBTCDelegationRewardsTracker previousPeriod (bt_TotalActiveSat btcDelRwdTracker))).

Definition btcDelegationModifiedWithPreInitDel s fp del
    (preInitializeDelegation : IncState → list N → list N → res IncErr IncState)
  : res IncErr IncState :=
  '(endedPeriod, s) ← IncrementFinalityProviderPeriod s fp;
  s ← CalculateBTCDelegationRewardsAndSendToGauge s fp del endedPeriod;
  s ← preInitializeDelegation s fp del;
  initializeBTCDelegation s fp del.

Definition BtcDelegationActivated s fp del (sat : Z) : res IncErr IncState :=
  btcDelegationModifiedWithPreInitDel s fp del (λ s fp del, mret (addDelegationSat s fp del sat)).
Definition BtcDelegationUnbonded s fp del (sat : Z) : res IncErr IncState :=
  btcDelegationModifiedWithPreInitDel s fp del (λ s fp del, subDelegationSat s fp del sat).
Definition btcDelegationModified s fp del : res IncErr IncState :=
  btcDelegationModifiedWithPreInitDel s fp del (λ s _ _, mret s).

Definition FpSlashed s fp : res IncErr IncState :=
  '(endedPeriod, s) ← IncrementFinalityProviderPeriod s fp;
  let keys := (trackers_of s fp).*1 in
  s ← IterateBTCDelegationRewardsTracker s fp
        (λ s del _, CalculateBTCDelegationRewardsAndSendToGauge s fp del endedPeriod);
  mret (deleteAllFromFinalityProviderRwd (deleteKeysFromBTCDelegationRewardsTracker s fp keys) fp).

Definition sendAllBtcRewardsToGauge s del : res IncErr IncState :=
  iterBtcDelegationsByDelegator s del (λ s del fp, btcDelegationModified s fp del).

Definition sendAllBtcDelegationTypeToRewardsGauge s (t : StakeholderType) del : res IncErr IncState :=
  if decide (t ≠ BTC_STAKER) then mret s else sendAllBtcRewardsToGauge s del.

(** *** Events of the finality module: [keeper/reward_tracker_events.go],
    [keeper/finality_hooks.go] *)

Definition GetOrNewRewardTrackerEvent s (height : N) : list EventPowerUpdate :=
  default [] (rewardTrackerEvents s !! height).
Definition SetRewardTrackerEvent s (height : N) (evs : list EventPowerUpdate) : IncState :=
  with_events s (<[height := evs]> (rewardTrackerEvents s)).
Definition AddRewardTrackerEvent s (height : N) (newEv : EventPowerUpdate) : IncState :=
  SetRewardTrackerEvent s height (GetOrNewRewardTrackerEvent s height ++ [newEv]).
Definition DeleteRewardTrackerEvents s (height : N) : IncState :=
  with_events s (delete height (rewardTrackerEvents s)).
Definition GetRewardTrackerEventLastProcessedHeight s : N :=
  default 0%N (rewardTrackerEventsLastProcessedHeight s).
Definition SetRewardTrackerEventLastProcessedHeight s (h : N) : IncState :=
  with_processed s (Some h).

Definition AddEventBtcDelegationActivated s (height : N) fp del (sat : N) : IncState :=
  AddRewardTrackerEvent s height
    (NewEventBtcDelegationActivated (AddrString fp) (AddrString del) (Z.of_N sat)).
Definition AddEventBtcDelegationUnbonded s (height : N) fp del (sat : N) : IncState :=
  AddRewardTrackerEvent s height
    (NewEventBtcDelegationUnboned (AddrString fp) (AddrString del) (Z.of_N sat)).

(** The hooks of the finality module, in the block of height [height]. *)
Definition AfterBtcDelegationUnbonded s (height : N) (fpAddr btcDelAddr : list N)
    (isFpActiveInPrevSet isFpActiveInCurrSet : bool) (sats : N) : res IncErr IncState :=
  mret (AddEventBtcDelegationUnbonded s height fpAddr btcDelAddr sats).
Definition AfterBtcDelegationActivated s (height : N) (fpAddr btcDelAddr : list N)
    (isFpActiveInPrevSet isFpActiveInCurrSet : bool) (sats : N) : res IncErr IncState :=
  mret (AddEventBtcDelegationActivated s height fpAddr btcDelAddr sats).
Definition AfterAncFpEntersActiveSet s (fpAddr : list N) : res IncErr IncState := mret s.
Definition AfterAncFpRemovedFromActiveSet s (fpAddr : list N) : res IncErr IncState := mret s.

Definition process_event s (ev : EventPowerUpdate) : res IncErr IncState :=
  match ev with
  | BtcActivated fpAddr delAddr sat =>
      fp ← or_panic (AccAddressFromBech32 fpAddr);
      del ← or_panic (AccAddressFromBech32 delAddr);
      BtcDelegationActivated s fp del sat
  | BtcUnbonded fpAddr delAddr sat =>
      fp ← or_panic (AccAddressFromBech32 fpAddr);
      del ← or_panic (AccAddressFromBech32 delAddr);
      BtcDelegationUnbonded s fp del sat
  end.

Definition ProcessRewardTrackerEventsAtHeight s (height : N) : res IncErr IncState :=
  s ← fold_res process_event s (GetOrNewRewardTrackerEvent s height);
  mret (DeleteRewardTrackerEvents s height).

(** The loop ends for every bound below the largest 64-bit number. *)
Definition ProcessRewardTrackerEvents s (untilBlkHeight : N) : res IncErr IncState :=
  let lastProcessedHeight := GetRewardTrackerEventLastProcessedHeight s in
  s ← fold_res ProcessRewardTrackerEventsAtHeight s
        (heights_between (u64_add lastProcessedHeight 1) untilBlkHeight);
  mret (SetRewardTrackerEventLastProcessedHeight s untilBlkHeight).

Definition compile_event (filter : string → bool) (m : gmap string Z) (ev : EventPowerUpdate)
  : gmap string Z :=
  match ev with
  | BtcActivated fpAddr delAddr sat =>
      if filter fpAddr then <[delAddr := (default 0 (m !! delAddr) + sat)%Z]> m else m
  | BtcUnbonded fpAddr delAddr sat =>
      if filter fpAddr then <[delAddr := (default 0 (m !! delAddr) - sat)%Z]> m else m
  end.

Definition GetRewardTrackerEventsCompiledByBtcDel s (untilBlkHeight : N) (filter : string → bool)
  : gmap string Z :=
  let lastProcessedHeight := GetRewardTrackerEventLastProcessedHeight s in
  foldl (λ m h, foldl (compile_event filter) m (GetOrNewRewardTrackerEvent s h)) ∅
    (heights_between (u64_add lastProcessedHeight 1) untilBlkHeight).

(** [IterateBTCDelegationSatsUpdated], with a callback [it] on a state of the
    caller, and [err] the error of an address that cannot be decoded; [blockHeight] is the height of the block. *)
Definition IterateBTCDelegationSatsUpdated {S E} s (blockHeight : N) fp
    (err : S → E) (it : S → list N → Z → res E S) (x : S) : res E S :=
  let compiledEvents := GetRewardTrackerEventsCompiledByBtcDel s blockHeight
    (λ fpAddr, bool_decide (fpAddr = AddrString fp)) in
  '(compiledEvents, x) ← fold_res (λ acc entry,
      let '(compiledEvents, x) := acc in
      let '(del, rwdTracker) := entry in
      let delStr := AddrString del in
      let activeSats := (bt_TotalActiveSat rwdTracker + default 0 (compiledEvents !! delStr))%Z in
      x ← it x del activeSats;
      mret (delete delStr compiledEvents, x))
    (compiledEvents, x) (trackers_of s fp);
  fold_res (λ x entry,
      delAddr ← of_option (err x) (AccAddressFromBech32 entry.1);
      it x delAddr entry.2)
    x (merge_sort (λ a b, key_le (ascii_codes a.1) (ascii_codes b.1)) (map_to_list compiledEvents)).

(** *** Fees and gauges: [keeper/intercept_fee_collector.go], [keeper/btc_staking_gauge.go] *)

Definition SetBTCStakingGauge s (height : N) (g : Gauge) : IncState :=
  with_btcGauges s (<[height := g]> (btcStakingGauges s)).
Definition GetBTCStakingGauge s (height : N) : option Gauge := btcStakingGauges s !! height.
Definition SetFPDirectGauge s (height : N) (g : Gauge) : IncState :=
  with_fpGauges s (<[height := g]> (fpDirectGauges s)).
Definition GetFPDirectGauge s (height : N) : option Gauge := fpDirectGauges s !! height.
Definition pruneBTCStakingGauge s (height : N) : IncState :=
  with_btcGauges s (delete height (btcStakingGauges s)).
Definition pruneFPDirectGauge s (height : N) : IncState :=
  with_fpGauges s (delete height (fpDirectGauges s)).

(** [feeCollectorName] of the keeper. *)
Context (feeCollectorName : string).

Definition accumulateRewards s (b : Bank) (height : N) (btcStakingReward fpDirectRewards : Coins)
  : res IncErr (IncState * Bank) :=
  let s := SetBTCStakingGauge s height (NewGauge btcStakingReward) in
  let s := if IsAllPositive fpDirectRewards
           then SetFPDirectGauge s height (NewGauge fpDirectRewards) else s in
  totalRwds ← or_panic (CoinsAdd btcStakingReward fpDirectRewards);
  if IsAllPositive totalRwds then
    match SendCoinsFromModuleToModule b feeCollectorName ModuleName totalRwds with
    | Ok b => mret (s, b)
    | _ => Panic
    end
  else mret (s, b).

Definition HandleCoinsInFeeCollector s (b : Bank) (height : N) : res IncErr (IncState * Bank) :=
  let params := GetParams s in
  feeCollector ← or_panic (GetModuleAccount feeCollectorName);
  let feesCollectedInt := GetAllBalances b feeCollector in
  if negb (IsAllPositive feesCollectedInt) then mret (s, b)
  else
    fpsDirectRwds ← match FpPortion params with
                    | None => mret []
                    | Some p => or_panic (GetCoinsPortion feesCollectedInt p)
                    end;
    btcStakingPortion ← or_panic (BtcStakingPortion params);
    btcStakingReward ← or_panic (GetCoinsPortion feesCollectedInt btcStakingPortion);
    accumulateRewards s b height btcStakingReward fpsDirectRwds.

(** [BeginBlocker] of [abci.go]. *)
Definition BeginBlocker s (b : Bank) (height : Z) : res IncErr (IncState * Bank) :=
  if (0 <? height)%Z then HandleCoinsInFeeCollector s b (u64_of_Z height) else mret (s, b).

(** The providers that share the rewards: active, and among the voters. *)
Definition rewarded (dc : VotingPowerDistCache) (voters : gset bytes) : list FinalityProviderDistInfo :=
  filter (λ i, di_BtcPk i ∈ voters) (take (N.to_nat (NumActiveFps dc)) (FinalityProviders dc)).

Definition reward_fp (gauge fpDirectGauge : Gauge) (total : N) s (fp : FinalityProviderDistInfo)
  : res IncErr IncState :=
  fpPortion ← or_panic (QuoTruncate (LegacyNewDec (int64 (Z.of_N (TotalBondedSat fp))))
                                    (LegacyNewDec (int64 (Z.of_N total))));
  coinsForFpsAndDels ← or_panic (Gauge_GetCoinsPortion gauge fpPortion);
  commission ← or_panic (di_Commission fp);
  coinsForCommission ← or_panic (GetCoinsPortion coinsForFpsAndDels commission);
  coinsForFpDirect ← or_panic (Gauge_GetCoinsPortion fpDirectGauge fpPortion);
  totalCoinsForFp ← or_panic (CoinsAdd coinsForCommission coinsForFpDirect);
  s ← accumulateRewardGauge s FINALITY_PROVIDER (di_Addr fp) totalCoinsForFp;
  coinsForBTCDels ← or_panic (CoinsSub coinsForFpsAndDels coinsForCommission);
  must (AddFinalityProviderRewardsForBtcDelegations s (di_Addr fp) coinsForBTCDels).

Definition RewardBTCStaking s (height : N) (dc : VotingPowerDistCache) (voters : gset bytes)
  : res IncErr IncState :=
  let gauge := default (NewGauge []) (GetBTCStakingGauge s height) in
  let fpDirectGauge := default (NewGauge []) (GetFPDirectGauge s height) in
  let total := foldl (λ t i, u64_add t (TotalBondedSat i)) 0%N (rewarded dc voters) in
  s ← must (ProcessRewardTrackerEvents s height);
  s ← fold_res (reward_fp gauge fpDirectGauge total) s (rewarded dc voters);
  mret (pruneFPDirectGauge (pruneBTCStakingGauge s height) height).

(** *** Hooks of the withdrawal: [types/hooks.go]

    A hook works on the state of this module, the bank, and a state of its
    own; when it fails, the error comes with the state it leaves. *)
Context {HookEnv : Type}.

Definition World : Type := IncState * Bank * HookEnv.
Definition Hook : Type := World → StakeholderType → list N → res (IncErr * World) World.

(** [MultiIncentiveHooks] *)
Fixpoint MultiBeforeRewardWithdraw (h : list Hook) (w : World) (t : StakeholderType) addr
  : res (IncErr * World) World :=
  match h with
  | [] => Ok w
  | hk :: h => w ← hk w t addr; MultiBeforeRewardWithdraw h w t addr
  end.

(** *** Messages: [keeper/msg_server.go] *)

Context (BeforeRewardWithdraw : Hook) (authority : string).

Record MsgUpdateParams := mkMsgUpdateParams { up_Authority : string; up_Params : Params }.
Record MsgWithdrawReward := mkMsgWithdrawReward { wr_Type : string; wr_Address : string }.
Record MsgSetWithdrawAddress := mkMsgSetWithdrawAddress {
  sw_DelegatorAddress : string; sw_WithdrawAddress : string }.

Definition UpdateParams s (req : MsgUpdateParams) : res IncErr IncState :=
  require (bool_decide (authority = up_Authority req)) ErrInvalidSigner;;
  require (Params_Validate (up_Params req)) ErrInvalidProposalMsg;;
  SetParams s (up_Params req).

(** The withdrawal of one gauge: an error is logged, and nothing is withdrawn. *)
Definition try_withdraw (w : World) (t : StakeholderType) addr : res IncErr (option Coins * World) :=
  let '(s, b, e) := w in
  match withdrawReward s b t addr with
  | Ok (coins, s, b) => Ok (Some coins, (s, b, e))
  | Err _ => Ok (None, w)
  | Panic => Panic
  end.

Definition WithdrawReward (w : World) (req : MsgWithdrawReward) : res IncErr (Coins * World) :=
  sType ← map_err (λ _, ErrInvalidArgument) (NewStakeHolderTypeFromString (wr_Type req));
  addr ← of_option ErrInvalidArgument (AccAddressFromBech32 (wr_Address req));
  let '(s, b, e) := w in
  s ← map_err (λ _, ErrInternal) (sendAllBtcDelegationTypeToRewardsGauge s sType addr);
  w ← map_err (λ _, ErrInternal) (BeforeRewardWithdraw (s, b, e) sType addr);
  '(withdrawn, w) ← try_withdraw w sType addr;
  let withdrawnCoins := default [] withdrawn in
  '(withdrawnCoins, w) ←
    (if decide (sType = BTC_STAKER) then
       w ← match BeforeRewardWithdraw w COSTAKER addr with
           | Ok w => Ok w
           | Err (_, w) => Ok w
           | Panic => Panic
           end;
       '(costaker, w) ← try_withdraw w COSTAKER addr;
       match costaker with
       | None => mret (withdrawnCoins, w)
       | Some c => t ← or_panic (CoinsAdd withdrawnCoins c); mret (t, w)
       end
     else mret (withdrawnCoins, w));
  if IsZero withdrawnCoins then Err ErrNoWithdrawableCoins else mret (withdrawnCoins, w).

Definition SetWithdrawAddress s (msg : MsgSetWithdrawAddress) : res IncErr IncState :=
  delegatorAddress ← of_option ErrInvalidArgument (AccAddressFromBech32 (sw_DelegatorAddress msg));
  withdrawAddress ← of_option ErrInvalidArgument (AccAddressFromBech32 (sw_WithdrawAddress msg));
  require (negb (BlockedAddr withdrawAddress)) ErrBlockedAddr;;
  mret (SetWithdrawAddr s delegatorAddress withdrawAddress).

(** *** Queries: [keeper/grpc_query.go], [keeper/query_delegator.go]; the state they
    change is not kept *)

Definition BTCStakingGauge s (height : N) : res IncErr Gauge :=
  of_option ErrBTCStakingGaugeNotFound (GetBTCStakingGauge s height).

Definition DelegationRewards s (fpAddress delAddress : string) : res IncErr Coins :=
  fpAddr ← of_option ErrInvalidArgument (AccAddressFromBech32 fpAddress);
  delAddr ← of_option ErrInvalidArgument (AccAddressFromBech32 delAddress);
  '(endPeriod, s) ← IncrementFinalityProviderPeriod s fpAddr;
  CalculateBTCDelegationRewards s fpAddr delAddr endPeriod.

Definition FpCurrentRewards s (fpAddress : string) : res IncErr FinalityProviderCurrentRewards :=
  fpAddr ← of_option ErrInvalidArgument (AccAddressFromBech32 fpAddress);
  GetFinalityProviderCurrentRewards s fpAddr.

Definition DelegatorWithdrawAddress s (delAddress : string) : res IncErr string :=
  delAddr ← of_option ErrInvalidArgument (AccAddressFromBech32 delAddress);
  mret (AddrString (GetWithdrawAddr s delAddr)).

(** *** Refunds: [keeper/refundable_msg_index.go], [keeper/refund_tx_decorator.go] *)

(** The types of messages that [isRefundTx] lists, and the others. *)
Inductive MsgKind :=
  | MsgInsertHeaders | MsgInsertBTCSpvProof | MsgAddCovenantSigs | MsgBTCUndelegate
  | MsgSelectiveSlashingEvidence | MsgAddBTCDelegationInclusionProof | MsgAddFinalitySig
  | OtherMsg.

(** A message: its type and its protobuf encoding. *)
Record Msg := mkMsg { msg_kind : MsgKind; msg_bytes : bytes }.

Record FeeTx := mkFeeTx { tx_Fee : Coins; tx_FeeGranter : option (list N); tx_FeePayer : list N }.
(** [None] is a transaction that is not an [sdk.FeeTx]. *)
Record Tx := mkTx { tx_Msgs : list Msg; tx_FeeTx : option FeeTx }.

(** [tmhash.Sum] *)
Context (tmhash_Sum : bytes → bytes).

Definition HashMsg (msg : Msg) : bytes := tmhash_Sum (msg_bytes msg).

Definition IndexRefundableMsg s (msg : Msg) : IncState :=
  with_refundable s ({[HashMsg msg]} ∪ RefundableMsgKeySet s).
Definition HasRefundableMsg s (msgHash : bytes) : bool :=
  bool_decide (msgHash ∈ RefundableMsgKeySet s).
Definition RemoveRefundableMsg s (msgHash : bytes) : IncState :=
  with_refundable s (RefundableMsgKeySet s ∖ {[msgHash]}).

Definition getRecipient (tx : FeeTx) : list N := default (tx_FeePayer tx) (tx_FeeGranter tx).

Definition RefundTx (b : Bank) (tx : FeeTx) : res IncErr Bank :=
  if IsZero (tx_Fee tx) then mret b
  else map_err ErrBankKeeper
         (SendCoinsFromModuleToAccount b feeCollectorName (getRecipient tx) (tx_Fee tx)).

Definition CheckTxAndClearIndex s (tx : Tx) : bool * IncState :=
  let refundableMsgHashSet : gset bytes :=
    foldl (λ hs msg, if HasRefundableMsg s (HashMsg msg) then {[HashMsg msg]} ∪ hs else hs)
      ∅ (tx_Msgs tx) in
  let refundable := (size refundableMsgHashSet =? length (tx_Msgs tx))%nat in
  (refundable, foldl RemoveRefundableMsg s (elements refundableMsgHashSet)).

Definition isRefundTx (tx : Tx) : bool :=
  negb (length (tx_Msgs tx) =? 0)%nat &&
  forallb (λ msg, match msg_kind msg with OtherMsg => false | _ => true end) (tx_Msgs tx).

(** [AnteHandle], up to the call of the next handler. *)
Definition AnteHandle (tx : Tx) : res IncErr unit :=
  if negb (isRefundTx tx) then mret tt
  else match tx_FeeTx tx with
       | None => Err ErrTxDecode
       | Some feeTx =>
           match tx_FeeGranter feeTx with
           | Some g => require (bool_decide (g = tx_FeePayer feeTx)) ErrFeeGrant
           | None => mret tt
           end
       end.

(** [PostHandle], up to the call of the next handler; [finalize] says that the
    execution mode is the one of finalising a block. *)
Definition PostHandle s (b : Bank) (finalize simulate success : bool) (tx : Tx)
  : res IncErr (IncState * Bank) :=
  if negb finalize && negb simulate then mret (s, b)
  else if negb success then mret (s, b)
  else match tx_FeeTx tx with
       | None => mret (s, b)
       | Some feeTx =>
           let '(refundable, s) := CheckTxAndClearIndex s tx in
           if (refundable : bool) then
             match RefundTx b feeTx with
             | Ok b => mret (s, b)
             | Err _ => mret (s, b)
             | Panic => Panic
             end
           else mret (s, b)
       end.
End keeper.
End Incentive.
