(* ===== verification/IncentiveSpec.v ===== *)
(** Correctness of the reward tracker of x/incentive.

    A pool is a finality provider: its rewards of the current period, its
    cumulative rewards per satoshi at the end of every past period, and the
    delegations to it.  [pools_ok] is what holds of the pools at all times: the
    stake of a pool is the sum of its delegations, every past period is recorded
    and the cumulative rewards only grow.  [debt] is what the module owes in one
    denomination, in units of [1 / DecimalRewards]: the gauges, and what every
    pool can still pay.  No operation on the pools increases it. *)
From stdpp Require Import base numbers list sorting gmap strings.
From S2P Require Import Prelude KVStore Bytes BtcStaking Finality FinalityPower SdkCoins ZSum Incentive.

Module IncentiveSpec.
Import BtcStaking Finality FinalityPower Incentive.
Local Open Scope Z_scope.

Section pools.
Context {SC : SdkCoins} {SCL : SdkCoinsLaws}.
Implicit Types (s : IncState) (fp del addr : list N) (d : string) (p : N).

(** ** Pools *)

Definition cum (hist : gmap (list N * N) FinalityProviderHistoricalRewards) fp p d : Z :=
  from_option (λ h, amount_of (CumulativeRewardsPerSat h) d) 0 (hist !! (fp, p)).

(** The cumulative rewards at the end of the last period. *)
Definition last_cum s fp d : Z :=
  from_option (λ c, cum (finalityProviderHistoricalRewards s) fp (Period c - 1) d) 0
    (finalityProviderCurrentRewards s !! fp).

(** The stake of the delegations to a provider. *)
Definition stake_of (trk : gmap (list N * list N) BTCDelegationRewardsTracker) fp : Z :=
  zsum (λ k t, if decide (k.1 = fp) then bt_TotalActiveSat t else 0) trk.

Record pools_ok s : Prop := {
  po_current fp c : finalityProviderCurrentRewards s !! fp = Some c →
    coins_pos (CurrentRewards c) ∧ (1 ≤ Period c < 2 ^ 64)%N ∧
    cr_TotalActiveSat c = stake_of (btcDelegationRewardsTracker s) fp;
  po_recorded fp c p : finalityProviderCurrentRewards s !! fp = Some c → (p < Period c)%N →
    ∃ h, finalityProviderHistoricalRewards s !! (fp, p) = Some h ∧
         coins_pos (CumulativeRewardsPerSat h);
  po_monotone fp c p d : finalityProviderCurrentRewards s !! fp = Some c → (p < Period c)%N →
    cum (finalityProviderHistoricalRewards s) fp p d ≤ last_cum s fp d;
  po_tracker fp del t : btcDelegationRewardsTracker s !! (fp, del) = Some t →
    0 ≤ bt_TotalActiveSat t ∧
    ∃ c, finalityProviderCurrentRewards s !! fp = Some c ∧
         (StartPeriodCumulativeReward t < Period c)%N;
  po_first fp c : finalityProviderCurrentRewards s !! fp = Some c →
    finalityProviderHistoricalRewards s !! (fp, 0%N) = Some (mkHistorical []);
}.

(** No provider is in a later period than [n]. *)
Definition periods_le (n : N) s : Prop :=
  ∀ fp c, finalityProviderCurrentRewards s !! fp = Some c → (Period c ≤ n)%N.

(** Reward gauges never pay more than they hold. *)
Definition gauge_ok (rg : RewardGauge) : Prop :=
  coins_pos (rg_Coins rg) ∧ coins_pos (WithdrawnCoins rg) ∧
  ∀ d, amount_of (WithdrawnCoins rg) d ≤ amount_of (rg_Coins rg) d.
Definition gauges_ok s : Prop := map_Forall (λ _, gauge_ok) (rewardGauges s).

(** ** Debts *)

Definition gauge_debt s d : Z :=
  zsum (λ _ rg, amount_of (rg_Coins rg) d - amount_of (WithdrawnCoins rg) d) (rewardGauges s).

Definition current_debt s d : Z :=
  zsum (λ _ c, amount_of (CurrentRewards c) d) (finalityProviderCurrentRewards s).

(** What one delegation can still be paid, before it is rounded. *)
Definition claim s d (k : list N * list N) (t : BTCDelegationRewardsTracker) : Z :=
  bt_TotalActiveSat t *
  (last_cum s k.1 d - cum (finalityProviderHistoricalRewards s) k.1 (StartPeriodCumulativeReward t) d).

Definition claims s d (trk : gmap (list N * list N) BTCDelegationRewardsTracker) : Z :=
  zsum (claim s d) trk.

(** What the gauges and the pools owe, scaled by [DecimalRewards]. *)
Definition debt s d : Z :=
  (gauge_debt s d + current_debt s d) * DecimalRewards + claims s d (btcDelegationRewardsTracker s).

(** ** Facts about pools *)

Lemma cum_nonneg s fp c p d : pools_ok s → finalityProviderCurrentRewards s !! fp = Some c →
  (p < Period c)%N → 0 ≤ cum (finalityProviderHistoricalRewards s) fp p d.
Proof.
  intros Hok Hc Hp. destruct (po_recorded _ Hok fp c p Hc Hp) as (h & Hh & Hpos).
  unfold cum. rewrite Hh. cbn. by apply coins_amount_nonneg, coins_pos_nonneg.
Qed.

Lemma last_cum_eq s fp c d : finalityProviderCurrentRewards s !! fp = Some c →
  last_cum s fp d = cum (finalityProviderHistoricalRewards s) fp (Period c - 1) d.
Proof. intros Hc. unfold last_cum. by rewrite Hc. Qed.

Lemma claim_nonneg s d k t : pools_ok s → btcDelegationRewardsTracker s !! k = Some t →
  0 ≤ claim s d k t.
Proof.
  intros Hok Hk. destruct k as [fp del].
  destruct (po_tracker _ Hok _ _ _ Hk) as (Hs & c & Hc & Hp).
  pose proof (po_monotone _ Hok fp c _ d Hc Hp). unfold claim. cbn [fst]. nia.
Qed.

(** A pool that does not exist has no delegations. *)
Lemma no_pool_no_tracker s fp del : pools_ok s → finalityProviderCurrentRewards s !! fp = None →
  btcDelegationRewardsTracker s !! (fp, del) = None.
Proof.
  intros Hok Hn. destruct (btcDelegationRewardsTracker s !! (fp, del)) eqn:Ht; [|done].
  apply (po_tracker _ Hok) in Ht as (_ & c & Hc & _). congruence.
Qed.

Lemma no_pool_no_stake s fp : pools_ok s → finalityProviderCurrentRewards s !! fp = None →
  stake_of (btcDelegationRewardsTracker s) fp = 0.
Proof.
  intros Hok Hn. apply zsum_zero. intros [fp' del] t Ht. cbn [fst]. case_decide; [|done].
  subst fp'. by rewrite no_pool_no_tracker in Ht.
Qed.

Lemma stake_of_insert trk fp del t fp' :
  stake_of (<[(fp, del) := t]> trk) fp' =
  stake_of trk fp' +
  (if decide (fp = fp')
   then bt_TotalActiveSat t - from_option bt_TotalActiveSat 0 (trk !! (fp, del)) else 0).
Proof.
  unfold stake_of. rewrite zsum_insert, (zsum_delete _ trk (fp, del)). cbn [fst].
  destruct (trk !! (fp, del)); cbn [from_option fst]; case_decide; lia.
Qed.

Lemma stake_nonneg s fp : pools_ok s → 0 ≤ stake_of (btcDelegationRewardsTracker s) fp.
Proof.
  intros Hok. apply zsum_nonneg. intros [fp' del] t Ht.
  apply (po_tracker _ Hok) in Ht as [? _]. case_decide; lia.
Qed.

(** The stake of a delegation is part of the stake of its pool. *)
Lemma stake_member s fp del t : pools_ok s → btcDelegationRewardsTracker s !! (fp, del) = Some t →
  bt_TotalActiveSat t ≤ stake_of (btcDelegationRewardsTracker s) fp.
Proof.
  intros Hok Ht. unfold stake_of.
  pose proof (zsum_member (λ k t, if decide (k.1 = fp) then bt_TotalActiveSat t else 0)
    (btcDelegationRewardsTracker s) (fp, del) t) as Hm. cbn [fst] in Hm.
  rewrite decide_True in Hm by done. apply Hm; [|done].
  intros [fp' del'] t' Ht'. apply (po_tracker _ Hok) in Ht' as [? _]. case_decide; lia.
Qed.

(** ** Opening a period *)

(** What the reward tracker leaves alone. *)
Definition same_outside s s' : Prop :=
  inc_params s' = inc_params s ∧ btcStakingGauges s' = btcStakingGauges s ∧
  fpDirectGauges s' = fpDirectGauges s ∧ withdrawAddrs s' = withdrawAddrs s ∧
  RefundableMsgKeySet s' = RefundableMsgKeySet s ∧
  rewardTrackerEvents s' = rewardTrackerEvents s ∧
  rewardTrackerEventsLastProcessedHeight s' = rewardTrackerEventsLastProcessedHeight s.

#[global] Instance same_outside_refl : Reflexive same_outside.
Proof. intros s. repeat split. Qed.
#[global] Instance same_outside_trans : Transitive same_outside.
Proof. intros s1 s2 s3 (?&?&?&?&?&?&?) (?&?&?&?&?&?&?). repeat split; congruence. Qed.

Lemma rewards_per_sat_spec c q : coins_pos (CurrentRewards c) → 0 ≤ cr_TotalActiveSat c →
  rewards_per_sat c = Some q →
  coins_nonneg q ∧
  ∀ d, amount_of q d =
    if decide (cr_TotalActiveSat c = 0) then 0
    else amount_of (CurrentRewards c) d * DecimalRewards / cr_TotalActiveSat c.
Proof.
  intros Hc Hs. unfold rewards_per_sat. destruct (Z.eqb_spec (cr_TotalActiveSat c) 0) as [H0|H0].
  - intros [= <-]. split; [apply coins_nonneg_nil|]. intros d. by rewrite decide_True.
  - intros (w & Hw & Hq)%bind_Some.
    apply mul_amount in Hw as [Hw Hwd]; [|by apply coins_pos_nonneg|by vm_compute].
    apply quo_amount in Hq as (_ & Hq & Hqd); [|done..]. split; [done|].
    intros d. rewrite decide_False, Hqd, Hwd by done. done.
Qed.

(** What a period per satoshi costs the pool is covered by its rewards. *)
Lemma rewards_per_sat_le c q d : coins_pos (CurrentRewards c) → 0 ≤ cr_TotalActiveSat c →
  rewards_per_sat c = Some q →
  0 ≤ amount_of q d ∧
  cr_TotalActiveSat c * amount_of q d ≤ amount_of (CurrentRewards c) d * DecimalRewards.
Proof.
  intros Hc Hs Hq. apply rewards_per_sat_spec in Hq as [Hnn Hq]; [|done..].
  pose proof (coins_amount_nonneg q d Hnn). split; [done|].
  pose proof (coins_amount_nonneg _ d (coins_pos_nonneg _ Hc)). rewrite Hq. case_decide.
  - assert (0 ≤ DecimalRewards) by (by vm_compute). nia.
  - apply Z.mul_div_le. lia.
Qed.

(** The period that ended, and the pool after it. *)
Record opened (s : IncState) fp (ended : N) (s' : IncState) : Prop := {
  op_ok : pools_ok s';
  op_outside : same_outside s s';
  op_trackers : btcDelegationRewardsTracker s' = btcDelegationRewardsTracker s;
  op_index : btcDelegatorToFp s' = btcDelegatorToFp s;
  op_gauges : rewardGauges s' = rewardGauges s;
  op_debt d : debt s' d ≤ debt s d;
  op_current : ∃ c, finalityProviderCurrentRewards s' !! fp = Some c ∧ CurrentRewards c = [] ∧
    (finalityProviderCurrentRewards s !! fp = None ∧ ended = 1%N ∧ Period c = 1%N ∨
     ∃ c0, finalityProviderCurrentRewards s !! fp = Some c0 ∧ ended = Period c0 ∧
           Period c = (Period c0 + 1)%N);
  op_others fp' : fp' ≠ fp →
    finalityProviderCurrentRewards s' !! fp' = finalityProviderCurrentRewards s !! fp';
}.

Lemma initialize_opened s fp : pools_ok s → finalityProviderCurrentRewards s !! fp = None →
  opened s fp 1 (initializeFinalityProvider s fp).2.
Proof.
  intros Hok Hn. unfold initializeFinalityProvider, SetFinalityProviderCurrentRewards,
    setFinalityProviderHistoricalRewards, with_current, with_historical. cbn [snd].
  assert (∀ fp' p d, fp' ≠ fp →
    cum (<[(fp, 0%N) := NewFinalityProviderHistoricalRewards []]> (finalityProviderHistoricalRewards s))
      fp' p d = cum (finalityProviderHistoricalRewards s) fp' p d) as Hcum.
  { intros fp' p d Hne. unfold cum. by rewrite lookup_insert_ne by congruence. }
  assert (∀ del t, btcDelegationRewardsTracker s !! (fp, del) = Some t → False) as Hnt.
  { intros del t Ht. by rewrite (no_pool_no_tracker s fp del Hok Hn) in Ht. }
  split; cbn.
  - split; cbn.
    + intros fp' c [[<- <-]|[Hne Hc]]%lookup_insert_Some; cbn.
      * split; [apply coins_pos_nil|]. split; [lia|]. symmetry. by apply no_pool_no_stake.
      * by apply (po_current _ Hok).
    + intros fp' c p [[<- <-]|[Hne Hc]]%lookup_insert_Some Hp; cbn in *.
      * assert (p = 0%N) as -> by lia. rewrite lookup_insert_eq. eexists; split; [done|].
        apply coins_pos_nil.
      * rewrite lookup_insert_ne by congruence. by apply (po_recorded _ Hok fp' c).
    + intros fp' c p d [[<- <-]|[Hne Hc]]%lookup_insert_Some Hp; cbn in *.
      * assert (p = 0%N) as -> by lia. unfold last_cum. cbn. by rewrite lookup_insert_eq.
      * unfold last_cum. cbn. rewrite lookup_insert_ne, Hc by done. cbn. rewrite !Hcum by done.
        rewrite <-(last_cum_eq s) by done. by apply (po_monotone _ Hok fp' c).
    + intros fp' del t Ht. destruct (decide (fp' = fp)) as [->|Hne]; [by apply Hnt in Ht|].
      rewrite lookup_insert_ne by done. by apply (po_tracker _ Hok fp' del).
    + intros fp' c [[<- <-]|[Hne Hc]]%lookup_insert_Some; [by rewrite lookup_insert_eq|].
      rewrite lookup_insert_ne by congruence. by eapply (po_first _ Hok).
  - repeat split.
  - done.
  - done.
  - done.
  - intros d. unfold debt, gauge_debt, current_debt, claims. cbn.
    rewrite zsum_insert_new by done. cbn. apply Z.eq_le_incl. f_equal.
    apply zsum_ext. intros [fp' del] t Ht. destruct (decide (fp' = fp)) as [->|Hne]; [by apply Hnt in Ht|].
    unfold claim, last_cum. cbn. rewrite lookup_insert_ne by done. rewrite Hcum by done.
    destruct (finalityProviderCurrentRewards s !! fp'); cbn; [|done]. by rewrite Hcum.
  - eexists. rewrite lookup_insert_eq. split; [done|]. split; [done|]. by left.
  - intros fp' Hne. by rewrite lookup_insert_ne.
Qed.

Lemma u64_pred p : (1 ≤ p < 2 ^ 64)%N → u64_sub p 1 = (p - 1)%N.
Proof. intros Hp. apply u64_sub_small; lia. Qed.

(** The state after a period of an existing pool: [h] is the new entry. *)
Definition after_period s fp (c : FinalityProviderCurrentRewards)
    (h : FinalityProviderHistoricalRewards) : IncState :=
  SetFinalityProviderCurrentRewards
    (setFinalityProviderHistoricalRewards s fp (Period c) h) fp
    (NewFinalityProviderCurrentRewards [] (Period c + 1) (cr_TotalActiveSat c)).

Lemma current_after_period s fp c h :
  finalityProviderCurrentRewards (after_period s fp c h) =
  <[fp := NewFinalityProviderCurrentRewards [] (Period c + 1) (cr_TotalActiveSat c)]>
    (finalityProviderCurrentRewards s).
Proof. done. Qed.

Lemma cum_after_period s fp c h fp' p d :
  cum (finalityProviderHistoricalRewards (after_period s fp c h)) fp' p d =
  if decide (fp' = fp ∧ p = Period c) then amount_of (CumulativeRewardsPerSat h) d
  else cum (finalityProviderHistoricalRewards s) fp' p d.
Proof.
  unfold cum, after_period. cbn. case_decide as Hd.
  - destruct Hd as [-> ->]. by rewrite lookup_insert_eq.
  - rewrite lookup_insert_ne; [done|]. intros [= ? ?]. apply Hd. split; congruence.
Qed.

Lemma last_cum_after_period s fp c h fp' d :
  last_cum (after_period s fp c h) fp' d =
  if decide (fp' = fp) then amount_of (CumulativeRewardsPerSat h) d else last_cum s fp' d.
Proof.
  unfold last_cum. rewrite current_after_period. case_decide as Hd.
  - subst fp'. rewrite lookup_insert_eq. cbn [from_option]. rewrite cum_after_period.
    rewrite decide_True; [done|]. split; [done|]. cbn. lia.
  - rewrite lookup_insert_ne by done. destruct (finalityProviderCurrentRewards s !! fp'); [|done].
    cbn [from_option]. rewrite cum_after_period, decide_False; [done|]. by intros [-> _].
Qed.

Lemma after_period_ok s fp c h : pools_ok s → finalityProviderCurrentRewards s !! fp = Some c →
  (Period c + 1 < 2 ^ 64)%N → coins_pos (CumulativeRewardsPerSat h) →
  (∀ d, last_cum s fp d ≤ amount_of (CumulativeRewardsPerSat h) d) →
  pools_ok (after_period s fp c h).
Proof.
  intros Hok Hc Hp Hh Hle. destruct (po_current _ Hok fp c Hc) as (_ & Hp1 & Hst).
  split.
  - cbn. intros fp' c' [[<- <-]|[Hne Hc']]%lookup_insert_Some; cbn.
    + split; [apply coins_pos_nil|]. split; [lia|]. done.
    + by apply (po_current _ Hok).
  - cbn. intros fp' c' p [[<- <-]|[Hne Hc']]%lookup_insert_Some Hlt; cbn in *.
    + destruct (decide (p = Period c)) as [->|Hpc].
      * rewrite lookup_insert_eq. by eexists.
      * rewrite lookup_insert_ne by congruence. apply (po_recorded _ Hok fp c); [done|lia].
    + rewrite lookup_insert_ne by congruence. by apply (po_recorded _ Hok fp' c').
  - intros fp' c' p d Hc' Hlt. rewrite cum_after_period, last_cum_after_period.
    rewrite current_after_period in Hc'. apply lookup_insert_Some in Hc' as [[<- <-]|[Hne Hc']]; cbn in Hlt.
    + rewrite (decide_True (P := fp = fp)) by done. case_decide as Hd; [done|].
      etrans; [|apply Hle]. apply (po_monotone _ Hok fp c); [done|].
      assert (p ≠ Period c) by (intros ->; by apply Hd). lia.
    + rewrite !decide_False by naive_solver. by apply (po_monotone _ Hok fp' c').
  - cbn. intros fp' del t Ht. destruct (po_tracker _ Hok fp' del t Ht) as (Hs & c' & Hc' & Hlt).
    split; [done|]. destruct (decide (fp' = fp)) as [->|Hne].
    + rewrite lookup_insert_eq. eexists; split; [done|]. cbn. simplify_eq. lia.
    + rewrite lookup_insert_ne by done. by eexists.
  - cbn. intros fp' c' [[<- <-]|[Hne Hc']]%lookup_insert_Some.
    + rewrite lookup_insert_ne; [by eapply (po_first _ Hok)|]. intros [= Hpc]. lia.
    + rewrite lookup_insert_ne by congruence. by eapply (po_first _ Hok).
Qed.

(** The claims of a pool grow by its stake times the growth of the total. *)
Lemma claims_after_period s fp c h d : pools_ok s → finalityProviderCurrentRewards s !! fp = Some c →
  claims (after_period s fp c h) d (btcDelegationRewardsTracker s) =
  claims s d (btcDelegationRewardsTracker s) +
  stake_of (btcDelegationRewardsTracker s) fp * (amount_of (CumulativeRewardsPerSat h) d - last_cum s fp d).
Proof.
  intros Hok Hc. unfold claims, stake_of. rewrite <-zsum_mul_r, <-zsum_add.
  apply zsum_ext. intros [fp' del] t Ht. unfold claim. cbn [fst].
  destruct (po_tracker _ Hok fp' del t Ht) as (_ & c' & Hc' & Hlt).
  rewrite cum_after_period, last_cum_after_period. destruct (decide (fp' = fp)) as [->|Hne].
  - rewrite decide_False; [lia|]. intros [_ Hp]. simplify_eq. lia.
  - rewrite decide_False; [lia|]. by intros [-> _].
Qed.

Lemma period_opened s fp c h q : pools_ok s → finalityProviderCurrentRewards s !! fp = Some c →
  (Period c + 1 < 2 ^ 64)%N → coins_pos (CumulativeRewardsPerSat h) →
  rewards_per_sat c = Some q →
  (∀ d, amount_of (CumulativeRewardsPerSat h) d = last_cum s fp d + amount_of q d) →
  opened s fp (Period c) (after_period s fp c h).
Proof.
  intros Hok Hc Hp Hh Hq Hsum. destruct (po_current _ Hok fp c Hc) as (Hpos & Hp1 & Hst).
  assert (0 ≤ cr_TotalActiveSat c) as Hnn by (rewrite Hst; by apply stake_nonneg).
  split.
  - apply after_period_ok; try done. intros d. rewrite Hsum.
    destruct (rewards_per_sat_le c q d Hpos Hnn Hq). lia.
  - repeat split.
  - done.
  - done.
  - done.
  - intros d. destruct (rewards_per_sat_le c q d Hpos Hnn Hq) as [Hq0 Hle].
    unfold debt. change (btcDelegationRewardsTracker (after_period s fp c h)) with
      (btcDelegationRewardsTracker s). rewrite claims_after_period, Hsum by done.
    unfold gauge_debt, current_debt. cbn -[Z.mul Z.add DecimalRewards]. rewrite zsum_insert.
    rewrite (zsum_delete _ (finalityProviderCurrentRewards s) fp), Hc.
    cbn [from_option CurrentRewards NewFinalityProviderCurrentRewards]. rewrite amount_of_nil, <-Hst. lia.
  - cbn. rewrite lookup_insert_eq. eexists; split; [done|]. split; [done|]. right.
    exists c. done.
  - intros fp' Hne. cbn. by rewrite lookup_insert_ne.
Qed.

(** Closing a period keeps the pools and never increases what they owe. *)
Lemma increment_opened s fp ended s' : pools_ok s →
  (∀ c, finalityProviderCurrentRewards s !! fp = Some c → (Period c + 1 < 2 ^ 64)%N) →
  IncrementFinalityProviderPeriod s fp = Ok (ended, s') → opened s fp ended s'.
Proof.
  intros Hok Hsmall. unfold IncrementFinalityProviderPeriod.
  destruct (finalityProviderCurrentRewards s !! fp) as [c|] eqn:Hc.
  2: { intros [= <- <-]. by apply initialize_opened. }
  specialize (Hsmall c eq_refl). destruct (po_current _ Hok fp c Hc) as (Hpos & Hp1 & Hst).
  assert (0 ≤ cr_TotalActiveSat c) as Hnn by (rewrite Hst; by apply stake_nonneg).
  rewrite u64_pred by done. unfold GetFinalityProviderHistoricalRewards. intros Hi.
  apply bind_Ok in Hi as (q & Hq & Hi). apply inc_or_panic_Ok in Hq.
  apply bind_Ok in Hi as (h0 & Hh0 & Hi). apply of_option_Ok in Hh0.
  apply bind_Ok in Hi as (n & Hn & Hi). apply inc_or_panic_Ok in Hn. cbv zeta in Hi.
  rewrite u64_add_small in Hi by done. injection Hi as <- <-.
  destruct (po_recorded _ Hok fp c (Period c - 1) Hc ltac:(lia)) as (h & Hh & Hhpos).
  assert (h0 = h) as -> by congruence.
  destruct (rewards_per_sat_spec c q Hpos Hnn Hq) as [Hqn _].
  apply add_spec in Hn as [Hnpos Hsum]; [|by apply coins_pos_nonneg|done].
  eapply (period_opened s fp c (NewFinalityProviderHistoricalRewards n) q); try done.
  intros d. cbn [CumulativeRewardsPerSat NewFinalityProviderHistoricalRewards].
  rewrite Hsum, (last_cum_eq s fp c) by done. unfold cum. by rewrite Hh.
Qed.

(** ** Paying a delegation *)

(** Only the reward gauges change, and by at most [r]. *)
Definition paid s s' (r : string → Z) : Prop :=
  ∃ g, s' = with_gauges s g ∧ gauges_ok s' ∧ ∀ d, gauge_debt s' d = gauge_debt s d + r d.

Lemma paid_nothing s : gauges_ok s → paid s s (λ _, 0).
Proof.
  intros Hg. exists (rewardGauges s). split; [by destruct s|]. split; [done|]. intros d. lia.
Qed.

Lemma accumulate_paid s t addr r s' : gauges_ok s → coins_nonneg r →
  accumulateRewardGauge s t addr r = Ok s' →
  paid s s' (λ d, if IsAllPositive r then amount_of r d else 0).
Proof.
  intros Hg Hr. unfold accumulateRewardGauge. destruct (IsAllPositive r) eqn:Hp; cbn [negb].
  2: { intros [= <-]. by apply paid_nothing. }
  intros (rg & Hrg & [= <-])%bind_Ok. apply inc_or_panic_Ok in Hrg.
  unfold RewardGauge_Add in Hrg. apply bind_Some in Hrg as (c & Hc & [= <-]).
  set (rg0 := default (NewRewardGauge []) (GetRewardGauge s t addr)) in *.
  assert (gauge_ok rg0) as (Hc0 & Hw0 & Hle).
  { unfold rg0, GetRewardGauge. destruct (rewardGauges s !! (t, addr)) as [rg|] eqn:Hl; [by eapply Hg|].
    repeat split; cbn; (apply coins_pos_nil || apply denoms_ok_nil || constructor || done). }
  apply add_spec in Hc as [Hcpos Hsum]; [|by apply coins_pos_nonneg|done].
  eexists. split; [done|]. split.
  - intros k rg Hl. cbn [rewardGauges SetRewardGauge with_gauges] in Hl.
    apply lookup_insert_Some in Hl as [[<- <-]|[_ Hl]]; [|by eapply Hg].
    split; [done|]. split; [done|]. intros d. cbn [rg_Coins WithdrawnCoins]. rewrite Hsum.
    specialize (Hle d). pose proof (coins_amount_nonneg r d Hr). lia.
  - intros d. unfold gauge_debt. cbn [rewardGauges SetRewardGauge with_gauges].
    rewrite zsum_insert, (zsum_delete _ (rewardGauges s) (t, addr)). cbn [rg_Coins WithdrawnCoins].
    rewrite Hsum. unfold rg0, GetRewardGauge.
    destruct (rewardGauges s !! (t, addr)); cbn [from_option id rg_Coins WithdrawnCoins NewRewardGauge];
      rewrite ?amount_of_nil; lia.
Qed.

(** A delegation is paid its claim, rounded down. *)
Lemma calculate_spec s fp del t c r : pools_ok s →
  btcDelegationRewardsTracker s !! (fp, del) = Some t →
  finalityProviderCurrentRewards s !! fp = Some c →
  CalculateBTCDelegationRewards s fp del (Period c - 1) = Ok r →
  coins_nonneg r ∧ ∀ d, amount_of r d = claim s d (fp, del) t / DecimalRewards.
Proof.
  intros Hok Ht Hc. destruct (po_tracker _ Hok fp del t Ht) as (Hsat & c' & Hc' & Hlt).
  assert (c' = c) as -> by congruence.
  unfold CalculateBTCDelegationRewards, GetBTCDelegationRewardsTracker. rewrite Ht.
  cbn [of_option mbind res_bind]. destruct (Z.eqb_spec (bt_TotalActiveSat t) 0) as [H0|H0].
  - intros [= <-]. split; [apply coins_nonneg_nil|]. intros d. unfold claim. rewrite H0, Z.mul_0_l. done.
  - unfold calculateDelegationRewardsBetween, GetFinalityProviderHistoricalRewards. intros Hr.
    destruct (po_recorded _ Hok fp c (StartPeriodCumulativeReward t) Hc Hlt) as (h0 & Hh0 & Hp0).
    destruct (po_recorded _ Hok fp c (Period c - 1) Hc) as (h1 & Hh1 & Hp1).
    { apply (po_current _ Hok) in Hc as (_ & ? & _). lia. }
    rewrite Hh0, Hh1 in Hr. apply bind_Ok in Hr as (_ & _ & Hr). cbn [of_option mbind res_bind] in Hr.
    apply bind_Ok in Hr as (df & Hdf & Hr). apply inc_or_panic_Ok in Hdf.
    apply bind_Ok in Hr as (_ & _ & Hr). apply bind_Ok in Hr as (w & Hw & Hr).
    apply inc_or_panic_Ok in Hw, Hr.
    apply sub_spec in Hdf as [Hdfp Hdfd]; [|by apply coins_pos_nonneg..].
    apply mul_amount in Hw as [Hwn Hwd]; [|by apply coins_pos_nonneg|lia].
    apply quo_amount in Hr as (_ & Hrn & Hrd); [|done|by vm_compute].
    split; [done|]. intros d. rewrite Hrd, Hwd, Hdfd. unfold claim. cbn [fst].
    rewrite (last_cum_eq s fp c) by done. unfold cum. rewrite Hh0, Hh1. cbn [from_option].
    f_equal. lia.
Qed.

(** What [CalculateBTCDelegationRewardsAndSendToGauge] pays in all. *)
Definition claim_of s fp del d : Z :=
  from_option (claim s d (fp, del)) 0 (btcDelegationRewardsTracker s !! (fp, del)).

Lemma send_to_gauge_paid s fp del c ended s' : pools_ok s → gauges_ok s →
  finalityProviderCurrentRewards s !! fp = Some c →
  ended = (Period c - 1)%N ∨ btcDelegationRewardsTracker s !! (fp, del) = None →
  CalculateBTCDelegationRewardsAndSendToGauge s fp del ended = Ok s' →
  ∃ r, paid s s' r ∧ ∀ d, 0 ≤ r d ∧ r d * DecimalRewards ≤ claim_of s fp del d.
Proof.
  intros Hok Hg Hc Hend. unfold CalculateBTCDelegationRewardsAndSendToGauge, claim_of.
  destruct (btcDelegationRewardsTracker s !! (fp, del)) as [t|] eqn:Ht.
  - destruct Hend as [->|]; [|done]. intros (r & Hr & Hs)%bind_Ok.
    assert (CalculateBTCDelegationRewards s fp del (Period c - 1) = Ok r ∨ r = []) as Hr'.
    { destruct (CalculateBTCDelegationRewards _ _ _ _) as [r'|e|]; [by left| |done].
      case_decide; [|done]. injection Hr as <-. by right. }
    assert (coins_nonneg r ∧ ∀ d, 0 ≤ amount_of r d ∧
              amount_of r d * DecimalRewards ≤ claim s d (fp, del) t) as [Hnn Hle].
    { destruct Hr' as [Hr'| ->].
      - eapply calculate_spec in Hr' as [Hnn Hrd]; [|done..]. split; [done|]. intros d.
        split; [by apply coins_amount_nonneg|]. rewrite Hrd, Z.mul_comm.
        apply Z.mul_div_le. by vm_compute.
      - split; [apply coins_nonneg_nil|]. intros d. rewrite amount_of_nil.
        pose proof (claim_nonneg s d (fp, del) t Hok Ht). lia. }
    destruct (IsZero r) eqn:Hz.
    + injection Hs as <-. exists (λ _, 0). split; [by apply paid_nothing|]. intros d.
      pose proof (claim_nonneg s d (fp, del) t Hok Ht). cbn [from_option]. lia.
    + apply accumulate_paid in Hs; [|done..]. eexists; split; [done|]. intros d. cbn [from_option].
      pose proof (claim_nonneg s d (fp, del) t Hok Ht). specialize (Hle d). destruct (IsAllPositive r); lia.
  - unfold CalculateBTCDelegationRewards, GetBTCDelegationRewardsTracker. rewrite Ht.
    cbn [of_option mbind res_bind]. rewrite decide_True by done. cbn [mbind res_bind mret res_ret].
    rewrite (proj2 (IsZero_iff [] coins_nonneg_nil)) by done. intros [= <-].
    exists (λ _, 0). split; [by apply paid_nothing|]. intros d. cbn. lia.
Qed.

(** ** Changing the stake of a delegation *)

(** A delegation of [sat] to [fp] that starts at the end of the last period; [c] is the
    pool before. *)
Definition restaked s fp del (c : FinalityProviderCurrentRewards) (sat : Z) : IncState :=
  with_trackers
    (with_current s
      (<[fp := mkCurrent (CurrentRewards c) (Period c) (cr_TotalActiveSat c +
           (sat - from_option bt_TotalActiveSat 0 (btcDelegationRewardsTracker s !! (fp, del))))]>
        (finalityProviderCurrentRewards s)))
    (<[(fp, del) := mkTracker (Period c - 1) sat]> (btcDelegationRewardsTracker s))
    ({[del ++ fp]} ∪ btcDelegatorToFp s).

Lemma last_cum_restaked s fp del c sat fp' d : finalityProviderCurrentRewards s !! fp = Some c →
  last_cum (restaked s fp del c sat) fp' d = last_cum s fp' d.
Proof.
  intros Hc. unfold last_cum, restaked.
  cbn [finalityProviderCurrentRewards finalityProviderHistoricalRewards with_trackers with_current].
  destruct (decide (fp = fp')) as [<-|Hne].
  - rewrite lookup_insert_eq, Hc. done.
  - by rewrite lookup_insert_ne.
Qed.

Lemma restaked_ok s fp del c sat : pools_ok s → finalityProviderCurrentRewards s !! fp = Some c →
  0 ≤ sat → pools_ok (restaked s fp del c sat).
Proof.
  intros Hok Hc Hsat. destruct (po_current _ Hok fp c Hc) as (Hpos & Hp & Hst).
  split.
  - intros fp' c' Hc'. unfold restaked in *. cbn [finalityProviderCurrentRewards with_trackers
      with_current btcDelegationRewardsTracker] in *. rewrite stake_of_insert. cbn [bt_TotalActiveSat].
    apply lookup_insert_Some in Hc' as [[<- <-]|[Hne Hc']].
    + rewrite decide_True by done. cbn. rewrite Hst. done.
    + rewrite decide_False by done. rewrite Z.add_0_r. by apply (po_current _ Hok).
  - intros fp' c' p Hc' Hlt. unfold restaked in Hc'. cbn [finalityProviderCurrentRewards with_trackers
      with_current] in Hc'. apply lookup_insert_Some in Hc' as [[<- <-]|[Hne Hc']].
    + by apply (po_recorded _ Hok fp c).
    + by apply (po_recorded _ Hok fp' c').
  - intros fp' c' p d Hc' Hlt. rewrite last_cum_restaked by done. unfold restaked in Hc'.
    cbn [finalityProviderCurrentRewards with_trackers with_current] in Hc'.
    apply lookup_insert_Some in Hc' as [[<- <-]|[Hne Hc']].
    + by apply (po_monotone _ Hok fp c).
    + by apply (po_monotone _ Hok fp' c').
  - intros fp' del' t Ht. unfold restaked in *. cbn [finalityProviderCurrentRewards with_trackers
      with_current btcDelegationRewardsTracker] in *.
    apply lookup_insert_Some in Ht as [[[= <- <-] <-]|[Hne Ht]].
    + cbn. split; [done|]. rewrite lookup_insert_eq. eexists; split; [done|]. cbn. lia.
    + destruct (po_tracker _ Hok fp' del' t Ht) as (Hs & c' & Hc' & Hlt). split; [done|].
      destruct (decide (fp = fp')) as [<-|Hnf].
      * rewrite lookup_insert_eq. eexists; split; [done|]. simplify_eq. done.
      * rewrite lookup_insert_ne by done. by eexists.
  - intros fp' c' Hc'. unfold restaked in *. cbn [finalityProviderCurrentRewards finalityProviderHistoricalRewards
      with_trackers with_current] in *.
    apply lookup_insert_Some in Hc' as [[<- <-]|[Hne Hc']]; by eapply (po_first _ Hok).
Qed.

(** The claim of the delegation is dropped: it has been paid. *)
Lemma debt_restaked s fp del c sat d : pools_ok s → finalityProviderCurrentRewards s !! fp = Some c →
  debt (restaked s fp del c sat) d = debt s d - claim_of s fp del d.
Proof.
  intros Hok Hc. unfold debt, gauge_debt, current_debt, claims, claim_of.
  change (rewardGauges (restaked s fp del c sat)) with (rewardGauges s).
  change (btcDelegationRewardsTracker (restaked s fp del c sat)) with
    (<[(fp, del) := mkTracker (Period c - 1) sat]> (btcDelegationRewardsTracker s)).
  assert (zsum (λ _ c, amount_of (CurrentRewards c) d)
            (finalityProviderCurrentRewards (restaked s fp del c sat)) =
          zsum (λ _ c, amount_of (CurrentRewards c) d) (finalityProviderCurrentRewards s)) as ->.
  { unfold restaked. cbn [finalityProviderCurrentRewards with_trackers with_current].
    rewrite zsum_insert, (zsum_delete _ (finalityProviderCurrentRewards s) fp), Hc. done. }
  rewrite zsum_insert, (zsum_delete (claim s d) (btcDelegationRewardsTracker s) (fp, del)).
  assert (claim (restaked s fp del c sat) d (fp, del) (mkTracker (Period c - 1) sat) = 0) as ->.
  { unfold claim. cbn [fst bt_TotalActiveSat StartPeriodCumulativeReward].
    rewrite last_cum_restaked, (last_cum_eq s fp c) by done.
    change (finalityProviderHistoricalRewards (restaked s fp del c sat)) with
      (finalityProviderHistoricalRewards s). lia. }
  rewrite (zsum_ext (claim (restaked s fp del c sat) d) (claim s d)); [lia|].
  intros k t _. unfold claim. rewrite last_cum_restaked by done. done.
Qed.

(** The three ways to change a stake before the delegation is started again. *)
Lemma init_restaked s fp del c : finalityProviderCurrentRewards s !! fp = Some c →
  (1 ≤ Period c < 2 ^ 64)%N →
  ∀ s', initializeBTCDelegation s fp del = Ok s' →
  ∃ t, btcDelegationRewardsTracker s !! (fp, del) = Some t ∧
       s' = restaked s fp del c (bt_TotalActiveSat t).
Proof.
  intros Hc Hp s'. unfold initializeBTCDelegation, GetFinalityProviderCurrentRewards,
    GetBTCDelegationRewardsTracker. rewrite Hc. cbn [of_option mbind res_bind].
  rewrite u64_pred by done. intros (t & Ht & [= <-])%bind_Ok. apply of_option_Ok in Ht.
  exists t. split; [done|]. unfold restaked, setBTCDelegationRewardsTracker, setBTCDelegatorToFP,
    with_trackers, with_current, NewBTCDelegationRewardsTracker. cbn.
  rewrite Ht. cbn. f_equal. rewrite Z.sub_diag, Z.add_0_r. symmetry.
  destruct c. by apply insert_id.
Qed.

Lemma add_restaked s fp del c sat s' : finalityProviderCurrentRewards s !! fp = Some c →
  (1 ≤ Period c < 2 ^ 64)%N →
  initializeBTCDelegation (addDelegationSat s fp del sat) fp del = Ok s' →
  s' = restaked s fp del c
         (from_option bt_TotalActiveSat 0 (btcDelegationRewardsTracker s !! (fp, del)) + sat).
Proof.
  intros Hc Hp Hi.
  assert (addDelegationSat s fp del sat =
    SetFinalityProviderCurrentRewards
      (setBTCDelegationRewardsTracker s fp del (bt_AddTotalActiveSat
        (default (NewBTCDelegationRewardsTracker 0 0) (btcDelegationRewardsTracker s !! (fp, del))) sat))
      fp (cr_AddTotalActiveSat c sat)) as Heq.
  { unfold addDelegationSat, addFinalityProviderStaked. cbn. by rewrite Hc. }
  rewrite Heq in Hi.
  apply (init_restaked _ fp del (cr_AddTotalActiveSat c sat)) in Hi as (t & Ht & ->); [|by apply lookup_insert_eq|done].
  cbn in Ht. rewrite lookup_insert_eq in Ht. injection Ht as <-.
  unfold restaked, with_trackers, with_current. cbn.
  rewrite !insert_insert_eq, lookup_insert_eq. cbn.
  destruct (btcDelegationRewardsTracker s !! (fp, del)); cbn; f_equal;
    try (f_equal; f_equal; lia); unfold setBTCDelegatorToFP; set_solver.
Qed.

Lemma sub_restaked s fp del c sat s1 s' : finalityProviderCurrentRewards s !! fp = Some c →
  (1 ≤ Period c < 2 ^ 64)%N →
  subDelegationSat s fp del sat = Ok s1 → initializeBTCDelegation s1 fp del = Ok s' →
  ∃ t, btcDelegationRewardsTracker s !! (fp, del) = Some t ∧
       0 ≤ bt_TotalActiveSat t - sat ∧ s' = restaked s fp del c (bt_TotalActiveSat t - sat).
Proof.
  intros Hc Hp Hs Hi. unfold subDelegationSat, GetBTCDelegationRewardsTracker in Hs.
  apply bind_Ok in Hs as (t & Ht & Hs). apply of_option_Ok in Ht. cbv zeta in Hs.
  apply require_bind_Ok in Hs as [Hn Hs]. apply negb_true_iff, Z.ltb_ge in Hn.
  unfold subFinalityProviderStaked, GetFinalityProviderCurrentRewards in Hs.
  cbn [finalityProviderCurrentRewards setBTCDelegationRewardsTracker with_trackers] in Hs.
  rewrite Hc in Hs. cbn [of_option mbind res_bind] in Hs. apply require_bind_Ok in Hs as [_ Hs].
  injection Hs as <-. exists t. split; [done|]. split; [done|].
  apply (init_restaked _ fp del (cr_SubTotalActiveSat c sat)) in Hi as (t' & Ht' & ->);
    [|by apply lookup_insert_eq|done].
  cbn in Ht'. rewrite lookup_insert_eq in Ht'. injection Ht' as <-.
  unfold restaked, with_trackers, with_current. cbn.
  rewrite !insert_insert_eq, lookup_insert_eq, Ht. cbn. f_equal;
    [f_equal; f_equal; lia|unfold setBTCDelegatorToFP; set_solver].
Qed.

(** What an operation on the pools guarantees: at most [k] periods are opened, and
    nothing more is owed. *)
Record pools_step (k : N) s s' : Prop := {
  ps_pools : pools_ok s';
  ps_gauges : gauges_ok s';
  ps_outside : same_outside s s';
  ps_periods n : periods_le n s → periods_le (n + k) s';
  ps_debt d : debt s' d ≤ debt s d;
}.

Lemma pools_step_refl s : pools_ok s → gauges_ok s → pools_step 0 s s.
Proof.
  intros Hok Hg. split; try done. intros n Hn fp c Hc. specialize (Hn fp c Hc). lia.
Qed.

Lemma pools_step_trans j k s1 s2 s3 :
  pools_step j s1 s2 → pools_step k s2 s3 → pools_step (j + k) s1 s3.
Proof.
  intros [? ? ? Hn1 Hd1] [? ? ? Hn2 Hd2]. split; try done.
  - by etrans.
  - intros n Hn. rewrite N.add_assoc. by apply Hn2, Hn1.
  - intros d. by etrans; [apply Hd2|].
Qed.

Lemma pools_step_weaken j k s s' : (j ≤ k)%N → pools_step j s s' → pools_step k s s'.
Proof.
  intros Hjk [? ? ? Hn ?]. split; try done. intros n Hn' fp c Hc.
  specialize (Hn n Hn' fp c Hc). lia.
Qed.

Lemma periods_opened s fp ended s' n :
  opened s fp ended s' → periods_le n s → periods_le (n + 1) s'.
Proof.
  intros Ho Hn fp' c' Hc'. destruct (decide (fp' = fp)) as [->|Hne].
  - destruct (op_current _ _ _ _ Ho) as (c & Hc & _ & [(_ & _ & Hp)|(c0 & Hc0 & _ & Hp)]).
    + simplify_eq. lia.
    + simplify_eq. specialize (Hn fp c0 Hc0). lia.
  - rewrite (op_others _ _ _ _ Ho) in Hc' by done. specialize (Hn fp' c' Hc'). lia.
Qed.

Lemma paid_pools s s' r : paid s s' r → pools_ok s → pools_ok s'.
Proof. intros (g & -> & _) [H1 H2 H3 H4 H5]. by split. Qed.

Lemma paid_debt s s' r d : paid s s' r → debt s' d = debt s d + r d * DecimalRewards.
Proof.
  intros (g & -> & _ & Hg). unfold debt. rewrite Hg.
  change (current_debt (with_gauges s g) d) with (current_debt s d).
  change (claims (with_gauges s g) d (btcDelegationRewardsTracker (with_gauges s g)))
    with (claims s d (btcDelegationRewardsTracker s)). lia.
Qed.

Lemma restaked_step s fp del c sat : pools_ok s → gauges_ok s → 0 ≤ sat →
  finalityProviderCurrentRewards s !! fp = Some c →
  same_outside s (restaked s fp del c sat) ∧ gauges_ok (restaked s fp del c sat) ∧
  ∀ n, periods_le n s → periods_le n (restaked s fp del c sat).
Proof.
  intros Hok Hg Hs Hc. split; [repeat split|]. split; [done|].
  intros n Hn fp' c' Hc'. unfold restaked in Hc'.
  cbn [finalityProviderCurrentRewards with_trackers with_current] in Hc'.
  apply lookup_insert_Some in Hc' as [[<- <-]|[_ Hc']]; [by apply (Hn fp c)|by apply (Hn fp' c')].
Qed.

(** A change of stake pays the delegation first, so that nothing more is owed. *)
Lemma modified_step s fp del s1 ended s2 s' n :
  pools_ok s → gauges_ok s → periods_le n s → (n + 1 < 2 ^ 64)%N →
  IncrementFinalityProviderPeriod s fp = Ok (ended, s1) →
  CalculateBTCDelegationRewardsAndSendToGauge s1 fp del ended = Ok s2 →
  (∀ c, pools_ok s2 → finalityProviderCurrentRewards s2 !! fp = Some c →
     (1 ≤ Period c < 2 ^ 64)%N → ∃ sat, 0 ≤ sat ∧ s' = restaked s2 fp del c sat) →
  pools_step 1 s s'.
Proof.
  intros Hok Hg Hn Hsmall Hinc Hpay Hs'.
  apply increment_opened in Hinc as Ho; [|done|].
  2: { intros c Hc. specialize (Hn fp c Hc). lia. }
  destruct (op_current _ _ _ _ Ho) as (c & Hc & _ & Hended).
  pose proof (op_ok _ _ _ _ Ho) as Hok1.
  assert (gauges_ok s1) as Hg1 by (unfold gauges_ok; by rewrite (op_gauges _ _ _ _ Ho)).
  eapply send_to_gauge_paid in Hpay as (r & Hpaid & Hr); [|done..|].
  2: { destruct Hended as [(Hnone & -> & Hp)|(c0 & Hc0 & -> & Hp)].
       - right. rewrite (op_trackers _ _ _ _ Ho). by apply no_pool_no_tracker.
       - left. lia. }
  pose proof (paid_pools _ _ _ Hpaid Hok1) as Hok2.
  assert (gauges_ok s2) as Hg2 by (by destruct Hpaid as (? & _ & ? & _)).
  assert (finalityProviderCurrentRewards s2 !! fp = Some c) as Hc2
    by (by destruct Hpaid as (? & -> & _)).
  destruct (po_current _ Hok2 fp c Hc2) as (_ & Hp & _).
  destruct (Hs' c Hok2 Hc2 Hp) as (sat & Hsat & ->).
  destruct (restaked_step s2 fp del c sat Hok2 Hg2 Hsat Hc2) as (Hout & Hg' & Hper).
  split; [by apply restaked_ok|done| | |].
  - etrans; [apply (op_outside _ _ _ _ Ho)|]. etrans; [|done].
    destruct Hpaid as (g & -> & _). repeat split.
  - intros m Hm. apply Hper. pose proof (periods_opened _ _ _ _ m Ho Hm) as Hm1.
    by destruct Hpaid as (g & -> & _).
  - intros d. rewrite debt_restaked by done. rewrite (paid_debt _ _ _ _ Hpaid).
    pose proof (op_debt _ _ _ _ Ho d). specialize (Hr d).
    assert (claim_of s2 fp del d = claim_of s1 fp del d) as ->; [|lia].
    by destruct Hpaid as (g & -> & _).
Qed.

Lemma tracker_sat_nonneg s fp del : pools_ok s →
  0 ≤ from_option bt_TotalActiveSat 0 (btcDelegationRewardsTracker s !! (fp, del)).
Proof.
  intros Hok. destruct (btcDelegationRewardsTracker s !! (fp, del)) as [t|] eqn:Ht; [|done].
  by apply (po_tracker _ Hok) in Ht as [? _].
Qed.

Section modified.
Context (n : N) (Hsmall : (n + 1 < 2 ^ 64)%N).

Lemma activated_step s fp del sat s' :
  pools_ok s → gauges_ok s → periods_le n s → 0 ≤ sat →
  BtcDelegationActivated s fp del sat = Ok s' → pools_step 1 s s'.
Proof.
  intros Hok Hg Hn Hsat. unfold BtcDelegationActivated, btcDelegationModifiedWithPreInitDel.
  intros ([ended s1] & Hinc & H)%bind_Ok. apply bind_Ok in H as (s2 & Hpay & H).
  cbn [mbind res_bind mret res_ret] in H.
  eapply (modified_step s fp del s1 ended s2 s' n); try done.
  intros c Hok2 Hc Hp. eexists. split; [|by eapply add_restaked].
  pose proof (tracker_sat_nonneg s2 fp del Hok2). lia.
Qed.

Lemma unbonded_step s fp del sat s' :
  pools_ok s → gauges_ok s → periods_le n s →
  BtcDelegationUnbonded s fp del sat = Ok s' → pools_step 1 s s'.
Proof.
  intros Hok Hg Hn. unfold BtcDelegationUnbonded, btcDelegationModifiedWithPreInitDel.
  intros ([ended s1] & Hinc & H)%bind_Ok. apply bind_Ok in H as (s2 & Hpay & H).
  apply bind_Ok in H as (s3 & Hsub & H).
  eapply (modified_step s fp del s1 ended s2 s' n); try done.
  intros c Hok2 Hc Hp. destruct (sub_restaked s2 fp del c sat s3 s' Hc Hp Hsub H) as (t & _ & ? & ?).
  by eexists.
Qed.

Lemma touched_step s fp del s' :
  pools_ok s → gauges_ok s → periods_le n s →
  btcDelegationModified s fp del = Ok s' → pools_step 1 s s'.
Proof.
  intros Hok Hg Hn. unfold btcDelegationModified, btcDelegationModifiedWithPreInitDel.
  intros ([ended s1] & Hinc & H)%bind_Ok. apply bind_Ok in H as (s2 & Hpay & H).
  cbn [mbind res_bind mret res_ret] in H.
  eapply (modified_step s fp del s1 ended s2 s' n); try done.
  intros c Hok2 Hc Hp. destruct (init_restaked s2 fp del c Hc Hp s' H) as (t & Ht & ->).
  eexists. split; [|done]. by apply (po_tracker _ Hok2) in Ht as [? _].
Qed.
End modified.

(** ** Loops *)

(** A loop of operations that open at most one period each. *)
Lemma fold_pools_step {A} (f : IncState → A → res IncErr IncState) (l : list A) (P : A → Prop) s s' n :
  (∀ m s x s', (m + 1 < 2 ^ 64)%N → P x → pools_ok s → gauges_ok s → periods_le m s →
     f s x = Ok s' → pools_step 1 s s') →
  Forall P l → pools_ok s → gauges_ok s → periods_le n s → (n + N.of_nat (length l) < 2 ^ 64)%N →
  fold_res f s l = Ok s' → pools_step (N.of_nat (length l)) s s'.
Proof.
  intros Hf HP. revert s n. induction HP as [|x l Hx _ IH]; intros s n Hok Hg Hn Hsmall H.
  - injection H as <-. by apply pools_step_refl.
  - cbn [fold_res] in H. apply bind_Ok in H as (s1 & H1 & H2).
    rewrite length_cons in *. assert (pools_step 1 s s1) as H1' by (eapply (Hf n); [lia|done..]).
    assert (pools_step (N.of_nat (length l)) s1 s') as H2'.
    { apply (IH s1 (n + 1)%N); [by apply H1'..|lia|done]. }
    replace (N.of_nat (S (length l))) with (1 + N.of_nat (length l))%N by lia.
    by eapply pools_step_trans.
Qed.

Lemma send_all_step s del s' n :
  pools_ok s → gauges_ok s → periods_le n s →
  (n + N.of_nat (length (fps_of_delegator (btcDelegatorToFp s) del)) < 2 ^ 64)%N →
  sendAllBtcRewardsToGauge s del = Ok s' →
  pools_step (N.of_nat (length (fps_of_delegator (btcDelegatorToFp s) del))) s s'.
Proof.
  intros Hok Hg Hn Hsmall H. unfold sendAllBtcRewardsToGauge, iterBtcDelegationsByDelegator in H.
  eapply (fold_pools_step _ _ (λ _, True)); [|by apply Forall_true|done..].
  intros m s0 fp s1 Hm _ Hok0 Hg0 Hn0 H1.
  by apply (touched_step m Hm s0 fp del s1).
Qed.

(** ** Rewards that are lost *)

Lemma claim_of_restaked s fp del c sat d : finalityProviderCurrentRewards s !! fp = Some c →
  claim_of (restaked s fp del c sat) fp del d = 0.
Proof.
  intros Hc. unfold claim_of.
  change (btcDelegationRewardsTracker (restaked s fp del c sat)) with
    (<[(fp, del) := mkTracker (Period c - 1) sat]> (btcDelegationRewardsTracker s)).
  rewrite lookup_insert_eq. cbn [from_option]. unfold claim.
  cbn [fst bt_TotalActiveSat StartPeriodCumulativeReward].
  rewrite last_cum_restaked, (last_cum_eq s fp c) by done.
  change (finalityProviderHistoricalRewards (restaked s fp del c sat)) with
    (finalityProviderHistoricalRewards s). lia.
Qed.

Lemma zero_coin_not_paid s fp del ended r c : CalculateBTCDelegationRewards s fp del ended = Ok r →
  c ∈ r → coin_Amount c = 0 → CalculateBTCDelegationRewardsAndSendToGauge s fp del ended = Ok s.
Proof.
  intros Hr Hc H0. unfold CalculateBTCDelegationRewardsAndSendToGauge. rewrite Hr.
  cbn [mbind res_bind]. destruct (IsZero r); [done|]. unfold accumulateRewardGauge.
  assert (IsAllPositive r = false) as ->; [|done].
  rewrite IsAllPositive_spec. apply andb_false_iff. right. apply not_true_iff_false.
  rewrite forallb_forall. intros Hall. apply list_elem_of_In in Hc. specialize (Hall c Hc). lia.
Qed.

(** A delegation whose share of one denomination is rounded to zero is paid nothing
    of any denomination, and its claims are forfeited: the reward gauges stay
    the same, while the delegation starts again at the end of the period. *)
Theorem zero_share_forfeits s fp del ended s1 r c s' :
  pools_ok s → (∀ c, finalityProviderCurrentRewards s !! fp = Some c → (Period c + 1 < 2 ^ 64)%N) →
  IncrementFinalityProviderPeriod s fp = Ok (ended, s1) →
  CalculateBTCDelegationRewards s1 fp del ended = Ok r → c ∈ r → coin_Amount c = 0 →
  btcDelegationModified s fp del = Ok s' →
  rewardGauges s' = rewardGauges s ∧ ∀ d, claim_of s' fp del d = 0.
Proof.
  intros Hok Hsmall Hinc Hr Hc H0. unfold btcDelegationModified, btcDelegationModifiedWithPreInitDel.
  rewrite Hinc. cbn [mbind res_bind]. rewrite (zero_coin_not_paid _ _ _ _ _ _ Hr Hc H0).
  cbn [mbind res_bind mret res_ret]. intros H.
  apply increment_opened in Hinc as Ho; [|done..].
  destruct (op_current _ _ _ _ Ho) as (c1 & Hc1 & _).
  destruct (po_current _ (op_ok _ _ _ _ Ho) fp c1 Hc1) as (_ & Hp & _).
  destruct (init_restaked s1 fp del c1 Hc1 Hp s' H) as (t & _ & ->). split.
  - by rewrite <-(op_gauges _ _ _ _ Ho).
  - intros d. by apply claim_of_restaked.
Qed.
End pools.
End IncentiveSpec.
