(* ===== verification/IncentiveRefund.v ===== *)
(** Refunds ([Incentive.PostHandle]): the fee of a transaction is paid back exactly when it
    succeeded and its messages are pairwise different and all indexed as useful, and never
    twice for the same messages. *)
From stdpp Require Import base numbers list gmap strings.
From S2P Require Import Prelude Bytes SdkCoins Incentive.

Module IncentiveRefund.
Import Incentive.

Section lists.
Context {A : Type} `{Countable A}.
Implicit Types (l : list A).

Lemma size_list_to_set_le l : size (list_to_set l : gset A) ≤ length l.
Proof.
  induction l as [|x l IH]; [by rewrite list_to_set_nil, size_empty|].
  rewrite list_to_set_cons, length_cons, size_union_alt, size_singleton.
  assert (size ((list_to_set l : gset A) ∖ {[x]}) ≤ size (list_to_set l : gset A)); [|lia].
  apply subseteq_size, subseteq_difference_l. done.
Qed.

(** A list is as long as its set exactly when it has no duplicates. *)
Lemma size_list_to_set_eq l : size (list_to_set l : gset A) = length l ↔ NoDup l.
Proof.
  split; [|apply size_list_to_set]. induction l as [|x l IH]; [constructor|].
  rewrite list_to_set_cons, length_cons. intros Hs.
  pose proof (size_list_to_set_le l) as Hle. destruct (decide (x ∈ l)) as [Hx|Hx].
  - assert ({[x]} ∪ list_to_set l = (list_to_set l : gset A)) as Hu.
    { apply subseteq_union_1_L, singleton_subseteq_l. by apply elem_of_list_to_set. }
    rewrite Hu in Hs. lia.
  - constructor; [done|]. apply IH. rewrite size_union, size_singleton in Hs; [lia|].
    apply disjoint_singleton_l. by rewrite elem_of_list_to_set.
Qed.
End lists.

Section refund.
Context (tmhash_Sum : bytes → bytes).
Implicit Types (s : IncState) (tx : Tx).

Definition msg_hashes tx : list bytes := HashMsg tmhash_Sum <$> tx_Msgs tx.

Lemma refundable_set s (msgs : list Msg) (acc : gset bytes) :
  foldl (λ hs msg, if HasRefundableMsg s (HashMsg tmhash_Sum msg)
                   then {[HashMsg tmhash_Sum msg]} ∪ hs else hs) acc msgs =
  list_to_set (filter (λ h, h ∈ RefundableMsgKeySet s) (HashMsg tmhash_Sum <$> msgs)) ∪ acc.
Proof.
  revert acc. induction msgs as [|m msgs IH]; intros acc; [set_solver|].
  cbn [foldl]. rewrite IH, fmap_cons, filter_cons. unfold HasRefundableMsg.
  destruct (decide (HashMsg tmhash_Sum m ∈ RefundableMsgKeySet s)) as [Hin|Hin].
  - rewrite bool_decide_eq_true_2 by done. cbn [list_to_set]. set_solver.
  - rewrite bool_decide_eq_false_2 by done. done.
Qed.

Lemma remove_all_refundable s (l : list bytes) :
  RefundableMsgKeySet (foldl RemoveRefundableMsg s l) = RefundableMsgKeySet s ∖ list_to_set l.
Proof.
  revert s. induction l as [|h l IH]; intros s; [set_solver|].
  cbn [foldl]. rewrite IH. cbn. set_solver.
Qed.

Lemma filter_all_eq {A} (P : A → Prop) `{∀ x, Decision (P x)} (l : list A) :
  Forall P l → filter P l = l.
Proof. induction 1 as [|x l Hx _ IH]; [done|]. rewrite filter_cons, decide_True by done. by f_equal. Qed.

Lemma filter_all_length {A} (P : A → Prop) `{∀ x, Decision (P x)} (l : list A) :
  length (filter P l) = length l → Forall P l.
Proof.
  induction l as [|x l IH]; [constructor|]. rewrite filter_cons.
  pose proof (length_filter P l) as Hle. case_decide; cbn; intros Hl; [|lia].
  constructor; [done|]. apply IH. lia.
Qed.

(** All messages are different and indexed as refundable. *)
Definition all_refundable s tx : Prop :=
  NoDup (msg_hashes tx) ∧ Forall (λ h, h ∈ RefundableMsgKeySet s) (msg_hashes tx).

Lemma check_refundable s tx : (CheckTxAndClearIndex tmhash_Sum s tx).1 = true ↔ all_refundable s tx.
Proof.
  unfold CheckTxAndClearIndex, all_refundable. cbn [fst]. rewrite refundable_set.
  fold (msg_hashes tx). rewrite union_empty_r_L, Nat.eqb_eq.
  set (l := filter _ (msg_hashes tx)).
  assert (length (tx_Msgs tx) = length (msg_hashes tx)) as Hlen
    by (unfold msg_hashes; by rewrite length_fmap).
  pose proof (size_list_to_set_le l) as H1.
  pose proof (length_filter (λ h, h ∈ RefundableMsgKeySet s) (msg_hashes tx)) as H2. fold l in H2.
  rewrite Hlen. split.
  - intros Hs. assert (Forall (λ h, h ∈ RefundableMsgKeySet s) (msg_hashes tx)) as Hall.
    { apply (filter_all_length (λ h, h ∈ RefundableMsgKeySet s)). fold l. lia. }
    split; [|done]. unfold l in Hs. rewrite filter_all_eq in Hs by done. by apply size_list_to_set_eq.
  - intros [Hnd Hall]. unfold l. rewrite filter_all_eq by done. by apply size_list_to_set.
Qed.

Lemma check_clears s tx :
  RefundableMsgKeySet (CheckTxAndClearIndex tmhash_Sum s tx).2 =
    RefundableMsgKeySet s ∖ list_to_set (msg_hashes tx).
Proof.
  unfold CheckTxAndClearIndex. cbn [snd]. rewrite remove_all_refundable, refundable_set.
  fold (msg_hashes tx). apply set_eq. intros h.
  rewrite !elem_of_difference, !elem_of_list_to_set, elem_of_elements, elem_of_union,
    elem_of_list_to_set, list_elem_of_filter. set_solver.
Qed.

(** *** The decorator *)

Context {SC : SdkCoins} {SCL : SdkCoinsLaws} {BK : BankKeeper} {BL : BankLaws}.
Context (feeCollectorName : string) (fee_addr : list N).
Context (Hfee : GetModuleAccount feeCollectorName = Some fee_addr).

Abbreviation PostHandle := (PostHandle feeCollectorName tmhash_Sum).

(** The decorator looks at a transaction that succeeded, in a block or a simulation. *)
Definition looked_at (finalize simulate success : bool) : bool := (finalize || simulate) && success.

Lemma PostHandle_skip s b finalize simulate success tx :
  looked_at finalize simulate success = false ∨ tx_FeeTx tx = None →
  PostHandle s b finalize simulate success tx = Ok (s, b).
Proof.
  unfold looked_at, Incentive.PostHandle. intros [Hl| ->]; destruct finalize, simulate, success; try done.
Qed.

Lemma PostHandle_look s b finalize simulate success tx feeTx :
  looked_at finalize simulate success = true → tx_FeeTx tx = Some feeTx →
  PostHandle s b finalize simulate success tx =
    let s' := (CheckTxAndClearIndex tmhash_Sum s tx).2 in
    if (CheckTxAndClearIndex tmhash_Sum s tx).1
    then match RefundTx feeCollectorName b feeTx with
         | Ok b' => Ok (s', b') | Err _ => Ok (s', b) | Panic => Panic
         end
    else Ok (s', b).
Proof.
  unfold looked_at, Incentive.PostHandle. intros Hl ->.
  destruct (CheckTxAndClearIndex tmhash_Sum s tx) as [r s'] eqn:Hc.
  destruct finalize, simulate, success; try done; cbn; by destruct r; destruct (RefundTx _ _ _).
Qed.

Lemma RefundTx_pays b feeTx :
  coins_pos (tx_Fee feeTx) → BlockedAddr (getRecipient feeTx) = false →
  (∀ d, amount_of (tx_Fee feeTx) d ≤ balance b fee_addr d)%Z →
  ∃ b', RefundTx feeCollectorName b feeTx = Ok b' ∧
    moved b b' fee_addr (getRecipient feeTx) (tx_Fee feeTx).
Proof.
  intros Hpos Hbl Hbal. unfold RefundTx. destruct (IsZero (tx_Fee feeTx)) eqn:Hz.
  - exists b. split; [done|]. intros a d.
    rewrite (proj1 (IsZero_iff _ (coins_pos_nonneg _ Hpos)) Hz d). by destruct (decide _), (decide _); lia.
  - destruct (m2a_total b feeCollectorName fee_addr (getRecipient feeTx) (tx_Fee feeTx)) as [b' Hb']; [done..|].
    rewrite Hb'. exists b'. split; [done|]. by apply (m2a_spec _ _ _ _ _ _ Hfee) in Hb' as (_ & _ & ?).
Qed.

(** A transaction with a message that is not indexed is not refunded. *)
Lemma not_indexed_not_refunded s b finalize simulate success tx h r :
  h ∈ msg_hashes tx → h ∉ RefundableMsgKeySet s →
  PostHandle s b finalize simulate success tx = Ok r → r.2 = b.
Proof.
  intros Hin Hn Hp.
  destruct (looked_at finalize simulate success) eqn:Hl; [|rewrite PostHandle_skip in Hp by auto; by injection Hp as <-].
  destruct (tx_FeeTx tx) as [feeTx|] eqn:Hf; [|rewrite PostHandle_skip in Hp by auto; by injection Hp as <-].
  rewrite (PostHandle_look _ _ _ _ _ _ feeTx) in Hp by done. cbv zeta in Hp.
  destruct (CheckTxAndClearIndex tmhash_Sum s tx).1 eqn:Hc; [|by injection Hp as <-].
  apply check_refundable in Hc as [_ Hall]. rewrite Forall_forall in Hall. by apply Hall in Hin.
Qed.

(** C31: After a transaction that pays a fee, the decorator refunds the fee exactly when
    the transaction succeeded (in a block or a simulation), all its messages are
    different and every one of them has been indexed as refundable: the fee then moves
    from the fee collector to the granter of the fee, or else its payer, and no other
    balance changes; in all other cases no balance changes.  The messages leave the
    index, so that no later transaction with one of them is refunded unless it is
    indexed again.  The fee collector is assumed to hold the fee, which was deducted
    before, and the recipient to be allowed to receive coins; otherwise the refund
    fails and is only logged. *)
Theorem refund_exact s b finalize simulate success tx feeTx :
  tx_FeeTx tx = Some feeTx → coins_pos (tx_Fee feeTx) → BlockedAddr (getRecipient feeTx) = false →
  (∀ d, amount_of (tx_Fee feeTx) d ≤ balance b fee_addr d)%Z →
  ∃ s' b', PostHandle s b finalize simulate success tx = Ok (s', b') ∧
    (looked_at finalize simulate success = false → s' = s ∧ b' = b) ∧
    (looked_at finalize simulate success = true →
       RefundableMsgKeySet s' = RefundableMsgKeySet s ∖ list_to_set (msg_hashes tx) ∧
       (all_refundable s tx → moved b b' fee_addr (getRecipient feeTx) (tx_Fee feeTx)) ∧
       (¬ all_refundable s tx → b' = b) ∧
       (∀ tx2 h b2 fin2 sim2 ok2 r, h ∈ msg_hashes tx → h ∈ msg_hashes tx2 →
          PostHandle s' b2 fin2 sim2 ok2 tx2 = Ok r → r.2 = b2)).
Proof.
  intros Hf Hpos Hbl Hbal. destruct (looked_at finalize simulate success) eqn:Hl.
  2:{ exists s, b. rewrite PostHandle_skip by auto. by split_and!. }
  rewrite (PostHandle_look _ _ _ _ _ _ feeTx) by done. cbv zeta.
  pose proof (check_refundable s tx) as Hiff. pose proof (check_clears s tx) as Hclear.
  destruct (CheckTxAndClearIndex tmhash_Sum s tx) as [r s']. cbn [fst snd] in *.
  assert (∀ tx2 h b2 fin2 sim2 ok2 r, h ∈ msg_hashes tx → h ∈ msg_hashes tx2 →
    PostHandle s' b2 fin2 sim2 ok2 tx2 = Ok r → r.2 = b2) as Honce.
  { intros tx2 h b2 fin2 sim2 ok2 r2 Hin Hin2. apply (not_indexed_not_refunded _ _ _ _ _ _ h); [done|].
    rewrite Hclear. set_solver. }
  destruct (RefundTx_pays b feeTx Hpos Hbl Hbal) as (b' & Hb' & Hm). destruct r.
  - exists s', b'. rewrite Hb'. split_and!; [done|done|intros _; split_and!; try done].
    intros Hno. exfalso. by apply Hno, Hiff.
  - exists s', b. split_and!; [done|done|intros _; split_and!; try done].
    intros Hall. by apply Hiff in Hall.
Qed.
End refund.
End IncentiveRefund.
