(* ===== verification/IncentiveState.v ===== *)
(** Solvency of x/incentive.

    [inc_inv] is the invariant of the module's state against the bank:
    the pools and gauges are sound, and the account of the module covers all
    that it owes, the gauges of the heights still to be rewarded, the reward
    gauges and the pools.  It holds in every state that [inc_reach] reaches: the
    begin blocker, the hooks of the finality module, the distribution
    of rewards, withdrawals, refunds, and whatever the hooks of x/costaking do as long
    as they keep the interface [WithdrawHooks].  The index of [inc_reach] counts
    the reward periods that have been opened: the results hold until it
    reaches [2^64]. *)
From stdpp Require Import base numbers list sorting gmap strings.
From S2P Require Import Prelude KVStore Bytes BtcStaking Finality FinalityPower SdkCoins ZSum Incentive IncentiveSpec.

Module IncentiveState.
Import BtcStaking Finality FinalityPower Incentive IncentiveSpec.
Local Open Scope Z_scope.

Section state.
Context {SC : SdkCoins} {SCL : SdkCoinsLaws} {BK : BankKeeper} {BL : BankLaws} {B32 : Bech32}.
Context (AddrString : list N → string) (feeCollectorName : string).
Context (module_addr fee_addr : list N).
Context (Hmodule : GetModuleAccount ModuleName = Some module_addr).
Context (Hfee : GetModuleAccount feeCollectorName = Some fee_addr).
Context (Hdistinct : feeCollectorName ≠ ModuleName).
Implicit Types (s : IncState) (b : Bank) (d : string).

(** ** What is owed *)

Definition height_debt s d : Z :=
  zsum (λ _ g, amount_of (g_Coins g) d) (btcStakingGauges s) +
  zsum (λ _ g, amount_of (g_Coins g) d) (fpDirectGauges s).

Definition total_debt s d : Z := debt s d + height_debt s d * DecimalRewards.

Definition event_ok (ev : EventPowerUpdate) : Prop :=
  match ev with BtcActivated _ _ sat | BtcUnbonded _ _ sat => 0 ≤ sat end.

Definition params_ok (p : option Params) : Prop :=
  ∃ btc fpp, p = Some (mkParams (Some btc) (Some fpp)) ∧
    0 ≤ btc ∧ 0 ≤ fpp ∧ btc + fpp < LegacyOneDec.

Record inc_inv (n : N) s b : Prop := {
  ii_pools : pools_ok s;
  ii_gauges : gauges_ok s;
  ii_periods : periods_le n s;
  ii_events : map_Forall (λ _, Forall event_ok) (rewardTrackerEvents s);
  ii_btc_gauges : map_Forall (λ _ g, coins_pos (g_Coins g)) (btcStakingGauges s);
  ii_fp_gauges : map_Forall (λ _ g, coins_pos (g_Coins g)) (fpDirectGauges s);
  ii_params : params_ok (inc_params s);
  ii_solvent d : total_debt s d ≤ balance b module_addr d * DecimalRewards;
}.

Lemma decimals_pos : 0 < DecimalRewards.
Proof. by vm_compute. Qed.

(** ** Processing events *)

(** What is left alone while events are processed. *)
Definition same_funds s s' : Prop :=
  inc_params s' = inc_params s ∧ btcStakingGauges s' = btcStakingGauges s ∧
  fpDirectGauges s' = fpDirectGauges s ∧ rewardTrackerEvents s' ⊆ rewardTrackerEvents s.

#[local] Instance same_funds_trans : Transitive same_funds.
Proof. intros s1 s2 s3 (?&?&?&?) (?&?&?&?). repeat split; try congruence. by etrans. Qed.

Record events_step (k : N) s s' : Prop := {
  es_pools : pools_ok s';
  es_gauges : gauges_ok s';
  es_funds : same_funds s s';
  es_periods n : periods_le n s → periods_le (n + k) s';
  es_debt d : debt s' d ≤ debt s d;
}.

Definition events_at s (h : N) : nat := length (GetOrNewRewardTrackerEvent s h).
Definition events_in s (hs : list N) : nat := sum_list_with (events_at s) hs.

Lemma events_at_mono s s' h : rewardTrackerEvents s' ⊆ rewardTrackerEvents s →
  (events_at s' h ≤ events_at s h)%nat.
Proof.
  intros Hsub. unfold events_at, GetOrNewRewardTrackerEvent.
  destruct (rewardTrackerEvents s' !! h) as [l|] eqn:Hl; [|cbn; lia].
  by rewrite (lookup_weaken _ _ _ _ Hl Hsub).
Qed.

Lemma events_in_mono s s' hs : rewardTrackerEvents s' ⊆ rewardTrackerEvents s →
  (events_in s' hs ≤ events_in s hs)%nat.
Proof.
  intros Hsub. unfold events_in. induction hs as [|h hs IH]; [done|]. cbn.
  pose proof (events_at_mono s s' h Hsub). lia.
Qed.

Lemma at_height_step s h s' n : pools_ok s → gauges_ok s → periods_le n s →
  Forall event_ok (GetOrNewRewardTrackerEvent s h) → (n + N.of_nat (events_at s h) < 2 ^ 64)%N →
  ProcessRewardTrackerEventsAtHeight s h = Ok s' → events_step (N.of_nat (events_at s h)) s s'.
Proof.
  intros Hok Hg Hn Hev Hsmall. unfold ProcessRewardTrackerEventsAtHeight.
  intros (s1 & H1 & [= <-])%bind_Ok.
  assert (pools_step (N.of_nat (events_at s h)) s s1) as [Hok1 Hg1 Hout Hn1 Hd1].
  { eapply fold_pools_step; [|exact Hev|done..]. intros m s0 ev s2 Hm Hok' Hok0 Hg0 Hn0 H2.
    destruct ev as [fa da sat|fa da sat]; cbn in H2;
      apply bind_Ok in H2 as (fp & _ & H2); apply bind_Ok in H2 as (del & _ & H2).
    - by apply (activated_step m Hm s0 fp del sat).
    - by apply (unbonded_step m Hm s0 fp del sat). }
  destruct Hout as (? & ? & ? & ? & ? & He & ?).
  split; cbn; [by destruct Hok1; split|done| |done|done].
  repeat split; cbn; try done. rewrite He. apply delete_subseteq.
Qed.

Lemma heights_step s hs s' n : pools_ok s → gauges_ok s → periods_le n s →
  map_Forall (λ _, Forall event_ok) (rewardTrackerEvents s) →
  (n + N.of_nat (events_in s hs) < 2 ^ 64)%N →
  fold_res ProcessRewardTrackerEventsAtHeight s hs = Ok s' →
  events_step (N.of_nat (events_in s hs)) s s'.
Proof.
  revert s n. induction hs as [|h hs IH]; intros s n Hok Hg Hn Hev Hsmall H; cbn [fold_res] in H.
  - injection H as <-. split; try done. intros m Hm fp c Hc. specialize (Hm fp c Hc). lia.
  - apply bind_Ok in H as (s1 & H1 & H2). unfold events_in in *. cbn [sum_list_with] in *.
    assert (events_step (N.of_nat (events_at s h)) s s1) as E1.
    { apply (at_height_step s h s1 n); try done; [|lia]. unfold GetOrNewRewardTrackerEvent.
      destruct (rewardTrackerEvents s !! h) as [l|] eqn:Hl; [by eapply Hev|constructor]. }
    destruct (es_funds _ _ _ E1) as (_ & _ & _ & Hsub).
    pose proof (events_in_mono s s1 hs Hsub) as Hle. unfold events_in in Hle.
    assert (events_step (N.of_nat (sum_list_with (events_at s1) hs)) s1 s') as E2.
    { apply (IH s1 (n + N.of_nat (events_at s h))%N); [by apply E1..| |lia|done].
      intros h' l Hl. eapply Hev, lookup_weaken; done. }
    split; [by apply E2..| | |].
    + etrans; [apply E1|apply E2].
    + intros m Hm. apply E1, E2 in Hm. intros fp c Hc. specialize (Hm fp c Hc). lia.
    + intros d. etrans; [apply E2|apply E1].
Qed.

(** The events that [ProcessRewardTrackerEvents] processes. *)
Definition pending_events s (h : N) : N :=
  N.of_nat (events_in s (heights_between (u64_add (GetRewardTrackerEventLastProcessedHeight s) 1) h)).

Lemma process_step s h s' n : pools_ok s → gauges_ok s → periods_le n s →
  map_Forall (λ _, Forall event_ok) (rewardTrackerEvents s) →
  (n + pending_events s h < 2 ^ 64)%N →
  ProcessRewardTrackerEvents s h = Ok s' → events_step (pending_events s h) s s'.
Proof.
  intros Hok Hg Hn Hev Hsmall. unfold ProcessRewardTrackerEvents.
  intros (s1 & H1 & [= <-])%bind_Ok. apply heights_step with (n := n) in H1 as [Hok1 ? ? ? ?]; try done.
  split; try done. by destruct Hok1; split.
Qed.

(** ** Portions *)

Lemma one_dec_pos : 0 < LegacyOneDec.
Proof. by vm_compute. Qed.

Lemma GetCoinsPortion_spec a p c : coins_pos a → 0 ≤ p → GetCoinsPortion a p = Some c →
  coins_pos c ∧ ∀ d, amount_of c d = amount_of a d * p / LegacyOneDec.
Proof.
  intros Ha Hp. unfold GetCoinsPortion. rewrite newdec_spec by done. cbn [mbind option_bind].
  intros (m & Hm & H)%bind_Some. apply bind_Some in H as ([c' ch] & Ht & [= <-]).
  pose proof one_dec_pos as H1.
  assert (coins_pos (map_amount (λ n, n * LegacyOneDec) a)) as Ha' by (apply map_amount_pos; [nia|done]).
  apply muldec_spec in Hm as [Hmp Hmd]; [|done..].
  apply trunc_spec in Ht as [Hcp Hcd]; [|done]. split; [done|]. intros d.
  rewrite Hcd, Hmd, (coins_amount_map (λ n, n * LegacyOneDec)) by (done || by apply coins_pos_nonneg).
  f_equal. replace (amount_of a d * LegacyOneDec * p) with (amount_of a d * p * LegacyOneDec) by lia.
  apply Z.div_mul. lia.
Qed.

(** The share of one provider of a gauge with [g] of a denomination. *)
Definition share (g total : Z) (i : FinalityProviderDistInfo) : Z :=
  g * (Z.of_N (TotalBondedSat i) * LegacyOneDec / total) / LegacyOneDec.

Definition sats_of (l : list FinalityProviderDistInfo) : Z :=
  foldr (λ i a, Z.of_N (TotalBondedSat i) + a) 0 l.

Lemma event_sats_cons i l : sats_of (i :: l) = Z.of_N (TotalBondedSat i) + sats_of l.
Proof. done. Qed.

Lemma sats_of_nonneg l : 0 ≤ sats_of l.
Proof. induction l as [|i l IH]; [done|]. rewrite event_sats_cons. lia. Qed.

(** The shares of the providers add up to no more than the gauge. *)
Lemma shares_le (g total : Z) (l : list FinalityProviderDistInfo) : 0 ≤ g → 0 < total →
  foldr (λ i a, share g total i + a) 0 l * total ≤
  g * sats_of l.
Proof.
  intros Hg Ht. induction l as [|i l IH]; [cbn; lia|].
  rewrite event_sats_cons. cbn [foldr]. pose proof one_dec_pos as H1.
  assert (share g total i * total ≤ g * Z.of_N (TotalBondedSat i)); [|lia].
  unfold share. set (sat := Z.of_N (TotalBondedSat i)).
  assert (0 ≤ sat) by (unfold sat; lia).
  pose proof (Z.mul_div_le (sat * LegacyOneDec) total Ht) as Hq.
  set (q := sat * LegacyOneDec / total) in *.
  pose proof (Z.mul_div_le (g * q) LegacyOneDec H1) as Hr.
  set (r := g * q / LegacyOneDec) in *. nia.
Qed.

Record dist_ok (l : list FinalityProviderDistInfo) : Prop := {
  do_power : sats_of l < 2 ^ 63;
  do_commission : Forall (λ i, ∀ c, di_Commission i = Some c → 0 ≤ c) l;
}.

Lemma total_power_eq l : sats_of l < 2 ^ 63 →
  Z.of_N (foldl (λ t i, u64_add t (TotalBondedSat i)) 0%N l) =
  sats_of l.
Proof.
  enough (∀ a : N, Z.of_N a + sats_of l < 2 ^ 63 →
    Z.of_N (foldl (λ t i, u64_add t (TotalBondedSat i)) a l) = Z.of_N a + sats_of l) as Hgen.
  { intros Hl. by rewrite Hgen. }
  induction l as [|i l IH]; intros a Ha; cbn [foldl]; [cbn; lia|].
  rewrite event_sats_cons in *. pose proof (sats_of_nonneg l).
  rewrite u64_add_small by lia. rewrite IH by lia. lia.
Qed.

(** Rewards added to a pool. *)
Lemma funded_pool s fp c nc (r : string → Z) : pools_ok s →
  finalityProviderCurrentRewards s !! fp = Some c → coins_pos nc →
  (∀ d, amount_of nc d = amount_of (CurrentRewards c) d + r d) →
  let s' := SetFinalityProviderCurrentRewards s fp (mkCurrent nc (Period c) (cr_TotalActiveSat c)) in
  pools_ok s' ∧ (∀ n, periods_le n s → periods_le n s') ∧
  ∀ d, debt s' d = debt s d + r d * DecimalRewards.
Proof.
  intros Hok Hc Hnc Hr s'. destruct (po_current _ Hok _ _ Hc) as (_ & Hper & Hst).
  assert (∀ fp' d, last_cum s' fp' d = last_cum s fp' d) as Hlast.
  { intros fp' d. unfold last_cum, s'. cbn [finalityProviderCurrentRewards
      SetFinalityProviderCurrentRewards with_current finalityProviderHistoricalRewards].
    destruct (decide (fp = fp')) as [<-|Hne]; [by rewrite lookup_insert_eq, Hc|].
    by rewrite lookup_insert_ne. }
  assert (∀ fp' c', finalityProviderCurrentRewards s' !! fp' = Some c' →
    ∃ c0, finalityProviderCurrentRewards s !! fp' = Some c0 ∧ Period c' = Period c0 ∧
      cr_TotalActiveSat c' = cr_TotalActiveSat c0 ∧ coins_pos (CurrentRewards c')) as Hcur.
  { intros fp' c' Hc'. unfold s' in Hc'. cbn [finalityProviderCurrentRewards
      SetFinalityProviderCurrentRewards with_current] in Hc'.
    apply lookup_insert_Some in Hc' as [[<- <-]|[_ Hc']]; [by exists c|].
    exists c'. apply (po_current _ Hok) in Hc' as Hp. naive_solver. }
  split; [split|split].
  - intros fp' c' (c0 & Hc0 & -> & -> & Hp)%Hcur. split; [done|]. by apply (po_current _ Hok).
  - intros fp' c' p (c0 & Hc0 & -> & _)%Hcur. by apply (po_recorded _ Hok).
  - intros fp' c' p d (c0 & Hc0 & -> & _)%Hcur Hlt. rewrite Hlast. by apply (po_monotone _ Hok fp' c0).
  - intros fp' del t Ht. destruct (po_tracker _ Hok fp' del t Ht) as (Hs & c' & Hc' & Hlt).
    split; [done|]. unfold s'. cbn. destruct (decide (fp = fp')) as [<-|Hne].
    + rewrite lookup_insert_eq. simplify_eq. by eexists.
    + rewrite lookup_insert_ne by done. by eexists.
  - intros fp' c' (c0 & Hc0 & _)%Hcur. by eapply (po_first _ Hok).
  - intros n Hn fp' c' (c0 & Hc0 & -> & _)%Hcur. by apply (Hn fp').
  - intros d. unfold debt, claims. change (gauge_debt s' d) with (gauge_debt s d).
    change (btcDelegationRewardsTracker s') with (btcDelegationRewardsTracker s).
    rewrite (zsum_ext (claim s' d) (claim s d)) by (intros k t _; unfold claim; by rewrite Hlast).
    unfold current_debt, s'. cbn [finalityProviderCurrentRewards SetFinalityProviderCurrentRewards
      with_current]. rewrite zsum_insert, (zsum_delete _ (finalityProviderCurrentRewards s) fp), Hc.
    cbn [from_option CurrentRewards]. rewrite Hr. lia.
Qed.

(** What one provider costs. *)
Lemma reward_fp_spec g fg total i s s' :
  coins_pos (g_Coins g) → coins_pos (g_Coins fg) → (Z.of_N total < 2 ^ 63) →
  Z.of_N (TotalBondedSat i) < 2 ^ 63 → (∀ c, di_Commission i = Some c → 0 ≤ c) →
  pools_ok s → gauges_ok s → reward_fp g fg total s i = Ok s' →
  0 < Z.of_N total ∧ pools_ok s' ∧ gauges_ok s' ∧ same_outside s s' ∧
  (∀ n, periods_le n s → periods_le n s') ∧
  ∀ d, debt s' d ≤ debt s d + (share (amount_of (g_Coins g) d) (Z.of_N total) i +
                               share (amount_of (g_Coins fg) d) (Z.of_N total) i) * DecimalRewards.
Proof.
  intros Hg Hfg Ht Hi Hcomm Hok Hgs. unfold reward_fp, Gauge_GetCoinsPortion.
  rewrite !int64_small, !newdec_int by lia. pose proof one_dec_pos as H1.
  intros (p & Hp & H)%bind_Ok. apply inc_or_panic_Ok, quotrunc_spec in Hp as [Htot Hp]; [|nia..].
  apply bind_Ok in H as (all & Hall & H). apply inc_or_panic_Ok in Hall.
  apply bind_Ok in H as (cm & Hcm & H). apply inc_or_panic_Ok in Hcm.
  apply bind_Ok in H as (cc & Hcc & H). apply inc_or_panic_Ok in Hcc.
  apply bind_Ok in H as (fd & Hfd & H). apply inc_or_panic_Ok in Hfd.
  apply bind_Ok in H as (tf & Htf & H). apply inc_or_panic_Ok in Htf.
  apply bind_Ok in H as (s1 & Hs1 & H). apply bind_Ok in H as (rest & Hrest & H).
  apply inc_or_panic_Ok in Hrest.
  assert (p = Z.of_N (TotalBondedSat i) * LegacyOneDec / Z.of_N total) as Hp'.
  { rewrite Hp. apply Z.div_mul_cancel_r; lia. }
  assert (0 < Z.of_N total) as Htot' by nia.
  assert (0 ≤ p) as Hp0 by (rewrite Hp'; apply Z.div_pos; nia).
  apply GetCoinsPortion_spec in Hall as [Hallp Halld]; [|done..].
  apply GetCoinsPortion_spec in Hcc as [Hccp Hccd]; [|by auto..].
  apply GetCoinsPortion_spec in Hfd as [Hfdp Hfdd]; [|done..].
  apply add_spec in Htf as [Htfp Htfd]; [|by apply coins_pos_nonneg..].
  apply sub_spec in Hrest as [Hrestp Hrestd]; [|by apply coins_pos_nonneg..].
  apply accumulate_paid in Hs1 as Hpaid; [|done|by apply coins_pos_nonneg].
  pose proof (paid_pools _ _ _ Hpaid Hok) as Hok1.
  unfold must, AddFinalityProviderRewardsForBtcDelegations, GetFinalityProviderCurrentRewards in H.
  destruct (finalityProviderCurrentRewards s1 !! di_Addr i) as [c|] eqn:Hc; [|done].
  cbn [of_option mbind res_bind] in H. unfold AddRewards in H.
  destruct (CoinsAdd (CurrentRewards c) rest) as [nc|] eqn:Hnc; [|done].
  cbn [mbind option_bind or_panic res_bind mret res_ret] in H. injection H as <-.
  destruct (po_current _ Hok1 _ _ Hc) as (Hcp & Hper & Hst).
  apply add_spec in Hnc as [Hncp Hncd]; [|by apply coins_pos_nonneg..].
  destruct (funded_pool s1 (di_Addr i) c nc (amount_of rest) Hok1 Hc Hncp Hncd) as (Hok2 & Hn2 & Hd2).
  destruct Hpaid as (gg & -> & Hg1 & Hgd) eqn:Hpaid'. clear Hpaid'.
  split; [done|]. split; [done|]. split; [done|]. split; [repeat split|]. split.
  { intros n Hn. by apply Hn2. }
  intros d. rewrite Hd2. rewrite (paid_debt s (with_gauges s gg) _ d (ex_intro _ gg (conj eq_refl (conj Hg1 Hgd)))).
  rewrite Hrestd, Halld. unfold share. rewrite <-Hp'.
  assert ((if IsAllPositive tf then amount_of tf d else 0) ≤ amount_of cc d + amount_of fd d) as Hle.
  { rewrite <-Htfd. pose proof (coins_amount_nonneg tf d (coins_pos_nonneg _ Htfp)).
    destruct (IsAllPositive tf); lia. }
  rewrite Hfdd in Hle. pose proof decimals_pos. nia.
Qed.

(** ** Distributing a height *)

Lemma reward_all_spec g fg total l s s' :
  coins_pos (g_Coins g) → coins_pos (g_Coins fg) → Z.of_N total < 2 ^ 63 →
  Forall (λ i, Z.of_N (TotalBondedSat i) < 2 ^ 63) l →
  Forall (λ i, ∀ c, di_Commission i = Some c → 0 ≤ c) l →
  pools_ok s → gauges_ok s → fold_res (reward_fp g fg total) s l = Ok s' →
  (l ≠ [] → 0 < Z.of_N total) ∧ pools_ok s' ∧ gauges_ok s' ∧ same_outside s s' ∧
  (∀ n, periods_le n s → periods_le n s') ∧
  ∀ d, debt s' d ≤ debt s d +
    (foldr (λ i a, share (amount_of (g_Coins g) d) (Z.of_N total) i + a) 0 l +
     foldr (λ i a, share (amount_of (g_Coins fg) d) (Z.of_N total) i + a) 0 l) * DecimalRewards.
Proof.
  intros Hg Hfg Ht. revert s. induction l as [|i l IH]; intros s Hs Hc Hok Hgs H; cbn [fold_res] in H.
  - injection H as <-. split; [done|]. split; [done|]. split; [done|]. split; [done|].
    split; [done|]. intros d. cbn [foldr]. lia.
  - apply Forall_cons in Hs as [Hi Hs]. apply Forall_cons in Hc as [Hci Hc].
    apply bind_Ok in H as (s1 & H1 & H2).
    apply reward_fp_spec in H1 as (Hpos & Hok1 & Hg1 & Ho1 & Hn1 & Hd1); [|done..].
    apply IH in H2 as (_ & Hok2 & Hg2 & Ho2 & Hn2 & Hd2); [|done..].
    split; [done|]. split; [done|]. split; [done|]. split; [by etrans|]. split; [by auto|].
    intros d. specialize (Hd1 d). specialize (Hd2 d). cbn [foldr]. lia.
Qed.

Lemma default_gauge_pos (m : gmap N Gauge) h : map_Forall (λ _ g, coins_pos (g_Coins g)) m →
  coins_pos (g_Coins (default (NewGauge []) (m !! h))).
Proof.
  intros Hm. destruct (m !! h) as [g|] eqn:Hh; [by apply (Hm h)|]. apply coins_pos_nil.
Qed.

Lemma prune_gauge (m : gmap N Gauge) h d :
  zsum (λ _ g, amount_of (g_Coins g) d) m =
  amount_of (g_Coins (default (NewGauge []) (m !! h))) d +
  zsum (λ _ g, amount_of (g_Coins g) d) (delete h m).
Proof. rewrite (zsum_delete _ m h). by destruct (m !! h). Qed.

(** The shares of a gauge cost no more than the gauge. *)
Lemma shares_covered l (g : Z) : 0 ≤ g → (l ≠ [] → 0 < sats_of l) →
  foldr (λ i a, share g (sats_of l) i + a) 0 l ≤ g.
Proof.
  intros Hg Hpos. destruct (decide (l = [])) as [->|Hne]; [done|]. specialize (Hpos Hne).
  pose proof (shares_le g (sats_of l) l Hg Hpos). nia.
Qed.

Lemma sats_of_member l i : i ∈ l → Z.of_N (TotalBondedSat i) ≤ sats_of l.
Proof.
  induction l as [|j l IH]; [by intros ?%elem_of_nil|]. rewrite event_sats_cons.
  pose proof (sats_of_nonneg l). intros [->|Hi]%elem_of_cons; [lia|]. specialize (IH Hi). lia.
Qed.

Lemma reward_step_inv n s b h dc voters s' : inc_inv n s b →
  dist_ok (rewarded dc voters) → (n + pending_events s h < 2 ^ 64)%N →
  RewardBTCStaking s h dc voters = Ok s' → inc_inv (n + pending_events s h) s' b.
Proof.
  intros [Hok Hg Hn Hev Hbg Hfg Hp Hsol] [Hpow Hcomm] Hsmall. unfold RewardBTCStaking. cbv zeta.
  set (g := default _ _). set (fg := default _ (GetFPDirectGauge s h)).
  assert (coins_pos (g_Coins g)) as Hgp by (by apply default_gauge_pos).
  assert (coins_pos (g_Coins fg)) as Hfgp by (by apply default_gauge_pos).
  set (l := rewarded dc voters) in *. set (total := foldl _ _ l).
  assert (Z.of_N total = sats_of l) as Htot by (by apply total_power_eq).
  intros (s1 & H1 & H)%bind_Ok. apply bind_Ok in H as (s2 & H2 & [= <-]).
  assert (ProcessRewardTrackerEvents s h = Ok s1) as H1' by (unfold must in H1; by destruct (ProcessRewardTrackerEvents s h)).
  apply process_step with (n := n) in H1' as [Hok1 Hg1 (Hp1 & Hb1 & Hf1 & He1) Hn1 Hd1]; [|done..].
  apply reward_all_spec in H2 as (Hpos & Hok2 & Hg2 & Ho2 & Hn2 & Hd2); try done; [|lia|].
  2: { apply Forall_forall. intros i Hi. pose proof (sats_of_member l i Hi). lia. }
  rewrite Htot in *. destruct Ho2 as (Hp2 & Hb2 & Hf2 & _ & _ & He2 & _).
  split; cbn.
  - by destruct Hok2; split.
  - done.
  - by apply Hn2, Hn1.
  - intros h' evs Hevs. rewrite He2 in Hevs. eapply Hev, lookup_weaken; done.
  - apply map_Forall_delete. by rewrite Hb2, Hb1.
  - apply map_Forall_delete. by rewrite Hf2, Hf1.
  - by rewrite Hp2, Hp1.
  - intros d. specialize (Hd2 d). specialize (Hd1 d). specialize (Hsol d).
    unfold total_debt, height_debt in *. cbn [btcStakingGauges fpDirectGauges pruneFPDirectGauge
      pruneBTCStakingGauge with_btcGauges with_fpGauges].
    change (debt _ d) with (debt s2 d). rewrite Hb2, Hb1, Hf2, Hf1.
    rewrite (prune_gauge (btcStakingGauges s) h), (prune_gauge (fpDirectGauges s) h) in Hsol.
    fold (GetBTCStakingGauge s h) (GetFPDirectGauge s h) in Hsol. fold g fg in Hsol.
    pose proof (shares_covered l (amount_of (g_Coins g) d)
      (coins_amount_nonneg _ d (coins_pos_nonneg _ Hgp)) Hpos).
    pose proof (shares_covered l (amount_of (g_Coins fg) d)
      (coins_amount_nonneg _ d (coins_pos_nonneg _ Hfgp)) Hpos).
    pose proof decimals_pos. nia.
Qed.

(** ** Intercepting fees *)

Lemma module_ne_fee : module_addr ≠ fee_addr.
Proof. intros ->. by apply Hdistinct, (module_account_inj _ _ fee_addr). Qed.

Lemma set_gauge_sum (m : gmap N Gauge) h c d : map_Forall (λ _ g, coins_pos (g_Coins g)) m →
  zsum (λ _ g, amount_of (g_Coins g) d) (<[h := NewGauge c]> m) ≤
  amount_of c d + zsum (λ _ g, amount_of (g_Coins g) d) m.
Proof.
  intros Hm. rewrite zsum_insert, (prune_gauge m h d). cbn [NewGauge g_Coins].
  pose proof (coins_amount_nonneg _ d (coins_pos_nonneg _ (default_gauge_pos m h Hm))). lia.
Qed.

Lemma accumulate_inv n s b h btc fpd s' b' : inc_inv n s b → coins_pos btc → coins_pos fpd →
  accumulateRewards feeCollectorName s b h btc fpd = Ok (s', b') → inc_inv n s' b'.
Proof.
  intros [Hok Hg Hn Hev Hbg Hfg Hp Hsol] Hbtc Hfpd. unfold accumulateRewards. cbv zeta.
  set (s1 := if IsAllPositive fpd then _ else _). intros (tot & Htot & H)%bind_Ok.
  apply inc_or_panic_Ok, add_spec in Htot as [Htp Htd]; [|by apply coins_pos_nonneg..].
  assert (s' = s1 ∧ ∀ d, balance b' module_addr d = balance b module_addr d + amount_of tot d)
    as [-> Hbal].
  { destruct (IsAllPositive tot) eqn:Hpos.
    - destruct (SendCoinsFromModuleToModule b feeCollectorName ModuleName tot) as [b1| |] eqn:Hs;
        [|done..]. injection H as <- <-. split; [done|]. intros d.
      apply (m2m_spec _ _ _ fee_addr module_addr) in Hs as [_ Hm]; [|done..].
      rewrite Hm, decide_False, decide_True by (done || apply module_ne_fee). lia.
    - injection H as <- <-. split; [done|]. intros d.
      apply IsAllPositive_false in Hpos as ->; [|done]. rewrite amount_of_nil. lia. }
  assert (btcStakingGauges s1 = <[h := NewGauge btc]> (btcStakingGauges s)) as Hb1
    by (unfold s1; by destruct (IsAllPositive fpd)).
  assert (map_Forall (λ _ g, coins_pos (g_Coins g)) (fpDirectGauges s1) ∧
    ∀ d, zsum (λ _ g, amount_of (g_Coins g) d) (fpDirectGauges s1) ≤
         amount_of fpd d + zsum (λ _ g, amount_of (g_Coins g) d) (fpDirectGauges s)) as [Hf1 Hfd].
  { unfold s1. destruct (IsAllPositive fpd) eqn:Hpos; cbn.
    - split; [by apply map_Forall_insert_2|]. intros d. by apply set_gauge_sum.
    - split; [done|]. intros d. apply IsAllPositive_false in Hpos as ->; [|done].
      rewrite amount_of_nil. lia. }
  assert (debt s1 = debt s) as Hd1 by (unfold s1; by destruct (IsAllPositive fpd)).
  split.
  - unfold s1. destruct (IsAllPositive fpd), Hok; by split.
  - unfold s1. by destruct (IsAllPositive fpd).
  - unfold s1. by destruct (IsAllPositive fpd).
  - unfold s1. by destruct (IsAllPositive fpd).
  - rewrite Hb1. by apply map_Forall_insert_2.
  - done.
  - unfold s1. by destruct (IsAllPositive fpd).
  - intros d. specialize (Hsol d). specialize (Hfd d). rewrite Hbal, Htd.
    unfold total_debt, height_debt in *. rewrite Hd1, Hb1.
    pose proof (set_gauge_sum (btcStakingGauges s) h btc d Hbg). pose proof decimals_pos. nia.
Qed.

Lemma begin_block_inv n s b height s' b' : inc_inv n s b →
  BeginBlocker feeCollectorName s b height = Ok (s', b') → inc_inv n s' b'.
Proof.
  intros Hinv. unfold BeginBlocker. destruct (0 <? height); [|by intros [= <- <-]].
  unfold HandleCoinsInFeeCollector. rewrite Hfee. cbn [or_panic mbind res_bind].
  destruct (IsAllPositive (GetAllBalances b fee_addr)); cbn [negb]; [|by intros [= <- <-]].
  destruct (ii_params _ _ _ Hinv) as (btc & fpp & Hp & Hbtc & Hfpp & _).
  unfold GetParams. rewrite Hp. cbn [default from_option id FpPortion BtcStakingPortion or_panic].
  intros (c & Hc & H)%bind_Ok. cbn [mbind res_bind] in H. apply bind_Ok in H as (c' & Hc' & H).
  apply inc_or_panic_Ok in Hc, Hc'. pose proof (balances_pos b fee_addr) as Hfees.
  apply GetCoinsPortion_spec in Hc as [Hcp _]; [|done..].
  apply GetCoinsPortion_spec in Hc' as [Hcp' _]; [|done..].
  by apply (accumulate_inv n s b (u64_of_Z height) c' c).
Qed.

(** ** Withdrawing a gauge *)

Lemma withdraw_spec n s b t addr coins s' b' : inc_inv n s b →
  withdrawReward s b t addr = Ok (coins, s', b') →
  inc_inv n s' b' ∧ coins_pos coins ∧
  moved b b' module_addr (GetWithdrawAddr s addr) coins ∧
  ∃ rg, rewardGauges s !! (t, addr) = Some rg ∧
    rewardGauges s' = <[(t, addr) := mkRewardGauge (rg_Coins rg) (rg_Coins rg)]> (rewardGauges s) ∧
    ∀ d, amount_of coins d = amount_of (rg_Coins rg) d - amount_of (WithdrawnCoins rg) d.
Proof.
  intros [Hok Hg Hn Hev Hbg Hfg Hp Hsol]. unfold withdrawReward, GetRewardGauge.
  destruct (rewardGauges s !! (t, addr)) as [rg|] eqn:Hrg; [|done].
  destruct (Hg _ _ Hrg) as (Hc & Hw & Hle). cbv beta in Hc.
  intros (wc & Hwc & H)%bind_Ok. apply inc_or_panic_Ok in Hwc. unfold GetWithdrawableCoins in Hwc.
  apply sub_spec in Hwc as [Hwcp Hwcd]; [|by apply coins_pos_nonneg..].
  destruct (IsAllPositive wc); [|done]. cbn [negb] in H.
  apply bind_Ok in H as (b1 & Hb1 & H). apply map_err_Ok in Hb1.
  unfold SetFullyWithdrawn in H. rewrite newcoins_spec in H by done.
  cbn [mbind option_bind or_panic res_bind mret res_ret] in H. injection H as <- <- <-.
  apply (m2a_spec _ _ module_addr) in Hb1 as (_ & _ & Hmv); [|done].
  split; [|split; [done|split; [done|by exists rg]]]. split; cbn; try done.
  - by destruct Hok; split.
  - intros k rg' Hk. cbn in Hk. apply lookup_insert_Some in Hk as [[<- <-]|[_ Hk]]; [|by eapply Hg].
    split; [done|]. split; [done|]. intros d. cbn. lia.
  - intros d. specialize (Hsol d).
    assert (balance b module_addr d - amount_of wc d ≤ balance b1 module_addr d) as Hb.
    { rewrite Hmv, decide_True by done. pose proof (coins_amount_nonneg wc d (coins_pos_nonneg _ Hwcp)).
      case_decide; lia. }
    assert (debt (SetRewardGauge s t addr (mkRewardGauge (rg_Coins rg) (rg_Coins rg))) d =
            debt s d - amount_of wc d * DecimalRewards) as Hd.
    { unfold debt.
      change (claims (SetRewardGauge s t addr _) d _) with (claims s d (btcDelegationRewardsTracker s)).
      change (current_debt (SetRewardGauge s t addr _) d) with (current_debt s d).
      unfold gauge_debt. cbn [rewardGauges SetRewardGauge with_gauges].
      rewrite zsum_insert, (zsum_delete _ (rewardGauges s) (t, addr)), Hrg.
      cbn [from_option rg_Coins WithdrawnCoins]. rewrite Hwcd. lia. }
    unfold total_debt in *.
    change (height_debt (SetRewardGauge s t addr _) d) with (height_debt s d).
    rewrite Hd. pose proof decimals_pos. nia.
Qed.

(** ** The interface of the hooks *)

(** What a hook may do: credit reward gauges, and bring the coins it credits. *)
Definition hooked s b s' b' : Prop :=
  ∃ g, s' = with_gauges s g ∧ gauges_ok s' ∧
  ∀ d, gauge_debt s' d - gauge_debt s d ≤ balance b' module_addr d - balance b module_addr d.

(** No account but the ones of this module and of the fees is debited. *)
Definition others_kept b b' : Prop :=
  ∀ a d, a ≠ module_addr → a ≠ fee_addr → balance b a d ≤ balance b' a d.

Context {HookEnv : Type} (BeforeRewardWithdraw : Hook (HookEnv := HookEnv)) (authority : string)
  (tmhash_Sum : bytes → bytes).
Implicit Types (e : HookEnv) (w : World (HookEnv := HookEnv)).

(** What the hook promises; the index of the invariant counts the periods that the
    module of the hook may have opened, at most two per call. *)
Class WithdrawHooks := {
  (** The invariant of the module that implements the hook. *)
  hook_inv : N → HookEnv → Bank → Prop;
  hook_mono : ∀ n m e b, (n ≤ m)%N → hook_inv n e b → hook_inv m e b;
  hook_stable : ∀ n e b b', others_kept b b' → hook_inv n e b → hook_inv n e b';
  hook_sound : ∀ n s b e t a, gauges_ok s → hook_inv n e b → (n + 2 < 2 ^ 64)%N →
    match BeforeRewardWithdraw (s, b, e) t a with
    | Ok (s', b', e') | Err (_, (s', b', e')) => hooked s b s' b' ∧ hook_inv (n + 2) e' b'
    | Panic => True
    end;
}.
Context {WH : WithdrawHooks}.

Lemma hooked_inv n s b s' b' : inc_inv n s b → hooked s b s' b' → inc_inv n s' b'.
Proof.
  intros [Hok Hg Hn Hev Hbg Hfg Hp Hsol] (g & -> & Hg' & Hd). split; try done.
  - by destruct Hok; split.
  - intros d. specialize (Hsol d). specialize (Hd d). unfold total_debt, debt in *.
    change (height_debt (with_gauges s g) d) with (height_debt s d).
    change (current_debt (with_gauges s g) d) with (current_debt s d).
    change (claims (with_gauges s g) d _) with (claims s d (btcDelegationRewardsTracker s)).
    pose proof decimals_pos. nia.
Qed.

Lemma others_kept_refl b : others_kept b b.
Proof. intros a d _ _. done. Qed.

Lemma moved_others_kept b b' x y amt : (x = module_addr ∨ x = fee_addr) → coins_pos amt →
  moved b b' x y amt → others_kept b b'.
Proof.
  intros Hx Hamt Hm a d Ha Hf. rewrite Hm, decide_False by naive_solver.
  pose proof (coins_amount_nonneg amt d (coins_pos_nonneg _ Hamt)). case_decide; lia.
Qed.

Definition world_inv (n : N) w : Prop :=
  let '(s, b, e) := w in inc_inv n s b ∧ hook_inv n e b.

Lemma try_withdraw_inv n w t addr r w' : world_inv n w →
  try_withdraw w t addr = Ok (r, w') → world_inv n w'.
Proof.
  destruct w as [[s b] e]. intros [Hinv He]. unfold try_withdraw.
  destruct (withdrawReward s b t addr) as [[[c s'] b']|err|] eqn:Hw; [| |done].
  - intros [= <- <-]. apply (withdraw_spec n) in Hw as (Hinv' & Hc & Hm & _); [|done].
    split; [done|]. eapply hook_stable; [|done]. eapply moved_others_kept; [by left|done..].
  - by intros [= <- <-].
Qed.

Lemma inc_inv_weaken n m s b : (n ≤ m)%N → inc_inv n s b → inc_inv m s b.
Proof.
  intros Hnm [? ? Hn ? ? ? ? ?]. split; try done. intros fp c Hc. specialize (Hn fp c Hc). lia.
Qed.

Lemma world_inv_weaken n m w : (n ≤ m)%N → world_inv n w → world_inv m w.
Proof.
  destruct w as [[s b] e]. intros Hnm [Hinv He].
  split; [by eapply inc_inv_weaken|by eapply hook_mono].
Qed.

Lemma hook_inv_step n w t addr w' : world_inv n w → (n + 2 < 2 ^ 64)%N →
  (BeforeRewardWithdraw w t addr = Ok w' ∨ ∃ err, BeforeRewardWithdraw w t addr = Err (err, w')) →
  world_inv (n + 2) w'.
Proof.
  destruct w as [[s b] e], w' as [[s' b'] e']. intros [Hinv He] Hsmall H.
  pose proof (hook_sound n s b e t addr (ii_gauges _ _ _ Hinv) He Hsmall) as Hs.
  destruct H as [H|[err H]]; rewrite H in Hs; destruct Hs as [Hh He'];
    (split; [apply (inc_inv_weaken n); [lia|]; by eapply hooked_inv|done]).
Qed.

(** The number of providers whose pool a withdrawal touches, and two calls of the hook. *)
Definition withdraw_cost s (req : MsgWithdrawReward) : N :=
  (from_option (λ addr, N.of_nat (length (fps_of_delegator (btcDelegatorToFp s) addr))) 0
    (AccAddressFromBech32 (wr_Address req)) + 4)%N.

Lemma pools_step_inv n k s b s' : inc_inv n s b → pools_step k s s' → inc_inv (n + k) s' b.
Proof.
  intros [Hok Hg Hn Hev Hbg Hfg Hp Hsol] [Hok' Hg' (Hp' & Hb' & Hf' & _ & _ & He' & _) Hn' Hd'].
  split; try done.
  - by apply Hn'.
  - by rewrite He'.
  - by rewrite Hb'.
  - by rewrite Hf'.
  - by rewrite Hp'.
  - intros d. specialize (Hsol d). specialize (Hd' d). unfold total_debt, height_debt in *.
    rewrite Hb', Hf'. lia.
Qed.

Lemma withdraw_inv n s b e req coins w' : world_inv n (s, b, e) →
  (n + withdraw_cost s req < 2 ^ 64)%N →
  WithdrawReward BeforeRewardWithdraw (s, b, e) req = Ok (coins, w') →
  world_inv (n + withdraw_cost s req) w'.
Proof.
  intros [Hinv He] Hsmall. unfold WithdrawReward, withdraw_cost in *.
  intros (t & _ & H)%bind_Ok. apply bind_Ok in H as (addr & Ha & H).
  apply of_option_Ok in Ha. rewrite Ha in *. cbn [from_option] in *.
  set (k := N.of_nat (length (fps_of_delegator (btcDelegatorToFp s) addr))) in *.
  replace (n + (k + 4))%N with (n + k + 2 + 2)%N in * by lia.
  apply bind_Ok in H as (s1 & H1 & H). apply map_err_Ok in H1.
  assert (world_inv (n + k) (s1, b, e)) as Hw1.
  { split; [|eapply hook_mono; [|done]; lia].
    unfold sendAllBtcDelegationTypeToRewardsGauge in H1. destruct (decide (t ≠ BTC_STAKER)).
    - injection H1 as <-. eapply inc_inv_weaken; [|done]. lia.
    - apply pools_step_inv with (s := s); [done|]. destruct Hinv.
      apply (send_all_step s addr s1 n); try done. lia. }
  apply bind_Ok in H as (w2 & H2 & H). apply map_err_Ok in H2.
  assert (world_inv (n + k + 2) w2) as Hw2 by (eapply hook_inv_step; [exact Hw1|lia|by left]).
  apply bind_Ok in H as ([r w3] & H3 & H). apply (try_withdraw_inv (n + k + 2)) in H3 as Hw3; [|done].
  cbv zeta in H. apply bind_Ok in H as ([c w4] & H4 & H).
  assert (world_inv (n + k + 2 + 2) w4) as Hw4.
  { destruct (decide (t = BTC_STAKER));
      [|injection H4 as <- <-; eapply world_inv_weaken; [|done]; lia].
    apply bind_Ok in H4 as (w5 & H5 & H4).
    assert (world_inv (n + k + 2 + 2) w5) as Hw5.
    { apply (hook_inv_step (n + k + 2) w3 COSTAKER addr); [exact Hw3|lia|]. destruct (BeforeRewardWithdraw w3 COSTAKER addr) as [w6|[err w6]|].
      - left. by injection H5 as <-.
      - right. injection H5 as <-. by eexists.
      - done. }
    apply bind_Ok in H4 as ([r' w6] & H6 & H4). eapply try_withdraw_inv in H6 as Hw6; [|done].
    destruct r' as [c'|]; [|by injection H4 as <- <-].
    apply bind_Ok in H4 as (tt' & _ & H4). by injection H4 as <- <-. }
  destruct (IsZero c); [done|]. by injection H as <- <-.
Qed.

(** ** Reachable states *)

(** The steps of the module; the index counts the periods a step may open. *)
Inductive inc_step : N → World (HookEnv := HookEnv) → World (HookEnv := HookEnv) → Prop :=
  | st_begin_block s b e height s' b' :
      BeginBlocker feeCollectorName s b height = Ok (s', b') → inc_step 0 (s, b, e) (s', b', e)
  | st_activated s b e h fp del prev cur sats s' :
      AfterBtcDelegationActivated AddrString s h fp del prev cur sats = Ok s' →
      inc_step 0 (s, b, e) (s', b, e)
  | st_unbonded s b e h fp del prev cur sats s' :
      AfterBtcDelegationUnbonded AddrString s h fp del prev cur sats = Ok s' →
      inc_step 0 (s, b, e) (s', b, e)
  | st_reward s b e h dc voters s' :
      dist_ok (rewarded dc voters) → RewardBTCStaking s h dc voters = Ok s' →
      inc_step (pending_events s h) (s, b, e) (s', b, e)
  | st_withdraw s b e req coins w' :
      WithdrawReward BeforeRewardWithdraw (s, b, e) req = Ok (coins, w') →
      inc_step (withdraw_cost s req) (s, b, e) w'
  | st_update_params s b e req s' :
      UpdateParams authority s req = Ok s' → inc_step 0 (s, b, e) (s', b, e)
  | st_set_withdraw s b e req s' :
      SetWithdrawAddress s req = Ok s' → inc_step 0 (s, b, e) (s', b, e)
  | st_index s b e msg :
      inc_step 0 (s, b, e) (IndexRefundableMsg tmhash_Sum s msg, b, e)
  | st_post_handle s b e finalize simulate success tx s' b' :
      PostHandle feeCollectorName tmhash_Sum s b finalize simulate success tx = Ok (s', b') →
      inc_step 0 (s, b, e) (s', b', e)
  | st_others k s b e s' b' e' :
      (** the module of the hooks, and all others: they bring what they credit *)
      (∀ n, gauges_ok s → hook_inv n e b → (n + k < 2 ^ 64)%N →
         hooked s b s' b' ∧ hook_inv (n + k) e' b') →
      inc_step k (s, b, e) (s', b', e').

Inductive inc_reach : N → World (HookEnv := HookEnv) → Prop :=
  | ir_init p b e : params_ok (Some p) → hook_inv 0 e b →
      (∀ d, 0 ≤ balance b module_addr d) → inc_reach 0 (with_params inc_empty (Some p), b, e)
  | ir_step n k w w' : inc_reach n w → inc_step k w w' → inc_reach (n + k) w'.

Lemma init_inv p b : params_ok (Some p) → (∀ d, 0 ≤ balance b module_addr d) →
  inc_inv 0 (with_params inc_empty (Some p)) b.
Proof.
  intros Hp Hb. split; [| |intros fp c; cbn; by rewrite lookup_empty|by apply map_Forall_empty..|done|].
  - split; cbn; intros *; by rewrite lookup_empty.
  - unfold gauges_ok. by apply map_Forall_empty.
  - intros d. specialize (Hb d). unfold total_debt, debt, gauge_debt, current_debt, claims, height_debt.
    cbn [with_params inc_empty rewardGauges finalityProviderCurrentRewards btcDelegationRewardsTracker
      btcStakingGauges fpDirectGauges]. rewrite !zsum_empty. pose proof decimals_pos. nia.
Qed.

Lemma add_event_inv n s b h ev : event_ok ev → inc_inv n s b → inc_inv n (AddRewardTrackerEvent s h ev) b.
Proof.
  intros Hev [Hok ? ? He ? ? ? ?]. split; try done; [by destruct Hok; split|].
  cbn. apply map_Forall_insert_2; [|done]. apply Forall_app. split; [|by repeat constructor].
  unfold GetOrNewRewardTrackerEvent. destruct (rewardTrackerEvents s !! h) eqn:Hh; [by eapply He|constructor].
Qed.

Lemma params_validate_ok p : Params_Validate p = true → params_ok (Some p).
Proof.
  unfold Params_Validate, params_ok. destruct p as [[btc|] [fpp|]]; cbn; try done.
  unfold TotalPortion. intros H. exists btc, fpp. split; [done|].
  apply andb_true_iff in H as [H H3]. apply andb_true_iff in H as [H1 H2]. bool_to_Prop. lia.
Qed.

Lemma with_params_inv n s b p : params_ok (Some p) → inc_inv n s b → inc_inv n (with_params s (Some p)) b.
Proof. intros Hp [Hok ? ? ? ? ? ? ?]. split; try done. by destruct Hok; split. Qed.

Lemma refundable_inv n s b v : inc_inv n s b → inc_inv n (with_refundable s v) b.
Proof. intros [Hok ? ? ? ? ? ? ?]. split; try done. by destruct Hok; split. Qed.

Lemma clear_index_inv n s b tx : inc_inv n s b → inc_inv n (CheckTxAndClearIndex tmhash_Sum s tx).2 b.
Proof.
  intros Hinv. unfold CheckTxAndClearIndex. cbn [snd].
  generalize (elements (foldl (λ (hs : gset bytes) msg,
    if HasRefundableMsg s (HashMsg tmhash_Sum msg) then {[HashMsg tmhash_Sum msg]} ∪ hs else hs)
    ∅ (tx_Msgs tx))) as l.
  intros l. revert s Hinv. induction l as [|h l IH]; intros s Hinv; [done|]. cbn [foldl].
  apply IH. by apply refundable_inv.
Qed.

Lemma bank_inv n s b b' : (∀ d, balance b module_addr d ≤ balance b' module_addr d) →
  inc_inv n s b → inc_inv n s b'.
Proof.
  intros Hb [? ? ? ? ? ? ? Hsol]. split; try done. intros d. specialize (Hb d). specialize (Hsol d).
  pose proof decimals_pos. nia.
Qed.

Lemma post_handle_inv n s b fin sim succ tx s' b' : inc_inv n s b →
  PostHandle feeCollectorName tmhash_Sum s b fin sim succ tx = Ok (s', b') →
  inc_inv n s' b' ∧ others_kept b b'.
Proof.
  intros Hinv. unfold PostHandle.
  destruct (negb fin && negb sim); [intros [= <- <-]; split; [done|apply others_kept_refl]|].
  destruct (negb succ); [intros [= <- <-]; split; [done|apply others_kept_refl]|].
  destruct (tx_FeeTx tx) as [fee|]; [|intros [= <- <-]; split; [done|apply others_kept_refl]].
  pose proof (clear_index_inv n s b tx Hinv) as Hc.
  destruct (CheckTxAndClearIndex tmhash_Sum s tx) as [r s1]. cbn [snd] in Hc.
  destruct r; [|intros [= <- <-]; split; [done|apply others_kept_refl]].
  destruct (RefundTx feeCollectorName b fee) as [b1| |] eqn:Hr; [| |done];
    intros [= <- <-]; [|split; [done|apply others_kept_refl]].
  unfold RefundTx in Hr. destruct (IsZero (tx_Fee fee));
    [injection Hr as <-; split; [done|apply others_kept_refl]|].
  apply map_err_Ok in Hr. apply (m2a_spec _ _ fee_addr) in Hr as (Hpos & _ & Hm); [|done].
  split; [|by eapply moved_others_kept; [right|..]].
  eapply bank_inv; [|done]. intros d. rewrite Hm, decide_False by apply module_ne_fee.
  pose proof (coins_amount_nonneg _ d (coins_pos_nonneg _ Hpos)). case_decide; lia.
Qed.

Lemma begin_block_others n s b height s' b' : inc_inv n s b →
  BeginBlocker feeCollectorName s b height = Ok (s', b') → others_kept b b'.
Proof.
  intros Hinv. unfold BeginBlocker. destruct (0 <? height);
    [|intros [= <- <-]; apply others_kept_refl].
  unfold HandleCoinsInFeeCollector. rewrite Hfee. cbn [or_panic mbind res_bind].
  destruct (IsAllPositive (GetAllBalances b fee_addr)); cbn [negb];
    [|intros [= <- <-]; apply others_kept_refl].
  intros (c & _ & H)%bind_Ok. apply bind_Ok in H as (p & _ & H). apply bind_Ok in H as (c' & _ & H).
  unfold accumulateRewards in H. cbv zeta in H. apply bind_Ok in H as (tot & _ & H).
  destruct (IsAllPositive tot); [|injection H as <- <-; apply others_kept_refl].
  destruct (SendCoinsFromModuleToModule b feeCollectorName ModuleName tot) as [b1| |] eqn:Hs; [|done..].
  injection H as <- <-. apply (m2m_spec _ _ _ fee_addr module_addr) in Hs as [Hpos Hm]; [|done..].
  by eapply moved_others_kept; [right|..].
Qed.

Lemma inc_step_inv n k w w' : world_inv n w → inc_step k w w' → (n + k < 2 ^ 64)%N → world_inv (n + k) w'.
Proof.
  intros Hw Hst Hsmall. destruct Hst as
    [s b e height s' b' H|s b e h fp del prev cur sats s' H|s b e h fp del prev cur sats s' H
    |s b e h dc voters s' Hd H|s b e req coins w' H|s b e req s' H|s b e req s' H|s b e msg
    |s b e fin sim succ tx s' b' H|k s b e s' b' e' H]; rewrite ?N.add_0_r.
  - destruct Hw as [Hinv He]. split; [by eapply begin_block_inv|].
    eapply hook_stable; [|done]. by eapply begin_block_others.
  - destruct Hw as [Hinv He]. injection H as <-. split; [|done]. apply add_event_inv; [cbn; lia|done].
  - destruct Hw as [Hinv He]. injection H as <-. split; [|done]. apply add_event_inv; [cbn; lia|done].
  - destruct Hw as [Hinv He]. split; [by eapply reward_step_inv|].
    eapply hook_mono; [|done]. lia.
  - by eapply withdraw_inv.
  - destruct Hw as [Hinv He]. split; [|done]. unfold UpdateParams, SetParams in H. inv_ok.
    apply with_params_inv; [|done]. by apply params_validate_ok.
  - destruct Hw as [Hinv He]. split; [|done]. unfold SetWithdrawAddress in H. inv_ok.
    destruct Hinv as [Hok ? ? ? ? ? ? ?]. split; try done. by destruct Hok; split.
  - destruct Hw as [Hinv He]. split; [|done]. by apply refundable_inv.
  - destruct Hw as [Hinv He]. eapply post_handle_inv in H as [Hinv' Ho]; [|done].
    split; [done|]. by eapply hook_stable.
  - destruct Hw as [Hinv He]. destruct (H n) as [Hh He']; [apply Hinv|done..|].
    split; [|done]. apply (inc_inv_weaken n); [lia|]. by eapply hooked_inv.
Qed.

Lemma inc_reach_inv n w : inc_reach n w → (n < 2 ^ 64)%N → world_inv n w.
Proof.
  induction 1 as [p b e Hp He Hb|n k w w' _ IH Hst]; intros Hsmall.
  - split; [by apply init_inv|done].
  - apply (inc_step_inv n k w); [apply IH; lia|done..].
Qed.

(** ** Theorems *)

(** C5: The account of the reward module covers everything it owes: in every reachable
    state, for every denomination, the coins of the gauges still to be rewarded, of the
    reward gauges, of the pools, and the claims of all delegations together are at most
    the balance of its account. Fewer than [2 ^ 64] reward periods have been opened and
    less than [2 ^ 63] satoshis are bonded.  Between the steps of the module others may
    do anything that keeps their own invariant, changes only its gauges and brings the
    coins it credits ([st_others]); in particular they never debit its account. *)
Theorem incentive_solvent n s b e d : inc_reach n (s, b, e) → (n < 2 ^ 64)%N →
  (height_debt s d + gauge_debt s d + current_debt s d) * DecimalRewards +
  claims s d (btcDelegationRewardsTracker s) ≤ balance b module_addr d * DecimalRewards.
Proof.
  intros Hr Hn. apply inc_reach_inv in Hr as [Hinv _]; [|done].
  pose proof (ii_solvent _ _ _ Hinv d). unfold total_debt, debt in *. lia.
Qed.

(** In every reachable state the stake on which a provider's rewards are divided
    is the sum of the stakes of its delegations, and every delegation starts at
    a period whose cumulative rewards are recorded. *)
Theorem pool_stake_is_sum n s b e fp c : inc_reach n (s, b, e) → (n < 2 ^ 64)%N →
  finalityProviderCurrentRewards s !! fp = Some c →
  cr_TotalActiveSat c = stake_of (btcDelegationRewardsTracker s) fp ∧
  ∀ del t, btcDelegationRewardsTracker s !! (fp, del) = Some t →
    0 ≤ bt_TotalActiveSat t ≤ cr_TotalActiveSat c ∧
    is_Some (finalityProviderHistoricalRewards s !! (fp, StartPeriodCumulativeReward t)).
Proof.
  intros Hr Hn Hc. apply inc_reach_inv in Hr as [Hinv _]; [|done].
  pose proof (ii_pools _ _ _ Hinv) as Hok. destruct (po_current _ Hok fp c Hc) as (_ & _ & Hst).
  split; [done|]. intros del t Ht. destruct (po_tracker _ Hok fp del t Ht) as (Hs & c' & Hc' & Hlt).
  assert (c' = c) as -> by congruence. split.
  - split; [done|]. rewrite Hst. by eapply stake_member.
  - destruct (po_recorded _ Hok fp c _ Hc Hlt) as (h & Hh & _). by eexists.
Qed.

Lemma positive_amount_nonempty a d : coins_pos a → 0 < amount_of a d → IsAllPositive a = true.
Proof.
  intros Ha Hd. destruct (IsAllPositive a) eqn:Hp; [done|].
  apply IsAllPositive_false in Hp as ->; [|done]. rewrite amount_of_nil in Hd. lia.
Qed.

Lemma gauge_withdrawable rg : gauge_ok rg →
  ∃ wc, GetWithdrawableCoins rg = Some wc ∧ coins_pos wc ∧
    ∀ d, amount_of wc d = amount_of (rg_Coins rg) d - amount_of (WithdrawnCoins rg) d.
Proof.
  intros (Hc & Hw & Hle). unfold GetWithdrawableCoins.
  destruct (sub_total (rg_Coins rg) (WithdrawnCoins rg)) as [wc Hwc];
    [by apply coins_pos_nonneg..|done|].
  exists wc. split; [done|]. apply sub_spec in Hwc; [done|by apply coins_pos_nonneg..].
Qed.

(** What a gauge still holds is covered by the account of the module. *)
Lemma gauge_covered n s b t addr rg d : inc_inv n s b → rewardGauges s !! (t, addr) = Some rg →
  amount_of (rg_Coins rg) d - amount_of (WithdrawnCoins rg) d ≤ balance b module_addr d.
Proof.
  intros Hinv Hrg. pose proof (ii_solvent _ _ _ Hinv d) as Hsol. pose proof decimals_pos.
  assert (0 ≤ claims s d (btcDelegationRewardsTracker s)).
  { apply zsum_nonneg. intros k t' Ht'. apply claim_nonneg; [apply Hinv|done]. }
  assert (0 ≤ current_debt s d).
  { apply zsum_nonneg. intros fp c Hcc. apply (po_current _ (ii_pools _ _ _ Hinv)) in Hcc as [? _].
    by apply coins_amount_nonneg, coins_pos_nonneg. }
  assert (0 ≤ height_debt s d).
  { apply Z.add_nonneg_nonneg; apply zsum_nonneg; intros h g Hh;
      apply coins_amount_nonneg, coins_pos_nonneg;
      [by apply (ii_btc_gauges _ _ _ Hinv h)|by apply (ii_fp_gauges _ _ _ Hinv h)]. }
  assert (amount_of (rg_Coins rg) d - amount_of (WithdrawnCoins rg) d ≤ gauge_debt s d) as Hm.
  { apply (zsum_member (λ _ rg, amount_of (rg_Coins rg) d - amount_of (WithdrawnCoins rg) d)
      (rewardGauges s) (t, addr) rg); [|done]. intros k rg' Hk.
    destruct (ii_gauges _ _ _ Hinv _ _ Hk) as (_ & _ & Hle'). specialize (Hle' d). lia. }
  unfold total_debt, debt in Hsol. nia.
Qed.

(** A gauge of which everything has been withdrawn. *)
Lemma withdrawn_gauge_empty s b t addr rg : coins_pos (rg_Coins rg) →
  rewardGauges s !! (t, addr) = Some rg → WithdrawnCoins rg = rg_Coins rg →
  withdrawReward s b t addr = Err ErrNoWithdrawableCoins.
Proof.
  intros Hc Hrg Heq. destruct (gauge_withdrawable rg) as (w0 & Hw0 & Hw0p & Hw0d).
  { unfold gauge_ok. by rewrite Heq. }
  unfold withdrawReward, GetRewardGauge. rewrite Hrg, Hw0. cbn [or_panic mbind res_bind].
  destruct (IsAllPositive w0) eqn:Hp0; [|done]. exfalso.
  rewrite IsAllPositive_spec in Hp0. apply andb_true_iff in Hp0 as [Hne _].
  apply negb_true_iff, bool_decide_eq_false in Hne. destruct w0 as [|c0 w0]; [done|].
  destruct (coins_pos_nonneg _ Hw0p) as [_ Hnn].
  pose proof (amount_of_bound _ c0 Hnn ltac:(by left)) as Hb0. rewrite Hw0d, Heq in Hb0.
  destruct Hw0p as [_ Hw0p]. apply Forall_cons in Hw0p as [Hc0 _]. lia.
Qed.

(** C30: A gauge can always be withdrawn: in every reachable state, if a gauge holds
    something that has not been withdrawn and the recipient may receive coins, the
    withdrawal succeeds, pays the recipient exactly what has not been withdrawn, and a
    second withdrawal finds nothing.  This is the keeper's [withdrawReward]; the message
    first collects the rewards of delegations and runs the hook of costaking, which may
    fail.  Other modules are as in [st_others], with fewer than [2 ^ 64] periods. *)
Theorem withdraw_succeeds n s b e t addr rg d0 : inc_reach n (s, b, e) → (n < 2 ^ 64)%N →
  rewardGauges s !! (t, addr) = Some rg →
  amount_of (WithdrawnCoins rg) d0 < amount_of (rg_Coins rg) d0 →
  BlockedAddr (GetWithdrawAddr s addr) = false →
  ∃ coins s' b', withdrawReward s b t addr = Ok (coins, s', b') ∧
    (∀ d, amount_of coins d = amount_of (rg_Coins rg) d - amount_of (WithdrawnCoins rg) d) ∧
    moved b b' module_addr (GetWithdrawAddr s addr) coins ∧
    withdrawReward s' b' t addr = Err ErrNoWithdrawableCoins.
Proof.
  intros Hr Hn Hrg Hd0 Hbl. apply inc_reach_inv in Hr as [Hinv _]; [|done].
  pose proof (ii_gauges _ _ _ Hinv _ _ Hrg) as Hgo. cbv beta in Hgo.
  destruct (gauge_withdrawable rg Hgo) as (wc & Hwc & Hwcp & Hwcd). destruct Hgo as (Hc & Hw & Hle).
  assert (IsAllPositive wc = true) as Hpos by (apply (positive_amount_nonempty _ d0); [done|]; rewrite Hwcd; lia).
  assert (∃ b', SendCoinsFromModuleToAccount b ModuleName (GetWithdrawAddr s addr) wc = Ok b') as [b' Hb'].
  { apply (m2a_total _ _ module_addr); try done. intros d. rewrite Hwcd. by eapply gauge_covered. }
  set (rg' := mkRewardGauge (rg_Coins rg) (rg_Coins rg)).
  assert (withdrawReward s b t addr = Ok (wc, SetRewardGauge s t addr rg', b')) as Hok.
  { unfold withdrawReward, GetRewardGauge. rewrite Hrg, Hwc. cbn [or_panic mbind res_bind].
    rewrite Hpos. cbn [negb]. rewrite Hb'. cbn [map_err mbind res_bind].
    unfold SetFullyWithdrawn. by rewrite newcoins_spec. }
  exists wc, (SetRewardGauge s t addr rg'), b'. split; [done|]. split; [done|].
  apply (withdraw_spec n) in Hok as (Hinv' & _ & Hm & _); [|done]. split; [done|].
  apply (withdrawn_gauge_empty _ _ _ _ rg'); [done| |done].
  cbn [rewardGauges SetRewardGauge with_gauges]. by rewrite lookup_insert_eq.
Qed.

(** Dividing first with twenty decimals and then again loses at most one unit. *)
Lemma scaled_share R T sat D : 0 < T → 0 < D → 0 ≤ R → 0 ≤ sat ≤ D →
  R * sat / T - 1 ≤ sat * (R * D / T) / D ≤ R * sat / T.
Proof.
  intros HT HD HR Hs. pose proof (Z.div_mod (R * D) T ltac:(lia)).
  pose proof (Z.mod_pos_bound (R * D) T HT). set (qq := R * D / T) in *.
  split; apply Z.div_le_lower_bound; try done.
  - pose proof (Z.mul_div_le (R * sat) T HT). set (f := R * sat / T) in *. clearbody f qq. nia.
  - pose proof (Z.mul_div_le (sat * qq) D HD). set (g := sat * qq / D) in *. clearbody g qq. nia.
Qed.

(** The division of a period is fair: a delegation that was there during the whole
    period is paid its share of the pool's rewards in proportion to its stake,
    up to one unit of rounding, and never more. *)
Theorem period_share_fair s fp del c t ended s' r d :
  pools_ok s → finalityProviderCurrentRewards s !! fp = Some c → (Period c + 1 < 2 ^ 64)%N →
  btcDelegationRewardsTracker s !! (fp, del) = Some t →
  StartPeriodCumulativeReward t = (Period c - 1)%N →
  0 < cr_TotalActiveSat c → bt_TotalActiveSat t ≤ DecimalRewards →
  IncrementFinalityProviderPeriod s fp = Ok (ended, s') →
  CalculateBTCDelegationRewards s' fp del ended = Ok r →
  let fair := amount_of (CurrentRewards c) d * bt_TotalActiveSat t / cr_TotalActiveSat c in
  fair - 1 ≤ amount_of r d ≤ fair.
Proof.
  intros Hok Hc Hsmall Ht Hstart HT Hsat Hinc Hcalc fair.
  destruct (po_current _ Hok fp c Hc) as (Hpos & Hp & Hst).
  apply increment_opened in Hinc as Ho; [|done|by intros c' Hc'; simplify_eq].
  destruct (op_current _ _ _ _ Ho) as (c1 & Hc1 & _ & [(Hn & _)|(c0 & Hc0 & -> & Hp1)]); [congruence|].
  assert (c0 = c) as -> by congruence.
  replace (Period c) with (Period c1 - 1)%N in Hcalc by lia.
  apply (calculate_spec s' fp del t c1) in Hcalc as [_ Hr]; [|apply Ho|by rewrite (op_trackers _ _ _ _ Ho)|done].
  rewrite Hr. unfold IncrementFinalityProviderPeriod in Hinc. rewrite Hc in Hinc.
  apply bind_Ok in Hinc as (q & Hq & Hinc). apply inc_or_panic_Ok in Hq.
  rewrite u64_pred in Hinc by done. unfold GetFinalityProviderHistoricalRewards in Hinc.
  apply bind_Ok in Hinc as (h0 & Hh0 & Hinc). apply of_option_Ok in Hh0.
  apply bind_Ok in Hinc as (nw & Hnw & Hinc). apply inc_or_panic_Ok in Hnw. cbv zeta in Hinc.
  rewrite u64_add_small in Hinc by done. injection Hinc as <-.
  destruct (rewards_per_sat_spec c q Hpos ltac:(lia) Hq) as [Hqn Hqd].
  destruct (po_recorded _ Hok fp c (Period c - 1) Hc ltac:(lia)) as (h & Hh & Hhp).
  assert (h = h0) as -> by congruence.
  apply add_spec in Hnw as [_ Hsum]; [|by apply coins_pos_nonneg|done].
  fold (after_period s fp c (NewFinalityProviderHistoricalRewards nw)).
  unfold claim. cbn [fst]. rewrite last_cum_after_period, decide_True by done.
  rewrite cum_after_period, decide_False by (intros [_ ?]; lia).
  cbn [CumulativeRewardsPerSat NewFinalityProviderHistoricalRewards]. rewrite Hsum, Hstart.
  unfold cum. rewrite Hh. cbn [from_option].
  replace (amount_of (CumulativeRewardsPerSat h0) d + amount_of q d - amount_of (CumulativeRewardsPerSat h0) d)
    with (amount_of q d) by lia.
  rewrite Hqd, decide_False by lia. unfold fair.
  pose proof (coins_amount_nonneg _ d (coins_pos_nonneg _ Hpos)) as HR.
  destruct (po_tracker _ Hok fp del t Ht) as [Hs0 _]. pose proof decimals_pos as HD.
  by apply scaled_share.
Qed.
End state.
End IncentiveState.
