(* ===== verification/IncentiveGenesis.v ===== *)
(** Genesis of x/incentive: [types/genesis.go], [keeper/genesis.go], and the [Validate]
    methods of [types/incentive.go] and [types/rewards.go].

    The entries of a genesis state have their pointers as options, and addresses as
    strings.  Amounts that are nil and stakeholder types outside the enumeration, which
    validation refuses, cannot be written down.  Every refusal is the one error
    [ErrInvalidGenesis].

    The theorems: a state in which a finality provider has a pool cannot be exported,
    because the first period of a pool records no coins and the validation of the export
    refuses that; and a genesis state that is valid, of accounts that exist, is
    imported without an error or a panic, and every delegation then has the records
    from which its rewards are computed. *)
From stdpp Require Import base numbers list sorting gmap strings.
From S2P Require Import Prelude KVStore Bytes Hex BtcStaking Finality FinalityPower SdkCoins ZSum GenesisEntries Incentive IncentiveSpec IncentiveState.

Module IncentiveGenesis.
Import BtcStaking GenesisEntries Incentive.

(** ** Data: [types/genesis.pb.go] *)

Record RewardGaugeEntry := mkRewardGaugeEntry {
  rge_StakeholderType : StakeholderType;
  rge_Address : string;
  rge_RewardGauge : option RewardGauge }.
Record WithdrawAddressEntry := mkWithdrawAddressEntry {
  wa_DelegatorAddress : string;
  wa_WithdrawAddress : string }.
Record FinalityProviderHistoricalRewardsEntry := mkFPHistoricalEntry {
  fph_Address : string;
  fph_Period : N;
  fph_Rewards : option FinalityProviderHistoricalRewards }.
Record BTCDelegationRewardsTrackerEntry := mkTrackerEntry {
  te_FinalityProviderAddress : string;
  te_DelegatorAddress : string;
  te_Tracker : option BTCDelegationRewardsTracker }.
Record BTCDelegatorToFpEntry := mkDelegatorToFpEntry {
  df_DelegatorAddress : string;
  df_FinalityProviderAddress : string }.

(** Gauges and events are pairs of their height and the pointer, current rewards of the
    address and the pointer. *)
Record GenesisState := mkGenesisState {
  gs_Params : Params;
  gs_BtcStakingGauges : list (N * option Gauge);
  gs_RewardGauges : list RewardGaugeEntry;
  gs_WithdrawAddresses : list WithdrawAddressEntry;
  gs_RefundableMsgHashes : list string;
  gs_FinalityProvidersCurrentRewards : list (string * option FinalityProviderCurrentRewards);
  gs_FinalityProvidersHistoricalRewards : list FinalityProviderHistoricalRewardsEntry;
  gs_BtcDelegationRewardsTrackers : list BTCDelegationRewardsTrackerEntry;
  gs_BtcDelegatorsToFps : list BTCDelegatorToFpEntry;
  gs_EventRewardTracker : list (N * option (list EventPowerUpdate));
  gs_LastProcessedHeightEventRewardTracker : N;
  gs_FpDirectGauges : list (N * option Gauge) }.

Definition DefaultGenesis : GenesisState :=
  mkGenesisState DefaultParams [] [] [] [] [] [] [] [] [] 0 [].

(** [Coins.IsAnyGT] and [Coins.AmountOf], which panics on a malformed denomination. *)
Class CoinsCompare := {
  IsAnyGT : Coins → Coins → bool;
  AmountOf : Coins → string → option Z;
}.

Section genesis.
Context {SC : SdkCoins} {CC : CoinsCompare} {BK : BankKeeper} {B32 : Bech32}.
Context (AddrString : list N → string).
Implicit Types (s : IncState) (fp del addr : list N).

(** ** Validation *)

Definition invalid (b : bool) : res IncErr unit := require b ErrInvalidGenesis.

Definition validateAddrStr (addr : string) : res IncErr unit :=
  invalid (negb (bool_decide (addr = ""%string)));;
  of_option ErrInvalidGenesis (AccAddressFromBech32 addr);;
  mret ().

Definition Gauge_Validate (g : Gauge) : res IncErr unit :=
  invalid (IsValid (g_Coins g));;
  invalid (negb (bool_decide (g_Coins g = []))).

Fixpoint withdrawn_denoms (coins : Coins) (withdrawn : Coins) : res IncErr unit :=
  match withdrawn with
  | [] => mret ()
  | wc :: withdrawn =>
      amt ← or_panic (AmountOf coins (coin_Denom wc));
      invalid (0 <? amt)%Z;;
      withdrawn_denoms coins withdrawn
  end.

Definition RewardGauge_Validate (rg : RewardGauge) : res IncErr unit :=
  invalid (IsValid (rg_Coins rg));;
  invalid (IsValid (WithdrawnCoins rg));;
  invalid (negb (IsAnyGT (WithdrawnCoins rg) (rg_Coins rg)));;
  invalid (negb (bool_decide (rg_Coins rg = []) && bool_decide (WithdrawnCoins rg = [])));;
  withdrawn_denoms (rg_Coins rg) (WithdrawnCoins rg).

Definition CurrentRewards_Validate (f : FinalityProviderCurrentRewards) : res IncErr unit :=
  invalid (IsValid (CurrentRewards f));;
  invalid (negb (bool_decide (CurrentRewards f = [])));;
  invalid (negb (cr_TotalActiveSat f <? 0)%Z);;
  invalid (negb (Period f =? 0)%N).

Definition HistoricalRewards_Validate (hr : FinalityProviderHistoricalRewards) : res IncErr unit :=
  invalid (IsValid (CumulativeRewardsPerSat hr));;
  invalid (negb (bool_decide (CumulativeRewardsPerSat hr = []))).

Definition Tracker_Validate (t : BTCDelegationRewardsTracker) : res IncErr unit :=
  invalid (negb (bt_TotalActiveSat t <? 0)%Z).

Definition event_Validate (e : EventPowerUpdate) : res IncErr unit :=
  match e with
  | BtcActivated fpAddr btcDelAddr totalSat | BtcUnbonded fpAddr btcDelAddr totalSat =>
      validateAddrStr fpAddr;;
      validateAddrStr btcDelAddr;;
      invalid (0 <? totalSat)%Z
  end.

Fixpoint Events_Validate (evs : list EventPowerUpdate) : res IncErr unit :=
  match evs with
  | [] => mret ()
  | e :: evs => event_Validate e;; Events_Validate evs
  end.

Definition GaugeEntry_Validate (e : N * option Gauge) : res IncErr unit :=
  g ← of_option ErrInvalidGenesis e.2;
  Gauge_Validate g.

Definition RewardGaugeEntry_Validate (e : RewardGaugeEntry) : res IncErr unit :=
  validateAddrStr (rge_Address e);;
  rg ← of_option ErrInvalidGenesis (rge_RewardGauge e);
  RewardGauge_Validate rg.

Definition WithdrawAddressEntry_Validate (e : WithdrawAddressEntry) : res IncErr unit :=
  validateAddrStr (wa_DelegatorAddress e);;
  validateAddrStr (wa_WithdrawAddress e).

Definition FPCurrentEntry_Validate (e : string * option FinalityProviderCurrentRewards)
  : res IncErr unit :=
  validateAddrStr e.1;;
  r ← of_option ErrInvalidGenesis e.2;
  CurrentRewards_Validate r.

Definition FPHistoricalEntry_Validate (e : FinalityProviderHistoricalRewardsEntry) : res IncErr unit :=
  validateAddrStr (fph_Address e);;
  r ← of_option ErrInvalidGenesis (fph_Rewards e);
  HistoricalRewards_Validate r.

Definition TrackerEntry_Validate (e : BTCDelegationRewardsTrackerEntry) : res IncErr unit :=
  validateAddrStr (te_FinalityProviderAddress e);;
  validateAddrStr (te_DelegatorAddress e);;
  t ← of_option ErrInvalidGenesis (te_Tracker e);
  Tracker_Validate t.

Definition DelegatorToFpEntry_Validate (e : BTCDelegatorToFpEntry) : res IncErr unit :=
  validateAddrStr (df_FinalityProviderAddress e);;
  validateAddrStr (df_DelegatorAddress e).

(** The method is called on the pointer, which it dereferences. *)
Definition EventsEntry_Validate (e : N * option (list EventPowerUpdate)) : res IncErr unit :=
  evs ← or_panic e.2;
  Events_Validate evs.

(** *** The lists *)

Definition validateEvtPowerUpdateEntries := ValidateEntries ErrInvalidGenesis EventsEntry_Validate fst.
Definition validateWithdrawAddresses :=
  ValidateEntries ErrInvalidGenesis WithdrawAddressEntry_Validate wa_DelegatorAddress.
Definition validateBTCStakingGauges := ValidateEntries ErrInvalidGenesis GaugeEntry_Validate fst.
Definition validateFpDirectGauges := ValidateEntries ErrInvalidGenesis GaugeEntry_Validate fst.
Definition validateFPCurrentRewards := ValidateEntries ErrInvalidGenesis FPCurrentEntry_Validate fst.

(** The nested maps of the keys seen are sets of pairs. *)
Definition validateRewardGauges :=
  ValidateEntries ErrInvalidGenesis RewardGaugeEntry_Validate
    (λ e, (rge_Address e, rge_StakeholderType e)).

(** [tmhash.Size] *)
Definition hash_size : nat := 32.

Fixpoint validateMsgHashes_loop (hashMap : list string) (hashes : list string) : res IncErr unit :=
  match hashes with
  | [] => mret ()
  | hash :: hashes =>
      invalid (negb (bool_decide (hash = ""%string)));;
      bz ← of_option ErrInvalidGenesis (hex_DecodeString hash);
      invalid (bool_decide (length bz = hash_size));;
      invalid (negb (bool_decide (hash ∈ hashMap)));;
      validateMsgHashes_loop (hash :: hashMap) hashes
  end.
Definition validateMsgHashes (hashes : list string) : res IncErr unit :=
  validateMsgHashes_loop [] hashes.

(** The current period of every provider; a missing pointer panics. *)
Fixpoint fpCurrentPeriods (entries : list (string * option FinalityProviderCurrentRewards))
    (m : gmap string N) : res IncErr (gmap string N) :=
  match entries with
  | [] => mret m
  | e :: entries => r ← or_panic e.2; fpCurrentPeriods entries (<[e.1 := Period r]> m)
  end.

Definition periods_upto (n : N) : list N := N.of_nat <$> seq 0 (N.to_nat n).

(** Every period below the current one is recorded, and no other. *)
Definition validateFPHistoricalRewards (entries : list FinalityProviderHistoricalRewardsEntry)
    (currentPeriods : gmap string N) : res IncErr unit :=
  ValidateEntries ErrInvalidGenesis FPHistoricalEntry_Validate (λ e, (fph_Address e, fph_Period e)) entries;;
  let addressPeriodMap := (λ e, (fph_Address e, fph_Period e)) <$> entries in
  invalid (forallb (λ c : string * N,
      forallb (λ p, bool_decide ((c.1, p) ∈ addressPeriodMap)) (periods_upto c.2))
    (map_to_list currentPeriods));;
  invalid (forallb (λ a : string * N, match currentPeriods !! a.1 with
                      | None => false
                      | Some currentPeriod => negb (currentPeriod <=? a.2)%N
                      end) addressPeriodMap).

Fixpoint trackers_loop (currentPeriods : gmap string N) (addressAddressMap : gset (string * string))
    (entries : list BTCDelegationRewardsTrackerEntry) : res IncErr (gset (string * string)) :=
  match entries with
  | [] => mret addressAddressMap
  | e :: entries =>
      let key := (te_FinalityProviderAddress e, te_DelegatorAddress e) in
      invalid (negb (bool_decide (key ∈ addressAddressMap)));;
      TrackerEntry_Validate e;;
      currentPeriod ← of_option ErrInvalidGenesis (currentPeriods !! te_FinalityProviderAddress e);
      t ← or_panic (te_Tracker e);
      invalid (negb (currentPeriod <=? StartPeriodCumulativeReward t)%N);;
      trackers_loop currentPeriods ({[key]} ∪ addressAddressMap) entries
  end.
Definition validateBTCDelegationsRewardsTrackers (entries : list BTCDelegationRewardsTrackerEntry)
    (currentPeriods : gmap string N) : res IncErr (gset (string * string)) :=
  trackers_loop currentPeriods ∅ entries.

Fixpoint delegators_loop (addressAddressMap : gset (string * string))
    (entries : list BTCDelegatorToFpEntry) : res IncErr (gset (string * string)) :=
  match entries with
  | [] => mret addressAddressMap
  | e :: entries =>
      let key := (df_FinalityProviderAddress e, df_DelegatorAddress e) in
      invalid (negb (bool_decide (key ∈ addressAddressMap)));;
      DelegatorToFpEntry_Validate e;;
      delegators_loop ({[key]} ∪ addressAddressMap) entries
  end.
Definition validateBTCDelegatorsToFps (entries : list BTCDelegatorToFpEntry)
  : res IncErr (gset (string * string)) :=
  delegators_loop ∅ entries.

Definition GenesisState_Validate (gs : GenesisState) : res IncErr unit :=
  validateBTCStakingGauges (gs_BtcStakingGauges gs);;
  validateRewardGauges (gs_RewardGauges gs);;
  validateWithdrawAddresses (gs_WithdrawAddresses gs);;
  validateMsgHashes (gs_RefundableMsgHashes gs);;
  validateFPCurrentRewards (gs_FinalityProvidersCurrentRewards gs);;
  currentPeriods ← fpCurrentPeriods (gs_FinalityProvidersCurrentRewards gs) ∅;
  validateFPHistoricalRewards (gs_FinalityProvidersHistoricalRewards gs) currentPeriods;;
  validateEvtPowerUpdateEntries (gs_EventRewardTracker gs);;
  btcRewardsAddrMap ← validateBTCDelegationsRewardsTrackers (gs_BtcDelegationRewardsTrackers gs) currentPeriods;
  addrMap ← validateBTCDelegatorsToFps (gs_BtcDelegatorsToFps gs);
  invalid (bool_decide (btcRewardsAddrMap = addrMap));;
  validateFpDirectGauges (gs_FpDirectGauges gs);;
  require (Params_Validate (gs_Params gs)) ErrInvalidParams.

(** ** Import *)

(** [accountKeeper.GetAccount] is not nil. *)
Context (has_account : list N → bool) (height : N).

(** [sdk.MustAccAddressFromBech32] *)
Definition must_addr (a : string) : res IncErr (list N) := or_panic (AccAddressFromBech32 a).
(** The address of an account that exists. *)
Definition account_addr (a : string) : res IncErr (list N) :=
  addr ← must_addr a;
  invalid (has_account addr);;
  mret addr.

(** A nil gauge is encoded as an empty one. *)
Definition import_gauge s (e : N * option Gauge) : res IncErr IncState :=
  invalid (negb (height <? e.1)%N);;
  mret (SetBTCStakingGauge s e.1 (default (NewGauge []) e.2)).
Definition import_fp_gauge s (e : N * option Gauge) : res IncErr IncState :=
  mret (SetFPDirectGauge s e.1 (default (NewGauge []) e.2)).
Definition import_reward_gauge s (e : RewardGaugeEntry) : res IncErr IncState :=
  accAddr ← account_addr (rge_Address e);
  mret (SetRewardGauge s (rge_StakeholderType e) accAddr (default (NewRewardGauge []) (rge_RewardGauge e))).
Definition import_withdraw s (e : WithdrawAddressEntry) : res IncErr IncState :=
  delAddr ← account_addr (wa_DelegatorAddress e);
  withdrawAddr ← must_addr (wa_WithdrawAddress e);
  mret (SetWithdrawAddr s delAddr withdrawAddr).
Definition import_hash s (entry : string) : res IncErr IncState :=
  bz ← of_option ErrInvalidGenesis (hex_DecodeString entry);
  mret (with_refundable s ({[bz]} ∪ RefundableMsgKeySet s)).
Definition import_current s (e : string * option FinalityProviderCurrentRewards) : res IncErr IncState :=
  fpAddr ← account_addr e.1;
  r ← or_panic e.2;
  mret (SetFinalityProviderCurrentRewards s fpAddr r).
Definition import_historical s (e : FinalityProviderHistoricalRewardsEntry) : res IncErr IncState :=
  fpAddr ← account_addr (fph_Address e);
  r ← or_panic (fph_Rewards e);
  mret (setFinalityProviderHistoricalRewards s fpAddr (fph_Period e) r).
Definition import_tracker s (e : BTCDelegationRewardsTrackerEntry) : res IncErr IncState :=
  fpAddr ← account_addr (te_FinalityProviderAddress e);
  delAddr ← account_addr (te_DelegatorAddress e);
  t ← or_panic (te_Tracker e);
  mret (setBTCDelegationRewardsTracker s fpAddr delAddr t).
Definition import_events s (e : N * option (list EventPowerUpdate)) : res IncErr IncState :=
  evs ← or_panic e.2;
  mret (SetRewardTrackerEvent s e.1 evs).

Definition InitGenesis s (gs : GenesisState) : res IncErr IncState :=
  s ← fold_res import_gauge s (gs_BtcStakingGauges gs);
  s ← fold_res import_fp_gauge s (gs_FpDirectGauges gs);
  s ← fold_res import_reward_gauge s (gs_RewardGauges gs);
  s ← fold_res import_withdraw s (gs_WithdrawAddresses gs);
  s ← fold_res import_hash s (gs_RefundableMsgHashes gs);
  s ← fold_res import_current s (gs_FinalityProvidersCurrentRewards gs);
  s ← fold_res import_historical s (gs_FinalityProvidersHistoricalRewards gs);
  s ← fold_res import_tracker s (gs_BtcDelegationRewardsTrackers gs);
  s ← fold_res import_events s (gs_EventRewardTracker gs);
  invalid (negb (height <? gs_LastProcessedHeightEventRewardTracker gs)%N);;
  let s := SetRewardTrackerEventLastProcessedHeight s (gs_LastProcessedHeightEventRewardTracker gs) in
  SetParams s (gs_Params gs).

(** ** Export *)

(** Addresses in front of other parts of a key have their length before them. *)
Definition len_key (a : list N) : list N := N.of_nat (length a) :: a.
Definition asc {A} (key : A → list N) (l : list A) : list A :=
  merge_sort (λ x y, key_le (key x) (key y)) l.

Definition btcStakingGauges_entries s : res IncErr (list (N * option Gauge)) :=
  validate_all GaugeEntry_Validate ((λ e, (e.1, Some e.2)) <$> kv_asc (btcStakingGauges s)).
Definition fpDirectGauges_entries s : res IncErr (list (N * option Gauge)) :=
  validate_all GaugeEntry_Validate ((λ e, (e.1, Some e.2)) <$> kv_asc (fpDirectGauges s)).

Definition gauges_of_type s (st : StakeholderType) : list RewardGaugeEntry :=
  (λ e, mkRewardGaugeEntry st (AddrString e.1) (Some e.2)) <$>
    asc fst (omap (λ e, if bool_decide (e.1.1 = st) then Some (e.1.2, e.2) else None)
               (map_to_list (rewardGauges s))).
Definition rewardGauges_entries s : res IncErr (list RewardGaugeEntry) :=
  validate_all RewardGaugeEntry_Validate (mjoin (gauges_of_type s <$> GetAllStakeholderTypes)).

Definition withdrawAddresses s : list WithdrawAddressEntry :=
  (λ e, mkWithdrawAddressEntry (AddrString e.1) (AddrString e.2)) <$>
    asc (λ e, len_key e.1) (map_to_list (withdrawAddrs s)).

Definition refundableMsgHashes s : list string :=
  hex_EncodeToString <$> merge_sort bytes_le (elements (RefundableMsgKeySet s)).

Definition finalityProvidersCurrentRewards s
  : res IncErr (list (string * option FinalityProviderCurrentRewards)) :=
  validate_all FPCurrentEntry_Validate
    ((λ e, (AddrString e.1, Some e.2)) <$> asc fst (map_to_list (finalityProviderCurrentRewards s))).

Definition finalityProvidersHistoricalRewards s
  : res IncErr (list FinalityProviderHistoricalRewardsEntry) :=
  validate_all FPHistoricalEntry_Validate
    ((λ e, mkFPHistoricalEntry (AddrString e.1.1) e.1.2 (Some e.2)) <$>
      asc (λ e, len_key e.1.1 ++ [e.1.2]) (map_to_list (finalityProviderHistoricalRewards s))).

Definition btcDelegationRewardsTrackers s : res IncErr (list BTCDelegationRewardsTrackerEntry) :=
  validate_all TrackerEntry_Validate
    ((λ e, mkTrackerEntry (AddrString e.1.1) (AddrString e.1.2) (Some e.2)) <$>
      asc (λ e, len_key e.1.1 ++ e.1.2) (map_to_list (btcDelegationRewardsTracker s))).

(** The keys of the index are cut after 20 bytes. *)
Definition addrLen : nat := 20.
Fixpoint delegators_to_fps (keys : list (list N)) : res IncErr (list BTCDelegatorToFpEntry) :=
  match keys with
  | [] => mret []
  | key :: keys =>
      invalid (negb (length key <? addrLen * 2)%nat);;
      let entry := mkDelegatorToFpEntry (AddrString (take addrLen key)) (AddrString (drop addrLen key)) in
      DelegatorToFpEntry_Validate entry;;
      rest ← delegators_to_fps keys;
      mret (entry :: rest)
  end.
Definition btcDelegatorsToFps s : res IncErr (list BTCDelegatorToFpEntry) :=
  delegators_to_fps (merge_sort key_le (elements (btcDelegatorToFp s))).

Definition rewardTrackerEventsEntry s : res IncErr (list (N * option (list EventPowerUpdate))) :=
  validate_all EventsEntry_Validate ((λ e, (e.1, Some e.2)) <$> kv_asc (rewardTrackerEvents s)).

Definition ExportGenesis s : res IncErr GenesisState :=
  bsg ← btcStakingGauges_entries s;
  rg ← rewardGauges_entries s;
  let wa := withdrawAddresses s in
  let rmh := refundableMsgHashes s in
  fpCurrentRwd ← finalityProvidersCurrentRewards s;
  fpHistRwd ← finalityProvidersHistoricalRewards s;
  bdrt ← btcDelegationRewardsTrackers s;
  d2fp ← btcDelegatorsToFps s;
  evtsRwdTracker ← rewardTrackerEventsEntry s;
  let last := GetRewardTrackerEventLastProcessedHeight s in
  direct ← fpDirectGauges_entries s;
  mret (mkGenesisState (GetParams s) bsg rg wa rmh fpCurrentRwd fpHistRwd bdrt d2fp evtsRwdTracker last direct).

(** ** Folds *)

Lemma foldl_keeps {S T A} (π : S → T) (g : S → A → S) (l : list A) z :
  (∀ z x, π (g z x) = π z) → π (foldl g z l) = π z.
Proof. intros Hg. revert z. induction l as [|x l IH]; intros z; [done|]. cbn. by rewrite IH. Qed.

Lemma foldl_proj {S T A} (π : S → T) (g : S → A → S) (h : T → A → T) (l : list A) z :
  (∀ z x, π (g z x) = h (π z) x) → π (foldl g z l) = foldl h (π z) l.
Proof. intros Hg. revert z. induction l as [|x l IH]; intros z; [done|]. cbn. by rewrite IH, Hg. Qed.

Lemma foldl_insert_in `{Countable K} {V A} (k : A → K) (v : A → V) (l : list A) (m : gmap K V) i x :
  foldl (λ m e, <[k e := v e]> m) m l !! i = Some x →
  (∃ e, e ∈ l ∧ k e = i ∧ v e = x) ∨ m !! i = Some x.
Proof.
  revert m. induction l as [|e l IH]; intros m; [by right|]. cbn [foldl].
  intros [(e' & He' & Hk)|[[<- <-]|[_ Hm]]%lookup_insert_Some]%IH.
  - left. exists e'. split; [by right|done].
  - left. exists e. split; [by left|done].
  - by right.
Qed.

Lemma foldl_insert_is_Some `{Countable K} {V A} (k : A → K) (v : A → V) (l : list A) (m : gmap K V) e :
  e ∈ l → is_Some (foldl (λ m e, <[k e := v e]> m) m l !! k e).
Proof.
  assert (∀ l (m : gmap K V) i, is_Some (m !! i) → is_Some (foldl (λ m e, <[k e := v e]> m) m l !! i)) as Hkeep.
  { clear. intros l. induction l as [|e l IH]; intros m i Hi; [done|]. cbn [foldl]. apply IH.
    destruct (decide (k e = i)) as [->|Hne]; [rewrite lookup_insert_eq; by eexists|by rewrite lookup_insert_ne]. }
  revert m. induction l as [|x l IH]; intros m He; [by apply elem_of_nil in He|].
  apply elem_of_cons in He as [->|He]; [|by apply IH]. cbn [foldl]. apply Hkeep. rewrite lookup_insert_eq. by eexists.
Qed.

(** ** A valid genesis state is imported *)

Definition addr_of (a : string) : list N := default [] (AccAddressFromBech32 a).

(** The addresses that must have an account. *)
Definition genesis_addresses (gs : GenesisState) : list string :=
  (rge_Address <$> gs_RewardGauges gs) ++ (wa_DelegatorAddress <$> gs_WithdrawAddresses gs) ++
  (fst <$> gs_FinalityProvidersCurrentRewards gs) ++ (fph_Address <$> gs_FinalityProvidersHistoricalRewards gs) ++
  (te_FinalityProviderAddress <$> gs_BtcDelegationRewardsTrackers gs) ++
  (te_DelegatorAddress <$> gs_BtcDelegationRewardsTrackers gs).

Definition genesis_fits (gs : GenesisState) : Prop :=
  (∀ a, a ∈ genesis_addresses gs → has_account (addr_of a) = true) ∧
  (∀ e, e ∈ gs_BtcStakingGauges gs → (e.1 ≤ height)%N) ∧
  (gs_LastProcessedHeightEventRewardTracker gs ≤ height)%N.

Lemma validateAddrStr_Ok a : validateAddrStr a = Ok () → AccAddressFromBech32 a = Some (addr_of a).
Proof.
  unfold validateAddrStr, addr_of. intros ([] & _ & (x & Hx%of_option_Ok & _)%bind_Ok)%bind_Ok. by rewrite Hx.
Qed.

Lemma account_addr_Ok a : validateAddrStr a = Ok () → has_account (addr_of a) = true →
  account_addr a = Ok (addr_of a).
Proof.
  intros Ha%validateAddrStr_Ok Hacc. unfold account_addr, must_addr. rewrite Ha. cbn. by rewrite Hacc.
Qed.

(** What the validation of the lists says. *)
Lemma historical_valid entries m : validateFPHistoricalRewards entries m = Ok () →
  Forall (λ e, FPHistoricalEntry_Validate e = Ok ()) entries ∧
  ∀ a P p, m !! a = Some P → (p < P)%N → ∃ e, e ∈ entries ∧ fph_Address e = a ∧ fph_Period e = p.
Proof.
  unfold validateFPHistoricalRewards.
  intros ([] & [_ Hall]%ValidateEntries_Ok & (? & Hper & _)%bind_Ok)%bind_Ok. split; [done|].
  intros a P p Ha Hp. apply require_Ok in Hper. rewrite forallb_forall in Hper.
  specialize (Hper (a, P) (proj1 (list_elem_of_In _ _) (proj2 (elem_of_map_to_list _ _ _) Ha))).
  rewrite forallb_forall in Hper. cbn [fst snd] in Hper.
  assert (p ∈ periods_upto P) as Hin.
  { apply list_elem_of_fmap. exists (N.to_nat p). split; [lia|]. apply elem_of_seq. lia. }
  apply list_elem_of_In, Hper, bool_decide_eq_true, list_elem_of_fmap in Hin as (e & [= -> ->] & He).
  by exists e.
Qed.

Lemma trackers_loop_valid m seen entries r : trackers_loop m seen entries = Ok r →
  ∀ e, e ∈ entries → TrackerEntry_Validate e = Ok () ∧
    ∃ P t, m !! te_FinalityProviderAddress e = Some P ∧ te_Tracker e = Some t ∧
      (StartPeriodCumulativeReward t < P)%N.
Proof.
  revert seen. induction entries as [|e l IH]; intros seen Hl e'; [by intros ?%elem_of_nil|].
  cbn [trackers_loop] in Hl. cbv zeta in Hl.
  apply bind_Ok in Hl as (_ & _ & Hl). apply bind_Ok in Hl as ([] & Hv & Hl).
  apply bind_Ok in Hl as (P & HP%of_option_Ok & Hl). apply bind_Ok in Hl as (t & Ht%inc_or_panic_Ok & Hl).
  apply require_bind_Ok in Hl as [Hs Hl]. intros [->|He]%elem_of_cons; [|by eapply IH].
  split; [done|]. exists P, t. split; [done|]. split; [done|]. by apply negb_true_iff, N.leb_gt in Hs.
Qed.

Lemma periods_from_entries entries m0 m : fpCurrentPeriods entries m0 = Ok m →
  ∀ a P, m !! a = Some P → (∃ r, (a, Some r) ∈ entries ∧ P = Period r) ∨ m0 !! a = Some P.
Proof.
  revert m0. induction entries as [|[a' [r|]] l IH]; intros m0; cbn [fpCurrentPeriods snd fst].
  - intros [= ->] a P Ha. by right.
  - intros Hm a P [(r' & Hr & ->)|[[<- <-]|[_ Ha]]%lookup_insert_Some]%(IH _ Hm).
    + left. exists r'. split; [by right|done].
    + left. exists r. split; [by left|done].
    + by right.
  - done.
Qed.

(** Everything that validation checks. *)
Record valid_parts (gs : GenesisState) : Prop := {
  vp_gauges : Forall (λ e, RewardGaugeEntry_Validate e = Ok ()) (gs_RewardGauges gs);
  vp_withdraw : Forall (λ e, WithdrawAddressEntry_Validate e = Ok ()) (gs_WithdrawAddresses gs);
  vp_hashes : Forall (λ h, is_Some (hex_DecodeString h)) (gs_RefundableMsgHashes gs);
  vp_current : Forall (λ e, FPCurrentEntry_Validate e = Ok ()) (gs_FinalityProvidersCurrentRewards gs);
  vp_current_keys : NoDup (gs_FinalityProvidersCurrentRewards gs).*1;
  vp_historical : Forall (λ e, FPHistoricalEntry_Validate e = Ok ()) (gs_FinalityProvidersHistoricalRewards gs);
  vp_events : Forall (λ e, EventsEntry_Validate e = Ok ()) (gs_EventRewardTracker gs);
  vp_trackers : Forall (λ e, TrackerEntry_Validate e = Ok ()) (gs_BtcDelegationRewardsTrackers gs);
  vp_params : Params_Validate (gs_Params gs) = true;
  vp_start e : e ∈ gs_BtcDelegationRewardsTrackers gs → ∃ r t,
    (te_FinalityProviderAddress e, Some r) ∈ gs_FinalityProvidersCurrentRewards gs ∧
    te_Tracker e = Some t ∧ (StartPeriodCumulativeReward t < Period r)%N ∧
    ∀ p, (p < Period r)%N → ∃ h, h ∈ gs_FinalityProvidersHistoricalRewards gs ∧
      fph_Address h = te_FinalityProviderAddress e ∧ fph_Period h = p;
}.

Lemma hashes_valid seen hashes : validateMsgHashes_loop seen hashes = Ok () →
  Forall (λ h, is_Some (hex_DecodeString h)) hashes.
Proof.
  revert seen. induction hashes as [|h l IH]; intros seen; [done|]. cbn [validateMsgHashes_loop].
  intros (_ & _ & (bz & Hbz%of_option_Ok & (_ & _ & (_ & _ & Hl)%bind_Ok)%bind_Ok)%bind_Ok)%bind_Ok.
  constructor; [by eexists|by eapply IH].
Qed.

Lemma validated gs : GenesisState_Validate gs = Ok () → valid_parts gs.
Proof.
  unfold GenesisState_Validate. intros H.
  apply bind_Ok in H as (_ & _ & H). apply bind_Ok in H as ([] & [_ Hg]%ValidateEntries_Ok & H).
  apply bind_Ok in H as ([] & [_ Hw]%ValidateEntries_Ok & H). apply bind_Ok in H as ([] & Hh & H).
  apply bind_Ok in H as ([] & [Hk Hc]%ValidateEntries_Ok & H). apply bind_Ok in H as (m & Hm & H).
  apply bind_Ok in H as ([] & [Hi Hper]%historical_valid & H).
  apply bind_Ok in H as ([] & [_ He]%ValidateEntries_Ok & H). apply bind_Ok in H as (r & Ht & H).
  apply bind_Ok in H as (r' & _ & H). apply bind_Ok in H as (_ & _ & H). apply bind_Ok in H as (_ & _ & H).
  apply require_Ok in H. pose proof (trackers_loop_valid _ _ _ _ Ht) as Htr.
  split; try done.
  - by eapply hashes_valid.
  - apply Forall_forall. intros e Hin. by apply Htr.
  - intros e Hin. destruct (Htr e Hin) as (_ & P & t & HP & Htk & Hlt).
    destruct (periods_from_entries _ _ _ Hm _ _ HP) as [(c & Hcin & ->)|Hx]; [|by rewrite lookup_empty in Hx].
    exists c, t. do 3 (split; [done|]). intros p Hp. by eapply Hper.
Qed.

(** *** The loops of the import *)

Definition set_gauge s (e : N * option Gauge) : IncState :=
  SetBTCStakingGauge s e.1 (default (NewGauge []) e.2).
Definition set_fp_gauge s (e : N * option Gauge) : IncState :=
  SetFPDirectGauge s e.1 (default (NewGauge []) e.2).
Definition set_reward_gauge s (e : RewardGaugeEntry) : IncState :=
  SetRewardGauge s (rge_StakeholderType e) (addr_of (rge_Address e)) (default (NewRewardGauge []) (rge_RewardGauge e)).
Definition set_withdraw s (e : WithdrawAddressEntry) : IncState :=
  SetWithdrawAddr s (addr_of (wa_DelegatorAddress e)) (addr_of (wa_WithdrawAddress e)).
Definition set_hash s (h : string) : IncState :=
  with_refundable s ({[default [] (hex_DecodeString h)]} ∪ RefundableMsgKeySet s).
Definition set_current s (e : string * option FinalityProviderCurrentRewards) : IncState :=
  SetFinalityProviderCurrentRewards s (addr_of e.1) (default (mkCurrent [] 0 0) e.2).
Definition set_historical s (e : FinalityProviderHistoricalRewardsEntry) : IncState :=
  setFinalityProviderHistoricalRewards s (addr_of (fph_Address e)) (fph_Period e)
    (default (mkHistorical []) (fph_Rewards e)).
Definition set_tracker s (e : BTCDelegationRewardsTrackerEntry) : IncState :=
  setBTCDelegationRewardsTracker s (addr_of (te_FinalityProviderAddress e)) (addr_of (te_DelegatorAddress e))
    (default (mkTracker 0 0) (te_Tracker e)).
Definition set_events s (e : N * option (list EventPowerUpdate)) : IncState :=
  SetRewardTrackerEvent s e.1 (default [] e.2).

(** The state after the import. *)
Definition imported s (gs : GenesisState) : IncState :=
  let s := foldl set_gauge s (gs_BtcStakingGauges gs) in
  let s := foldl set_fp_gauge s (gs_FpDirectGauges gs) in
  let s := foldl set_reward_gauge s (gs_RewardGauges gs) in
  let s := foldl set_withdraw s (gs_WithdrawAddresses gs) in
  let s := foldl set_hash s (gs_RefundableMsgHashes gs) in
  let s := foldl set_current s (gs_FinalityProvidersCurrentRewards gs) in
  let s := foldl set_historical s (gs_FinalityProvidersHistoricalRewards gs) in
  let s := foldl set_tracker s (gs_BtcDelegationRewardsTrackers gs) in
  let s := foldl set_events s (gs_EventRewardTracker gs) in
  with_params (SetRewardTrackerEventLastProcessedHeight s (gs_LastProcessedHeightEventRewardTracker gs))
    (Some (gs_Params gs)).

Lemma fold_all {A} (f : IncState → A → res IncErr IncState) g l s :
  (∀ s x, x ∈ l → f s x = Ok (g s x)) → fold_res f s l = Ok (foldl g s l).
Proof. intros Hf. apply (fold_res_pure (λ _, True)); [|done]. intros s0 x _ Hx. split; [by apply Hf|done]. Qed.

Lemma genesis_account gs a : genesis_fits gs → a ∈ genesis_addresses gs → validateAddrStr a = Ok () →
  account_addr a = Ok (addr_of a).
Proof. intros (Hacc & _) Hin Hva. apply account_addr_Ok; [done|by apply Hacc]. Qed.

Section loops.
Context (gs : GenesisState) (Hv : valid_parts gs) (Hfit : genesis_fits gs).

Lemma load_gauges s : fold_res import_gauge s (gs_BtcStakingGauges gs) =
  Ok (foldl set_gauge s (gs_BtcStakingGauges gs)).
Proof.
  apply fold_all. intros s0 e He. unfold import_gauge.
  by rewrite (proj2 (N.ltb_ge _ _) (proj1 (proj2 Hfit) e He)).
Qed.

Lemma load_reward_gauges s : fold_res import_reward_gauge s (gs_RewardGauges gs) =
  Ok (foldl set_reward_gauge s (gs_RewardGauges gs)).
Proof.
  apply fold_all. intros s0 e He. pose proof (proj1 (Forall_forall _ _) (vp_gauges _ Hv) e He) as Hve.
  unfold RewardGaugeEntry_Validate in Hve. apply bind_Ok in Hve as ([] & Hva & _).
  unfold import_reward_gauge. rewrite (genesis_account gs); [done..| |done].
  apply elem_of_app. left. by apply list_elem_of_fmap_2.
Qed.

Lemma load_withdraw s : fold_res import_withdraw s (gs_WithdrawAddresses gs) =
  Ok (foldl set_withdraw s (gs_WithdrawAddresses gs)).
Proof.
  apply fold_all. intros s0 e He. pose proof (proj1 (Forall_forall _ _) (vp_withdraw _ Hv) e He) as Hve.
  unfold WithdrawAddressEntry_Validate in Hve. apply bind_Ok in Hve as ([] & Hva & Hvb%validateAddrStr_Ok).
  unfold import_withdraw, must_addr. rewrite (genesis_account gs), Hvb; [done..| |done].
  unfold genesis_addresses. rewrite !elem_of_app. right; left. by apply list_elem_of_fmap_2.
Qed.

Lemma load_hashes s : fold_res import_hash s (gs_RefundableMsgHashes gs) =
  Ok (foldl set_hash s (gs_RefundableMsgHashes gs)).
Proof.
  apply fold_all. intros s0 h Hh. destruct (proj1 (Forall_forall _ _) (vp_hashes _ Hv) h Hh) as [bz Hbz].
  unfold import_hash, set_hash. by rewrite Hbz.
Qed.

Lemma load_current s : fold_res import_current s (gs_FinalityProvidersCurrentRewards gs) =
  Ok (foldl set_current s (gs_FinalityProvidersCurrentRewards gs)).
Proof.
  apply fold_all. intros s0 e He. pose proof (proj1 (Forall_forall _ _) (vp_current _ Hv) e He) as Hve.
  unfold FPCurrentEntry_Validate in Hve. apply bind_Ok in Hve as ([] & Hva & (r & Hr%of_option_Ok & _)%bind_Ok).
  unfold import_current, set_current. rewrite (genesis_account gs), Hr; [done..| |done].
  unfold genesis_addresses. rewrite !elem_of_app. do 2 right; left. by apply list_elem_of_fmap_2.
Qed.

Lemma load_historical s : fold_res import_historical s (gs_FinalityProvidersHistoricalRewards gs) =
  Ok (foldl set_historical s (gs_FinalityProvidersHistoricalRewards gs)).
Proof.
  apply fold_all. intros s0 e He. pose proof (proj1 (Forall_forall _ _) (vp_historical _ Hv) e He) as Hve.
  unfold FPHistoricalEntry_Validate in Hve. apply bind_Ok in Hve as ([] & Hva & (r & Hr%of_option_Ok & _)%bind_Ok).
  unfold import_historical, set_historical. rewrite (genesis_account gs), Hr; [done..| |done].
  unfold genesis_addresses. rewrite !elem_of_app. do 3 right; left. by apply list_elem_of_fmap_2.
Qed.

Lemma load_trackers s : fold_res import_tracker s (gs_BtcDelegationRewardsTrackers gs) =
  Ok (foldl set_tracker s (gs_BtcDelegationRewardsTrackers gs)).
Proof.
  apply fold_all. intros s0 e He. pose proof (proj1 (Forall_forall _ _) (vp_trackers _ Hv) e He) as Hve.
  unfold TrackerEntry_Validate in Hve.
  apply bind_Ok in Hve as ([] & Hva & ([] & Hvb & (r & Hr%of_option_Ok & _)%bind_Ok)%bind_Ok).
  unfold import_tracker, set_tracker.
  rewrite (genesis_account gs (te_FinalityProviderAddress e)), (genesis_account gs (te_DelegatorAddress e)), Hr;
    [done..| |done|done| |done]; unfold genesis_addresses;
    rewrite !elem_of_app; [do 5 right|do 4 right; left]; by apply list_elem_of_fmap_2.
Qed.

Lemma load_events s : fold_res import_events s (gs_EventRewardTracker gs) =
  Ok (foldl set_events s (gs_EventRewardTracker gs)).
Proof.
  apply fold_all. intros s0 e He. pose proof (proj1 (Forall_forall _ _) (vp_events _ Hv) e He) as Hve.
  unfold EventsEntry_Validate in Hve. apply bind_Ok in Hve as (evs & Hevs%inc_or_panic_Ok & _).
  unfold import_events, set_events. by rewrite Hevs.
Qed.

Lemma inc_import_Ok s : InitGenesis s gs = Ok (imported s gs).
Proof.
  unfold InitGenesis, imported. cbv zeta. rewrite load_gauges. cbn [mbind res_bind].
  rewrite (fold_all import_fp_gauge set_fp_gauge) by done. cbn [mbind res_bind].
  rewrite load_reward_gauges. cbn [mbind res_bind]. rewrite load_withdraw. cbn [mbind res_bind].
  rewrite load_hashes. cbn [mbind res_bind]. rewrite load_current. cbn [mbind res_bind].
  rewrite load_historical. cbn [mbind res_bind]. rewrite load_trackers. cbn [mbind res_bind].
  rewrite load_events. cbn [mbind res_bind]. destruct Hfit as (_ & _ & Hlast).
  rewrite (proj2 (N.ltb_ge _ _) Hlast). cbn [negb]. unfold SetParams. by rewrite (vp_params _ Hv).
Qed.
End loops.

(** *** The stores of the reward pools *)

Lemma imported_current gs : finalityProviderCurrentRewards (imported inc_empty gs) =
  foldl (λ m e, <[addr_of e.1 := default (mkCurrent [] 0 0) e.2]> m) ∅ (gs_FinalityProvidersCurrentRewards gs).
Proof.
  unfold imported. cbv zeta. cbn [with_params SetRewardTrackerEventLastProcessedHeight with_processed finalityProviderCurrentRewards].
  rewrite (foldl_keeps _ set_events), (foldl_keeps _ set_tracker), (foldl_keeps _ set_historical) by done.
  rewrite (foldl_proj _ set_current (λ m e, <[addr_of e.1 := default (mkCurrent [] 0 0) e.2]> m)) by done.
  by rewrite (foldl_keeps _ set_hash), (foldl_keeps _ set_withdraw), (foldl_keeps _ set_reward_gauge),
    (foldl_keeps _ set_fp_gauge), (foldl_keeps _ set_gauge) by done.
Qed.

Lemma imported_historical gs : finalityProviderHistoricalRewards (imported inc_empty gs) =
  foldl (λ m e, <[(addr_of (fph_Address e), fph_Period e) := default (mkHistorical []) (fph_Rewards e)]> m) ∅
    (gs_FinalityProvidersHistoricalRewards gs).
Proof.
  unfold imported. cbv zeta. cbn [with_params SetRewardTrackerEventLastProcessedHeight with_processed finalityProviderHistoricalRewards].
  rewrite (foldl_keeps _ set_events), (foldl_keeps _ set_tracker) by done.
  rewrite (foldl_proj _ set_historical
    (λ m e, <[(addr_of (fph_Address e), fph_Period e) := default (mkHistorical []) (fph_Rewards e)]> m)) by done.
  by rewrite (foldl_keeps _ set_current), (foldl_keeps _ set_hash), (foldl_keeps _ set_withdraw),
    (foldl_keeps _ set_reward_gauge), (foldl_keeps _ set_fp_gauge), (foldl_keeps _ set_gauge) by done.
Qed.

Lemma imported_trackers gs : btcDelegationRewardsTracker (imported inc_empty gs) =
  foldl (λ m e, <[(addr_of (te_FinalityProviderAddress e), addr_of (te_DelegatorAddress e)) :=
                   default (mkTracker 0 0) (te_Tracker e)]> m) ∅ (gs_BtcDelegationRewardsTrackers gs).
Proof.
  unfold imported. cbv zeta. cbn [with_params SetRewardTrackerEventLastProcessedHeight with_processed btcDelegationRewardsTracker].
  rewrite (foldl_keeps _ set_events) by done.
  rewrite (foldl_proj _ set_tracker
    (λ m e, <[(addr_of (te_FinalityProviderAddress e), addr_of (te_DelegatorAddress e)) :=
                   default (mkTracker 0 0) (te_Tracker e)]> m)) by done.
  by rewrite (foldl_keeps _ set_historical), (foldl_keeps _ set_current), (foldl_keeps _ set_hash),
    (foldl_keeps _ set_withdraw), (foldl_keeps _ set_reward_gauge), (foldl_keeps _ set_fp_gauge),
    (foldl_keeps _ set_gauge) by done.
Qed.

(** The addresses of the pools are written in one way. *)
Definition canonical (gs : GenesisState) : Prop := ∀ a a',
  a ∈ (gs_FinalityProvidersCurrentRewards gs).*1 → a' ∈ (gs_FinalityProvidersCurrentRewards gs).*1 →
  addr_of a = addr_of a' → a = a'.

Lemma imported_pool gs a r : valid_parts gs → canonical gs →
  (a, Some r) ∈ gs_FinalityProvidersCurrentRewards gs →
  finalityProviderCurrentRewards (imported inc_empty gs) !! addr_of a = Some r.
Proof.
  intros Hv Hcan Hin. rewrite imported_current.
  destruct (foldl_insert_is_Some (λ e, addr_of e.1) (λ e, default (mkCurrent [] 0 0) e.2)
    (gs_FinalityProvidersCurrentRewards gs) ∅ (a, Some r) Hin) as [x Hx]. cbn [fst] in Hx. rewrite Hx. f_equal.
  apply foldl_insert_in in Hx as [([a' r'] & Hin' & Ha & Hr)|Hx]; [|by rewrite lookup_empty in Hx].
  cbn [fst snd] in Ha, Hr.
  assert (a' = a) as ->.
  { apply Hcan; [by apply (list_elem_of_fmap_2 fst) in Hin'|by apply (list_elem_of_fmap_2 fst) in Hin|done]. }
  assert (r' = Some r) as ->; [|done].
  apply (elem_of_list_to_map (M := gmap string) _ _ _ (vp_current_keys _ Hv)) in Hin, Hin'. congruence.
Qed.

(** C36: A valid genesis state is imported.  If its accounts exist, its heights are not in the
    future and no address of a pool is written in two ways, the import succeeds,
    without an error or a panic, and every delegation of the imported state has a pool,
    starts at an earlier period than the pool's current one, and all periods of the
    pool are recorded. *)
Theorem valid_genesis_imports gs : GenesisState_Validate gs = Ok () → genesis_fits gs → canonical gs →
  ∃ s, InitGenesis inc_empty gs = Ok s ∧ inc_params s = Some (gs_Params gs) ∧
    ∀ fp del t, btcDelegationRewardsTracker s !! (fp, del) = Some t →
      ∃ c, finalityProviderCurrentRewards s !! fp = Some c ∧ (StartPeriodCumulativeReward t < Period c)%N ∧
        ∀ p, (p < Period c)%N → is_Some (finalityProviderHistoricalRewards s !! (fp, p)).
Proof.
  intros Hv%validated Hfit Hcan. exists (imported inc_empty gs). split; [by apply inc_import_Ok|]. split; [done|].
  intros fp del t. rewrite imported_trackers.
  intros [(e & He & [= <- <-] & <-)|Hx]%foldl_insert_in; [|by rewrite lookup_empty in Hx].
  destruct (vp_start _ Hv e He) as (r & t & Hr & -> & Hlt & Hper). exists r.
  split; [by apply imported_pool|]. split; [done|]. intros p Hp.
  destruct (Hper p Hp) as (h & Hh & <- & <-). rewrite imported_historical.
  by apply (foldl_insert_is_Some (λ e, (addr_of (fph_Address e), fph_Period e))).
Qed.
End genesis.

(** ** Export *)

Section export.
Context {SC : SdkCoins} {SCL : SdkCoinsLaws} {CC : CoinsCompare} {BK : BankKeeper} {BL : BankLaws} {B32 : Bech32}.
Context (AddrString : list N → string) (feeCollectorName : string).
Context (module_addr fee_addr : list N).
Context (Hmodule : GetModuleAccount ModuleName = Some module_addr).
Context (Hfee : GetModuleAccount feeCollectorName = Some fee_addr).
Context (Hdistinct : feeCollectorName ≠ ModuleName).
Context {HookEnv : Type} (BeforeRewardWithdraw : Hook (HookEnv := HookEnv)) (authority : string)
  (tmhash_Sum : bytes → bytes).
Context {WH : IncentiveState.WithdrawHooks module_addr fee_addr BeforeRewardWithdraw}.

Abbreviation reach := (IncentiveState.inc_reach AddrString feeCollectorName module_addr fee_addr
  BeforeRewardWithdraw authority tmhash_Sum).

(** An empty record of rewards is not valid. *)
Lemma empty_historical_invalid a p u :
  FPHistoricalEntry_Validate (mkFPHistoricalEntry a p (Some (mkHistorical []))) ≠ Ok u.
Proof.
  unfold FPHistoricalEntry_Validate. intros ([] & _ & Hv)%bind_Ok. cbn in Hv.
  unfold HistoricalRewards_Validate, invalid in Hv. apply require_bind_Ok in Hv as [_ Hv]. done.
Qed.

(** C38: A state with a reward pool cannot be exported. In every reachable state in
    which some finality provider has been given a delegation, the export of the module
    fails: the first period of every pool is recorded with no coins, and the validation
    of the exported entries refuses a record without coins.  Other modules may do
    anything that [st_others] allows; fewer than [2 ^ 64] periods have been opened. *)
Theorem pool_blocks_export n s b e fp c : reach n (s, b, e) → (n < 2 ^ 64)%N →
  finalityProviderCurrentRewards s !! fp = Some c → ∀ gs, ExportGenesis AddrString s ≠ Ok gs.
Proof.
  intros Hr Hn Hc gs Hexp. eapply IncentiveState.inc_reach_inv in Hr as [Hinv _]; [|done..].
  pose proof (IncentiveSpec.po_first _ (IncentiveState.ii_pools _ _ _ _ Hinv) fp c Hc) as H0.
  unfold ExportGenesis in Hexp. apply bind_Ok in Hexp as (? & _ & Hexp). apply bind_Ok in Hexp as (? & _ & Hexp).
  cbv zeta in Hexp. apply bind_Ok in Hexp as (? & _ & Hexp). apply bind_Ok in Hexp as (l & Hl & _).
  unfold finalityProvidersHistoricalRewards in Hl. apply validate_all_inv in Hl as [_ Hl].
  rewrite Forall_forall in Hl. eapply empty_historical_invalid, (Hl (mkFPHistoricalEntry (AddrString fp) 0 (Some (mkHistorical [])))).
  apply list_elem_of_fmap. exists ((fp, 0%N), mkHistorical []). split; [done|].
  unfold asc. rewrite merge_sort_Permutation. by apply elem_of_map_to_list.
Qed.
End export.
End IncentiveGenesis.
