(* ===== verification/IncentiveRun.v ===== *)
(** A run of x/incentive on concrete states: fees are intercepted, two
    delegations are activated, a final block is rewarded and the rewards are
    withdrawn.  It shows that the hypotheses of the theorems can be met, and
    what happens to a delegation's rewards when its share of one denomination is
    rounded to zero. *)
From stdpp Require Import base numbers list sorting gmap strings.
From S2P Require Import Prelude KVStore Bytes BtcStaking Finality FinalityPower SdkCoins ZSum Incentive IncentiveSpec IncentiveRefund IncentiveState GenesisEntries IncentiveGenesis.
From Stdlib Require Ascii.
From Stdlib Require Import Strings.Byte.

Module IncentiveRun.
Import BtcStaking Finality FinalityPower Incentive IncentiveSpec IncentiveRefund IncentiveState IncentiveGenesis.
Import ToyCoins.

(** Addresses are written as strings, the empty string is no address. *)
Definition addr_string (a : list N) : string := String.string_of_list_ascii (Ascii.ascii_of_N <$> a).
#[export] Instance toy_bech32 : Bech32 := λ s,
  if bool_decide (s = ""%string) then None else Some (ascii_codes s).

Definition no_hook : Hook (HookEnv := unit) := λ w _ _, Ok w.

Lemma toy_module : GetModuleAccount ModuleName = Some [1%N].
Proof. reflexivity. Qed.
Lemma toy_fee : GetModuleAccount "fee_collector" = Some [2%N].
Proof. reflexivity. Qed.
Lemma toy_distinct : "fee_collector"%string ≠ ModuleName.
Proof. discriminate. Qed.

#[export] Instance no_hook_laws : WithdrawHooks [1%N] [2%N] no_hook.
Proof.
  refine {| hook_inv _ _ _ := True |}.
  - done.
  - done.
  - intros n s b e t a Hg _ _. cbn. split; [|done]. exists (rewardGauges s).
    split; [by destruct s|]. split; [done|]. intros d. lia.
Defined.

Definition sum_hash (m : bytes) : bytes := m.

Abbreviation toy_step := (inc_step addr_string "fee_collector" [1%N] [2%N] no_hook "gov" sum_hash).
Abbreviation toy_reach := (inc_reach addr_string "fee_collector" [1%N] [2%N] no_hook "gov" sum_hash).

(** ** The run *)

Definition fpA : list N := [70%N].
Definition delA : list N := [65%N].
Definition delB : list N := [66%N].
Definition anc (n : Z) : Coins := [mkCoin "uanc" n].

Definition params : Params := mkParams (Some (5 * 10 ^ 17)%Z) (Some (10 ^ 17)%Z).
Definition bank0 : @Bank bank := ({[ [2%N] := anc 1000 ]} : gmap (list N) Coins).
(** Fees in two denominations, with very little of the first. *)
Definition bank1 : @Bank bank :=
  ({[ [2%N] := [mkCoin "uaaa" 3; mkCoin "uanc" 1000] ]} : gmap (list N) Coins).

Definition pkA : bytes := [].
Definition dist : VotingPowerDistCache :=
  mkDistCache 400 [mkDistInfo pkA fpA (Some (10 ^ 17)%Z) 400 true false false] 1.

Definition s0 : IncState := with_params inc_empty (Some params).
Definition s1 : IncState := AddEventBtcDelegationActivated addr_string s0 1 fpA delA 100.
Definition s2 : IncState := AddEventBtcDelegationActivated addr_string s1 1 fpA delB 300.

Definition get {E A} (d : A) (r : res E A) : A := match r with Ok a => a | _ => d end.
Lemma get_is_ok {E A} (d : A) (r : res E A) : is_ok r = true → r = Ok (get d r).
Proof. by destruct r. Qed.

Definition w3 (b0 : @Bank bank) : IncState * @Bank bank :=
  get (s2, b0) (BeginBlocker "fee_collector" s2 b0 1).
Definition s4 (b0 : @Bank bank) : IncState :=
  get (w3 b0).1 (RewardBTCStaking (w3 b0).1 1 dist {[pkA]}).
Definition withdrawA : MsgWithdrawReward := mkMsgWithdrawReward "btc_staker" "A".
Definition w5 : Coins * World (HookEnv := unit) :=
  get ([], (s4 bank0, (w3 bank0).2, tt))
    (WithdrawReward no_hook (s4 bank0, (w3 bank0).2, tt) withdrawA).

(** The states of the run are reachable. *)
Lemma toy_params_ok : params_ok (Some params).
Proof. exists (5 * 10 ^ 17)%Z, (10 ^ 17)%Z. vm_compute. repeat split; discriminate. Qed.

Lemma toy_balance_nonneg (b : @Bank bank) a d : (0 ≤ balance (BK := bank) b a d)%Z.
Proof.
  apply (coins_amount_nonneg (SC := coins)), (coins_pos_nonneg (SC := coins)), balances_all_pos.
Qed.

Lemma toy_dist_ok : dist_ok (rewarded dist {[pkA]}).
Proof.
  assert (rewarded dist {[pkA]} = FinalityProviders dist) as -> by (vm_compute; reflexivity).
  split; [by vm_compute|]. apply Forall_singleton. intros c [= <-]. by vm_compute.
Qed.

Lemma toy_step_eq k k' w w' : k = k' → toy_step k w w' → toy_step k' w w'.
Proof. by intros ->. Qed.

Section reach.
Context (b0 : @Bank bank).
Context (Hbegin : is_ok (BeginBlocker "fee_collector" s2 b0 1) = true).
Context (Hreward : is_ok (RewardBTCStaking (w3 b0).1 1 dist {[pkA]}) = true).
Context (Hevents : pending_events (w3 b0).1 1 = 2%N).

Lemma reach_s0 : toy_reach 0 (s0, b0, tt).
Proof.
  apply (ir_init _ _ _ _ _ _ _ params b0 tt); [apply toy_params_ok|done|].
  intros d. apply toy_balance_nonneg.
Qed.

Lemma reach_s2 : toy_reach 0 (s2, b0, tt).
Proof.
  apply (ir_step _ _ _ _ _ _ _ 0 0 (s1, b0, tt));
    [apply (ir_step _ _ _ _ _ _ _ 0 0 (s0, b0, tt)); [apply reach_s0|]|].
  - by apply (st_activated _ _ _ _ _ _ _ _ _ _ 1 fpA delA true true 100).
  - by apply (st_activated _ _ _ _ _ _ _ _ _ _ 1 fpA delB true true 300).
Qed.

Lemma reach_s4 : toy_reach 2 (s4 b0, (w3 b0).2, tt).
Proof.
  apply (ir_step _ _ _ _ _ _ _ 0 2 ((w3 b0).1, (w3 b0).2, tt)).
  - apply (ir_step _ _ _ _ _ _ _ 0 0 (s2, b0, tt)); [apply reach_s2|].
    apply (st_begin_block _ _ _ _ _ _ _ _ _ _ 1). rewrite <-surjective_pairing. by apply get_is_ok.
  - apply (toy_step_eq (pending_events (w3 b0).1 1)); [done|].
    apply (st_reward _ _ _ _ _ _ _ _ _ _ 1 dist {[pkA]}); [apply toy_dist_ok|]. by apply get_is_ok.
Qed.
End reach.

Lemma reach_s4_0 : toy_reach 2 (s4 bank0, (w3 bank0).2, tt).
Proof. apply reach_s4; vm_compute; reflexivity. Qed.
Lemma reach_s4_1 : toy_reach 2 (s4 bank1, (w3 bank1).2, tt).
Proof. apply reach_s4; vm_compute; reflexivity. Qed.

Lemma reach_w5 : toy_reach 7 w5.2.
Proof.
  apply (ir_step _ _ _ _ _ _ _ 2 5 (s4 bank0, (w3 bank0).2, tt)); [apply reach_s4_0|].
  apply (toy_step_eq (withdraw_cost (s4 bank0) withdrawA)); [vm_compute; reflexivity|].
  apply (st_withdraw _ _ _ _ _ _ _ _ _ _ withdrawA w5.1). rewrite <-surjective_pairing.
  apply get_is_ok. vm_compute. reflexivity.
Qed.

(** ** Witnesses *)

(** The owed coins of the run's last state are covered. *)
Lemma incentive_solvent_witness :
  toy_reach 7 (w5.2.1.1, w5.2.1.2, w5.2.2) ∧ (7 < 2 ^ 64)%N ∧
  ((height_debt w5.2.1.1 "uanc" + gauge_debt w5.2.1.1 "uanc" + current_debt w5.2.1.1 "uanc") *
     DecimalRewards + claims w5.2.1.1 "uanc" (btcDelegationRewardsTracker w5.2.1.1) ≤
   balance (BK := bank) w5.2.1.2 [1%N] "uanc" * DecimalRewards)%Z.
Proof.
  assert (toy_reach 7 (w5.2.1.1, w5.2.1.2, w5.2.2)) as Hr.
  { rewrite <-!surjective_pairing. apply reach_w5. }
  split; [exact Hr|]. split; [reflexivity|].
  exact (incentive_solvent (SCL := coins_laws) (BL := bank_laws) addr_string "fee_collector" [1%N] [2%N]
    toy_module toy_fee toy_distinct no_hook "gov" sum_hash 7 _ _ _ "uanc" Hr ltac:(reflexivity)).
Defined.

Lemma s4_pools b : toy_reach 2 (s4 b, (w3 b).2, tt) → pools_ok (s4 b).
Proof.
  intros Hr. apply (inc_reach_inv (BL := bank_laws) (SCL := coins_laws) _ _ _ _ toy_module toy_fee toy_distinct) in Hr
    as [Hinv _]; [|reflexivity]. apply Hinv.
Qed.

Definition cur (b : @Bank bank) : FinalityProviderCurrentRewards :=
  default (mkCurrent [] 0 0) (finalityProviderCurrentRewards (s4 b) !! fpA).
Definition trkB (b : @Bank bank) : BTCDelegationRewardsTracker :=
  default (mkTracker 0 0) (btcDelegationRewardsTracker (s4 b) !! (fpA, delB)).

(** The pool of the run has the stake of its two delegations. *)
Lemma pool_stake_is_sum_witness :
  toy_reach 2 (s4 bank0, (w3 bank0).2, tt) ∧
  finalityProviderCurrentRewards (s4 bank0) !! fpA = Some (cur bank0) ∧
  cr_TotalActiveSat (cur bank0) = stake_of (btcDelegationRewardsTracker (s4 bank0)) fpA ∧
  cr_TotalActiveSat (cur bank0) = 400%Z.
Proof.
  assert (finalityProviderCurrentRewards (s4 bank0) !! fpA = Some (cur bank0)) as Hc
    by (vm_compute; reflexivity).
  split; [exact reach_s4_0|]. split; [exact Hc|]. split; [|vm_compute; reflexivity].
  exact (proj1 (pool_stake_is_sum (SCL := coins_laws) (BL := bank_laws) addr_string "fee_collector" [1%N] [2%N]
    toy_module toy_fee toy_distinct no_hook "gov" sum_hash 2 _ _ _ fpA (cur bank0) reach_s4_0
    ltac:(reflexivity) Hc)).
Defined.

(** The provider of the run can withdraw its commission. *)
Lemma withdraw_succeeds_witness :
  ∃ coins s' b', withdrawReward w5.2.1.1 w5.2.1.2 FINALITY_PROVIDER fpA = Ok (coins, s', b') ∧
    withdrawReward s' b' FINALITY_PROVIDER fpA = Err ErrNoWithdrawableCoins.
Proof.
  assert (toy_reach 7 (w5.2.1.1, w5.2.1.2, w5.2.2)) as Hr.
  { rewrite <-!surjective_pairing. apply reach_w5. }
  destruct (withdraw_succeeds (SCL := coins_laws) (BL := bank_laws) addr_string "fee_collector" [1%N] [2%N]
    toy_module toy_fee toy_distinct no_hook "gov" sum_hash 7 _ _ _ FINALITY_PROVIDER fpA
    (default (NewRewardGauge []) (rewardGauges w5.2.1.1 !! (FINALITY_PROVIDER, fpA))) "uanc" Hr ltac:(reflexivity)
    ltac:(vm_compute; reflexivity) ltac:(vm_compute; reflexivity) ltac:(vm_compute; reflexivity))
    as (coins & s' & b' & Hw & _ & _ & Hw2).
  exists coins, s', b'. split; [exact Hw|exact Hw2].
Defined.

(** Of the 450 coins of the pool the delegation with three quarters of the stake gets 337. *)
Lemma period_share_fair_witness :
  CalculateBTCDelegationRewards
    (get (0%N, s4 bank0) (IncrementFinalityProviderPeriod (s4 bank0) fpA)).2 fpA delB 2 = Ok (anc 337) ∧
  (450 * 300 / 400 - 1 ≤ amount_of (anc 337) "uanc" ≤ 450 * 300 / 400)%Z.
Proof.
  split; [vm_compute; reflexivity|].
  pose proof (period_share_fair (SCL := coins_laws) (s4 bank0) fpA delB (cur bank0) (trkB bank0) 2
    (get (0%N, s4 bank0) (IncrementFinalityProviderPeriod (s4 bank0) fpA)).2 (anc 337) "uanc"
    (s4_pools bank0 reach_s4_0) ltac:(vm_compute; reflexivity) ltac:(vm_compute; reflexivity)
    ltac:(vm_compute; reflexivity) ltac:(vm_compute; reflexivity) ltac:(vm_compute; reflexivity)
    ltac:(vm_compute; discriminate) ltac:(vm_compute; reflexivity) ltac:(vm_compute; reflexivity)) as H.
  exact H.
Defined.

(** With fees in two denominations the same delegation loses its 112 coins. *)
Lemma zero_share_forfeits_witness :
  CalculateBTCDelegationRewards
    (get (0%N, s4 bank1) (IncrementFinalityProviderPeriod (s4 bank1) fpA)).2 fpA delA 2 =
    Ok [mkCoin "uaaa" 0; mkCoin "uanc" 112] ∧
  rewardGauges (get (s4 bank1) (btcDelegationModified (s4 bank1) fpA delA)) = rewardGauges (s4 bank1) ∧
  ∀ d, claim_of (get (s4 bank1) (btcDelegationModified (s4 bank1) fpA delA)) fpA delA d = 0%Z.
Proof.
  split; [vm_compute; reflexivity|].
  assert (finalityProviderCurrentRewards (s4 bank1) !! fpA = Some (cur bank1)) as Hc
    by (vm_compute; reflexivity).
  assert (Period (cur bank1) = 2%N) as Hp by (vm_compute; reflexivity).
  assert (is_ok (IncrementFinalityProviderPeriod (s4 bank1) fpA) = true) as Hi by (vm_compute; reflexivity).
  assert (is_ok (btcDelegationModified (s4 bank1) fpA delA) = true) as Hm by (vm_compute; reflexivity).
  apply (get_is_ok (0%N, s4 bank1)) in Hi. apply (get_is_ok (s4 bank1)) in Hm.
  rewrite (surjective_pairing (get (0%N, s4 bank1) _)) in Hi.
  refine (zero_share_forfeits (SCL := coins_laws) (s4 bank1) fpA delA _ _
    [mkCoin "uaaa" 0; mkCoin "uanc" 112] (mkCoin "uaaa" 0) _ (s4_pools bank1 reach_s4_1) _ Hi _ _ _ Hm).
  - intros c Hc'. rewrite Hc in Hc'. apply (inj Some) in Hc'. rewrite <-Hc', Hp. reflexivity.
  - vm_compute. reflexivity.
  - by left.
  - reflexivity.
Defined.

(** A transaction with two different indexed messages gets its fee of 10 back, once. *)
Definition msgs : list Msg := [mkMsg MsgInsertHeaders [x00]; mkMsg MsgAddFinalitySig [x01]].
Definition indexed : IncState := foldl (IndexRefundableMsg sum_hash) inc_empty msgs.
Definition fee_tx : FeeTx := mkFeeTx (anc 10) None delA.
Definition tx : Tx := mkTx msgs (Some fee_tx).

Lemma refund_exact_witness :
  ∃ s' b', PostHandle "fee_collector" sum_hash indexed bank0 true false true tx = Ok (s', b') ∧
    balance b' delA "uanc" = 10%Z ∧ balance b' [2%N] "uanc" = 990%Z ∧
    ∀ r, PostHandle "fee_collector" sum_hash s' b' true false true tx = Ok r → r.2 = b'.
Proof.
  destruct (refund_exact sum_hash (SCL := coins_laws) (BL := bank_laws) "fee_collector" [2%N] toy_fee
    indexed bank0 true false true tx fee_tx) as (s' & b' & Hp & _ & Hl).
  - reflexivity.
  - split; [repeat constructor; vm_compute; congruence|]. repeat constructor.
  - reflexivity.
  - intros d. destruct (decide (d = "uanc"%string)) as [-> |Hd]; [by vm_compute|].
    change (balance bank0 [2%N] d) with (amount_of (anc 1000) d). unfold amount_of, fee_tx, anc.
    cbn [tx_Fee foldr coin_Denom coin_Amount]. rewrite !decide_False by congruence. lia.
  - destruct (Hl ltac:(reflexivity)) as (_ & Hm & _ & Honce).
    assert (all_refundable sum_hash indexed tx) as Hall.
    { split; apply (bool_decide_eq_true _); vm_compute; reflexivity. }
    specialize (Hm Hall). exists s', b'. split; [exact Hp|]. split_and!.
    + rewrite (Hm delA "uanc"%string). vm_compute. reflexivity.
    + rewrite (Hm [2%N] "uanc"%string). vm_compute. reflexivity.
    + intros r. apply (Honce tx [x00]); by left.
Defined.

(** ** Genesis *)

#[export] Instance toy_compare : CoinsCompare := {|
  IsAnyGT a b := negb (bool_decide (b = [])) &&
    existsb (λ c, amount_of b (coin_Denom c) <? coin_Amount c)%Z a;
  AmountOf cs d := Some (amount_of cs d);
|}.

(** With the pool of the run the state cannot be exported. *)
Lemma pool_blocks_export_witness :
  finalityProviderCurrentRewards (s4 bank0) !! fpA = Some (cur bank0) ∧
  ∀ gs, ExportGenesis addr_string (s4 bank0) ≠ Ok gs.
Proof.
  assert (finalityProviderCurrentRewards (s4 bank0) !! fpA = Some (cur bank0)) as Hc
    by (vm_compute; reflexivity).
  split; [exact Hc|].
  exact (pool_blocks_export (SCL := coins_laws) (BL := bank_laws) addr_string "fee_collector" [1%N] [2%N]
    toy_module toy_fee toy_distinct no_hook "gov" sum_hash 2 _ _ _ fpA (cur bank0) reach_s4_0
    ltac:(reflexivity) Hc).
Defined.

(** A provider in its second period with one delegation. *)
Definition genesis : GenesisState :=
  mkGenesisState params [(5%N, Some (NewGauge (anc 10)))]
    [mkRewardGaugeEntry BTC_STAKER "A" (Some (mkRewardGauge (anc 7) (anc 3)))]
    [mkWithdrawAddressEntry "A" "B"] []
    [("F"%string, Some (mkCurrent (anc 20) 2 100))]
    [mkFPHistoricalEntry "F" 0 (Some (mkHistorical (anc 1))); mkFPHistoricalEntry "F" 1 (Some (mkHistorical (anc 2)))]
    [mkTrackerEntry "F" "A" (Some (mkTracker 1 100))] [mkDelegatorToFpEntry "A" "F"]
    [(6%N, Some [BtcActivated "F" "B" 5])] 5 [].

Definition any_account (a : list N) : bool := true.

Lemma valid_genesis_imports_witness :
  GenesisState_Validate genesis = Ok () ∧
  ∃ s, InitGenesis any_account 10 inc_empty genesis = Ok s ∧ inc_params s = Some params.
Proof.
  assert (GenesisState_Validate genesis = Ok ()) as Hv by (vm_compute; reflexivity).
  split; [exact Hv|].
  destruct (valid_genesis_imports any_account 10 genesis Hv) as (s & Hi & Hp & _).
  - split; [reflexivity|]. split; [|vm_compute; discriminate].
    intros e He. apply list_elem_of_singleton in He. rewrite He. vm_compute. discriminate.
  - intros a a' Ha Ha' _. apply list_elem_of_singleton in Ha, Ha'. rewrite Ha, Ha'. reflexivity.
  - exists s. split; [exact Hi|exact Hp].
Defined.
End IncentiveRun.
