(* ===== verification/Costaking.v ===== *)
(** The rewards of costakers: [x/costaking].

    Whoever stakes both bitcoin and native tokens has a score, the smaller of his
    active satoshis and his active tokens divided by a ratio ([types/score.go]).  A
    share of the fees of every block goes to one pool, which is divided by score
    the way a pool of x/incentive is divided by satoshis
    ([keeper/reward_tracker.go]).  The active amounts follow the hooks of the finality
    module, of the staking module of the SDK and of x/epoching
    ([keeper/hooks_finality.go], [hooks_staking.go], [hooks_epoching.go]); the hook
    of x/incentive pays a costaker before a withdrawal
    ([keeper/hooks_incentive.go]).

    The module writes to its own store, to the gauges of x/incentive and to the
    bank: the operations are in a monad [M] over [Incentive.World], whose errors
    carry the state at the moment they occur, because the hooks of x/epoching
    and of the withdrawal only log them.  The cache of the staking hooks is an object in
    memory that all hooks share; it is a field of the state.  The staking and
    distribution modules of the SDK are the parameters [StakingKeeper] and
    [DistributionKeeper]. *)
From stdpp Require Import base numbers list sorting gmap strings.
From S2P Require Import Prelude KVStore Bytes BtcStaking Finality FinalityPower SdkCoins GenesisEntries Incentive.

Module Costaking.
Import BtcStaking GenesisEntries.

(** ** Errors: [types/errors.go], and the ones of the stores and modules it calls *)

Inductive CoErr :=
  | ErrNotFound
  | ErrInvalidScoreRatioBtcByNtk
  | ErrScoreRatioTooLow
  | ErrPercentageTooHigh
  | ErrInvalidPercentage
  | ErrInvalidPeriod
  | ErrNegativeRewards
  | ErrInvalidCostakerRwdTracker
  | ErrInvalidCurrentRewards
  | ErrInvalidHistoricalRewards
  | ErrInvalidAmount
  | ErrInvalidCoin
  | ErrInvalidSigner
  | ErrInvalidProposalMsg
  | ErrInvalidType
  | ErrDuplicate
  | ErrInvalidAddress
  | ErrStaking
  | ErrDistribution
  | ErrBank (e : BankErr).

#[global] Instance CoErr_eq_dec : EqDecision CoErr.
Proof. solve_decision. Defined.

(** ** Data: [costaking.pb.go], [params.pb.go], [rewards.pb.go] *)

Record Params := mkParams {
  CostakingPortion : option Dec;
  ScoreRatioBtcByNtk : option Z;
  ValidatorsPortion : option Dec }.

Record CurrentRewards := mkCurrentRewards { Rewards : Coins; Period : N; cr_TotalScore : Z }.
Record HistoricalRewards := mkHistoricalRewards { CumulativeRewardsPerScore : Coins }.
Record CostakerRewardsTracker := mkCostakerRewardsTracker {
  StartPeriodCumulativeReward : N;
  ActiveSatoshis : Z;
  ActiveNtk : Z;
  TotalScore : Z }.

(** [types.Validator]: an entry of the stored validator set. *)
Record SetValidator := mkSetValidator { sv_Addr : list N; sv_Tokens : Z; sv_Shares : Dec }.

Definition NewCostakerRewardsTracker (startPeriod : N) (activeSats activeNtk totalScore : Z) :=
  mkCostakerRewardsTracker startPeriod activeSats activeNtk totalScore.
Definition NewCurrentRewards (currentRewards : Coins) (period : N) (totalScore : Z) :=
  mkCurrentRewards currentRewards period totalScore.
Definition NewHistoricalRewards (cumulativeRewardsPerScore : Coins) :=
  mkHistoricalRewards cumulativeRewardsPerScore.

(** *** The cache of the staking hooks: [types/staking_cache.go] *)

Record StakeInfo := mkStakeInfo { si_Amount : Dec; si_Shares : Dec }.
Definition zeroStakeInfo : StakeInfo := mkStakeInfo 0%Z 0%Z.

(** Addresses stand for their strings, as keys of the maps. *)
Record StakingCache := mkStakingCache {
  stkInfoByValByDel : gmap (list N) (gmap (list N) StakeInfo);
  activeValSet : option (gset (list N)) }.

Definition NewStakingCache : StakingCache := mkStakingCache ∅ None.

Definition SetStakedInfo (sc : StakingCache) delAddr valAddr (amtStaked delShares : Dec) : StakingCache :=
  mkStakingCache
    (<[delAddr := <[valAddr := mkStakeInfo amtStaked delShares]>
                    (default ∅ (stkInfoByValByDel sc !! delAddr))]> (stkInfoByValByDel sc))
    (activeValSet sc).
Definition GetStakedInfo (sc : StakingCache) delAddr valAddr : StakeInfo :=
  match stkInfoByValByDel sc !! delAddr with
  | None => zeroStakeInfo
  | Some m => default zeroStakeInfo (m !! valAddr)
  end.
Definition Clear (sc : StakingCache) : StakingCache := mkStakingCache ∅ None.
Definition Delete (sc : StakingCache) delAddr valAddr : StakingCache :=
  match stkInfoByValByDel sc !! delAddr with
  | None => sc
  | Some m => mkStakingCache (<[delAddr := delete valAddr m]> (stkInfoByValByDel sc)) (activeValSet sc)
  end.

(** *** The state: [keeper/keeper.go] *)

Record CoState := mkCo {
  co_params : option Params;
  currentRewards : option CurrentRewards;
  historicalRewards : gmap N HistoricalRewards;
  costakerRewardsTracker : gmap (list N) CostakerRewardsTracker;
  validatorSet : option (list SetValidator);
  stkCache : StakingCache }.

Definition co_empty : CoState := mkCo None None ∅ ∅ None NewStakingCache.

Implicit Types c : CoState.
Definition with_params c v := mkCo v (currentRewards c) (historicalRewards c)
  (costakerRewardsTracker c) (validatorSet c) (stkCache c).
Definition with_current c v := mkCo (co_params c) v (historicalRewards c)
  (costakerRewardsTracker c) (validatorSet c) (stkCache c).
Definition with_historical c v := mkCo (co_params c) (currentRewards c) v
  (costakerRewardsTracker c) (validatorSet c) (stkCache c).
Definition with_trackers c v := mkCo (co_params c) (currentRewards c) (historicalRewards c)
  v (validatorSet c) (stkCache c).
Definition with_valset c v := mkCo (co_params c) (currentRewards c) (historicalRewards c)
  (costakerRewardsTracker c) v (stkCache c).
Definition with_cache c v := mkCo (co_params c) (currentRewards c) (historicalRewards c)
  (costakerRewardsTracker c) (validatorSet c) v.

(** ** The modules of the SDK *)

(** [stakingtypes.Validator] and [Delegation], as far as the module reads them. *)
Record Validator := mkValidator {
  OperatorAddress : string;
  Tokens : Z;
  DelegatorShares : Dec;
  CommissionRate : Dec }.
Record Delegation := mkDelegation { DelegatorAddress : string; Shares : Dec }.

(** [stakingtypes.ValidatorI]: the struct above, or some other type. *)
Inductive ValidatorI := VStruct (v : Validator) | VOther.

Class StakingKeeper := {
  Stk : Type;
  GetDelegation : Stk → list N → list N → option Delegation;
  GetValidatorDelegations : Stk → list N → option (list Delegation);
  (** the handler never stops the iteration, so that this is the list of operators *)
  IterateLastValidatorPowers : Stk → option (list (list N * Z));
  ValidatorByConsAddr : Stk → list N → option ValidatorI;
  GetValidator : Stk → list N → option Validator;
  (** [Validator.TokensFromShares], which panics for a validator without shares *)
  val_TokensFromShares : Validator → Dec → option Dec;
  (** [LegacyDec.TruncateInt], [LegacyDec.MulInt] *)
  TruncateInt : Dec → Z;
  DecMulInt : Dec → Z → option Dec;
  (** [sdk.ValAddressFromBech32], [sdk.ValAddress.String] *)
  ValAddressFromBech32 : string → option (list N);
  ValString : list N → string;
}.

Class DistributionKeeper := {
  Distr : Type;
  AllocateTokensToValidator : Distr → Validator → DecCoins → option Distr;
}.

Section keeper.
Context {SC : SdkCoins} {BK : BankKeeper} {B32 : Bech32}.
Context {SK : StakingKeeper} {DK : DistributionKeeper}.
(** [sdk.AccAddress.String] *)
Context (AddrString : list N → string).

Implicit Types (costaker addr valAddr delAddr fpAddr : list N).

(** ** The monad *)

Abbreviation W := (Incentive.World (HookEnv := CoState)).

Definition M (A : Type) : Type := W → res (CoErr * W) (A * W).

#[global] Instance M_ret : MRet M := λ A a w, Ok (a, w).
#[global] Instance M_bind : MBind M := λ A B f m w,
  match m w with
  | Ok (a, w) => f a w
  | Err e => Err e
  | Panic => Panic
  end.

Definition throw {A} (e : CoErr) : M A := λ w, Err (e, w).
Definition panic {A} : M A := λ _, Panic.
Definition require_m (b : bool) (e : CoErr) : M unit := if b then mret () else throw e.
Definition of_opt {A} (e : CoErr) (o : option A) : M A :=
  match o with Some a => mret a | None => throw e end.
Definition or_panic_m {A} (o : option A) : M A :=
  match o with Some a => mret a | None => panic end.
(** A failure of the bank leaves the balances as they were. *)
Definition get_state : M CoState := λ w, Ok (w.2, w).
Definition put_state c : M unit := λ w, Ok ((), (w.1, c)).
Definition send_coins (sender recipient : string) (amt : Coins) : M unit := λ w,
  let '(s, b, c) := w in
  match SendCoinsFromModuleToModule b sender recipient amt with
  | Ok b => Ok ((), (s, b, c))
  | Err e => Err (ErrBank e, w)
  | Panic => Panic
  end.

Fixpoint iter_m {A} (f : A → M unit) (l : list A) : M unit :=
  match l with
  | [] => mret ()
  | x :: l => _ ← f x; iter_m f l
  end.

(** ** Scores, rewards and parameters: [types/score.go], [rewards.go], [params.go] *)

(** [Int.Quo] panics on zero. *)
Definition CalculateScore (scoreRatioBtcByNtk : option Z) (activeNtk activeSats : Z) : option Z :=
  ratio ← scoreRatioBtcByNtk;
  if (ratio =? 0)%Z then None else Some (Z.min activeSats (Z.quot activeNtk ratio)).

Definition set_TotalScore (t : CostakerRewardsTracker) (score : Z) : CostakerRewardsTracker :=
  mkCostakerRewardsTracker (StartPeriodCumulativeReward t) (ActiveSatoshis t) (ActiveNtk t) score.

(** The tracker with its new score, and the change. *)
Definition UpdateScore (t : CostakerRewardsTracker) (scoreRatioBtcByNtk : option Z)
  : option (CostakerRewardsTracker * Z) :=
  score ← CalculateScore scoreRatioBtcByNtk (ActiveNtk t) (ActiveSatoshis t);
  Some (set_TotalScore t score, (score - TotalScore t)%Z).

Definition Sanitize (t : CostakerRewardsTracker) : CostakerRewardsTracker :=
  if (ActiveNtk t =? -1)%Z
  then mkCostakerRewardsTracker (StartPeriodCumulativeReward t) (ActiveSatoshis t) 0 (TotalScore t)
  else t.

Definition Tracker_Validate (t : CostakerRewardsTracker) : res CoErr unit :=
  require (negb (TotalScore t <? 0)%Z) ErrInvalidCostakerRwdTracker;;
  require (negb (ActiveNtk t <? 0)%Z) ErrInvalidCostakerRwdTracker;;
  require (negb (ActiveSatoshis t <? 0)%Z) ErrInvalidCostakerRwdTracker.

Definition CurrentRewards_Validate (cr : CurrentRewards) : res CoErr unit :=
  require (IsValid (Rewards cr)) ErrInvalidCurrentRewards;;
  require (negb (IsAnyNegative (Rewards cr))) ErrInvalidCurrentRewards;;
  require (negb (cr_TotalScore cr <? 0)%Z) ErrInvalidCurrentRewards.

Definition HistoricalRewards_Validate (hr : HistoricalRewards) : res CoErr unit :=
  require (IsValid (CumulativeRewardsPerScore hr)) ErrInvalidHistoricalRewards;;
  require (negb (IsAnyNegative (CumulativeRewardsPerScore hr))) ErrInvalidHistoricalRewards.

(** [types/sdk_math.go] *)
Definition SafeNewCoin (denom : string) (amount : Z) : res CoErr Coin :=
  let coin := mkCoin denom amount in
  require (CoinValidate coin) ErrInvalidCoin;;
  mret coin.

Fixpoint mul_coins (coins : Coins) (x : Z) : res CoErr Coins :=
  match coins with
  | [] => mret []
  | coin :: coins =>
      amt ← of_option ErrInvalidAmount (SafeMul (coin_Amount coin) x);
      newCoin ← SafeNewCoin (coin_Denom coin) amt;
      rest ← mul_coins coins x;
      mret (newCoin :: rest)
  end.

Definition CoinsSafeMulInt (coins : Coins) (x : Z) : res CoErr Coins :=
  require (negb (x =? 0)%Z) ErrInvalidAmount;;
  mul_coins coins x.

(** A panic of [Coins.Add] is recovered and returned as an error. *)
Definition AddRewards (f : CurrentRewards) (coinsToAdd : Coins) : res CoErr CurrentRewards :=
  coinsToAddWithDecimals ← CoinsSafeMulInt coinsToAdd Incentive.DecimalRewards;
  rewards ← of_option ErrInvalidAmount (CoinsAdd (Rewards f) coinsToAddWithDecimals);
  mret (mkCurrentRewards rewards (Period f) (cr_TotalScore f)).

Definition validatePercentage (percentage : option Dec) : res CoErr unit :=
  p ← of_option ErrInvalidPercentage percentage;
  require (negb (LegacyOneDec <=? p)%Z) ErrPercentageTooHigh;;
  require (negb (p <? 0)%Z) ErrInvalidPercentage.

Definition Params_Validate (p : Params) : res CoErr unit :=
  validatePercentage (CostakingPortion p);;
  validatePercentage (ValidatorsPortion p);;
  validatePercentage (x ← CostakingPortion p; y ← ValidatorsPortion p; Some (x + y)%Z);;
  ratio ← of_option ErrInvalidScoreRatioBtcByNtk (ScoreRatioBtcByNtk p);
  require (negb (ratio <? 1)%Z) ErrScoreRatioTooLow.

Definition DefaultParams : Params :=
  mkParams (Some (531073446 * 10 ^ 9)%Z) (Some 200%Z) (Some (16949153 * 10 ^ 9)%Z).

Definition lift {A} (r : res CoErr A) : M A := λ w,
  match r with
  | Ok a => Ok (a, w)
  | Err e => Err (e, w)
  | Panic => Panic
  end.

(** ** Stores: [keeper/params.go], [keeper/rewards_store.go] *)

Definition SetParams (p : Params) : M unit :=
  lift (Params_Validate p);;
  c ← get_state;
  put_state (with_params c (Some p)).

(** Panics before the parameters are set. *)
Definition GetParams : M Params :=
  c ← get_state;
  or_panic_m (co_params c).

Definition GetHistoricalRewards (period : N) : M HistoricalRewards :=
  c ← get_state;
  of_opt ErrNotFound (historicalRewards c !! period).
Definition setHistoricalRewards (period : N) (histRwd : HistoricalRewards) : M unit :=
  c ← get_state;
  put_state (with_historical c (<[period := histRwd]> (historicalRewards c))).
Definition setCostakerRewardsTracker addr (rwdTracker : CostakerRewardsTracker) : M unit :=
  c ← get_state;
  put_state (with_trackers c (<[addr := rwdTracker]> (costakerRewardsTracker c))).
Definition SetCurrentRewards (currentRwd : CurrentRewards) : M unit :=
  c ← get_state;
  put_state (with_current c (Some currentRwd)).
Definition GetCurrentRewards : M CurrentRewards :=
  c ← get_state;
  of_opt ErrNotFound (currentRewards c).
Definition GetCurrentRewardsCheckFound : M (option CurrentRewards) :=
  c ← get_state;
  mret (currentRewards c).
Definition GetCostakerRewards costaker : M CostakerRewardsTracker :=
  c ← get_state;
  of_opt ErrNotFound (costakerRewardsTracker c !! costaker).
Definition GetCostakerRewardsTrackerCheckFound costaker : M (option CostakerRewardsTracker) :=
  c ← get_state;
  mret (costakerRewardsTracker c !! costaker).

(** ** The reward tracker: [keeper/reward_tracker.go] *)

Definition initializeCurrentRewards : M CurrentRewards :=
  setHistoricalRewards 0 (NewHistoricalRewards []);;
  let curRwd := NewCurrentRewards [] 1 0 in
  SetCurrentRewards curRwd;;
  mret curRwd.

Definition GetCurrentRewardsInitialized : M CurrentRewards :=
  found ← GetCurrentRewardsCheckFound;
  match found with
  | Some currentRwd => mret currentRwd
  | None => initializeCurrentRewards
  end.

Definition GetCostakerRewardsOrInitialize costaker : M CostakerRewardsTracker :=
  found ← GetCostakerRewardsTrackerCheckFound costaker;
  match found with
  | Some t => mret t
  | None =>
      currentRwd ← GetCurrentRewardsInitialized;
      mret (NewCostakerRewardsTracker (Period currentRwd) 0 0 0)
  end.

Definition AddRewardsForCostakers (rwdToAdd : Coins) : M unit :=
  currentRwd ← GetCurrentRewardsInitialized;
  currentRwd ← lift (AddRewards currentRwd rwdToAdd);
  SetCurrentRewards currentRwd.

(** The rewards of the period per score; they carry their decimals already. *)
Definition rewards_per_score (currentRwd : CurrentRewards) : option Coins :=
  if (cr_TotalScore currentRwd =? 0)%Z then Some []
  else CoinsQuoInt (Rewards currentRwd) (cr_TotalScore currentRwd).

Definition IncrementRewardsPeriod : M N :=
  currentRwd ← GetCurrentRewardsInitialized;
  currentRewardsPerScore ← or_panic_m (rewards_per_score currentRwd);
  historicalRwd ← GetHistoricalRewards (u64_sub (Period currentRwd) 1);
  newCumulative ← or_panic_m (CoinsAdd (CumulativeRewardsPerScore historicalRwd) currentRewardsPerScore);
  setHistoricalRewards (Period currentRwd) (NewHistoricalRewards newCumulative);;
  SetCurrentRewards (NewCurrentRewards [] (u64_add (Period currentRwd) 1) (cr_TotalScore currentRwd));;
  mret (Period currentRwd).

Definition calculateCoStakerRewardsBetween (t : CostakerRewardsTracker) (endingPeriod : N) : M Coins :=
  require_m (negb (endingPeriod <? StartPeriodCumulativeReward t)%N) ErrInvalidPeriod;;
  starting ← GetHistoricalRewards (StartPeriodCumulativeReward t);
  ending ← GetHistoricalRewards endingPeriod;
  '(differenceWithDecimals, isNegative) ←
    or_panic_m (CoinsSafeSub (CumulativeRewardsPerScore ending) (CumulativeRewardsPerScore starting));
  require_m (negb isNegative) ErrNegativeRewards;;
  rewardsWithDecimals ← lift (CoinsSafeMulInt differenceWithDecimals (TotalScore t));
  or_panic_m (CoinsQuoInt rewardsWithDecimals Incentive.DecimalRewards).

Definition CalculateCostakerRewards costaker (endPeriod : N) : M Coins :=
  found ← GetCostakerRewardsTrackerCheckFound costaker;
  match found with
  | None => mret []
  | Some t =>
      if (TotalScore t =? 0)%Z then mret []
      else calculateCoStakerRewardsBetween t endPeriod
  end.

(** [types.ModuleName] *)
Definition ModuleName : string := "costaking".

(** The call of x/incentive, which has no error. *)
Definition accumulate_gauge costaker (rewards : Coins) : M unit := λ w,
  let '(s, b, c) := w in
  match Incentive.AccumulateRewardGaugeForCostaker s costaker rewards with
  | Ok s => Ok ((), (s, b, c))
  | _ => Panic
  end.

Definition CalculateCostakerRewardsAndSendToGauge costaker (endPeriod : N) : M unit :=
  rewards ← CalculateCostakerRewards costaker endPeriod;
  if IsZero rewards then mret ()
  else
    accumulate_gauge costaker rewards;;
    send_coins ModuleName Incentive.ModuleName rewards.

Definition initializeCoStakerRwdTracker costaker : M unit :=
  currentRwd ← GetCurrentRewards;
  let previousPeriod := u64_sub (Period currentRwd) 1 in
  t ← GetCostakerRewards costaker;
  setCostakerRewardsTracker costaker
    (mkCostakerRewardsTracker previousPeriod (ActiveSatoshis t) (ActiveNtk t) (TotalScore t)).

Definition costakerModifiedScoreWithPreInitalization costaker
    (preInitializeCostaker : list N → M unit) : M unit :=
  endedPeriod ← IncrementRewardsPeriod;
  CalculateCostakerRewardsAndSendToGauge costaker endedPeriod;;
  preInitializeCostaker costaker;;
  initializeCoStakerRwdTracker costaker.

(** What is done between the payment and the new start period of a costaker. *)
Definition update_total_score (rwdTracker : CostakerRewardsTracker) (deltaScoreChange : Z)
    (costaker : list N) : M unit :=
  setCostakerRewardsTracker costaker rwdTracker;;
  curRwd ← GetCurrentRewards;
  let curRwd := mkCurrentRewards (Rewards curRwd) (Period curRwd) (cr_TotalScore curRwd + deltaScoreChange) in
  lift (CurrentRewards_Validate curRwd);;
  SetCurrentRewards curRwd.

Definition costakerModified costaker
    (modifyCostaker : CostakerRewardsTracker → CostakerRewardsTracker) : M unit :=
  rwdTracker ← GetCostakerRewardsOrInitialize costaker;
  let rwdTracker := Sanitize (modifyCostaker rwdTracker) in
  lift (Tracker_Validate rwdTracker);;
  params ← GetParams;
  '(rwdTracker, deltaScoreChange) ← or_panic_m (UpdateScore rwdTracker (ScoreRatioBtcByNtk params));
  if (deltaScoreChange =? 0)%Z then setCostakerRewardsTracker costaker rwdTracker
  else costakerModifiedScoreWithPreInitalization costaker
         (update_total_score rwdTracker deltaScoreChange).

(** Changes of the active amounts. *)
Definition add_sats (n : Z) (t : CostakerRewardsTracker) : CostakerRewardsTracker :=
  mkCostakerRewardsTracker (StartPeriodCumulativeReward t) (ActiveSatoshis t + n) (ActiveNtk t) (TotalScore t).
Definition add_ntk (n : Z) (t : CostakerRewardsTracker) : CostakerRewardsTracker :=
  mkCostakerRewardsTracker (StartPeriodCumulativeReward t) (ActiveSatoshis t) (ActiveNtk t + n) (TotalScore t).

Definition costakerModifiedActiveAmounts costaker (newActiveSatoshi newActiveNtk : Z) : M unit :=
  costakerModified costaker (λ t,
    mkCostakerRewardsTracker (StartPeriodCumulativeReward t) newActiveSatoshi newActiveNtk (TotalScore t)).

Definition costakerWithdrawRewards costaker : M unit :=
  costakerModifiedScoreWithPreInitalization costaker (λ _, mret ()).

(** ** A new ratio: [keeper/score.go] *)

Definition UpdateCurrentRewardsTotalScore (totalScore : Z) : M unit :=
  IncrementRewardsPeriod;;
  currentRwd ← GetCurrentRewards;
  SetCurrentRewards (mkCurrentRewards (Rewards currentRwd) (Period currentRwd) totalScore).

(** The costakers in the order of their addresses. *)
Definition costakers c : list (list N * CostakerRewardsTracker) :=
  merge_sort (λ x y, Incentive.key_le x.1 y.1) (map_to_list (costakerRewardsTracker c)).

(** The new score of one costaker; the total score is accumulated. *)
Definition update_costaker (scoreRatioBtcByNtk : option Z) (endedPeriod : N) (totalScore : Z)
    (entry : list N * CostakerRewardsTracker) : M Z :=
  let '(costaker, rwdTracker) := entry in
  '(rwdTracker, deltaScoreChange) ← or_panic_m (UpdateScore rwdTracker scoreRatioBtcByNtk);
  let totalScore := (totalScore + TotalScore rwdTracker)%Z in
  (if (deltaScoreChange =? 0)%Z then setCostakerRewardsTracker costaker rwdTracker
   else
     CalculateCostakerRewardsAndSendToGauge costaker endedPeriod;;
     setCostakerRewardsTracker costaker rwdTracker;;
     initializeCoStakerRwdTracker costaker);;
  mret totalScore.

Fixpoint IterateCostakers (f : Z → list N * CostakerRewardsTracker → M Z) (x : Z)
    (l : list (list N * CostakerRewardsTracker)) : M Z :=
  match l with
  | [] => mret x
  | entry :: l => x ← f x entry; IterateCostakers f x l
  end.

Definition UpdateAllCostakersScore (scoreRatioBtcByNtk : option Z) : M unit :=
  endedPeriod ← IncrementRewardsPeriod;
  currentRwd ← GetCurrentRewards;
  c ← get_state;
  totalScore ← IterateCostakers (update_costaker scoreRatioBtcByNtk endedPeriod) 0 (costakers c);
  lift (CurrentRewards_Validate
          (mkCurrentRewards (Rewards currentRwd) (Period currentRwd) totalScore));;
  UpdateCurrentRewardsTotalScore totalScore.

(** ** Fees: [keeper/intercept_fee_collector.go], [abci.go] *)

Context (stk : Stk) (feeCollectorName : string).

(** [distrtypes.ModuleName] *)
Definition distrModuleName : string := "distribution".

Definition set_CommissionRate (v : Validator) (rate : Dec) : Validator :=
  mkValidator (OperatorAddress v) (Tokens v) (DelegatorShares v) rate.

(** The share of one vote, the address and the power of a validator. *)
Definition allocate_vote (valsRwds : DecCoins) (totalPwrDec : Dec) (dk : Distr) (vote : list N * Z)
  : M Distr :=
  validator ← of_opt ErrStaking (ValidatorByConsAddr stk vote.1);
  powerFraction ← or_panic_m (QuoTruncate (LegacyNewDec vote.2) totalPwrDec);
  rwd ← or_panic_m (MulDecTruncate valsRwds powerFraction);
  match validator with
  | VOther => throw ErrInvalidType
  | VStruct v =>
      of_opt ErrDistribution (AllocateTokensToValidator dk (set_CommissionRate v LegacyOneDec) rwd)
  end.

Fixpoint allocate_votes (valsRwds : DecCoins) (totalPwrDec : Dec) (dk : Distr)
    (bondedVotes : list (list N * Z)) : M Distr :=
  match bondedVotes with
  | [] => mret dk
  | vote :: votes =>
      dk ← allocate_vote valsRwds totalPwrDec dk vote;
      allocate_votes valsRwds totalPwrDec dk votes
  end.

Definition allocateValidatorsRewards (dk : Distr) (bondedVotes : list (list N * Z)) (rwds : Coins)
  : M Distr :=
  if negb (IsAllPositive rwds) then mret dk
  else
    valsRwds ← or_panic_m (NewDecCoinsFromCoins rwds);
    let totalPwr := foldl (λ t v, int64 (t + v.2)) 0%Z bondedVotes in
    if (totalPwr =? 0)%Z then mret dk
    else
      send_coins feeCollectorName distrModuleName rwds;;
      allocate_votes valsRwds (LegacyNewDec totalPwr) dk bondedVotes.

Definition accumulateCostakingRewards (costakingRewards : Coins) : M unit :=
  if negb (IsAllPositive costakingRewards) then mret ()
  else
    send_coins feeCollectorName ModuleName costakingRewards;;
    AddRewardsForCostakers costakingRewards.

Definition get_bank : M Bank := λ w, Ok (w.1.2, w).

Definition HandleCoinsInFeeCollector (dk : Distr) (bondedVotes : list (list N * Z)) : M Distr :=
  feeCollector ← or_panic_m (GetModuleAccount feeCollectorName);
  b ← get_bank;
  let feesCollectedInt := GetAllBalances b feeCollector in
  if negb (IsAllPositive feesCollectedInt) then mret dk
  else
    params ← GetParams;
    validatorsPortion ← or_panic_m (ValidatorsPortion params);
    valDirectRwds ← or_panic_m (Incentive.GetCoinsPortion feesCollectedInt validatorsPortion);
    dk ← allocateValidatorsRewards dk bondedVotes valDirectRwds;
    costakingPortion ← or_panic_m (CostakingPortion params);
    costakingRewards ← or_panic_m (Incentive.GetCoinsPortion feesCollectedInt costakingPortion);
    accumulateCostakingRewards costakingRewards;;
    mret dk.

Definition BeginBlocker (height : Z) (dk : Distr) (bondedVotes : list (list N * Z)) : M Distr :=
  if (height <=? 0)%Z then mret dk else HandleCoinsInFeeCollector dk bondedVotes.

(** [EndBlocker] clears the cache. *)
Definition EndBlock : M unit :=
  c ← get_state;
  put_state (with_cache c (Clear (stkCache c))).

(** ** Hooks of x/incentive: [keeper/hooks_incentive.go] *)

Definition BeforeRewardWithdraw : Incentive.Hook (HookEnv := CoState) := λ w sType addr,
  if decide (sType ≠ Incentive.COSTAKER) then Ok w
  else match costakerWithdrawRewards addr w with
       | Ok (_, w) => Ok w
       | Err (_, w) => Err (Incentive.ErrHook, w)
       | Panic => Panic
       end.

(** ** Hooks of x/finality: [keeper/hooks_finality.go] *)

Definition AfterBtcDelegationUnbonded (fpAddr btcDelAddr : list N)
    (isFpActiveInPrevSet isFpActiveInCurrSet : bool) (sats : N) : M unit :=
  if negb isFpActiveInPrevSet then mret ()
  else costakerModified btcDelAddr (add_sats (- int64 (Z.of_N sats))).

Definition AfterBtcDelegationActivated (fpAddr btcDelAddr : list N)
    (isFpActiveInPrevSet isFpActiveInCurrSet : bool) (sats : N) : M unit :=
  if negb isFpActiveInPrevSet then mret ()
  else costakerModified btcDelAddr (add_sats (int64 (Z.of_N sats))).

(** [f] for every delegation of a provider with its active satoshis, as x/incentive
    lists them at [blockHeight]. *)
Definition for_delegations (blockHeight : N) fpAddr (f : list N → Z → M unit) : M unit := λ w,
  match Incentive.IterateBTCDelegationSatsUpdated AddrString w.1.1 blockHeight fpAddr
          (pair ErrInvalidAddress)
          (λ w del activeSats,
             match f del activeSats w with
             | Ok (_, w) => Ok w
             | Err e => Err e
             | Panic => Panic
             end) w with
  | Ok w => Ok ((), w)
  | Err e => Err e
  | Panic => Panic
  end.

Definition AfterAncFpEntersActiveSet (blockHeight : N) fpAddr : M unit :=
  for_delegations blockHeight fpAddr (λ del activeSats, costakerModified del (add_sats activeSats)).
Definition AfterAncFpRemovedFromActiveSet (blockHeight : N) fpAddr : M unit :=
  for_delegations blockHeight fpAddr (λ del activeSats, costakerModified del (add_sats (- activeSats))).

(** ** Hooks of the staking module: [keeper/hooks_staking.go]

    [height] is the height of the block header. *)

Definition TokensFromShares valAddr (delShares : Dec) : M Dec :=
  val ← of_opt ErrStaking (GetValidator stk valAddr);
  or_panic_m (val_TokensFromShares val delShares).

Definition buildCurrEpochValSetMap (height : Z) : M (gset (list N)) :=
  if (height =? 0)%Z then mret ∅
  else
    c ← get_state;
    valSet ← of_opt ErrNotFound (validatorSet c);
    mret (list_to_set (sv_Addr <$> valSet)).

Definition set_active c (v : gset (list N)) : CoState :=
  with_cache c (mkStakingCache (stkInfoByValByDel (stkCache c)) (Some v)).

Definition GetActiveValidatorSet (fetchFn : M (gset (list N))) : M (gset (list N)) :=
  c ← get_state;
  match activeValSet (stkCache c) with
  | Some v => mret v
  | None =>
      valSet ← fetchFn;
      c ← get_state;
      put_state (set_active c valSet);;
      mret valSet
  end.

(** The map it writes to is the one in the cache. *)
Definition assumeActiveValidatorIfGenesis (height : Z) (valSet : gset (list N)) valAddr
  : M (gset (list N)) :=
  if (height =? 0)%Z then
    c ← get_state;
    let valSet := {[valAddr]} ∪ valSet in
    put_state (set_active c valSet);;
    mret valSet
  else mret valSet.

Definition isActiveValidator (height : Z) valAddr : M bool :=
  valSet ← GetActiveValidatorSet (buildCurrEpochValSetMap height);
  valSet ← assumeActiveValidatorIfGenesis height valSet valAddr;
  mret (bool_decide (valAddr ∈ valSet)).

(** [defer stkCache.Delete(delAddr, valAddr)] *)
Definition defer_delete {A} delAddr valAddr (m : M A) : M A := λ w,
  let del (w : W) := (w.1, with_cache w.2 (Delete (stkCache w.2) delAddr valAddr)) in
  match m w with
  | Ok (a, w) => Ok (a, del w)
  | Err (e, w) => Err (e, del w)
  | Panic => Panic
  end.

Definition AfterDelegationModified (height : Z) delAddr valAddr : M unit :=
  defer_delete delAddr valAddr (
    active ← isActiveValidator height valAddr;
    if negb active then mret ()
    else
      del ← of_opt ErrStaking (GetDelegation stk delAddr valAddr);
      delTokens ← TokensFromShares valAddr (Shares del);
      c ← get_state;
      let infoBefore := GetStakedInfo (stkCache c) delAddr valAddr in
      let delTokenChange := TruncateInt (delTokens - si_Amount infoBefore)%Z in
      costakerModified delAddr (add_ntk delTokenChange)).

Definition BeforeDelegationRemoved (height : Z) delAddr valAddr : M unit :=
  defer_delete delAddr valAddr (
    active ← isActiveValidator height valAddr;
    if negb active then mret ()
    else
      del ← of_opt ErrStaking (GetDelegation stk delAddr valAddr);
      delTokens ← TokensFromShares valAddr (Shares del);
      let delTokenChange := TruncateInt delTokens in
      if (delTokenChange =? 0)%Z then mret ()
      else costakerModified delAddr (add_ntk (- delTokenChange))).

Definition BeforeDelegationSharesModified (height : Z) delAddr valAddr : M unit :=
  active ← isActiveValidator height valAddr;
  if negb active then mret ()
  else
    match GetDelegation stk delAddr valAddr with
    | None => mret ()
    | Some del =>
        delTokens ← TokensFromShares valAddr (Shares del);
        c ← get_state;
        put_state (with_cache c (SetStakedInfo (stkCache c) delAddr valAddr delTokens (Shares del)))
    end.

Definition slash_delegation (val : Validator) (fraction : Dec) (del : Delegation) : M unit :=
  delAddr ← or_panic_m (AccAddressFromBech32 (DelegatorAddress del));
  tokens ← or_panic_m (val_TokensFromShares val (Shares del));
  slashed ← or_panic_m (DecMulInt fraction (TruncateInt tokens));
  let slashAmount := TruncateInt slashed in
  costakerModified delAddr (add_ntk (- slashAmount)).

Definition BeforeValidatorSlashed (height : Z) valAddr (fraction : Dec) : M unit :=
  active ← isActiveValidator height valAddr;
  if negb active then mret ()
  else
    delegations ← of_opt ErrStaking (GetValidatorDelegations stk valAddr);
    val ← of_opt ErrStaking (GetValidator stk valAddr);
    iter_m (slash_delegation val fraction) delegations.

(** ** Hooks of x/epoching: [keeper/hooks_epoching.go], [keeper/validator.go] *)

Fixpoint set_validators (newValAddrs : list (list N)) : M (list SetValidator) :=
  match newValAddrs with
  | [] => mret []
  | valAddr :: l =>
      val ← of_opt ErrStaking (GetValidator stk valAddr);
      rest ← set_validators l;
      mret (mkSetValidator valAddr (Tokens val) (DelegatorShares val) :: rest)
  end.

Definition updateValidatorSet (newValAddrs : list (list N)) : M unit :=
  vs ← set_validators newValAddrs;
  c ← get_state;
  put_state (with_valset c (Some vs)).

Definition buildNewActiveValSetMap : M (gset (list N) * list (list N)) :=
  powers ← of_opt ErrStaking (IterateLastValidatorPowers stk);
  mret (list_to_set (fst <$> powers), fst <$> powers).

(** An error is logged. *)
Definition logged (m : M unit) : M unit := λ w,
  match m w with
  | Err (_, w) => Ok ((), w)
  | r => r
  end.

Definition AfterEpochBegins : M unit :=
  c ← get_state;
  match validatorSet c with
  | Some _ => mret ()
  | None =>
      logged (
        '(_, valAddrs) ← buildNewActiveValSetMap;
        updateValidatorSet valAddrs)
  end.

Definition BeforeEpochEnds (height : Z) : M unit :=
  logged (GetActiveValidatorSet (buildCurrEpochValSetMap height);; mret ()).

Definition update_delegation (val : Validator) (sign : Z) (del : Delegation) : M unit :=
  delAddr ← or_panic_m (AccAddressFromBech32 (DelegatorAddress del));
  delTokens ← or_panic_m (val_TokensFromShares val (Shares del));
  costakerModified delAddr (add_ntk (sign * TruncateInt delTokens)).

(** [sign] is 1 to add the tokens, -1 to remove them. *)
Definition updateCoStkTrackerForDelegators (val : Validator) (sign : Z) : M unit :=
  valAddr ← of_opt ErrInvalidAddress (ValAddressFromBech32 (OperatorAddress val));
  delegations ← of_opt ErrStaking (GetValidatorDelegations stk valAddr);
  iter_m (update_delegation val sign) delegations.

Definition addNtkForDelegators valAddr : M unit :=
  val ← of_opt ErrStaking (GetValidator stk valAddr);
  updateCoStkTrackerForDelegators val 1.
Definition removeNtkForDelegators valAddr : M unit :=
  val ← of_opt ErrStaking (GetValidator stk valAddr);
  updateCoStkTrackerForDelegators val (-1).

(** [sort.Strings] on the addresses. *)
Definition sort_addrs (l : list (list N)) : list (list N) :=
  merge_sort (λ a b, Incentive.key_le (Incentive.ascii_codes (ValString a))
                                      (Incentive.ascii_codes (ValString b))) l.

Definition AfterEpochEnds (height : Z) : M unit :=
  logged (
    prevValMap ← GetActiveValidatorSet (buildCurrEpochValSetMap height);
    '(newValMap, newValAddrs) ← buildNewActiveValSetMap;
    iter_m (λ valAddr, if decide (valAddr ∈ prevValMap) then mret () else addNtkForDelegators valAddr)
      newValAddrs;;
    iter_m (λ valAddr, if decide (valAddr ∈ newValMap) then mret () else removeNtkForDelegators valAddr)
      (sort_addrs (elements prevValMap));;
    updateValidatorSet newValAddrs).

(** ** Messages: [keeper/msg_server.go] *)

Record MsgUpdateParams := mkMsgUpdateParams { up_Authority : string; up_Params : Params }.

Context (authority : string).

(** An error of either call is reported as an invalid proposal. *)
Definition invalid_proposal (m : M unit) : M unit := λ w,
  match m w with
  | Err (_, w) => Err (ErrInvalidProposalMsg, w)
  | r => r
  end.

(** [Int.Equal] panics on a parameter that is not set. *)
Definition UpdateParams (req : MsgUpdateParams) : M unit :=
  require_m (bool_decide (authority = up_Authority req)) ErrInvalidSigner;;
  invalid_proposal (lift (Params_Validate (up_Params req)));;
  currentParams ← GetParams;
  oldRatio ← or_panic_m (ScoreRatioBtcByNtk currentParams);
  newRatio ← or_panic_m (ScoreRatioBtcByNtk (up_Params req));
  (if (newRatio =? oldRatio)%Z then mret ()
   else invalid_proposal (UpdateAllCostakersScore (ScoreRatioBtcByNtk (up_Params req))));;
  invalid_proposal (SetParams (up_Params req)).

(** ** Genesis: [types/genesis.go], [keeper/genesis.go] *)

Record GenesisState := mkGenesisState {
  gs_Params : Params;
  gs_CurrentRewards : option CurrentRewards;
  gs_HistoricalRewards : list (N * option HistoricalRewards);
  gs_CostakersRewardsTracker : list (string * option CostakerRewardsTracker);
  gs_ValidatorSet : list SetValidator }.

Definition HistoricalRewardsEntry_Validate (e : N * option HistoricalRewards) : res CoErr unit :=
  hr ← of_option ErrInvalidHistoricalRewards e.2;
  HistoricalRewards_Validate hr.

Definition validateAddrStr (addr : string) : res CoErr unit :=
  require (negb (bool_decide (addr = ""%string))) ErrInvalidAddress;;
  of_option ErrInvalidAddress (AccAddressFromBech32 addr);;
  mret ().

Definition CostakerRewardsTrackerEntry_Validate (e : string * option CostakerRewardsTracker)
  : res CoErr unit :=
  validateAddrStr e.1;;
  t ← of_option ErrInvalidCostakerRwdTracker e.2;
  Tracker_Validate t.

(** A genesis without current rewards is valid. *)
Definition CurrentRewardsEntry_Validate (e : option CurrentRewards) : res CoErr unit :=
  match e with
  | None => mret ()
  | Some cr => CurrentRewards_Validate cr
  end.

Definition DefaultGenesis : GenesisState := mkGenesisState DefaultParams None [] [] [].

Definition GenesisState_Validate (gs : GenesisState) : res CoErr unit :=
  CurrentRewardsEntry_Validate (gs_CurrentRewards gs);;
  ValidateEntries ErrDuplicate HistoricalRewardsEntry_Validate fst (gs_HistoricalRewards gs);;
  ValidateEntries ErrDuplicate CostakerRewardsTrackerEntry_Validate fst (gs_CostakersRewardsTracker gs);;
  Params_Validate (gs_Params gs).

Definition import_tracker (e : string * option CostakerRewardsTracker) : M unit :=
  costakerAddr ← of_opt ErrInvalidAddress (AccAddressFromBech32 e.1);
  t ← or_panic_m e.2;
  setCostakerRewardsTracker costakerAddr t.

Definition import_historical (e : N * option HistoricalRewards) : M unit :=
  hr ← or_panic_m e.2;
  setHistoricalRewards e.1 hr.

Definition InitGenesis (gs : GenesisState) : M unit :=
  iter_m import_tracker (gs_CostakersRewardsTracker gs);;
  iter_m import_historical (gs_HistoricalRewards gs);;
  match gs_CurrentRewards gs with
  | None => mret ()
  | Some cr => SetCurrentRewards cr
  end;;
  (if bool_decide (gs_ValidatorSet gs = []) then mret ()
   else c ← get_state; put_state (with_valset c (Some (gs_ValidatorSet gs))));;
  SetParams (gs_Params gs).

Definition getHistoricalRewardsEntries c : res CoErr (list (N * option HistoricalRewards)) :=
  validate_all HistoricalRewardsEntry_Validate
    ((λ e, (e.1, Some e.2)) <$> kv_asc (historicalRewards c)).

Definition getCostakerRewardsTrackerEntries c
  : res CoErr (list (string * option CostakerRewardsTracker)) :=
  validate_all CostakerRewardsTrackerEntry_Validate
    ((λ e, (AddrString e.1, Some e.2)) <$> costakers c).

Definition ExportGenesis : M GenesisState :=
  c ← get_state;
  historical ← lift (getHistoricalRewardsEntries c);
  trackers ← lift (getCostakerRewardsTrackerEntries c);
  params ← GetParams;
  mret (mkGenesisState params (currentRewards c) historical trackers (default [] (validatorSet c))).

(** ** Queries: [keeper/grpc_query.go] *)

Definition q_Params : M Params := GetParams.
Definition q_HistoricalRewards (period : N) : M Coins :=
  rewards ← GetHistoricalRewards period;
  mret (CumulativeRewardsPerScore rewards).
Definition q_CurrentRewards : M CurrentRewards := GetCurrentRewards.

Definition q_CostakerRewardsTracker (costakerAddress : string) : M CostakerRewardsTracker :=
  require_m (negb (bool_decide (costakerAddress = ""%string))) ErrInvalidAddress;;
  costakerAddr ← of_opt ErrInvalidAddress (AccAddressFromBech32 costakerAddress);
  GetCostakerRewards costakerAddr.
End keeper.
End Costaking.
