(* ===== verification/CostakingSpec.v ===== *)
(** Correctness of the reward tracker of x/costaking.

    [pool_ok] is what holds of the pool at all times: every past period is
    recorded, cumulative rewards only grow, and a costaker with a score starts at
    a recorded period.  [debt] is what the pool owes in one denomination, with the
    decimals of its rewards.  Closing a period never increases it; paying a costaker
    moves the coins of his claim, rounded down, to x/incentive together with the
    credit of his gauge.  [keeps] is the triple of an operation that preserves the
    invariant [co_inv] whether it succeeds or fails: the coins it credits in
    x/incentive are brought along. *)
From stdpp Require Import base numbers list sorting gmap strings.
From S2P Require Import Prelude KVStore Bytes BtcStaking Finality FinalityPower SdkCoins ZSum Incentive IncentiveSpec IncentiveState Costaking.

Module CostakingSpec.
Import BtcStaking Costaking.
Local Open Scope Z_scope.

Abbreviation D := Incentive.DecimalRewards.

(** One round of evaluation of a program of the monad. *)
Ltac mrun := unfold mbind, M_bind, mret, M_ret; cbn [get_state put_state fst snd].

Section pool.
Context {SC : SdkCoins} {SCL : SdkCoinsLaws} {BK : BankKeeper} {BL : BankLaws}.
Context (co_addr inc_addr : list N).
Context (Hco : GetModuleAccount ModuleName = Some co_addr).
Context (Hinc : GetModuleAccount Incentive.ModuleName = Some inc_addr).
Implicit Types (c : CoState) (s : Incentive.IncState) (b : Bank) (a : list N) (d : string) (p : N).

Lemma co_ne_inc : co_addr ≠ inc_addr.
Proof. intros ->. pose proof (module_account_inj _ _ _ Hco Hinc). done. Qed.

(** ** The pool *)

Definition cum (hist : gmap N HistoricalRewards) p d : Z :=
  from_option (λ h, amount_of (CumulativeRewardsPerScore h) d) 0 (hist !! p).

Definition last_cum c d : Z :=
  from_option (λ cr, cum (historicalRewards c) (Period cr - 1) d) 0 (currentRewards c).

Definition score_sum (trk : gmap (list N) CostakerRewardsTracker) : Z :=
  zsum (λ _ t, TotalScore t) trk.

Record pool_ok c : Prop := {
  pk_current cr : currentRewards c = Some cr →
    coins_pos (Rewards cr) ∧ (1 ≤ Period cr < 2 ^ 64)%N ∧ 0 ≤ cr_TotalScore cr;
  pk_recorded cr p : currentRewards c = Some cr → (p < Period cr)%N →
    ∃ h, historicalRewards c !! p = Some h ∧ coins_pos (CumulativeRewardsPerScore h);
  pk_hist p h : historicalRewards c !! p = Some h → coins_pos (CumulativeRewardsPerScore h);
  pk_monotone cr p d : currentRewards c = Some cr → (p < Period cr)%N →
    cum (historicalRewards c) p d ≤ last_cum c d;
  pk_tracker a t : costakerRewardsTracker c !! a = Some t →
    0 ≤ TotalScore t ∧ 0 ≤ ActiveSatoshis t ∧ 0 ≤ ActiveNtk t ∧
    ∃ cr, currentRewards c = Some cr ∧
      (TotalScore t ≠ 0 → (StartPeriodCumulativeReward t < Period cr)%N);
}.

(** The score on which rewards are divided is the sum of the scores. *)
Definition total_ok c : Prop :=
  ∀ cr, currentRewards c = Some cr → cr_TotalScore cr = score_sum (costakerRewardsTracker c).

Definition claim c d (t : CostakerRewardsTracker) : Z :=
  TotalScore t * (last_cum c d - cum (historicalRewards c) (StartPeriodCumulativeReward t) d).
Definition claims c d (trk : gmap (list N) CostakerRewardsTracker) : Z := zsum (λ _, claim c d) trk.
Definition claim_of c a d : Z := from_option (claim c d) 0 (costakerRewardsTracker c !! a).
Definition pending c d : Z := from_option (λ cr, amount_of (Rewards cr) d) 0 (currentRewards c).

(** What the pool owes, scaled by [DecimalRewards]. *)
Definition debt c d : Z := pending c d + claims c d (costakerRewardsTracker c).

(** What an operation on the pool leaves alone. *)
Definition same_rest c c' : Prop :=
  co_params c' = co_params c ∧ validatorSet c' = validatorSet c ∧ stkCache c' = stkCache c.

(** *** Facts *)

Lemma co_last_cum_eq c cr d : currentRewards c = Some cr →
  last_cum c d = cum (historicalRewards c) (Period cr - 1) d.
Proof. intros Hc. unfold last_cum. by rewrite Hc. Qed.

Lemma claim_zero c d t : TotalScore t = 0 → claim c d t = 0.
Proof. intros H0. unfold claim. rewrite H0. lia. Qed.

Lemma co_claim_nonneg c a d t : pool_ok c → costakerRewardsTracker c !! a = Some t → 0 ≤ claim c d t.
Proof.
  intros Hok Ht. destruct (pk_tracker _ Hok a t Ht) as (Hs & _ & _ & cr & Hcr & Hlt).
  destruct (decide (TotalScore t = 0)) as [H0|H0]; [by rewrite claim_zero|].
  pose proof (pk_monotone _ Hok cr _ d Hcr (Hlt H0)). unfold claim. nia.
Qed.

Lemma claim_of_nonneg c a d : pool_ok c → 0 ≤ claim_of c a d.
Proof.
  intros Hok. unfold claim_of. destruct (costakerRewardsTracker c !! a) as [t|] eqn:Ht; [|done].
  by apply (co_claim_nonneg c a).
Qed.

Lemma pending_nonneg c d : pool_ok c → 0 ≤ pending c d.
Proof.
  intros Hok. unfold pending. destruct (currentRewards c) as [cr|] eqn:Hcr; [|done].
  apply (pk_current _ Hok) in Hcr as (Hp & _). by apply coins_amount_nonneg, coins_pos_nonneg.
Qed.

Lemma claim_of_le_debt c a d : pool_ok c → claim_of c a d ≤ debt c d.
Proof.
  intros Hok. pose proof (pending_nonneg c d Hok). unfold debt, claim_of, claims.
  destruct (costakerRewardsTracker c !! a) as [t|] eqn:Ht; cbn [from_option].
  - pose proof (zsum_member (λ _, claim c d) (costakerRewardsTracker c) a t) as Hm. cbv beta in Hm.
    assert (claim c d t ≤ zsum (λ _, claim c d) (costakerRewardsTracker c)); [|lia].
    apply Hm; [|done]. intros k x Hx. by apply (co_claim_nonneg c k).
  - assert (0 ≤ zsum (λ _, claim c d) (costakerRewardsTracker c)); [|lia].
    apply zsum_nonneg. intros k x Hx. by apply (co_claim_nonneg c k).
Qed.

Lemma score_sum_nonneg c : pool_ok c → 0 ≤ score_sum (costakerRewardsTracker c).
Proof. intros Hok. apply zsum_nonneg. intros k t Ht. by apply (pk_tracker _ Hok) in Ht as [? _]. Qed.

Lemma score_sum_insert trk a t :
  score_sum (<[a := t]> trk) = score_sum trk + TotalScore t - from_option TotalScore 0 (trk !! a).
Proof.
  unfold score_sum. rewrite zsum_insert, (zsum_delete _ trk a). destruct (trk !! a); cbn; lia.
Qed.

(** ** Closing a period *)

(** The state with a period [p] closed: [h] is the new entry. *)
Definition after_period c (cr : CurrentRewards) (h : HistoricalRewards) : CoState :=
  with_current (with_historical c (<[Period cr := h]> (historicalRewards c)))
    (Some (NewCurrentRewards [] (Period cr + 1) (cr_TotalScore cr))).

Lemma co_cum_after_period c cr h p d :
  cum (historicalRewards (after_period c cr h)) p d =
  if decide (p = Period cr) then amount_of (CumulativeRewardsPerScore h) d
  else cum (historicalRewards c) p d.
Proof.
  unfold cum, after_period. cbn. case_decide as Hp.
  - subst p. by rewrite lookup_insert_eq.
  - by rewrite lookup_insert_ne.
Qed.

Lemma co_last_cum_after_period c cr h d :
  last_cum (after_period c cr h) d = amount_of (CumulativeRewardsPerScore h) d.
Proof.
  unfold last_cum. cbn [currentRewards after_period with_current from_option NewCurrentRewards Period].
  rewrite co_cum_after_period, decide_True; [done|]. lia.
Qed.

Lemma co_after_period_ok c cr h : pool_ok c → currentRewards c = Some cr → (Period cr + 1 < 2 ^ 64)%N →
  coins_pos (CumulativeRewardsPerScore h) →
  (∀ d, last_cum c d ≤ amount_of (CumulativeRewardsPerScore h) d) →
  pool_ok (after_period c cr h).
Proof.
  intros Hok Hcr Hp Hh Hle. destruct (pk_current _ Hok cr Hcr) as (_ & Hp1 & Hs). split.
  - cbn. intros cr' [= <-]. cbn. split; [apply coins_pos_nil|]. split; [lia|done].
  - cbn. intros cr' p [= <-] Hlt. cbn in Hlt. destruct (decide (p = Period cr)) as [->|Hne].
    + rewrite lookup_insert_eq. by eexists.
    + rewrite lookup_insert_ne by done. apply (pk_recorded _ Hok cr); [done|lia].
  - cbn. intros p h' [[_ <-]|[_ Hh']]%lookup_insert_Some; [done|]. by eapply (pk_hist _ Hok).
  - intros cr' p d Hcr' Hlt. cbn in Hcr'. injection Hcr' as <-. cbn in Hlt.
    rewrite co_cum_after_period, co_last_cum_after_period. case_decide; [done|].
    etrans; [|apply Hle]. apply (pk_monotone _ Hok cr); [done|lia].
  - cbn. intros a t Ht. destruct (pk_tracker _ Hok a t Ht) as (Hsc & Hsa & Hnt & cr' & Hcr' & Hlt).
    assert (cr' = cr) as -> by congruence. repeat (split; [done|]). eexists; split; [done|].
    cbn. intros H0. specialize (Hlt H0). lia.
Qed.

Lemma co_claims_after_period c cr h d : pool_ok c → currentRewards c = Some cr →
  claims (after_period c cr h) d (costakerRewardsTracker c) =
  claims c d (costakerRewardsTracker c) +
  score_sum (costakerRewardsTracker c) * (amount_of (CumulativeRewardsPerScore h) d - last_cum c d).
Proof.
  intros Hok Hcr. unfold claims, score_sum. rewrite <-zsum_mul_r, <-zsum_add. apply zsum_ext.
  intros a t Ht. destruct (pk_tracker _ Hok a t Ht) as (_ & _ & _ & cr' & Hcr' & Hlt).
  assert (cr' = cr) as -> by congruence. unfold claim. rewrite co_last_cum_after_period.
  destruct (decide (TotalScore t = 0)) as [->|H0]; [lia|].
  rewrite co_cum_after_period, decide_False; [lia|]. specialize (Hlt H0). lia.
Qed.

Lemma rewards_per_score_spec cr q : coins_pos (Rewards cr) → 0 ≤ cr_TotalScore cr →
  rewards_per_score cr = Some q →
  coins_nonneg q ∧ ∀ d,
    0 ≤ amount_of q d ∧ cr_TotalScore cr * amount_of q d ≤ amount_of (Rewards cr) d ∧
    (amount_of (Rewards cr) d = 0 → amount_of q d = 0).
Proof.
  intros Hc Hs. unfold rewards_per_score. pose proof (coins_pos_nonneg _ Hc) as Hnn.
  destruct (Z.eqb_spec (cr_TotalScore cr) 0) as [H0|H0].
  - intros [= <-]. split; [apply coins_nonneg_nil|]. intros d.
    pose proof (coins_amount_nonneg _ d Hnn). rewrite H0, amount_of_nil. lia.
  - intros Hq. apply quo_amount in Hq as (Hpos & Hqn & Hqd); [|done..]. split; [done|].
    intros d. rewrite Hqd. pose proof (coins_amount_nonneg _ d Hnn). split; [|split].
    + by apply Z.div_pos.
    + by apply Z.mul_div_le.
    + intros ->. apply Z.div_0_l. lia.
Qed.

(** The total score is right, or there is nothing to divide. *)
Definition divides c : Prop := total_ok c ∨ ∀ d, pending c d = 0.

Record opened c (ended : N) c' : Prop := {
  op_ok : pool_ok c';
  op_rest : same_rest c c';
  op_trackers : costakerRewardsTracker c' = costakerRewardsTracker c;
  op_current : ∃ cr, currentRewards c' = Some cr ∧ Rewards cr = [] ∧ ended = (Period cr - 1)%N ∧
    cr_TotalScore cr = from_option cr_TotalScore 0 (currentRewards c) ∧
    Period cr = (from_option Period 1 (currentRewards c) + 1)%N;
  op_debt d : debt c' d ≤ debt c d;
}.

Lemma opened_period c cr h q : pool_ok c → divides c → currentRewards c = Some cr →
  (Period cr + 1 < 2 ^ 64)%N → coins_pos (CumulativeRewardsPerScore h) →
  rewards_per_score cr = Some q →
  (∀ d, amount_of (CumulativeRewardsPerScore h) d = last_cum c d + amount_of q d) →
  opened c (Period cr) (after_period c cr h).
Proof.
  intros Hok Hdiv Hcr Hp Hh Hq Hsum. destruct (pk_current _ Hok cr Hcr) as (Hpos & Hp1 & Hs).
  apply rewards_per_score_spec in Hq as [_ Hq]; [|done..]. split.
  - apply co_after_period_ok; try done. intros d. rewrite Hsum. destruct (Hq d). lia.
  - done.
  - done.
  - eexists. split; [done|]. rewrite Hcr. cbn. split; [done|]. split; [lia|]. done.
  - intros d. destruct (Hq d) as (Hq0 & Hle & Hz). unfold debt.
    change (costakerRewardsTracker (after_period c cr h)) with (costakerRewardsTracker c).
    rewrite co_claims_after_period, Hsum by done. unfold pending. rewrite Hcr.
    cbn [after_period with_current currentRewards from_option Rewards NewCurrentRewards].
    rewrite amount_of_nil. destruct Hdiv as [Ht|Ht].
    + rewrite <-(Ht cr Hcr). lia.
    + specialize (Ht d). unfold pending in Ht. rewrite Hcr in Ht. cbn in Ht. rewrite Hz by done. lia.
Qed.

(** The pool that [initializeCurrentRewards] makes. *)
Definition initialized c : CoState :=
  with_current (with_historical c (<[0%N := NewHistoricalRewards []]> (historicalRewards c)))
    (Some (NewCurrentRewards [] 1 0)).

Lemma no_current_no_trackers c : pool_ok c → currentRewards c = None → costakerRewardsTracker c = ∅.
Proof.
  intros Hok Hn. apply map_eq. intros a. rewrite lookup_empty.
  destruct (costakerRewardsTracker c !! a) eqn:Ht; [|done].
  apply (pk_tracker _ Hok) in Ht as (_ & _ & _ & cr & Hcr & _). congruence.
Qed.

Lemma initialized_ok c : pool_ok c → currentRewards c = None →
  pool_ok (initialized c) ∧ total_ok (initialized c) ∧ ∀ d, debt (initialized c) d = debt c d.
Proof.
  intros Hok Hn. pose proof (no_current_no_trackers c Hok Hn) as Htrk. split; [|split].
  - split; cbn.
    + intros cr [= <-]. cbn. split; [apply coins_pos_nil|]. lia.
    + intros cr p [= <-] Hp. cbn in Hp. assert (p = 0%N) as -> by lia. rewrite lookup_insert_eq.
      eexists; split; [done|]. apply coins_pos_nil.
    + intros p h' [[_ <-]|[_ Hh']]%lookup_insert_Some; [apply coins_pos_nil|]. by eapply (pk_hist _ Hok).
    + intros cr p d [= <-] Hp. cbn in Hp. assert (p = 0%N) as -> by lia. done.
    + intros a t. by rewrite Htrk, lookup_empty.
  - intros cr [= <-]. cbn. by rewrite Htrk.
  - intros d. unfold debt, claims, pending. cbn. by rewrite Htrk, Hn, !zsum_empty.
Qed.

(** ** Running the operations *)

Abbreviation W := (Incentive.World (HookEnv := CoState)).

Lemma run_bind {A B} (m : M A) (k : A → M B) (w : W) :
  (m ≫= k) w = match m w with Ok (x, w) => k x w | Err e => Err e | Panic => Panic end.
Proof. done. Qed.

Lemma run_lift_bind {A B} (r : res CoErr A) (k : A → M B) (w : W) :
  (lift r ≫= k) w = match r with Ok x => k x w | Err e => Err (e, w) | Panic => Panic end.
Proof. by destruct r. Qed.

Lemma run_or_panic_bind {A B} (o : option A) (k : A → M B) (w : W) :
  (or_panic_m o ≫= k) w = match o with Some x => k x w | None => Panic end.
Proof. by destruct o. Qed.

Lemma run_of_opt_bind {A B} e (o : option A) (k : A → M B) (w : W) :
  (of_opt e o ≫= k) w = match o with Some x => k x w | None => Err (e, w) end.
Proof. by destruct o. Qed.

Lemma run_get_bind {B} (k : CoState → M B) (w : W) : (get_state ≫= k) w = k w.2 w.
Proof. done. Qed.

(** The state of the pool, initialised if it was not. *)
Lemma get_initialized c : pool_ok c →
  ∃ c0 cr, (∀ s b, GetCurrentRewardsInitialized (s, b, c) = Ok (cr, (s, b, c0))) ∧
    currentRewards c0 = Some cr ∧ pool_ok c0 ∧ same_rest c c0 ∧
    costakerRewardsTracker c0 = costakerRewardsTracker c ∧ (∀ d, debt c0 d = debt c d) ∧
    (total_ok c → total_ok c0) ∧ (divides c → divides c0) ∧
    cr_TotalScore cr = from_option cr_TotalScore 0 (currentRewards c) ∧
    Period cr = from_option Period 1%N (currentRewards c).
Proof.
  intros Hok. destruct (currentRewards c) as [cr|] eqn:Hcr.
  - exists c, cr. split; [|do 8 (split; [done|]); done].
    intros s b. unfold GetCurrentRewardsInitialized, GetCurrentRewardsCheckFound.
    mrun. by rewrite Hcr.
  - destruct (initialized_ok c Hok Hcr) as (Hok0 & Ht0 & Hd0).
    exists (initialized c), (NewCurrentRewards [] 1 0).
    split; [|do 6 (split; [done|]); split; [by left|]; by split].
    intros s b. unfold GetCurrentRewardsInitialized, GetCurrentRewardsCheckFound.
    mrun. by rewrite Hcr.
Qed.

Lemma increment_spec s b c : pool_ok c → divides c →
  (from_option Period 1%N (currentRewards c) + 1 < 2 ^ 64)%N →
  match IncrementRewardsPeriod (s, b, c) with
  | Ok (ended, w) => ∃ c', w = (s, b, c') ∧ opened c ended c'
  | Err _ => False
  | Panic => True
  end.
Proof.
  intros Hok Hdiv Hsmall.
  destruct (get_initialized c Hok) as (c0 & cr & Hrun & Hcr & Hok0 & Hrest & Htrk & Hd & _ & Hdiv0 & Hts & Hp).
  unfold IncrementRewardsPeriod. rewrite run_bind, Hrun.
  destruct (pk_current _ Hok0 cr Hcr) as (Hpos & Hp1 & Hs).
  unfold or_panic_m, GetHistoricalRewards, setHistoricalRewards, SetCurrentRewards. mrun.
  destruct (rewards_per_score cr) as [q|] eqn:Hq; [|done].
  destruct (pk_recorded _ Hok0 cr (Period cr - 1) Hcr ltac:(lia)) as (h & Hh & Hhp).
  cbn [fst snd]. rewrite IncentiveSpec.u64_pred, Hh by lia. cbn [of_opt]. mrun.
  destruct (CoinsAdd (CumulativeRewardsPerScore h) q) as [n|] eqn:Hn; [|done]. mrun.
  rewrite u64_add_small by lia. exists (after_period c0 cr (NewHistoricalRewards n)). split; [done|].
  destruct (rewards_per_score_spec cr q Hpos Hs Hq) as [Hqn _].
  apply add_spec in Hn as [Hnp Hsum]; [|by apply coins_pos_nonneg|done].
  destruct (opened_period c0 cr (NewHistoricalRewards n) q) as [Ho1 Ho2 Ho3 Ho4 Ho5]; try done; [by apply Hdiv0|lia| |].
  { intros d. cbn [CumulativeRewardsPerScore NewHistoricalRewards]. rewrite Hsum, (co_last_cum_eq c0 cr) by done.
    unfold cum. by rewrite Hh. }
  split.
  - done.
  - destruct Hrest as (? & ? & ?), Ho2 as (? & ? & ?). repeat split; congruence.
  - by rewrite Ho3.
  - destruct Ho4 as (cr' & Hcr' & Hr' & He' & Ht' & Hp'). exists cr'. rewrite Hcr in Ht', Hp'. cbn in Ht', Hp'.
    cbn [after_period with_current currentRewards] in Hcr'. injection Hcr' as <-. cbn in Ht', Hp' |- *.
    split; [done|]. split; [done|]. split; [lia|]. split; [congruence|lia].
  - intros d. rewrite <-Hd. apply Ho5.
Qed.

(** ** Paying a costaker *)

Lemma mul_coins_spec cs x r : mul_coins cs x = Ok r → r = map_amount (λ n, n * x) cs.
Proof.
  revert r. induction cs as [|c cs IH]; intros r; cbn [mul_coins].
  - by intros [= <-].
  - intros (amt & Ha & H)%bind_Ok. apply of_option_Ok, safemul_spec in Ha as ->.
    apply bind_Ok in H as (nc & Hnc & H). unfold SafeNewCoin in Hnc. cbv zeta in Hnc.
    apply require_bind_Ok in Hnc as [_ [= <-]].
    apply bind_Ok in H as (rest & Hr & [= <-]). by rewrite (IH rest Hr).
Qed.

Lemma safe_mul_amount (cs : Coins) x r : coins_nonneg cs → 0 ≤ x → CoinsSafeMulInt cs x = Ok r →
  coins_nonneg r ∧ ∀ d, amount_of r d = amount_of cs d * x.
Proof.
  intros Ha Hx. unfold CoinsSafeMulInt. intros [_ ->%mul_coins_spec]%require_bind_Ok. split.
  - apply map_amount_nonneg; [nia|done].
  - intros d. by apply (coins_amount_map (λ n, n * x)).
Qed.

(** The calculation reads only; it fails only if a number overflows. *)
Lemma co_calculate_spec s b c cr a : pool_ok c → currentRewards c = Some cr →
  match CalculateCostakerRewards a (Period cr - 1) (s, b, c) with
  | Ok (r, w) => w = (s, b, c) ∧ coins_nonneg r ∧ ∀ d, amount_of r d = claim_of c a d / D
  | Err (_, w) => w = (s, b, c)
  | Panic => True
  end.
Proof.
  intros Hok Hcr. unfold CalculateCostakerRewards, GetCostakerRewardsTrackerCheckFound, claim_of.
  mrun.
  destruct (costakerRewardsTracker c !! a) as [t|] eqn:Ht; cbn [from_option].
  2: { split; [done|]. split; [apply coins_nonneg_nil|done]. }
  destruct (pk_tracker _ Hok a t Ht) as (Hsc & _ & _ & cr' & Hcr' & Hlt).
  assert (cr' = cr) as -> by congruence.
  destruct (Z.eqb_spec (TotalScore t) 0) as [H0|H0].
  { split; [done|]. split; [apply coins_nonneg_nil|]. intros d. by rewrite claim_zero. }
  specialize (Hlt H0). destruct (pk_current _ Hok cr Hcr) as (_ & Hp1 & _).
  destruct (pk_recorded _ Hok cr (StartPeriodCumulativeReward t) Hcr Hlt) as (h0 & Hh0 & Hp0).
  destruct (pk_recorded _ Hok cr (Period cr - 1) Hcr ltac:(lia)) as (h1 & Hh1 & Hpos1).
  assert (∀ d, claim c d t = TotalScore t *
    (amount_of (CumulativeRewardsPerScore h1) d - amount_of (CumulativeRewardsPerScore h0) d)) as Hcl.
  { intros d. unfold claim. rewrite (co_last_cum_eq c cr) by done. unfold cum. by rewrite Hh0, Hh1. }
  unfold calculateCoStakerRewardsBetween, require_m, GetHistoricalRewards.
  destruct (negb (Period cr - 1 <? StartPeriodCumulativeReward t)%N); [|done].
  mrun. rewrite Hh0. cbn [of_opt fst snd]. mrun. rewrite Hh1. cbn [of_opt]. mrun.
  unfold or_panic_m. destruct (CoinsSafeSub _ _) as [[diff neg]|] eqn:Hsub; [|done]. mrun.
  apply safesub_spec in Hsub as (_ & Hpos & Hdiff); [|by apply coins_pos_nonneg..].
  destruct neg; cbn [negb]; [done|]. mrun. specialize (Hpos eq_refl).
  unfold lift. destruct (CoinsSafeMulInt diff (TotalScore t)) as [m|e|] eqn:Hm; [|done..].
  apply safe_mul_amount in Hm as [Hmn Hmd]; [|by apply coins_pos_nonneg|done].
  destruct (CoinsQuoInt m D) as [r|] eqn:Hr; [|done]. mrun.
  apply quo_amount in Hr as (_ & Hrn & Hrd); [|done|by vm_compute].
  split; [done|]. split; [done|]. intros d. rewrite Hrd, Hmd, Hdiff, Hcl. f_equal. lia.
Qed.

Abbreviation hooked := (IncentiveState.hooked inc_addr).

Lemma hooked_refl s b : IncentiveSpec.gauges_ok s → hooked s b s b.
Proof.
  intros Hg. exists (Incentive.rewardGauges s). split; [by destruct s|]. split; [done|]. intros d. lia.
Qed.

Lemma hooked_trans s b s1 b1 s2 b2 : hooked s b s1 b1 → hooked s1 b1 s2 b2 → hooked s b s2 b2.
Proof.
  intros (g1 & -> & Hg1 & Hd1) (g2 & -> & Hg2 & Hd2). exists g2. split; [done|]. split; [done|].
  intros d. specialize (Hd1 d). specialize (Hd2 d). lia.
Qed.

Definition solvent c b : Prop := ∀ d, debt c d ≤ balance b co_addr d * D.

Lemma D_pos : 0 < D.
Proof. by vm_compute. Qed.

(** A payment brings the coins of the claim, rounded down; it fails without an effect. *)
Lemma pay_spec s b c cr a : pool_ok c → currentRewards c = Some cr → solvent c b →
  IncentiveSpec.gauges_ok s →
  match CalculateCostakerRewardsAndSendToGauge a (Period cr - 1) (s, b, c) with
  | Ok (_, w) => ∃ s' b', w = (s', b', c) ∧ hooked s b s' b' ∧
      ∀ d, balance b' co_addr d = balance b co_addr d - claim_of c a d / D
  | Err (_, w) => w = (s, b, c)
  | Panic => True
  end.
Proof.
  intros Hok Hcr Hsol Hg. unfold CalculateCostakerRewardsAndSendToGauge. rewrite run_bind.
  pose proof (co_calculate_spec s b c cr a Hok Hcr) as Hcalc.
  destruct (CalculateCostakerRewards a (Period cr - 1) (s, b, c)) as [[r w]|[e w]|]; [|done..].
  destruct Hcalc as (-> & Hnn & Hr). destruct (IsZero r) eqn:Hz.
  { exists s, b. split; [done|]. split; [by apply hooked_refl|]. intros d.
    apply IsZero_iff with (d := d) in Hz; [|done]. rewrite Hr in Hz. lia. }
  rewrite run_bind. unfold accumulate_gauge.
  destruct (Incentive.AccumulateRewardGaugeForCostaker s a r) as [s1| |] eqn:Hacc; [|done..].
  unfold send_coins. destruct (IsAllPositive r) eqn:Hpos.
  - apply (IsAllPositive_pos _ Hnn) in Hpos as Hrp.
    destruct (m2m_total b ModuleName Incentive.ModuleName co_addr inc_addr r) as [b1 Hb1]; [done..| |].
    { intros d. rewrite Hr. specialize (Hsol d). pose proof (claim_of_le_debt c a d Hok).
      pose proof D_pos. apply Z.div_le_upper_bound; lia. }
    rewrite Hb1. apply (m2m_spec _ _ _ co_addr inc_addr) in Hb1 as [_ Hm]; [|done..].
    exists s1, b1. split; [done|]. unfold Incentive.AccumulateRewardGaugeForCostaker in Hacc.
    apply IncentiveSpec.accumulate_paid in Hacc as (g & -> & Hg1 & Hd); [|done..]. split.
    + exists g. split; [done|]. split; [done|]. intros d. rewrite Hd, Hpos, Hm.
      rewrite decide_False by apply not_eq_sym, co_ne_inc. rewrite decide_True by done. lia.
    + intros d. rewrite Hm, decide_True by done. rewrite decide_False by apply co_ne_inc. rewrite Hr. lia.
  - destruct (SendCoinsFromModuleToModule b ModuleName Incentive.ModuleName r) as [b1| |] eqn:Hb1; [|..|done].
    + exfalso. apply (m2m_spec _ _ _ co_addr inc_addr) in Hb1 as [Hrp _]; [|done..].
      apply (IsAllPositive_false _ Hrp) in Hpos as ->. by rewrite IsZero_spec in Hz.
    + unfold Incentive.AccumulateRewardGaugeForCostaker, Incentive.accumulateRewardGauge in Hacc.
      rewrite Hpos in Hacc. by injection Hacc as ->.
Qed.

(** The rewards and the total score of the current period are replaced. *)
Lemma set_current_ok c cr rw total : pool_ok c → currentRewards c = Some cr → coins_pos rw → 0 ≤ total →
  let c' := with_current c (Some (mkCurrentRewards rw (Period cr) total)) in
  pool_ok c' ∧ ∀ d, debt c' d = debt c d - amount_of (Rewards cr) d + amount_of rw d.
Proof.
  intros Hok Hcr Hrw Htot. cbv zeta. destruct (pk_current _ Hok cr Hcr) as (_ & Hp & _). split.
  - split; cbn.
    + by intros cr' [= <-].
    + intros cr' q [= <-] Hq. by apply (pk_recorded _ Hok cr).
    + apply Hok.
    + intros cr' q d [= <-] Hq. cbn in Hq. pose proof (pk_monotone _ Hok cr q d Hcr Hq) as Hm.
      unfold last_cum in *. rewrite Hcr in Hm. done.
    + intros a t Ht. destruct (pk_tracker _ Hok a t Ht) as (? & ? & ? & cr' & Hcr' & Hlt).
      assert (cr' = cr) as -> by congruence. do 3 (split; [done|]). by eexists.
  - intros d. unfold debt, pending, claims. rewrite Hcr.
    cbn [with_current currentRewards costakerRewardsTracker from_option Rewards].
    rewrite (zsum_ext _ (λ _, claim c d)); [lia|].
    intros a t _. unfold claim, last_cum. cbn. by rewrite Hcr.
Qed.

(** *** A new start *)

(** The costaker [a] starts again at the end of the last period with the tracker
    [t], and the total score is [total]. *)
Definition restart c a (t : CostakerRewardsTracker) (total : Z) : CoState :=
  with_current
    (with_trackers c (<[a := mkCostakerRewardsTracker
        (from_option (λ cr, Period cr - 1) 0 (currentRewards c))%N
        (ActiveSatoshis t) (ActiveNtk t) (TotalScore t)]> (costakerRewardsTracker c)))
    ((λ cr, mkCurrentRewards (Rewards cr) (Period cr) total) <$> currentRewards c).

Definition tracker_ok (t : CostakerRewardsTracker) : Prop :=
  0 ≤ TotalScore t ∧ 0 ≤ ActiveSatoshis t ∧ 0 ≤ ActiveNtk t.

Lemma restart_last_cum c a t total d : last_cum (restart c a t total) d = last_cum c d.
Proof. unfold last_cum, restart. cbn. by destruct (currentRewards c). Qed.

Lemma restart_ok c cr a t total : pool_ok c → currentRewards c = Some cr → tracker_ok t → 0 ≤ total →
  pool_ok (restart c a t total).
Proof.
  intros Hok Hcr (Ht1 & Ht2 & Ht3) Htot. destruct (pk_current _ Hok cr Hcr) as (Hpos & Hp & _). split.
  - cbn. rewrite Hcr. cbn. by intros cr' [= <-].
  - cbn. rewrite Hcr. cbn. intros cr' p [= <-] Hlt. by apply (pk_recorded _ Hok cr).
  - apply Hok.
  - intros cr' p d Hcr' Hlt. rewrite restart_last_cum. cbn in Hcr' |- *. rewrite Hcr in Hcr'.
    cbn in Hcr'. injection Hcr' as <-. by apply (pk_monotone _ Hok cr).
  - cbn. rewrite Hcr. cbn. intros a' t' [[<- <-]|[_ Ht']]%lookup_insert_Some.
    + cbn. repeat (split; [done|]). eexists; split; [done|]. cbn. lia.
    + destruct (pk_tracker _ Hok a' t' Ht') as (? & ? & ? & cr' & Hcr' & Hlt).
      assert (cr' = cr) as -> by congruence.
      repeat (split; [done|]). eexists; split; [done|]. exact Hlt.
Qed.

(** Starting again gives up the claim. *)
Lemma restart_debt c cr a t total d : currentRewards c = Some cr →
  debt (restart c a t total) d = debt c d - claim_of c a d.
Proof.
  intros Hcr. unfold debt, pending, claims, claim_of.
  cbn [restart with_current with_trackers currentRewards costakerRewardsTracker].
  rewrite Hcr, zsum_insert. rewrite (zsum_delete _ (costakerRewardsTracker c) a).
  assert (∀ t', claim (restart c a t total) d t' = claim c d t') as Hcl.
  { intros t'. unfold claim. by rewrite restart_last_cum. }
  rewrite (zsum_ext (λ _, claim (restart c a t total) d) (λ _, claim c d)) by (intros; apply Hcl).
  cbn [fmap option_fmap option_map from_option Rewards]. rewrite Hcl. unfold claim at 1.
  cbn [StartPeriodCumulativeReward TotalScore]. rewrite (co_last_cum_eq c cr) by done.
  unfold option_map. cbn [from_option].
  destruct (costakerRewardsTracker c !! a); cbn [from_option]; lia.
Qed.

(** ** The invariant *)

Definition scores_ok (ratio : Z) c : Prop := ∀ a t, costakerRewardsTracker c !! a = Some t →
  TotalScore t = Z.min (ActiveSatoshis t) (Z.quot (ActiveNtk t) ratio).

Definition portions_ok (prm : Params) : Prop :=
  ∃ x y, CostakingPortion prm = Some x ∧ ValidatorsPortion prm = Some y ∧
    0 ≤ x ∧ 0 ≤ y ∧ x + y < LegacyOneDec.

Definition params_ok c : Prop :=
  ∃ (prm : Params) ratio, co_params c = Some prm ∧ portions_ok prm ∧
    ScoreRatioBtcByNtk prm = Some ratio ∧ 1 ≤ ratio ∧ scores_ok ratio c.

Record co_inv (n : N) c b : Prop := {
  ci_pool : pool_ok c;
  ci_total : total_ok c;
  ci_periods : (from_option Period 0 (currentRewards c) ≤ n)%N;
  ci_params : params_ok c;
  ci_solvent : solvent c b;
}.

Lemma co_inv_mono n m c b : (n ≤ m)%N → co_inv n c b → co_inv m c b.
Proof. intros Hnm [? ? ? ? ?]. split; try done. lia. Qed.

Lemma co_inv_bank n c b b' : (∀ d, balance b co_addr d ≤ balance b' co_addr d) →
  co_inv n c b → co_inv n c b'.
Proof.
  intros Hb [? ? ? ? Hs]. split; try done. intros d. specialize (Hs d). specialize (Hb d).
  pose proof D_pos. nia.
Qed.

(** The operation brings the coins it credits and keeps the invariant, whether it
    succeeds or not, and opens at most [k] periods. *)
Definition keeps {A} (k : N) (m : M A) : Prop := ∀ n s b c,
  IncentiveSpec.gauges_ok s → co_inv n c b → (n + k < 2 ^ 64)%N →
  match m (s, b, c) with
  | Ok (_, (s', b', c')) | Err (_, (s', b', c')) => hooked s b s' b' ∧ co_inv (n + k) c' b'
  | Panic => True
  end.

Lemma keeps_ret {A} (x : A) : keeps 0 (mret x).
Proof.
  intros n s b c Hg Hinv _. split; [by apply hooked_refl|]. by rewrite N.add_0_r.
Qed.

Lemma keeps_throw {A} e : keeps 0 (throw (A := A) e).
Proof.
  intros n s b c Hg Hinv _. split; [by apply hooked_refl|]. by rewrite N.add_0_r.
Qed.

Lemma keeps_weaken {A} k k' (m : M A) : (k ≤ k')%N → keeps k m → keeps k' m.
Proof.
  intros Hk Hm n s b c Hg Hinv Hsmall. specialize (Hm n s b c Hg Hinv ltac:(lia)).
  destruct (m (s, b, c)) as [[? [[s' b'] c']]|[? [[s' b'] c']]|]; [..|done];
    destruct Hm as [Hh Hi]; (split; [done|]); (eapply co_inv_mono; [|done]; lia).
Qed.

Lemma keeps_bind {A B} k1 k2 (m : M A) (f : A → M B) :
  keeps k1 m → (∀ x, keeps k2 (f x)) → keeps (k1 + k2) (m ≫= f).
Proof.
  intros Hm Hf n s b c Hg Hinv Hsmall. rewrite run_bind.
  specialize (Hm n s b c Hg Hinv ltac:(lia)).
  destruct (m (s, b, c)) as [[x [[s1 b1] c1]]|[e [[s1 b1] c1]]|]; [| |done].
  - destruct Hm as [Hh Hi]. assert (IncentiveSpec.gauges_ok s1) as Hg1 by (by destruct Hh as (? & -> & ? & _)).
    specialize (Hf x (n + k1)%N s1 b1 c1 Hg1 Hi ltac:(lia)).
    destruct (f x (s1, b1, c1)) as [[y [[s2 b2] c2]]|[e [[s2 b2] c2]]|]; [..|done];
      rewrite N.add_assoc; destruct Hf as [Hh2 Hi2]; (split; [by eapply hooked_trans|done]).
  - destruct Hm as [Hh Hi]. split; [done|]. eapply co_inv_mono; [|done]. lia.
Qed.

Lemma keeps_panic {A} : keeps 0 (panic (A := A)).
Proof. done. Qed.

Lemma keeps_of_opt {A} e (o : option A) : keeps 0 (of_opt e o).
Proof. destruct o; [apply keeps_ret|apply keeps_throw]. Qed.
Lemma keeps_or_panic {A} (o : option A) : keeps 0 (or_panic_m o).
Proof. destruct o; [apply keeps_ret|done]. Qed.
Lemma keeps_require x e : keeps 0 (require_m x e).
Proof. destruct x; [apply keeps_ret|apply keeps_throw]. Qed.
Lemma keeps_lift {A} (r : res CoErr A) : keeps 0 (lift r).
Proof. destruct r; [apply keeps_ret|apply (keeps_throw (A := A))|done]. Qed.
Lemma keeps_get_state : keeps 0 get_state.
Proof. intros n s b c Hg Hinv _. split; [by apply hooked_refl|]. by rewrite N.add_0_r. Qed.

Lemma keeps_iter {A} k (f : A → M unit) (l : list A) :
  (∀ x, keeps k (f x)) → keeps (N.of_nat (length l) * k) (iter_m f l).
Proof.
  intros Hf. induction l as [|x l IH]; cbn [iter_m length]; [apply keeps_ret|].
  replace (N.of_nat (S (length l)) * k)%N with (k + N.of_nat (length l) * k)%N by lia.
  by apply keeps_bind.
Qed.

(** ** Changing a costaker *)

(** The costaker [a] may start again with the tracker [t]. *)
Definition may_restart c a (t : CostakerRewardsTracker) : Prop :=
  tracker_ok t ∧ ∀ prm ratio, co_params c = Some prm → ScoreRatioBtcByNtk prm = Some ratio →
    TotalScore t = Z.min (ActiveSatoshis t) (Z.quot (ActiveNtk t) ratio).

Lemma restart_inv n c b b' cr a t total : pool_ok c → currentRewards c = Some cr →
  (Period cr ≤ n)%N → total = score_sum (<[a := t]> (costakerRewardsTracker c)) →
  params_ok c → may_restart c a t → solvent c b → (∀ d, balance b' co_addr d = balance b co_addr d - claim_of c a d / D) →
  co_inv n (restart c a t total) b'.
Proof.
  intros Hok Hcr Hn Htot (p & ratio & Hp & Hpo & Hr & Hr1 & Hsc) [Ht Hts] Hsol Hb.
  assert (0 ≤ total) as Htot0.
  { rewrite Htot. apply zsum_nonneg. intros a' t' [[<- <-]|[_ Ht']]%lookup_insert_Some; [apply Ht|].
    by apply (pk_tracker _ Hok) in Ht' as [? _]. }
  split.
  - by apply (restart_ok c cr).
  - intros cr'. cbn. rewrite Hcr. cbn. intros [= <-]. cbn. rewrite Htot, !score_sum_insert. done.
  - cbn. rewrite Hcr. done.
  - exists p, ratio. do 4 (split; [done|]). intros a' t'. cbn.
    intros [[<- <-]|[_ Ht']]%lookup_insert_Some; [cbn; by apply (Hts p)|by apply (Hsc a')].
  - intros d. rewrite (restart_debt c cr), Hb by done. specialize (Hsol d).
    pose proof (claim_of_nonneg c a d Hok). pose proof D_pos.
    pose proof (Z.mul_div_le (claim_of c a d) D D_pos). nia.
Qed.

(** What happens after the payment: the costaker starts again, or it fails because he
    is not known. *)
Definition restarts a (m : M unit) (s : Incentive.IncState) (b : Bank) c : Prop :=
  match m (s, b, c) with
  | Ok (_, w) => ∃ t total, w = (s, b, restart c a t total) ∧ may_restart c a t ∧
      total = score_sum (<[a := t]> (costakerRewardsTracker c))
  | Err (_, w) => w = (s, b, c) ∧ costakerRewardsTracker c !! a = None
  | Panic => True
  end.

Lemma modified_spec n m s b c a pre : IncentiveSpec.gauges_ok s → co_inv m c b →
  (from_option Period 1 (currentRewards c) ≤ n + 1)%N → (n + 2 < 2 ^ 64)%N →
  (∀ s b c' cr, pool_ok c' → total_ok c' → same_rest c c' →
     costakerRewardsTracker c' = costakerRewardsTracker c → currentRewards c' = Some cr →
     Rewards cr = [] → restarts a (pre a ≫= λ _, initializeCoStakerRwdTracker a) s b c') →
  match costakerModifiedScoreWithPreInitalization a pre (s, b, c) with
  | Ok (_, (s', b', c')) | Err (_, (s', b', c')) => hooked s b s' b' ∧ co_inv (n + 2) c' b'
  | Panic => True
  end.
Proof.
  intros Hg Hinv Hp1 Hsmall Hpre. destruct Hinv as [Hok Htot Hn Hpar Hsol].
  unfold costakerModifiedScoreWithPreInitalization. rewrite run_bind.
  pose proof (increment_spec s b c Hok ltac:(by left) ltac:(lia)) as Hi.
  destruct (IncrementRewardsPeriod (s, b, c)) as [[ended w]|[e w]|]; [|done..].
  destruct Hi as (c1 & -> & [Hok1 Hrest Htrk (cr & Hcr & Hr & -> & Hts & Hpc) Hd]).
  assert (total_ok c1) as Htot1.
  { intros cr' Hcr'. assert (cr' = cr) as -> by congruence. rewrite Hts, Htrk.
    destruct (currentRewards c) as [cr0|] eqn:Hc0; cbn; [by apply Htot|].
    by rewrite (no_current_no_trackers c Hok Hc0). }
  assert (solvent c1 b) as Hsol1 by (intros d; etrans; [apply Hd|apply Hsol]).
  assert (params_ok c1) as Hpar1.
  { destruct Hpar as (p & ratio & Hp & ? & ? & ? & Hsc), Hrest as (Hp' & _ & _). exists p, ratio.
    split; [by rewrite Hp'|].
    do 3 (split; [done|]). intros a' t'. rewrite Htrk. apply Hsc. }
  assert (co_inv (n + 2) c1 b) as Hinv1 by (split; try done; rewrite Hcr; cbn; lia).
  rewrite run_bind. pose proof (pay_spec s b c1 cr a Hok1 Hcr Hsol1 Hg) as Hpay.
  destruct (CalculateCostakerRewardsAndSendToGauge a (Period cr - 1) (s, b, c1)) as [[u w]|[e w]|]; [| |done].
  2: { subst w. split; [by apply hooked_refl|done]. }
  destruct Hpay as (s' & b' & -> & Hh & Hb).
  specialize (Hpre s' b' c1 cr Hok1 Htot1 Hrest Htrk Hcr Hr). unfold restarts in Hpre.
  destruct ((pre a ≫= λ _, initializeCoStakerRwdTracker a) (s', b', c1)) as [[v w]|[e w]|]; [| |done].
  - destruct Hpre as (t & total & -> & Hmay & Ht). split; [done|].
    apply (restart_inv _ c1 b b' cr); try done. lia.
  - destruct Hpre as [-> Hnone]. split; [done|]. eapply co_inv_bank; [|done].
    intros d. rewrite Hb. unfold claim_of. rewrite Hnone. cbn [from_option].
    rewrite Z.div_0_l by (pose proof D_pos; lia). lia.
Qed.

(** Adding the new tracker and the change of the score. *)
Lemma update_restarts s b c cr a t delta : pool_ok c → total_ok c → currentRewards c = Some cr →
  Rewards cr = [] → may_restart c a t →
  delta = TotalScore t - from_option TotalScore 0 (costakerRewardsTracker c !! a) →
  restarts a (update_total_score t delta a ≫= λ _, initializeCoStakerRwdTracker a) s b c.
Proof.
  intros Hok Htot Hcr Hr Hmay ->. unfold restarts.
  set (total := score_sum (<[a := t]> (costakerRewardsTracker c))).
  assert (0 ≤ total) as Htot0.
  { apply zsum_nonneg. intros a' t' [[<- <-]|[_ Ht']]%lookup_insert_Some; [apply Hmay|].
    by apply (pk_tracker _ Hok) in Ht' as [? _]. }
  assert (cr_TotalScore cr + (TotalScore t - from_option TotalScore 0 (costakerRewardsTracker c !! a)) = total)
    as Hsum by (unfold total; rewrite score_sum_insert, (Htot cr Hcr); lia).
  destruct (pk_current _ Hok cr Hcr) as (_ & Hp & _).
  unfold update_total_score, initializeCoStakerRwdTracker, setCostakerRewardsTracker, GetCurrentRewards,
    SetCurrentRewards, GetCostakerRewards. mrun.
  cbn [with_trackers currentRewards fst snd]. rewrite Hcr. cbn [of_opt]. mrun.
  rewrite Hsum. assert (CurrentRewards_Validate (mkCurrentRewards (Rewards cr) (Period cr) total) = Ok ()) as Hv.
  { unfold CurrentRewards_Validate. cbn [Rewards cr_TotalScore]. rewrite Hr.
    rewrite (proj2 (IsValid_spec [])) by apply coins_pos_nil.
    rewrite nonneg_not_negative by apply coins_nonneg_nil. rewrite (proj2 (Z.ltb_ge total 0)) by done. done. }
  unfold lift. rewrite Hv. cbn [with_current currentRewards fst snd of_opt Period]. mrun.
  cbn [with_current with_trackers currentRewards costakerRewardsTracker fst snd of_opt Period]. mrun.
  cbn [with_current with_trackers currentRewards costakerRewardsTracker fst snd of_opt Period].
  rewrite lookup_insert_eq. cbn [of_opt fst snd]. mrun.
  exists t, total. split; [|done]. unfold restart, with_current, with_trackers.
  cbn [currentRewards costakerRewardsTracker co_params historicalRewards validatorSet stkCache].
  rewrite Hcr, insert_insert_eq, IncentiveSpec.u64_pred by done. done.
Qed.

Lemma withdraw_restarts s b c cr a : pool_ok c → total_ok c → currentRewards c = Some cr →
  (∀ t, costakerRewardsTracker c !! a = Some t → may_restart c a t) →
  restarts a ((λ _, mret ()) a ≫= λ _, initializeCoStakerRwdTracker a) s b c.
Proof.
  intros Hok Htot Hcr Hmay. unfold restarts, initializeCoStakerRwdTracker, GetCurrentRewards,
    GetCostakerRewards, setCostakerRewardsTracker. mrun. rewrite Hcr. cbn [of_opt]. mrun.
  destruct (costakerRewardsTracker c !! a) as [t|] eqn:Ht; cbn [of_opt]; mrun; [|done].
  destruct (pk_current _ Hok cr Hcr) as (_ & Hp & _).
  exists t, (cr_TotalScore cr). split.
  - unfold restart, with_current, with_trackers. rewrite Hcr, IncentiveSpec.u64_pred by done. cbn.
    by destruct c, cr.
  - split; [by apply Hmay|]. rewrite score_sum_insert, Ht, (Htot cr Hcr). cbn. lia.
Qed.

Lemma periods_one n c : (from_option Period 0 (currentRewards c) ≤ n)%N →
  (from_option Period 1 (currentRewards c) ≤ n + 1)%N.
Proof. destruct (currentRewards c); cbn; lia. Qed.

Lemma stored_may_restart c c' a t : pool_ok c → params_ok c → same_rest c c' →
  costakerRewardsTracker c !! a = Some t → may_restart c' a t.
Proof.
  intros Hok (p & ratio & Hp & _ & Hr & _ & Hsc) (Hp' & _) Ht.
  destruct (pk_tracker _ Hok a t Ht) as (? & ? & ? & _). split; [done|].
  intros p0 r0 Hp0 Hr0. rewrite Hp', Hp in Hp0. injection Hp0 as <-. rewrite Hr in Hr0.
  injection Hr0 as <-. by apply (Hsc a).
Qed.

(** A withdrawal of rewards keeps the invariant. *)
Lemma withdraw_keeps a : keeps 2 (costakerWithdrawRewards a).
Proof.
  intros n s b c Hg Hinv Hsmall. unfold costakerWithdrawRewards.
  apply (modified_spec n n); try done; [apply periods_one, Hinv|].
  intros s' b' c' cr Hok Htot Hrest Htrk Hcr _. apply (withdraw_restarts _ _ _ cr); try done.
  intros t Ht. rewrite Htrk in Ht. destruct Hinv. by apply (stored_may_restart c).
Qed.

(** Changes of a tracker leave its start and its score. *)
Definition modifies_amounts (f : CostakerRewardsTracker → CostakerRewardsTracker) : Prop :=
  ∀ t, StartPeriodCumulativeReward (f t) = StartPeriodCumulativeReward t ∧ TotalScore (f t) = TotalScore t.

Lemma sanitize_amounts f : modifies_amounts f → modifies_amounts (λ t, Sanitize (f t)).
Proof. intros Hf t. destruct (Hf t). unfold Sanitize. by destruct (ActiveNtk (f t) =? -1). Qed.

Lemma add_sats_amounts n : modifies_amounts (add_sats n).
Proof. done. Qed.
Lemma add_ntk_amounts n : modifies_amounts (add_ntk n).
Proof. done. Qed.

(** The tracker of a costaker, or a new one; the pool exists afterwards. *)
Lemma get_or_initialize n s b c a : co_inv n c b → (n + 1 < 2 ^ 64)%N →
  ∃ c0 t, GetCostakerRewardsOrInitialize a (s, b, c) = Ok (t, (s, b, c0)) ∧
    co_inv (n + 1) c0 b ∧ same_rest c c0 ∧
    (from_option Period 1 (currentRewards c0) ≤ n + 1)%N ∧
    (costakerRewardsTracker c0 !! a = Some t ∨
     costakerRewardsTracker c0 !! a = None ∧ TotalScore t = 0 ∧ is_Some (currentRewards c0)).
Proof.
  intros Hinv Hsmall. unfold GetCostakerRewardsOrInitialize, GetCostakerRewardsTrackerCheckFound. mrun.
  destruct (costakerRewardsTracker c !! a) as [t|] eqn:Ht; mrun.
  - exists c, t. split; [done|]. split; [eapply co_inv_mono; [|done]; lia|]. split; [done|].
    split; [apply periods_one, Hinv|by left].
  - destruct Hinv as [Hok Htot Hn (p & ratio & Hp & Hpo & Hr & Hr1 & Hsc) Hsol].
    destruct (get_initialized c Hok) as (c0 & cr & Hrun & Hcr & Hok0 & Hrest & Htrk & Hd & Ht0 & _ & _ & Hpc).
    rewrite Hrun. exists c0, (NewCostakerRewardsTracker (Period cr) 0 0 0). split; [done|].
    apply periods_one in Hn. split; [|split; [done|split]].
    + split; [done|by apply Ht0|rewrite Hcr; cbn; lia| |intros d; rewrite Hd; apply Hsol].
      exists p, ratio. destruct Hrest as (-> & _). do 4 (split; [done|]).
      intros a' t'. rewrite Htrk. apply Hsc.
    + rewrite Hcr. cbn. lia.
    + right. rewrite Htrk, Hcr. split; [done|]. split; [done|]. by eexists.
Qed.

(** The tracker is stored with the score it had. *)
Lemma set_same_score n c b a t t' : co_inv n c b → tracker_ok t' → TotalScore t' = TotalScore t →
  StartPeriodCumulativeReward t' = StartPeriodCumulativeReward t → may_restart c a t' →
  (costakerRewardsTracker c !! a = Some t ∨
   costakerRewardsTracker c !! a = None ∧ TotalScore t = 0 ∧ is_Some (currentRewards c)) →
  co_inv n (with_trackers c (<[a := t']> (costakerRewardsTracker c))) b.
Proof.
  intros [Hok Htot Hn (p & ratio & Hp & Hpo & Hr & Hr1 & Hsc) Hsol] (Ht1 & Ht2 & Ht3) Hts Hst [_ Hmay] Hold.
  assert (∃ cr, currentRewards c = Some cr ∧ (TotalScore t ≠ 0 → (StartPeriodCumulativeReward t < Period cr)%N))
    as (cr & Hcr & Hlt).
  { destruct Hold as [Ht|(_ & H0 & cr & Hcr)]; [|by exists cr].
    apply (pk_tracker _ Hok) in Ht as (_ & _ & _ & cr & ? & ?). by exists cr. }
  assert (∀ d, claim_of c a d = claim c d t') as Hcl.
  { intros d. unfold claim_of, claim. rewrite Hts, Hst.
    destruct Hold as [->|(-> & -> & _)]; cbn; [done|lia]. }
  split.
  - split; cbn; [apply Hok..|]. intros a' t0 [[<- <-]|[_ Ht0]]%lookup_insert_Some; [|by apply (pk_tracker _ Hok a')].
    do 3 (split; [done|]). exists cr. split; [done|]. rewrite Hts, Hst. done.
  - intros cr' Hcr'. cbn in *. rewrite score_sum_insert, Hts, (Htot cr' Hcr').
    destruct Hold as [->|(-> & -> & _)]; cbn; lia.
  - done.
  - exists p, ratio. do 4 (split; [done|]). unfold scores_ok. cbn. intros a' t0 [[<- <-]|[_ Ht0]]%lookup_insert_Some;
      [by apply (Hmay p)|by apply (Hsc a')].
  - intros d. specialize (Hsol d). unfold debt, pending, claims in *.
    cbn [with_trackers currentRewards costakerRewardsTracker].
    change (claim (with_trackers c _) d) with (claim c d). rewrite zsum_insert, <-Hcl.
    rewrite (zsum_delete _ (costakerRewardsTracker c) a) in Hsol. unfold claim_of. done.
Qed.

Lemma update_score_spec t ratio t' delta : 1 ≤ ratio → 0 ≤ ActiveSatoshis t → 0 ≤ ActiveNtk t →
  UpdateScore t (Some ratio) = Some (t', delta) →
  tracker_ok t' ∧ TotalScore t' = Z.min (ActiveSatoshis t') (Z.quot (ActiveNtk t') ratio) ∧
  delta = TotalScore t' - TotalScore t ∧
  StartPeriodCumulativeReward t' = StartPeriodCumulativeReward t ∧
  ActiveSatoshis t' = ActiveSatoshis t ∧ ActiveNtk t' = ActiveNtk t.
Proof.
  intros Hr Hs Hk. unfold UpdateScore, CalculateScore. cbn. destruct (Z.eqb_spec ratio 0); [lia|]. cbn.
  intros [= <- <-]. unfold tracker_ok. cbn. pose proof (Z.quot_pos (ActiveNtk t) ratio Hk ltac:(lia)).
  repeat split; lia.
Qed.

Lemma validate_tracker t u : Tracker_Validate t = Ok u →
  0 ≤ TotalScore t ∧ 0 ≤ ActiveSatoshis t ∧ 0 ≤ ActiveNtk t.
Proof.
  unfold Tracker_Validate. intros [H1 [H2 H3]%require_bind_Ok]%require_bind_Ok.
  apply require_Ok in H3. lia.
Qed.

(** Any change of a costaker's active amounts keeps the invariant. *)
Lemma modified_keeps a f : modifies_amounts f → keeps 2 (costakerModified a f).
Proof.
  intros Hf%sanitize_amounts n s b c Hg Hinv Hsmall. unfold costakerModified. rewrite run_bind.
  destruct (get_or_initialize n s b c a Hinv ltac:(lia)) as (c0 & t & Hrun & Hinv0 & Hrest & Hp & Hold).
  rewrite Hrun. cbv zeta. destruct (Hf t) as [Hst Hsc].
  assert (hooked s b s b ∧ co_inv (n + 2) c0 b) as Hfail.
  { split; [by apply hooked_refl|]. eapply co_inv_mono; [|done]. lia. }
  rewrite run_lift_bind. destruct (Tracker_Validate _) as [u|e|] eqn:Hv; [|done..].
  apply validate_tracker in Hv as (Hv1 & Hv2 & Hv3).
  destruct (ci_params _ _ _ Hinv0) as (p & ratio & Hpar & _ & Hr & Hr1 & _).
  unfold GetParams. mrun. rewrite Hpar. cbn [or_panic_m]. mrun. rewrite Hr.
  destruct (UpdateScore (Sanitize (f t)) (Some ratio)) as [[t' delta]|] eqn:Hu; [|done]. cbn [or_panic_m]. mrun.
  apply update_score_spec in Hu as (Hok' & Hsc' & Hdelta & Hst' & _); [|done..].
  assert (∀ c', same_rest c0 c' → may_restart c' a t') as Hmay.
  { intros c' (Hp' & _). split; [done|]. intros p0 r0 Hp0 Hr0. rewrite Hp', Hpar in Hp0.
    injection Hp0 as <-. rewrite Hr in Hr0. by injection Hr0 as <-. }
  destruct (Z.eqb_spec delta 0) as [H0|H0].
  - unfold setCostakerRewardsTracker. mrun. split; [by apply hooked_refl|].
    eapply co_inv_mono; [|apply (set_same_score (n + 1) c0 b a t t'); try done]; [lia|lia|congruence|by apply Hmay].
  - apply (modified_spec n (n + 1) s b c0); try done.
    intros s1 b1 c1 cr Hok1 Htot1 Hrest1 Htrk1 Hcr1 Hr1'. apply (update_restarts _ _ _ cr); try done.
    + by apply Hmay.
    + rewrite Hdelta, Htrk1, Hsc. destruct Hold as [->|(-> & -> & _)]; done.
Qed.

(** ** A share rounded to zero *)

(** The payment of rewards with a coin of amount zero fails. *)
Lemma zero_coin_not_sent s b c a ended r w coin : CalculateCostakerRewards a ended (s, b, c) = Ok (r, w) →
  IsZero r = false → coin ∈ r → coin_Amount coin = 0 →
  ∀ u w', CalculateCostakerRewardsAndSendToGauge a ended (s, b, c) ≠ Ok (u, w').
Proof.
  intros Hr Hz Hin H0 u w'. unfold CalculateCostakerRewardsAndSendToGauge. rewrite run_bind, Hr, Hz.
  rewrite run_bind. destruct w as [[s1 b1] c1]. unfold accumulate_gauge.
  destruct (Incentive.AccumulateRewardGaugeForCostaker s1 a r) as [s2| |]; [|done..].
  unfold send_coins. destruct (SendCoinsFromModuleToModule b1 ModuleName Incentive.ModuleName r) as [b2| |] eqn:Hs; [|done..].
  apply (m2m_spec _ _ _ co_addr inc_addr) in Hs as [[_ Hp] _]; [|done..].
  rewrite Forall_forall in Hp. specialize (Hp coin Hin). lia.
Qed.
End pool.
End CostakingSpec.
