(* ===== verification/CostakingScore.v ===== *)
(** A new ratio: [UpdateAllCostakersScore] and [UpdateParams] of x/costaking.

    When the ratio between bitcoin and tokens changes, every costaker whose score
    changes is paid and starts again, and the total score is the sum of the new
    scores.  The loop runs while the total score is still the old one; its
    invariant [loop_inv] says which costakers have been visited. *)
From stdpp Require Import base numbers list sorting gmap strings.
From S2P Require Import Prelude KVStore Bytes BtcStaking Finality FinalityPower SdkCoins ZSum Incentive IncentiveSpec IncentiveState Costaking CostakingSpec.

Module CostakingScore.
Import BtcStaking Costaking CostakingSpec.
Local Open Scope Z_scope.

Section score.
Context {SC : SdkCoins} {SCL : SdkCoinsLaws} {BK : BankKeeper} {BL : BankLaws}.
Context (co_addr inc_addr : list N).
Context (Hco : GetModuleAccount ModuleName = Some co_addr).
Context (Hinc : GetModuleAccount Incentive.ModuleName = Some inc_addr).
Implicit Types (c : CoState) (s : Incentive.IncState) (b : Bank) (a : list N) (d : string).

Abbreviation hooked := (IncentiveState.hooked inc_addr).
Abbreviation co_inv := (CostakingSpec.co_inv co_addr).

Definition sum_scores (l : list (list N * CostakerRewardsTracker)) : Z :=
  foldr (λ e n, TotalScore e.2 + n) 0 l.

Definition score_is (ratio : Z) (t : CostakerRewardsTracker) : Prop :=
  TotalScore t = Z.min (ActiveSatoshis t) (Z.quot (ActiveNtk t) ratio).

(** The costakers of [l] are still to be visited, and [x] is the sum of the new scores
    of the others. *)
Record loop_inv (ratio : Z) (cr : CurrentRewards) (l : list (list N * CostakerRewardsTracker)) (x : Z)
    c b : Prop := {
  li_pool : pool_ok c;
  li_current : currentRewards c = Some cr;
  li_solvent : solvent co_addr c b;
  li_todo a t : (a, t) ∈ l → costakerRewardsTracker c !! a = Some t;
  li_nodup : NoDup l.*1;
  li_done a t : costakerRewardsTracker c !! a = Some t → (a, t) ∈ l ∨ score_is ratio t;
  li_sum : x + sum_scores l = score_sum (costakerRewardsTracker c);
}.

Lemma set_and_start s b c cr a t : pool_ok c → currentRewards c = Some cr →
  (setCostakerRewardsTracker a t ≫= λ _, initializeCoStakerRwdTracker a) (s, b, c) =
  Ok ((), (s, b, restart c a t (cr_TotalScore cr))).
Proof.
  intros Hok Hcr. destruct (pk_current _ Hok cr Hcr) as (_ & Hp & _).
  unfold initializeCoStakerRwdTracker, setCostakerRewardsTracker, GetCurrentRewards, GetCostakerRewards. mrun.
  cbn [with_trackers currentRewards fst snd]. rewrite Hcr. cbn [of_opt]. mrun.
  cbn [with_trackers costakerRewardsTracker fst snd]. rewrite lookup_insert_eq. cbn [of_opt fst snd]. mrun.
  unfold restart, with_current, with_trackers.
  cbn [currentRewards costakerRewardsTracker co_params historicalRewards validatorSet stkCache fst snd put_state].
  rewrite Hcr, insert_insert_eq, IncentiveSpec.u64_pred by done. cbn. by destruct cr.
Qed.

Lemma visited_not_todo (l : list (list N * CostakerRewardsTracker)) a t t' :
  NoDup ((a, t) :: l).*1 → (a, t') ∈ l → False.
Proof.
  rewrite fmap_cons, NoDup_cons. intros [Hn _] Hin. apply Hn. apply list_elem_of_fmap. by exists (a, t').
Qed.

Lemma update_costaker_inv ratio s b c cr a t l x x' s' b' c' : 1 ≤ ratio →
  IncentiveSpec.gauges_ok s → loop_inv ratio cr ((a, t) :: l) x c b →
  update_costaker (Some ratio) (Period cr - 1) x (a, t) (s, b, c) = Ok (x', (s', b', c')) →
  hooked s b s' b' ∧ loop_inv ratio cr l x' c' b' ∧ same_rest c c'.
Proof.
  intros Hr Hg [Hok Hcr Hsol Htodo Hnd Hdone Hsum] Hrun.
  assert (costakerRewardsTracker c !! a = Some t) as Ht by (apply Htodo; by left).
  destruct (pk_tracker _ Hok a t Ht) as (_ & Hsa & Hnt & _).
  unfold update_costaker in Hrun. rewrite run_or_panic_bind in Hrun.
  destruct (UpdateScore t (Some ratio)) as [[t' delta]|] eqn:Hu; [|done].
  apply update_score_spec in Hu as (Hok' & Hsc' & Hdelta & Hst' & Hsa' & Hnt'); [|done..].
  cbv zeta in Hrun. rewrite run_bind in Hrun.
  destruct (Z.eqb_spec delta 0) as [H0|H0].
  - assert (t' = t) as ->.
    { assert (TotalScore t' = TotalScore t) as Hts by lia. clear -Hts Hst' Hsa' Hnt'.
      destruct t', t. cbn in *. by subst. }
    unfold setCostakerRewardsTracker in Hrun. rewrite run_get_bind in Hrun. cbn in Hrun.
    injection Hrun as <- <- <- <-. rewrite insert_id by done. split; [by apply hooked_refl|].
    replace (with_trackers c (costakerRewardsTracker c)) with c by (by destruct c). split; [|done].
    split; try done.
    + intros a' t0 Hin. apply Htodo. by right.
    + by apply NoDup_cons in Hnd as [_ ?].
    + intros a' t0 Ht0. destruct (Hdone a' t0 Ht0) as [[[= -> ->]|Hin]%elem_of_cons|Hd]; [by right|by left|by right].
    + rewrite <-Hsum. unfold sum_scores. cbn [foldr snd]. lia.
  - rewrite run_bind in Hrun. pose proof (pay_spec co_addr inc_addr Hco Hinc s b c cr a Hok Hcr Hsol Hg) as Hpay.
    destruct (CalculateCostakerRewardsAndSendToGauge a (Period cr - 1) (s, b, c)) as [[u w]|[e w]|]; [|done..].
    destruct Hpay as (s1 & b1 & -> & Hh & Hb). rewrite (set_and_start s1 b1 c cr a t' Hok Hcr) in Hrun.
    injection Hrun as <- <- <- <-. split; [done|]. split; [|done].
    destruct (pk_current _ Hok cr Hcr) as (_ & _ & Htot). split.
    + by apply (restart_ok c cr).
    + cbn. rewrite Hcr. cbn. by destruct cr.
    + intros d. rewrite (restart_debt c cr), Hb by done. specialize (Hsol d).
      pose proof (claim_of_nonneg c a d Hok). pose proof (Z.mul_div_le (claim_of c a d) D D_pos).
      pose proof D_pos. nia.
    + intros a' t0 Hin. cbn. rewrite lookup_insert_ne; [apply Htodo; by right|].
      intros ->. by eapply visited_not_todo.
    + by apply NoDup_cons in Hnd as [_ ?].
    + cbn. intros a' t0 [[<- <-]|[Hne Ht0]]%lookup_insert_Some; [by right|].
      destruct (Hdone a' t0 Ht0) as [[[= -> ->]|Hin]%elem_of_cons|Hd]; [done|by left|by right].
    + cbn [restart with_current with_trackers costakerRewardsTracker]. rewrite score_sum_insert, Ht, <-Hsum.
      unfold sum_scores. cbn [foldr snd TotalScore from_option]. lia.
Qed.

Lemma update_loop_inv ratio cr l : 1 ≤ ratio → ∀ s b c x x' s' b' c',
  IncentiveSpec.gauges_ok s → loop_inv ratio cr l x c b →
  IterateCostakers (update_costaker (Some ratio) (Period cr - 1)) x l (s, b, c) = Ok (x', (s', b', c')) →
  hooked s b s' b' ∧ loop_inv ratio cr [] x' c' b' ∧ same_rest c c'.
Proof.
  intros Hr. induction l as [|[a t] l IH]; intros s b c x x' s' b' c' Hg Hl; cbn [IterateCostakers].
  - intros [= <- <- <- <-]. split; [by apply hooked_refl|]. done.
  - rewrite run_bind. destruct (update_costaker _ _ _ _ _) as [[x1 [[s1 b1] c1]]|e|] eqn:Hu; [|done..].
    intros Hrun. eapply (update_costaker_inv ratio) in Hu as (Hh & Hl1 & Hs1); [|done..].
    apply IH in Hrun as (Hh2 & Hl2 & Hs2); [|by destruct Hh as (? & -> & ? & _)|done].
    split; [by eapply hooked_trans|]. split; [done|].
    destruct Hs1 as (? & ? & ?), Hs2 as (? & ? & ?). repeat split; congruence.
Qed.

Lemma sum_scores_perm l l' : l ≡ₚ l' → sum_scores l = sum_scores l'.
Proof. unfold sum_scores. induction 1; cbn [foldr]; lia. Qed.

Lemma costakers_list c : (costakers c).*1 ≡ₚ (map_to_list (costakerRewardsTracker c)).*1 ∧
  (∀ a t, (a, t) ∈ costakers c ↔ costakerRewardsTracker c !! a = Some t) ∧
  sum_scores (costakers c) = score_sum (costakerRewardsTracker c).
Proof.
  unfold costakers. split; [|split].
  - by rewrite merge_sort_Permutation.
  - intros a t. by rewrite merge_sort_Permutation, elem_of_map_to_list.
  - rewrite (sum_scores_perm _ (map_to_list (costakerRewardsTracker c))) by apply merge_sort_Permutation.
    unfold score_sum, zsum. rewrite map_fold_foldr. unfold sum_scores.
    generalize (map_to_list (costakerRewardsTracker c)) as l.
    induction l as [|[a t] l IH]; [done|]. cbn [foldr uncurry snd]. by rewrite IH.
Qed.

Lemma update_all_spec n s b c ratio s' b' c' : 1 ≤ ratio → IncentiveSpec.gauges_ok s → co_inv n c b →
  (n + 3 < 2 ^ 64)%N →
  UpdateAllCostakersScore (Some ratio) (s, b, c) = Ok ((), (s', b', c')) →
  hooked s b s' b' ∧ pool_ok c' ∧ total_ok c' ∧ solvent co_addr c' b' ∧ scores_ok ratio c' ∧
  co_params c' = co_params c ∧ (from_option Period 0 (currentRewards c') ≤ n + 3)%N.
Proof.
  intros Hr Hg [Hok Htot Hn Hpar Hsol] Hsmall. apply periods_one in Hn.
  unfold UpdateAllCostakersScore. rewrite run_bind.
  pose proof (increment_spec s b c Hok ltac:(by left) ltac:(lia)) as Hi.
  destruct (IncrementRewardsPeriod (s, b, c)) as [[ended w]|[e w]|]; [|done..].
  destruct Hi as (c1 & -> & [Hok1 Hrest1 Htrk1 (cr & Hcr & Hrw & -> & _ & Hpc) Hd1]).
  rewrite run_bind. unfold GetCurrentRewards at 1. rewrite run_get_bind. cbn [snd]. rewrite Hcr.
  cbn [of_opt]. unfold mret, M_ret.
  rewrite run_get_bind, run_bind. cbn [snd].
  destruct (costakers_list c1) as (Hperm & Hel & Hsum).
  assert (loop_inv ratio cr (costakers c1) 0 c1 b) as Hl.
  { split; try done.
    - intros d. etrans; [apply Hd1|apply Hsol].
    - intros a t. apply Hel.
    - rewrite Hperm. apply NoDup_fst_map_to_list.
    - intros a t Ht. left. by apply Hel. }
  destruct (IterateCostakers _ _ _ _) as [[x [[s2 b2] c2]]|e|] eqn:Hloop; [|done..].
  apply update_loop_inv in Hloop as (Hh & [Hok2 Hcr2 Hsol2 _ _ Hdone2 Hsum2] & Hrest2); [|done..].
  rewrite run_lift_bind. destruct (CurrentRewards_Validate _) as [u|e|]; [|done..].
  unfold UpdateCurrentRewardsTotalScore. rewrite run_bind.
  assert (∀ d, pending c2 d = 0) as Hpend by (intros d; unfold pending; rewrite Hcr2; cbn; by rewrite Hrw).
  pose proof (increment_spec s2 b2 c2 Hok2 ltac:(by right)) as Hi2. rewrite Hcr2 in Hi2. cbn [from_option] in Hi2.
  specialize (Hi2 ltac:(lia)).
  destruct (IncrementRewardsPeriod (s2, b2, c2)) as [[ended2 w2]|[e w2]|]; [|done..].
  destruct Hi2 as (c3 & -> & [Hok3 Hrest3 Htrk3 (cr3 & Hcr3 & Hrw3 & _ & _ & Hpc3) Hd3]).
  unfold GetCurrentRewards. rewrite run_bind, run_get_bind. cbn [snd]. rewrite Hcr3. cbn [of_opt].
  unfold SetCurrentRewards. mrun. intros [= <- <- <-].
  cbn [sum_scores foldr] in Hsum2. rewrite Z.add_0_r in Hsum2.
  split; [done|].
  assert (0 ≤ x) as Hx0 by (rewrite Hsum2; by apply score_sum_nonneg).
  destruct (pk_current _ Hok3 cr3 Hcr3) as (Hpos3 & _).
  destruct (set_current_ok c3 cr3 (Rewards cr3) x Hok3 Hcr3 Hpos3 Hx0) as [Hok4 Hd4].
  split; [done|]. split; [|split; [|split; [|split]]].
  - intros cr' [= <-]. cbn. by rewrite Htrk3.
  - intros d. rewrite Hd4. specialize (Hd3 d). specialize (Hsol2 d). lia.
  - intros a t. cbn. rewrite Htrk3. intros Ht. by destruct (Hdone2 a t Ht) as [[]%elem_of_nil|].
  - cbn. destruct Hrest1 as (<- & _), Hrest2 as (<- & _), Hrest3 as (<- & _). done.
  - rewrite Hcr2 in Hpc3. cbn in Hpc3 |- *. lia.
Qed.

Lemma validate_params p u : Params_Validate p = Ok u →
  ∃ ratio, ScoreRatioBtcByNtk p = Some ratio ∧ 1 ≤ ratio ∧ portions_ok p.
Proof.
  unfold Params_Validate, validatePercentage. intros (u1 & H1 & H)%bind_Ok.
  apply bind_Ok in H as (u2 & H2 & H). apply bind_Ok in H as (u3 & H3 & H).
  apply bind_Ok in H as (ratio & Hr & H). apply of_option_Ok in Hr. apply require_Ok in H.
  apply bind_Ok in H1 as (x & Hx & H1). apply require_bind_Ok in H1 as [_ H1]. apply require_Ok in H1.
  apply bind_Ok in H2 as (y & Hy & H2). apply require_bind_Ok in H2 as [_ H2]. apply require_Ok in H2.
  apply of_option_Ok in Hx, Hy. rewrite Hx, Hy in H3. cbn in H3. apply require_bind_Ok in H3 as [H3 _].
  exists ratio. split; [done|]. split; [lia|]. exists x, y. do 2 (split; [done|]). lia.
Qed.

(** A change of the parameters keeps the invariant. *)
Lemma update_params_spec authority n s b c req s' b' c' : IncentiveSpec.gauges_ok s → co_inv n c b →
  (n + 3 < 2 ^ 64)%N → UpdateParams authority req (s, b, c) = Ok ((), (s', b', c')) →
  hooked s b s' b' ∧ co_inv (n + 3) c' b'.
Proof.
  intros Hg Hinv Hsmall. unfold UpdateParams, require_m, invalid_proposal, GetParams, SetParams.
  destruct (bool_decide (authority = up_Authority req)); [|done]. rewrite run_bind. unfold mret, M_ret at 1.
  rewrite run_bind. unfold lift. destruct (Params_Validate (up_Params req)) as [u|e|] eqn:Hv; [|done..].
  apply validate_params in Hv as Hval. destruct Hval as (new & Hnew & Hnew1 & Hport).
  destruct (ci_params _ _ _ _ Hinv) as (p & old & Hp & _ & Hold & Hold1 & Hsc).
  rewrite run_bind, run_get_bind. cbn [snd]. rewrite Hp. cbn [or_panic_m]. unfold mret, M_ret.
  rewrite !run_or_panic_bind, Hold, run_or_panic_bind, Hnew, run_bind.
  destruct (Z.eqb_spec new old) as [->|Hne].
  - rewrite run_bind. mrun. intros [= <- <- <-]. split; [by apply hooked_refl|].
    destruct Hinv as [Hok Htot Hn _ Hsol]. split; [by destruct Hok; split|done|cbn; lia| |done].
    by exists (up_Params req), old.
  - destruct (UpdateAllCostakersScore (Some new) (s, b, c)) as [[[] [[s1 b1] c1]]|[e w]|] eqn:Hu; [|done..].
    apply (update_all_spec n) in Hu as (Hh & Hok & Htot & Hsol & Hsc1 & _ & Hn); [|done..].
    rewrite run_bind. mrun. intros [= <- <- <-]. split; [done|].
    split; [by destruct Hok; split|done|done| |done]. by exists (up_Params req), new.
Qed.
End score.
End CostakingScore.
