(* ===== verification/CostakingState.v ===== *)
(** Solvency of x/costaking, and of the two reward modules together.

    The operations of the module keep the invariant of [CostakingSpec]: the begin
    blocker, the hooks of the finality, staking and epoching modules, whether they
    succeed or fail, and the message that changes the parameters and with them all
    scores.  The withdrawal hook discharges the interface [WithdrawHooks] of
    x/incentive.  [rewards_reach] interleaves the steps of both modules; in every state
    it reaches the account of each module covers what the module owes, and the
    total score is the sum of the costakers' scores, each the smaller of his satoshis
    and his tokens over the ratio. *)
From stdpp Require Import base numbers list sorting gmap strings.
From S2P Require Import Prelude KVStore Bytes BtcStaking Finality FinalityPower SdkCoins ZSum Incentive IncentiveSpec IncentiveState Costaking CostakingSpec CostakingScore.

Module CostakingState.
Import BtcStaking Costaking CostakingSpec CostakingScore.
Local Open Scope Z_scope.

Section state.
Context {SC : SdkCoins} {SCL : SdkCoinsLaws} {BK : BankKeeper} {BL : BankLaws} {B32 : Bech32}.
Context {SK : StakingKeeper} {DK : DistributionKeeper}.
Context (AddrString : list N → string) (feeCollectorName : string).
Context (co_addr inc_addr fee_addr distr_addr : list N).
Context (Hco : GetModuleAccount ModuleName = Some co_addr).
Context (Hinc : GetModuleAccount Incentive.ModuleName = Some inc_addr).
Context (Hfee : GetModuleAccount feeCollectorName = Some fee_addr).
Context (Hdistr : GetModuleAccount distrModuleName = Some distr_addr).
Context (Hdistinct : feeCollectorName ≠ Incentive.ModuleName ∧ feeCollectorName ≠ ModuleName).
Implicit Types (c : CoState) (s : Incentive.IncState) (b : Bank) (a : list N) (d : string) (p : N).

Abbreviation keeps := (CostakingSpec.keeps co_addr inc_addr).
Abbreviation hooked := (IncentiveState.hooked inc_addr).
Abbreviation co_inv := (CostakingSpec.co_inv co_addr).
Abbreviation W := (Incentive.World (HookEnv := CoState)).

Lemma fee_ne_co : fee_addr ≠ co_addr.
Proof.
  intros Heq. apply (proj2 Hdistinct). eapply module_account_inj; [exact Hfee|]. by rewrite Heq.
Qed.
Lemma fee_ne_inc : fee_addr ≠ inc_addr.
Proof.
  intros Heq. apply (proj1 Hdistinct). eapply module_account_inj; [exact Hfee|]. by rewrite Heq.
Qed.

(** ** The hook of the withdrawal *)

#[export] Instance costaking_hooks : IncentiveState.WithdrawHooks inc_addr fee_addr BeforeRewardWithdraw.
Proof.
  refine {| IncentiveState.hook_inv n e b := co_inv n e b |}.
  - intros n m e b. apply co_inv_mono.
  - intros n e b b' Hk Hinv. eapply co_inv_bank; [|done]. intros d.
    apply Hk; [by apply (co_ne_inc co_addr inc_addr)|apply not_eq_sym, fee_ne_co].
  - intros n s b e t a Hg Hinv Hsmall. unfold BeforeRewardWithdraw. case_decide.
    + split; [by apply hooked_refl|]. eapply co_inv_mono; [|done]. lia.
    + pose proof (withdraw_keeps co_addr inc_addr Hco Hinc a n s b e Hg Hinv Hsmall) as Hk.
      by destruct (costakerWithdrawRewards a (s, b, e)) as [[u [[s' b'] c']]|[err [[s' b'] c']]|].
Defined.

(** ** Fees *)

(** A transfer out of the collected fees. *)
Lemma send_fees_keeps m y amt : GetModuleAccount m = Some y → keeps 0 (send_coins feeCollectorName m amt).
Proof.
  intros Hm n s b c Hg Hinv _. unfold send_coins. rewrite N.add_0_r.
  destruct (SendCoinsFromModuleToModule b feeCollectorName m amt) as [b'| |] eqn:Hs; [| |done].
  2: { split; [by apply hooked_refl|done]. }
  apply (m2m_spec _ _ _ fee_addr y) in Hs as [Hpos Hmv]; [|done..].
  assert (∀ x d, x ≠ fee_addr → balance b x d ≤ balance b' x d) as Hle.
  { intros x d Hx. rewrite Hmv, decide_False by done.
    pose proof (coins_amount_nonneg amt d (coins_pos_nonneg _ Hpos)). case_decide; lia. }
  split.
  - exists (Incentive.rewardGauges s). split; [by destruct s|]. split; [done|]. intros d.
    specialize (Hle inc_addr d (not_eq_sym fee_ne_inc)). destruct s. cbn in *. lia.
  - eapply co_inv_bank; [|done]. intros d. apply Hle, not_eq_sym, fee_ne_co.
Qed.

(** Coins that have come in are added to the rewards of the period. *)
Lemma add_rewards_spec n s b b' c r : co_inv n c b → coins_pos r →
  (∀ d, balance b' co_addr d = balance b co_addr d + amount_of r d) →
  match AddRewardsForCostakers r (s, b', c) with
  | Ok (_, w) | Err (_, w) => ∃ c', w = (s, b', c') ∧ co_inv (n + 1) c' b'
  | Panic => True
  end.
Proof.
  intros Hinv Hr Hb. unfold AddRewardsForCostakers. rewrite run_bind.
  assert (∀ d, balance b co_addr d ≤ balance b' co_addr d) as Hle.
  { intros d. rewrite Hb. pose proof (coins_amount_nonneg r d (coins_pos_nonneg _ Hr)). lia. }
  destruct Hinv as [Hok Htot Hn (p & ratio & Hp & Hpo & Hra & Hr1 & Hsc) Hsol].
  destruct (get_initialized c Hok) as (c0 & cr & Hrun & Hcr & Hok0 & Hrest & Htrk & Hd & Ht0 & _ & _ & Hpc).
  rewrite Hrun, run_lift_bind. apply periods_one in Hn.
  assert (co_inv (n + 1) c0 b) as Hinv0.
  { split; [done|by apply Ht0|rewrite Hcr; cbn; lia| |intros d; rewrite Hd; apply Hsol].
    exists p, ratio. destruct Hrest as (Hp' & _). split; [by rewrite Hp'|]. do 3 (split; [done|]).
    intros a t. rewrite Htrk. apply Hsc. }
  destruct (AddRewards cr r) as [cr'|e|] eqn:Ha; [| |done].
  2: { exists c0. split; [done|]. by eapply co_inv_bank. }
  unfold AddRewards in Ha. apply bind_Ok in Ha as (rd & Hrd & Ha). apply bind_Ok in Ha as (rw & Hrw & [= <-]).
  apply of_option_Ok in Hrw. destruct (pk_current _ Hok0 cr Hcr) as (Hpos & Hp1 & Hs).
  apply safe_mul_amount in Hrd as [Hrdn Hrdd]; [|by apply coins_pos_nonneg|by vm_compute].
  apply add_spec in Hrw as [Hrwp Hrwd]; [|by apply coins_pos_nonneg|done].
  unfold SetCurrentRewards. mrun. eexists. split; [done|].
  destruct Hinv0 as [_ Htot0 Hn0 Hpar0 Hsol0].
  destruct (set_current_ok c0 cr rw (cr_TotalScore cr) Hok0 Hcr Hrwp Hs) as [Hok' Hd']. split.
  - done.
  - intros cr'. cbn. intros [= <-]. cbn. by apply Htot0.
  - cbn. rewrite Hcr in Hn0. done.
  - done.
  - intros d. specialize (Hsol0 d). rewrite Hd', Hrwd, Hrdd, Hb. lia.
Qed.

Lemma accumulate_keeps r : coins_pos r → keeps 1 (accumulateCostakingRewards feeCollectorName r).
Proof.
  intros Hr n s b c Hg Hinv Hsmall. unfold accumulateCostakingRewards.
  destruct (IsAllPositive r); cbn [negb].
  2: { split; [by apply hooked_refl|]. eapply co_inv_mono; [|done]. lia. }
  rewrite run_bind. pose proof (send_fees_keeps ModuleName co_addr r Hco n s b c Hg Hinv ltac:(lia)) as Hs.
  unfold send_coins in *. rewrite N.add_0_r in Hs.
  destruct (SendCoinsFromModuleToModule b feeCollectorName ModuleName r) as [b'| |] eqn:Hb; [| |done].
  2: { destruct Hs. split; [done|]. eapply co_inv_mono; [|done]. lia. }
  destruct Hs as [Hh _]. apply (m2m_spec _ _ _ fee_addr co_addr) in Hb as [_ Hmv]; [|done..].
  pose proof (add_rewards_spec n s b b' c r Hinv Hr) as Ha.
  destruct (AddRewardsForCostakers r (s, b', c)) as [[u w]|[e w]|]; [..|done];
    (destruct Ha as (c' & -> & Hinv'); [|done]); intros d; rewrite Hmv;
    rewrite decide_False by apply not_eq_sym, fee_ne_co; rewrite decide_True by done; lia.
Qed.

(** The bound of a sequence, when its first part opens no period. *)
Lemma keeps_seq {A B} k (m : M A) (f : A → M B) :
  keeps 0 m → (∀ x, keeps k (f x)) → keeps k (m ≫= f).
Proof. intros Hm Hf. rewrite <-(N.add_0_l k). by apply keeps_bind. Qed.
Lemma keeps_le {A} k (m : M A) : keeps 0 m → keeps k m.
Proof. apply keeps_weaken. lia. Qed.

Lemma allocate_votes_keeps stk valsRwds total dk votes :
  keeps 0 (allocate_votes stk valsRwds total dk votes).
Proof.
  revert dk. induction votes as [|v votes IH]; intros dk; cbn [allocate_votes]; [apply keeps_ret|].
  apply keeps_seq; [|done]. unfold allocate_vote.
  apply keeps_seq; [apply keeps_of_opt|]. intros [x|].
  all: do 2 (apply keeps_seq; [apply keeps_or_panic|intros ?]);
    first [apply keeps_of_opt|apply keeps_throw].
Qed.

Lemma allocate_keeps stk dk votes r : keeps 0 (allocateValidatorsRewards stk feeCollectorName dk votes r).
Proof.
  unfold allocateValidatorsRewards. destruct (IsAllPositive r); cbn [negb]; [|apply keeps_ret].
  apply keeps_seq; [apply keeps_or_panic|]. intros x. cbv zeta.
  destruct (foldl _ _ _ =? 0); [apply keeps_ret|].
  apply keeps_seq; [by eapply send_fees_keeps|]. intros _. apply allocate_votes_keeps.
Qed.

Lemma begin_block_keeps stk height dk votes : keeps 1 (BeginBlocker stk feeCollectorName height dk votes).
Proof.
  unfold BeginBlocker. destruct (height <=? 0); [apply keeps_le, keeps_ret|].
  intros n s b c Hg Hinv Hsmall. unfold HandleCoinsInFeeCollector, GetParams.
  rewrite run_or_panic_bind, Hfee, run_bind. cbn [get_bank fst snd]. cbv zeta.
  destruct (ci_params _ _ _ _ Hinv) as (p & ratio & Hp & (x & y & Hx & Hy & Hx0 & Hy0 & _) & _).
  destruct (IsAllPositive (GetAllBalances b fee_addr)) eqn:Hpos; cbn [negb].
  2: by apply (keeps_le 1 (mret dk) (keeps_ret _ _ _)).
  rewrite run_bind, run_get_bind. cbn [snd]. rewrite Hp. cbn [or_panic_m mret M_ret].
  rewrite run_or_panic_bind, Hy, run_or_panic_bind.
  destruct (Incentive.GetCoinsPortion (GetAllBalances b fee_addr) y) as [rv|]; [|done].
  apply (keeps_seq 1 _ _ (allocate_keeps stk dk votes rv)); [|done..].
  intros dk' n1 s1 b1 c1 Hg1 Hinv1 Hsmall1. rewrite run_or_panic_bind, Hx, run_or_panic_bind.
  destruct (Incentive.GetCoinsPortion (GetAllBalances b fee_addr) x) as [rc|] eqn:Hrc; [|done].
  apply IncentiveState.GetCoinsPortion_spec in Hrc as [Hrcp _]; [|apply balances_pos|done].
  assert (keeps 1 (accumulateCostakingRewards feeCollectorName rc ≫= λ _, mret dk')) as Hk.
  { apply (keeps_bind _ _ 1 0); [by apply accumulate_keeps|]. intros _. apply keeps_ret. }
  by apply Hk.
Qed.

(** ** Hooks *)

Lemma co_inv_rest n c c' b : co_params c' = co_params c → currentRewards c' = currentRewards c →
  historicalRewards c' = historicalRewards c → costakerRewardsTracker c' = costakerRewardsTracker c →
  co_inv n c b → co_inv n c' b.
Proof.
  destruct c, c'. cbn. intros -> -> -> -> [Hok Htot Hn Hpar Hsol].
  split; [by destruct Hok; split|done..].
Qed.

(** A change of the cache or of the validator set, and what follows. *)
Lemma keeps_modify {A} k (f : CoState → CoState) (m : CoState → M A) :
  (∀ n c b, co_inv n c b → co_inv n (f c) b) → (∀ c, keeps k (m c)) →
  keeps k (get_state ≫= λ c, put_state (f c) ≫= λ _, m c).
Proof. intros Hf Hm n s b c Hg Hinv Hsmall. by apply (Hm c n s b (f c)); [|apply Hf|]. Qed.

Lemma keeps_put (f : CoState → CoState) : (∀ n c b, co_inv n c b → co_inv n (f c) b) →
  keeps 0 (get_state ≫= λ c, put_state (f c)).
Proof.
  intros Hf n s b c Hg Hinv _. rewrite run_get_bind. cbn [put_state fst snd].
  split; [by apply hooked_refl|]. rewrite N.add_0_r. by apply Hf.
Qed.

Lemma with_cache_inv n c b v : co_inv n c b → co_inv n (with_cache c v) b.
Proof. by apply co_inv_rest. Qed.
Lemma with_valset_inv n c b v : co_inv n c b → co_inv n (with_valset c v) b.
Proof. by apply co_inv_rest. Qed.

Lemma end_block_keeps : keeps 0 EndBlock.
Proof. apply (keeps_put (λ c, with_cache c _)). intros n c b. apply with_cache_inv. Qed.

Lemma valset_keeps height : keeps 0 (GetActiveValidatorSet (buildCurrEpochValSetMap height)).
Proof.
  apply keeps_seq; [apply keeps_get_state|]. intros c.
  destruct (activeValSet (stkCache c)); [apply keeps_ret|]. apply keeps_seq.
  - unfold buildCurrEpochValSetMap. destruct (height =? 0); [apply keeps_ret|].
    apply keeps_seq; [apply keeps_get_state|]. intros c'. apply keeps_seq; [apply keeps_of_opt|].
    intros v. apply keeps_ret.
  - intros v. apply (keeps_modify 0 (λ c, set_active c v)); [intros *; apply with_cache_inv|].
    intros c'. apply keeps_ret.
Qed.

Lemma is_active_keeps height v : keeps 0 (isActiveValidator height v).
Proof.
  apply keeps_seq; [apply valset_keeps|]. intros vs. apply keeps_seq; [|intros ?; apply keeps_ret].
  unfold assumeActiveValidatorIfGenesis. destruct (height =? 0); [|apply keeps_ret]. cbv zeta.
  apply (keeps_modify 0 (λ c, set_active c ({[v]} ∪ vs))); [intros *; apply with_cache_inv|].
  intros c. apply keeps_ret.
Qed.

Lemma tokens_keeps stk v (x : Dec) : keeps 0 (TokensFromShares stk v x).
Proof. apply keeps_seq; [apply keeps_of_opt|]. intros val. apply keeps_or_panic. Qed.

Lemma defer_keeps {A} k a v (m : M A) : keeps k m → keeps k (defer_delete a v m).
Proof.
  intros Hm n s b c Hg Hinv Hsmall. specialize (Hm n s b c Hg Hinv Hsmall). unfold defer_delete.
  destruct (m (s, b, c)) as [[x [[s' b'] c']]|[e [[s' b'] c']]|]; [..|done]; cbn [fst snd];
    destruct Hm; (split; [done|by apply with_cache_inv]).
Qed.

Lemma modified_sats_keeps a x : keeps 2 (costakerModified a (add_sats x)).
Proof. apply modified_keeps; [done..|]. apply add_sats_amounts. Qed.
Lemma modified_ntk_keeps a x : keeps 2 (costakerModified a (add_ntk x)).
Proof. apply modified_keeps; [done..|]. apply add_ntk_amounts. Qed.

(** The hooks of the staking module. *)
Lemma after_delegation_keeps stk height a v : keeps 2 (AfterDelegationModified stk height a v).
Proof.
  apply defer_keeps. apply keeps_seq; [apply is_active_keeps|]. intros [|]; cbn [negb]; [|apply keeps_le, keeps_ret].
  apply keeps_seq; [apply keeps_of_opt|]. intros del. apply keeps_seq; [apply tokens_keeps|]. intros tk.
  apply keeps_seq; [apply keeps_get_state|]. intros c. apply modified_ntk_keeps.
Qed.

Lemma delegation_removed_keeps stk height a v : keeps 2 (BeforeDelegationRemoved stk height a v).
Proof.
  apply defer_keeps. apply keeps_seq; [apply is_active_keeps|]. intros [|]; cbn [negb]; [|apply keeps_le, keeps_ret].
  apply keeps_seq; [apply keeps_of_opt|]. intros del. apply keeps_seq; [apply tokens_keeps|]. intros tk.
  cbv zeta. destruct (TruncateInt tk =? 0); [apply keeps_le, keeps_ret|apply modified_ntk_keeps].
Qed.

Lemma shares_modified_keeps stk height a v : keeps 0 (BeforeDelegationSharesModified stk height a v).
Proof.
  apply keeps_seq; [apply is_active_keeps|]. intros [|]; cbn [negb]; [|apply keeps_ret].
  destruct (GetDelegation stk a v) as [del|]; [|apply keeps_ret].
  apply keeps_seq; [apply tokens_keeps|]. intros tk.
  apply (keeps_put (λ c, with_cache c _)). intros *. apply with_cache_inv.
Qed.

(** The number of delegations to a validator. *)
Definition delegations stk (v : list N) : N :=
  from_option (λ l, N.of_nat (length l)) 0%N (GetValidatorDelegations stk v).

Lemma keeps_opt {A B} k e (o : option A) (f : A → M B) :
  (∀ x, o = Some x → keeps k (f x)) → keeps k (of_opt e o ≫= f).
Proof.
  intros Hf. destruct o as [x|]; [by apply (Hf x)|]. apply (keeps_le k (throw (A := B) e)), keeps_throw.
Qed.

Lemma slashed_keeps stk height v fraction :
  keeps (delegations stk v * 2) (BeforeValidatorSlashed stk height v fraction).
Proof.
  apply keeps_seq; [apply is_active_keeps|]. intros [|]; cbn [negb]; [|apply keeps_le, keeps_ret].
  apply keeps_opt. intros l Hl. unfold delegations. rewrite Hl. cbn [from_option].
  apply keeps_seq; [apply keeps_of_opt|]. intros val. apply keeps_iter. intros del. unfold slash_delegation.
  do 3 (apply keeps_seq; [apply keeps_or_panic|intros ?]). apply modified_ntk_keeps.
Qed.

(** The hooks of x/epoching. *)
Lemma logged_keeps k m : keeps k m → keeps k (logged m).
Proof.
  intros Hm n s b c Hg Hinv Hsmall. specialize (Hm n s b c Hg Hinv Hsmall). unfold logged.
  by destruct (m (s, b, c)) as [[x [[s' b'] c']]|[e [[s' b'] c']]|].
Qed.

Lemma update_valset_keeps stk l : keeps 0 (updateValidatorSet stk l).
Proof.
  apply keeps_seq.
  - induction l as [|v l IH]; cbn [set_validators]; [apply keeps_ret|].
    apply keeps_seq; [apply keeps_of_opt|]. intros val. apply keeps_seq; [done|]. intros r. apply keeps_ret.
  - intros vs. apply (keeps_put (λ c, with_valset c _)). intros *. apply with_valset_inv.
Qed.

Lemma new_valset_keeps stk : keeps 0 (buildNewActiveValSetMap stk).
Proof. apply keeps_seq; [apply keeps_of_opt|]. intros l. apply keeps_ret. Qed.

Lemma epoch_begins_keeps stk : keeps 0 (AfterEpochBegins stk).
Proof.
  apply keeps_seq; [apply keeps_get_state|]. intros c. destruct (validatorSet c); [apply keeps_ret|].
  apply logged_keeps, keeps_seq; [apply new_valset_keeps|]. intros [x l]. apply update_valset_keeps.
Qed.

Lemma before_epoch_ends_keeps height : keeps 0 (BeforeEpochEnds height).
Proof.
  apply logged_keeps, keeps_seq; [apply valset_keeps|]. intros v. apply keeps_ret.
Qed.

(** The delegations of the validator whose record is stored under [v]. *)
Definition val_delegations stk (v : list N) : N :=
  from_option (λ val, from_option (delegations stk) 0%N (ValAddressFromBech32 (OperatorAddress val)))
    0%N (GetValidator stk v).

Lemma update_delegators_keeps stk v sign :
  keeps (val_delegations stk v * 2)
    (of_opt ErrStaking (GetValidator stk v) ≫= λ val, updateCoStkTrackerForDelegators stk val sign).
Proof.
  apply keeps_opt. intros val Hval. unfold val_delegations. rewrite Hval. cbn [from_option].
  apply keeps_opt. intros v' Hv'. rewrite Hv'. cbn [from_option]. unfold delegations.
  apply keeps_opt. intros l Hl. rewrite Hl. cbn [from_option]. apply keeps_iter. intros del.
  do 2 (apply keeps_seq; [apply keeps_or_panic|intros ?]). apply modified_ntk_keeps.
Qed.

Definition sum_delegations stk (l : list (list N)) : N :=
  foldr (λ v n, val_delegations stk v + n)%N 0%N l.

Lemma keeps_iter_delegators stk (P : list N → Prop) `{∀ v, Decision (P v)} sign l :
  keeps (sum_delegations stk l * 2)
    (iter_m (λ v, if decide (P v) then mret ()
       else of_opt ErrStaking (GetValidator stk v) ≫= λ val, updateCoStkTrackerForDelegators stk val sign) l).
Proof.
  induction l as [|v l IH]; cbn [iter_m sum_delegations foldr]; [apply keeps_ret|].
  fold (sum_delegations stk l). rewrite N.mul_add_distr_r. apply keeps_bind; [|done].
  case_decide; [apply keeps_le, keeps_ret|apply update_delegators_keeps].
Qed.

(** The validators that were active in the epoch that ends. *)
Definition active_of (height : Z) c : gset (list N) :=
  match activeValSet (stkCache c) with
  | Some v => v
  | None => if height =? 0 then ∅ else list_to_set (sv_Addr <$> default [] (validatorSet c))
  end.

Lemma valset_run n s b c height : co_inv n c b →
  match GetActiveValidatorSet (buildCurrEpochValSetMap height) (s, b, c) with
  | Ok (v, w) => v = active_of height c ∧ ∃ c', w = (s, b, c') ∧ co_inv n c' b
  | Err (_, w) => w = (s, b, c)
  | Panic => False
  end.
Proof.
  intros Hinv. unfold GetActiveValidatorSet, active_of. rewrite run_get_bind. cbn [snd].
  destruct (activeValSet (stkCache c)) as [v|]; [split; [done|]; by exists c|].
  rewrite run_bind. unfold buildCurrEpochValSetMap. destruct (height =? 0).
  - split; [done|]. eexists. split; [done|]. by apply with_cache_inv.
  - rewrite run_get_bind, run_of_opt_bind. cbn [snd]. destruct (validatorSet c) as [vs|]; [|done].
    split; [done|]. eexists. split; [done|]. by apply with_cache_inv.
Qed.

Definition new_validators stk : list (list N) :=
  from_option (fmap fst) [] (IterateLastValidatorPowers stk).

Definition epoch_cost stk (height : Z) c : N :=
  (sum_delegations stk (new_validators stk) +
   sum_delegations stk (sort_addrs (elements (active_of height c))))%N.

Lemma epoch_ends_keeps stk height n s b c : IncentiveSpec.gauges_ok s → co_inv n c b →
  (n + epoch_cost stk height c * 2 < 2 ^ 64)%N →
  match AfterEpochEnds stk height (s, b, c) with
  | Ok (_, (s', b', c')) | Err (_, (s', b', c')) =>
      hooked s b s' b' ∧ co_inv (n + epoch_cost stk height c * 2) c' b'
  | Panic => True
  end.
Proof.
  intros Hg Hinv Hsmall. unfold AfterEpochEnds, logged. rewrite run_bind.
  pose proof (valset_run n s b c height Hinv) as Hv.
  destruct (GetActiveValidatorSet (buildCurrEpochValSetMap height) (s, b, c)) as [[v w]|[e w]|]; [|subst w|done].
  2: { split; [by apply hooked_refl|]. eapply co_inv_mono; [|done]. lia. }
  destruct Hv as (-> & c' & -> & Hinv').
  set (rest := buildNewActiveValSetMap stk ≫= _).
  assert (keeps (epoch_cost stk height c * 2) rest) as Hrest.
  { intros n0 s0 b0 c0 Hg0 Hinv0 Hs0. unfold rest, buildNewActiveValSetMap.
    unfold epoch_cost, new_validators in *. rewrite run_bind, run_of_opt_bind.
    destruct (IterateLastValidatorPowers stk) as [l|]; cbn [from_option] in *.
    2: { split; [by apply hooked_refl|]. eapply co_inv_mono; [|done]. lia. }
    rewrite N.mul_add_distr_r in *. cbn [mret M_ret].
    refine (keeps_bind co_addr inc_addr _ _ _ _ (keeps_iter_delegators _ _ _ _) _ n0 s0 b0 c0 Hg0 Hinv0 Hs0).
    intros _. rewrite <-(N.add_0_r (_ * 2)). apply keeps_bind; [apply keeps_iter_delegators|]. intros _.
    apply update_valset_keeps. }
  specialize (Hrest n s b c' Hg Hinv' Hsmall).
  by destruct (rest (s, b, c')) as [[x [[s1 b1] c1]]|[e [[s1 b1] c1]]|].
Qed.

(** The hooks of x/finality. *)
Lemma unbonded_keeps fp a prev cur sats : keeps 2 (AfterBtcDelegationUnbonded fp a prev cur sats).
Proof.
  unfold AfterBtcDelegationUnbonded. destruct prev; cbn [negb]; [apply modified_sats_keeps|apply keeps_le, keeps_ret].
Qed.
Lemma activated_keeps fp a prev cur sats : keeps 2 (AfterBtcDelegationActivated fp a prev cur sats).
Proof.
  unfold AfterBtcDelegationActivated. destruct prev; cbn [negb]; [apply modified_sats_keeps|apply keeps_le, keeps_ret].
Qed.

Definition fp_events s (height : N) fp : gmap string Z :=
  Incentive.GetRewardTrackerEventsCompiledByBtcDel s height (λ x, bool_decide (x = AddrString fp)).
Definition fp_cost s (height : N) fp : N :=
  N.of_nat (length (Incentive.trackers_of s fp) + size (fp_events s height fp)).

Lemma hooked_gauges s b s' b' : hooked s b s' b' → IncentiveSpec.gauges_ok s'.
Proof. by intros (? & -> & ? & _). Qed.

(** [P] holds of the state that a run leaves. *)
Definition leaves {A} (sel : A → W) (r : res (CoErr * W) A) (P : W → Prop) : Prop :=
  match r with
  | Ok x => P (sel x)
  | Err (_, w) => P w
  | Panic => True
  end.

Definition kept n s b (k : N) : W → Prop := λ w,
  let '(s', b', c') := w in hooked s b s' b' ∧ co_inv (n + k) c' b'.

Lemma kept_trans n s b k w k' w' : kept n s b k w →
  (let '(s1, b1, _) := w in kept (n + k) s1 b1 k' w') → kept n s b (k + k') w'.
Proof.
  destruct w as [[s1 b1] c1], w' as [[s2 b2] c2]. unfold kept. intros [Hh _] [Hh' Hi'].
  split; [by eapply hooked_trans|]. by rewrite N.add_assoc.
Qed.

Lemma kept_weaken n s b k k' w : (k ≤ k')%N → kept n s b k w → kept n s b k' w.
Proof.
  destruct w as [[s' b'] c']. intros Hk [Hh Hi]. split; [done|]. eapply co_inv_mono; [|done]. lia.
Qed.

(** A loop whose body keeps the invariant; the accumulator has more than the state. *)
Lemma fold_leaves {A X} (sel : A → W) (f : A → X → res (CoErr * W) A) (k : N) l n s b x :
  (∀ n s b c x y, sel x = (s, b, c) → IncentiveSpec.gauges_ok s → co_inv n c b → (n + k < 2 ^ 64)%N →
     leaves sel (f x y) (kept n s b k)) →
  (let '(s', b', c') := sel x in s' = s ∧ b' = b ∧ IncentiveSpec.gauges_ok s ∧ co_inv n c' b) →
  (n + N.of_nat (length l) * k < 2 ^ 64)%N →
  leaves sel (fold_res f x l) (kept n s b (N.of_nat (length l) * k)).
Proof.
  intros Hf. revert n s b x. induction l as [|y l IH]; intros n s b x Hx Hsmall; cbn [fold_res length] in *.
  - cbn. destruct (sel x) as [[s' b'] c']. destruct Hx as (-> & -> & Hg & Hi).
    split; [by apply hooked_refl|]. by rewrite N.add_0_r.
  - destruct (sel x) as [[s' b'] c'] eqn:Hs. destruct Hx as (-> & -> & Hg & Hi).
    specialize (Hf n s b c' x y Hs Hg Hi ltac:(lia)).
    replace (N.of_nat (S (length l)) * k)%N with (k + N.of_nat (length l) * k)%N in * by lia.
    destruct (f x y) as [x1|[e w]|]; cbn in Hf |- *; [|eapply kept_weaken; [|done]; lia|done].
    destruct (sel x1) as [[s1 b1] c1] eqn:Hs1. destruct Hf as [Hh Hi1].
    specialize (IH (n + k)%N s1 b1 x1). rewrite Hs1 in IH.
    specialize (IH ltac:(do 2 (split; [done|]); split; [by eapply hooked_gauges|done]) ltac:(lia)).
    destruct (fold_res f x1 l) as [x2|[e w]|]; cbn in IH |- *; [..|done];
      (eapply (kept_trans n s b k (s1, b1, c1)); [by split|done]).
Qed.

Lemma fold_events_subset {X} (f : gmap string Z * W → X → res (CoErr * W) (gmap string Z * W)) l acc acc' :
  (∀ acc y acc', f acc y = Ok acc' → acc'.1 ⊆ acc.1) → fold_res f acc l = Ok acc' → acc'.1 ⊆ acc.1.
Proof.
  intros Hf. revert acc. induction l as [|y l IH]; intros acc; cbn [fold_res].
  - by intros [= <-].
  - intros (acc1 & H1 & H2)%bind_Ok. etrans; [by eapply IH|by eapply Hf].
Qed.

Lemma for_delegations_keeps k height fp f n s b c : (∀ del x, keeps k (f del x)) →
  IncentiveSpec.gauges_ok s → co_inv n c b → (n + fp_cost s height fp * k < 2 ^ 64)%N →
  leaves (snd (A := unit)) (for_delegations AddrString height fp f (s, b, c)) (kept n s b (fp_cost s height fp * k)).
Proof.
  intros Hf Hg Hinv Hsmall. unfold for_delegations, Incentive.IterateBTCDelegationSatsUpdated, fp_cost in *.
  cbn [fst]. fold (fp_events s height fp). cbv zeta.
  match goal with |- context [fold_res ?g (fp_events s height fp, (s, b, c)) _] => set (body := g) end.
  rewrite Nat2N.inj_add, N.mul_add_distr_r in *. set (k1 := (N.of_nat (length _) * k)%N) in *.
  assert (leaves snd (fold_res body (fp_events s height fp, (s, b, c)) (Incentive.trackers_of s fp)) (kept n s b k1)) as H1.
  { apply fold_leaves; [|done|lia]. intros n0 s0 b0 c0 [m0 w0] [del t] Hw Hg0 Hi0 Hs0. cbn in Hw. subst w0.
    cbn [body]. cbv zeta. pose proof (Hf del (Incentive.bt_TotalActiveSat t + default 0 (m0 !! AddrString del)) n0 s0 b0 c0 Hg0 Hi0 Hs0) as Hk.
    by destruct (f del _ (s0, b0, c0)) as [[u [[s1 b1] c1]]|[e [[s1 b1] c1]]|]. }
  assert (∀ acc, fold_res body (fp_events s height fp, (s, b, c)) (Incentive.trackers_of s fp) = Ok acc →
    acc.1 ⊆ fp_events s height fp) as Hsub.
  { intros acc Hacc. apply fold_events_subset in Hacc; [done|]. intros [m0 w0] [del t] acc' Hb. cbn [body] in Hb.
    apply bind_Ok in Hb as (w1 & _ & [= <-]). apply delete_subseteq. }
  destruct (fold_res body _ _) as [[m w]|[e w]|] eqn:H0; cbn [mbind res_bind]; [| |done].
  2: { eapply kept_weaken; [|exact H1]. lia. }
  specialize (Hsub _ eq_refl). cbn [fst] in Hsub. apply map_subseteq_size in Hsub. cbn [leaves snd] in H1.
  destruct w as [[s1 b1] c1].
  match goal with |- context [fold_res ?g (s1, b1, c1) ?l0] => set (body2 := g); set (l := l0) end.
  assert (length l = size m) as Hl.
  { unfold l. rewrite merge_sort_Permutation. apply length_map_to_list. }
  assert (leaves id (fold_res body2 (s1, b1, c1) l) (kept (n + k1) s1 b1 (N.of_nat (length l) * k))) as H2.
  { destruct H1 as [Hh1 Hi1]. apply fold_leaves; [| |nia].
    - intros n0 s0 b0 c0 w0 [addr x] Hw Hg0 Hi0 Hs0. cbn in Hw. subst w0. unfold body2. cbn [fst snd].
      destruct (AccAddressFromBech32 addr) as [del|]; cbn [of_option mbind res_bind].
      2: { split; [by apply hooked_refl|]. eapply co_inv_mono; [|done]. lia. }
      pose proof (Hf del x n0 s0 b0 c0 Hg0 Hi0 Hs0) as Hk.
      by destruct (f del _ (s0, b0, c0)) as [[u [[s2 b2] c2]]|[e [[s2 b2] c2]]|].
    - split; [done|]. split; [done|]. split; [by eapply hooked_gauges|done]. }
  assert (kept n s b k1 (s1, b1, c1)) as H1' by done.
  destruct (fold_res body2 (s1, b1, c1) l) as [w2|[e w2]|]; cbn [leaves id snd] in *; [..|done];
    (eapply kept_weaken; [|eapply (kept_trans n s b k1 (s1, b1, c1)); [done|exact H2]]); nia.
Qed.

(** ** Reachable states *)

Context (authority : string) (tmhash_Sum : bytes → bytes).

(** The operations of the module, with the number of periods they may open in the
    state [w].  The state of the staking module is any. *)
Inductive co_op (w : W) : N → M unit → Prop :=
  | op_begin stk height dk votes :
      co_op w 1 (BeginBlocker stk feeCollectorName height dk votes ≫= λ _, mret ())
  | op_end : co_op w 0 EndBlock
  | op_activated fp a prev cur sats : co_op w 2 (AfterBtcDelegationActivated fp a prev cur sats)
  | op_unbonded fp a prev cur sats : co_op w 2 (AfterBtcDelegationUnbonded fp a prev cur sats)
  | op_fp_enters height fp :
      co_op w (fp_cost w.1.1 height fp * 2) (AfterAncFpEntersActiveSet AddrString height fp)
  | op_fp_removed height fp :
      co_op w (fp_cost w.1.1 height fp * 2) (AfterAncFpRemovedFromActiveSet AddrString height fp)
  | op_delegation stk height a v : co_op w 2 (AfterDelegationModified stk height a v)
  | op_removed stk height a v : co_op w 2 (BeforeDelegationRemoved stk height a v)
  | op_shares stk height a v : co_op w 0 (BeforeDelegationSharesModified stk height a v)
  | op_slashed stk height v fraction :
      co_op w (delegations stk v * 2) (BeforeValidatorSlashed stk height v fraction)
  | op_epoch_begins stk : co_op w 0 (AfterEpochBegins stk)
  | op_before_epoch_ends height : co_op w 0 (BeforeEpochEnds height)
  | op_epoch_ends stk height : co_op w (epoch_cost stk height w.2 * 2) (AfterEpochEnds stk height)
  | op_update_params req : co_op w 3 (UpdateParams authority req)
  | op_failed v :
      (** the store is restored when a message fails, the cache in memory is not *)
      co_op w 0 (get_state ≫= λ c, put_state (with_cache c v)).

Lemma keeps_run k m n s b c w' : keeps k m → IncentiveSpec.gauges_ok s → co_inv n c b →
  (n + k < 2 ^ 64)%N → m (s, b, c) = Ok ((), w') → kept n s b k w'.
Proof. intros Hm Hg Hinv Hsmall Hrun. specialize (Hm n s b c Hg Hinv Hsmall). by rewrite Hrun in Hm. Qed.

Lemma co_op_kept n k m s b c w' : co_op (s, b, c) k m → IncentiveSpec.gauges_ok s → co_inv n c b →
  (n + k < 2 ^ 64)%N → m (s, b, c) = Ok ((), w') → kept n s b k w'.
Proof.
  intros Hop Hg Hinv Hsmall Hrun.
  destruct Hop as [stk height dk votes| |fp a prev cur sats|fp a prev cur sats|height fp|height fp|stk height a v
    |stk height a v|stk height a v|stk height v fraction|stk|height|stk height|req|v]; try (by eapply keeps_run; [|exact Hg|exact Hinv|exact Hsmall|exact Hrun]; eauto using end_block_keeps,
    activated_keeps, unbonded_keeps, after_delegation_keeps, delegation_removed_keeps, shares_modified_keeps,
    slashed_keeps, epoch_begins_keeps, before_epoch_ends_keeps).
  - eapply keeps_run; [|done..]. apply (keeps_bind _ _ 1 0); [apply begin_block_keeps|].
    intros _. apply keeps_ret.
  - pose proof (for_delegations_keeps 2 height fp _ n s b c (λ del x, modified_sats_keeps del x) Hg Hinv Hsmall) as Hk.
    unfold AfterAncFpEntersActiveSet in Hrun. by rewrite Hrun in Hk.
  - pose proof (for_delegations_keeps 2 height fp _ n s b c (λ del x, modified_sats_keeps del (- x)) Hg Hinv Hsmall) as Hk.
    unfold AfterAncFpRemovedFromActiveSet in Hrun. by rewrite Hrun in Hk.
  - pose proof (epoch_ends_keeps stk height n s b c Hg Hinv Hsmall) as Hk. by rewrite Hrun in Hk.
  - destruct w' as [[s' b'] c']. by eapply update_params_spec.
  - eapply keeps_run; [|done..]. apply keeps_put. intros *. apply with_cache_inv.
Qed.

Abbreviation inc_step := (IncentiveState.inc_step AddrString feeCollectorName inc_addr fee_addr
  BeforeRewardWithdraw authority tmhash_Sum).

(** The two reward modules, from their genesis on; the index counts the periods that
    may have been opened. *)
Inductive rewards_reach : N → W → Prop :=
  | rr_init ip q ratio b :
      IncentiveState.params_ok (Some ip) → portions_ok q → ScoreRatioBtcByNtk q = Some ratio → 1 ≤ ratio →
      rewards_reach 0 (Incentive.with_params Incentive.inc_empty (Some ip), b, with_params co_empty (Some q))
  | rr_incentive n k w w' : rewards_reach n w → inc_step k w w' → rewards_reach (n + k) w'
  | rr_costaking n k m w w' : rewards_reach n w → co_op w k m → m w = Ok ((), w') →
      rewards_reach (n + k) w'.

Lemma co_empty_inv q ratio b : portions_ok q → ScoreRatioBtcByNtk q = Some ratio → 1 ≤ ratio →
  co_inv 0 (with_params co_empty (Some q)) b.
Proof.
  intros Hq Hr H1. split; [by split|done|done| |].
  - exists q, ratio. do 4 (split; [done|]). done.
  - intros d. unfold debt, pending, claims. cbn [with_params co_empty currentRewards costakerRewardsTracker from_option].
    rewrite zsum_empty. pose proof (coins_amount_nonneg _ d (coins_pos_nonneg _ (balances_pos b co_addr))).
    pose proof D_pos. unfold balance. nia.
Qed.

Lemma rewards_reach_inv n w : rewards_reach n w → (n < 2 ^ 64)%N →
  IncentiveState.world_inv inc_addr fee_addr BeforeRewardWithdraw n w.
Proof.
  induction 1 as [p q ratio b Hp Hq Hr H1|n k w w' _ IH Hst|n k m w w' _ IH Hop Hrun]; intros Hsmall.
  - split; [|by eapply co_empty_inv]. apply IncentiveState.init_inv; [done|]. intros d.
    apply coins_amount_nonneg, coins_pos_nonneg, balances_pos.
  - eapply IncentiveState.inc_step_inv; [done..|apply Hdistinct|apply IH; lia|done|done].
  - specialize (IH ltac:(lia)). destruct w as [[s b] c], IH as [Hi Hc].
    pose proof (co_op_kept n k m s b c w' Hop (IncentiveState.ii_gauges _ _ _ _ Hi) Hc Hsmall Hrun) as Hk.
    destruct w' as [[s' b'] c'], Hk as [Hh Hc'].
    split; [|done]. apply (IncentiveState.inc_inv_weaken _ n); [lia|]. by eapply IncentiveState.hooked_inv.
Qed.

(** ** Theorems *)

(** C6: The accounts of both reward modules cover what they owe. In every state that
    their steps reach, for every denomination, the rewards of the current period of the
    costakers' pool and the claims of all costakers are at most the balance of the
    account of x/costaking, and everything that x/incentive owes, the gauges it was
    credited by x/costaking included, is at most the balance of its account. Fewer than
    [2 ^ 64] periods have been opened and less than [2 ^ 63] satoshis are bonded.  Other
    modules may do any step that keeps the invariant of x/costaking, changes of
    x/incentive only its gauges and brings the coins it credits ([st_others]); in
    particular they never debit the two accounts. *)
Theorem costaking_solvent n s b c d : rewards_reach n (s, b, c) → (n < 2 ^ 64)%N →
  pending c d + claims c d (costakerRewardsTracker c) ≤ balance b co_addr d * Incentive.DecimalRewards ∧
  IncentiveState.total_debt s d ≤ balance b inc_addr d * Incentive.DecimalRewards.
Proof.
  intros Hr Hn. apply rewards_reach_inv in Hr as [Hi Hc]; [|done].
  split; [apply (ci_solvent _ _ _ _ Hc)|apply (IncentiveState.ii_solvent _ _ _ _ Hi)].
Qed.

(** C26: In every reachable state the score of a costaker is the smaller of his active
    satoshis and his active tokens divided by the ratio, neither of them negative, and
    the score by which rewards are divided is the sum of the scores of all costakers.
    Fewer than [2 ^ 64] periods have been opened; other modules are as in [st_others]. *)
Theorem total_score_is_sum n s b c cr prm ratio : rewards_reach n (s, b, c) → (n < 2 ^ 64)%N →
  currentRewards c = Some cr → co_params c = Some prm → ScoreRatioBtcByNtk prm = Some ratio →
  (∀ a t, costakerRewardsTracker c !! a = Some t →
     0 ≤ ActiveSatoshis t ∧ 0 ≤ ActiveNtk t ∧
     TotalScore t = Z.min (ActiveSatoshis t) (ActiveNtk t / ratio)) ∧
  cr_TotalScore cr =
    zsum (λ _ t, Z.min (ActiveSatoshis t) (ActiveNtk t / ratio)) (costakerRewardsTracker c).
Proof.
  intros Hr Hn Hcr Hp Hra. apply rewards_reach_inv in Hr as [_ [Hok Htot _ (p & r & Hp' & _ & Hra' & Hr1 & Hsc) _]]; [|done].
  assert (p = prm) as -> by congruence. assert (r = ratio) as -> by congruence.
  assert (∀ a t, costakerRewardsTracker c !! a = Some t →
     0 ≤ ActiveSatoshis t ∧ 0 ≤ ActiveNtk t ∧
     TotalScore t = Z.min (ActiveSatoshis t) (ActiveNtk t / ratio)) as Hall.
  { intros a t Ht. destruct (pk_tracker _ Hok a t Ht) as (_ & Hsa & Hnt & _). do 2 (split; [done|]).
    rewrite (Hsc a t Ht), Z.quot_div_nonneg by lia. done. }
  split; [done|]. rewrite (Htot cr Hcr). apply zsum_ext. intros a t Ht. by apply Hall in Ht as (_ & _ & ?).
Qed.

(** C39: A share rounded to zero blocks a costaker.  While the reward he is due has a
    coin of amount zero next to a positive one, no withdrawal of his rewards succeeds,
    and no activation of a delegation that changes his score: the hook of the
    finality module, which panics on an error, fails. *)
Theorem zero_share_blocks s b c a t prm ratio fp cur sats ended w r coin :
  IncrementRewardsPeriod (s, b, c) = Ok (ended, w) → CalculateCostakerRewards a ended w = Ok (r, w) →
  IsZero r = false → coin ∈ r → coin_Amount coin = 0 →
  costakerRewardsTracker c !! a = Some t → co_params c = Some prm → ScoreRatioBtcByNtk prm = Some ratio →
  ActiveNtk t ≠ -1 →
  Z.min (ActiveSatoshis t + int64 (Z.of_N sats)) (Z.quot (ActiveNtk t) ratio) ≠ TotalScore t →
  (∀ u w', costakerWithdrawRewards a (s, b, c) ≠ Ok (u, w')) ∧
  (∀ u w', AfterBtcDelegationActivated fp a true cur sats (s, b, c) ≠ Ok (u, w')).
Proof.
  intros Hinc' Hcalc Hz Hin H0 Ht Hp Hra Hntk Hne.
  assert (∀ pre u w', costakerModifiedScoreWithPreInitalization a pre (s, b, c) ≠ Ok (u, w')) as Hblock.
  { intros pre u w'. unfold costakerModifiedScoreWithPreInitalization. rewrite run_bind, Hinc', run_bind.
    destruct w as [[s1 b1] c1].
    destruct (CalculateCostakerRewardsAndSendToGauge a ended (s1, b1, c1)) as [[u1 w1]|e|] eqn:Hs; [|done..].
    by apply (zero_coin_not_sent co_addr inc_addr Hco Hinc _ _ _ _ _ _ _ _ Hcalc Hz Hin H0) in Hs. }
  split; [apply Hblock|]. intros u w'. unfold AfterBtcDelegationActivated. cbn [negb].
  unfold costakerModified, GetCostakerRewardsOrInitialize, GetCostakerRewardsTrackerCheckFound.
  rewrite run_bind, run_bind, run_get_bind. cbn [snd]. rewrite Ht. unfold mret, M_ret. cbv zeta.
  rewrite run_lift_bind. unfold Sanitize. cbn [add_sats ActiveNtk].
  rewrite (proj2 (Z.eqb_neq _ _) Hntk). destruct (Tracker_Validate _) as [v|e|]; [|done..].
  unfold GetParams. rewrite run_bind, run_get_bind. cbn [snd]. rewrite Hp. cbn [or_panic_m]. unfold mret, M_ret.
  rewrite run_or_panic_bind, Hra. unfold UpdateScore, CalculateScore, add_sats.
  cbn [mbind option_bind ActiveNtk ActiveSatoshis]. destruct (ratio =? 0); [done|].
  cbn [mbind option_bind TotalScore]. rewrite (proj2 (Z.eqb_neq _ 0)) by lia. apply Hblock.
Qed.
End state.
End CostakingState.
