(* ===== verification/CostakingGenesis.v ===== *)
(** Export and import of x/costaking: [keeper/genesis.go], [types/genesis.go].

    [ExportGenesis] validates what it writes, and [InitGenesis] relies on the validation
    of what it reads.  Every reachable state can be exported, the export is a valid
    genesis state, and importing it into an empty module restores all stores; the
    cache in memory starts empty. *)
From stdpp Require Import base numbers list sorting gmap strings.
From S2P Require Import Prelude KVStore Bytes BtcStaking Finality FinalityPower SdkCoins ZSum GenesisEntries Incentive IncentiveSpec IncentiveState Costaking CostakingSpec CostakingState.

Module CostakingGenesis.
Import BtcStaking GenesisEntries Costaking CostakingSpec CostakingState.

(** The state that the import of an export of [c] leads to. *)
Definition reimported (c : CoState) : CoState :=
  mkCo (co_params c) (currentRewards c) (historicalRewards c) (costakerRewardsTracker c)
    (if bool_decide (default [] (validatorSet c) = []) then None else validatorSet c) NewStakingCache.

Section genesis.
Context {SC : SdkCoins} {SCL : SdkCoinsLaws} {BK : BankKeeper} {B32 : Bech32}.
Context (AddrString : list N → string).
Implicit Types (c : CoState) (s : Incentive.IncState) (b : Bank) (a : list N) (p : N).

(** ** Entries *)

Definition hist_entries c : list (N * option HistoricalRewards) :=
  (λ e, (e.1, Some e.2)) <$> kv_asc (historicalRewards c).
Definition trk_entries c : list (string * option CostakerRewardsTracker) :=
  (λ e, (AddrString e.1, Some e.2)) <$> costakers c.

Lemma elem_of_costakers c a t : (a, t) ∈ costakers c ↔ costakerRewardsTracker c !! a = Some t.
Proof. unfold costakers. rewrite merge_sort_Permutation. apply elem_of_map_to_list. Qed.

(** The addresses of the costakers can be written and read. *)
Definition addresses_ok c : Prop := ∀ a t, costakerRewardsTracker c !! a = Some t →
  AddrString a ≠ ""%string ∧ AccAddressFromBech32 (AddrString a) = Some a.

Lemma hist_entries_valid c e : pool_ok c → e ∈ hist_entries c → HistoricalRewardsEntry_Validate e = Ok ().
Proof.
  intros Hok ([p h] & -> & Hh%elem_of_kv_asc)%list_elem_of_fmap. apply (pk_hist _ Hok) in Hh.
  unfold HistoricalRewardsEntry_Validate, HistoricalRewards_Validate. cbn.
  by rewrite (proj2 (IsValid_spec _) Hh), (nonneg_not_negative _ (coins_pos_nonneg _ Hh)).
Qed.

Lemma trk_entries_valid c e : pool_ok c → addresses_ok c → e ∈ trk_entries c →
  CostakerRewardsTrackerEntry_Validate e = Ok ().
Proof.
  intros Hok Ha ([a t] & -> & Ht%elem_of_costakers)%list_elem_of_fmap.
  destruct (Ha a t Ht) as [Hne Hb]. apply (pk_tracker _ Hok) in Ht as (H1 & H2 & H3 & _).
  unfold CostakerRewardsTrackerEntry_Validate, validateAddrStr, Tracker_Validate. cbn.
  rewrite bool_decide_eq_false_2 by done. cbn. rewrite Hb. cbn.
  by rewrite !(proj2 (Z.ltb_ge _ 0)) by done.
Qed.

Lemma hist_entries_keys c : NoDup (fst <$> hist_entries c).
Proof.
  unfold hist_entries. rewrite <-list_fmap_compose. apply NoDup_kv_asc_keys.
Qed.

Lemma trk_entries_keys c : addresses_ok c → NoDup (fst <$> trk_entries c).
Proof.
  intros Ha. unfold trk_entries. rewrite <-list_fmap_compose. cbn.
  apply NoDup_fmap_2_strong.
  - intros [a t] [a' t'] Ht%elem_of_costakers Ht'%elem_of_costakers Heq. cbn in Heq.
    destruct (Ha a t Ht) as [_ H1], (Ha a' t' Ht') as [_ H2]. rewrite Heq in H1.
    assert (a = a') as -> by congruence. congruence.
  - unfold costakers. rewrite merge_sort_Permutation. apply NoDup_map_to_list.
Qed.

(** ** Import *)

Lemma import_trackers c s b c0 : addresses_ok c →
  iter_m import_tracker (trk_entries c) (s, b, c0) =
  Ok ((), (s, b, with_trackers c0
    (foldl (λ m e, <[e.1 := e.2]> m) (costakerRewardsTracker c0) (costakers c)))).
Proof.
  intros Ha. unfold trk_entries.
  assert (∀ l c0, (∀ a t, (a, t) ∈ l → costakerRewardsTracker c !! a = Some t) →
    iter_m import_tracker ((λ e, (AddrString e.1, Some e.2)) <$> l) (s, b, c0) =
    Ok ((), (s, b, with_trackers c0 (foldl (λ m e, <[e.1 := e.2]> m) (costakerRewardsTracker c0) l)))) as Hl.
  { intros l. induction l as [|[a t] l IH]; intros c1 Hin; [by destruct c1|]. cbn [fmap list_fmap iter_m foldl fst snd].
    destruct (Ha a t (Hin a t ltac:(by left))) as [_ Hb]. rewrite run_bind. unfold import_tracker at 1.
    rewrite run_of_opt_bind. cbn [fst snd]. rewrite Hb, run_or_panic_bind.
    etrans; [apply IH|done]. intros a' t' Hin'. apply Hin. by right. }
  apply Hl. intros a t. by rewrite elem_of_costakers.
Qed.

Lemma import_historicals c s b c0 :
  iter_m import_historical (hist_entries c) (s, b, c0) =
  Ok ((), (s, b, with_historical c0
    (foldl (λ m e, <[e.1 := e.2]> m) (historicalRewards c0) (kv_asc (historicalRewards c))))).
Proof.
  unfold hist_entries. generalize (kv_asc (historicalRewards c)). intros l. revert c0.
  induction l as [|[p h] l IH]; intros c0; [by destruct c0|]. cbn [fmap list_fmap iter_m foldl fst snd].
  rewrite run_bind. unfold import_historical at 1. cbn [snd fst]. rewrite run_or_panic_bind.
  etrans; [apply IH|done].
Qed.

(** ** Validity *)

Lemma co_params_valid prm ratio : portions_ok prm → ScoreRatioBtcByNtk prm = Some ratio → (1 ≤ ratio)%Z →
  Params_Validate prm = Ok ().
Proof.
  intros (x & y & Hx & Hy & Hx0 & Hy0 & Hxy) Hr H1. unfold Params_Validate, validatePercentage.
  rewrite Hx, Hy, Hr. cbn [of_option mbind res_bind option_bind].
  rewrite !(proj2 (Z.leb_gt LegacyOneDec _)) by lia. rewrite !(proj2 (Z.ltb_ge _ 0)) by lia. cbn.
  by rewrite (proj2 (Z.ltb_ge _ 1)).
Qed.

Lemma current_valid c cr : pool_ok c → currentRewards c = Some cr → CurrentRewards_Validate cr = Ok ().
Proof.
  intros Hok (Hp & _ & Ht)%(pk_current _ Hok). unfold CurrentRewards_Validate.
  rewrite (proj2 (IsValid_spec _) Hp), (nonneg_not_negative _ (coins_pos_nonneg _ Hp)).
  by rewrite (proj2 (Z.ltb_ge _ 0)).
Qed.

Definition exported c (prm : Params) : GenesisState :=
  mkGenesisState prm (currentRewards c) (hist_entries c) (trk_entries c) (default [] (validatorSet c)).

Lemma co_export_Ok s b c prm : pool_ok c → addresses_ok c → co_params c = Some prm →
  ExportGenesis AddrString (s, b, c) = Ok (exported c prm, (s, b, c)).
Proof.
  intros Hok Ha Hp. unfold ExportGenesis, getHistoricalRewardsEntries, getCostakerRewardsTrackerEntries.
  rewrite run_get_bind. cbn [snd]. rewrite run_lift_bind.
  rewrite validate_all_Ok by (intros e; by apply hist_entries_valid).
  rewrite run_lift_bind, validate_all_Ok by (intros e; by apply trk_entries_valid).
  unfold GetParams. rewrite run_bind, run_get_bind. cbn [snd]. by rewrite Hp.
Qed.

Lemma exported_valid c prm ratio : pool_ok c → addresses_ok c → portions_ok prm →
  ScoreRatioBtcByNtk prm = Some ratio → (1 ≤ ratio)%Z → GenesisState_Validate (exported c prm) = Ok ().
Proof.
  intros Hok Ha Hp Hr H1. unfold GenesisState_Validate, exported, CurrentRewardsEntry_Validate.
  cbn [gs_CurrentRewards gs_HistoricalRewards gs_CostakersRewardsTracker gs_Params].
  assert (match currentRewards c with None => mret () | Some cr => CurrentRewards_Validate cr end =
    Ok (E := CoErr) ()) as ->.
  { destruct (currentRewards c) as [cr|] eqn:Hcr; [|done]. by eapply current_valid. }
  cbn [mbind res_bind]. rewrite (proj2 (ValidateEntries_Ok _ _ _ (hist_entries c))).
  2: { split; [apply hist_entries_keys|]. apply Forall_forall. intros e. by apply hist_entries_valid. }
  cbn [mbind res_bind]. rewrite (proj2 (ValidateEntries_Ok _ _ _ (trk_entries c))).
  2: { split; [by apply trk_entries_keys|]. apply Forall_forall. intros e. by apply trk_entries_valid. }
  cbn [mbind res_bind]. by eapply co_params_valid.
Qed.

Lemma import_exported s b c prm ratio : addresses_ok c → co_params c = Some prm → portions_ok prm →
  ScoreRatioBtcByNtk prm = Some ratio → (1 ≤ ratio)%Z →
  InitGenesis (exported c prm) (s, b, co_empty) = Ok ((), (s, b, reimported c)).
Proof.
  intros Ha Hp Hpo Hr H1. unfold InitGenesis, exported.
  cbn [gs_CurrentRewards gs_HistoricalRewards gs_CostakersRewardsTracker gs_Params gs_ValidatorSet].
  rewrite run_bind, import_trackers by done. rewrite run_bind, import_historicals.
  cbn [with_trackers with_historical co_empty costakerRewardsTracker historicalRewards].
  rewrite (refill (costakers c) (costakerRewardsTracker c)) by apply elem_of_costakers.
  rewrite (refill (kv_asc (historicalRewards c)) (historicalRewards c)) by apply elem_of_kv_asc.
  unfold reimported, SetParams. rewrite run_bind.
  assert (∀ cr c', match cr with None => mret () | Some cr => SetCurrentRewards cr end (s, b, c') =
    Ok ((), (s, b, with_current c' (match cr with None => currentRewards c' | Some cr => Some cr end)))) as Hc.
  { intros [cr|] c'; [done|]. by destruct c'. }
  rewrite Hc. clear Hc. rewrite run_bind, Hp.
  destruct (bool_decide (default [] (validatorSet c) = [])) eqn:Hv.
  - cbn [mret M_ret]. unfold M_ret. rewrite run_lift_bind, (co_params_valid prm ratio) by done. cbn.
    by destruct (currentRewards c).
  - rewrite run_get_bind. cbn [put_state fst snd].
    rewrite run_lift_bind, (co_params_valid prm ratio) by done. cbn.
    apply bool_decide_eq_false in Hv. destruct (validatorSet c); [|done]. by destruct (currentRewards c).
Qed.
End genesis.

Section reachable.
Context {SC : SdkCoins} {SCL : SdkCoinsLaws} {BK : BankKeeper} {BL : BankLaws} {B32 : Bech32}.
Context {SK : StakingKeeper} {DK : DistributionKeeper}.
Context (AddrString : list N → string) (feeCollectorName : string).
Context (co_addr inc_addr fee_addr distr_addr : list N).
Context (Hco : GetModuleAccount ModuleName = Some co_addr).
Context (Hinc : GetModuleAccount Incentive.ModuleName = Some inc_addr).
Context (Hfee : GetModuleAccount feeCollectorName = Some fee_addr).
Context (Hdistr : GetModuleAccount distrModuleName = Some distr_addr).
Context (Hdistinct : feeCollectorName ≠ Incentive.ModuleName ∧ feeCollectorName ≠ ModuleName).
Context (authority : string) (tmhash_Sum : bytes → bytes).

Abbreviation reach := (rewards_reach AddrString feeCollectorName co_addr inc_addr fee_addr Hco Hinc Hfee
  Hdistinct authority tmhash_Sum).

(** C20: Every state that the two reward modules reach can be exported by x/costaking,
    provided that the addresses of the costakers can be written and read back: the
    export succeeds, it is a valid genesis state, and importing it restores every store
    of the module.  The one exception: a stored validator set without validators is read
    back as absent ([reimported]). *)
Theorem costaking_genesis_roundtrip n s b c : reach n (s, b, c) → (n < 2 ^ 64)%N → addresses_ok AddrString c →
  ∃ gs, ExportGenesis AddrString (s, b, c) = Ok (gs, (s, b, c)) ∧ GenesisState_Validate gs = Ok () ∧
    ∀ s0 b0, InitGenesis gs (s0, b0, co_empty) = Ok ((), (s0, b0, reimported c)).
Proof.
  intros Hr Hn Ha. eapply rewards_reach_inv in Hr as [_ [Hok _ _ (prm & ratio & Hp & Hpo & Hra & H1 & _) _]]; [|done..].
  exists (exported AddrString c prm). split; [by apply co_export_Ok|]. split; [by eapply exported_valid|].
  intros s0 b0. by eapply import_exported.
Qed.
End reachable.
End CostakingGenesis.
