(* ===== verification/CostakingRun.v ===== *)
(** A run of the two reward modules: two delegators stake tokens and bitcoin, fees come
    in, and one of them withdraws.  It shows that the hypotheses of the theorems
    can be met, and that a costaker whose share of one denomination is rounded to zero
    cannot be paid. *)
From stdpp Require Import base numbers list sorting gmap strings.
From S2P Require Import Prelude KVStore Bytes BtcStaking Finality FinalityPower SdkCoins ZSum Incentive IncentiveSpec IncentiveState IncentiveRun Costaking CostakingSpec CostakingScore CostakingState CostakingGenesis.

Module CostakingRun.
Import BtcStaking IncentiveRun Costaking CostakingSpec CostakingState CostakingGenesis.
Import ToyCoins.

(** ** The modules of the SDK *)

(** One validator, whose shares are tokens; A has 4000 tokens and B 6000. *)
Definition valV : list N := [86%N].
Definition validatorV : Validator := mkValidator "V" 10000 (10000 * 10 ^ 18)%Z 0%Z.

#[export] Instance toy_staking : StakingKeeper := {|
  Stk := unit;
  GetDelegation _ a v :=
    if bool_decide (a = delA) then Some (mkDelegation "A" (4000 * 10 ^ 18)%Z)
    else Some (mkDelegation "B" (6000 * 10 ^ 18)%Z);
  GetValidatorDelegations _ v :=
    Some [mkDelegation "A" (4000 * 10 ^ 18)%Z; mkDelegation "B" (6000 * 10 ^ 18)%Z];
  IterateLastValidatorPowers _ := Some [(valV, 10000%Z)];
  ValidatorByConsAddr _ _ := Some (VStruct validatorV);
  GetValidator _ _ := Some validatorV;
  val_TokensFromShares v x :=
    if (DelegatorShares v =? 0)%Z then None else Some (x * Tokens v * 10 ^ 18 / DelegatorShares v)%Z;
  TruncateInt x := Z.quot x (10 ^ 18);
  DecMulInt x n := Some (x * n)%Z;
  ValAddressFromBech32 := toy_bech32;
  ValString := addr_string;
|}.

#[export] Instance toy_distribution : DistributionKeeper := {|
  Distr := unit; AllocateTokensToValidator _ _ _ := Some tt |}.

Lemma toy_co : GetModuleAccount ModuleName = Some [3%N].
Proof. reflexivity. Qed.
Lemma toy_distr : GetModuleAccount distrModuleName = Some [4%N].
Proof. reflexivity. Qed.
Lemma toy_names : "fee_collector"%string ≠ Incentive.ModuleName ∧ "fee_collector"%string ≠ ModuleName.
Proof. split; discriminate. Qed.

Abbreviation toy_co_op := (co_op addr_string "fee_collector" "gov").
Abbreviation toy_rewards := (rewards_reach (SCL := coins_laws) (BL := bank_laws) addr_string "fee_collector"
  [3%N] [1%N] [2%N] toy_co toy_module toy_fee toy_names "gov" sum_hash).

(** ** The run *)

Definition co_prm : Params := mkParams (Some (5 * 10 ^ 17)%Z) (Some 200%Z) (Some (10 ^ 17)%Z).
Abbreviation TW := (Incentive.World (BK := bank) (HookEnv := CoState)).

Definition w0 (b : @Bank bank) : TW := (s0, b, with_params co_empty (Some co_prm)).

(** Tokens are staked at genesis, bitcoin afterwards. *)
Definition ops : list (M unit) := [
  AfterDelegationModified tt 0 delA valV;
  AfterDelegationModified tt 0 delB valV;
  AfterBtcDelegationActivated fpA delA true true 100;
  AfterBtcDelegationActivated fpA delB true true 20;
  BeginBlocker (SK := toy_staking) tt "fee_collector" 1 tt [] ≫= λ _, mret () ].

Fixpoint run (w : TW) (l : list (M unit)) : option TW :=
  match l with
  | [] => Some w
  | m :: l => match m w with Ok (_, w) => run w l | _ => None end
  end.

Definition w5 (b : @Bank bank) : TW := default (w0 b) (run (w0 b) ops).

Lemma costs (w : TW) m : m ∈ ops → ∃ k, (k ≤ 2)%N ∧ toy_co_op w k m.
Proof.
  unfold ops. rewrite !elem_of_cons. intros [->|[->|[->|[->|[->|[]%elem_of_nil]]]]].
  - exists 2%N. split; [done|]. apply op_delegation.
  - exists 2%N. split; [done|]. apply op_delegation.
  - exists 2%N. split; [done|]. apply op_activated.
  - exists 2%N. split; [done|]. apply op_activated.
  - exists 1%N. split; [done|]. apply op_begin.
Qed.

Lemma run_reach l : (∀ m, m ∈ l → m ∈ ops) → ∀ n w w', toy_rewards n w → run w l = Some w' →
  ∃ m, (m ≤ n + N.of_nat (length l) * 2)%N ∧ toy_rewards m w'.
Proof.
  induction l as [|x l IH]; intros Hl n w w' Hw; cbn [run length].
  - intros [= <-]. exists n. split; [lia|done].
  - destruct (x w) as [[[] w1]| |] eqn:Hx; [|done..]. intros Hrun.
    destruct (costs w x) as (k & Hk & Hop); [apply Hl; by left|].
    destruct (IH ltac:(intros m Hm; apply Hl; by right) (n + k)%N w1 w') as (m & Hm & Hr); [|done|].
    + by eapply rr_costaking.
    + exists m. split; [lia|done].
Qed.

Lemma reach_w0 b : toy_rewards 0 (w0 b).
Proof.
  apply (rr_init _ _ _ _ _ _ _ _ _ _ _ IncentiveRun.params co_prm 200); [apply toy_params_ok| |done..].
  exists (5 * 10 ^ 17)%Z, (10 ^ 17)%Z. repeat split; vm_compute; (reflexivity || discriminate).
Qed.

Lemma co_reach_w5 b : bool_decide (is_Some (run (w0 b) ops)) = true →
  ∃ n, (n ≤ 10)%N ∧ toy_rewards n (w5 b).
Proof.
  intros [w Hw]%bool_decide_eq_true. destruct (run_reach ops (λ _ H, H) 0 (w0 b) w (reach_w0 b) Hw) as (n & Hn & Hr).
  exists n. split; [exact Hn|]. unfold w5. by rewrite Hw.
Qed.

(** ** Witnesses *)

Lemma w5_pair b : w5 b = ((w5 b).1.1, (w5 b).1.2, (w5 b).2).
Proof. by destruct (w5 b) as [[s b'] c]. Qed.

Definition cur5 (b : @Bank bank) : CurrentRewards := default (mkCurrentRewards [] 0 0) (currentRewards (w5 b).2).
Definition trk5 (b : @Bank bank) : CostakerRewardsTracker :=
  default (mkCostakerRewardsTracker 0 0 0 0) (costakerRewardsTracker (w5 b).2 !! delB).

(** Of the 1000 coins of the fees 500 are owed to the costakers. *)
Lemma costaking_solvent_witness :
  ∃ n, toy_rewards n ((w5 bank0).1.1, (w5 bank0).1.2, (w5 bank0).2) ∧ (n < 2 ^ 64)%N ∧
  (pending (w5 bank0).2 "uanc" + claims (w5 bank0).2 "uanc" (costakerRewardsTracker (w5 bank0).2) ≤
   balance (BK := bank) (w5 bank0).1.2 [3%N] "uanc" * Incentive.DecimalRewards)%Z.
Proof.
  destruct (co_reach_w5 bank0 ltac:(vm_compute; reflexivity)) as (n & Hn & Hr). rewrite w5_pair in Hr.
  assert (n < 2 ^ 64)%N as Hn' by (eapply N.le_lt_trans; [exact Hn|reflexivity]).
  exists n. split; [exact Hr|]. split; [exact Hn'|].
  exact (proj1 (costaking_solvent (SCL := coins_laws) (BL := bank_laws) addr_string "fee_collector"
    [3%N] [1%N] [2%N] [4%N] toy_co toy_module toy_fee toy_distr toy_names "gov" sum_hash n _ _ _ "uanc" Hr Hn')).
Defined.

(** The scores of the two costakers are 20 each, one bounded by his tokens, the other
    by his satoshis. *)
Lemma total_score_is_sum_witness :
  currentRewards (w5 bank0).2 = Some (cur5 bank0) ∧ cr_TotalScore (cur5 bank0) = 40%Z ∧
  cr_TotalScore (cur5 bank0) =
    zsum (λ _ t, Z.min (ActiveSatoshis t) (ActiveNtk t / 200)) (costakerRewardsTracker (w5 bank0).2).
Proof.
  destruct (co_reach_w5 bank0 ltac:(vm_compute; reflexivity)) as (n & Hn & Hr). rewrite w5_pair in Hr.
  assert (n < 2 ^ 64)%N as Hn' by (eapply N.le_lt_trans; [exact Hn|reflexivity]).
  assert (currentRewards (w5 bank0).2 = Some (cur5 bank0)) as Hc by (vm_compute; reflexivity).
  split; [exact Hc|]. split; [vm_compute; reflexivity|].
  exact (proj2 (total_score_is_sum (SCL := coins_laws) (BL := bank_laws) addr_string "fee_collector"
    [3%N] [1%N] [2%N] [4%N] toy_co toy_module toy_fee toy_distr toy_names "gov" sum_hash n _ _ _
    (cur5 bank0) co_prm 200 Hr Hn' Hc ltac:(vm_compute; reflexivity) ltac:(reflexivity))).
Defined.

(** The addresses of the two costakers are letters. *)
Definition addr_ok (a : list N) (t : CostakerRewardsTracker) : Prop :=
  addr_string a ≠ ""%string ∧ AccAddressFromBech32 (addr_string a) = Some a.
#[local] Instance addr_ok_dec a t : Decision (addr_ok a t).
Proof. unfold addr_ok. apply _. Defined.

(** The state with two costakers is exported and imported. *)
Lemma costaking_genesis_roundtrip_witness :
  addresses_ok addr_string (w5 bank0).2 ∧
  ∃ gs, GenesisState_Validate gs = Ok () ∧
    InitGenesis gs ((w5 bank0).1.1, (w5 bank0).1.2, co_empty) =
      Ok ((), ((w5 bank0).1.1, (w5 bank0).1.2, reimported (w5 bank0).2)).
Proof.
  destruct (co_reach_w5 bank0 ltac:(vm_compute; reflexivity)) as (n & Hn & Hr). rewrite w5_pair in Hr.
  assert (n < 2 ^ 64)%N as Hn' by (eapply N.le_lt_trans; [exact Hn|reflexivity]).
  assert (bool_decide (map_Forall addr_ok (costakerRewardsTracker (w5 bank0).2)) = true) as Ha
    by (vm_compute; reflexivity).
  apply bool_decide_eq_true in Ha. split; [exact Ha|].
  destruct (costaking_genesis_roundtrip (SCL := coins_laws) (BL := bank_laws) addr_string "fee_collector"
    [3%N] [1%N] [2%N] [4%N] toy_co toy_module toy_fee toy_distr toy_names "gov" sum_hash n _ _ _ Hr Hn' Ha)
    as (gs & _ & Hv & Hi).
  exists gs. split; [exact Hv|apply Hi].
Defined.

(** With 3 coins of one denomination and 1000 of another among the fees, a costaker
    with half of the score is due 250 coins of the second and 0 of the first. *)
Definition ended5 : N * TW := get (0%N, w5 bank1) (IncrementRewardsPeriod (w5 bank1)).

Lemma zero_share_blocks_witness :
  CalculateCostakerRewards delB ended5.1 ended5.2 = Ok ([mkCoin "uaaa" 0; mkCoin "uanc" 250], ended5.2) ∧
  (∀ u w, costakerWithdrawRewards delB ((w5 bank1).1.1, (w5 bank1).1.2, (w5 bank1).2) ≠ Ok (u, w)).
Proof.
  assert (CalculateCostakerRewards delB ended5.1 ended5.2 =
    Ok ([mkCoin "uaaa" 0; mkCoin "uanc" 250], ended5.2)) as Hc by (vm_compute; reflexivity).
  assert (is_ok (IncrementRewardsPeriod ((w5 bank1).1.1, (w5 bank1).1.2, (w5 bank1).2)) = true) as Hi
    by (vm_compute; reflexivity).
  apply (get_is_ok (0%N, w5 bank1)) in Hi. rewrite <-w5_pair in Hi.
  fold ended5 in Hi. rewrite (surjective_pairing ended5), w5_pair in Hi.
  split; [exact Hc|].
  refine (proj1 (zero_share_blocks (BL := bank_laws) [3%N] [1%N] toy_co toy_module
    _ _ _ delB (trk5 bank1) co_prm 200 fpA true 5 _ _ _ (mkCoin "uaaa" 0) Hi Hc _ _ _ _ _ _ _ _)).
  all: try (vm_compute; reflexivity).
  - by left.
  - vm_compute; discriminate.
  - vm_compute; discriminate.
Defined.
End CostakingRun.
