(* ===== verification/MintSpec.v ===== *)
(** What x/mint mints.

    [rate_constant]: the rate of inflation of every year is the initial one.  The
    theorems: the provisions are those of the first block for good, and the fee collector
    receives them in proportion to the time, up to rounding.  A run with concrete numbers
    follows. *)
From stdpp Require Import base numbers list gmap strings.
From S2P Require Import Prelude BtcStaking SdkCoins Incentive Mint.

Module MintSpec.
Import BtcStaking Mint.
Local Open Scope Z_scope.

(** Blocks one after the other. *)
Fixpoint run_blocks {SC : SdkCoins} {BK : BankKeeper} {MB : MintBank} {DL : LegacyDecLib}
    (feeCollectorName : string) (w : MintState * Bank) (blocks : list (Z * option Z))
  : option (MintState * Bank) :=
  match blocks with
  | [] => Some w
  | block :: blocks => w ← BeginBlocker feeCollectorName w block; run_blocks feeCollectorName w blocks
  end.

Definition last_time (t : Z) (blocks : list (Z * option Z)) : Z := from_option fst t (last blocks).

Abbreviation D := LegacyOneDec.
Abbreviation NY := NanosecondsPerYear.

Section spec.
Context {SC : SdkCoins} {SCL : SdkCoinsLaws} {BK : BankKeeper} {BL : BankLaws}.
Context {MB : MintBank} {MBL : MintBankLaws} {DL : LegacyDecLib} {DLL : LegacyDecLaws}.
Context (feeCollectorName : string) (mint_addr fee_addr : list N).
Context (Hmint : GetModuleAccount ModuleName = Some mint_addr).
Context (Hfee : GetModuleAccount feeCollectorName = Some fee_addr).
Implicit Types (s : MintState) (b : Bank) (m : Minter) (t : Z).

Lemma one_dec : D = 1000000000000000000.
Proof. reflexivity. Qed.
Lemma year_ns : NY = 31556952000000000.
Proof. reflexivity. Qed.

Lemma rate_constant t g r : CalculateInflationRate t g = Some r → r = InitialInflationRateAsDec.
Proof.
  unfold CalculateInflationRate. cbv zeta.
  change (D - DisinflationRateAsDec) with D. rewrite dec_Power_one. cbn [mbind option_bind].
  destruct (dec_Mul _ D) as [x|] eqn:Hx; [|done]. cbn [mbind option_bind]. apply dec_Mul_near in Hx.
  assert (x = InitialInflationRateAsDec) as ->.
  { rewrite one_dec in Hx. change InitialInflationRateAsDec with 55000000000000000 in *. lia. }
  replace (InitialInflationRateAsDec <? TargetInflationRateAsDec) with false by reflexivity.
  intros Hr. by apply (inj Some) in Hr.
Qed.

(** The provisions of a supply are positive. *)
Lemma provisions_pos S : 0 < S → 0 < InitialInflationRateAsDec * S.
Proof. change InitialInflationRateAsDec with 55000000000000000. lia. Qed.

Lemma time_Sub_bounds t t' : t' ≤ t → 0 ≤ time_Sub t t' ≤ t - t'.
Proof. unfold time_Sub. lia. Qed.

(** The provision of a block is in proportion to the time, rounded twice. *)
Lemma provision_bounds m t t' coin : 0 ≤ AnnualProvisions m → CalculateBlockProvision m t t' = Some coin →
  coin_Denom coin = BondDenom m ∧ CoinValidate coin = true ∧ t' ≤ t ∧
  0 ≤ coin_Amount coin ≤ MaxMintedPerBlock ∧
  2 * D * D * NY * coin_Amount coin ≤ AnnualProvisions m * (2 * D * (t - t') + NY) + NY * D.
Proof.
  intros Hap. unfold CalculateBlockProvision. destruct (Z.ltb_spec t t') as [|Ht]; [done|]. cbv zeta.
  rewrite !newdec_int. pose proof (time_Sub_bounds t t' Ht) as Hte. set (te := time_Sub t t') in *.
  destruct (dec_Quo (te * D) (NY * D)) as [p|] eqn:Hp; [|done]. cbn [mbind option_bind].
  apply dec_Quo_near in Hp as [Hp0 Hp]; [|rewrite one_dec; lia|by vm_compute].
  destruct (dec_Mul (AnnualProvisions m) p) as [bp|] eqn:Hbp; [|done]. cbn [mbind option_bind].
  apply dec_Mul_near in Hbp. unfold NewCoin. cbv zeta.
  destruct (CoinValidate _) eqn:Hv; [|done]. intros [= <-]. cbn [coin_Denom coin_Amount].
  pose proof (coin_validate_spec _ Hv) as H0. cbn [coin_Amount] in H0.
  do 3 (split; [done|]). split; [split; [done|]; lia|].
  assert (0 ≤ bp) as Hbp0 by (rewrite one_dec in Hbp; nia).
  rewrite dec_TruncateInt_spec in * by done. set (x := Z.min (bp / D) MaxMintedPerBlock) in *.
  assert (x * D ≤ bp) as Hx.
  { pose proof (Z.mul_div_le bp D ltac:(by rewrite one_dec)). assert (x ≤ bp / D) by lia. rewrite one_dec in *. lia. }
  assert (2 * (p * NY) ≤ 2 * (te * D) + NY) as Hp' by (rewrite one_dec, year_ns in *; lia).
  assert (0 < NY ∧ 0 < D) as [HNY HD] by (split; reflexivity).
  assert (2 * D * (x * D) * NY ≤ (2 * (AnnualProvisions m * p) + D) * NY) as H1.
  { apply Z.mul_le_mono_nonneg_r; [lia|]. nia. }
  assert (AnnualProvisions m * (2 * (p * NY)) ≤ AnnualProvisions m * (2 * D * (t - t') + NY)) as H2.
  { apply Z.mul_le_mono_nonneg_l; [done|]. nia. }
  lia.
Qed.

(** The balances after [n] coins [d0] have been minted for the fee collector. *)
Definition received b b' (d0 : string) (n : Z) : Prop :=
  ∀ a d, balance b' a d = balance b a d + (if decide (a = fee_addr ∧ d = d0) then n else 0).

Lemma received_trans b b1 b2 d0 n n' : received b b1 d0 n → received b1 b2 d0 n' → received b b2 d0 (n + n').
Proof. intros H1 H2 a d. rewrite H2, H1. case_decide; lia. Qed.

Lemma mint_block_spec s b b' m t : MinterStore s = Some m → 0 ≤ AnnualProvisions m →
  mintBlockProvision feeCollectorName s b t = Some b' →
  match PreviousBlockTime m with
  | None => b' = b
  | Some t' => ∃ n, received b b' (BondDenom m) n ∧ 0 ≤ n ≤ MaxMintedPerBlock ∧ t' ≤ t ∧
      2 * D * D * NY * n ≤ AnnualProvisions m * (2 * D * (t - t') + NY) + NY * D
  end.
Proof.
  intros Hm Hap. unfold mintBlockProvision, GetMinter. rewrite Hm. cbn [mbind option_bind].
  destruct (PreviousBlockTime m) as [t'|]; [|by intros [= ->]].
  destruct (CalculateBlockProvision m t t') as [coin|] eqn:Hc; [|done]. cbn [mbind option_bind].
  apply provision_bounds in Hc as (Hd & Hv & Ht & Hr & Hb); [|done].
  destruct (decide (coin_Amount coin = 0)) as [H0|H0].
  - rewrite newcoins_zero by done. cbn [mbind option_bind].
    unfold keeper_MintCoins. rewrite bool_decide_eq_true_2 by done. cbn [mbind option_bind].
    unfold SendCoinsToFeeCollector, ok. destruct (SendCoinsFromModuleToModule _ _ _ _) as [b1| |] eqn:Hs; [|done..].
    intros [= <-]. apply (m2m_spec _ _ _ mint_addr fee_addr) in Hs as [_ Hmv]; [|done..].
    exists 0. split; [|rewrite H0 in *; done]. intros a d. rewrite Hmv. cbn [amount_of foldr]. repeat case_decide; lia.
  - rewrite newcoins_spec.
    2: { split; [by apply coin_validate_denom|]. apply Forall_singleton. lia. }
    cbn [mbind option_bind]. unfold keeper_MintCoins, SendCoinsToFeeCollector, ok.
    rewrite bool_decide_eq_false_2 by done.
    destruct (MintCoins b ModuleName [coin]) as [b1| |] eqn:Hmc; [|done..]. cbn [mbind option_bind].
    destruct (SendCoinsFromModuleToModule _ _ _ _) as [b2| |] eqn:Hs; [|done..]. intros [= <-].
    apply (m2m_spec _ _ _ mint_addr fee_addr) in Hs as [_ Hmv]; [|done..].
    exists (coin_Amount coin). split; [|done]. intros a d. rewrite Hmv, (mint_spec _ _ _ _ _ Hmint Hmc).
    rewrite !amount_of_cons, !amount_of_nil, Hd. repeat case_decide; naive_solver lia.
Qed.

(** ** The steps *)

(** The minter from the first block with a supply on. *)
Definition minter_fixed (ap : Dec) (d0 : string) t s : Prop :=
  MinterStore s = Some (mkMinter InitialInflationRateAsDec ap (Some t) d0).

Lemma update_fixed ap d0 t s t1 sup s' : ap ≠ 0 → minter_fixed ap d0 t s →
  maybeUpdateMinter s t1 sup = Some s' → s' = s.
Proof.
  intros Hap Hf. unfold maybeUpdateMinter, GetMinter. rewrite Hf. cbn [mbind option_bind].
  destruct (mjoin (GetGenesisTime s)) as [g|]; [|done]. cbn [mbind option_bind].
  destruct (CalculateInflationRate t1 g) as [r|] eqn:Hr; [|done]. apply rate_constant in Hr as ->.
  cbn [mbind option_bind InflationRate AnnualProvisions]. cbv zeta.
  rewrite Z.eqb_refl, (proj2 (Z.eqb_neq ap 0)) by done. by intros [= <-].
Qed.

Lemma step_fixed ap d0 t s b t1 sup s' b' : 0 < ap → minter_fixed ap d0 t s →
  BeginBlocker feeCollectorName (s, b) (t1, sup) = Some (s', b') →
  minter_fixed ap d0 t1 s' ∧ ∃ n, received b b' d0 n ∧ 0 ≤ n ≤ MaxMintedPerBlock ∧ t ≤ t1 ∧
    2 * D * D * NY * n ≤ ap * (2 * D * (t1 - t) + NY) + NY * D.
Proof.
  intros Hap Hf. unfold BeginBlocker. destruct (maybeUpdateMinter s t1 sup) as [s1|] eqn:Hu; [|done].
  apply (update_fixed ap d0 t) in Hu as ->; [|lia|done]. cbn [mbind option_bind].
  destruct (mintBlockProvision feeCollectorName s b t1) as [b1|] eqn:Hb; [|done]. cbn [mbind option_bind].
  apply (mint_block_spec s b b1 _ t1 Hf) in Hb; [|cbn; lia]. cbn in Hb.
  unfold setPreviousBlockTime, GetMinter. rewrite Hf. cbn. intros [= <- <-]. by split.
Qed.

Lemma last_time_cons t x blocks : last_time t (x :: blocks) = last_time x.1 blocks.
Proof. unfold last_time. destruct blocks as [|y l]; [done|]. rewrite last_cons_cons. by destruct (last (y :: l)) eqn:Hl; [|apply last_None in Hl]. Qed.

Lemma run_fixed ap d0 blocks : 0 < ap → ∀ t s b s' b', minter_fixed ap d0 t s →
  run_blocks feeCollectorName (s, b) blocks = Some (s', b') →
  let n := Z.of_nat (length blocks) in
  minter_fixed ap d0 (last_time t blocks) s' ∧ ∃ x, received b b' d0 x ∧ 0 ≤ x ≤ n * MaxMintedPerBlock ∧
    2 * D * D * NY * x ≤ 2 * D * ap * (last_time t blocks - t) + n * NY * (ap + D).
Proof.
  intros Hap. induction blocks as [|[t1 sup] blocks IH]; intros t s b s' b' Hf; cbn [run_blocks length]; cbv zeta.
  - intros [= <- <-]. split; [done|]. exists 0. split; [intros a d; case_decide; lia|]. cbn. lia.
  - destruct (BeginBlocker feeCollectorName (s, b) (t1, sup)) as [[s1 b1]|] eqn:Hs; [|done].
    cbn [mbind option_bind]. intros Hr. apply (step_fixed ap d0 t) in Hs as (Hf1 & n1 & Hb1 & Hr1 & Ht & Hn1); [|done..].
    destruct (IH t1 s1 b1 s' b' Hf1 Hr) as (Hf2 & n2 & Hb2 & Hr2 & Hn2). rewrite last_time_cons. cbn [fst].
    split; [done|]. exists (n1 + n2). split; [by eapply received_trans|].
    rewrite Nat2Z.inj_succ. split; [lia|]. nia.
Qed.

(** The first block of a chain: no provisions yet, no time of a previous block. *)
Lemma first_block s b m t S s' b' : MinterStore s = Some m → AnnualProvisions m = 0 →
  PreviousBlockTime m = None → BeginBlocker feeCollectorName (s, b) (t, Some S) = Some (s', b') → 0 < S →
  minter_fixed (InitialInflationRateAsDec * S) (BondDenom m) t s' ∧ b' = b.
Proof.
  intros Hm Hap Hprev. unfold BeginBlocker, maybeUpdateMinter, GetMinter. rewrite Hm. cbn [mbind option_bind].
  destruct (mjoin (GetGenesisTime s)) as [g|]; [|done]. cbn [mbind option_bind].
  destruct (CalculateInflationRate t g) as [r|] eqn:Hr; [|done]. apply rate_constant in Hr as ->.
  cbn [mbind option_bind]. cbv zeta. rewrite Hap, andb_false_r. cbn [mbind option_bind].
  destruct (dec_MulInt _ S) as [ap|] eqn:Hmul; [|done]. apply dec_MulInt_spec in Hmul as ->.
  cbn [mbind option_bind]. intros Hb HS.
  destruct (mintBlockProvision _ _ _ _) as [b1|] eqn:Hb1; [|done]. cbn in Hb. injection Hb as <- <-.
  eapply mint_block_spec in Hb1; [|done|by apply Z.lt_le_incl, provisions_pos].
  cbn in Hb1. rewrite Hprev in Hb1. split; [done|exact Hb1].
Qed.

(** C37: The provisions are computed once.  After the first block with a supply [S], no later
    block changes the rate of inflation or the annual provisions, which stay at 5.5 % of
    [S] however many years pass and however the supply grows. *)
Theorem provisions_computed_once s b m t S s1 b1 blocks s2 b2 : MinterStore s = Some m →
  AnnualProvisions m = 0 → PreviousBlockTime m = None → 0 < S →
  BeginBlocker feeCollectorName (s, b) (t, Some S) = Some (s1, b1) →
  run_blocks feeCollectorName (s1, b1) blocks = Some (s2, b2) →
  q_InflationRate s2 = Some InitialInflationRateAsDec ∧
  q_AnnualProvisions s2 = Some (InitialInflationRateAsDec * S).
Proof.
  intros Hm Hap Hprev HS H1 H2. destruct (first_block s b m t S s1 b1 Hm Hap Hprev H1 HS) as [Hf ->].
  destruct (run_fixed _ _ blocks (provisions_pos S HS) _ _ _ _ _ Hf H2) as [Hf' _].
  unfold q_InflationRate, q_AnnualProvisions, GetMinter. by rewrite Hf'.
Qed.

(** C35: What is minted is bounded.  In the blocks after the first one the fee collector
    receives, in the staking denomination, at most 5.5 % of the supply at the first
    block per year that has passed, plus one rounding per block, and at most the
    cap of every block; nothing else changes on any account. *)
Theorem minted_in_proportion s b m t S s1 b1 blocks s2 b2 : MinterStore s = Some m →
  AnnualProvisions m = 0 → PreviousBlockTime m = None → 0 < S →
  BeginBlocker feeCollectorName (s, b) (t, Some S) = Some (s1, b1) →
  run_blocks feeCollectorName (s1, b1) blocks = Some (s2, b2) →
  let n := Z.of_nat (length blocks) in
  let provisions := InitialInflationRateAsDec * S in
  ∃ minted, (∀ a d, balance b2 a d =
      balance b a d + (if decide (a = fee_addr ∧ d = BondDenom m) then minted else 0)) ∧
    0 ≤ minted ≤ n * MaxMintedPerBlock ∧
    2 * LegacyOneDec * LegacyOneDec * NanosecondsPerYear * minted ≤
      2 * LegacyOneDec * provisions * (last_time t blocks - t) +
      n * NanosecondsPerYear * (provisions + LegacyOneDec).
Proof.
  intros Hm Hap Hprev HS H1 H2. destruct (first_block s b m t S s1 b1 Hm Hap Hprev H1 HS) as [Hf ->]. cbv zeta.
  exact (proj2 (run_fixed _ _ blocks (provisions_pos S HS) _ _ _ _ _ Hf H2)).
Qed.
End spec.

(** ** A run *)

Module Examples.
Import ToyCoins.

(** Decimals that are rounded to the nearest, and ties to the even one. *)
Definition chop (x : Z) : Z :=
  let q := x / D in
  let r := x mod D in
  if 2 * r <? D then q else if D <? 2 * r then q + 1 else if Z.even q then q else q + 1.

Lemma chop_near x : 2 * x - D ≤ 2 * (chop x * D) ≤ 2 * x + D.
Proof.
  pose proof (Z.div_mod x D ltac:(done)). pose proof (Z.mod_pos_bound x D ltac:(reflexivity)).
  unfold chop. cbv zeta. rewrite one_dec in *.
  repeat match goal with |- context [if ?c then _ else _] => destruct c eqn:? end; lia.
Qed.

#[export] Instance toy_dec : LegacyDecLib := {|
  dec_Mul a b := Some (chop (a * b));
  dec_Quo a b := if b =? 0 then None else Some (chop (a * D * D / b));
  dec_MulInt a n := Some (a * n);
  dec_Power a n := N.iter n (λ x, x ≫= λ x, Some (chop (x * a))) (Some D);
  dec_TruncateInt a := Z.quot a D;
|}.

#[export] Instance toy_dec_laws : LegacyDecLaws (DL := toy_dec).
Proof.
  split; cbn [dec_Mul dec_Quo dec_MulInt dec_Power dec_TruncateInt toy_dec].
  - intros a b c [= <-]. apply chop_near.
  - intros a b c Ha Hb. destruct (Z.eqb_spec b 0); [lia|]. intros [= <-].
    assert (0 ≤ a * D * D) by (rewrite one_dec; lia).
    pose proof (Z.div_pos (a * D * D) b ltac:(done) Hb). pose proof (Z.mul_div_le (a * D * D) b Hb).
    pose proof (chop_near (a * D * D / b)). set (q := a * D * D / b) in *. set (c := chop q) in *.
    split; [rewrite one_dec in *; lia|]. rewrite one_dec in *. nia.
  - by intros a n c [= <-].
  - intros n. induction n as [|n IH] using N.peano_ind; [done|]. rewrite N.iter_succ, IH. reflexivity.
  - intros a Ha. by rewrite Z.quot_div_nonneg.
Qed.

#[export] Instance toy_mint : MintBank (BK := bank) := λ b m amt,
  match accounts m with
  | Some x => if IsValid (SdkCoins := coins) amt then Ok (<[x := canon (balances b x ++ amt)]> b)
              else Err ErrInvalidCoins
  | None => Panic
  end.

#[export] Instance toy_mint_laws : MintBankLaws (SC := coins) (BK := bank) (MB := toy_mint).
Proof.
  intros b m x amt b' Hx. unfold MintCoins, toy_mint. cbn [GetModuleAccount bank] in Hx. rewrite Hx.
  destruct (IsValid amt) eqn:Hv; [|done]. apply (IsValid_spec (SC := coins)) in Hv. intros [= <-] a d.
  unfold balance. cbn [GetAllBalances bank]. rewrite balances_insert by (by apply received_pos).
  rewrite canon_amount, amount_of_app. case_decide; subst; lia.
Qed.

(** Ten billion tokens; blocks after 15 seconds and after one year. *)
Definition supply : Z := 10 ^ 16.
Definition s0 : MintState := mkMint (Some DefaultMinter) (Some (Some 0)).
Definition b0 : Bank (BankKeeper := bank) := (∅ : gmap (list N) Coins).
Definition blocks : list (Z * option Z) :=
  [(15 * NanosecondsPerSecond, Some supply); (NanosecondsPerYear + 1, Some (2 * supply))].

Definition get (o : option (MintState * Bank (BankKeeper := bank))) := default (s0, b0) o.
Definition w1 := get (BeginBlocker "fee_collector" (s0, b0) (0, Some supply)).
Definition w2 := get (run_blocks "fee_collector" w1 blocks).

Lemma w1_eq : BeginBlocker "fee_collector" (s0, b0) (0, Some supply) = Some (w1.1, w1.2).
Proof. vm_compute. reflexivity. Qed.
Lemma w2_eq : run_blocks "fee_collector" (w1.1, w1.2) blocks = Some (w2.1, w2.2).
Proof. vm_compute. reflexivity. Qed.

(** The supply has doubled after a year, the provisions have not. *)
Lemma provisions_computed_once_witness :
  q_AnnualProvisions w2.1 = Some (InitialInflationRateAsDec * supply).
Proof.
  exact (proj2 (provisions_computed_once (SCL := coins_laws) (BL := bank_laws) (MBL := toy_mint_laws)
    (DLL := toy_dec_laws) "fee_collector" [5%N] [2%N] ltac:(reflexivity) ltac:(reflexivity)
    s0 b0 DefaultMinter 0 supply w1.1 w1.2 blocks w2.1 w2.2 ltac:(reflexivity) ltac:(reflexivity)
    ltac:(reflexivity) ltac:(reflexivity) w1_eq w2_eq)).
Defined.

Lemma minted_in_proportion_witness :
  balance (BK := bank) w2.2 [2%N] "uanc" = 861432092 ∧
  ∃ minted, (∀ a d, balance (BK := bank) w2.2 a d =
      balance (BK := bank) b0 a d + (if decide (a = [2%N] ∧ d = "uanc"%string) then minted else 0)) ∧
    0 ≤ minted ≤ 2 * MaxMintedPerBlock.
Proof.
  split; [vm_compute; reflexivity|].
  destruct (minted_in_proportion (SCL := coins_laws) (BL := bank_laws) (MBL := toy_mint_laws)
    (DLL := toy_dec_laws) "fee_collector" [5%N] [2%N] ltac:(reflexivity) ltac:(reflexivity)
    s0 b0 DefaultMinter 0 supply w1.1 w1.2 blocks w2.1 w2.2 ltac:(reflexivity) ltac:(reflexivity)
    ltac:(reflexivity) ltac:(reflexivity) w1_eq w2_eq) as (minted & H1 & H2 & _).
  exists minted. split; [exact H1|exact H2].
Defined.
End Examples.
End MintSpec.
