(* ===== verification/EotsStore.v ===== *)
(** The database of the signing daemon of a finality provider.
    [src/finality-provider/eotsmanager/store] and the checks of
    [src/finality-provider/util].

    The daemon remembers what it signed: a record per chain, key and height with
    the message and the signature.  A record is written before its signature is
    given out and is never overwritten, which is what keeps a finality provider
    from voting twice for a height.  The database is bbolt behind [kvdb]: two
    buckets with byte keys, and transactions that take effect as a whole or not at
    all.  The record is stored as a protobuf message, here as its value. *)
From Stdlib Require Import Strings.Byte.
From stdpp Require Import base numbers list gmap strings.
From S2P Require Import Prelude Bytes Secp256k1.

Module EotsStore.

Inductive StoreErr :=
  | ErrCorruptedEOTSDb | ErrDuplicateEOTSKeyName | ErrEOTSKeyNameNotFound | ErrSignRecordNotFound
  | ErrDuplicateSignRecord | ErrDuplicateEOTSKeyRecord | ErrEmptyKeyName | ErrNilArgument
  | ErrKeyTooShort | ErrCommit.

#[global] Instance StoreErr_eq_dec : EqDecision StoreErr.
Proof. solve_decision. Defined.

(** ** Data *)

Record SigningRecord := mkSigningRecord {
  sr_Msg : bytes;
  sr_Signature : bytes;
  sr_Timestamp : Z;
}.

Record BatchSignRecord := mkBatchSignRecord {
  br_Height : N;
  br_ChainID : bytes;
  br_Msg : bytes;
  br_EotsPk : bytes;
  br_Sig : bytes;
}.

#[global] Instance SigningRecord_eq_dec : EqDecision SigningRecord.
Proof. solve_decision. Defined.

(** The two buckets; [None] before they are created. *)
Record EOTSStore := mkEOTSStore {
  fpKeyNames : option (gmap bytes string);
  signRecord : option (gmap bytes SigningRecord);
}.

(** [kvdb.Batch]: the writes of the transaction are discarded when it fails, or
    when committing it does ([commit] is [false]). *)
Definition Batch (commit : bool) (s : EOTSStore) (r : res StoreErr EOTSStore) :
    res StoreErr unit * EOTSStore :=
  match r with
  | Ok s' => if commit then (Ok tt, s') else (Err ErrCommit, s)
  | Err e => (Err e, s)
  | Panic => (Panic, s)
  end.

(** [CreateTopLevelBucket] keeps a bucket that exists. *)
Definition initBuckets (commit : bool) (s : EOTSStore) : res StoreErr unit * EOTSStore :=
  Batch commit s (Ok (mkEOTSStore (Some (default ∅ (fpKeyNames s))) (Some (default ∅ (signRecord s))))).

Definition NewEOTSStore := initBuckets.

(** The record key is [chainID || pk || height]. *)
Definition getSignRecordKey (chainID pk : bytes) (height : N) : bytes :=
  chainID ++ pk ++ Uint64ToBigEndian height.

(** ** Names of keys *)

Definition saveEOTSKeyName (b : gmap bytes string) (btcPk : bytes) (keyName : string) :
    res StoreErr (gmap bytes string) :=
  if decide (keyName = ""%string) then Err ErrEmptyKeyName else Ok (<[btcPk := keyName]> b).

(** A missing name is read as the empty string by the first check. *)
Definition AddEOTSKeyName (commit : bool) (s : EOTSStore) (pkBytes : bytes) (keyName : string) :
    res StoreErr unit * EOTSStore :=
  Batch commit s (
    eotsBucket ← of_option ErrCorruptedEOTSDb (fpKeyNames s);
    require (negb (bool_decide (default ""%string (eotsBucket !! pkBytes) = keyName)))
      ErrDuplicateEOTSKeyRecord;;
    require (bool_decide (eotsBucket !! pkBytes = None)) ErrDuplicateEOTSKeyName;;
    b ← saveEOTSKeyName eotsBucket pkBytes keyName;
    mret (mkEOTSStore (Some b) (signRecord s))).

Definition GetEOTSKeyName (s : EOTSStore) (pk : bytes) : res StoreErr string :=
  eotsBucket ← of_option ErrCorruptedEOTSDb (fpKeyNames s);
  of_option ErrEOTSKeyNameNotFound (eotsBucket !! pk).

(** The map from names to keys: of keys with one name the last one stays. *)
Definition GetAllEOTSKeyNames (s : EOTSStore) : res StoreErr (gmap string bytes) :=
  eotsBucket ← of_option ErrCorruptedEOTSDb (fpKeyNames s);
  mret (foldl (λ m kv, <[kv.2 := kv.1]> m) ∅ (bkv_asc eotsBucket)).

(** ** Records of signatures *)

Definition put_record (now : Z) (b : gmap bytes SigningRecord) (r : BatchSignRecord) :
    res StoreErr (gmap bytes SigningRecord) :=
  let key := getSignRecordKey (br_ChainID r) (br_EotsPk r) (br_Height r) in
  require (bool_decide (b !! key = None)) ErrDuplicateSignRecord;;
  mret (<[key := mkSigningRecord (br_Msg r) (br_Sig r) now]> b).

Definition SaveSignRecord (commit : bool) (now : Z) (s : EOTSStore) (height : N)
    (chainID msg publicKey signature : bytes) : res StoreErr unit * EOTSStore :=
  let key := getSignRecordKey chainID publicKey height in
  Batch commit s (
    bucket ← of_option ErrCorruptedEOTSDb (signRecord s);
    require (bool_decide (bucket !! key = None)) ErrDuplicateSignRecord;;
    mret (mkEOTSStore (fpKeyNames s)
            (Some (<[key := mkSigningRecord msg signature now]> bucket)))).

(** [None] when there is no record. *)
Definition GetSignRecord (s : EOTSStore) (eotsPk chainID : bytes) (height : N) :
    res StoreErr (option SigningRecord) :=
  bucket ← of_option ErrCorruptedEOTSDb (signRecord s);
  mret (bucket !! getSignRecordKey chainID eotsPk height).

Definition GetSignRecordsBatch (s : EOTSStore) (eotsPk chainID : bytes) (heights : list N) :
    res StoreErr (gmap N SigningRecord) :=
  bucket ← of_option ErrCorruptedEOTSDb (signRecord s);
  mret (foldl (λ results height,
          match bucket !! getSignRecordKey chainID eotsPk height with
          | Some record => <[height := record]> results
          | None => results
          end) ∅ heights).

Definition SaveSignRecordsBatch (commit : bool) (now : Z) (s : EOTSStore)
    (records : list BatchSignRecord) : res StoreErr unit * EOTSStore :=
  match records with
  | [] => (Ok tt, s)
  | _ => Batch commit s (
           bucket ← of_option ErrCorruptedEOTSDb (signRecord s);
           b ← fold_res (put_record now) bucket records;
           mret (mkEOTSStore (fpKeyNames s) (Some b)))
  end.

Definition hasKeyPrefix (key chainID eotsPk : bytes) : bool :=
  if (length key <? length chainID + length eotsPk)%nat then false
  else if negb (bool_decide (take (length chainID) key = chainID)) then false
  else bool_decide (take (length eotsPk) (drop (length chainID) key) = eotsPk).

Definition ExtractHeightFromKey (key : bytes) : res StoreErr N :=
  if (length key <? 8)%nat then Err ErrKeyTooShort
  else Ok (BigEndianToUint64 (drop (length key - 8) key)).

(** The keys to delete, in the order of the bucket. *)
Definition keysToDelete (chainID eotsPk : bytes) (fromHeight : N)
    (b : gmap bytes SigningRecord) : res StoreErr (list bytes) :=
  fold_res (λ l kv,
    if negb (hasKeyPrefix kv.1 chainID eotsPk) then Ok l
    else height ← ExtractHeightFromKey kv.1;
         mret (if (fromHeight <=? height)%N then l ++ [kv.1] else l)) [] (bkv_asc b).

(** The arguments are slices that may be nil. *)
Definition DeleteSignRecordsFromHeight (commit : bool) (s : EOTSStore)
    (eotsPk chainID : option bytes) (fromHeight : N) : res StoreErr unit * EOTSStore :=
  match eotsPk, chainID with
  | Some eotsPk, Some chainID =>
      Batch commit s (
        bucket ← of_option ErrCorruptedEOTSDb (signRecord s);
        keys ← keysToDelete chainID eotsPk fromHeight bucket;
        mret (mkEOTSStore (fpKeyNames s) (Some (foldl (λ b k, delete k b) bucket keys))))
  | _, _ => (Err ErrNilArgument, s)
  end.

(** ** Checks: [util/validation.go], [util/crypto.go] *)

Fixpoint dup_loop (seen : gset N) (heights : list N) : option N :=
  match heights with
  | [] => None
  | height :: heights =>
      if decide (height ∈ seen) then Some height else dup_loop ({[height]} ∪ seen) heights
  end.
Definition HasDuplicateHeights (heights : list N) : option N := dup_loop ∅ heights.
Definition ValidateNoDuplicateHeights (heights : list N) : bool :=
  bool_decide (HasDuplicateHeights heights = None).

(** [ModNScalar.SetByteSlice] reads the first 32 bytes. *)
Definition SetByteSlice `{C : Curve} (b : bytes) : Z * bool := SetBytes (take 32 b).

Definition ValidatePrivKeyBytes `{C : Curve} (keyBytes : bytes) : bool :=
  let '(keyInt, overflow) := SetByteSlice keyBytes in
  negb overflow && negb (keyInt =? 0)%Z.

(** ** Facts *)

(** With keys of one length, the record key determines what it was made of. *)
Lemma getSignRecordKey_inj c1 p1 h1 c2 p2 h2 :
  length p1 = length p2 → (h1 < 2 ^ 64)%N → (h2 < 2 ^ 64)%N →
  getSignRecordKey c1 p1 h1 = getSignRecordKey c2 p2 h2 → c1 = c2 ∧ p1 = p2 ∧ h1 = h2.
Proof.
  intros Hl Hh1 Hh2 Heq. unfold getSignRecordKey in Heq. rewrite !app_assoc in Heq.
  apply app_inj_2 in Heq as [Heq Hh]; [|unfold Uint64ToBigEndian; by rewrite !length_be_encode].
  apply app_inj_2 in Heq as [-> ->]; [|done]. split_and!; [done..|].
  apply (f_equal BigEndianToUint64) in Hh. by rewrite !BigEndianToUint64_encode in Hh.
Qed.

Lemma dup_loop_None seen hs :
  dup_loop seen hs = None ↔ NoDup hs ∧ ∀ h, h ∈ hs → h ∉ seen.
Proof.
  revert seen. induction hs as [|h hs IH]; intros seen; simpl.
  { split; [|done]. intros _. split; [constructor|]. intros h []%not_elem_of_nil. }
  case_decide as Hh.
  { split; [done|]. intros [_ Hn]. by destruct (Hn h); [left|]. }
  rewrite IH, NoDup_cons. split.
  - intros [Hnd Hn]. split_and!; [|done|].
    + intros Hin%Hn. set_solver.
    + intros h' [-> |Hin]%elem_of_cons; [done|]. apply Hn in Hin. set_solver.
  - intros [[Hni Hnd] Hn]. split; [done|]. intros h' Hin.
    assert (h' ∉ seen) by (apply Hn; by right). assert (h' ≠ h) by congruence. set_solver.
Qed.

(** The check finds every repetition. *)
Lemma ValidateNoDuplicateHeights_spec hs : ValidateNoDuplicateHeights hs = true ↔ NoDup hs.
Proof.
  unfold ValidateNoDuplicateHeights, HasDuplicateHeights.
  rewrite bool_decide_eq_true, dup_loop_None. set_solver.
Qed.

(** What is in the batch of records is what single lookups give. *)
Lemma GetSignRecordsBatch_lookup s pk ch hs m h :
  GetSignRecordsBatch s pk ch hs = Ok m → h ∈ hs → GetSignRecord s pk ch h = Ok (m !! h).
Proof.
  unfold GetSignRecordsBatch, GetSignRecord. intros Hg Hin. inv_ok.
  match goal with H : signRecord s = Some ?b |- _ => rewrite H; rename b into bk end. simpl.
  f_equal. set (f := foldl _).
  assert (∀ m0, f m0 hs !! h =
    if bool_decide (h ∈ hs) then bk !! getSignRecordKey ch pk h ∪ m0 !! h else m0 !! h) as Hf.
  { clear Hin. unfold f. clear f. induction hs as [|h' hs IH]; intros m0; simpl; [done|].
    rewrite IH. destruct (decide (h' = h)) as [-> |Hne].
    - rewrite (bool_decide_true (h ∈ h :: hs)) by by left.
      destruct (bk !! getSignRecordKey ch pk h); rewrite ?lookup_insert_eq;
        case_bool_decide; simpl; by destruct (m0 !! h).
    - rewrite (bool_decide_ext (h ∈ h' :: hs) (h ∈ hs)) by (rewrite elem_of_cons; naive_solver).
      by destruct (bk !! getSignRecordKey ch pk h'); rewrite ?lookup_insert_ne by done. }
  rewrite Hf, lookup_empty, bool_decide_true by done. by destruct (bk !! _).
Qed.

(** A record in the database. *)
Definition recorded (s : EOTSStore) (k : bytes) (r : SigningRecord) : Prop :=
  ∃ b, signRecord s = Some b ∧ b !! k = Some r.

Lemma recorded_fun s k r1 r2 : recorded s k r1 → recorded s k r2 → r1 = r2.
Proof. intros (b & Hb & H1) (b' & Hb' & H2). by simplify_eq. Qed.

Lemma GetSignRecord_recorded s pk ch h r :
  GetSignRecord s pk ch h = Ok (Some r) ↔ recorded s (getSignRecordKey ch pk h) r.
Proof.
  unfold GetSignRecord, recorded. destruct (signRecord s) as [b|]; simpl; [|naive_solver].
  split; [intros [= ?]; by exists b|intros (b' & [= <-] & Hb)]. unfold mret, res_ret. by rewrite Hb.
Qed.

Lemma Batch_Ok commit s r s' :
  Batch commit s r = (Ok tt, s') → r = Ok s' ∧ commit = true.
Proof. unfold Batch. destruct r; [destruct commit|..]; naive_solver. Qed.

(** A failed transaction leaves no trace. *)
Lemma Batch_cases commit s r :
  (Batch commit s r).2 = s ∨ ∃ s', r = Ok s' ∧ Batch commit s r = (Ok tt, s').
Proof. unfold Batch. destruct r; [destruct commit|..]; naive_solver. Qed.

Lemma Batch_failed commit s r x s' : Batch commit s r = (x, s') → x ≠ Ok tt → s' = s.
Proof. unfold Batch. destruct r; [destruct commit|..]; naive_solver. Qed.

Lemma put_records_spec now b rs b' :
  fold_res (put_record now) b rs = Ok b' →
  b ⊆ b' ∧
  (∀ r, r ∈ rs → b' !! getSignRecordKey (br_ChainID r) (br_EotsPk r) (br_Height r) =
    Some (mkSigningRecord (br_Msg r) (br_Sig r) now)) ∧
  (∀ k x, b' !! k = Some x → b !! k = Some x ∨ ∃ r, r ∈ rs ∧
    k = getSignRecordKey (br_ChainID r) (br_EotsPk r) (br_Height r) ∧
    x = mkSigningRecord (br_Msg r) (br_Sig r) now).
Proof.
  revert b. induction rs as [|r rs IH]; intros b; simpl.
  { intros [= <-]. split_and!; [done| |by left]. intros r []%not_elem_of_nil. }
  intros (b1 & Hput & Hrest)%bind_Ok. unfold put_record in Hput.
  apply require_bind_Ok in Hput as [Hn%bool_decide_eq_true Hput]. injection Hput as <-.
  destruct (IH _ Hrest) as (Hsub & Hall & Hback). split_and!.
  - etrans; [|done]. by apply insert_subseteq.
  - intros r' [-> |Hin]%elem_of_cons; [|by apply Hall].
    eapply lookup_weaken; [|done]. by rewrite lookup_insert_eq.
  - intros k x Hk. destruct (Hback _ _ Hk) as [Hk'|(r' & Hin & -> & ->)].
    + apply lookup_insert_Some in Hk' as [[<- <-]|[_ ?]]; [|by left].
      right. exists r. split; [by left|done].
    + right. exists r'. split; [by right|done].
Qed.

(** The key and the value under which a record of a batch is saved. *)
Definition saved_as (now : Z) (rec : BatchSignRecord) (k : bytes) (r : SigningRecord) : Prop :=
  k = getSignRecordKey (br_ChainID rec) (br_EotsPk rec) (br_Height rec) ∧
  r = mkSigningRecord (br_Msg rec) (br_Sig rec) now.

(** Saving adds exactly the records, and overwrites none. *)
Lemma SaveSignRecordsBatch_spec c now s rs s' :
  SaveSignRecordsBatch c now s rs = (Ok tt, s') →
  fpKeyNames s' = fpKeyNames s ∧
  ∀ k r, recorded s' k r ↔ recorded s k r ∨ ∃ rec, rec ∈ rs ∧ saved_as now rec k r.
Proof.
  unfold SaveSignRecordsBatch. destruct rs as [|r0 rs].
  { intros [= <-]. split; [done|]. intros k r. split; [by left|].
    intros [?|(rec & []%not_elem_of_nil & _)]. done. }
  intros [Hsv _]%Batch_Ok. apply bind_Ok in Hsv as (b & Hb%of_option_Ok & Hsv).
  apply bind_Ok in Hsv as (b' & Hf & [= <-]). apply put_records_spec in Hf as (Hsub & Hput & Hback).
  split; [done|]. intros k r. split.
  - intros (b0 & [= <-] & Hk). destruct (Hback _ _ Hk) as [?|(rec & ? & -> & ->)].
    + left. by exists b.
    + right. by exists rec.
  - intros [(b0 & Hb0 & Hk)|(rec & Hin & -> & ->)]; (exists b'; split; [done|]).
    + simplify_eq. by eapply lookup_weaken.
    + by apply Hput.
Qed.

(** A single record is a batch of one. *)
Lemma SaveSignRecord_batch c now s h ch m pk sig :
  SaveSignRecord c now s h ch m pk sig =
  SaveSignRecordsBatch c now s [mkBatchSignRecord h ch m pk sig].
Proof.
  unfold SaveSignRecord, SaveSignRecordsBatch. f_equal.
  destruct (signRecord s) as [b|]; [|done]. cbn -[getSignRecordKey]. unfold put_record.
  cbn -[getSignRecordKey]. by destruct (bool_decide _).
Qed.

Lemma SaveSignRecordsBatch_failed c now s rs x s' :
  SaveSignRecordsBatch c now s rs = (x, s') → x ≠ Ok tt → s' = s.
Proof.
  unfold SaveSignRecordsBatch. destruct rs; [naive_solver|]. apply Batch_failed.
Qed.

Lemma AddEOTSKeyName_spec c s pk n s' r :
  AddEOTSKeyName c s pk n = (r, s') →
  signRecord s' = signRecord s ∧
  ∀ b, fpKeyNames s = Some b → ∃ b', fpKeyNames s' = Some b' ∧ b ⊆ b'.
Proof.
  unfold AddEOTSKeyName. intros HB.
  match type of HB with Batch ?c ?s ?x = _ => destruct (Batch_cases c s x) as [Hs|(s1 & Hx & Hs)] end;
    rewrite HB in Hs; cbn [snd] in Hs.
  { subst s'. split; [done|]. intros b Hb. by exists b. }
  injection Hs as -> ->. apply bind_Ok in Hx as (b & Hb%of_option_Ok & Hx).
  apply require_bind_Ok in Hx as [_ Hx]. apply require_bind_Ok in Hx as [Hn%bool_decide_eq_true Hx].
  apply bind_Ok in Hx as (b' & Hsave & [= <-]). split; [done|].
  intros b0 Hb0. simplify_eq. exists b'. split; [done|]. unfold saveEOTSKeyName in Hsave.
  case_decide; [done|]. injection Hsave as <-. by apply insert_subseteq.
Qed.

Lemma initBuckets_spec c s r s' :
  initBuckets c s = (r, s') →
  (∀ k x, recorded s' k x ↔ recorded s k x) ∧
  ∀ b, fpKeyNames s = Some b → ∃ b', fpKeyNames s' = Some b' ∧ b ⊆ b'.
Proof.
  unfold initBuckets, Batch. destruct c; intros [= <- <-]; split; try done.
  - intros k x. unfold recorded. cbn. destruct (signRecord s) as [b|]; [done|]. simpl.
    split; [|naive_solver]. intros (b & [= <-] & Hk). by rewrite lookup_empty in Hk.
  - intros b Hb. exists b. cbn. by rewrite Hb.
  - intros b Hb. by exists b.
Qed.
End EotsStore.
