(* ===== verification/EotsManager.v ===== *)
(** The signing daemon of a finality provider.
    [src/finality-provider/eotsmanager/localmanager.go], [eotsmanager.go],
    [randgenerator], [service/rpcserver.go] and [client/rpcclient.go].

    The daemon holds the keys.  Nonces are derived from the key, the chain and the
    height, so that they can be committed to before they are used; a nonce must then
    sign one message only.  [EotsManagerSpec] shows that it does. *)
From Stdlib Require Import Strings.Byte.
From stdpp Require Import base numbers list gmap strings.
From S2P Require Import Prelude Bytes Secp256k1 Eots EotsStore.

(** ** Libraries

    The keyring of the Cosmos SDK: records by name, behind a passphrase that it reads
    from the daemon's input.  Reading leaves the rest of the input. *)
Inductive KrBackend := BackendTest | BackendFile | BackendOther.

#[global] Instance KrBackend_eq_dec : EqDecision KrBackend.
Proof. solve_decision. Defined.

(** A record: a local secp256k1 key with its bytes, a local key of another type, or a
    record without a private key. *)
Inductive KeyInfo := LocalSecp256k1 (key : bytes) | LocalOther | NotLocal.

Class Keyring := {
  kr_t : Type;
  kr_Backend : kr_t → KrBackend;
  kr_Key : kr_t → string → string → option KeyInfo * string;            (** input, name *)
  kr_NewAccount : kr_t → string → string → string → option kr_t * string; (** input, name, mnemonic *)
  (** The public key of a record: [None] is an error, [Some None] another type of key. *)
  kr_GetPubKey : KeyInfo → option (option bytes);
}.

(** [btcec.ParsePubKey] and [schnorr.Sign]. *)
Class SignLib `{C : Curve} := {
  BtcecParsePubKey : bytes → option point;
  SchnorrSign : Z → bytes → option bytes;
}.

Module EotsManager.
Import EotsStore.

Inductive EmErr :=
  | ErrStore (e : StoreErr) | ErrFinalityProviderAlreadyExisted | ErrDoubleSign | ErrDuplicateHeight
  | ErrPkMismatch | ErrKeyring | ErrKeyType | ErrInvalidPrivKey | ErrKeyNotInMap | ErrPassphrase
  | ErrInterval | ErrSign (e : Eots.EotsErr) | ErrAlreadyUnlocked | ErrParsePubKey | ErrSchnorr
  | ErrNoRandomness | ErrPermissionDenied | ErrInvalidArgument.

#[global] Instance EmErr_eq_dec : EqDecision EmErr.
Proof. solve_decision. Defined.

(** ** Randomness: [randgenerator] *)
Section rand.
Context `{C : Curve}.

(** [crypto/hmac] with SHA-256, whose blocks have 64 bytes. *)
Definition xor_byte (c : N) (b : byte) : byte := byte_of_N (N.lxor (N_of_byte b) c).
Definition hmac_pad (key : bytes) : bytes :=
  let key := if (64 <? length key)%nat then Sum256 key else key in
  key ++ replicate (64 - length key) x00.
Definition hmac_sha256 (key msg : bytes) : bytes :=
  let key := hmac_pad key in
  Sum256 (map (xor_byte 92) key ++ Sum256 (map (xor_byte 54) key ++ msg)).

Definition rand_input (chainID : bytes) (height iteration : N) : bytes :=
  (Uint64ToBigEndian height ++ chainID) ++ Uint64ToBigEndian iteration.

(** One sample: accepted unless it overflows or is zero. *)
Definition rand_sample (key chainID : bytes) (height iteration : N) : option Z :=
  let randPre := hmac_sha256 key (rand_input chainID height iteration) in
  let '(randScalar, overflow) := SetByteSlice randPre in
  if negb overflow && negb (randScalar =? 0)%Z then Some randScalar else None.

(** The loop, for [fuel] rounds; [None] when it is still looking. *)
Fixpoint rand_loop (fuel : nat) (key chainID : bytes) (height iteration : N) : option Z :=
  match fuel with
  | O => None
  | S fuel =>
      match rand_sample key chainID height iteration with
      | Some k => Some k
      | None => rand_loop fuel key chainID height (u64_add iteration 1)
      end
  end.

(** The private and the public randomness. *)
Definition GenerateRandomness (fuel : nat) (key chainID : bytes) (height : N) : option (Z * N) :=
  k ← rand_loop fuel key chainID height 0;
  Some (k, X (ScalarBaseMult k)).
End rand.

(** ** The manager *)
Section manager.
Context `{C : Curve} {SL : SignLib} {KR : Keyring}.

(** Rounds that the loop of [GenerateRandomness] gets. *)
Context (fuel : nat).

Record LocalEOTSManager := mkManager {
  kr : kr_t;
  es : EOTSStore;
  input : string;
  privateKeys : gmap string (option Z);
}.

(** What a call finds in its environment: whether the database commits, the time,
    and the blinding factors of the signatures it makes. *)
Record Env := mkEnv {
  e_commit : bool;
  e_now : Z;
  e_blind : nat → option bytes;
}.

(** A call that changes the manager, also when it fails. *)
Definition M (A : Type) : Type := LocalEOTSManager → res EmErr A * LocalEOTSManager.

#[global] Instance M_ret : MRet M := λ A a lm, (Ok a, lm).
#[global] Instance M_bind : MBind M := λ A B f m lm,
  match m lm with
  | (Ok a, lm) => f a lm
  | (Err e, lm) => (Err e, lm)
  | (Panic, lm) => (Panic, lm)
  end.

Definition throw {A} (e : EmErr) : M A := λ lm, (Err e, lm).
Definition panic {A} : M A := λ lm, (Panic, lm).
Definition lift {A} (r : res EmErr A) : M A := λ lm, (r, lm).
Definition require_m (b : bool) (e : EmErr) : M unit := if b then mret tt else throw e.

(** Reading from and writing to the database. *)
Definition read_store {A} (f : EOTSStore → res StoreErr A) : M A := λ lm,
  (map_err ErrStore (f (es lm)), lm).
Definition write_store {A} (f : EOTSStore → res StoreErr A * EOTSStore) : M A := λ lm,
  let '(r, s) := f (es lm) in
  (map_err ErrStore r, mkManager (kr lm) s (input lm) (privateKeys lm)).

Definition reset_input (i : string) : M unit := λ lm,
  (Ok tt, mkManager (kr lm) (es lm) i (privateKeys lm)).

(** [lm.kr.Key(name)]. *)
Definition keyring_Key (name : string) : M (option KeyInfo) := λ lm,
  let '(o, rest) := kr_Key (kr lm) (input lm) name in
  (Ok o, mkManager (kr lm) (es lm) rest (privateKeys lm)).

(** [lm.kr.NewAccount(name, mnemonic, "", "", algo)]. *)
Definition keyring_NewAccount (name mnemonic : string) : M unit := λ lm,
  let '(o, rest) := kr_NewAccount (kr lm) (input lm) name mnemonic in
  match o with
  | Some kr' => (Ok tt, mkManager kr' (es lm) rest (privateKeys lm))
  | None => (Err ErrKeyring, mkManager (kr lm) (es lm) rest (privateKeys lm))
  end.

(** [NewLocalEOTSManager] on the files of the home directory. *)
Definition NewLocalEOTSManager (e : Env) (k : kr_t) (db : EOTSStore) :
    res EmErr LocalEOTSManager * EOTSStore :=
  let '(r, db) := NewEOTSStore (e_commit e) db in
  match r with
  | Ok _ => (Ok (mkManager k db ""%string ∅), db)
  | Err err => (Err (ErrStore err), db)
  | Panic => (Panic, db)
  end.

(** *** Keys *)

Definition keyExists (name : string) : M bool :=
  o ← keyring_Key name; mret (bool_decide (is_Some o)).

Definition pubkey_of (info : KeyInfo) : res EmErr bytes :=
  o ← of_option ErrKeyring (kr_GetPubKey info);
  key ← of_option ErrKeyType o;
  pk ← of_option ErrParsePubKey (BtcecParsePubKey key);
  mret (SerializePubKey pk).

Definition LoadBIP340PubKeyFromKeyName (keyName : string) : M bytes :=
  o ← keyring_Key keyName;
  info ← lift (of_option ErrKeyring o);
  lift (pubkey_of info).

Definition SaveEOTSKeyName (e : Env) (pk : point) (keyName : string) : M unit :=
  write_store (λ s, AddEOTSKeyName (e_commit e) s (SerializePubKey pk) keyName).

(** [MustToBTCPK] panics on bytes that are no key. *)
Definition CreateKeyWithMnemonic (e : Env) (name mnemonic passphrase : string) : M bytes := λ lm,
  (require_m (negb (bool_decide (kr_Backend (kr lm) = BackendFile)
                    && (String.length passphrase <? 8)%nat)) ErrPassphrase;;
   exists_ ← keyExists name;
   require_m (negb exists_) ErrFinalityProviderAlreadyExisted;;
   reset_input (passphrase +:+ String (Ascii.ascii_of_N 10) passphrase);;
   keyring_NewAccount name mnemonic;;
   eotsPk ← LoadBIP340PubKeyFromKeyName name;
   btcPk ← (match ParsePubKey eotsPk with Some P => mret P | None => panic end);
   SaveEOTSKeyName e btcPk name;;
   mret eotsPk) lm.

(** The private key of a record that holds a valid one. *)
Definition privkey_of (info : KeyInfo) : res EmErr Z :=
  match info with
  | LocalSecp256k1 key =>
      require (ValidatePrivKeyBytes key) ErrInvalidPrivKey;;
      mret (SetByteSlice key).1
  | LocalOther => Err ErrKeyType
  | NotLocal => Panic
  end.

Definition getKeyFromKeyring (keyName passphrase : string) : M Z :=
  reset_input passphrase;;
  o ← keyring_Key keyName;
  k ← lift (of_option ErrKeyring o);
  lift (privkey_of k).

Definition getKeyFromMap (keyName : string) : M Z := λ lm,
  (lift (match privateKeys lm !! keyName with
         | Some (Some privKey) => Ok privKey
         | _ => Err ErrKeyNotInMap
         end)) lm.

(** With another backend the key stays nil: [None]. *)
Definition eotsPrivKeyFromKeyName (keyName : string) : M (option Z) := λ lm,
  match kr_Backend (kr lm) with
  | BackendTest => (k ← getKeyFromKeyring keyName ""%string; mret (Some k)) lm
  | BackendFile => (k ← getKeyFromMap keyName; mret (Some k)) lm
  | BackendOther => (Ok None, lm)
  end.

(** The common part of [SignEOTS], [SignBatchEOTS] and [getEOTSPrivKey]: a nil key is
    dereferenced. *)
Definition checked_key (eotsPk : bytes) : M Z :=
  keyName ← read_store (λ s, GetEOTSKeyName s eotsPk);
  o ← eotsPrivKeyFromKeyName keyName;
  match o with
  | None => panic
  | Some privKey =>
      let derivedPubKey := SerializePubKey (ScalarBaseMult privKey) in
      require_m (bool_decide (derivedPubKey = eotsPk)) ErrPkMismatch;;
      mret privKey
  end.

Definition getEOTSPrivKey (fpPk : bytes) : M Z := checked_key fpPk.

(** The name and the key. *)
Definition KeyRecord (fpPk : bytes) : M (string * Z) :=
  name ← read_store (λ s, GetEOTSKeyName s fpPk);
  privKey ← getEOTSPrivKey fpPk;
  mret (name, privKey).

(** Keeps the key unless there is one. *)
Definition keep_key (keyName : string) (privKey : Z) : M unit := λ lm,
  match privateKeys lm !! keyName with
  | Some _ => (Err ErrAlreadyUnlocked, lm)
  | None => (Ok tt, mkManager (kr lm) (es lm) (input lm)
                      (<[keyName := Some privKey]> (privateKeys lm)))
  end.

Definition Unlock (fpPk : bytes) (passphrase : string) : M unit :=
  keyName ← read_store (λ s, GetEOTSKeyName s fpPk);
  privKey ← getKeyFromKeyring keyName passphrase;
  keep_key keyName privKey.

Definition ListEOTSKeys : M (gmap string bytes) := read_store GetAllEOTSKeyNames.

(** *** Randomness *)

Definition getRandomnessPair (privKey : Z) (chainID : bytes) (height : N) : res EmErr (Z * N) :=
  of_option ErrNoRandomness (GenerateRandomness fuel (sc_bytes privKey) chainID height).

(** [interval] is the option [WithInterval]. *)
Definition rand_height (interval : option N) (startHeight i : N) : N :=
  match interval with
  | Some d => u64_add startHeight (u64 (i * d))
  | None => u64_add startHeight i
  end.

Definition CreateRandomnessPairList (fpPk chainID : bytes) (startHeight num : N)
    (interval : option N) : M (list N) :=
  require_m (negb (bool_decide (interval = Some 0%N))) ErrInterval;;
  privKey ← getEOTSPrivKey fpPk;
  lift (fold_res (λ prList i,
    '(_, pubRand) ← getRandomnessPair privKey chainID (rand_height interval startHeight i);
    mret (prList ++ [pubRand])) [] (N.of_nat <$> seq 0 (N.to_nat num))).

(** *** Signing *)

Definition SignEOTS (e : Env) (eotsPk chainID msg : bytes) (height : N) : M Z :=
  found ← read_store (λ s, GetSignRecord s eotsPk chainID height);
  match found with
  | Some record =>
      if bool_decide (msg = sr_Msg record) then mret (SetByteSlice (sr_Signature record)).1
      else throw ErrDoubleSign
  | None =>
      privKey ← checked_key eotsPk;
      '(privRand, _) ← lift (getRandomnessPair privKey chainID height);
      signed ← lift (map_err ErrSign (Eots.Sign (e_blind e 0) privKey privRand msg));
      write_store (λ s, SaveSignRecord (e_commit e) (e_now e) s height chainID msg eotsPk
                          (sc_bytes signed));;
      mret signed
  end.

Record SignDataRequest := mkSignDataRequest { rq_Msg : bytes; rq_Height : N }.
Record SignDataResponse := mkSignDataResponse { rs_Signature : Z; rs_Height : N }.

(** One round of the loop of [SignBatchEOTS]: the records to save and the responses so
    far, and the number of the request.  A request for another message than the
    recorded one is skipped. *)
Definition sign_request (e : Env) (eotsPk chainID : bytes) (privKey : Z)
    (existingRecords : gmap N SigningRecord)
    (acc : list BatchSignRecord * list SignDataResponse) (ir : nat * SignDataRequest) :
    res EmErr (list BatchSignRecord * list SignDataResponse) :=
  let '(recordsToSave, response) := acc in
  let msg := rq_Msg ir.2 in
  let height := rq_Height ir.2 in
  match existingRecords !! height with
  | Some existingRecord =>
      if bool_decide (msg = sr_Msg existingRecord)
      then mret (recordsToSave, response ++
             [mkSignDataResponse (SetByteSlice (sr_Signature existingRecord)).1 height])
      else mret (recordsToSave, response)
  | None =>
      '(privRand, _) ← getRandomnessPair privKey chainID height;
      signed ← map_err ErrSign (Eots.Sign (e_blind e ir.1) privKey privRand msg);
      mret (recordsToSave ++ [mkBatchSignRecord height chainID msg eotsPk (sc_bytes signed)],
            response ++ [mkSignDataResponse signed height])
  end.

Definition number {A} (l : list A) : list (nat * A) := zip (seq 0 (length l)) l.

Definition SignBatchEOTS (e : Env) (eotsPk chainID : bytes) (reqs : list SignDataRequest) :
    M (list SignDataResponse) :=
  let heights := rq_Height <$> reqs in
  require_m (ValidateNoDuplicateHeights heights) ErrDuplicateHeight;;
  privKey ← checked_key eotsPk;
  existingRecords ← read_store (λ s, GetSignRecordsBatch s eotsPk chainID heights);
  '(recordsToSave, response) ←
    lift (fold_res (sign_request e eotsPk chainID privKey existingRecords) ([], []) (number reqs));
  write_store (λ s, SaveSignRecordsBatch (e_commit e) (e_now e) s recordsToSave);;
  mret response.

Definition UnsafeSignEOTS (e : Env) (fpPk chainID msg : bytes) (height : N) : M Z :=
  privKey ← getEOTSPrivKey fpPk;
  '(privRand, _) ← lift (getRandomnessPair privKey chainID height);
  lift (map_err ErrSign (Eots.Sign (e_blind e 0) privKey privRand msg)).

Definition signSchnorrSigFromPrivKey (privKey : Z) (msg : bytes) : M bytes :=
  lift (of_option ErrSchnorr (SchnorrSign privKey msg)).

Definition SignSchnorrSig (fpPk msg : bytes) : M bytes :=
  privKey ← getEOTSPrivKey fpPk;
  signSchnorrSigFromPrivKey privKey msg.

Definition SignSchnorrSigFromKeyname (keyName : string) (msg : bytes) : M (bytes * bytes) :=
  eotsPk ← LoadBIP340PubKeyFromKeyName keyName;
  o ← eotsPrivKeyFromKeyName keyName;
  match o with
  | None => panic
  | Some privKey =>
      signature ← signSchnorrSigFromPrivKey privKey msg;
      mret (signature, eotsPk)
  end.

Definition UnsafeDeleteSignStoreRecords (e : Env) (eotsPK chainID : option bytes)
    (fromHeight : N) : M unit :=
  write_store (λ s, DeleteSignRecordsFromHeight (e_commit e) s eotsPK chainID fromHeight).

Definition IsRecordInDB (eotsPk chainID : bytes) (height : N) : M bool :=
  found ← read_store (λ s, GetSignRecord s eotsPk chainID height);
  mret (bool_decide (is_Some found)).

(** ** The RPC server: [service/rpcserver.go]

    Scalars travel as 32 bytes.  [disabled] is the setting [DisableUnsafeEndpoints],
    true when it is absent. *)
Definition IsUnsafeEndpointsDisabled (setting : option bool) : bool := default true setting.

Definition rpc_CreateRandomnessPairList (uid chainID : bytes) (startHeight num : N)
    (interval : option N) : M (list bytes) :=
  let interval := match interval with Some d => if (0 <? d)%N then Some d else None | None => None end in
  pubRandList ← CreateRandomnessPairList uid chainID startHeight num interval;
  mret (field_bytes <$> pubRandList).

Definition rpc_SignEOTS (e : Env) (uid chainID msg : bytes) (height : N) : M bytes :=
  sig ← SignEOTS e uid chainID msg height; mret (sc_bytes sig).

Definition rpc_UnsafeSignEOTS (setting : option bool) (e : Env) (uid chainID msg : bytes)
    (height : N) : M bytes :=
  require_m (negb (IsUnsafeEndpointsDisabled setting)) ErrPermissionDenied;;
  sig ← UnsafeSignEOTS e uid chainID msg height; mret (sc_bytes sig).

Definition rpc_SignBatchEOTS (e : Env) (uid chainID : bytes) (reqs : list SignDataRequest) :
    M (list (bytes * N)) :=
  require_m (ValidateNoDuplicateHeights (rq_Height <$> reqs)) ErrInvalidArgument;;
  responses ← SignBatchEOTS e uid chainID reqs;
  mret ((λ resp, (sc_bytes (rs_Signature resp), rs_Height resp)) <$> responses).

Definition rpc_SaveEOTSKeyName (e : Env) (eotsPk : bytes) (keyName : string) : M unit :=
  pk ← lift (of_option ErrParsePubKey (BtcecParsePubKey eotsPk));
  SaveEOTSKeyName e pk keyName.

(** ** The client: [client/rpcclient.go] *)

(** [FieldVal.SetByteSlice] and [ModNScalar.SetByteSlice] on what the server sends. *)
Definition client_CreateRandomnessPairList (uid chainID : bytes) (startHeight num : N)
    (interval : option N) : M (list N) :=
  res ← rpc_CreateRandomnessPairList uid chainID startHeight num interval;
  mret ((λ r, field_of_bytes (take 32 r)) <$> res).

Definition client_SignEOTS (e : Env) (uid chainID msg : bytes) (height : N) : M Z :=
  sig ← rpc_SignEOTS e uid chainID msg height; mret (SetByteSlice sig).1.

Definition client_SignBatchEOTS (e : Env) (uid chainID : bytes) (reqs : list SignDataRequest) :
    M (list SignDataResponse) :=
  res ← rpc_SignBatchEOTS e uid chainID reqs;
  mret ((λ resp, mkSignDataResponse (SetByteSlice resp.1).1 resp.2) <$> res).
End manager.
End EotsManager.
