(* ===== verification/EotsManagerSpec.v ===== *)
(** The promise of the signing daemon: it never signs twice.

    The clients of the daemon call it in any order; every call holds its lock.  With
    the unsafe endpoint disabled, all signatures it ever gives out for one key, chain
    and height are one signature of one message, and every signature verifies under the
    randomness that the daemon lists for its height ([daemon_signs_once]); once a height
    is signed, other messages are refused ([signed_heights_are_closed]).  These also hold
    across restarts, failing transactions and new keys. *)
From Stdlib Require Import Strings.Byte.
From stdpp Require Import base numbers list gmap strings.
From S2P Require Import Prelude Bytes Secp256k1 Eots EotsStore EotsManager.

(** What the keyring promises: a name has one key, and new accounts disturb no key. *)
Class KeyringLaws `(KR : Keyring) := {
  kr_Key_same : ∀ k i j n ki kj ri rj,
    kr_Key k i n = (Some ki, ri) → kr_Key k j n = (Some kj, rj) → ki = kj;
  kr_New_keeps : ∀ k i n m k' rest, kr_NewAccount k i n m = (Some k', rest) →
    ∀ j n' ki r, kr_Key k j n' = (Some ki, r) → ∃ r', kr_Key k' j n' = (Some ki, r');
}.

Module EotsManagerSpec.
Import EotsStore EotsManager.

Section calls.
Context `{C : Curve} {SL : SignLib} {KR : Keyring} (fuel : nat).

(** ** Runs of the daemon *)

Inductive Call :=
  | CCreateKey (name mnemonic passphrase : string)
  | CSaveEOTSKeyName (eotsPk : bytes) (keyName : string)
  | CUnlock (fpPk : bytes) (passphrase : string)
  | CCreateRandomness (uid chainID : bytes) (startHeight num : N) (interval : option N)
  | CSign (uid chainID msg : bytes) (height : N)
  | CUnsafeSign (uid chainID msg : bytes) (height : N)
  | CSignBatch (uid chainID : bytes) (reqs : list SignDataRequest)
  | CSignSchnorr (fpPk msg : bytes)
  | CSignSchnorrName (keyName : string) (msg : bytes)
  | CRestart.

(** A signature that a client got. *)
Record Signed := mkSigned {
  g_Pk : bytes;
  g_Chain : bytes;
  g_Height : N;
  g_Msg : bytes;
  g_Sig : Z;
}.

(** The message that a batch asked to be signed at a height. *)
Definition msg_at (reqs : list SignDataRequest) (h : N) : bytes :=
  match list_find (λ r, rq_Height r = h) reqs with Some (_, r) => rq_Msg r | None => [] end.

Definition restart (e : Env) (lm : LocalEOTSManager) : LocalEOTSManager :=
  match NewLocalEOTSManager e (kr lm) (es lm) with
  | (Ok lm', _) => lm'
  | (_, db) => mkManager (kr lm) db ""%string ∅
  end.

(** A call and the signatures it gives out; [setting] configures the unsafe endpoint. *)
Definition handle (setting : option bool) (e : Env) (c : Call) (lm : LocalEOTSManager) :
    list Signed * LocalEOTSManager :=
  match c with
  | CCreateKey name mnemonic passphrase =>
      ([], (CreateKeyWithMnemonic e name mnemonic passphrase lm).2)
  | CSaveEOTSKeyName eotsPk keyName => ([], (rpc_SaveEOTSKeyName e eotsPk keyName lm).2)
  | CUnlock fpPk passphrase => ([], (Unlock fpPk passphrase lm).2)
  | CCreateRandomness uid chainID start num interval =>
      ([], (client_CreateRandomnessPairList fuel uid chainID start num interval lm).2)
  | CSign uid chainID msg height =>
      match client_SignEOTS fuel e uid chainID msg height lm with
      | (Ok sig, lm') => ([mkSigned uid chainID height msg sig], lm')
      | (_, lm') => ([], lm')
      end
  | CUnsafeSign uid chainID msg height =>
      match rpc_UnsafeSignEOTS fuel setting e uid chainID msg height lm with
      | (Ok sig, lm') => ([mkSigned uid chainID height msg (SetByteSlice sig).1], lm')
      | (_, lm') => ([], lm')
      end
  | CSignBatch uid chainID reqs =>
      match client_SignBatchEOTS fuel e uid chainID reqs lm with
      | (Ok resps, lm') =>
          ((λ r, mkSigned uid chainID (rs_Height r) (msg_at reqs (rs_Height r)) (rs_Signature r))
             <$> resps, lm')
      | (_, lm') => ([], lm')
      end
  | CSignSchnorr fpPk msg => ([], (SignSchnorrSig fpPk msg lm).2)
  | CSignSchnorrName keyName msg => ([], (SignSchnorrSigFromKeyname keyName msg lm).2)
  | CRestart => ([], restart e lm)
  end.

Fixpoint run (setting : option bool) (cs : list (Env * Call)) (lm : LocalEOTSManager) :
    list Signed * LocalEOTSManager :=
  match cs with
  | [] => ([], lm)
  | (e, c) :: cs =>
      let '(outs, lm) := handle setting e c lm in
      let '(outs', lm) := run setting cs lm in
      (outs ++ outs', lm)
  end.

(** ** How calls move the manager *)

(** Only the input was read. *)
Definition quiet (lm lm' : LocalEOTSManager) : Prop :=
  kr lm' = kr lm ∧ es lm' = es lm ∧ privateKeys lm' = privateKeys lm.

#[global] Instance quiet_preorder : PreOrder quiet.
Proof.
  split; [by intros lm|]. intros a b c (?&?&?) (?&?&?). unfold quiet. split_and!; congruence.
Qed.

Definition moves (R : relation LocalEOTSManager) {A} (m : M A) : Prop := ∀ lm, R lm (m lm).2.

Lemma moves_ret R `{!Reflexive R} {A} (a : A) : moves R (mret a).
Proof. by intros lm. Qed.
Lemma moves_lift R `{!Reflexive R} {A} (r : res EmErr A) : moves R (lift r).
Proof. by intros lm. Qed.
Lemma moves_throw R `{!Reflexive R} {A} err : moves R (throw err : M A).
Proof. by intros lm. Qed.
Lemma moves_panic R `{!Reflexive R} {A} : moves R (panic : M A).
Proof. by intros lm. Qed.
Lemma moves_require R `{!Reflexive R} b err : moves R (require_m b err).
Proof. by intros lm; destruct b. Qed.
Lemma moves_read R `{!Reflexive R} {A} (f : EOTSStore → res StoreErr A) : moves R (read_store f).
Proof. by intros lm. Qed.

Lemma moves_bind R `{!PreOrder R} {A B} (m : M A) (f : A → M B) :
  moves R m → (∀ a, moves R (f a)) → moves R (m ≫= f).
Proof.
  intros Hm Hf lm. specialize (Hm lm). unfold mbind, M_bind.
  destruct (m lm) as [[a|err|] lm1]; cbn [snd] in *; [|done..]. by etrans; [|apply Hf].
Qed.

Lemma moves_mono (R R' : relation LocalEOTSManager) {A} (m : M A) :
  (∀ a b, R a b → R' a b) → moves R m → moves R' m.
Proof. intros HR Hm lm. apply HR, Hm. Qed.

(** The outcome of a sequence. *)
Lemma bindM_Ok {A B} (m : M A) (f : A → M B) lm b lm' :
  (m ≫= f) lm = (Ok b, lm') ↔ ∃ a lm1, m lm = (Ok a, lm1) ∧ f a lm1 = (Ok b, lm').
Proof.
  unfold mbind, M_bind. destruct (m lm) as [[a|err|] lm1]; naive_solver.
Qed.

Lemma requireM_Ok b err lm u lm' :
  require_m b err lm = (Ok u, lm') ↔ b = true ∧ lm' = lm.
Proof. destruct b, u; (split; [|by intros [? ->]]); [by intros [= ->]|done]. Qed.

Lemma liftM_Ok {A} (r : res EmErr A) lm a lm' :
  lift r lm = (Ok a, lm') ↔ r = Ok a ∧ lm' = lm.
Proof. unfold lift. split; [by intros [= -> ->]|by intros [-> ->]]. Qed.

Lemma readM_Ok {A} (f : EOTSStore → res StoreErr A) lm a lm' :
  read_store f lm = (Ok a, lm') ↔ f (es lm) = Ok a ∧ lm' = lm.
Proof.
  unfold read_store. destruct (f (es lm)); simpl; (split; [|by intros [[= ->] ->]]).
  - by intros [= -> ->].
  - done.
  - done.
Qed.

Lemma retM_Ok {A} (a b : A) lm lm' : (mret a : M A) lm = (Ok b, lm') ↔ b = a ∧ lm' = lm.
Proof. unfold mret, M_ret. split; [by intros [= -> ->]|by intros [-> ->]]. Qed.
End calls.

(** Takes apart a call that succeeded. *)
Ltac inv_m :=
  repeat match goal with
  | H : (_ ≫= _) _ = (Ok _, _) |- _ => apply bindM_Ok in H as (? & ? & ? & ?); cbv beta in *
  | H : require_m _ _ _ = (Ok _, _) |- _ => apply requireM_Ok in H as [? ?]; subst
  | H : lift _ _ = (Ok _, _) |- _ => apply liftM_Ok in H as [? ?]; subst
  | H : read_store _ _ = (Ok _, _) |- _ => apply readM_Ok in H as [? ?]; subst
  | H : mret _ _ = (Ok _, _) |- _ => apply retM_Ok in H as [? ?]; subst
  | H : throw _ _ = (Ok _, _) |- _ => by injection H
  | H : panic _ = (Ok _, _) |- _ => by injection H
  end.

(** Walks through a call. *)
Ltac walk :=
  repeat match goal with
  | |- moves _ (mbind _ _) => apply moves_bind; [typeclasses eauto| |intros ?]
  | |- moves _ (mret _) => apply moves_ret; typeclasses eauto
  | |- moves _ (lift _) => apply moves_lift; typeclasses eauto
  | |- moves _ (throw _) => apply moves_throw; typeclasses eauto
  | |- moves _ panic => apply moves_panic; typeclasses eauto
  | |- moves _ (require_m _ _) => apply moves_require; typeclasses eauto
  | |- moves _ (read_store _) => apply moves_read; typeclasses eauto
  | |- moves _ (match ?o with _ => _ end) => destruct o
  end.

Section one_message.
Local Open Scope Z_scope.
Context `{CL : CurveLaws} {SL : SignLib} {KR : Keyring} (fuel : nat).

Lemma keyring_Key_quiet n : moves quiet (keyring_Key n).
Proof. intros lm. unfold keyring_Key. by destruct (kr_Key _ _ _). Qed.

Lemma reset_quiet i : moves quiet (reset_input i).
Proof. by intros lm. Qed.
#[local] Hint Resolve keyring_Key_quiet reset_quiet : core.

Lemma getKeyFromKeyring_quiet n p : moves quiet (getKeyFromKeyring n p).
Proof. unfold getKeyFromKeyring. walk; auto. Qed.

Lemma eotsPrivKey_quiet n : moves quiet (eotsPrivKeyFromKeyName n).
Proof.
  intros lm. unfold eotsPrivKeyFromKeyName. destruct (kr_Backend (kr lm)); [| |done].
  - revert lm. change (moves quiet (k ← getKeyFromKeyring n ""%string; mret (Some k))).
    walk. apply getKeyFromKeyring_quiet.
  - revert lm. change (moves quiet (k ← getKeyFromMap n; mret (Some k))). walk. by intros lm.
Qed.

Lemma checked_key_quiet pk : moves quiet (checked_key pk).
Proof.
  unfold checked_key. walk. apply eotsPrivKey_quiet.
Qed.

Lemma LoadPubKey_quiet n : moves quiet (LoadBIP340PubKeyFromKeyName n).
Proof. unfold LoadBIP340PubKeyFromKeyName. walk; auto. Qed.

Lemma CreateRandomness_quiet uid ch s n i : moves quiet (CreateRandomnessPairList fuel uid ch s n i).
Proof. unfold CreateRandomnessPairList. walk. apply checked_key_quiet. Qed.

Lemma client_CreateRandomness_quiet uid ch s n i :
  moves quiet (client_CreateRandomnessPairList fuel uid ch s n i).
Proof.
  unfold client_CreateRandomnessPairList, rpc_CreateRandomnessPairList.
  walk. apply CreateRandomness_quiet.
Qed.

Lemma SignSchnorr_quiet pk msg : moves quiet (SignSchnorrSig pk msg).
Proof. unfold SignSchnorrSig, signSchnorrSigFromPrivKey. walk. apply checked_key_quiet. Qed.

Lemma SignSchnorrName_quiet n msg : moves quiet (SignSchnorrSigFromKeyname n msg).
Proof.
  unfold SignSchnorrSigFromKeyname, signSchnorrSigFromPrivKey.
  walk; [apply LoadPubKey_quiet|apply eotsPrivKey_quiet].
Qed.

(** Scalars survive the way through 32 bytes. *)
Lemma SetByteSlice_sc a : 0 ≤ a < order → SetByteSlice (sc_bytes a) = (a, false).
Proof.
  intros Ha. unfold SetByteSlice. rewrite take_ge.
  - by apply SetBytes_sc.
  - unfold sc_bytes. by rewrite length_be_encode.
Qed.

Lemma SetByteSlice_range b : 0 ≤ (SetByteSlice b).1 < order.
Proof. unfold SetByteSlice, SetBytes. apply mod_range. Qed.

Lemma Sign_range bl sk k msg s : Eots.Sign bl sk k msg = Ok s → 0 ≤ s < order.
Proof.
  unfold Eots.Sign, Eots.signHash. case_bool_decide; [done|].
  intros (R & _ & Hs)%bind_Ok. destruct (challenge _ _ _) as [e []]; [done|].
  injection Hs as <-. unfold sc_add. destruct (YIsOdd _), (YIsOdd R); apply mod_range.
Qed.

(** ** What signing does *)

(** The record of a signature. *)
Definition has_record (s : EOTSStore) (pk ch : bytes) (h : N) (msg : bytes) (sig : Z) : Prop :=
  ∃ r, recorded s (getSignRecordKey ch pk h) r ∧
    sr_Msg r = msg ∧ (SetByteSlice (sr_Signature r)).1 = sig.

Lemma has_record_weaken s s' pk ch h msg sig :
  (∀ k r, recorded s k r → recorded s' k r) →
  has_record s pk ch h msg sig → has_record s' pk ch h msg sig.
Proof. intros Hs (r & Hr & ?). exists r. auto. Qed.

Lemma has_record_same s pk ch h m1 s1 m2 s2 :
  has_record s pk ch h m1 s1 → has_record s pk ch h m2 s2 → m1 = m2 ∧ s1 = s2.
Proof. intros (r & Hr & <- & <-) (r' & Hr' & <- & <-). by rewrite (recorded_fun _ _ _ _ Hr Hr'). Qed.

(** The manager after a call that saved: another database. *)
Definition saved (lm : LocalEOTSManager) (s : EOTSStore) (lm' : LocalEOTSManager) : Prop :=
  kr lm' = kr lm ∧ es lm' = s ∧ privateKeys lm' = privateKeys lm.

Lemma write_cases {A} (f : EOTSStore → res StoreErr A * EOTSStore) lm :
  saved lm (f (es lm)).2 (write_store f lm).2.
Proof. unfold write_store. by destruct (f (es lm)). Qed.

(** A key that signs: its name, and that it belongs to the public key. *)
Definition uses_key (lm : LocalEOTSManager) (pk : bytes) (sk : Z) : Prop :=
  ∃ lm', checked_key pk lm = (Ok sk, lm').

(** [SignEOTS] changes nothing but, when it makes a signature, the database. *)
Lemma SignEOTS_cases e pk ch msg h lm r lm' :
  SignEOTS fuel e pk ch msg h lm = (r, lm') →
  (quiet lm lm' ∧ ∀ sig, r = Ok sig → has_record (es lm) pk ch h msg sig) ∨
  ∃ sk k sig, r = Ok sig ∧ uses_key lm pk sk ∧
    rand_loop fuel (sc_bytes sk) ch h 0%N = Some k ∧ Eots.Sign (e_blind e 0%nat) sk k msg = Ok sig ∧
    SaveSignRecordsBatch (e_commit e) (e_now e) (es lm)
      [mkBatchSignRecord h ch msg pk (sc_bytes sig)] = (Ok tt, es lm') ∧
    saved lm (es lm') lm'.
Proof.
  unfold SignEOTS. unfold mbind at 1, M_bind at 1. unfold read_store at 1.
  destruct (GetSignRecord (es lm) pk ch h) as [[rec|]|err|] eqn:Hg; cbn [map_err]; try case_bool_decide as Hm;
    [..|intros [= <- <-]; by left|intros [= <- <-]; by left].
  - intros [= <- <-]. left. split; [done|]. intros sig [= <-].
    apply GetSignRecord_recorded in Hg. by exists rec.
  - intros [= <- <-]. by left.
  - unfold mbind at 1, M_bind at 1. pose proof (checked_key_quiet pk lm) as Hq.
    destruct (checked_key pk lm) as [[sk|err|] lm1] eqn:Hk; cbn [snd] in Hq;
      [|intros [= <- <-]; by left..].
    unfold mbind at 1, M_bind at 1, lift at 1, getRandomnessPair, GenerateRandomness.
    destruct (rand_loop fuel (sc_bytes sk) ch h 0%N) as [k|] eqn:Hl; cbn -[write_store SaveSignRecord];
      [|intros [= <- <-]; by left].
    unfold mbind at 1, M_bind at 1, lift at 1.
    destruct (Eots.Sign (e_blind e 0%nat) sk k msg) as [sig|err|] eqn:Hs; cbn [map_err];
      [|intros [= <- <-]; by left..].
    unfold mbind, M_bind, write_store. destruct Hq as (Hq1 & Hq2 & Hq3).
    rewrite Hq2, SaveSignRecord_batch. destruct (SaveSignRecordsBatch _ _ _ _) as [[[]|err|] s'] eqn:Hsv; cbn [map_err].
    + intros [= <- <-]. right. exists sk, k, sig. cbn [es kr privateKeys]. split_and!; try done.
      by exists lm1.
    + intros [= <- <-]. left. split; [|done]. apply SaveSignRecordsBatch_failed in Hsv as ->; [|done].
      by unfold quiet.
    + intros [= <- <-]. left. split; [|done]. apply SaveSignRecordsBatch_failed in Hsv as ->; [|done].
      by unfold quiet.
Qed.

(** A record that the batch will save, made with the key. *)
Definition fresh_record (pk ch : bytes) (sk : Z) (rec : BatchSignRecord) : Prop :=
  br_ChainID rec = ch ∧ br_EotsPk rec = pk ∧
  ∃ k bl sig, rand_loop fuel (sc_bytes sk) ch (br_Height rec) 0%N = Some k ∧
    Eots.Sign bl sk k (br_Msg rec) = Ok sig ∧ br_Sig rec = sc_bytes sig.

(** A response: an old signature or one that will be saved. *)
Definition answered (s : EOTSStore) (pk ch : bytes) (reqs : list SignDataRequest)
    (recs : list BatchSignRecord) (x : SignDataResponse) : Prop :=
  ∃ q, q ∈ reqs ∧ rq_Height q = rs_Height x ∧ 0 ≤ rs_Signature x < order ∧
    (has_record s pk ch (rs_Height x) (rq_Msg q) (rs_Signature x) ∨
     ∃ rec, rec ∈ recs ∧ br_Height rec = rs_Height x ∧ br_Msg rec = rq_Msg q ∧
       br_Sig rec = sc_bytes (rs_Signature x)).

Lemma answered_app s pk ch reqs recs recs' x :
  answered s pk ch reqs recs x → answered s pk ch reqs (recs ++ recs') x.
Proof.
  intros (q & Hq & Hh & Hr & [H|(rec & Hin & H)]); exists q;
    (split; [done|split; [done|split; [done|]]]); [by left|].
  right. exists rec. split; [apply elem_of_app; by left|done].
Qed.

Lemma elem_of_number {A} (l : list A) i x : (i, x) ∈ number l → x ∈ l.
Proof. unfold number. apply elem_of_zip_r. Qed.

(** The loop of a batch. *)
Lemma sign_requests_spec e pk ch sk ex s reqs recs resps :
  GetSignRecordsBatch s pk ch (rq_Height <$> reqs) = Ok ex →
  fold_res (sign_request fuel e pk ch sk ex) ([], []) (number reqs) = Ok (recs, resps) →
  Forall (fresh_record pk ch sk) recs ∧ Forall (answered s pk ch reqs recs) resps.
Proof.
  intros Hex Hf. pose (P := λ acc : list BatchSignRecord * list SignDataResponse,
    Forall (fresh_record pk ch sk) acc.1 ∧ Forall (answered s pk ch reqs acc.1) acc.2).
  change (P (recs, resps)). revert Hf. apply fold_res_invariant; [|by split; constructor].
  intros [rs xs] [i q] acc Hin%elem_of_number [Hrs Hxs] Hstep. unfold P in *. cbn [fst snd] in *.
  unfold sign_request in Hstep. cbn [fst snd] in Hstep.
  pose proof (GetSignRecordsBatch_lookup _ _ _ _ _ (rq_Height q) Hex
    (list_elem_of_fmap_2 _ _ _ Hin)) as Hg.
  destruct (ex !! rq_Height q) as [rec|]; [apply GetSignRecord_recorded in Hg|clear Hg].
  - case_bool_decide as Hm; injection Hstep as <-; cbn [fst snd]; [|done].
    split; [done|]. apply Forall_app. split; [done|]. constructor; [|constructor].
    exists q. cbn. split; [done|split; [done|split; [apply SetByteSlice_range|]]].
    left. by exists rec.
  - apply bind_Ok in Hstep as ([k pr] & Hk & Hstep). apply bind_Ok in Hstep as (sig & Hs & Hstep).
    injection Hstep as <-. apply map_err_Ok in Hs.
    unfold getRandomnessPair, GenerateRandomness in Hk. apply of_option_Ok, bind_Some in Hk as (k' & Hk & [= -> _]).
    cbn [fst snd]. rewrite !Forall_app, !Forall_singleton. split_and!; [done| | |].
    + split_and!; [done..|]. by exists k, (e_blind e i), sig.
    + eapply Forall_impl; [done|]. intros x. apply answered_app.
    + exists q. cbn. split; [done|split; [done|split; [by eapply Sign_range|]]]. right.
      eexists. split; [apply elem_of_app; right; by apply list_elem_of_singleton|done].
Qed.

(** [SignBatchEOTS]: all or nothing. *)
Lemma SignBatchEOTS_cases e pk ch reqs lm r lm' :
  SignBatchEOTS fuel e pk ch reqs lm = (r, lm') →
  (quiet lm lm' ∧ ∀ resps, r ≠ Ok resps) ∨
  ∃ sk recs resps, r = Ok resps ∧ uses_key lm pk sk ∧ NoDup (rq_Height <$> reqs) ∧
    Forall (fresh_record pk ch sk) recs ∧ Forall (answered (es lm) pk ch reqs recs) resps ∧
    SaveSignRecordsBatch (e_commit e) (e_now e) (es lm) recs = (Ok tt, es lm') ∧
    saved lm (es lm') lm'.
Proof.
  unfold SignBatchEOTS. destruct (ValidateNoDuplicateHeights _) eqn:Hnd;
    [|intros [= <- <-]; by left].
  apply ValidateNoDuplicateHeights_spec in Hnd. cbn [require_m].
  unfold mbind at 1, M_bind at 1, mret at 1, M_ret at 1.
  unfold mbind at 1, M_bind at 1. pose proof (checked_key_quiet pk lm) as Hq.
  destruct (checked_key pk lm) as [[sk|err|] lm1] eqn:Hk; cbn [snd] in Hq;
    [|intros [= <- <-]; by left..].
  unfold mbind at 1, M_bind at 1, read_store at 1. destruct Hq as (Hq1 & Hq2 & Hq3). rewrite Hq2.
  destruct (GetSignRecordsBatch _ _ _ _) as [ex|err|] eqn:Hex; cbn [map_err];
    [|intros [= <- <-]; by left..].
  unfold mbind at 1, M_bind at 1, lift at 1.
  destruct (fold_res _ _ _) as [[recs resps]|err|] eqn:Hf; [|intros [= <- <-]; by left..].
  destruct (sign_requests_spec _ _ _ _ _ _ _ _ _ Hex Hf) as [Hrecs Hresps].
  unfold mbind, M_bind, write_store. rewrite Hq2.
  destruct (SaveSignRecordsBatch _ _ _ _) as [[[]|err|] s'] eqn:Hsv; cbn [map_err].
  - intros [= <- <-]. right. exists sk, recs, resps. cbn [es kr privateKeys].
    split_and!; try done. by exists lm1.
  - intros [= <- <-]. left. split; [|done]. 
    apply SaveSignRecordsBatch_failed in Hsv as ->; [|done]. by unfold quiet.
  - intros [= <- <-]. left. split; [|done]. 
    apply SaveSignRecordsBatch_failed in Hsv as ->; [|done]. by unfold quiet.
Qed.

(** ** Through the RPC server and its client *)

Lemma client_SignEOTS_eq e pk ch msg h lm :
  client_SignEOTS fuel e pk ch msg h lm = SignEOTS fuel e pk ch msg h lm.
Proof.
  unfold client_SignEOTS, rpc_SignEOTS. unfold mbind, M_bind.
  destruct (SignEOTS fuel e pk ch msg h lm) as [[sig|err|] lm'] eqn:Hs; [|done..].
  unfold mret, M_ret. rewrite SetByteSlice_sc; [done|].
  apply SignEOTS_cases in Hs as [[_ Hr]|(sk & k & sig' & [= <-] & _ & _ & Hs & _)].
  - destruct (Hr _ eq_refl) as (rec & _ & _ & <-). apply SetByteSlice_range.
  - by eapply Sign_range.
Qed.

Lemma responses_travel (xs : list SignDataResponse) :
  Forall (λ x, 0 ≤ rs_Signature x < order) xs →
  (λ resp : bytes * N, mkSignDataResponse (SetByteSlice resp.1).1 resp.2) <$>
    ((λ resp, (sc_bytes (rs_Signature resp), rs_Height resp)) <$> xs) = xs.
Proof.
  induction 1 as [|[s h] xs Hx _ IH]; [done|]. rewrite !fmap_cons, IH. f_equal.
  cbn [fst snd rs_Signature rs_Height] in *. by rewrite SetByteSlice_sc.
Qed.

Lemma client_SignBatchEOTS_cases e pk ch reqs lm r lm' :
  client_SignBatchEOTS fuel e pk ch reqs lm = (r, lm') →
  (quiet lm lm' ∧ ∀ resps, r ≠ Ok resps) ∨ SignBatchEOTS fuel e pk ch reqs lm = (r, lm').
Proof.
  intros Hc. unfold client_SignBatchEOTS, rpc_SignBatchEOTS in Hc.
  destruct (ValidateNoDuplicateHeights _) in Hc; [|injection Hc as <- <-; by left].
  cbn [require_m] in Hc. unfold mbind, M_bind, mret, M_ret in Hc.
  destruct (SignBatchEOTS fuel e pk ch reqs lm) as [[xs|err|] lm1] eqn:Hs;
    [|injection Hc as <- <-; by right..].
  right. rewrite <- Hc. f_equal. f_equal. symmetry. apply responses_travel.
  by apply SignBatchEOTS_cases in Hs as [[_ Hn]|(sk & recs & ? & [= <-] & _ & _ & _ & Ha & _)];
    [destruct (Hn xs)|eapply Forall_impl; [done|intros x (? & _ & _ & ? & _)]].
Qed.

Lemma msg_at_spec reqs q :
  NoDup (rq_Height <$> reqs) → q ∈ reqs → msg_at reqs (rq_Height q) = rq_Msg q.
Proof.
  intros Hnd Hq. unfold msg_at.
  destruct (list_find _ reqs) as [[i q']|] eqn:Hf.
  - apply list_find_Some in Hf as (Hi & Hh & _). apply list_elem_of_lookup in Hq as [j Hj].
    assert (i = j) as ->; [|by simplify_eq].
    eapply (NoDup_lookup (rq_Height <$> reqs)); [done|by rewrite list_lookup_fmap, Hi|].
    by rewrite list_lookup_fmap, Hj, Hh.
  - apply list_find_None in Hf. rewrite Forall_forall in Hf. by apply Hf in Hq.
Qed.

(** What a batch answers is on record afterwards. *)
Lemma answered_recorded c now s s' pk ch reqs recs x sk :
  SaveSignRecordsBatch c now s recs = (Ok tt, s') → Forall (fresh_record pk ch sk) recs →
  NoDup (rq_Height <$> reqs) → answered s pk ch reqs recs x →
  has_record s' pk ch (rs_Height x) (msg_at reqs (rs_Height x)) (rs_Signature x).
Proof.
  intros Hsv Hfresh Hnd (q & Hq & <- & Hr & Hrec). rewrite msg_at_spec by done.
  apply SaveSignRecordsBatch_spec in Hsv as [_ Hsv].
  destruct Hrec as [Hrec|(rec & Hin & Hh & Hm & Hsig)].
  - eapply has_record_weaken; [|done]. intros k r Hk. apply Hsv. by left.
  - rewrite Forall_forall in Hfresh. destruct (Hfresh _ Hin) as (Hch & Hpk & _).
    eexists. split; [apply Hsv; right; exists rec; split; [done|split; [|done]]|].
    + by rewrite Hch, Hpk, Hh.
    + cbn [sr_Msg sr_Signature]. rewrite Hsig. by rewrite SetByteSlice_sc.
Qed.

(** ** Calls that do not sign *)

(** The name of a key, and the private key behind a name. *)
Definition key_name (s : EOTSStore) (pk : bytes) (n : string) : Prop :=
  ∃ b, fpKeyNames s = Some b ∧ b !! pk = Some n.
Definition holds (k : kr_t) (n : string) (sk : Z) : Prop :=
  ∃ i ki rest, kr_Key k i n = (Some ki, rest) ∧ privkey_of ki = Ok sk.

(** No new record, no lost name or key, and only keys of the keyring are unlocked. *)
Record tame (lm lm' : LocalEOTSManager) : Prop := {
  tame_records : ∀ k r, recorded (es lm') k r ↔ recorded (es lm) k r;
  tame_names : ∀ pk n, key_name (es lm) pk n → key_name (es lm') pk n;
  tame_keys : ∀ n sk, holds (kr lm) n sk → holds (kr lm') n sk;
  tame_map : ∀ n sk, privateKeys lm' !! n = Some (Some sk) →
    privateKeys lm !! n = Some (Some sk) ∨ holds (kr lm') n sk;
}.

#[global] Instance tame_preorder : PreOrder tame.
Proof.
  split; [split; auto; done|]. intros a b c [R1 N1 K1 M1] [R2 N2 K2 M2]. split; [|auto..|].
  - intros k r. by rewrite R2, R1.
  - intros n sk [H|H]%M2; [|by right]. apply M1 in H as [H|H]; auto.
Qed.

Lemma quiet_tame lm lm' : quiet lm lm' → tame lm lm'.
Proof. intros (Hk & Hs & Hp). split; rewrite ?Hk, ?Hs, ?Hp; auto; done. Qed.

Lemma moves_quiet_tame {A} (m : M A) : moves quiet m → moves tame m.
Proof. apply moves_mono, quiet_tame. Qed.

Lemma SaveEOTSKeyName_tame e pk n : moves tame (SaveEOTSKeyName e pk n).
Proof.
  intros lm. unfold SaveEOTSKeyName, write_store.
  destruct (AddEOTSKeyName _ _ _ _) as [r s'] eqn:Ha. apply AddEOTSKeyName_spec in Ha as [Hr Hn].
  split; cbn; [|intros pk' n' (b & Hb & Hpk)|done|by left].
  - intros k x. unfold recorded. by rewrite Hr.
  - destruct (Hn _ Hb) as (b' & Hb' & Hsub). exists b'. split; [done|]. by eapply lookup_weaken.
Qed.

Lemma getKeyFromKeyring_holds n p lm sk lm' :
  getKeyFromKeyring n p lm = (Ok sk, lm') → holds (kr lm) n sk ∧ kr lm' = kr lm.
Proof.
  intros Hg. pose proof (getKeyFromKeyring_quiet n p lm) as (Hq & _). rewrite Hg in Hq.
  split; [|done]. unfold getKeyFromKeyring in Hg. inv_m. inv_ok.
  match goal with H : keyring_Key n _ = _ |- _ => unfold keyring_Key in H; rename H into Hk end.
  match goal with H : reset_input p lm = _ |- _ => injection H as <- end. cbn [kr input] in Hk.
  destruct (kr_Key _ _ n) as [o rest] eqn:Hkr in Hk. simplify_eq. by eexists _, _, _.
Qed.

Lemma Unlock_tame pk p : moves tame (Unlock pk p).
Proof.
  intros lm. unfold Unlock, mbind, M_bind, read_store.
  destruct (GetEOTSKeyName (es lm) pk) as [n|err|]; cbn [map_err]; [|done..].
  pose proof (getKeyFromKeyring_quiet n p lm) as Hq.
  destruct (getKeyFromKeyring n p lm) as [[sk|err|] lm1] eqn:Hg; cbn [snd] in Hq;
    [|by apply quiet_tame..].
  etrans; [apply quiet_tame; exact Hq|]. unfold keep_key.
  destruct (privateKeys lm1 !! n) eqn:Hn; [done|]. split; cbn [snd kr es privateKeys]; [done..|].
  intros n' sk' [[<- [= <-]]|[_ ?]]%lookup_insert_Some; [right|by left].
  apply getKeyFromKeyring_holds in Hg as [Hg ->]. done.
Qed.

Lemma keyring_New_tame {KL : KeyringLaws KR} n m : moves tame (keyring_NewAccount n m).
Proof.
  intros lm. unfold keyring_NewAccount. destruct (kr_NewAccount _ _ _ _) as [[k'|] rest] eqn:Hn;
    [|by apply quiet_tame].
  split; cbn [snd kr es privateKeys]; [done|done| |by left].
  intros n' sk (i & ki & r & Hk & Hp). destruct (kr_New_keeps _ _ _ _ _ _ Hn _ _ _ _ Hk) as [r' ?].
  by exists i, ki, r'.
Qed.

Lemma CreateKey_tame {KL : KeyringLaws KR} e n m p : moves tame (CreateKeyWithMnemonic e n m p).
Proof.
  intros lm. unfold CreateKeyWithMnemonic.
  match goal with |- tame _ (?f lm).2 => enough (moves tame f) by auto end.
  walk; auto using moves_quiet_tame, SaveEOTSKeyName_tame, keyring_New_tame, LoadPubKey_quiet.
  unfold keyExists. walk. auto using moves_quiet_tame.
Qed.

Lemma restart_tame e lm : tame lm (restart e lm).
Proof.
  unfold restart, NewLocalEOTSManager, NewEOTSStore.
  destruct (initBuckets _ _) as [r s'] eqn:Hi. apply initBuckets_spec in Hi as [Hr Hn].
  assert (tame lm (mkManager (kr lm) s' ""%string ∅)) as Ht.
  { split; cbn; [done| |done|done]. intros pk n (b & Hb & Hpk).
    destruct (Hn _ Hb) as (b' & Hb' & Hsub). exists b'. split; [done|]. by eapply lookup_weaken. }
  by destruct r.
Qed.

(** ** All calls *)

(** A call that signs adds records made with one key. *)
Definition signing (lm lm' : LocalEOTSManager) : Prop :=
  ∃ pk ch sk now recs, uses_key lm pk sk ∧ kr lm' = kr lm ∧ privateKeys lm' = privateKeys lm ∧
    fpKeyNames (es lm') = fpKeyNames (es lm) ∧ Forall (fresh_record pk ch sk) recs ∧
    ∀ k r, recorded (es lm') k r ↔ recorded (es lm) k r ∨ ∃ rec, rec ∈ recs ∧ saved_as now rec k r.

Definition on_record (lm : LocalEOTSManager) (o : Signed) : Prop :=
  has_record (es lm) (g_Pk o) (g_Chain o) (g_Height o) (g_Msg o) (g_Sig o).

Lemma SignEOTS_signing e pk ch msg h lm r lm' :
  SignEOTS fuel e pk ch msg h lm = (r, lm') →
  (tame lm lm' ∨ signing lm lm') ∧ ∀ sig, r = Ok sig → has_record (es lm') pk ch h msg sig.
Proof.
  intros [[Hq Hr]|(sk & k & sig & -> & Hk & Hl & Hs & Hsv & Hkr & _ & Hp)]%SignEOTS_cases.
  - split; [left; by apply quiet_tame|]. destruct Hq as (_ & -> & _). done.
  - apply SaveSignRecordsBatch_spec in Hsv as [Hn Hsv]. split.
    + right. exists pk, ch, sk, (e_now e), [mkBatchSignRecord h ch msg pk (sc_bytes sig)].
      split_and!; try done. constructor; [|done]. split_and!; [done..|].
      by exists k, (e_blind e 0%nat), sig.
    + intros ? [= <-]. eexists. split; [apply Hsv; right; eexists; split; [by left|done]|].
      cbn [sr_Msg sr_Signature br_Sig br_Msg]. split; [done|].
      rewrite SetByteSlice_sc; [done|]. by eapply Sign_range.
Qed.

Lemma SignBatch_signing e pk ch reqs lm r lm' :
  client_SignBatchEOTS fuel e pk ch reqs lm = (r, lm') →
  (tame lm lm' ∨ signing lm lm') ∧ ∀ resps x, r = Ok resps → x ∈ resps →
    has_record (es lm') pk ch (rs_Height x) (msg_at reqs (rs_Height x)) (rs_Signature x).
Proof.
  intros Hc. assert ((quiet lm lm' ∧ ∀ resps, r ≠ Ok resps) ∨
    SignBatchEOTS fuel e pk ch reqs lm = (r, lm')) as [[Hq Hr]|Hs]
    by by apply client_SignBatchEOTS_cases in Hc.
  { split; [left; by apply quiet_tame|]. intros resps x Hx. by destruct (Hr resps). }
  apply SignBatchEOTS_cases in Hs as [[Hq Hr]|(sk & recs & resps & -> & Hk & Hnd & Hfr & Ha & Hsv & Hkr & _ & Hp)].
  { split; [left; by apply quiet_tame|]. intros resps x Hx. by destruct (Hr resps). }
  split.
  - right. destruct (SaveSignRecordsBatch_spec _ _ _ _ _ Hsv) as [Hn Hsv'].
    by exists pk, ch, sk, (e_now e), recs.
  - intros ? x [= <-] Hx. rewrite Forall_forall in Ha. eapply answered_recorded; eauto.
Qed.

Context {KL : KeyringLaws KR}.

Lemma handle_cases setting e c lm outs lm' :
  IsUnsafeEndpointsDisabled setting = true → handle fuel setting e c lm = (outs, lm') →
  (tame lm lm' ∨ signing lm lm') ∧ Forall (on_record lm') outs.
Proof.
  intros Hdis. destruct c; cbn [handle]; try (intros [= <- <-]; split; [left|done]).
  - by apply CreateKey_tame.
  - revert lm. change (moves tame (rpc_SaveEOTSKeyName e eotsPk keyName)).
    unfold rpc_SaveEOTSKeyName. walk. apply SaveEOTSKeyName_tame.
  - by apply Unlock_tame.
  - apply quiet_tame, client_CreateRandomness_quiet.
  - rewrite client_SignEOTS_eq. destruct (SignEOTS _ _ _ _ _ _ _) as [r lm1] eqn:Hs.
    apply SignEOTS_signing in Hs as [Ht Hr].
    destruct r; intros [= <- <-]; (split; [done|]); [|done..]. constructor; [|done]. by apply Hr.
  - unfold rpc_UnsafeSignEOTS. rewrite Hdis. intros [= <- <-]. by split; [left|].
  - destruct (client_SignBatchEOTS _ _ _ _ _ _) as [r lm1] eqn:Hs.
    apply SignBatch_signing in Hs as [Ht Hr].
    destruct r; intros [= <- <-]; (split; [done|]); [|done..].
    apply Forall_fmap, Forall_forall. intros x Hx. by eapply Hr.
  - apply quiet_tame, SignSchnorr_quiet.
  - apply quiet_tame, SignSchnorrName_quiet.
  - apply restart_tame.
Qed.

Lemma handle_keeps setting e c lm outs lm' k r :
  IsUnsafeEndpointsDisabled setting = true → handle fuel setting e c lm = (outs, lm') →
  recorded (es lm) k r → recorded (es lm') k r.
Proof.
  intros Hdis Hh Hk. destruct (handle_cases _ _ _ _ _ _ Hdis Hh)
    as [[Ht|(pk & ch & sk & now & recs & _ & _ & _ & _ & _ & Hr)] _].
  - by apply (tame_records _ _ Ht).
  - apply Hr. by left.
Qed.

(** Everything that was ever given out is on record. *)
Lemma run_on_record setting cs lm outs lm' :
  IsUnsafeEndpointsDisabled setting = true → run fuel setting cs lm = (outs, lm') →
  (∀ k r, recorded (es lm) k r → recorded (es lm') k r) ∧ Forall (on_record lm') outs.
Proof.
  intros Hdis. revert lm outs. induction cs as [|[e c] cs IH]; intros lm outs; cbn [run].
  { intros [= <- <-]. done. }
  destruct (handle _ _ _ _ _) as [o1 lm1] eqn:Hh. destruct (run _ _ _ _) as [o2 lm2] eqn:Hr.
  intros [= <- <-]. destruct (IH _ _ Hr) as [Hk Ho2].
  destruct (handle_cases _ _ _ _ _ _ Hdis Hh) as [_ Ho1]. split.
  - intros k r Hrec. eapply Hk, handle_keeps; eauto.
  - apply Forall_app. split; [|done]. eapply Forall_impl; [done|].
    intros o. by apply has_record_weaken.
Qed.

(** The signing daemon signs one message per key, chain and height.  Whatever its
    database holds at the start, and whatever calls its clients make, in whatever order,
    with restarts, failing transactions and new keys in between: as long as the unsafe
    endpoint is disabled, any two signatures given out for the same key, chain and height
    are the same signature of the same message. *)
Theorem one_message_per_height setting cs lm o1 o2 :
  IsUnsafeEndpointsDisabled setting = true →
  o1 ∈ (run fuel setting cs lm).1 → o2 ∈ (run fuel setting cs lm).1 →
  g_Pk o1 = g_Pk o2 → g_Chain o1 = g_Chain o2 → g_Height o1 = g_Height o2 →
  g_Msg o1 = g_Msg o2 ∧ g_Sig o1 = g_Sig o2.
Proof.
  destruct (run fuel setting cs lm) as [outs lm'] eqn:Hr. intros Hdis H1 H2 Hpk Hch Hh.
  destruct (run_on_record _ _ _ _ _ Hdis Hr) as [_ Ho]. rewrite Forall_forall in Ho.
  apply Ho in H1, H2. unfold on_record in *. rewrite Hpk, Hch, Hh in H1.
  by eapply has_record_same.
Qed.

(** Once a signature was given out its height is closed: in every later state the
    same request is answered with the same signature and changes nothing, and a request
    to sign anything else is refused as a double sign. *)
Theorem signed_heights_are_closed setting cs lm o cs' e msg lm2 :
  IsUnsafeEndpointsDisabled setting = true → o ∈ (run fuel setting cs lm).1 →
  lm2 = (run fuel setting cs' (run fuel setting cs lm).2).2 →
  SignEOTS fuel e (g_Pk o) (g_Chain o) msg (g_Height o) lm2 =
  if bool_decide (msg = g_Msg o) then (Ok (g_Sig o), lm2) else (Err ErrDoubleSign, lm2).
Proof.
  intros Hdis Ho ->. destruct (run fuel setting cs lm) as [outs lm1] eqn:Hr1. cbn [fst snd] in *.
  destruct (run fuel setting cs' lm1) as [outs2 lm2] eqn:Hr2. cbn [snd].
  destruct (run_on_record _ _ _ _ _ Hdis Hr1) as [_ Ho1]. rewrite Forall_forall in Ho1.
  destruct (run_on_record _ _ _ _ _ Hdis Hr2) as [Hk _].
  assert (on_record lm2 o) as (r & Hrec & Hm & Hs)
    by (eapply has_record_weaken; [exact Hk|by apply Ho1]).
  apply GetSignRecord_recorded in Hrec. unfold SignEOTS, mbind, M_bind, read_store.
  rewrite Hrec. cbn [map_err]. rewrite Hm. case_bool_decide; [|done]. by rewrite <- Hs.
Qed.

(** ** Where the records come from *)

(** A record was made with the key of its name and the nonce of its height. *)
Definition made (lm : LocalEOTSManager) (k : bytes) (r : SigningRecord) : Prop :=
  ∃ pk ch h n sk x bl s, k = getSignRecordKey ch pk h ∧ key_name (es lm) pk n ∧
    holds (kr lm) n sk ∧ SerializePubKey (ScalarBaseMult sk) = pk ∧
    rand_loop fuel (sc_bytes sk) ch h 0%N = Some x ∧
    Eots.Sign bl sk x (sr_Msg r) = Ok s ∧ sr_Signature r = sc_bytes s.

Record inv (lm : LocalEOTSManager) : Prop := {
  inv_map : ∀ n sk, privateKeys lm !! n = Some (Some sk) → holds (kr lm) n sk;
  inv_rec : ∀ k r, recorded (es lm) k r → made lm k r;
}.

Lemma inv_start lm :
  privateKeys lm = ∅ → (∀ k r, ¬ recorded (es lm) k r) → inv lm.
Proof. intros Hp Hr. split; [rewrite Hp; done|]. intros k r Hk. by destruct (Hr k r). Qed.

Lemma uses_key_inv lm pk sk : inv lm → uses_key lm pk sk →
  ∃ n, key_name (es lm) pk n ∧ holds (kr lm) n sk ∧ SerializePubKey (ScalarBaseMult sk) = pk.
Proof.
  intros Hi (lm' & Hk). unfold checked_key in Hk. inv_m.
  match goal with H : GetEOTSKeyName _ _ = Ok ?x |- _ => rename H into Hn, x into n end.
  unfold GetEOTSKeyName in Hn. apply bind_Ok in Hn as (b & Hb%of_option_Ok & Hn%of_option_Ok).
  match goal with H : eotsPrivKeyFromKeyName _ _ = (Ok ?o, _) |- _ =>
    rename H into He; destruct o as [sk'|]; [|by inv_m] end.
  inv_m. match goal with H : bool_decide _ = true |- _ => apply bool_decide_eq_true in H as <- end.
  exists n. split; [by exists b|]. split; [|done].
  unfold eotsPrivKeyFromKeyName in He. destruct (kr_Backend _); [| |done].
  - inv_m. simplify_eq. by eapply getKeyFromKeyring_holds.
  - unfold getKeyFromMap in He. inv_m. apply (inv_map _ Hi).
    by destruct (privateKeys _ !! n) as [[?|]|]; simplify_eq.
Qed.

Lemma made_tame lm lm' k r : tame lm lm' → made lm k r → made lm' k r.
Proof.
  intros Ht (pk & ch & h & n & sk & x & bl & s & -> & Hn & Hh & H).
  exists pk, ch, h, n, sk, x, bl, s. split_and!; try apply H; [done| |].
  - by apply (tame_names _ _ Ht).
  - by apply (tame_keys _ _ Ht).
Qed.

Lemma inv_step lm lm' : inv lm → tame lm lm' ∨ signing lm lm' → inv lm'.
Proof.
  intros Hi [Ht|(pk & ch & sk & now & recs & Huse & Hkr & Hp & Hn & Hfr & Hr)].
  - split.
    + intros n sk [H|H]%(tame_map _ _ Ht); [|done]. by apply (tame_keys _ _ Ht), Hi.
    + intros k r H%(tame_records _ _ Ht). eapply made_tame; [done|]. by apply Hi.
  - split; [rewrite Hp, Hkr; apply Hi|]. intros k r.
    assert (∀ pk n, key_name (es lm) pk n → key_name (es lm') pk n) as Hnames
      by (unfold key_name; by rewrite Hn).
    intros [Hk|(rec & Hin & -> & ->)]%Hr.
    + destruct (inv_rec _ Hi _ _ Hk) as (pk' & ch' & h & n & sk' & x & bl & s & -> & Hn' & Hh & H).
      exists pk', ch', h, n, sk', x, bl, s. rewrite Hkr. split_and!; try apply H; by auto.
    + destruct (uses_key_inv _ _ _ Hi Huse) as (n & Hname & Hh & Hpk).
      rewrite Forall_forall in Hfr. destruct (Hfr _ Hin) as (-> & -> & x & bl & s & Hx & Hs & Hsig).
      exists pk, ch, (br_Height rec), n, sk, x, bl, s. rewrite Hkr. cbn [sr_Msg sr_Signature].
      split_and!; auto.
Qed.

Lemma inv_run setting cs lm :
  IsUnsafeEndpointsDisabled setting = true → inv lm → inv (run fuel setting cs lm).2.
Proof.
  intros Hdis. revert lm. induction cs as [|[e c] cs IH]; intros lm Hi; cbn [run]; [done|].
  destruct (handle _ _ _ _ _) as [o1 lm1] eqn:Hh.
  destruct (handle_cases _ _ _ _ _ _ Hdis Hh) as [Hstep _].
  assert (inv lm1) as Hi1 by by eapply inv_step.
  apply IH in Hi1. by destruct (run _ _ _ _).
Qed.

(** ** Nonces *)

Lemma rand_sample_range key ch h i k : rand_sample key ch h i = Some k → 0 < k < order.
Proof.
  unfold rand_sample. destruct (SetByteSlice _) as [z o] eqn:Hz.
  pose proof (SetByteSlice_range (hmac_sha256 key (rand_input ch h i))) as Hr.
  rewrite Hz in Hr. cbn [fst] in Hr.
  destruct o; [done|]. destruct (Z.eqb_spec z 0); cbn; [done|]. intros [= <-]. lia.
Qed.

Lemma rand_loop_sample f key ch h i k :
  rand_loop f key ch h i = Some k → ∃ j, rand_sample key ch h j = Some k.
Proof.
  revert i. induction f as [|f IH]; intros i; cbn [rand_loop]; [done|].
  destruct (rand_sample key ch h i) as [k'|] eqn:Hs; [|apply IH].
  intros [= <-]. by exists i.
Qed.

(** More rounds do not change the nonce. *)
Lemma rand_loop_mono f f' key ch h i k :
  (f ≤ f')%nat → rand_loop f key ch h i = Some k → rand_loop f' key ch h i = Some k.
Proof.
  revert f' i. induction f as [|f IH]; intros f' i Hle; cbn [rand_loop]; [done|].
  destruct f' as [|f']; [lia|]. cbn [rand_loop].
  destruct (rand_sample key ch h i); [done|]. apply IH. lia.
Qed.

(** The loop ends at the first accepted sample, so it ends when there is one. *)
Lemma rand_loop_total (m : nat) key ch h i :
  rand_sample key ch h (Nat.iter m (λ x, u64_add x 1) i) ≠ None →
  is_Some (rand_loop (S m) key ch h i).
Proof.
  revert i. induction m as [|m IH]; intros i Hs; cbn [rand_loop].
  - change (Nat.iter 0 (λ x, u64_add x 1) i) with i in Hs.
    by destruct (rand_sample key ch h i).
  - destruct (rand_sample key ch h i); [done|]. apply IH. by rewrite Nat.iter_succ_r in Hs.
Qed.

(** ** The randomness that is given out *)

Lemma holds_same k n sk1 sk2 : holds k n sk1 → holds k n sk2 → sk1 = sk2.
Proof.
  intros (i & ki & ri & Hi & Hp1) (j & kj & rj & Hj & Hp2).
  rewrite (kr_Key_same k i j n ki kj ri rj Hi Hj), Hp2 in Hp1. by injection Hp1.
Qed.

Lemma key_name_same s pk n1 n2 : key_name s pk n1 → key_name s pk n2 → n1 = n2.
Proof. intros (b1 & Hb1 & Hn1) (b2 & Hb2 & Hn2). rewrite Hb1 in Hb2. injection Hb2 as <-. congruence. Qed.

Lemma privkey_range ki sk : privkey_of ki = Ok sk → 0 < sk < order.
Proof.
  unfold privkey_of. destruct ki as [key| |]; [|done..]. intros Hk.
  apply require_bind_Ok in Hk as [Hv Hk].
  assert (sk = (SetByteSlice key).1) as -> by (unfold mret, res_ret in Hk; congruence).
  unfold ValidatePrivKeyBytes in Hv. pose proof (SetByteSlice_range key) as Hr.
  destruct (SetByteSlice key) as [z o]. cbn [fst] in *. destruct o; [done|].
  destruct (Z.eqb_spec z 0); [done|]. lia.
Qed.

(** The height enters as 8 bytes. *)
Lemma rand_loop_height f key ch h1 h2 i :
  Uint64ToBigEndian h1 = Uint64ToBigEndian h2 → rand_loop f key ch h1 i = rand_loop f key ch h2 i.
Proof.
  intros Hh. revert i. induction f as [|f IH]; intros i; [done|]. cbn [rand_loop].
  unfold rand_sample, rand_input. rewrite Hh. by rewrite IH.
Qed.

(** The list of public randomness, place by place. *)
Lemma rand_list_lookup sk ch (f : N → N) l prs :
  fold_res (λ prList i, '(_, pubRand) ← getRandomnessPair fuel sk ch (f i); mret (prList ++ [pubRand]))
    [] l = Ok prs →
  ∀ j i, l !! j = Some i → ∃ k, rand_loop fuel (sc_bytes sk) ch (f i) 0%N = Some k ∧
    prs !! j = Some (X (ScalarBaseMult k)).
Proof.
  revert prs. induction l as [|x l IH] using rev_ind; intros prs Hf j i Hj; [done|].
  rewrite fold_res_app in Hf. apply bind_Ok in Hf as (prs0 & Hf & Hx). cbn [fold_res] in Hx.
  apply bind_Ok in Hx as (prs1 & Hx & Hx'). injection Hx' as <-.
  apply bind_Ok in Hx as ([k r] & Hr & Hx). injection Hx as <-.
  assert (length prs0 = length l) as Hlen.
  { clear -Hf. revert prs0 Hf. induction l as [|y l IHl] using rev_ind; intros prs0 Hf.
    - by injection Hf as <-.
    - rewrite fold_res_app in Hf. apply bind_Ok in Hf as (prs2 & Hf & Hy). cbn [fold_res] in Hy.
      apply bind_Ok in Hy as (prs3 & Hy & Hy'). injection Hy' as <-.
      apply bind_Ok in Hy as ([k' r'] & _ & Hy). injection Hy as <-. rewrite !length_app, (IHl _ Hf). done. }
  apply lookup_app_Some in Hj as [Hj|[Hge Hj]].
  - destruct (IH _ Hf j i Hj) as (k' & Hk' & Hp). exists k'. split; [done|]. by apply lookup_app_l_Some.
  - apply list_lookup_singleton_Some in Hj as [Hj <-].
    apply of_option_Ok in Hr. unfold GenerateRandomness in Hr. apply bind_Some in Hr as (k' & Hk' & Hr).
    injection Hr as <- <-. exists k'. split; [done|]. rewrite lookup_app_r by lia. rewrite Hlen, Hj. done.
Qed.

(** A signature made with a key and a nonce verifies under both. *)
Lemma made_verifies bl sk k msg s :
  0 < sk < order → 0 < k < order → Eots.Sign bl sk k msg = Ok s →
  ∃ P, ParsePubKey (SerializePubKey (ScalarBaseMult sk)) = Some P ∧
    Eots.Verify P (X (ScalarBaseMult k)) msg s = Ok tt.
Proof.
  intros Hsk Hk Hs. assert (∀ z, 0 < z < order → ScalarBaseMult z ≠ Infinity) as Hnz.
  { intros z Hz Hi. apply base_Infinity in Hi. apply eqm_small in Hi; lia. }
  assert (∃ b, bl = Some b) as [b ->].
  { destruct bl as [b|]; [by exists b|]. unfold Eots.Sign, Eots.signHash in Hs.
    case_bool_decide; [done|]. done. }
  pose proof (Eots.honest_signatures_verify b sk k msg (Hnz _ Hsk) (Hnz _ Hk) ltac:(lia)) as Hv.
  cbv zeta in Hv. rewrite Hs in Hv. unfold Eots.Verify, Eots.verifyHash in Hv |- *. unfold Eots.PubGen in Hv.
  destruct (ParsePubKey (SerializePubKey (ScalarBaseMult sk))) as [P|] eqn:HP; [|done].
  exists P. split; [done|]. apply ParsePubKey_Some in HP as HP'. destruct HP' as (_ & _ & Heq).
  unfold SerializePubKey in *. rewrite <- Heq, HP. exact Hv.
Qed.

(** C40: Signing is safe and useful. From an empty database on, whatever calls the clients of
    the daemon make, in whatever order, with restarts, failing transactions and new keys
    in between, and with the unsafe endpoint disabled: any two signatures given out for
    the same key, chain and height are the same signature of the same message, and every
    signature given out verifies, under its key, with the public randomness that the
    daemon lists for its height at any later time.  Deleting records is not a call of
    clients but an operator's command and is left out; the keys of the keyring change
    only through the daemon.  The loop that derives a nonce gets any number [fuel] of
    rounds, and a call that runs out of them gives out nothing. *)
Theorem daemon_signs_once setting cs lm outs lm' :
  IsUnsafeEndpointsDisabled setting = true →
  privateKeys lm = ∅ → (∀ k r, ¬ recorded (es lm) k r) →
  run fuel setting cs lm = (outs, lm') →
  (∀ o1 o2, o1 ∈ outs → o2 ∈ outs →
     g_Pk o1 = g_Pk o2 → g_Chain o1 = g_Chain o2 → g_Height o1 = g_Height o2 →
     g_Msg o1 = g_Msg o2 ∧ g_Sig o1 = g_Sig o2) ∧
  (∀ o start num interval prs lm2 i, o ∈ outs →
     CreateRandomnessPairList fuel (g_Pk o) (g_Chain o) start num interval lm' = (Ok prs, lm2) →
     (i < num)%N → rand_height interval start i = g_Height o →
     ∃ P r, ParsePubKey (g_Pk o) = Some P ∧ prs !! N.to_nat i = Some r ∧
       Eots.Verify P r (g_Msg o) (g_Sig o) = Ok tt).
Proof.
  intros Hdis Hp Hr Hrun. pose proof (inv_run setting cs lm Hdis (inv_start _ Hp Hr)) as Hi.
  rewrite Hrun in Hi. cbn [snd] in Hi.
  destruct (run_on_record _ _ _ _ _ Hdis Hrun) as [_ Ho]. rewrite Forall_forall in Ho. split.
  { intros o1 o2. pose proof (one_message_per_height setting cs lm o1 o2 Hdis) as Hone.
    rewrite Hrun in Hone. exact Hone. }
  intros o start num interval prs lm2 i Hin Hc Hlt Hheight. unfold CreateRandomnessPairList in Hc. inv_m.
  match goal with H : getEOTSPrivKey _ _ = (Ok ?x, _) |- _ => rename H into Hkey, x into sk end.
  assert (uses_key lm' (g_Pk o) sk) as Huse.
  { unfold getEOTSPrivKey in Hkey. by eexists. }
  destruct (uses_key_inv _ _ _ Hi Huse) as (n & Hn & Hh & Hpk).
  match goal with H : fold_res _ _ _ = Ok prs |- _ => rename H into Hf end.
  destruct (rand_list_lookup sk (g_Chain o) (rand_height interval start) _ _ Hf (N.to_nat i) i) as (k & Hk & Hlook).
  { rewrite list_lookup_fmap, lookup_seq_lt by lia. simpl. f_equal. lia. }
  rewrite Hheight in Hk.
  destruct (Ho _ Hin) as (r & Hrec & Hm & Hs).
  destruct (inv_rec _ Hi _ _ Hrec) as (pk & ch & h & n' & sk' & k' & bl & s & Heq & Hn' & Hh' & Hpk' & Hk' & Hsign & Hsig).
  assert (length pk = length (g_Pk o)) as Hlen.
  { rewrite <- Hpk', <- Hpk. unfold SerializePubKey, field_bytes. by rewrite !length_be_encode. }
  unfold getSignRecordKey in Heq. rewrite !app_assoc in Heq.
  apply app_inj_2 in Heq as [Heq Hhb]; [|unfold Uint64ToBigEndian; by rewrite !length_be_encode].
  apply app_inj_2 in Heq as [Hch Hpks]; [|done]. rewrite <- Hpks in Hn'. rewrite <- Hch in Hk'.
  rewrite (key_name_same _ _ _ _ Hn' Hn) in Hh'. rewrite (holds_same _ _ _ _ Hh' Hh) in Hk', Hsign.
  rewrite (rand_loop_height _ _ _ _ _ _ (eq_sym Hhb)), Hk in Hk'. injection Hk' as <-.
  assert (0 < sk < order) as Hskr by (destruct Hh as (? & ki & ? & _ & Hpr); by eapply privkey_range).
  assert (0 < k < order) as Hkr by (apply rand_loop_sample in Hk as (j & Hj); by eapply rand_sample_range).
  destruct (made_verifies _ _ _ _ _ Hskr Hkr Hsign) as (P & HP & Hv). rewrite Hpk in HP.
  exists P, (X (ScalarBaseMult k)). split_and!; [done..|].
  rewrite <- Hm, <- Hs, Hsig, SetByteSlice_sc by (by eapply Sign_range). exact Hv.
Qed.
End one_message.

(** ** A run *)
Module Examples.

(** The curve with seven points and hashes that are nonces. *)
#[local] Instance small_curve : Curve := {|
  point := Toy.T7;
  order := 7;
  field_prime := 11;
  Infinity := Toy.P0;
  ScalarBaseMult := Toy.of_Z;
  ScalarMult a p := Toy.of_Z (a * Toy.to_Z p);
  AddPoints p q := Toy.of_Z (Toy.to_Z p + Toy.to_Z q);
  NegateY p := Toy.of_Z (- Toy.to_Z p);
  X := Toy.toy_X;
  YIsOdd := Toy.toy_odd;
  ParsePubKey := Toy.toy_lift;
  ParseJacobian := Toy.toy_parse;
  InverseNonConst a := (a ^ 5)%Z;
  TaggedHash _ m := be_encode 32 (Toy.byte_sum m mod 7);
  Sum256 m := be_encode 32 (1 + Toy.byte_sum m mod 6);
|}.

#[local] Instance small_laws : CurveLaws small_curve.
Proof. destruct Toy.laws. by constructor. Qed.

Definition key : bytes := be_encode 32 3.
Definition pk : bytes := SerializePubKey (ScalarBaseMult 3).

(** A keyring with one key, behind no passphrase. *)
#[local] Instance one_key : Keyring := {|
  kr_t := unit;
  kr_Backend _ := BackendTest;
  kr_Key _ i n := (if bool_decide (n = "fp"%string) then Some (LocalSecp256k1 key) else None, i);
  kr_NewAccount _ i _ _ := (None, i);
  kr_GetPubKey _ := None;
|}.
#[local] Instance one_key_laws : KeyringLaws one_key.
Proof.
  split.
  - intros k i j n ki kj ri rj. cbn. case_bool_decide; intros [= <- _] [= <- _]; done.
  - intros k i n m k' rest. done.
Qed.
#[local] Instance no_schnorr : SignLib := {| BtcecParsePubKey _ := None; SchnorrSign _ _ := None |}.

Definition lm0 : LocalEOTSManager := mkManager tt (mkEOTSStore (Some {[pk := "fp"%string]}) (Some ∅)) "" ∅.
Definition env : Env := mkEnv true 0 (λ _, Some []).
Definition chain : bytes := [x01].
(** Block 5 is signed, a fork of it is asked for, also in a batch, and the daemon restarts. *)
Definition calls : list (Env * Call) :=
  [(env, CSign pk chain [x05] 5); (env, CSign pk chain [x06] 5); (env, CRestart);
   (env, CSignBatch pk chain [mkSignDataRequest [x07] 5; mkSignDataRequest [x07] 6]);
   (env, CUnsafeSign pk chain [x08] 5); (env, CSign pk chain [x05] 5)].
Definition result := run 3 None calls lm0.

Lemma daemon_signs_once_witness :
  (λ o, (g_Height o, g_Msg o)) <$> result.1 = [(5%N, [x05]); (6%N, [x07]); (5%N, [x05])] ∧
  ∃ o P r, last result.1 = Some o ∧ ParsePubKey pk = Some P ∧
    Eots.Verify P r (g_Msg o) (g_Sig o) = Ok tt.
Proof.
  split; [vm_compute; reflexivity|].
  destruct (CreateRandomnessPairList 3 pk chain 4 3 None result.2) as [rp lm2] eqn:Hc.
  assert (is_ok rp = true) as Hok by (apply (f_equal fst) in Hc; cbn [fst] in Hc; rewrite <- Hc; vm_compute; reflexivity).
  destruct rp as [prs| |]; [|done..].
  destruct (last result.1) as [o|] eqn:Ho; [|by vm_compute in Ho].
  destruct (daemon_signs_once 3 (CL := small_laws) (KL := one_key_laws) None calls lm0 result.1 result.2) as [_ Hv].
  - reflexivity.
  - reflexivity.
  - intros k r (b & Hb & Hr). cbn [lm0 es signRecord] in Hb. injection Hb as <-.
    by rewrite lookup_empty in Hr.
  - unfold result. by destruct (run 3 None calls lm0).
  - assert (∃ o', last result.1 = Some o' ∧ g_Pk o' = pk ∧ g_Chain o' = chain ∧ g_Height o' = 5%N)
      as (o' & Ho' & Hpk & Hch & Hh) by (eexists; split; [vm_compute; reflexivity|split_and!; vm_compute; reflexivity]).
    rewrite Ho in Ho'. injection Ho' as <-.
    destruct (Hv o 4%N 3%N None prs lm2 1%N) as (P & r & HP & _ & Hver).
    + apply last_Some in Ho as [l Hl]. rewrite Hl. apply elem_of_app. right. by left.
    + by rewrite Hpk, Hch.
    + done.
    + rewrite Hh. vm_compute. reflexivity.
    + exists o, P, r. rewrite Hpk in HP. split_and!; [done|exact HP|exact Hver].
Defined.
End Examples.
End EotsManagerSpec.
