(* ===== verification/System.v ===== *)
(** The checkpointing subsystem put together.

    x/btclightclient and x/checkpointing implement the interfaces x/btccheckpoint
    is proved against: [lc_keeper] and [ck_keeper] are their keepers, [lc_laws]
    and [ck_laws] discharge the laws.  The hooks of x/btccheckpoint are registered
    with the light client next to those of other modules, as in
    [src/anon/app/keepers/keepers.go].  The theorems follow a block: headers
    arrive, the end of the block settles the epochs on the new chain, and only a
    reorganisation below a finalised submission stops the chain. *)
From stdpp Require Import base numbers list sorting gmap strings.
From S2P Require Import Prelude KVStore Bytes Btcd BtcTxFormatter.
From S2P Require Import BtcUtils BtcLightClient BtcLightClientKeeper BtcLightClientSpec Epoching.
From S2P Require Import Checkpointing CheckpointingProposal BtcCheckpoint BtcCheckpointSpec.

Module System.
Import BtcLightClient BtcLightClientKeeper BtcLightClientSpec.

(** ** x/btclightclient as seen by x/btccheckpoint *)

Section light_client.
Context `{B : Btcd}.

Definition lc_keeper : BtcCheckpoint.BTCLightClientKeeper := {|
  BtcCheckpoint.LightClient := headersState;
  BtcCheckpoint.lc_MainChainDepth := MainChainDepth;
|}.

(** The stores hold a well-formed chain whose heights fit 32 bits. *)
Definition holds_chain (s : headersState) (c : list BTCHeaderInfo) : Prop :=
  s = store_of c ∧ wf_chain c ∧ (base c + N.of_nat (length c) < 2 ^ 32)%N.

Definition lc_laws : BtcCheckpointSpec.BTCLightClientLaws (H := lc_keeper).
Proof.
  refine {| BtcCheckpointSpec.lc_ok (s : @BtcCheckpoint.LightClient lc_keeper) :=
              ∃ c, holds_chain s c |}.
  - intros s [h|] (c & -> & Hc & Hb); [|done].
    change (MainChainDepth (store_of c) (Some h) ≠ Panic).
    rewrite MainChainDepth_store by (done || by apply wf_consecutive || apply Hc).
    by destruct (find_hash c h) as [[]|].
  - intros s [h|] d (c & -> & Hc & Hb); [|done].
    change (MainChainDepth (store_of c) (Some h) = Ok d → (d < max_u32)%N).
    rewrite MainChainDepth_store by (done || by apply wf_consecutive || apply Hc).
    destruct (find_hash c h) as [[i x]|] eqn:Hf; [|done]. intros [= <-].
    apply list_find_Some in Hf as (Hi%lookup_lt_Some & _). unfold max_u32. lia.
  - done.
Defined.
End light_client.

(** ** x/checkpointing as seen by x/btccheckpoint *)

Section checkpointing.
Import Checkpointing.
Context `{BM : Epoching.Bitmap} `{BL : Blst} `{EK : EpochingKeeper} {X : Type}.
Context (hooks : CheckpointingHooks X).

Definition ck_keeper : BtcCheckpoint.CheckpointingKeeper := {|
  BtcCheckpoint.CkptSt := CkptState * X;
  BtcCheckpoint.ck_VerifyCheckpoint := VerifyCheckpoint hooks;
  BtcCheckpoint.ck_SetCheckpointSubmitted := SetCheckpointSubmitted;
  BtcCheckpoint.ck_SetCheckpointConfirmed := SetCheckpointConfirmed hooks;
  BtcCheckpoint.ck_SetCheckpointFinalized := SetCheckpointFinalized hooks;
  BtcCheckpoint.ck_SetCheckpointForgotten := SetCheckpointForgotten hooks;
|}.

Definition ckpts_ok (s : CkptState) : Prop :=
  lifecycle_ok s ∧ checkpoints s !! 0%N = None.

Definition status_at (s : CkptState) (e : N) : option CheckpointStatus :=
  Status <$> checkpoints s !! e.

(** The common part of the four setters. *)
Lemma setter_effect s ctx e expected to :
  ckpts_ok s → (∀ st, st ∈ expected → next_status st to) →
  match setCheckpointStatus s ctx e expected to with
  | Ok (s', cm') => ckpts_ok s' ∧ checkpoints s' !! e = Some cm' ∧ Status cm' = to ∧
      ∀ e', status_at s' e' = if decide (e' = e)
        then BtcCheckpointSpec.status_change expected to (status_at s e) else status_at s e'
  | Err _ => ∀ e', status_at s e' = if decide (e' = e)
        then BtcCheckpointSpec.status_change expected to (status_at s e) else status_at s e'
  | Panic => False
  end.
Proof.
  intros [Hok Hz] Hnext. pose proof (setCheckpointStatus_spec s ctx e expected to Hok Hnext) as H.
  unfold status_at.
  destruct (setCheckpointStatus s ctx e expected to) as [[s' cm']|err|]; [| |done].
  - destruct H as (cm & He & Hst & Hcm & ->).
    destruct (status_update_ok s ctx e expected to cm cm' Hok Hnext He Hst Hcm) as [Hok' _].
    split_and!; [split; [done|]|apply lookup_insert_eq|by rewrite Hcm|].
    + simpl. rewrite lookup_insert_ne; [done|]. intros ->. congruence.
    + intros e'. simpl. destruct (decide (e' = e)) as [->|Hne].
      * rewrite lookup_insert_eq, He. simpl. rewrite decide_True by done. by rewrite Hcm.
      * by rewrite lookup_insert_ne.
  - intros e'. destruct (decide (e' = e)) as [->|]; [|done].
    destruct H as [->|(cm & -> & Hst)]; [done|]. simpl. by rewrite decide_False.
Qed.

Lemma setters_ok sx ctx e :
  ckpts_ok sx.1 →
  ∀ f expected to, (f, expected, to) ∈
    [(@SetCheckpointSubmitted X, [Sealed], Submitted);
     (SetCheckpointConfirmed hooks, [Submitted], Confirmed);
     (SetCheckpointFinalized hooks, [Confirmed], Finalized);
     (SetCheckpointForgotten hooks, [Submitted; Confirmed], Sealed)] →
  ∃ sx', f sx ctx e = Ok sx' ∧ ckpts_ok sx'.1 ∧
    ∀ e', status_at sx'.1 e' = if decide (e' = e)
      then BtcCheckpointSpec.status_change expected to (status_at sx.1 e) else status_at sx.1 e'.
Proof.
  destruct sx as [s x]. cbn [fst]. intros Hok f expected to Hf.
  assert (∀ st, st ∈ expected → next_status st to) as Hnext.
  { rewrite !elem_of_cons in Hf.
    destruct Hf as [[= _ -> ->]|[[= _ -> ->]|[[= _ -> ->]|[[= _ -> ->]|[]%not_elem_of_nil]]]];
      intros st Hst; set_unfold in Hst; naive_solver constructor. }
  pose proof (setter_effect s ctx e expected to Hok Hnext) as H.
  rewrite !elem_of_cons in Hf.
  destruct Hf as [[= -> -> ->]|[[= -> -> ->]|[[= -> -> ->]|[[= -> -> ->]|[]%not_elem_of_nil]]]];
    unfold SetCheckpointSubmitted, SetCheckpointConfirmed, SetCheckpointFinalized,
      SetCheckpointForgotten; cbn [fst snd];
    destruct (setCheckpointStatus _ _ _ _ _) as [[s' cm']|err|]; try done;
    try (eexists; split; [reflexivity|]; split; [exact Hok|exact H]);
    destruct H as (Hok' & He & Hst & H);
    (eexists; split; [reflexivity|]; split; [|exact H]); try exact Hok'.
  split; [|apply Hok']. by eapply finalize_ok; [apply Hok'|done|done].
Qed.

Lemma VerifyCheckpoint_frame sx ckpt sx' r :
  VerifyCheckpoint hooks sx ckpt = (sx', r) →
  checkpoints sx'.1 = checkpoints sx.1 ∧ LastFinalizedEpoch sx'.1 = LastFinalizedEpoch sx.1.
Proof.
  unfold VerifyCheckpoint. destruct (verifyCkptBytes _ _ _ _) as [x' [?|err|]];
    intros [= <- _]; [done| |done]. simpl. by case_bool_decide.
Qed.

Lemma VerifyCheckpoint_known sx ckpt sx' u :
  VerifyCheckpoint hooks sx ckpt = (sx', Ok u) →
  is_Some (checkpoints sx.1 !! BtcTxFormatter.Epoch ckpt).
Proof.
  unfold VerifyCheckpoint, verifyCkptBytes.
  destruct (checkCkptBytes sx.1 ckpt) as [[[c cm] i]|err|] eqn:Hc; [|by intros [=]..].
  intros _. unfold checkCkptBytes in Hc.
  apply bind_Ok in Hc as (rc & Hrc & Hc). apply bind_Ok in Hc as (? & _ & Hc).
  apply bind_Ok in Hc as (cm' & Hcm%of_option_Ok & _).
  assert (EpochNum rc = BtcTxFormatter.Epoch ckpt) as <-; [|by eexists].
  unfold FromBTCCkptToRawCkpt in Hrc. by inv_ok.
Qed.

Definition ck_laws : BtcCheckpointSpec.CheckpointingLaws (H := ck_keeper).
Proof.
  refine {| BtcCheckpointSpec.ck_ok (c : @BtcCheckpoint.CkptSt ck_keeper) := ckpts_ok c.1;
            BtcCheckpointSpec.ck_status (c : @BtcCheckpoint.CkptSt ck_keeper) e :=
              status_at c.1 e |}.
  - intros c ctx e f Hok Hf.
    assert (∃ expected to, (f, expected, to) ∈
      [(@SetCheckpointSubmitted X, [Sealed], Submitted);
       (SetCheckpointConfirmed hooks, [Submitted], Confirmed);
       (SetCheckpointFinalized hooks, [Confirmed], Finalized);
       (SetCheckpointForgotten hooks, [Submitted; Confirmed], Sealed)]) as (ex & to & Hin).
    { rewrite !elem_of_cons in Hf. simpl in Hf.
      destruct Hf as [->|[->|[->|[->|[]%not_elem_of_nil]]]]; do 2 eexists; rewrite !elem_of_cons;
        [by left|by right; left|by right; right; left|by right; right; right; left]. }
    destruct (setters_ok c ctx e Hok f ex to Hin) as (c' & ? & ? & _). eauto.
  - intros c ctx e f ex to c' Hok Hf Hc' e'.
    destruct (setters_ok c ctx e Hok f ex to Hf) as (c1 & H1 & _ & H).
    assert (c1 = c') as -> by congruence. apply H.
  - intros c ckpt c' r [Hok Hz] Hv. destruct (VerifyCheckpoint_frame _ _ _ _ Hv) as [Hc Hl].
    split; [split; [by apply (lifecycle_same c.1)|by rewrite Hc]|].
    intros e. unfold status_at. by rewrite Hc.
  - intros c ckpt c' u [Hok Hz] Hv. apply VerifyCheckpoint_known in Hv as [cm Hcm].
    split; [intros Hz'; rewrite Hz' in Hcm; congruence|]. unfold status_at. by rewrite Hcm.
Defined.
End checkpointing.

(** ** A block *)

Section block.
Import BtcCheckpoint BtcCheckpointSpec.
Context `{B : Btcd} {L : BtcdLaws}.
Context `{BM : Epoching.Bitmap} `{BL : Checkpointing.Blst} `{EK : Checkpointing.EpochingKeeper}.
Context {X : Type} (ckpt_hooks : Checkpointing.CheckpointingHooks X).
Context {Y : Type} (other : BTCLightClientHooks Y).

(** The hooks of x/btccheckpoint, and those of the other modules, on the state of
    both. *)
Definition bc_hooks : BTCLightClientHooks (BCState * Y) :=
  mkHooks (λ _ _ x, x) (λ _ _ _ x, (AfterBTCRollBack x.1, x.2))
    (λ _ _ x, (AfterBTCRollForward x.1, x.2)).
Definition other_hooks : BTCLightClientHooks (BCState * Y) :=
  mkHooks (λ s h x, (x.1, AfterBTCHeaderInserted other s h x.2))
    (λ s from to x, (x.1, BtcLightClientKeeper.AfterBTCRollBack other s from to x.2))
    (λ s h x, (x.1, BtcLightClientKeeper.AfterBTCRollForward other s h x.2)).
Definition app_hooks : BTCLightClientHooks (BCState * Y) :=
  MultiBTCLightClientHooks [bc_hooks; other_hooks].

Lemma notify_new_flag p new (x : BCState * Y) :
  (notify_new app_hooks p new x).1 =
    match new with [] => x.1 | _ => setBtcLightClientUpdated x.1 end.
Proof.
  unfold notify_new. destruct new as [|h new]; [done|]. cbn [foldl].
  assert ((notify_step app_hooks (p, x) h).2.1 = setBtcLightClientUpdated x.1) as Hx
    by reflexivity.
  revert Hx. generalize (notify_step app_hooks (p, x) h).
  induction new as [|h' new IH]; intros dx Hdx; [done|]. cbn [foldl]. apply IH.
  change (setBtcLightClientUpdated dx.2.1 = setBtcLightClientUpdated x.1). by rewrite Hdx.
Qed.

(** Accepting headers marks the light client as updated and does nothing else to
    x/btccheckpoint. *)
Lemma notify_flag c p new (x : BCState * Y) :
  new ≠ [] → (notify app_hooks c p new x).1 = setBtcLightClientUpdated x.1.
Proof.
  intros Hn. unfold notify. rewrite notify_new_flag. destruct new; [done|].
  destruct (last c), (last p); try done. by case_match.
Qed.

Lemma headers_accepted c raw x lc' x' :
  wf_chain c → (∀ bs, BtcHeadersBytesToBlockHeader raw = Ok bs → insertable c bs) →
  InsertHeadersWithHookAndEvents app_hooks (store_of c) x raw = Ok (lc', x') →
  ∃ c', holds_chain lc' c' ∧ better_chain c c' ∧ x'.1 = setBtcLightClientUpdated x.1.
Proof.
  intros Hc Hins Hx. unfold InsertHeadersWithHookAndEvents in Hx.
  destruct (length raw =? 0); [done|]. apply bind_Ok in Hx as (bs & Hbs & Hx).
  specialize (Hins _ Hbs). destruct (wf_last _ Hc) as [tip Htip].
  apply bind_Ok in Hx as (r & Hr & Hx).
  rewrite (InsertHeaders_spec c tip) in Hr by (done || apply Hins; done).
  apply bind_Ok in Hr as ([p new] & Hspec & [= <-]).
  rewrite (handler_spec app_hooks c bs p new) in Hx by done. injection Hx as <- <-.
  pose proof (insert_keeps_wf _ _ _ _ Hc Hins Hspec) as Hwf.
  exists (p ++ new). split_and!; [split_and!; [done|done|]|by eapply insert_spec_better|].
  - destruct (insert_spec_Ok _ _ _ _ Hc Hspec) as (i & Hp & He & _).
    pose proof (extend_length _ _ _ He) as Hlen.
    pose proof (consecutive_last _ _ (wf_consecutive _ Hc) Htip) as Hh.
    pose proof (ins_height _ _ Hins _ Htip) as Hb.
    assert (base (p ++ new) = base c) as -> by (subst p; by destruct c).
    assert (length p ≤ length c) by (subst p; rewrite length_take; lia).
    rewrite length_app, Hlen. lia.
  - apply notify_flag. intros ->. destruct (insert_spec_Ok _ _ _ _ Hc Hspec) as (i & _ & He & Hne & _).
    apply extend_length in He. by destruct bs.
Qed.

(** C12: A block in which headers are accepted. The light client then holds a
    well-formed chain that beats the old one, and the end of the block either settles
    every epoch that was not finalised yet on that chain, keeping the invariants of
    x/btccheckpoint and x/checkpointing and the finalised epochs, or it halts the chain;
    it halts only when a block of the submission of the last finalised epoch is not on
    the new chain.  An epoch that has lost all its submissions is open again and not
    settled.  Heights of Bitcoin stay below [2 ^ 31] and its block hashes do not collide
    ([insertable]). *)
Theorem block_settles_or_halts c raw bc y lc' x' (ck : Checkpointing.CkptState * X) ctx :
  wf_chain c → (∀ bs, BtcHeadersBytesToBlockHeader raw = Ok bs → insertable c bs) →
  bc_ok bc → ckpts_ok ck.1 →
  InsertHeadersWithHookAndEvents app_hooks (store_of c) (bc, y) raw = Ok (lc', x') →
  ∃ c', lc' = store_of c' ∧ wf_chain c' ∧ better_chain c c' ∧
  match EndBlocker (LC := lc_keeper) (CK := ck_keeper ckpt_hooks) lc' ctx (x'.1, ck) with
  | Ok (bc', ck') =>
      bc_ok bc' ∧ ckpts_ok ck'.1 ∧ progress bc bc' ∧
      ∀ e ed, (getLastFinalizedEpochNumber bc < e)%N → epochData bc' !! e = Some ed →
        Keys ed ≠ [] → ∃ b, settled (LC := lc_keeper) lc' bc' e ed b
  | Err _ => False
  | Panic => ∃ ed sk tk, epochData bc !! getLastFinalizedEpochNumber bc = Some ed ∧
      Status ed = Finalized ∧ Keys ed = [sk] ∧ tk ∈ Key sk ∧
      ∀ h, tk_Hash tk = Some h → find_hash c' h = None
  end.
Proof.
  intros Hc Hins Hbc Hck Hx.
  destruct (headers_accepted _ _ _ _ _ Hc Hins Hx) as (c' & (-> & Hwf & Hb) & Hbetter & Hflag).
  exists c'. split_and!; [done|done|done|]. rewrite Hflag. cbn [fst].
  set (bc1 := setBtcLightClientUpdated bc).
  assert (bc_ok bc1) as Hbc1
    by (apply (bc_ok_same bc); [reflexivity|reflexivity|apply (bo_params _ _ Hbc)|done]).
  assert (lc_ok (BTCLightClientLaws := lc_laws) (store_of c')) as Hlc
    by (exists c'; by split_and!).
  pose proof (checkCheckpoints_ok (LL := lc_laws) (CL := ck_laws ckpt_hooks) (store_of c') ctx
    bc1 ck Hbc1 Hlc Hck) as H.
  change (EndBlocker (LC := lc_keeper) (CK := ck_keeper ckpt_hooks) (store_of c') ctx (bc1, ck))
    with (checkCheckpoints (LC := lc_keeper)
    (CK := ck_keeper ckpt_hooks) (store_of c') ctx (bc1, ck)).
  destruct (checkCheckpoints _ _ _) as [[bc2 ck2]|e|]; [|done|].
  - destruct H as (Hck2 & Hp & _). split_and!; [apply Hp|done| |].
    + trans bc1; [by apply progress_same|].
      exact (loop_post_progress (LC := lc_keeper) (store_of c') bc1 bc2 Hbc1 Hp).
    + intros e ed Hlt He Hk. destruct (epochData bc !! e) as [ed0|] eqn:He0.
      * destruct (lp_from _ _ _ _ Hp e ed0) as (ed' & Hed' & _ & _ & Hset); [lia|done|].
        simplify_eq. by apply Hset.
      * by rewrite (lp_new _ _ _ _ Hp e He0) in He.
  - destruct H as (ed & sk & He & Hsk & Hi).
    assert (two_parts sk) as Htwo.
    { pose proof (bo_parts _ _ Hbc _ _ He) as Hf. rewrite Hsk in Hf. by inversion Hf. }
    pose proof (GetSubmissionBtcInfo_spec (LL := lc_laws) (store_of c') sk Hlc
      (two_parts_ne _ Htwo)) as Hs.
    unfold info_of in Hi. destruct (GetSubmissionBtcInfo _ sk) as [i|err|]; [done| |done].
    destruct Hs as (_ & tk & Htk & Hd). exists ed, sk, tk.
    split_and!; [done|by apply (bo_final _ _ Hbc _ _ He)|done|done|].
    intros h Hh. unfold depth_of in Hd. rewrite Hh in Hd.
    change (lc_MainChainDepth (BTCLightClientKeeper := lc_keeper) (store_of c') (Some h)) with (MainChainDepth (store_of c') (Some h)) in Hd.
    rewrite MainChainDepth_store in Hd by (done || by apply wf_consecutive || apply Hwf).
    by destruct (find_hash c' h) as [[]|].
Qed.
End block.

(** ** An example

    Epoch 1 has been submitted twice, in block 1 and in blocks 2 and 3; a heavier
    fork from block 1 arrives. *)
Module Examples.
Import BtcCheckpoint BtcCheckpointSpec.
Module LcEx := BtcLightClientSpec.Examples.
Module CkEx := CheckpointingProposal.CheckpointingProposal.Examples.
Module BcEx := BtcCheckpointSpec.Examples.

Definition bc : BCState :=
  mkBCState {[ 1%N := mkEpochData [BcEx.key 1 1; BcEx.key 2 3] Submitted ]} ∅ None false
    (Some BcEx.params).

Lemma bc_is_ok : bc_ok bc.
Proof.
  split; simpl.
  - reflexivity.
  - intros e H2 [? [<- _]%lookup_singleton_Some]. lia.
  - intros e ed _ H2 [<- _]%lookup_singleton_Some. lia.
  - intros e ed [<- <-]%lookup_singleton_Some. split; [discriminate|].
    change (1 ≤ 0 → Submitted = Finalized)%N. lia.
  - left. reflexivity.
  - intros e ed [_ <-]%lookup_singleton_Some. discriminate.
  - intros e ed [_ <-]%lookup_singleton_Some.
    repeat (constructor; [unfold two_parts; simpl; lia|]). constructor.
  - vm_compute. reflexivity.
Qed.

Definition ck : Checkpointing.CkptState * unit :=
  foldl (Checkpointing.step (BM := Epoching.Examples.byte_bitmap) (BL := CkEx.toy_blst)
           (EK := CkEx.toy_epoching) CkEx.no_hooks) (CkEx.registered, tt)
    [(CkEx.ctx, Checkpointing.OpSeal (CkEx.built CkEx.good_votes));
     (CkEx.ctx, Checkpointing.OpSubmitted 1)].

Lemma ck_is_ok : ckpts_ok ck.1.
Proof.
  split; [|vm_compute; reflexivity]. unfold ck. cbn [foldl].
  apply Checkpointing.step_ok; [|done].
  apply Checkpointing.step_ok; [|vm_compute; reflexivity].
  apply CkEx.registered_lifecycle_ok.
Qed.

(** A light-client hook of another module: it counts the calls. *)
Definition counting : BTCLightClientHooks nat :=
  mkHooks (λ _ _, S) (λ _ _ _, S) (λ _ _, S).

Definition inserted : headersState * (BCState * nat) :=
  match InsertHeadersWithHookAndEvents (B := Toy.btcd) (app_hooks counting)
          (store_of LcEx.chain) (bc, 0) LcEx.fork_bytes with
  | Ok r => r
  | _ => (store_of LcEx.chain, (bc, 0))
  end.

Definition ended : res BcErr (BCState * (Checkpointing.CkptState * unit)) :=
  EndBlocker (LC := lc_keeper)
    (CK := ck_keeper (BM := Epoching.Examples.byte_bitmap) (BL := CkEx.toy_blst)
             (EK := CkEx.toy_epoching) CkEx.no_hooks) inserted.1 CkEx.ctx (inserted.2.1, ck).

Lemma block_settles_or_halts_witness :
  ∃ c', inserted.1 = store_of c' ∧ wf_chain (B := Toy.btcd) c' ∧ better_chain LcEx.chain c' ∧
  match ended with
  | Ok (bc', ck') => bc_ok bc' ∧ ckpts_ok ck'.1 ∧
      epochData bc' !! 1%N = Some (mkEpochData [BcEx.key 1 1] Confirmed) ∧
      status_at ck'.1 1 = Some Checkpointing.Confirmed
  | _ => False
  end.
Proof.
  assert (InsertHeadersWithHookAndEvents (B := Toy.btcd) (app_hooks counting)
    (store_of LcEx.chain) (bc, 0) LcEx.fork_bytes = Ok (inserted.1, inserted.2)) as H.
  { unfold inserted. assert (is_ok (InsertHeadersWithHookAndEvents (B := Toy.btcd)
      (app_hooks counting) (store_of LcEx.chain) (bc, 0) LcEx.fork_bytes) = true) as Hok
      by (vm_compute; reflexivity).
    destruct (InsertHeadersWithHookAndEvents _ _ _ _) as [[]| |]; [reflexivity|discriminate..]. }
  destruct (block_settles_or_halts (B := Toy.btcd) (BM := Epoching.Examples.byte_bitmap)
    (BL := CkEx.toy_blst) (EK := CkEx.toy_epoching) CkEx.no_hooks counting LcEx.chain
    LcEx.fork_bytes bc 0 inserted.1 inserted.2 ck CkEx.ctx LcEx.wf_ext_chain)
    as (c' & Hs & Hwf & Hb & Hend).
  - intros bs ->%LcEx.fork_bytes_parse. apply LcEx.fork_insertable.
  - exact bc_is_ok.
  - exact ck_is_ok.
  - exact H.
  - exists c'. split; [exact Hs|]. split; [exact Hwf|]. split; [exact Hb|].
    fold ended in Hend.
    assert (match ended with
            | Ok (bc', ck') => bool_decide (epochData bc' !! 1%N =
                  Some (mkEpochData [BcEx.key 1 1] Confirmed)) &&
                bool_decide (status_at ck'.1 1 = Some Checkpointing.Confirmed)
            | _ => false
            end = true) as He by (vm_compute; reflexivity).
    destruct ended as [[bc' ck']| |]; [|discriminate He..].
    apply andb_true_iff in He as [H1%bool_decide_eq_true H2%bool_decide_eq_true].
    destruct Hend as (Hok & Hck & _). split; [exact Hok|]. split; [exact Hck|]. split; assumption.
Defined.
End Examples.

End System.
